(* ===== verification/_CoqProject ===== *)
-Q . S2P
Prelude.v
GoStrings.v
Base64.v
Regex.v
Protocol.v
PathMatch.v
Policy.v
NetIP.v
Limiter.v
Transport.v
Access.v
Claims.v
ClaimsInv.v
ClaimsSpec.v
ClaimsLife.v
NameRegistry.v
NameRegistryInv.v
NameRegistrySpec.v
RelayTunnels.v
RelayTunnelsSpec.v
RelayServe.v
RelayServeSpec.v
Gateway.v
Connect.v
Pipe.v
EdgeConf.v
EdgeConfSpec.v
EdgePool.v
EdgePoolSpec.v
Edge.v
EdgeSpec.v
EdgeServeSpec.v
EdgeStatusSpec.v
LiveView.v
LiveViewSpec.v
Store.v
StoreSpec.v
AdminSpec.v
Oidc.v
OidcSpec.v
HttpProxy.v
Agent.v
AgentSpec.v
Wires.v
Grace.v
AgentRelay.v
Alerts.v
AlertsSpec.v
Reservations.v
Registry.v
RegistrySpec.v
RegistryPorts.v
Manage.v
Certs.v
CertsSpec.v
ServerConf.v
ServerConfSpec.v
EdgeDomains.v
EdgeDomainsSpec.v
EdgeNode.v
EdgeNodeSpec.v
RelayNode.v
Inspect.v
InspectSpec.v
AgentConf.v
AgentConfSpec.v
AdminCli.v
AdminCliSpec.v
ManageSpec.v
ImportSpec.v
RevokeSpec.v
RelayNodeSpec.v
ClusterConfSpec.v
