(* ===== verification/Prelude.v ===== *)
(** * l8tunnel: a verification development

l8tunnel is a reverse tunnel. Agents behind firewalls keep a session with a
relay and register tunnels; visitors reach a tunnel through the relay by host
name, custom domain or public port. A relay runs alone, with its own database,
or in a cluster: there a registry process grants names, ports and domains to
the relays, edges forward public ports to backends and relays, and everybody
routes by cached copies of the registry's live tables. This library models the
Go code under src/go as executable functions and proves what it promises.

** Parts, files and sources

- Names and framing (go/tunnel/protocol): Protocol.v; the path matcher and
  regular expressions it and the policies use: PathMatch.v, Regex.v. Go's
  strings, strconv, base64 and net functions: GoStrings.v, Base64.v, NetIP.v.
- Token policies and claim rules (go/tunnel/auth/policy.go,
  go/tunnel/registry/rules.go): Policy.v. Access policies, tokens, certificates
  and gateway keys (go/tunnel/auth): Access.v. The rate limiter
  (auth/ratelimit.go): Limiter.v.
- The claims engine of the registry process (go/tunnel/claims): Claims.v has
  its state [Engine] and operations ([Handle], [Sweep], [Command]), ClaimsInv.v
  the invariants, ClaimsSpec.v and ClaimsLife.v the theorems.
- The relay: its names (relay/registry.go) in NameRegistry*.v, with reservations
  on a heap because sessions share them; registering tunnels and
  authenticating (relay/tunnel.go, session.go) in RelayTunnels*.v; sessions,
  routing of connections, streams, the SSH gateway and operators' commands
  (relay/router.go, gateway.go, session.go, admin.go) in RelayServe*.v. Its
  database and admin API (go/tunnel/store, go/tunnel/admin/api.go): Store.v,
  StoreSpec.v, AdminSpec.v. The HTTP proxy (go/tunnel/httpproxy) and the login
  service (go/tunnel/oidc): HttpProxy.v, Oidc.v, OidcSpec.v. The channels of the
  SSH gateway, also to tunnels of other relays (relay/gateway.go): Gateway.v.
  Operators' command line and its client (admin/cli.go, client.go, export.go)
  against the relay's handlers: AdminCli.v, AdminCliSpec.v. Visitors' command
  line client (client/connect.go) against the router: Connect.v.
- The edge: stored domains and their rules (go/tunnel/edgeconf) in EdgeConf*.v,
  pools, load balancing and health checks (edge/pool.go, health.go) in
  EdgePool*.v, applying a configuration, routing and serving (go/tunnel/edge)
  in Edge.v with EdgeSpec.v, EdgeServeSpec.v, EdgeStatusSpec.v. Signed PROXY
  headers between edge and relays (transport/proxyproto.go): Transport.v.
- The cluster's glue that routes: the live view, the edge's and the relays'
  questions to it and the relays' claims (tun/common/liveview.go,
  tun/edgenode/live.go, tun/relaynode/link.go): LiveView.v, LiveViewSpec.v.
- The agent (go/tunnel/agent): Agent.v has its configuration, handshake,
  sessions as sequences of events, the reconnect loop and its streams;
  AgentSpec.v its own theorems, Grace.v what a standalone relay does to the
  names of an agent that is away, and AgentRelay.v the theorems of agent and
  relay together. Its configuration file and command line (config/agent.go,
  agent_cli.go, target.go, logging.go, cmd/l8tunnel-agent): AgentConf.v,
  AgentConfSpec.v. The request inspector (go/tunnel/inspect): Inspect.v,
  InspectSpec.v.
- Connections: joining two of them, which every tunnel type ends in
  (go/tunnel/pipe, transport/mux.go), as interleaved actions of its goroutines:
  Pipe.v. Byte streams over WebSockets and behind a look at the ClientHello,
  proxies, and both transports of an agent at the router (transport/websocket.go,
  proxy.go, tls.go, sni/sni.go, agent/session.go dial): Wires.v.
- The alert rules (go/tun/alerts): Alerts.v, AlertsSpec.v.
- The registry process around the engine (go/tun/live: the live tables, the
  directory, the background jobs and the handlers): Registry.v, RegistrySpec.v,
  RegistryPorts.v; the reservations service and the services' common callback
  (go/tun/access/reservations, go/tun/common/callback.go): Reservations.v, whose
  class [TableService] states what a stored table promises.
- Agent credentials in the cluster (go/tun/common/convert.go,
  go/tun/access/tokens, agentcerts, gwkeys, issue): Manage.v, in a monad over
  the tables in which any call may fail; ManageSpec.v (issuing), ImportSpec.v,
  RevokeSpec.v.
- Certificates (go/tunnel/certs, go/tunnel/edgeconf/certs.go): Certs.v,
  CertsSpec.v. Configuration (go/tunnel/config server.go and cluster.go) and the
  relay it makes (relay/config.go, relay/server.go): ServerConf.v,
  ServerConfSpec.v, ClusterConfSpec.v.
- The edge domains service (go/tun/edge/domains): EdgeDomains*.v. The edge as a
  node of the cluster (go/tun/edgenode, go/tun/edge/nodes): EdgeNode*.v. The
  relay as a node (go/tun/relaynode accounts.go, ctl.go, node.go, tlscert.go):
  RelayNode.v, RelayNodeSpec.v.

** How the code is modelled

A method that holds its object's lock is a function from state to state;
several goroutines are steps of a relation, in any order. Structs are records
with [<| field := value |>] for assignment, Go maps are [gmap]s, a [range] over
a map takes its order from the class [MapRange], so theorems hold for every
order. Errors are [result] values; the texts of messages are constructors.
Integers are [Z] with the conversions int32, uint32, int64 and uint64 written
out where the code converts; float64 in the limiter is rational arithmetic.
Time is nanoseconds; an operation takes the clock's readings as arguments, one
for a whole operation unless the code's behaviour depends on a second reading.
The network, TLS, bcrypt, SHA-256, HMAC, JSON and the providers' answers are
arguments or classes ([Crypto], [HMAC], [Payload], [GoUnicode], [network]); what
is relied on is a law of the class or a hypothesis, and each class has an
instance with which the witnesses run. Effects the model does not follow
(messages sent, tunnels closed) are lists the operations return.

Components meet in interfaces: [MapRange] and the crypto classes; [BatchInv]
for what a batch of records keeps; [HTTPHost], through which the proxy sees the
relay's tunnels; [Live] and [ClusterLink], which edge and relay use and which
LiveView.v implements; [ByteReader], what reading a connection promises; [TableService], which every stored table is used through,
with [map_service] as an instance; [X509] for certificates. The table services
are libraries: of a PATCH it is only assumed that it stores a row that sets
everything and is no shorter than the stored one, since it skips zero values
and never shrinks a list.

** What is proved

- Claims: two connected tunnels never share a name, port or domain (as long as
  announcements do not contradict each other); the reported changes rebuild the
  live tables exactly, and all but changes of only custom domains are pushed; claims are all or nothing, take nothing from anybody, and
  respect the token's limit; the port search is correct for the int32 loop;
  lost relays release their tunnels.
- Relay: names, domains and ports are exclusive; a registration opens all it
  asks for or is refused, and then leaves everything as it was if its names were
  new (a name taken over from an older session of the agent is left parked); a registered tunnel is reached by its host name; a connection or
  gateway stream passes only with an allowed address and the credentials the
  policy asks for; token guesses are bounded by the limiter's budget times the connections that
  wait at once; authentication is characterised by secrets and listed
  certificates. A gateway channel reaches a tunnel from every relay exactly if
  the tunnel's own relay would allow it on port 22; "connect" sends a token only to the
  tunnels that ask for one. Database: well-formed whatever is done, errors change nothing
  and each has its reason, keys of a wrong size included,
  certificates are good until their token is deleted; the running relay and the
  database agree on reservations; a revoked token is gone everywhere. A command
  of the admin command line does on the relay what it says.
- HTTP: a request reaches a tunnel's service only past the address list, basic
  auth and the login, and carries exactly the logged-in user; a session traces
  back to the provider of that host vouching for the email, each step within its
  time (no forged HMAC); codes are good once; logging in works for a browser
  that keeps to these times.
- Edge: accepted domains stay consistent; after Apply exactly the configured
  ports, names and pools are served; round robin is fair, dialing terminates
  having tried what it should, health checks follow their thresholds; streams go
  to allowed routes only, and a relay gives a stream to exactly the tunnel it
  serves under the name the live tables have; a signature is good only for its
  tunnel, client and minute, short of a collision.
- Cluster: the live tables are the engine's state and a copy of them routes as
  the registry says; a granted claim is routed; an assigned port stays with its
  tunnel while nobody asks for another or edits the reservation; after an
  announcement relay and registry agree about every open reported tunnel.
- Credentials: an issued token or certificate lets its agent in; an import lets
  in exactly the agents of the standalone relay; a revoked token is gone from
  the tables and refused by a relay that heard of it, until it restarts from an
  old snapshot.
- Configuration: an accepted cluster.yaml gives relays that start and apply the
  registry's rules; a relay that starts on its database has its reservations;
  starting is all or nothing. Stored domains stay consistent through the service
  (patches that do not shorten a list, upkeep of the tunnel base), and an edge
  presents every site its own certificate, unless names change under a kept one.
- Agent: configurations that pass its checks are well-formed; waits between
  reconnects are the capped exponential backoff; a session ends for missed
  heartbeats exactly when it should. With the relay: a visitor of a configured
  tunnel reaches its target; a reconnect within the grace period gets back names, ports and
  domains, whatever happened to other names.
  An agent that starts has exactly the tunnels its file or arguments describe,
  with their restrictions; the inspector's replays repeat the recorded request.
- Connections: joined connections deliver what was sent, in order, in whatever
  order the goroutines run, and Join returns once both peers are done; what is
  written to a WebSocket is read from it; nothing is lost by looking at the
  ClientHello; both transports of an agent reach the relay's agent handlers.
- Alerts: a round fires exactly the rules for which the tables have something to
  report, stated on the tables condition by condition;
  a rule does not fire again before its cooldown.

Fuel: [scan] and [first_port] search as many ports as the range has;
[dial_fuel] is two more than the pool's members; [claim_fuel] is twelve
attempts a second apart for a deadline of ten seconds. The theorems show that
these never run out.

** Not modelled

The start-up of the other programs, printed tables, the web UI, TLS, WebSocket
framing and multiplexing (libraries), writes that wait for a slow peer, metrics, logs and error pages, generated protobuf code, certmagic and the Layer 8
framework (activating services, storing rows, pushing): they are I/O, wiring or
calls of libraries. A relay node's theorems take a lookup, a refresh and a
handshake as one step each; what their overlap with a revocation does is shown
by examples in RevokeSpec.v. *)

From stdpp Require Export base gmap strings list fin_maps sets numbers pretty sorting relations.
From stdpp Require Import options.

#[export] Set Warnings "-clear-no-such-hyp".

Declare Scope l8_scope.
Delimit Scope l8_scope with l8.

(** ** Results

Go's [(value, error)] pairs: exactly one of the two is meaningful. *)
Inductive result (E A : Type) :=
| Ok (a : A)
| Err (e : E).
Arguments Ok {_ _} _.
Arguments Err {_ _} _.

#[export] Instance result_ret {E} : MRet (result E) := fun A a => Ok a.
#[export] Instance result_bind {E} : MBind (result E) :=
  fun A B f r => match r with Ok a => f a | Err e => Err e end.
#[export] Instance result_fmap {E} : FMap (result E) :=
  fun A B f r => match r with Ok a => Ok (f a) | Err e => Err e end.

(** [if cond then fail e; rest]: the early returns of the Go code. *)
Notation "'refuse!' b 'with' e ';;' k" := (if b then Err e else k)
  (at level 10, b at level 99, e at level 99, k at level 200,
   format "refuse!  b  with  e  ;; '//' k") : l8_scope.

Definition is_ok {E A} (r : result E A) : bool :=
  match r with Ok _ => true | Err _ => false end.

(** [for _, x := range l { b, err = f(b, x); if err != nil { return err } }] *)
Fixpoint foldM {E A B} (f : B → A → result E B) (b : B) (l : list A) : result E B :=
  match l with
  | [] => Ok b
  | x :: l => match f b x with Ok b' => foldM f b' l | Err e => Err e end
  end.

(** A loop that maps every element and stops at the first error. *)
Fixpoint mapR {E A B} (f : A → result E B) (l : list A) : result E (list B) :=
  match l with
  | [] => Ok []
  | x :: l =>
      match f x with
      | Err e => Err e
      | Ok y => match mapR f l with Ok ys => Ok (y :: ys) | Err e => Err e end
      end
  end.

(** ** Machine integers and time *)

(** Conversion to a signed 32-bit integer (Go's [int32(x)]): wrap-around. *)
Definition int32 (z : Z) : Z := ((z + 2 ^ 31) mod 2 ^ 32 - 2 ^ 31)%Z.
Definition uint32 (z : Z) : Z := (z mod 2 ^ 32)%Z.
Definition uint64 (z : Z) : Z := (z mod 2 ^ 64)%Z.
Definition int64 (z : Z) : Z := ((z + 2 ^ 63) mod 2 ^ 64 - 2 ^ 63)%Z.

Definition is_int32 (z : Z) : Prop := (- 2 ^ 31 ≤ z < 2 ^ 31)%Z.

(** Instants are nanoseconds since the Unix epoch, durations nanoseconds. *)
Definition second : Z := 1000000000.
Definition minute : Z := (60 * second)%Z.
Definition hour : Z := (60 * minute)%Z.
(** The zero [time.Time]: January 1 of year 1. *)
Definition zeroTime : Z := (-62135596800 * second)%Z.
(** [t.Unix()] *)
Definition unix (t : Z) : Z := (t / second)%Z.

Lemma int32_id z : is_int32 z → int32 z = z.
Proof. unfold is_int32, int32. intros. rewrite Z.mod_small; lia. Qed.

Lemma int32_range z : is_int32 (int32 z).
Proof.
  unfold is_int32, int32. pose proof (Z.mod_pos_bound (z + 2 ^ 31) (2 ^ 32)). lia.
Qed.

Lemma unix_mono a b : (a ≤ b)%Z → (unix a ≤ unix b)%Z.
Proof. unfold unix, second. intros. apply Z.div_le_mono; lia. Qed.

(** ** Iterating over a Go map

A [range] over a map visits every entry once, in an order the language
leaves open. The loops of the program change only the entry they visit, so
they see each entry's value as of the start of the loop; a definition that
ranges over a map takes the order from this class and its theorems hold for
every order. *)
Class MapRange := {
  range : ∀ {K V : Type} `{Countable K}, gmap K V → list (K * V);
  range_perm : ∀ {K V : Type} `{Countable K} (m : gmap K V), range m ≡ₚ map_to_list m;
}.

(** The order of the map's own enumeration, used to run the definitions. *)
#[export] Program Instance map_to_list_range : MapRange | 100 := {|
  range _ _ _ _ m := map_to_list m
|}.
Next Obligation. done. Qed.

Section map_range.
Context `{MapRange}.

Lemma elem_of_range {K V} `{Countable K} (m : gmap K V) k v :
  (k, v) ∈ range m ↔ m !! k = Some v.
Proof. rewrite range_perm. apply elem_of_map_to_list. Qed.

Lemma NoDup_range {K V} `{Countable K} (m : gmap K V) : NoDup (range m).*1.
Proof. rewrite range_perm. apply NoDup_fst_map_to_list. Qed.

Lemma elem_of_range_keys {K V} `{Countable K} (m : gmap K V) k :
  k ∈ (range m).*1 ↔ is_Some (m !! k).
Proof.
  rewrite list_elem_of_fmap. split.
  - intros [[k' v] [-> Hin]]. apply elem_of_range in Hin. simpl. eauto.
  - intros [v Hv]. exists (k, v). by rewrite elem_of_range.
Qed.

Lemma length_range {K V} `{Countable K} (m : gmap K V) : length (range m) = size m.
Proof. by rewrite range_perm, length_map_to_list. Qed.
End map_range.

(** ** Record updates

[r <| f := v |>] is the struct [r] with field [f] set to [v]. Each record
type gives its eta expansion once; the setters are built from it. *)
#[local] Set Warnings "-postfix-notation-not-level-1".
Class Eta (R : Type) := eta : R → R.
Class Setter {R A : Type} (f : R → A) := set_field : A → R → R.
Ltac build_setter :=
  match goal with
  | |- @Setter ?R ?A ?f =>
      let v := fresh "v" in
      let r := fresh "r" in
      intros v r;
      let e := eval hnf in (eta r) in
      let e' := eval pattern (f r) in e in
      match e' with ?F _ => let t := eval cbv beta in (F v) in exact t end
  end.
#[export] Hint Extern 0 (Setter _) => build_setter : typeclass_instances.
Notation "r <| f := v |>" := (set_field (f := f) v r)
  (at level 12, left associativity, f at level 0, v at level 99,
   format "r  <| f  :=  v |>") : l8_scope.

(** ** Loops *)

Lemma foldl_inv {A B} (P : B → Prop) (f : B → A → B) l b :
  P b → (∀ b x, x ∈ l → P b → P (f b x)) → P (foldl f b l).
Proof.
  revert b. induction l as [|x l IH]; intros b Hb Hstep; [done|]. simpl.
  apply IH; [apply Hstep; [set_solver|done]|]. intros; apply Hstep; [set_solver|done].
Qed.

Lemma foldM_inv {E A B} (P : B → Prop) (f : B → A → result E B) l b b' :
  foldM f b l = Ok b' → P b →
  (∀ b x b', x ∈ l → P b → f b x = Ok b' → P b') → P b'.
Proof.
  revert b. induction l as [|x l IH]; intros b Hf Hb Hstep; simpl in *.
  { by simplify_eq. }
  destruct (f b x) as [b1|] eqn:Hfx; [|done].
  apply (IH b1 Hf); [eapply Hstep; [|done..]; set_solver|].
  intros ??? ?. apply Hstep. set_solver.
Qed.

Lemma NoDup_fmap_inj_on {A B} (f : A → B) (l : list A) x y : NoDup (f <$> l) → x ∈ l → y ∈ l → f x = f y → x = y.
Proof.
  intros Hnd [i Hi]%list_elem_of_lookup [j Hj]%list_elem_of_lookup Hf.
  assert (i = j) as ->; [|congruence]. apply (NoDup_lookup (f <$> l) i j (f x) Hnd); rewrite list_lookup_fmap.
  - by rewrite Hi.
  - rewrite Hj. cbn. by rewrite Hf.
Qed.

(** A loop that meets [a] makes [Q] true if the round of [a] does and no round undoes it. *)
Lemma foldl_reaches {A B} (I Q : B → Prop) (f : B → A → B) a l b :
  (∀ b x, x ∈ l → I b → I (f b x)) → (∀ b x, x ∈ l → I b → Q b → Q (f b x)) → (∀ b, I b → Q (f b a)) → a ∈ l → I b → Q (foldl f b l).
Proof.
  intros HI HQ Ha. revert b. induction l as [|x l IH]; intros b Hin Hb; [by apply elem_of_nil in Hin|]. cbn [foldl].
  apply elem_of_cons in Hin as [<-|Hin].
  - assert (I (f b a) ∧ Q (f b a)) as [Hb' Hq] by (split; [apply HI; [left|done]|by apply Ha]).
    apply (foldl_inv (λ b, I b ∧ Q b)); [done|]. intros b' y Hy [? ?]. split; [apply HI|apply HQ]; done || by right.
  - apply IH; [intros; apply HI; [by right|done]|intros; apply HQ; [by right|done..]|done|]. apply HI; [left|done].
Qed.

(** A loop in which some elements set a value and the others leave it. *)
Lemma foldl_set {S A W} (get : S → option W) (f : S → A → S) (P : A → Prop) `{∀ a, Decision (P a)} (w : W) l s :
  (∀ s a, a ∈ l → P a → get (f s a) = Some w) → (∀ s a, a ∈ l → ¬ P a → get (f s a) = get s) →
  (∃ a, a ∈ l ∧ P a) ∨ get s = Some w → get (foldl f s l) = Some w.
Proof.
  revert s. induction l as [|a l IH]; intros s Hset Hkeep Hex; cbn [foldl].
  { destruct Hex as [(a & ?%elem_of_nil & _)|]; done. }
  apply IH; [intros; apply Hset; [by right|done]|intros; apply Hkeep; [by right|done]|].
  destruct (decide (P a)) as [Ha|Ha]; [right; apply Hset; [left|done]|]. rewrite Hkeep by (done || left).
  destruct Hex as [(b & [->|Hb]%elem_of_cons & HP)|]; [done|left; by exists b|by right].
Qed.

Lemma foldl_keep {S A W} (get : S → W) (f : S → A → S) l s :
  (∀ s a, a ∈ l → get (f s a) = get s) → get (foldl f s l) = get s.
Proof.
  revert s. induction l as [|a l IH]; intros s Hl; [done|]. cbn [foldl].
  rewrite IH by (intros; apply Hl; by right). apply Hl. left.
Qed.

(** Counting in a loop. *)
Lemma foldl_count {A} (f : A → bool) (g : Z → A → Z) l z :
  (∀ z x, g z x = if f x then (z + 1)%Z else z) → foldl g z l = (z + Z.of_nat (length (List.filter f l)))%Z.
Proof.
  intros Hg. revert z. induction l as [|x l IH]; intros z; cbn; [lia|]. rewrite IH, Hg. destruct (f x); cbn; lia.
Qed.

Lemma existsb_false {A} (f : A → bool) l : existsb f l = false ↔ ∀ x, x ∈ l → f x = false.
Proof.
  induction l as [|y l IH]; [split; [by intros _ x ?%elem_of_nil|done]|]. cbn. rewrite orb_false_iff, IH. split.
  - intros [Hy Hl] x [->|Hx]%elem_of_cons; [done|by apply Hl].
  - intros Hl. split; [apply Hl; left|intros x Hx; apply Hl; by right].
Qed.

Lemma elem_of_filterb {A} (f : A → bool) l x : x ∈ List.filter f l ↔ x ∈ l ∧ f x = true.
Proof. rewrite !list_elem_of_In. apply List.filter_In. Qed.

Lemma sublist_filterb {A} (f : A → bool) (l : list A) : sublist (List.filter f l) l.
Proof. induction l as [|x l IH]; cbn; [constructor|]. destruct (f x); by constructor. Qed.

Lemma find_none {A} (f : A → bool) l : List.find f l = None → ∀ x, x ∈ l → f x = false.
Proof. intros Hf x Hx. eapply List.find_none; [done|]. by apply list_elem_of_In. Qed.

(** A loop whose body for key [k] changes only what [get] sees at [k]: after
it, every key of the list went through [g] once and the others are as they
were. *)
Lemma foldl_pointwise {S K V W} (get : S → K → W) (f : S → K * V → S)
    (g : K → V → W → W) (l : list (K * V)) (s : S) :
  (∀ s k v, get (f s (k, v)) k = g k v (get s k)) →
  (∀ s k v k', k' ≠ k → get (f s (k, v)) k' = get s k') →
  NoDup l.*1 →
  (∀ k v, (k, v) ∈ l → get (foldl f s l) k = g k v (get s k)) ∧
  (∀ k, k ∉ l.*1 → get (foldl f s l) k = get s k).
Proof.
  intros Hk Hne. revert s. induction l as [|[k0 v0] l IH]; intros s Hnd.
  { split; [intros ?? ?%elem_of_nil; done|done]. }
  cbn in Hnd. apply NoDup_cons in Hnd as [Hnin Hnd].
  destruct (IH (f s (k0, v0)) Hnd) as [IH1 IH2]. split.
  - intros k v [Heq|Hin]%elem_of_cons; simpl.
    + simplify_eq. rewrite IH2 by done. apply Hk.
    + rewrite (IH1 _ _ Hin). f_equal. apply Hne. intros ->.
      apply Hnin. apply list_elem_of_fmap. by exists (k0, v).
  - intros k Hkin. cbn in Hkin. apply not_elem_of_cons in Hkin as [Hk0 Hkl]. simpl.
    rewrite IH2 by done. by apply Hne.
Qed.

(** ** Automation *)

Create HintDb l8 discriminated.

(** Split every [match]/[if] in the hypotheses and the goal, solving the
branches that contradict each other. *)
Ltac split_branches :=
  repeat (simplify_eq/=; try done; try case_match; simplify_eq/=; try done).

Ltac bool_facts :=
  repeat match goal with
  | H : _ && _ = true |- _ => apply andb_true_iff in H as [? ?]
  | H : _ || _ = false |- _ => apply orb_false_iff in H as [? ?]
  | H : negb _ = true |- _ => apply negb_true_iff in H
  | H : negb _ = false |- _ => apply negb_false_iff in H
  | H : bool_decide _ = true |- _ => apply bool_decide_eq_true_1 in H
  | H : bool_decide _ = false |- _ => apply bool_decide_eq_false_1 in H
  | H : (_ =? _)%Z = true |- _ => apply Z.eqb_eq in H
  | H : (_ =? _)%Z = false |- _ => apply Z.eqb_neq in H
  | H : (_ <? _)%Z = true |- _ => apply Z.ltb_lt in H
  | H : (_ <? _)%Z = false |- _ => apply Z.ltb_ge in H
  | H : (_ <=? _)%Z = true |- _ => apply Z.leb_le in H
  | H : (_ <=? _)%Z = false |- _ => apply Z.leb_gt in H
  end.

(** Case analysis on the outermost condition of [H : (if b then _ else _) = _]. *)
Ltac case_if_in H :=
  lazymatch type of H with
  | (if ?b then _ else _) = _ => let Hb := fresh "Hif" in destruct b eqn:Hb
  end.
