(* ===== verification/GoStrings.v ===== *)
(** * Go strings

The operations of Go's [strings] and [strconv] packages the program uses,
on byte strings. Case mapping and white space outside ASCII come from Go's
Unicode tables, which the class [GoUnicode] stands for. *)

From S2P Require Import Prelude.
From stdpp Require Import options.
From Stdlib Require Import Ascii.

(** ** Bytes *)

Definition code (c : ascii) : N := N_of_ascii c.
Definition is_ascii_byte (c : ascii) : bool := (code c <? 128)%N.
Definition is_digit (c : ascii) : bool := ((48 <=? code c) && (code c <=? 57))%N.
Definition is_lower (c : ascii) : bool := ((97 <=? code c) && (code c <=? 122))%N.
Definition is_upper (c : ascii) : bool := ((65 <=? code c) && (code c <=? 90))%N.
Definition lower_byte (c : ascii) : ascii :=
  if is_upper c then ascii_of_N (code c + 32) else c.
Definition is_space_byte (c : ascii) : bool :=
  ((code c =? 32) || ((9 <=? code c) && (code c <=? 13)))%N.

(** Decide a statement about the classes of one byte by its 256 cases. *)
Ltac byte_cases c :=
  revert c; intros [[] [] [] [] [] [] [] []]; vm_compute; congruence.

Fixpoint str_forall (P : ascii → bool) (s : string) : bool :=
  match s with "" => true | String c s => P c && str_forall P s end.
Fixpoint str_map (f : ascii → ascii) (s : string) : string :=
  match s with "" => "" | String c s => String (f c) (str_map f s) end.
Definition str_mem (c : ascii) (s : string) : bool :=
  negb (str_forall (λ x, negb (Ascii.eqb x c)) s).

(** Go's Unicode tables: [strings.ToLower] and [strings.TrimSpace] on a
string with a byte outside ASCII. *)
Class GoUnicode := {
  lower_unicode : string → string;
  trim_unicode : string → string;
}.

(** Tables that map nothing, to run the definitions on ASCII inputs. *)
#[export] Instance ascii_only : GoUnicode | 100 := {|
  lower_unicode s := s; trim_unicode s := s
|}.

(** [strings.ToLower] *)
Definition ToLower `{GoUnicode} (s : string) : string :=
  if str_forall is_ascii_byte s then str_map lower_byte s else lower_unicode s.

(** ** Prefixes, suffixes, separators *)

Fixpoint CutPrefix (p s : string) : option string :=
  match p, s with
  | "", _ => Some s
  | String a p, String b s => if Ascii.eqb a b then CutPrefix p s else None
  | String _ _, "" => None
  end.

Fixpoint CutSuffix (suf s : string) : option string :=
  if String.eqb s suf then Some ""
  else match s with
       | "" => None
       | String c s => match CutSuffix suf s with
                       | Some r => Some (String c r)
                       | None => None
                       end
       end.

Definition HasPrefix (p s : string) : bool := bool_decide (is_Some (CutPrefix p s)).
Definition HasSuffix (suf s : string) : bool := bool_decide (is_Some (CutSuffix suf s)).
Definition TrimPrefix (p s : string) : string := default s (CutPrefix p s).
Definition TrimSuffix (suf s : string) : string := default s (CutSuffix suf s).

(** [strings.Contains(s, sub)] *)
Fixpoint StrContains (sub s : string) : bool :=
  HasPrefix sub s || match s with "" => false | String _ s => StrContains sub s end.

(** [strings.Cut(s, sep)] for a one-byte separator; [None]: not found. *)
Fixpoint CutByte (c : ascii) (s : string) : option (string * string) :=
  match s with
  | "" => None
  | String a s =>
      if Ascii.eqb a c then Some ("", s)
      else match CutByte c s with
           | Some (x, y) => Some (String a x, y)
           | None => None
           end
  end.

(** [strings.Split(s, sep)] for a one-byte separator: never empty. *)
Fixpoint SplitByte (c : ascii) (s : string) : list string :=
  match s with
  | "" => [""]
  | String a s =>
      if Ascii.eqb a c then "" :: SplitByte c s
      else match SplitByte c s with
           | [] => [String a ""]
           | h :: t => String a h :: t
           end
  end.

Fixpoint JoinByte (c : ascii) (l : list string) : string :=
  match l with
  | [] => ""
  | [x] => x
  | x :: l => x +:+ String c (JoinByte c l)
  end.

(** The order of [sort.Strings]: strings compare bytewise. *)
Definition str_le (a b : string) : Prop := String.leb a b = true.
#[export] Instance str_le_dec : RelDecision str_le.
Proof. intros a b. unfold str_le. apply _. Defined.

(** [strings.LastIndex] for one byte, as the part after its last occurrence. *)
Fixpoint AfterLastByte (c : ascii) (s : string) : option string :=
  match s with
  | "" => None
  | String a s =>
      match AfterLastByte c s with
      | Some r => Some r
      | None => if Ascii.eqb a c then Some s else None
      end
  end.

(** [strings.TrimSpace] *)
Fixpoint trim_left (s : string) : string :=
  match s with
  | String c s' => if is_space_byte c then trim_left s' else s
  | "" => ""
  end.
Fixpoint trim_right (s : string) : string :=
  match s with
  | "" => ""
  | String c s => match trim_right s with
                  | "" => if is_space_byte c then "" else String c ""
                  | r => String c r
                  end
  end.
Definition TrimSpace `{GoUnicode} (s : string) : string :=
  if str_forall is_ascii_byte s then trim_right (trim_left s) else trim_unicode s.

(** ** [strconv] *)

Fixpoint parse_digits (acc : Z) (s : string) : option Z :=
  match s with
  | "" => Some acc
  | String c s =>
      if is_digit c then parse_digits (acc * 10 + (Z.of_N (code c) - 48))%Z s else None
  end.

(** [strconv.Atoi] on a 64-bit platform; [None] is an error. *)
Definition Atoi (s : string) : option Z :=
  let '(neg, body) :=
    match s with
    | String "-" s' => (true, s')
    | String "+" s' => (false, s')
    | _ => (false, s)
    end in
  match body with
  | "" => None
  | _ => match parse_digits 0 body with
         | None => None
         | Some n =>
             let v := if neg : bool then (- n)%Z else n in
             if ((- 2 ^ 63 <=? v) && (v <? 2 ^ 63))%Z then Some v else None
         end
  end.

(** [strconv.Itoa] *)
Definition Itoa (z : Z) : string := pretty z.

(** [net.JoinHostPort]: a host with a colon (IPv6) is bracketed. *)
Definition JoinHostPort (host port : string) : string :=
  if str_mem ":" host then "[" +:+ host +:+ "]:" +:+ port else host +:+ ":" +:+ port.

(** ** Lemmas *)

Lemma str_app_cons c a b : String c a +:+ b = String c (a +:+ b).
Proof. done. Qed.

Lemma str_app_nil_l b : "" +:+ b = b.
Proof. done. Qed.

Lemma str_forall_app P a b : str_forall P (a +:+ b) = str_forall P a && str_forall P b.
Proof.
  induction a as [|c a IH]; [done|]. change (String c a +:+ b) with (String c (a +:+ b)).
  simpl. rewrite IH. by rewrite andb_assoc.
Qed.

Lemma str_forall_impl (P Q : ascii → bool) s :
  (∀ c, P c = true → Q c = true) → str_forall P s = true → str_forall Q s = true.
Proof.
  intros HPQ. induction s as [|c s IH]; [done|]. simpl.
  intros [H1 H2]%andb_true_iff. rewrite (HPQ _ H1). auto.
Qed.

Lemma str_map_id f s : str_forall (λ c, Ascii.eqb (f c) c) s = true → str_map f s = s.
Proof.
  induction s as [|c s IH]; [done|]. simpl. intros [H1%Ascii.eqb_eq H2]%andb_true_iff.
  rewrite H1. by rewrite IH.
Qed.

Lemma CutPrefix_Some p s r : CutPrefix p s = Some r ↔ s = p +:+ r.
Proof.
  revert s. induction p as [|a p IH]; intros s; simpl.
  { split; [by intros [= ->]|by intros ->]. }
  change (String a p +:+ r) with (String a (p +:+ r)).
  destruct s as [|b s]; [done|]. destruct (Ascii.eqb_spec a b) as [->|Hne].
  - rewrite IH. split; [by intros ->|by intros [=]].
  - split; [done|]. intros [=]. congruence.
Qed.

Lemma str_app_assoc (a b c : string) : a +:+ (b +:+ c) = (a +:+ b) +:+ c.
Proof.
  induction a as [|x a IH]; [done|].
  change (String x a +:+ (b +:+ c)) with (String x (a +:+ (b +:+ c))).
  by rewrite IH.
Qed.

Lemma str_length_app a b : String.length (a +:+ b) = String.length a + String.length b.
Proof. induction a as [|x a IH]; [done|]. rewrite str_app_cons. simpl. by rewrite IH. Qed.

Lemma str_app_nil_r a : a +:+ "" = a.
Proof. induction a as [|x a IH]; [done|]. change (String x a +:+ "") with (String x (a +:+ "")). by rewrite IH. Qed.

Lemma str_app_inj_r a b c : a +:+ c = b +:+ c → a = b.
Proof.
  revert b. induction a as [|x a IH]; intros b Heq.
  - destruct b as [|y b]; [done|]. apply (f_equal String.length) in Heq.
    rewrite !str_length_app in Heq. simpl in Heq. lia.
  - destruct b as [|y b].
    + apply (f_equal String.length) in Heq. rewrite !str_length_app in Heq. simpl in Heq. lia.
    + rewrite ?str_app_cons in Heq. injection Heq as -> Heq. f_equal. by apply IH.
Qed.

Lemma CutSuffix_Some suf s r : CutSuffix suf s = Some r ↔ s = r +:+ suf.
Proof.
  revert r. induction s as [|c s IH]; intros r; cbn [CutSuffix].
  - destruct (String.eqb_spec "" suf) as [<-|Hne].
    + split; [by intros [= <-]|]. by destruct r.
    + split; [done|]. intros Heq. by destruct r.
  - destruct (String.eqb_spec (String c s) suf) as [<-|Hne].
    + split; [by intros [= <-]|]. intros Heq. f_equal.
      symmetry. apply (str_app_inj_r r "" (String c s)). done.
    + destruct (CutSuffix suf s) as [r'|].
      * assert (s = r' +:+ suf) as Hc by (by apply IH). split.
        { intros [= <-]. by rewrite Hc. }
        intros Heq. destruct r as [|c' r]; [done|]. rewrite ?str_app_cons in Heq. injection Heq as -> Heq.
        rewrite Hc in Heq. by apply str_app_inj_r in Heq as ->.
      * split; [done|]. intros Heq. destruct r as [|c' r]; [done|].
        rewrite ?str_app_cons in Heq. injection Heq as -> Heq.
        by apply IH in Heq.
Qed.

Lemma SplitByte_nonempty c s : SplitByte c s ≠ [].
Proof. destruct s as [|a s]; simpl; [done|]. repeat case_match; done. Qed.

(** Joining what [Split] produced gives the string back. *)
Lemma JoinByte_SplitByte c s : JoinByte c (SplitByte c s) = s.
Proof.
  induction s as [|a s IH]; [done|]. simpl.
  pose proof (SplitByte_nonempty c s) as Hne.
  destruct (Ascii.eqb_spec a c) as [->|_].
  - destruct (SplitByte c s) as [|h t]; [done|]. simpl in *. by rewrite IH.
  - destruct (SplitByte c s) as [|h [|h' t]]; [done|by rewrite <- IH|].
    simpl in *. by rewrite <- IH.
Qed.

(** The parts of a split do not hold the separator. *)
Lemma SplitByte_no_sep c s l : l ∈ SplitByte c s → str_forall (λ x, negb (Ascii.eqb x c)) l = true.
Proof.
  revert l. induction s as [|a s IH]; intros l; simpl.
  { by intros ->%list_elem_of_singleton. }
  destruct (Ascii.eqb_spec a c) as [->|Hne].
  - intros [->|Hin]%elem_of_cons; auto.
  - destruct (SplitByte c s) as [|h t].
    + intros ->%list_elem_of_singleton. simpl. by rewrite (proj2 (Ascii.eqb_neq a c)).
    + intros [->|Hin]%elem_of_cons; [|apply IH; set_solver]. simpl.
      rewrite (proj2 (Ascii.eqb_neq a c)) by done. apply IH. set_solver.
Qed.

(** Splitting a joined list gives it back when no part holds the separator. *)
Lemma SplitByte_cons c x s :
  str_forall (λ y, negb (Ascii.eqb y c)) x = true →
  SplitByte c (x +:+ String c s) = x :: SplitByte c s.
Proof.
  induction x as [|a x IH]; intros Hx.
  - rewrite str_app_nil_l. cbn [SplitByte]. by rewrite Ascii.eqb_refl.
  - change (String a x +:+ String c s) with (String a (x +:+ String c s)).
    simpl in *. apply andb_true_iff in Hx as [Ha Hx]. apply negb_true_iff in Ha.
    rewrite Ha, IH by done. done.
Qed.

Lemma SplitByte_no_sep_id c s :
  str_forall (λ y, negb (Ascii.eqb y c)) s = true → SplitByte c s = [s].
Proof.
  induction s as [|a s IH]; intros Hs; [done|]. simpl in *.
  apply andb_true_iff in Hs as [Ha Hs]. apply negb_true_iff in Ha.
  by rewrite Ha, IH.
Qed.

Lemma SplitByte_JoinByte c l :
  l ≠ [] → (∀ x, x ∈ l → str_forall (λ y, negb (Ascii.eqb y c)) x = true) →
  SplitByte c (JoinByte c l) = l.
Proof.
  induction l as [|x l IH]; intros Hne Hall; [done|].
  destruct l as [|y l]; simpl.
  - apply SplitByte_no_sep_id. apply Hall. set_solver.
  - rewrite SplitByte_cons by (apply Hall; set_solver). f_equal.
    apply IH; [done|]. intros z Hz. apply Hall. by apply elem_of_cons; right.
Qed.

(** A separator splits the list of parts. *)
Lemma SplitByte_app_sep c a b :
  SplitByte c (a +:+ String c b) = SplitByte c a ++ SplitByte c b.
Proof.
  induction a as [|x a IH].
  - rewrite str_app_nil_l. cbn [SplitByte]. by rewrite Ascii.eqb_refl.
  - rewrite str_app_cons. cbn [SplitByte]. rewrite IH.
    destruct (Ascii.eqb x c); [done|].
    pose proof (SplitByte_nonempty c a). by destruct (SplitByte c a).
Qed.

Lemma JoinByte_app c l1 l2 :
  l1 ≠ [] → l2 ≠ [] → JoinByte c (l1 ++ l2) = JoinByte c l1 +:+ String c (JoinByte c l2).
Proof.
  intros H1 H2. induction l1 as [|x l1 IH]; [done|].
  destruct l1 as [|y l1]; [by destruct l2|].
  change ((x :: y :: l1) ++ l2) with (x :: (y :: l1) ++ l2).
  transitivity (x +:+ String c (JoinByte c ((y :: l1) ++ l2))); [done|].
  rewrite IH by done. cbn [JoinByte]. rewrite <- !str_app_assoc. done.
Qed.

Lemma lower_byte_id c : is_upper c = false → lower_byte c = c.
Proof. unfold lower_byte. intros Hu. by rewrite Hu. Qed.

Lemma ToLower_id `{GoUnicode} s :
  str_forall (λ c, is_ascii_byte c && negb (is_upper c)) s = true → ToLower s = s.
Proof.
  intros Hs. unfold ToLower.
  assert (str_forall is_ascii_byte s = true) as ->.
  { eapply str_forall_impl; [|exact Hs]. by intros c [Hc _]%andb_true_iff. }
  apply str_map_id. eapply str_forall_impl; [|exact Hs]. simpl.
  intros c [_ Hu%negb_true_iff]%andb_true_iff. rewrite (lower_byte_id c Hu).
  apply Ascii.eqb_refl.
Qed.

(** ** Big-endian integers *)

(** The [n] low bytes of [x], most significant first, and back. *)
Fixpoint be_bytes (n : nat) (x : N) : list ascii :=
  match n with
  | O => []
  | S n => be_bytes n (x / 256) ++ [ascii_of_N (x mod 256)]
  end.
Definition be_value (l : list ascii) : N := foldl (λ a c, a * 256 + code c)%N 0%N l.

Lemma length_be_bytes n x : length (be_bytes n x) = n.
Proof. revert x. induction n as [|n IH]; intros x; [done|]. cbn. rewrite length_app, IH. cbn. lia. Qed.

Lemma be_value_bytes n x : (x < 256 ^ N.of_nat n)%N → be_value (be_bytes n x) = x.
Proof.
  revert x. induction n as [|n IH]; intros x Hx; [cbn in *; lia|].
  rewrite Nat2N.inj_succ, N.pow_succ_r' in Hx. cbn [be_bytes]. unfold be_value in *. rewrite foldl_app. cbn [foldl].
  rewrite IH by (apply N.Div0.div_lt_upper_bound; lia).
  unfold code. rewrite N_ascii_embedding by (apply N.mod_lt; lia).
  pose proof (N.div_mod x 256 ltac:(lia)). lia.
Qed.

Lemma CutByte_spec c s a b : CutByte c s = Some (a, b) → s = a +:+ String c b.
Proof.
  revert a. induction s as [|x s IH]; intros a; cbn [CutByte]; [done|]. destruct (Ascii.eqb_spec x c) as [->|].
  - by intros [= <- <-].
  - destruct (CutByte c s) as [[a' b']|]; [|done]. intros [= <- <-]. rewrite str_app_cons. f_equal. by apply IH.
Qed.

Lemma str_app_inj_l a b c : a +:+ b = a +:+ c → b = c.
Proof. induction a as [|x a IH]; [done|]. rewrite !str_app_cons. intros [= ?]. by apply IH. Qed.

Lemma str_app_inj_len a b c d : String.length a = String.length c → a +:+ b = c +:+ d → a = c ∧ b = d.
Proof.
  revert c. induction a as [|x a IH]; intros [|y c] Hl; simpl in Hl; try done.
  rewrite !str_app_cons. intros [= -> Heq]. destruct (IH c) as [-> ->]; [lia|done|done].
Qed.

Lemma length_string_of l : String.length (String.string_of_list_ascii l) = length l.
Proof. induction l; simpl; congruence. Qed.
