(* ===== verification/Base64.v ===== *)
(** * URL-safe base64 without padding, and host:port pairs

What the program uses of encoding/base64 ([RawURLEncoding]) and of net
([SplitHostPort]). *)

From S2P Require Import Prelude GoStrings.
From stdpp Require Import options.
From Stdlib Require Import Ascii.
#[local] Open Scope l8_scope.

(** ** base64.RawURLEncoding *)

Definition alphabet : list ascii :=
  String.list_ascii_of_string "ABCDEFGHIJKLMNOPQRSTUVWXYZabcdefghijklmnopqrstuvwxyz0123456789-_".
Definition enc6 (n : N) : ascii := nth (N.to_nat n) alphabet "A"%char.
Definition dec6 (c : ascii) : option N :=
  (λ p, N.of_nat p.1) <$> list_find (λ a, a = c) alphabet.

Fixpoint sextets (l : list N) : list N :=
  match l with
  | a :: b :: c :: l =>
      [a / 4; a mod 4 * 16 + b / 16; b mod 16 * 4 + c / 64; c mod 64]%N ++ sextets l
  | [a; b] => [a / 4; a mod 4 * 16 + b / 16; b mod 16 * 4]%N
  | [a] => [a / 4; a mod 4 * 16]%N
  | [] => []
  end.

(** The bits left over at the end are not looked at. *)
Fixpoint octets (l : list N) : option (list N) :=
  match l with
  | p :: q :: r :: s :: l =>
      rest ← octets l; Some ([p * 4 + q / 16; q mod 16 * 16 + r / 4; r mod 4 * 64 + s]%N ++ rest)
  | [p; q; r] => Some [p * 4 + q / 16; q mod 16 * 16 + r / 4]%N
  | [p; q] => Some [p * 4 + q / 16]%N
  | [_] => None
  | [] => Some []
  end.

Definition EncodeToString (s : string) : string :=
  String.string_of_list_ascii (enc6 <$> sextets (N_of_ascii <$> String.list_ascii_of_string s)).

(** Line ends are skipped, every other byte must be of the alphabet. *)
Definition line_end (c : ascii) : bool := Ascii.eqb c "010" || Ascii.eqb c "013".
Definition DecodeString (s : string) : option string :=
  six ← mapM dec6 (List.filter (λ c, negb (line_end c)) (String.list_ascii_of_string s));
  bytes ← octets six;
  Some (String.string_of_list_ascii (ascii_of_N <$> bytes)).

(** ** net.SplitHostPort *)

Definition SplitHostPort (hostport : string) : option (string * string) :=
  match hostport with
  | String "[" rest =>
      '(host, after) ← CutByte "]" rest;
      match after with
      | String ":" port =>
          if str_mem ":" port || str_mem "[" rest || str_mem "]" port then None else Some (host, port)
      | _ => None
      end
  | _ =>
      '(host, port) ← CutByte ":" hostport;
      if str_mem ":" port || str_mem "[" hostport || str_mem "]" hostport then None else Some (host, port)
  end.

(** ** Decoding inverts encoding *)

Lemma dec6_enc6 n : (n < 64)%N → dec6 (enc6 n) = Some n ∧ line_end (enc6 n) = false ∧ Ascii.eqb (enc6 n) "." = false.
Proof.
  intros Hn. assert (Forall (λ k, dec6 (enc6 (N.of_nat k)) = Some (N.of_nat k) ∧ line_end (enc6 (N.of_nat k)) = false
    ∧ Ascii.eqb (enc6 (N.of_nat k)) "." = false) (seq 0 64)) as Hall.
  { apply (bool_decide_unpack _). vm_compute. exact I. }
  rewrite Forall_forall in Hall. specialize (Hall (N.to_nat n)). rewrite N2Nat.id in Hall. apply Hall, elem_of_seq. lia.
Qed.

Definition byte (n : N) : Prop := (n < 256)%N.

(** Lists three at a time. *)
Lemma list_ind3 {A} (P : list A → Prop) :
  P [] → (∀ a, P [a]) → (∀ a b, P [a; b]) → (∀ a b c l, P l → P (a :: b :: c :: l)) → ∀ l, P l.
Proof.
  intros H0 H1 H2 H3. fix IH 1. intros [|a [|b [|c l]]]; [done|done|done|]. apply H3, IH.
Qed.

Lemma sextets_small l : Forall byte l → Forall (λ n, n < 64)%N (sextets l).
Proof.
  unfold byte. induction l as [|a|a b|a b c l IH] using list_ind3; intros Hl; cbn [sextets app];
    repeat (apply Forall_cons in Hl as [? Hl]); repeat constructor; try (by apply IH).
  all: try (apply N.mod_lt; lia). all: zify; Z.to_euclidean_division_equations; lia.
Qed.

Lemma octets_sextets l : Forall byte l → octets (sextets l) = Some l.
Proof.
  unfold byte. induction l as [|a|a b|a b c l IH] using list_ind3; intros Hl; cbn [sextets octets app];
    repeat (apply Forall_cons in Hl as [? Hl]); [done|..|rewrite IH by done; cbn [mbind option_bind]].
  all: repeat f_equal; zify; Z.to_euclidean_division_equations; lia.
Qed.

Lemma bytes_of_string s : Forall byte (N_of_ascii <$> String.list_ascii_of_string s).
Proof. apply Forall_fmap, Forall_true. intros c. apply N_ascii_bounded. Qed.

Lemma filter_enc l : Forall (λ n, n < 64)%N l → List.filter (λ c, negb (line_end c)) (enc6 <$> l) = enc6 <$> l.
Proof.
  induction 1 as [|n l Hn _ IH]; [done|]. cbn [fmap list_fmap List.filter].
  destruct (dec6_enc6 n Hn) as (_ & -> & _). cbn [negb]. by f_equal.
Qed.

Lemma mapM_dec l : Forall (λ n, n < 64)%N l → mapM dec6 (enc6 <$> l) = Some l.
Proof. induction 1 as [|n l Hn _ IH]; [done|]. cbn [fmap list_fmap mapM].
  destruct (dec6_enc6 n Hn) as (-> & _). cbn [mbind option_bind]. by rewrite IH. Qed.

Lemma DecodeString_EncodeToString s : DecodeString (EncodeToString s) = Some s.
Proof.
  unfold DecodeString, EncodeToString. rewrite String.list_ascii_of_string_of_list_ascii.
  pose proof (bytes_of_string s) as Hb. pose proof (sextets_small _ Hb) as Hs.
  rewrite filter_enc, mapM_dec by done. cbn. rewrite octets_sextets by done. cbn. f_equal.
  rewrite <-list_fmap_compose. rewrite <-(String.string_of_list_ascii_of_string s) at 2. f_equal.
  rewrite <-(list_fmap_id (String.list_ascii_of_string s)) at 2. apply list_fmap_ext. intros i c _. apply ascii_N_embedding.
Qed.

Lemma CutByte_none c s : CutByte c s = None ↔ Forall (λ x, Ascii.eqb x c = false) (String.list_ascii_of_string s).
Proof.
  induction s as [|x s IH]; cbn [CutByte String.list_ascii_of_string]; [done|]. rewrite Forall_cons, <-IH.
  destruct (Ascii.eqb x c); [naive_solver|]. destruct (CutByte c s) as [[]|]; naive_solver.
Qed.

Lemma CutByte_app c a b : CutByte c a = None → CutByte c (a +:+ String c b) = Some (a, b).
Proof.
  induction a as [|x a IH]; cbn [CutByte]; [intros _; rewrite str_app_nil_l; cbn [CutByte]; by rewrite Ascii.eqb_refl|]. rewrite str_app_cons. cbn [CutByte].
  destruct (Ascii.eqb x c); [done|]. destruct (CutByte c a) as [[]|]; [done|]. intros _. by rewrite IH.
Qed.

(** An encoding has no dot. *)
Lemma EncodeToString_no_dot s : CutByte "." (EncodeToString s) = None.
Proof.
  apply CutByte_none. unfold EncodeToString. rewrite String.list_ascii_of_string_of_list_ascii. apply Forall_fmap.
  eapply Forall_impl; [apply sextets_small, bytes_of_string|]. intros n Hn. by destruct (dec6_enc6 n Hn) as (_ & _ & ?).
Qed.
