(* ===== verification/Regex.v ===== *)
(** * Regular expressions

The patterns the program compiles with [regexp.MustCompile], as syntax, with
an executable matcher (Brzozowski derivatives) proved to decide their
language. All the program's patterns are anchored ([^...$]), so matching is
membership of the whole string. *)

From S2P Require Import Prelude GoStrings.
From stdpp Require Import options.
From Stdlib Require Import Ascii.

Inductive regex :=
| RNone                             (* no string *)
| REps                              (* the empty string *)
| RClass (P : ascii → bool)         (* one byte of a class *)
| RSeq (r1 r2 : regex)
| RAlt (r1 r2 : regex)
| RUpTo (r : regex) (n : nat)       (* r{0,n} *)
| RMany (r : regex).                (* r* *)

Definition ROpt (r : regex) : regex := RUpTo r 1.
(** [r{n}] *)
Fixpoint RTimes (r : regex) (n : nat) : regex :=
  match n with O => REps | S n => RSeq r (RTimes r n) end.
(** The literal string [s]. *)
Fixpoint RLit (s : list ascii) : regex :=
  match s with [] => REps | c :: s => RSeq (RClass (Ascii.eqb c)) (RLit s) end.

(** The language of a pattern. *)
Inductive re_in : regex → list ascii → Prop :=
| in_eps : re_in REps []
| in_class P c : P c = true → re_in (RClass P) [c]
| in_seq r1 r2 a b : re_in r1 a → re_in r2 b → re_in (RSeq r1 r2) (a ++ b)
| in_alt_l r1 r2 a : re_in r1 a → re_in (RAlt r1 r2) a
| in_alt_r r1 r2 a : re_in r2 a → re_in (RAlt r1 r2) a
| in_upto_nil r n : re_in (RUpTo r n) []
| in_upto_cons r n a b : re_in r a → re_in (RUpTo r n) b → re_in (RUpTo r (S n)) (a ++ b)
| in_many_nil r : re_in (RMany r) []
| in_many_cons r a b : re_in r a → re_in (RMany r) b → re_in (RMany r) (a ++ b).
#[export] Hint Constructors re_in : l8.

Fixpoint nullable (r : regex) : bool :=
  match r with
  | RNone | RClass _ => false
  | REps | RUpTo _ _ | RMany _ => true
  | RSeq r1 r2 => nullable r1 && nullable r2
  | RAlt r1 r2 => nullable r1 || nullable r2
  end.

(** Constructors that drop the parts that match nothing. *)
Definition seq' (r1 r2 : regex) : regex :=
  match r1, r2 with
  | RNone, _ | _, RNone => RNone
  | REps, r => r
  | r, REps => r
  | _, _ => RSeq r1 r2
  end.
Definition alt' (r1 r2 : regex) : regex :=
  match r1, r2 with
  | RNone, r | r, RNone => r
  | _, _ => RAlt r1 r2
  end.

Fixpoint deriv (c : ascii) (r : regex) : regex :=
  match r with
  | RNone | REps => RNone
  | RClass P => if P c then REps else RNone
  | RSeq r1 r2 =>
      alt' (seq' (deriv c r1) r2) (if nullable r1 then deriv c r2 else RNone)
  | RAlt r1 r2 => alt' (deriv c r1) (deriv c r2)
  | RUpTo r n => match n with O => RNone | S n => seq' (deriv c r) (RUpTo r n) end
  | RMany r => seq' (deriv c r) (RMany r)
  end.

Fixpoint re_match (r : regex) (s : list ascii) : bool :=
  match s with [] => nullable r | c :: s => re_match (deriv c r) s end.

(** [regexp.MatchString] of an anchored pattern. *)
Definition MatchString (r : regex) (s : string) : bool :=
  re_match r (String.list_ascii_of_string s).

(** ** The matcher decides the language *)

Lemma nullable_spec r : nullable r = true ↔ re_in r [].
Proof.
  split.
  - induction r; simpl; intros Hn; bool_facts; try done; auto with l8.
    + change (@nil ascii) with (@nil ascii ++ []). auto with l8.
    + apply orb_true_iff in Hn as [Hn|Hn]; auto with l8.
  - intros Hin. remember [] as s eqn:Hs.
    induction Hin as [| |????? IH1 ? IH2|? ? ? ? IH|? ? ? ? IH| | | |]; simpl; try done.
    + destruct (app_eq_nil _ _ Hs) as [-> ->]. by rewrite IH1, IH2.
    + by rewrite IH.
    + rewrite IH by done. apply orb_true_r.
Qed.

Lemma in_none s : ¬ re_in RNone s.
Proof. by inversion 1. Qed.

Lemma in_seq_iff r1 r2 s :
  re_in (RSeq r1 r2) s ↔ ∃ a b, s = a ++ b ∧ re_in r1 a ∧ re_in r2 b.
Proof. split; [inversion 1; subst; eauto|]. intros (a&b&->&?&?); auto with l8. Qed.

Lemma in_eps_iff s : re_in REps s ↔ s = [].
Proof. split; [by inversion 1|intros ->; constructor]. Qed.

Lemma in_alt_iff r1 r2 s : re_in (RAlt r1 r2) s ↔ re_in r1 s ∨ re_in r2 s.
Proof. split; [inversion 1; auto|]. intros [?|?]; auto with l8. Qed.

Lemma in_class_iff P s : re_in (RClass P) s ↔ ∃ c, s = [c] ∧ P c = true.
Proof. split; [inversion 1; eauto|]. intros (c&->&?). auto with l8. Qed.

Lemma seq'_spec r1 r2 s : re_in (seq' r1 r2) s ↔ re_in (RSeq r1 r2) s.
Proof.
  assert (∀ r s, re_in (RSeq RNone r) s ↔ False) as H1.
  { intros. rewrite in_seq_iff. split; [|done]. by intros (?&?&_&?%in_none&_). }
  assert (∀ r s, re_in (RSeq r RNone) s ↔ False) as H2.
  { intros. rewrite in_seq_iff. split; [|done]. by intros (?&?&_&_&?%in_none). }
  assert (∀ s, re_in RNone s ↔ False) as H3 by (intros; split; [apply in_none|done]).
  assert (∀ r s, re_in (RSeq REps r) s ↔ re_in r s) as H4.
  { intros r s'. rewrite in_seq_iff. split.
    - by intros (?&?&->&->%in_eps_iff&?).
    - intros ?. exists [], s'. auto with l8. }
  assert (∀ r s, re_in (RSeq r REps) s ↔ re_in r s) as H5.
  { intros r s'. rewrite in_seq_iff. split.
    - intros (?&?&->&?&->%in_eps_iff). by rewrite app_nil_r.
    - intros ?. exists s', []. rewrite app_nil_r. auto with l8. }
  destruct r1, r2; simpl; rewrite ?H1, ?H2, ?H3, ?H4, ?H5; done.
Qed.

Lemma alt'_spec r1 r2 s : re_in (alt' r1 r2) s ↔ re_in r1 s ∨ re_in r2 s.
Proof.
  assert (re_in RNone s ↔ False) as H3 by (split; [apply in_none|done]).
  destruct r1, r2; simpl; rewrite <- ?in_alt_iff, ?H3; rewrite ?in_alt_iff, ?H3; tauto.
Qed.

Lemma upto_mono r n s : re_in (RUpTo r n) s → re_in (RUpTo r (S n)) s.
Proof.
  intros Hin. remember (RUpTo r n) as q eqn:Hq. revert n Hq.
  induction Hin as [| | | | |r0 n0|r0 n0 a b Ha _ Hb IH| |]; intros n Hq; simplify_eq; auto with l8.
Qed.

Lemma deriv_sound c r s : re_in (deriv c r) s → re_in r (c :: s).
Proof.
  revert s. induction r as [| |P|r1 IH1 r2 IH2|r1 IH1 r2 IH2|r IH n|r IH]; intros s; simpl.
  - intros []%in_none.
  - intros []%in_none.
  - case_match eqn:HP; [intros ->%in_eps_iff; auto with l8|intros []%in_none].
  - rewrite alt'_spec, seq'_spec, in_seq_iff. intros [(a&b&->&Ha&Hb)|Hr].
    + apply (in_seq r1 r2 (c :: a) b); auto.
    + case_match eqn:Hn; [|by apply in_none in Hr].
      apply (in_seq r1 r2 [] (c :: s)); [by apply nullable_spec|auto].
  - rewrite alt'_spec. intros [?|?]; auto with l8.
  - destruct n; [intros []%in_none|]. rewrite seq'_spec, in_seq_iff.
    intros (a&b&->&Ha&Hb). apply (in_upto_cons r n (c :: a) b); auto.
  - rewrite seq'_spec, in_seq_iff. intros (a&b&->&Ha&Hb).
    apply (in_many_cons r (c :: a) b); auto.
Qed.

Lemma deriv_complete c r s : re_in r (c :: s) → re_in (deriv c r) s.
Proof.
  intros Hin. remember (c :: s) as w eqn:Hw. revert c s Hw.
  induction Hin as [|P c' HP|r1 r2 a b Ha IHa Hb IHb|r1 r2 a Ha IHa|r1 r2 a Ha IHa| |
                    r n a b Ha IHa Hb IHb| |r a b Ha IHa Hb IHb]; intros c s Hw; simplify_eq/=.
  - rewrite HP. constructor.
  - rewrite alt'_spec, seq'_spec, in_seq_iff. destruct a as [|c1 a]; simplify_eq/=.
    + right. apply nullable_spec in Ha. rewrite Ha. auto.
    + left. eauto 10.
  - rewrite alt'_spec. auto.
  - rewrite alt'_spec. auto.
  - rewrite seq'_spec, in_seq_iff. destruct a as [|c1 a]; simplify_eq/=; [|eauto 10].
    specialize (IHb c s eq_refl). destruct n as [|n]; [by apply in_none in IHb|].
    rewrite seq'_spec, in_seq_iff in IHb. destruct IHb as (a'&b'&->&?&?).
    eauto 10 using upto_mono.
  - rewrite seq'_spec, in_seq_iff. destruct a as [|c1 a]; simplify_eq/=; [|eauto 10].
    specialize (IHb c s eq_refl). by rewrite seq'_spec, in_seq_iff in IHb.
Qed.

Theorem re_match_spec r s : re_match r s = true ↔ re_in r s.
Proof.
  revert r. induction s as [|c s IH]; intros r; simpl; [apply nullable_spec|].
  rewrite IH. split; [apply deriv_sound|apply deriv_complete].
Qed.

(** Shapes of the repetitions the patterns use. *)
Lemma in_upto_class P n s :
  re_in (RUpTo (RClass P) n) s ↔ length s ≤ n ∧ Forall (λ c, P c = true) s.
Proof.
  split.
  - intros Hin. remember (RUpTo (RClass P) n) as q eqn:Hq. revert n Hq.
    induction Hin as [| | | | |r0 n0|r0 n0 a b Ha _ Hb IH| |]; intros n Hq; simplify_eq/=.
    { split; [lia|constructor]. }
    apply in_class_iff in Ha as (c&->&Hc). destruct (IH _ eq_refl) as [? ?].
    simpl. split; [lia|by constructor].
  - revert n. induction s as [|c s IH]; intros n [Hl Hf]; [constructor|].
    destruct n as [|n]; simpl in *; [lia|]. inversion Hf; subst.
    apply (in_upto_cons (RClass P) n [c] s); [auto with l8|]. apply IH. split; [lia|done].
Qed.

Lemma in_opt_iff r s : re_in (ROpt r) s ↔ s = [] ∨ re_in r s.
Proof.
  unfold ROpt. split.
  - inversion 1 as [| | | | | |? ? a b Ha Hb| |]; subst; [by left|]. right.
    inversion Hb; subst. by rewrite app_nil_r.
  - intros [->|Hr]; [constructor|]. rewrite <- (app_nil_r s). by repeat constructor.
Qed.

Lemma in_times_class P n s :
  re_in (RTimes (RClass P) n) s ↔ length s = n ∧ Forall (λ c, P c = true) s.
Proof.
  revert s. induction n as [|n IH]; intros s; simpl.
  - rewrite in_eps_iff. split; [intros ->; done|]. by intros [?%length_zero_iff_nil _].
  - rewrite in_seq_iff. split.
    + intros (a&b&->&(c&->&Hc)%in_class_iff&[Hb Hf]%IH). simpl. split; [lia|by constructor].
    + intros [Hl Hf]. destruct s as [|c s]; [done|]. inversion Hf; subst.
      exists [c], s. split; [done|]. split; [auto with l8|]. apply IH. simpl in *. split; [lia|done].
Qed.

Lemma in_lit_iff w s : re_in (RLit w) s ↔ s = w.
Proof.
  revert s. induction w as [|c w IH]; intros s; simpl; [apply in_eps_iff|].
  rewrite in_seq_iff. split.
  - intros (a&b&->&(c'&->&->%Ascii.eqb_eq)%in_class_iff&->%IH). done.
  - intros ->. exists [c], w. split; [done|]. split; [|by apply IH].
    constructor. apply Ascii.eqb_refl.
Qed.

Lemma length_list_ascii s : length (String.list_ascii_of_string s) = String.length s.
Proof. induction s; simpl; congruence. Qed.

Lemma Forall_list_ascii P s :
  Forall (λ c, P c = true) (String.list_ascii_of_string s) ↔ str_forall P s = true.
Proof.
  induction s as [|c s IH]; simpl; [split; [done|constructor]|].
  rewrite Forall_cons, andb_true_iff, IH. done.
Qed.
