(* ===== verification/Protocol.v ===== *)
(** * The shared protocol package (go/tunnel/protocol)

Tunnel types and their config names, port ranges, host names and wildcard
domains ([names.go]), message framing on a byte stream ([framing.go]) and the
error messages of the control stream ([protocol.go]). *)

From S2P Require Import Prelude GoStrings Regex.
From stdpp Require Import options.
From Stdlib Require Import Ascii.

(** ** Tunnel types *)

Inductive TunnelType :=
| TUNNEL_TYPE_UNSPECIFIED | TUNNEL_TYPE_HTTP | TUNNEL_TYPE_TLS
| TUNNEL_TYPE_TCP | TUNNEL_TYPE_SSH.
#[export] Instance TunnelType_eq_dec : EqDecision TunnelType.
Proof. solve_decision. Defined.

Definition tunnelTypeNames : list (string * TunnelType) :=
  [("tcp", TUNNEL_TYPE_TCP); ("ssh", TUNNEL_TYPE_SSH);
   ("http", TUNNEL_TYPE_HTTP); ("tls", TUNNEL_TYPE_TLS)].

Definition assoc_str {A} (k : string) (l : list (string * A)) : option A :=
  snd <$> List.find (λ kv, String.eqb kv.1 k) l.

Inductive name_err :=
| UnknownTunnelType (s : string)
| InvalidPortRange (s : string)
| NotAHostName (s : string)       (* too long, or fewer than two labels *)
| InvalidHostName (s : string)    (* a label is not a DNS label *)
| InvalidTunnelDomain (s : string).

Definition ParseTunnelType `{GoUnicode} (s : string) : result name_err TunnelType :=
  match assoc_str (ToLower s) tunnelTypeNames with
  | Some typ => Ok typ
  | None => Err (UnknownTunnelType s)
  end.

Definition TunnelTypeName (typ : TunnelType) : string :=
  match List.find (λ kv, bool_decide (kv.2 = typ)) tunnelTypeNames with
  | Some (name, _) => name
  | None => ""
  end.

(** ** Port ranges *)

Definition ParsePortRange `{GoUnicode} (s : string) : result name_err (Z * Z) :=
  let '(lo, hi) := match CutByte "-" s with
                   | Some (lo, hi) => (lo, hi)
                   | None => (s, s)
                   end in
  match Atoi (TrimSpace lo) with
  | None => Err (InvalidPortRange s)
  | Some first =>
      match Atoi (TrimSpace hi) with
      | None => Err (InvalidPortRange s)
      | Some last =>
          if ((first <? 1) || (65535 <? last) || (last <? first))%Z
          then Err (InvalidPortRange s) else Ok (first, last)
      end
  end.

(** ** Host names *)

Definition alnum (c : ascii) : bool := is_lower c || is_digit c.
Definition alnum_dash (c : ascii) : bool := alnum c || Ascii.eqb c "-".

(** [^[a-z0-9]([a-z0-9-]{0,61}[a-z0-9])?$] *)
Definition dnsLabel : regex :=
  RSeq (RClass alnum) (ROpt (RSeq (RUpTo (RClass alnum_dash) 61) (RClass alnum))).

Definition IsDNSLabel (s : string) : bool := MatchString dnsLabel s.

Definition NormalizeDomain `{GoUnicode} (s : string) : result name_err string :=
  let d := ToLower (TrimSuffix "." s) in
  let labels := SplitByte "." d in
  if (253 <? String.length d) || (length labels <? 2) then Err (NotAHostName s)
  else if forallb (MatchString dnsLabel) labels then Ok d
  else Err (InvalidHostName s).

Definition NormalizeTunnelDomain `{GoUnicode} (s : string) : result name_err string :=
  let '(rest, wild) := match CutPrefix "*." s with
                       | Some rest => (rest, true)
                       | None => (s, false)
                       end in
  match NormalizeDomain rest with
  | Err _ => Err (InvalidTunnelDomain s)
  | Ok d => if wild : bool then Ok ("*." +:+ d) else Ok d
  end.

Definition IsWildcardDomain (d : string) : bool := HasPrefix "*." d.

(** [for i := 1; i+2 <= len(labels); i++], on the labels from the i-th on. *)
Fixpoint wildcards_from (labels : list string) : list string :=
  match labels with
  | _ :: ((_ :: _ :: _) as rest) => ("*." +:+ JoinByte "." rest) :: wildcards_from rest
  | _ => []
  end.
Definition WildcardsOf (host : string) : list string := wildcards_from (SplitByte "." host).

(** ** Lemmas *)

Lemma TunnelTypeName_Parse `{GoUnicode} typ :
  typ ≠ TUNNEL_TYPE_UNSPECIFIED → ParseTunnelType (TunnelTypeName typ) = Ok typ.
Proof. by destruct typ. Qed.

Lemma alnum_dash_ascii_lower c :
  alnum_dash c = true → is_ascii_byte c && negb (is_upper c) = true.
Proof. by destruct c as [[] [] [] [] [] [] [] []]. Qed.

Lemma alnum_dash_not_dot c : alnum_dash c = true → negb (Ascii.eqb c ".") = true.
Proof. by destruct c as [[] [] [] [] [] [] [] []]. Qed.

Lemma alnum_alnum_dash c : alnum c = true → alnum_dash c = true.
Proof. unfold alnum_dash. intros Hc. by rewrite Hc. Qed.

Lemma in_dnsLabel s :
  re_in dnsLabel s ↔
  (∃ c, s = [c] ∧ alnum c = true) ∨
  (∃ c m d, s = c :: m ++ [d] ∧ alnum c = true ∧ alnum d = true ∧
            length m ≤ 61 ∧ Forall (λ x, alnum_dash x = true) m).
Proof.
  unfold dnsLabel. rewrite in_seq_iff. split.
  - intros (a&b&->&(c&->&Hc)%in_class_iff&Hb). apply in_opt_iff in Hb as [->|Hb]; [left; eauto|].
    right. apply in_seq_iff in Hb as (m&w&->&[Hl Hm]%in_upto_class&(d&->&Hd)%in_class_iff).
    exists c, m, d. done.
  - intros [(c&->&Hc)|(c&m&d&->&Hc&Hd&Hl&Hm)].
    + exists [c], []. split; [done|]. split; [by constructor|by apply in_opt_iff; left].
    + exists [c], (m ++ [d]). split; [done|]. split; [by constructor|].
      apply in_opt_iff. right. constructor; [by apply in_upto_class|by constructor].
Qed.

Definition first_last_alnum (s : list ascii) : Prop :=
  (∃ c, head s = Some c ∧ alnum c = true) ∧ (∃ c, last s = Some c ∧ alnum c = true).

Lemma in_dnsLabel_shape s :
  re_in dnsLabel s ↔
  1 ≤ length s ≤ 63 ∧ Forall (λ x, alnum_dash x = true) s ∧ first_last_alnum s.
Proof.
  rewrite in_dnsLabel. unfold first_last_alnum. split.
  - intros [(c&->&Hc)|(c&m&d&->&Hc&Hd&Hl&Hm)].
    + split; [simpl; lia|]. split; [apply Forall_singleton; by apply alnum_alnum_dash|].
      split; by exists c.
    + split; [simpl; rewrite length_app; simpl; lia|]. split.
      * constructor; [by apply alnum_alnum_dash|]. apply Forall_app. split; [done|].
        repeat constructor. by apply alnum_alnum_dash.
      * split; [by exists c|]. exists d. split; [|done].
        change (c :: m ++ [d]) with ((c :: m) ++ [d]). apply last_snoc.
  - intros (Hl&Hf&(c&Hh&Hc)&(d&Ht&Hd)).
    destruct s as [|c' s]; simplify_eq/=. induction s as [|x s _] using rev_ind; [left; eauto|].
    right. change (c :: s ++ [x]) with ((c :: s) ++ [x]) in Ht.
    rewrite last_snoc in Ht. simplify_eq. inversion Hf as [|? ? _ Hf']; subst.
    apply Forall_app in Hf' as [Hf' _]. rewrite length_app in Hl. simpl in Hl.
    exists c, s, d. repeat split; auto. lia.
Qed.

Lemma dns_label_chars l : IsDNSLabel l = true → str_forall alnum_dash l = true.
Proof.
  unfold IsDNSLabel, MatchString. rewrite re_match_spec, in_dnsLabel_shape.
  intros (_&Hf&_). by apply Forall_list_ascii.
Qed.

Lemma dns_label_nonempty l : IsDNSLabel l = true → l ≠ "".
Proof. by intros Hl ->. Qed.

(** [IsDNSLabel] (the pattern dnsLabel) accepts exactly the strings of 1
to 63 lowercase letters, digits and hyphens whose first and last byte is a
letter or a digit. *)
Theorem IsDNSLabel_spec (s : string) :
  IsDNSLabel s = true ↔
  1 ≤ String.length s ≤ 63 ∧ str_forall alnum_dash s = true ∧
  first_last_alnum (String.list_ascii_of_string s).
Proof.
  unfold IsDNSLabel, MatchString.
  rewrite re_match_spec, in_dnsLabel_shape, Forall_list_ascii, length_list_ascii. done.
Qed.

(** *** Host names *)

(** What the relay calls a host name: at most 253 bytes, two or more labels,
every one a DNS label. *)
Definition valid_host (d : string) : Prop :=
  String.length d ≤ 253 ∧ 2 ≤ length (SplitByte "." d) ∧
  ∀ l, l ∈ SplitByte "." d → IsDNSLabel l = true.

Lemma JoinByte_forall (P : ascii → bool) c l :
  P c = true → (∀ x, x ∈ l → str_forall P x = true) → str_forall P (JoinByte c l) = true.
Proof.
  intros Hc. induction l as [|x l IH]; intros Hl; [done|].
  destruct l as [|y l]; [apply Hl; by left|].
  change (JoinByte c (x :: y :: l)) with (x +:+ String c (JoinByte c (y :: l))).
  rewrite str_forall_app. rewrite Hl by (by left). simpl. rewrite Hc.
  apply IH. intros z Hz. apply Hl. by right.
Qed.

Lemma valid_host_chars d :
  valid_host d → str_forall (λ c, alnum_dash c || Ascii.eqb c ".") d = true.
Proof.
  intros (_&_&Hl). rewrite <- (JoinByte_SplitByte "." d). apply JoinByte_forall; [done|].
  intros x Hx%Hl%dns_label_chars. eapply str_forall_impl; [|exact Hx]. simpl. by intros c ->.
Qed.

Lemma valid_host_lower `{GoUnicode} d : valid_host d → ToLower d = d.
Proof.
  intros Hd%valid_host_chars. apply ToLower_id. eapply str_forall_impl; [|exact Hd].
  intros c; byte_cases c.
Qed.

Lemma valid_host_no_dot d : valid_host d → TrimSuffix "." d = d.
Proof.
  intros (_&_&Hl). unfold TrimSuffix. destruct (CutSuffix "." d) as [r|] eqn:Hc; [|done].
  apply CutSuffix_Some in Hc as ->. rewrite (SplitByte_app_sep "." r "") in Hl.
  by specialize (Hl "" ltac:(set_solver)).
Qed.

Lemma valid_host_normal `{GoUnicode} d : valid_host d → NormalizeDomain d = Ok d.
Proof.
  intros Hv. unfold NormalizeDomain. rewrite valid_host_no_dot, valid_host_lower by done.
  destruct Hv as (H1&H2&Hl).
  rewrite (proj2 (Nat.ltb_ge _ _) H1), (proj2 (Nat.ltb_ge _ _) H2). simpl.
  assert (forallb (MatchString dnsLabel) (SplitByte "." d) = true) as ->; [|done].
  apply forallb_forall. intros l Hin%list_elem_of_In. by apply Hl.
Qed.

Lemma NormalizeDomain_valid `{GoUnicode} s d : NormalizeDomain s = Ok d → valid_host d.
Proof.
  unfold NormalizeDomain. case_match eqn:H1; [done|]. case_match eqn:H2; [|done].
  intros [= <-]. bool_facts. rewrite Nat.ltb_ge in *. split; [done|]. split; [done|].
  intros l Hin%list_elem_of_In. rewrite forallb_forall in H2. by apply H2.
Qed.
#[export] Hint Resolve NormalizeDomain_valid valid_host_normal : l8.

(** [NormalizeDomain] returns only valid host names (lowercase, at most
253 bytes, at least two labels, every label a DNS label), it is idempotent,
and every valid host name is its own normal form. *)
Theorem NormalizeDomain_spec `{GoUnicode} (d : string) :
  (valid_host d ↔ NormalizeDomain d = Ok d) ∧
  (∀ s, NormalizeDomain s = Ok d → NormalizeDomain d = Ok d).
Proof. split; [split|]; eauto with l8. Qed.

(** *** Wildcards *)

Lemma wildcards_from_cons l a b c :
  wildcards_from (l :: a :: b :: c) =
  ("*." +:+ JoinByte "." (a :: b :: c)) :: wildcards_from (a :: b :: c).
Proof. done. Qed.

Lemma elem_of_wildcards_from w ls :
  w ∈ wildcards_from ls ↔
  ∃ pre suf, ls = pre ++ suf ∧ pre ≠ [] ∧ 2 ≤ length suf ∧ w = "*." +:+ JoinByte "." suf.
Proof.
  induction ls as [|l ls IH].
  { split; [by intros ?%elem_of_nil|]. intros ([|]&?&?&?&?&?); done. }
  split.
  - destruct ls as [|l1 [|l2 ls]]; [by intros ?%elem_of_nil|by intros ?%elem_of_nil|].
    intros [->|Hin]%elem_of_cons.
    + exists [l], (l1 :: l2 :: ls). split; [done|]. split; [done|]. split; [simpl; lia|done].
    + apply IH in Hin as (pre&suf&->&?&?&->). exists (l :: pre), suf. done.
  - intros (pre&suf&Heq&Hpre&Hsuf&->). destruct pre as [|p pre]; [done|].
    injection Heq as -> ->.
    assert (∃ a b c, pre ++ suf = a :: b :: c) as (a&b&c&Hab).
    { destruct pre as [|? [|? pre]], suf as [|? [|? suf]]; simpl in *; eauto; lia. }
    rewrite Hab, wildcards_from_cons, <- Hab. apply elem_of_cons.
    destruct pre as [|p' pre]; [by left|]. right. apply IH. by exists (p' :: pre), suf.
Qed.

Lemma JoinByte_suffix_length pre suf :
  pre ≠ [] → suf ≠ [] → String.length (JoinByte "." suf) < String.length (JoinByte "." (pre ++ suf)).
Proof. intros. rewrite JoinByte_app, str_length_app by done. simpl. lia. Qed.

Lemma wildcards_from_sorted ls :
  StronglySorted (λ a b, String.length b < String.length a) (wildcards_from ls).
Proof.
  induction ls as [|l ls IH]; [constructor|].
  destruct ls as [|l1 [|l2 ls]]; [constructor|constructor|].
  rewrite wildcards_from_cons. constructor; [exact IH|]. apply Forall_forall. intros w Hw.
  apply elem_of_wildcards_from in Hw as (pre&suf&Heq&Hpre&Hsuf&->).
  rewrite Heq, !str_length_app.
  assert (suf ≠ []) as Hne by (by intros ->; simpl in *; lia).
  pose proof (JoinByte_suffix_length pre suf Hpre Hne). lia.
Qed.

(** [WildcardsOf] lists exactly the wildcards ["*." ++ D] such that the
host is a name under [D], at any depth, with [D] of two or more labels, and
lists them closest (longest) first. *)
Theorem WildcardsOf_spec (h : string) :
  (∀ D, "*." +:+ D ∈ WildcardsOf h ↔
        (∃ p, h = p +:+ "." +:+ D) ∧ 2 ≤ length (SplitByte "." D)) ∧
  StronglySorted (λ a b, String.length b < String.length a) (WildcardsOf h).
Proof.
  split; [|apply wildcards_from_sorted]. intros D. unfold WildcardsOf.
  rewrite elem_of_wildcards_from. split.
  - intros (pre&suf&Heq&Hpre&Hsuf&Hw).
    assert (suf ≠ []) by (by intros ->; simpl in *; lia).
    assert (D = JoinByte "." suf) as -> by (by injection Hw).
    split.
    + exists (JoinByte "." pre). rewrite <- (JoinByte_SplitByte "." h), Heq.
      by rewrite JoinByte_app.
    + rewrite SplitByte_JoinByte; [done|done|]. intros x Hx.
      apply (SplitByte_no_sep "." h). rewrite Heq. set_solver.
  - intros [[p ->] HD]. exists (SplitByte "." p), (SplitByte "." D).
    split; [apply (SplitByte_app_sep "." p D)|]. split; [apply SplitByte_nonempty|].
    split; [done|]. by rewrite JoinByte_SplitByte.
Qed.

(** *** Port ranges *)

Lemma code_digit n : (n < 10)%N → code (ascii_of_N (n + 48)) = (n + 48)%N.
Proof. intros. unfold code. apply N_ascii_embedding. lia. Qed.

Lemma pretty_digit x : (x < 10)%N →
  is_digit (pretty_N_char x) = true ∧ (Z.of_N (code (pretty_N_char x)) - 48 = Z.of_N x)%Z.
Proof.
  intros Hx.
  assert (x = 0 ∨ x = 1 ∨ x = 2 ∨ x = 3 ∨ x = 4 ∨ x = 5 ∨ x = 6 ∨ x = 7 ∨ x = 8 ∨ x = 9)%N as Hc
    by lia.
  by repeat destruct Hc as [->|Hc]; subst.
Qed.

Lemma parse_digits_go x acc s :
  parse_digits acc (pretty_N_go x s) =
  parse_digits (acc * 10 ^ Z.of_nat (String.length (pretty_N_go x "")) + Z.of_N x)%Z s.
Proof.
  revert acc s. induction (N.lt_wf_0 x) as [x _ IH]. intros acc s.
  destruct (decide (0 < x)%N) as [Hx|Hx].
  - rewrite !(pretty_N_go_step x) by done.
    assert (x `div` 10 < x)%N as Hlt by (apply N.div_lt; lia).
    rewrite (IH _ Hlt). cbn [parse_digits].
    destruct (pretty_digit (x `mod` 10)) as [-> ->]; [apply N.mod_lt; lia|].
    f_equal.
    assert (∀ y t, String.length (pretty_N_go y t) = String.length (pretty_N_go y "") + String.length t)
      as Hlen.
    { clear. intros y. induction (N.lt_wf_0 y) as [y _ IH]. intros t.
      destruct (decide (0 < y)%N) as [Hy|Hy].
      - rewrite !(pretty_N_go_step y) by done.
        assert (y `div` 10 < y)%N by (apply N.div_lt; lia).
        rewrite (IH _ ltac:(eassumption) (String _ t)), (IH _ ltac:(eassumption) (String _ "")).
        simpl. lia.
      - assert (y = 0%N) as -> by lia. by rewrite !pretty_N_go_0. }
    rewrite (Hlen _ (String _ "")). simpl.
    rewrite Nat2Z.inj_add, Z.pow_add_r by lia. change (10 ^ Z.of_nat 1)%Z with 10%Z.
    pose proof (N.div_mod x 10 ltac:(lia)). lia.
  - assert (x = 0%N) as -> by lia. rewrite !pretty_N_go_0. simpl. f_equal. lia.
Qed.

Lemma parse_digits_pretty (n : N) : parse_digits 0 (pretty n) = Some (Z.of_N n).
Proof.
  unfold pretty, pretty_N. case_decide as Hn; [by subst|]. rewrite parse_digits_go. done.
Qed.

Lemma pretty_N_digits (n : N) : ∃ c s, pretty n = String c s ∧ is_digit c = true.
Proof.
  pose proof (parse_digits_pretty n) as Hp. destruct (pretty n) as [|c s] eqn:He.
  - unfold pretty, pretty_N in He. case_decide; [done|].
    rewrite pretty_N_go_step in He by lia.
    assert (∀ y t, t ≠ "" → pretty_N_go y t ≠ "") as Hne; [|by eapply Hne in He].
    clear. intros y. induction (N.lt_wf_0 y) as [y _ IH]. intros t Ht.
    destruct (decide (0 < y)%N).
    + rewrite pretty_N_go_step by done. apply IH; [apply N.div_lt; lia|done].
    + assert (y = 0%N) as -> by lia. by rewrite pretty_N_go_0.
  - exists c, s. split; [done|]. simpl in Hp. by destruct (is_digit c).
Qed.

Lemma digits_forall acc s n : parse_digits acc s = Some n → str_forall is_digit s = true.
Proof.
  revert acc. induction s as [|c s IH]; intros acc; simpl; [done|].
  destruct (is_digit c); [apply IH|done].
Qed.

Lemma Itoa_digits z : (0 ≤ z)%Z → str_forall is_digit (Itoa z) = true.
Proof.
  intros Hz. unfold Itoa. destruct z as [|p|p]; [done| |lia].
  eapply digits_forall. apply (parse_digits_pretty (N.pos p)).
Qed.

Lemma Atoi_Itoa z : (0 ≤ z < 2 ^ 63)%Z → Atoi (Itoa z) = Some z.
Proof.
  intros Hz. unfold Itoa. assert (pretty z = pretty (Z.to_N z)) as ->
    by (destruct z; [done|done|lia]).
  pose proof (parse_digits_pretty (Z.to_N z)) as Hp.
  destruct (pretty_N_digits (Z.to_N z)) as (c&s&He&Hc). rewrite He in *. unfold Atoi.
  assert ((match String c s with
           | String "-" s' => (true, s') | String "+" s' => (false, s') | _ => (false, String c s)
           end) = (false, String c s)) as ->.
  { clear -Hc. revert Hc. byte_cases c. }
  rewrite Hp, Z2N.id by lia.
  rewrite (proj2 (Z.leb_le _ _)), (proj2 (Z.ltb_lt _ _)) by lia. done.
Qed.

Lemma digit_not_dash c : is_digit c = true → Ascii.eqb c "-" = false.
Proof. byte_cases c. Qed.

Definition plain_byte (c : ascii) : bool := is_ascii_byte c && negb (is_space_byte c).
Lemma TrimSpace_plain `{GoUnicode} s : str_forall plain_byte s = true → TrimSpace s = s.
Proof.
  intros Hs. unfold TrimSpace.
  assert (str_forall is_ascii_byte s = true) as ->.
  { eapply str_forall_impl; [|exact Hs]. intros c Hc. unfold plain_byte in Hc. by bool_facts. }
  assert (trim_left s = s) as ->.
  { destruct s as [|c s]; [done|]. simpl in *. unfold plain_byte in Hs. bool_facts. by case_match. }
  induction s as [|c s IH]; [done|]. simpl in *. unfold plain_byte in Hs at 1. bool_facts. rewrite IH by done.
  destruct s; [|done]. by case_match.
Qed.
Lemma trim_digits `{GoUnicode} s : str_forall is_digit s = true → TrimSpace s = s.
Proof. intros Hs. apply TrimSpace_plain. eapply str_forall_impl; [|exact Hs]. intros c. unfold plain_byte. byte_cases c. Qed.

Lemma CutByte_digits s t :
  str_forall is_digit s = true → CutByte "-" (s +:+ String "-" t) = Some (s, t).
Proof.
  induction s as [|c s IH]; intros Hs; [done|]. rewrite str_app_cons.
  simpl in Hs. bool_facts. cbn [CutByte]. rewrite IH by done.
  by rewrite digit_not_dash.
Qed.

Lemma ParsePortRange_bounds `{GoUnicode} s lo hi :
  ParsePortRange s = Ok (lo, hi) → (1 ≤ lo ≤ hi ∧ hi ≤ 65535)%Z.
Proof. unfold ParsePortRange. intros Hp. split_branches; bool_facts; lia. Qed.

(** [ParsePortRange] accepts only ranges with 1 <= min <= max <= 65535,
and reads back every such range written as "min-max". *)
Theorem ParsePortRange_spec `{GoUnicode} :
  (∀ s lo hi, ParsePortRange s = Ok (lo, hi) → (1 ≤ lo ≤ hi ∧ hi ≤ 65535)%Z) ∧
  (∀ lo hi, (1 ≤ lo ≤ hi ∧ hi ≤ 65535)%Z →
     ParsePortRange (Itoa lo +:+ "-" +:+ Itoa hi) = Ok (lo, hi)).
Proof.
  split; [apply ParsePortRange_bounds|]. intros lo hi [Hlo Hhi]. unfold ParsePortRange.
  change ("-" +:+ Itoa hi) with (String "-" (Itoa hi)).
  rewrite CutByte_digits by (apply Itoa_digits; lia).
  rewrite !trim_digits by (apply Itoa_digits; lia).
  rewrite !Atoi_Itoa by lia.
  rewrite (proj2 (Z.ltb_ge _ _)), (proj2 (Z.ltb_ge 65535 hi)), (proj2 (Z.ltb_ge hi lo)) by lia.
  done.
Qed.

(** ** Framing ([framing.go])

A message is a 4-byte big-endian length followed by its protobuf encoding.
Protobuf itself is a library: [Marshal] and [Unmarshal] are parameters. *)

Module Framing.

Definition byte := ascii.
Definition MaxMessageSize : N := 2 ^ 20.

(** [binary.BigEndian.PutUint32] and [Uint32]. *)
Definition put_uint32 (n : N) : list byte :=
  [ascii_of_N ((n / 2 ^ 24) mod 256); ascii_of_N ((n / 2 ^ 16) mod 256);
   ascii_of_N ((n / 2 ^ 8) mod 256); ascii_of_N (n mod 256)]%N.
Definition get_uint32 (b0 b1 b2 b3 : byte) : N :=
  (code b0 * 2 ^ 24 + code b1 * 2 ^ 16 + code b2 * 2 ^ 8 + code b3)%N.

Inductive io_err := EOF | UnexpectedEOF.

(** [io.ReadFull(r, buf)] for [n] bytes of what the peer sent before closing. *)
Definition read_full (n : nat) (stream : list byte) : result io_err (list byte * list byte) :=
  if n <=? length stream then Ok (take n stream, drop n stream)
  else Err (match stream with [] => EOF | _ => UnexpectedEOF end).

Inductive frame_err :=
| MarshalFailed
| TooLarge (size : N)
| WriteFailed
| ReadHeader (e : io_err)
| FrameTooLarge (size : N)
| ReadBody (e : io_err)
| UnmarshalFailed.

Section framing.
Context {Msg : Type} (Marshal : Msg → option (list byte)) (Unmarshal : list byte → option Msg).

(** [write] appends a frame to the connection, or fails. *)
Definition WriteMessage (write : list byte → option (list byte)) (msg : Msg)
    : result frame_err (list byte) :=
  match Marshal msg with
  | None => Err MarshalFailed
  | Some data =>
      if (MaxMessageSize <? N.of_nat (length data))%N then Err (TooLarge (N.of_nat (length data)))
      else match write (put_uint32 (N.of_nat (length data)) ++ data) with
           | None => Err WriteFailed
           | Some out => Ok out
           end
  end.

(** Reads one message and returns it with what is left of the stream. *)
Definition ReadMessage (stream : list byte) : result frame_err (Msg * list byte) :=
  match read_full 4 stream with
  | Err e => Err (ReadHeader e)
  | Ok (header, stream) =>
      match header with
      | [b0; b1; b2; b3] =>
          let size := get_uint32 b0 b1 b2 b3 in
          if (MaxMessageSize <? size)%N then Err (FrameTooLarge size)
          else match read_full (N.to_nat size) stream with
               | Err e => Err (ReadBody e)
               | Ok (data, stream) =>
                   match Unmarshal data with
                   | None => Err UnmarshalFailed
                   | Some msg => Ok (msg, stream)
                   end
               end
      | _ => Err (ReadHeader UnexpectedEOF)
      end
  end.

(** Reading [k] messages one after the other, as the control loop does. *)
Fixpoint ReadMessages (k : nat) (stream : list byte) : result frame_err (list Msg * list byte) :=
  match k with
  | O => Ok ([], stream)
  | S k => match ReadMessage stream with
           | Err e => Err e
           | Ok (m, stream) =>
               match ReadMessages k stream with
               | Err e => Err e
               | Ok (ms, stream) => Ok (m :: ms, stream)
               end
           end
  end.

(** Writing a list of messages to a connection that takes everything. *)
Definition append_to (out : list byte) : list byte → option (list byte) := λ f, Some (out ++ f).
Definition WriteMessages (out : list byte) (ms : list Msg) : result frame_err (list byte) :=
  foldM (λ out m, WriteMessage (append_to out) m) out ms.

Lemma code_ascii n : (n < 256)%N → code (ascii_of_N n) = n.
Proof. apply N_ascii_embedding. Qed.

Lemma get_put_uint32 n : (n < 2 ^ 32)%N →
  ∃ b0 b1 b2 b3, put_uint32 n = [b0; b1; b2; b3] ∧ get_uint32 b0 b1 b2 b3 = n.
Proof.
  intros Hn. unfold put_uint32. do 4 eexists. split; [done|]. unfold get_uint32.
  rewrite !code_ascii by (apply N.mod_lt; lia).
  replace (2 ^ 24)%N with (256 * 256 * 256)%N by done.
  replace (2 ^ 16)%N with (256 * 256)%N by done. replace (2 ^ 8)%N with 256%N by done.
  rewrite <- !N.Div0.div_div.
  pose proof (N.div_mod n 256 ltac:(lia)).
  pose proof (N.div_mod (n / 256) 256 ltac:(lia)).
  pose proof (N.div_mod (n / 256 / 256) 256 ltac:(lia)).
  assert (n / 256 / 256 / 256 < 256)%N.
  { rewrite !N.Div0.div_div. apply N.Div0.div_lt_upper_bound. done. }
  rewrite (N.mod_small (n / 256 / 256 / 256)) by done. lia.
Qed.

Lemma put_get_uint32 b0 b1 b2 b3 : put_uint32 (get_uint32 b0 b1 b2 b3) = [b0; b1; b2; b3].
Proof.
  unfold put_uint32, get_uint32, code.
  pose proof (N_ascii_bounded b0). pose proof (N_ascii_bounded b1).
  pose proof (N_ascii_bounded b2). pose proof (N_ascii_bounded b3).
  assert (∀ a b c, (b < c → (a * c + b) / c = a ∧ (a * c + b) mod c = b)%N) as Hdm.
  { intros a b c Hb. split.
    - symmetry. apply (N.div_unique _ _ _ b Hb). lia.
    - symmetry. apply (N.mod_unique _ _ a b Hb). lia. }
  set (n0 := N_of_ascii b0) in *. set (n1 := N_of_ascii b1) in *.
  set (n2 := N_of_ascii b2) in *. set (n3 := N_of_ascii b3) in *.
  change (2 ^ 24)%N with (256 * 256 * 256)%N. change (2 ^ 16)%N with (256 * 256)%N.
  change (2 ^ 8)%N with 256%N.
  replace (n0 * (256 * 256 * 256) + n1 * (256 * 256) + n2 * 256 + n3)%N
    with (((n0 * 256 + n1) * 256 + n2) * 256 + n3)%N by lia.
  rewrite <- !N.Div0.div_div.
  rewrite !(proj1 (Hdm _ n3 256%N ltac:(done))), (proj2 (Hdm _ n3 256%N ltac:(done))).
  rewrite !(proj1 (Hdm _ n2 256%N ltac:(done))), (proj2 (Hdm _ n2 256%N ltac:(done))).
  rewrite (proj1 (Hdm _ n1 256%N ltac:(done))), (proj2 (Hdm _ n1 256%N ltac:(done))).
  rewrite (N.mod_small n0) by done. subst n0 n1 n2 n3. by rewrite !ascii_N_embedding.
Qed.

Lemma read_full_app n (a b : list byte) : length a = n → read_full n (a ++ b) = Ok (a, b).
Proof.
  intros <-. unfold read_full. rewrite length_app.
  rewrite (proj2 (Nat.leb_le _ _)) by lia. by rewrite take_app_length, drop_app_length.
Qed.

Lemma read_full_short n (s : list byte) : length s < n → ∃ e, read_full n s = Err e.
Proof. intros Hn. unfold read_full. rewrite (proj2 (Nat.leb_gt _ _)) by lia. eauto. Qed.

Lemma WriteMessage_frame msg out w : WriteMessage (append_to out) msg = Ok w →
  ∃ data, Marshal msg = Some data ∧ (N.of_nat (length data) ≤ MaxMessageSize)%N ∧
          w = out ++ put_uint32 (N.of_nat (length data)) ++ data.
Proof.
  unfold WriteMessage, append_to. intros Hw. split_branches. rewrite N.ltb_ge in *. eauto.
Qed.

Lemma ReadMessage_frame msg data rest :
  (N.of_nat (length data) ≤ MaxMessageSize)%N → Unmarshal data = Some msg →
  ReadMessage (put_uint32 (N.of_nat (length data)) ++ data ++ rest) = Ok (msg, rest).
Proof.
  intros Hl Hu. unfold MaxMessageSize in *.
  destruct (get_put_uint32 (N.of_nat (length data))) as (b0&b1&b2&b3&Hp&Hg); [lia|].
  unfold ReadMessage. rewrite Hp, read_full_app by done. rewrite Hg.
  rewrite (proj2 (N.ltb_ge _ _)) by done. rewrite read_full_app by lia. by rewrite Hu.
Qed.

(** What [proto.Marshal] and [proto.Unmarshal] promise. *)
Hypothesis Unmarshal_Marshal : ∀ m data, Marshal m = Some data → Unmarshal data = Some m.

Lemma WriteMessages_frames ms out w :
  WriteMessages out ms = Ok w → ∃ frames, w = out ++ frames ∧
  ∀ rest, ReadMessages (length ms) (frames ++ rest) = Ok (ms, rest).
Proof using Unmarshal_Marshal.
  unfold WriteMessages. revert out. induction ms as [|m ms IH]; intros out; simpl.
  { intros [= <-]. exists []. by rewrite app_nil_r. }
  destruct (WriteMessage (append_to out) m) as [out1|] eqn:Hw; [|done].
  intros Hws. apply WriteMessage_frame in Hw as (data&Hm&Hl&->).
  apply IH in Hws as (frames&->&Hread).
  exists ((put_uint32 (N.of_nat (length data)) ++ data) ++ frames).
  split; [by rewrite <- !app_assoc|]. intros rest.
  rewrite <- !app_assoc, (ReadMessage_frame m) by eauto. by rewrite Hread.
Qed.

(** C15: messages written one after the other with [WriteMessage] are read
back by [ReadMessage] in order, leaving the bytes that follow untouched. *)
Theorem framing_roundtrip (ms : list Msg) (frames rest : list byte) :
  WriteMessages [] ms = Ok frames →
  ReadMessages (length ms) (frames ++ rest) = Ok (ms, rest).
Proof using Unmarshal_Marshal.
  intros (fs&->&Hread)%WriteMessages_frames. apply Hread.
Qed.

End framing.

(** [ReadMessage] accepts no frame whose length prefix exceeds
[MaxMessageSize] (it fails having read the 4 header bytes only), and no
proper prefix of a frame. *)
Theorem ReadMessage_bounded {Msg} (Unmarshal : list byte → option Msg) (stream : list byte) :
  match ReadMessage Unmarshal stream with
  | Ok (m, rest) =>
      ∃ data, stream = put_uint32 (N.of_nat (length data)) ++ data ++ rest ∧
              (N.of_nat (length data) ≤ MaxMessageSize)%N ∧ Unmarshal data = Some m
  | Err (ReadHeader _) => length stream < 4
  | Err (FrameTooLarge n) => (MaxMessageSize < n)%N
  | Err (ReadBody _) => 4 ≤ length stream
  | _ => True
  end.
Proof.
  unfold ReadMessage, read_full. destruct (4 <=? length stream) eqn:H4; simpl.
  2: { apply Nat.leb_gt in H4. done. }
  apply Nat.leb_le in H4.
  destruct stream as [|b0 [|b1 [|b2 [|b3 stream]]]]; simpl in H4; try lia. simpl.
  destruct (MaxMessageSize <? _)%N eqn:Hm; [by apply N.ltb_lt in Hm|]. apply N.ltb_ge in Hm.
  rewrite drop_0.
  destruct (N.to_nat (get_uint32 b0 b1 b2 b3) <=? length stream) eqn:Hb; [|simpl; lia]. apply Nat.leb_le in Hb.
  destruct (Unmarshal _) eqn:Hu; [|done].
  exists (take (N.to_nat (get_uint32 b0 b1 b2 b3)) stream).
  rewrite length_take_le, N2Nat.id by done. split; [|done]. rewrite take_drop.
  change (b0 :: b1 :: b2 :: b3 :: stream = put_uint32 (get_uint32 b0 b1 b2 b3) ++ stream).
  by rewrite put_get_uint32.
Qed.
End Framing.

Import Framing.

(** Messages that are their own encoding. *)
Lemma framing_roundtrip_witness :
  ∃ frames, WriteMessages Some [] [["a"%char; "b"%char]; []] = Ok frames ∧
    ReadMessages Some 2 (frames ++ ["z"%char]) = Ok ([["a"%char; "b"%char]; []], ["z"%char]).
Proof.
  eexists. split; [vm_compute; reflexivity|].
  apply (framing_roundtrip Some Some (λ m data H, eq_sym H) [["a"%char; "b"%char]; []]).
  vm_compute. reflexivity.
Defined.
