(* ===== verification/PathMatch.v ===== *)
(** * Go's [path.Match]

Token policies and gateway keys grant names and domains by [path.Match]
patterns. This is the matcher of Go's standard library: a pattern is cut into
chunks at its stars, each chunk is matched at the leftmost place that works,
and a malformed pattern is an error even when the name already failed. *)

From S2P Require Import Prelude GoStrings.
From stdpp Require Import options.
From Stdlib Require Import Ascii.

Module PathMatch.

Definition bytes := list ascii.

(** ** [utf8.DecodeRune]: the first rune and how many bytes it takes. *)
Definition rune_error : N := 65533.
Definition in_range (lo hi : N) (c : ascii) : bool := ((lo <=? code c) && (code c <=? hi))%N.
Definition cont (c : ascii) : N := (code c - 128)%N.

Definition decode_rune (s : bytes) : N * nat :=
  match s with
  | [] => (rune_error, 0)
  | b0 :: t =>
      if (code b0 <? 128)%N then (code b0, 1)
      else
        match t with
        | b1 :: t1 =>
            if in_range 194 223 b0 then
              if in_range 128 191 b1 then (((code b0 - 192) * 64 + cont b1)%N, 2)
              else (rune_error, 1)
            else
              match t1 with
              | b2 :: t2 =>
                  let ok3 :=
                    (in_range 224 224 b0 && in_range 160 191 b1)
                    || (in_range 237 237 b0 && in_range 128 159 b1)
                    || ((in_range 225 236 b0 || in_range 238 239 b0) && in_range 128 191 b1) in
                  if ok3 then
                    if in_range 128 191 b2
                    then (((code b0 - 224) * 4096 + cont b1 * 64 + cont b2)%N, 3)
                    else (rune_error, 1)
                  else
                    match t2 with
                    | b3 :: _ =>
                        let ok4 :=
                          (in_range 240 240 b0 && in_range 144 191 b1)
                          || (in_range 241 243 b0 && in_range 128 191 b1)
                          || (in_range 244 244 b0 && in_range 128 143 b1) in
                        if ok4 && in_range 128 191 b2 && in_range 128 191 b3
                        then (((code b0 - 240) * 262144 + cont b1 * 4096 + cont b2 * 64 + cont b3)%N, 4)
                        else (rune_error, 1)
                    | [] => (rune_error, 1)
                    end
              | [] => (rune_error, 1)
              end
        | [] => (rune_error, 1)
        end
  end.

(** ** Chunks *)

Definition star : ascii := "*".
Definition slash : ascii := "/".
Definition backslash : ascii := "\".

Fixpoint strip_stars (p : bytes) : bool * bytes :=
  match p with
  | c :: p' => if Ascii.eqb c star then (true, snd (strip_stars p')) else (false, p)
  | [] => (false, [])
  end.

(** The chunk up to the next star outside a class. *)
Fixpoint scan (inrange : bool) (p : bytes) : bytes * bytes :=
  match p with
  | [] => ([], [])
  | c :: p' =>
      if Ascii.eqb c backslash then
        match p' with
        | d :: p'' => let '(a, b) := scan inrange p'' in (c :: d :: a, b)
        | [] => ([c], [])
        end
      else if Ascii.eqb c "[" then let '(a, b) := scan true p' in (c :: a, b)
      else if Ascii.eqb c "]" then let '(a, b) := scan false p' in (c :: a, b)
      else if Ascii.eqb c star && negb inrange then ([], p)
      else let '(a, b) := scan inrange p' in (c :: a, b)
  end.

Definition scanChunk (p : bytes) : bool * bytes * bytes :=
  let '(st, p) := strip_stars p in
  let '(chunk, rest) := scan false p in (st, chunk, rest).

(** A possibly escaped rune of a class; [None] is [ErrBadPattern]. *)
Definition getEsc (chunk : bytes) : option (N * bytes) :=
  match chunk with
  | [] => None
  | c :: t =>
      if Ascii.eqb c "-" || Ascii.eqb c "]" then None
      else
        let chunk := if Ascii.eqb c backslash then t else chunk in
        match chunk with
        | [] => None
        | _ =>
            let '(r, n) := decode_rune chunk in
            if (r =? rune_error)%N && (n =? 1) then None
            else match drop n chunk with [] => None | rest => Some (r, rest) end
        end
  end.

(** The ranges of a class, up to its closing bracket. *)
Fixpoint class_ranges (fuel : nat) (r : N) (first matched : bool) (chunk : bytes)
    : option (bool * bytes) :=
  match fuel with
  | O => None
  | S fuel =>
      match chunk, first with
      | "]"%char :: rest, false => Some (matched, rest)
      | _, _ =>
          match getEsc chunk with
          | None => None
          | Some (lo, chunk) =>
              match chunk with
              | "-"%char :: chunk =>
                  match getEsc chunk with
                  | None => None
                  | Some (hi, chunk) =>
                      class_ranges fuel r false (matched || ((lo <=? r) && (r <=? hi)))%N chunk
                  end
              | _ => class_ranges fuel r false (matched || ((lo <=? r) && (r <=? lo)))%N chunk
              end
          end
      end
  end.

Inductive chunk_res := Bad | Failed | Matched (rest : bytes).

(** [matchChunk]: [failed] keeps reading the chunk only to check its syntax. *)
Fixpoint matchChunk (fuel : nat) (failed : bool) (chunk s : bytes) : chunk_res :=
  match fuel with
  | O => Bad
  | S fuel =>
      match chunk with
      | [] => if failed then Failed else Matched s
      | c :: chunk' =>
          let failed := failed || (if s is [] then true else false) in
          if Ascii.eqb c "[" then
            let '(r, s') := if failed then (0%N, s)
                            else let '(r, n) := decode_rune s in (r, drop n s) in
            let '(negated, chunk'') :=
              match chunk' with
              | "^"%char :: t => (true, t)
              | _ => (false, chunk')
              end in
            match class_ranges fuel r true false chunk'' with
            | None => Bad
            | Some (m, rest) => matchChunk fuel (failed || Bool.eqb m negated) rest s'
            end
          else if Ascii.eqb c "?" then
            if failed then matchChunk fuel true chunk' s
            else
              let fail' := if s is d :: _ then Ascii.eqb d slash else true in
              matchChunk fuel fail' chunk' (drop (snd (decode_rune s)) s)
          else
            match (if Ascii.eqb c backslash then chunk' else chunk) with
            | [] => Bad
            | e :: chunk'' =>
                if failed then matchChunk fuel true chunk'' s
                else
                  match s with
                  | [] => matchChunk fuel true chunk'' s
                  | d :: s' => matchChunk fuel (negb (Ascii.eqb e d)) chunk'' s'
                  end
            end
      end
  end.

Definition match_chunk (chunk s : bytes) : chunk_res :=
  matchChunk (S (length chunk)) false chunk s.

(** The star loop: skip 1, 2, ... bytes, none of them a slash. *)
Fixpoint skip_match (last : bool) (chunk name : bytes) : chunk_res :=
  match name with
  | [] => Failed
  | c :: t =>
      if Ascii.eqb c slash then Failed
      else match match_chunk chunk t with
           | Bad => Bad
           | Matched r => if last && (if r is [] then false else true)
                          then skip_match last chunk t else Matched r
           | Failed => skip_match last chunk t
           end
  end.

(** The rest of a pattern is still checked when the name already failed. *)
Fixpoint check_rest (fuel : nat) (p : bytes) : option bool :=
  match fuel, p with
  | _, [] => Some false
  | O, _ => None
  | S fuel, _ =>
      let '(_, chunk, rest) := scanChunk p in
      match match_chunk chunk [] with Bad => None | _ => check_rest fuel rest end
  end.

(** [path.Match] on bytes; [None] is [ErrBadPattern]. *)
Fixpoint match_loop (fuel : nat) (p name : bytes) : option bool :=
  match p with
  | [] => Some (if name is [] then true else false)
  | _ =>
    match fuel with
    | O => None
    | S fuel =>
      let '(st, chunk, rest) := scanChunk p in
      if st && (if chunk is [] then true else false)
      then Some (negb (existsb (Ascii.eqb slash) name))
      else
        let last := if rest is [] then true else false in
        let retry :=
          if st : bool then
            match skip_match last chunk name with
            | Bad => None
            | Matched r => match_loop fuel rest r
            | Failed => check_rest fuel rest
            end
          else check_rest fuel rest in
        match match_chunk chunk name with
        | Matched r => if last && (if r is [] then false else true) then retry
                       else match_loop fuel rest r
        | Bad => None
        | Failed => retry
        end
    end
  end.

Definition Match (pattern name : string) : option bool :=
  let p := String.list_ascii_of_string pattern in
  match_loop (S (length p)) p (String.list_ascii_of_string name).

(** [ok, _ := path.Match(pattern, name)] *)
Definition matches (pattern name : string) : bool := default false (Match pattern name).
(** [_, err := path.Match(pattern, "")] *)
Definition well_formed (pattern : string) : bool := bool_decide (is_Some (Match pattern "")).

Example match_examples :
  Match "dev-*" "dev-a" = Some true ∧ Match "*.example.com" "a.example.com" = Some true ∧
  Match "*.example.com" "*.b.example.com" = Some true ∧ Match "a*b*c" "axxbyybzc" = Some true ∧
  Match "a?c" "abc" = Some true ∧ Match "[a-c]x" "bx" = Some true ∧ Match "[^a-c]x" "bx" = Some false ∧
  Match "[a-" "b" = None ∧ Match "a*[" "b" = None ∧ Match "*" "a/b" = Some false ∧ Match "a\*" "a*" = Some true.
Proof. vm_compute. done. Qed.
End PathMatch.
