(* ===== verification/Policy.v ===== *)
(** * Token policies and claim rules (go/tunnel/auth/policy.go,
go/tunnel/registry/rules.go)

What an agent token may register, which names and ports are valid on a
relay, and how a claim relates to the current holder of a name. Both the
standalone relay's registry and the cluster's claims engine apply these. *)

From S2P Require Import Prelude GoStrings Regex Protocol PathMatch.
From stdpp Require Import options.
#[local] Open Scope l8_scope.

(** ** [auth.Policy] *)

Module Auth.
Import PathMatch.

Record Policy := mkPolicy {
  Names : list string;
  Types : list string;
  MaxTunnels : Z;
  Ports : string;
  RequireCert : bool;
  Domains : list string;
}.

Inductive policy_err :=
| BadNamePattern (p : string)
| BadType (e : name_err)
| BadDomainPattern (p : string)
| NegativeMaxTunnels
| BadPorts (e : name_err).

Definition Validate `{GoUnicode} (p : Policy) : result policy_err unit :=
  match List.find (λ x, negb (well_formed x)) (Names p) with
  | Some x => Err (BadNamePattern x)
  | None =>
  match foldM (λ _ t, match ParseTunnelType t with Ok _ => Ok tt | Err e => Err (BadType e) end) tt (Types p) with
  | Err e => Err e
  | Ok _ =>
  match List.find (λ x, negb (well_formed x) || negb (String.eqb x (ToLower x))) (Domains p) with
  | Some x => Err (BadDomainPattern x)
  | None =>
  refuse! (MaxTunnels p <? 0)%Z with NegativeMaxTunnels ;;
  if String.eqb (Ports p) "" then Ok tt
  else match ParsePortRange (Ports p) with Ok _ => Ok tt | Err e => Err (BadPorts e) end
  end end end.

Definition AllowsName (p : Policy) (name : string) : bool :=
  match Names p with
  | [] => true
  | ps => existsb (λ pattern, matches pattern name) ps
  end.

(** Unlike names, an empty list allows nothing. *)
Definition AllowsDomain (p : Policy) (domain : string) : bool :=
  existsb (λ pattern, matches pattern domain) (Domains p).

Definition AllowsType (p : Policy) (typ : string) : bool :=
  match Types p with
  | [] => true
  | ts => existsb (λ t, String.eqb t typ) ts
  end.

Definition minInt (a b : Z) : Z := if (a <? b)%Z then a else b.
Definition maxInt (a b : Z) : Z := if (b <? a)%Z then a else b.

Definition PortRange `{GoUnicode} (p : Policy) (min max : Z) : Z * Z * bool :=
  if String.eqb (Ports p) "" then (min, max, true)
  else
    let '(plo, phi) := match ParsePortRange (Ports p) with Ok r => r | Err _ => (0, 0)%Z end in
    let '(lo, hi) := (maxInt min plo, minInt max phi) in
    (lo, hi, (lo <=? hi)%Z).

(** ** Lemmas *)

Lemma minInt_spec a b : minInt a b = Z.min a b.
Proof. unfold minInt. case_match; bool_facts; lia. Qed.
Lemma maxInt_spec a b : maxInt a b = Z.max a b.
Proof. unfold maxInt. case_match; bool_facts; lia. Qed.

(** The ports the policy itself allows. *)
Definition policy_ports `{GoUnicode} (p : Policy) (port : Z) : Prop :=
  Ports p = "" ∨ ∃ lo hi, ParsePortRange (Ports p) = Ok (lo, hi) ∧ (lo ≤ port ≤ hi)%Z.

(** For a validated policy, the narrowed range holds exactly the ports that
are in the given range and allowed by the policy. *)
Lemma PortRange_mem `{GoUnicode} p min max port :
  Validate p = Ok tt →
  (policy_ports p port ∧ (min ≤ port ≤ max)%Z) ↔
  (let '(lo, hi, _) := PortRange p min max in (lo ≤ port ≤ hi)%Z).
Proof.
  intros Hv. unfold PortRange, policy_ports.
  destruct (String.eqb_spec (Ports p) "") as [He|He]; [rewrite He; naive_solver lia|].
  destruct (ParsePortRange (Ports p)) as [[lo hi]|e] eqn:Hp.
  - rewrite maxInt_spec, minInt_spec. split; [naive_solver lia|].
    intros ?. split; [right; exists lo, hi; split; [done|lia]|lia].
  - unfold Validate in Hv. rewrite (proj2 (String.eqb_neq _ _) He), Hp in Hv. split_branches.
Qed.

Lemma PortRange_ok `{GoUnicode} p min max lo hi ok :
  (min ≤ max)%Z → PortRange p min max = (lo, hi, ok) →
  ok = true ↔ (lo ≤ hi)%Z.
Proof.
  unfold PortRange. intros Hm. destruct (String.eqb (Ports p) ""); [naive_solver|].
  destruct (ParsePortRange (Ports p)) as [[plo phi]|e]; intros [= <- <- <-]; apply Z.leb_le.
Qed.
End Auth.

(** ** The claim rules *)

Module Rules.
Import Auth.

Record Rules := mkRules {
  BaseDomain : string;
  ControlSNI : string;
  AuthHost : string;
  ReservedNames : list string;
  PortMin : Z;
  PortMax : Z;
}.

(** The sentinel errors of the package. *)
Inductive rule_err :=
| ErrNameTaken | ErrMaxTunnels | ErrPortTaken | ErrInvalidName
| ErrReservedName | ErrPortOutsideRange | ErrPortNotAllowed.
#[export] Instance rule_err_eq_dec : EqDecision rule_err.
Proof. solve_decision. Defined.

Definition ValidName (name : string) : bool := IsDNSLabel name.

Definition IsReserved (r : Rules) (name : string) : bool :=
  let host := name +:+ "." +:+ BaseDomain r in
  if String.eqb host (ControlSNI r)
     || (negb (String.eqb (AuthHost r) "") && String.eqb host (AuthHost r)) then true
  else existsb (λ n, String.eqb n name) (ReservedNames r).

Definition CheckName (r : Rules) (name : string) : result rule_err unit :=
  refuse! negb (ValidName name) with ErrInvalidName ;;
  refuse! IsReserved r name with ErrReservedName ;;
  Ok tt.

Definition TunnelName (r : Rules) (host : string) : string :=
  match CutSuffix ("." +:+ BaseDomain r) host with
  | Some name => if ValidName name then name else ""
  | None => ""
  end.

Definition CheckReservation (r : Rules) (name : string) (port : Z) : result rule_err unit :=
  match CheckName r name with
  | Err e => Err e
  | Ok _ =>
      if negb (port =? 0)%Z && ((port <? PortMin r)%Z || (PortMax r <? port)%Z)
      then Err ErrPortOutsideRange else Ok tt
  end.

Definition CheckRequestedPort `{GoUnicode} (r : Rules) (port : Z) (policy : Policy)
    : result rule_err unit :=
  refuse! (port <? PortMin r)%Z || (PortMax r <? port)%Z with ErrPortOutsideRange ;;
  let '(lo, hi, ok) := PortRange policy (PortMin r) (PortMax r) in
  refuse! negb ok || (port <? lo)%Z || (hi <? port)%Z with ErrPortNotAllowed ;;
  Ok tt.

Definition AllocationRange `{GoUnicode} (r : Rules) (policy : Policy) : result rule_err (Z * Z) :=
  let '(lo, hi, ok) := PortRange policy (PortMin r) (PortMax r) in
  if ok : bool then Ok (lo, hi) else Err ErrPortNotAllowed.

(** The current holder of a name, as far as a claim cares. *)
Record Holder := mkHolder {
  HTokenID : string;
  HAgentID : string;
  Connected : bool;
  SameSession : bool;
}.

Inductive Decision := DecisionNew | DecisionReclaim | DecisionTakeover.

Definition Decide (holder : option Holder) (tokenID agentID : string) (active maxTunnels : Z)
    : result rule_err Decision :=
  refuse! (if holder is Some h then negb (String.eqb (HTokenID h) tokenID) else false)
  with ErrNameTaken ;;
  refuse! (if holder is Some h
           then Connected h && (negb (String.eqb (HAgentID h) agentID) || SameSession h) else false)
  with ErrNameTaken ;;
  refuse! (0 <? maxTunnels)%Z && (maxTunnels <=? active)%Z with ErrMaxTunnels ;;
  match holder with
  | None => Ok DecisionNew
  | Some h => if Connected h then Ok DecisionTakeover else Ok DecisionReclaim
  end.

(** ** Lemmas *)

Lemma ValidName_nonempty n : ValidName n = true → n ≠ "".
Proof. apply dns_label_nonempty. Qed.

Lemma CheckName_ok r n : CheckName r n = Ok tt ↔ ValidName n = true ∧ IsReserved r n = false.
Proof. unfold CheckName. destruct (ValidName n), (IsReserved r n); naive_solver. Qed.

Lemma TunnelName_host r n : ValidName n = true → TunnelName r (n +:+ "." +:+ BaseDomain r) = n.
Proof.
  intros Hn. unfold TunnelName.
  rewrite (proj2 (CutSuffix_Some ("." +:+ BaseDomain r) _ n)) by done. by rewrite Hn.
Qed.

(** A name that may be claimed: no other token holds it, and no other live
agent session (nor this very session) serves it. *)
Definition may_claim (holder : option Holder) (tokenID agentID : string) : Prop :=
  match holder with
  | None => True
  | Some h => HTokenID h = tokenID ∧
              (Connected h = true → HAgentID h = agentID ∧ SameSession h = false)
  end.

Definition decision_of (holder : option Holder) : Decision :=
  match holder with
  | None => DecisionNew
  | Some h => if Connected h then DecisionTakeover else DecisionReclaim
  end.

Lemma Decide_ok holder tok ag active mx d :
  Decide holder tok ag active mx = Ok d ↔
  may_claim holder tok ag ∧ ((0 < mx)%Z → (active < mx)%Z) ∧ d = decision_of holder.
Proof.
  assert (((0 <? mx) && (mx <=? active))%Z = false ↔ ((0 < mx)%Z → (active < mx)%Z)) as <-.
  { rewrite andb_false_iff, Z.ltb_ge, Z.leb_gt. lia. }
  unfold Decide, may_claim, decision_of. destruct ((_ <? _) && _)%Z;
    (destruct holder as [[t a cn ss]|]; simpl;
       [destruct (String.eqb_spec t tok), (String.eqb_spec a ag), cn, ss; simpl| ..]);
    (split; [intros [= <-]; repeat split; intuition congruence|]);
    intros ([] & ? & ->) || intros (? & ? & ->); intuition congruence.
Qed.

(** for a host name, [TunnelName] is the inverse of <name>.<base-domain>:
it returns the name of every valid tunnel host, and "" for every other host. *)
Theorem TunnelName_spec (r : Rules) (host : string) :
  (∀ n, ValidName n = true → TunnelName r (n +:+ "." +:+ BaseDomain r) = n) ∧
  (∀ n, n ≠ "" → TunnelName r host = n →
        host = n +:+ "." +:+ BaseDomain r ∧ ValidName n = true).
Proof.
  split; [apply TunnelName_host|]. unfold TunnelName. intros n Hne Hn.
  destruct (CutSuffix _ host) as [m|] eqn:Hc; [|by subst].
  apply CutSuffix_Some in Hc as ->. case_match; by subst.
Qed.

(** with a validated policy, the range ports are allocated from holds
exactly the ports an agent may ask for: an allocation range is never empty,
and a port is in it iff [CheckRequestedPort] accepts it. *)
Theorem AllocationRange_spec `{GoUnicode} (r : Rules) (p : Policy) :
  (PortMin r ≤ PortMax r)%Z → Validate p = Ok tt →
  match AllocationRange r p with
  | Ok (lo, hi) => (PortMin r ≤ lo ≤ hi ∧ hi ≤ PortMax r)%Z ∧
                   ∀ port, CheckRequestedPort r port p = Ok tt ↔ (lo ≤ port ≤ hi)%Z
  | Err e => e = ErrPortNotAllowed ∧ ∀ port, CheckRequestedPort r port p ≠ Ok tt
  end.
Proof.
  intros Hr Hv. unfold AllocationRange, CheckRequestedPort.
  pose proof (λ port, PortRange_mem p (PortMin r) (PortMax r) port Hv) as Hmem.
  destruct (PortRange p (PortMin r) (PortMax r)) as [[lo hi] ok] eqn:Hp. simpl in Hmem.
  pose proof (PortRange_ok _ _ _ _ _ _ Hr Hp) as Hok. destruct ok; simpl.
  - assert (lo ≤ hi)%Z as Hlh by (by apply Hok).
    assert (PortMin r ≤ lo ∧ hi ≤ PortMax r)%Z as [? ?].
    { destruct (Hmem lo) as [_ H1], (Hmem hi) as [_ H2]. split; [apply H1|apply H2]; lia. }
    split; [lia|]. intros port.
    destruct (Z.ltb_spec port (PortMin r)), (Z.ltb_spec (PortMax r) port),
      (Z.ltb_spec port lo), (Z.ltb_spec hi port); simpl; naive_solver lia.
  - split; [done|]. intros port. by destruct (_ || _).
Qed.

(** [Decide] grants a claim exactly when nobody holds the name, or the
holder has the claiming token and is either parked or another session of the
same agent, and the token's cap is not reached; the decision says which. A
name of another token is always refused as taken. *)
Theorem Decide_spec holder tokenID agentID active maxTunnels :
  (∀ d, Decide holder tokenID agentID active maxTunnels = Ok d ↔
        may_claim holder tokenID agentID ∧ ((0 < maxTunnels)%Z → (active < maxTunnels)%Z) ∧
        d = decision_of holder) ∧
  (∀ e, Decide holder tokenID agentID active maxTunnels = Err e →
        (e = ErrNameTaken ∧ ¬ may_claim holder tokenID agentID) ∨
        (e = ErrMaxTunnels ∧ may_claim holder tokenID agentID)).
Proof.
  split; [intros; apply Decide_ok|]. unfold Decide, may_claim. intros e.
  destruct (_ && _)%Z; (destruct holder as [[t a cn ss]|]; simpl;
       [destruct (String.eqb_spec t tokenID), (String.eqb_spec a agentID), cn, ss; simpl| ..]);
    intros [= <-]; (left; split; [done|intuition congruence]) || (right; split; [done|intuition congruence]).
Qed.
End Rules.

Import Auth Rules.

Lemma AllocationRange_spec_witness :
  AllocationRange (mkRules "t.example" "c" "" [] 1000 3000) (mkPolicy [] [] 0 "2000-4000" false []) = Ok (2000, 3000)%Z ∧
  CheckRequestedPort (mkRules "t.example" "c" "" [] 1000 3000) 2500 (mkPolicy [] [] 0 "2000-4000" false []) = Ok tt.
Proof.
  pose proof (AllocationRange_spec (mkRules "t.example" "c" "" [] 1000 3000)
    (mkPolicy [] [] 0 "2000-4000" false [])) as Hs.
  assert (AllocationRange (mkRules "t.example" "c" "" [] 1000 3000) (mkPolicy [] [] 0 "2000-4000" false [])
          = Ok (2000, 3000)%Z) as Ha by (vm_compute; reflexivity).
  rewrite Ha in Hs. destruct Hs as [_ Hs]; [simpl; lia|vm_compute; reflexivity|].
  split; [exact Ha|]. apply Hs. lia.
Defined.
