(* ===== verification/NetIP.v ===== *)
(** * IP addresses and prefixes (Go's [net/netip])

What the program uses of [netip]: parsing addresses and CIDRs, unmapping
IPv4-in-IPv6 addresses, masking a prefix and asking whether it contains an
address. An address is its value and, for IPv6, its zone. *)

From S2P Require Import Prelude GoStrings.
From stdpp Require Import options.
From Stdlib Require Import Ascii.

Inductive Addr :=
| AddrZero
| V4 (a : N)
| V6 (a : N) (zone : string).
#[export] Instance Addr_eq_dec : EqDecision Addr.
Proof. solve_decision. Defined.
#[export] Instance Addr_countable : Countable Addr.
Proof.
  refine (inj_countable' (λ a, match a with AddrZero => None | V4 x => Some (inl x) | V6 x z => Some (inr (x, z)) end)
    (λ o, match o with None => AddrZero | Some (inl x) => V4 x | Some (inr (x, z)) => V6 x z end) _).
  by intros [].
Defined.

Record Prefix := mkPrefix { pAddr : Addr; pBits : N }.

Definition BitLen (a : Addr) : N := match a with AddrZero => 0 | V4 _ => 32 | V6 _ _ => 128 end.

(** [addr.Unmap()]: an IPv4-mapped IPv6 address becomes IPv4. *)
Definition Unmap (a : Addr) : Addr :=
  match a with
  | V6 x z => if (N.shiftr x 32 =? 65535)%N then V4 (x mod 2 ^ 32) else a
  | _ => a
  end.

(** [p.Masked()]: the host bits are cleared. *)
Definition Masked (p : Prefix) : Prefix :=
  let mask x n := N.shiftl (N.shiftr x (n - pBits p)) (n - pBits p) in
  match pAddr p with
  | AddrZero => p
  | V4 x => mkPrefix (V4 (mask x 32%N)) (pBits p)
  | V6 x z => mkPrefix (V6 (mask x 128%N) "") (pBits p)
  end.

(** [p.Contains(ip)]: same family, no zone, and the same leading bits. *)
Definition Contains (p : Prefix) (a : Addr) : bool :=
  match pAddr p, a with
  | V4 x, V4 y => (N.shiftr x (32 - pBits p) =? N.shiftr y (32 - pBits p))%N
  | V6 x _, V6 y "" => (N.shiftr x (128 - pBits p) =? N.shiftr y (128 - pBits p))%N
  | _, _ => false
  end.

(** ** Parsing *)

(** One octet: digits, at most 255, no leading zero. *)
Definition parse_octet (s : string) : option N :=
  match s with
  | "" => None
  | String "0" (String _ _) => None
  | _ => match parse_digits 0 s with
         | Some v => if (v <=? 255)%Z then Some (Z.to_N v) else None
         | None => None
         end
  end.

Definition parseIPv4Fields (s : string) : option (N * N * N * N) :=
  match SplitByte "." s with
  | [a; b; c; d] =>
      a ← parse_octet a; b ← parse_octet b; c ← parse_octet c; d ← parse_octet d;
      Some (a, b, c, d)
  | _ => None
  end.

Definition parseIPv4 (s : string) : option Addr :=
  '(a, b, c, d) ← parseIPv4Fields s;
  Some (V4 (((a * 256 + b) * 256 + c) * 256 + d)).

Definition hex_digit (c : ascii) : option N :=
  if is_digit c then Some (code c - 48)%N
  else if ((97 <=? code c) && (code c <=? 102))%N then Some (code c - 87)%N
  else if ((65 <=? code c) && (code c <=? 70))%N then Some (code c - 55)%N
  else None.

(** The hex digits [s] starts with (their value, their number, the rest);
[None] when there are more than four. *)
Fixpoint take_hex (off : nat) (acc : N) (s : string) : option (N * nat * string) :=
  match s with
  | String c s' =>
      match hex_digit c with
      | Some d => if 3 <? off then None else take_hex (S off) (acc * 16 + d) s'
      | None => Some (acc, off, s)
      end
  | "" => Some (acc, off, "")
  end.

(** The 16-bit groups of an IPv6 address, and where the "::" is. *)
Fixpoint parse_groups (fuel : nat) (s : string) (groups : list N) (ellipsis : option nat)
    : option (list N * string * option nat) :=
  match fuel with
  | O => Some (groups, s, ellipsis)
  | S fuel =>
      '(acc, off, rest) ← take_hex 0 0 s;
      if off =? 0 then None else
      match rest with
      | String "." _ =>
          if (bool_decide (ellipsis = None) && negb (length groups =? 6)) || (6 <? length groups) then None
          else '(a, b, c, d) ← parseIPv4Fields s; Some (groups ++ [a * 256 + b; c * 256 + d]%N, "", ellipsis)
      | "" => Some (groups ++ [acc], "", ellipsis)
      | String ":" "" => None
      | String ":" (String ":" rest) =>
          if bool_decide (is_Some ellipsis) then None
          else if String.eqb rest "" then Some (groups ++ [acc], "", Some (S (length groups)))
          else parse_groups fuel rest (groups ++ [acc]) (Some (S (length groups)))
      | String ":" rest => parse_groups fuel rest (groups ++ [acc]) ellipsis
      | _ => None
      end
  end.

Definition addr_of_groups (groups : list N) (zone : string) : Addr :=
  V6 (foldl (λ acc g, acc * 65536 + g)%N 0%N groups) zone.

Definition parseIPv6 (s : string) : option Addr :=
  '(s, zone) ← match CutByte "%" s with
               | Some (_, "") => None
               | Some (s, zone) => Some (s, zone)
               | None => Some (s, "")
               end;
  let '(s, ellipsis) := match CutPrefix "::" s with Some s => (s, Some 0) | None => (s, None) end in
  if bool_decide (ellipsis = Some 0) && String.eqb s "" then Some (V6 0 zone) else
  '(groups, rest, ellipsis) ← parse_groups 8 s [] ellipsis;
  if negb (String.eqb rest "") then None
  else if length groups <? 8 then
    k ← ellipsis;
    Some (addr_of_groups (take k groups ++ replicate (8 - length groups) 0%N ++ drop k groups) zone)
  else if bool_decide (is_Some ellipsis) then None
  else Some (addr_of_groups groups zone).

(** [netip.ParseAddr]: the first '.', ':' or '%' decides the family. *)
Fixpoint family (s : string) : option ascii :=
  match s with
  | "" => None
  | String c s => if Ascii.eqb c "." || Ascii.eqb c ":" || Ascii.eqb c "%" then Some c else family s
  end.
Definition ParseAddr (s : string) : option Addr :=
  match family s with
  | Some "."%char => parseIPv4 s
  | Some ":"%char => parseIPv6 s
  | _ => None
  end.

(** [netip.ParsePrefix]: no zone, no sign or leading zero in the length. *)
Fixpoint CutLast (c : ascii) (s : string) : option (string * string) :=
  match s with
  | "" => None
  | String a s =>
      match CutLast c s with
      | Some (x, y) => Some (String a x, y)
      | None => if Ascii.eqb a c then Some ("", s) else None
      end
  end.
Definition netip_ParsePrefix (s : string) : option Prefix :=
  '(ip, bits) ← CutLast "/" s;
  a ← ParseAddr ip;
  if (if a is V6 _ z then negb (String.eqb z "") else false) then None
  else if (match bits with
           | String c (String _ _) => negb (is_digit c) || Ascii.eqb c "0"
           | _ => false
           end) then None
  else n ← Atoi bits;
       if (n <? 0)%Z || (Z.of_N (BitLen a) <? n)%Z then None else Some (mkPrefix a (Z.to_N n)).

(** [net.ParseIP(s) != nil] *)
Definition is_IP (s : string) : bool :=
  match ParseAddr s with
  | Some (V6 _ z) => String.eqb z ""
  | Some _ => true
  | None => false
  end.

Example parse_examples :
  ParseAddr "10.1.2.3" = Some (V4 167838211) ∧ ParseAddr "01.2.3.4" = None ∧
  ParseAddr "::1" = Some (V6 1 "") ∧ ParseAddr "::ffff:10.1.2.3" = Some (V6 281470849581571 "") ∧
  ParseAddr "1:2:3:4:5:6:7:8" = Some (V6 5192455318486707404433266433261576 "") ∧
  ParseAddr "fe80::1%eth0" = Some (V6 338288524927261089654018896841347694593 "eth0") ∧
  ParseAddr "1:2:3:4:5:6:7:8:9" = None ∧ ParseAddr "::" = Some (V6 0 "") ∧ ParseAddr "1::2::3" = None ∧
  netip_ParsePrefix "10.0.0.0/8" = Some (mkPrefix (V4 167772160) 8) ∧
  netip_ParsePrefix "10.0.0.0/08" = None ∧ netip_ParsePrefix "10.0.0.0/33" = None.
Proof. vm_compute. repeat split. Qed.
