(* ===== verification/Limiter.v ===== *)
(** * The per-address rate limiter (go/tunnel/auth/ratelimit.go)

A token bucket per client IP. Tokens, rate and burst are exact rationals
where the code has float64: rounding is not modelled. [now] is the clock
reading of a call. The clock does not run backwards (Go's monotonic clock). *)

From S2P Require Import Prelude NetIP.
From Stdlib Require Import QArith Qminmax Lqa.
From stdpp Require Import options.
#[local] Open Scope l8_scope.

Record bucket := mkBucket { tokens : Q; filled : Z (* [last] *) }.
#[export] Instance eta_bucket : Eta bucket := λ b, mkBucket (tokens b) (filled b).

Record IPLimiter := mkLimiter {
  rate : Q;
  burst : Q;
  buckets : gmap Addr bucket;
  lastSweep : Z;
}.
#[export] Instance eta_limiter : Eta IPLimiter := λ l,
  mkLimiter (rate l) (burst l) (buckets l) (lastSweep l).

Definition NewIPLimiter (perSecond : Q) (burst : Z) (now : Z) : IPLimiter :=
  mkLimiter perSecond (inject_Z burst) ∅ now.

(** [d.Seconds()] *)
Definition Seconds (d : Z) : Q := d # 1000000000.

Definition Qlt_bool (a b : Q) : bool := negb (Qle_bool b a).

Section limiter.
Context `{MapRange}.

Definition sweep (now : Z) (l : IPLimiter) : IPLimiter :=
  let kept := foldl (λ m '(ip, b), if Qle_bool (burst l) (tokens b + Seconds (now - filled b) * rate l)
                                   then delete ip m else m) (buckets l) (range (buckets l)) in
  l <| buckets := kept |> <| lastSweep := now |>.

Definition refill (ip : Addr) (now : Z) (l : IPLimiter) : IPLimiter * bucket :=
  let l := if (minute <? now - lastSweep l)%Z then sweep now l else l in
  let b := match buckets l !! ip with
           | None => mkBucket (burst l) now
           | Some b =>
               let t := (tokens b + Seconds (now - filled b) * rate l)%Q in
               mkBucket (if Qlt_bool (burst l) t then burst l else t) now
           end in
  (l <| buckets := <[ip := b]> (buckets l) |>, b).

Definition Allow (ip : Addr) (now : Z) (l : IPLimiter) : IPLimiter * bool :=
  let '(l, b) := refill (Unmap ip) now l in
  if Qlt_bool (tokens b) 1 then (l, false)
  else (l <| buckets := <[Unmap ip := b <| tokens := (tokens b - 1)%Q |>]> (buckets l) |>, true).

Definition Exhausted (ip : Addr) (now : Z) (l : IPLimiter) : IPLimiter * bool :=
  let '(l, b) := refill (Unmap ip) now l in (l, Qlt_bool (tokens b) 1).

(** ** The level of a bucket

What an address may still spend at time [t]: full if it has no bucket, else
what is left plus what came in since, at most the burst. *)
Definition level (l : IPLimiter) (ip : Addr) (t : Z) : Q :=
  match buckets l !! ip with
  | None => burst l
  | Some b => Qmin (burst l) (tokens b + Seconds (t - filled b) * rate l)
  end.

(** A limiter as calls leave it by time [now]. *)
Record well_formed (l : IPLimiter) (now : Z) : Prop := {
  wf_rate : (0 <= rate l)%Q;
  wf_burst : (0 <= burst l)%Q;
  wf_filled ip b : buckets l !! ip = Some b → (filled b ≤ now)%Z ∧ (0 <= tokens b)%Q;
}.

Lemma Qlt_bool_iff a b : Qlt_bool a b = true ↔ (a < b)%Q.
Proof. unfold Qlt_bool. rewrite negb_true_iff, <-not_true_iff_false, Qle_bool_iff. split; [apply Qnot_le_lt|apply Qlt_not_le]. Qed.

Lemma Seconds_add a b : (Seconds (a + b) == Seconds a + Seconds b)%Q.
Proof. unfold Seconds, Qeq, Qplus. simpl. lia. Qed.

Lemma Seconds_nonneg a : (0 ≤ a)%Z → (0 <= Seconds a)%Q.
Proof. unfold Seconds, Qle. simpl. lia. Qed.

Lemma gain_split l a b : (Seconds (a + b) * rate l == Seconds a * rate l + Seconds b * rate l)%Q.
Proof. rewrite Seconds_add. lra. Qed.

Lemma gain_nonneg l a : (0 <= rate l)%Q → (0 ≤ a)%Z → (0 <= Seconds a * rate l)%Q.
Proof. intros. apply Qmult_le_0_compat; [by apply Seconds_nonneg|done]. Qed.

Lemma buckets_sweep now l ip :
  buckets (sweep now l) !! ip =
  match buckets l !! ip with
  | Some b => if Qle_bool (burst l) (tokens b + Seconds (now - filled b) * rate l) then None else Some b
  | None => None
  end.
Proof.
  unfold sweep. cbn.
  destruct (foldl_pointwise (λ (m : gmap Addr bucket) ip, m !! ip)
    (λ m '(ip, b), if Qle_bool (burst l) (tokens b + Seconds (now - filled b) * rate l) then delete ip m else m)
    (λ _ b o, if Qle_bool (burst l) (tokens b + Seconds (now - filled b) * rate l) then None else o)
    (range (buckets l)) (buckets l)) as [Hin Hout].
  - intros m k v. destruct (Qle_bool _ _); [apply lookup_delete_eq|done].
  - intros m k v k' Hne. destruct (Qle_bool _ _); [by apply lookup_delete_ne|done].
  - apply NoDup_range.
  - destruct (buckets l !! ip) as [b|] eqn:Hb.
    + specialize (Hin ip b). cbn in Hin. rewrite Hin by (by apply elem_of_range). rewrite Hb. done.
    + specialize (Hout ip). cbn in Hout. rewrite Hout, Hb; [done|].
      rewrite elem_of_range_keys, Hb. by intros [? ?].
Qed.

Lemma wf_sweep l t now : well_formed l t → well_formed (sweep now l) t.
Proof.
  intros Hw. split; [apply Hw..|]. intros ip b. rewrite buckets_sweep.
  destruct (buckets l !! ip) eqn:Hb; [|done]. case_match; [done|]. intros [= <-]. by eapply wf_filled.
Qed.

(** Sweeping is invisible: a bucket that is dropped is full. *)
Lemma level_sweep l now ip t :
  (0 <= rate l)%Q → (now ≤ t)%Z → (level (sweep now l) ip t == level l ip t)%Q.
Proof.
  intros Hr Ht. unfold level. rewrite buckets_sweep. change (burst (sweep now l)) with (burst l).
  change (rate (sweep now l)) with (rate l).
  destruct (buckets l !! ip) as [b|]; [|done]. destruct (Qle_bool _ _) eqn:Hb; [|done].
  apply Qle_bool_iff in Hb. symmetry. apply Q.min_l.
  pose proof (gain_split l (now - filled b) (t - now)) as Hg.
  replace (now - filled b + (t - now))%Z with (t - filled b)%Z in Hg by lia.
  pose proof (gain_nonneg l (t - now) Hr ltac:(lia)). lra.
Qed.

Lemma level_mono l ip t t' :
  (0 <= rate l)%Q → (t ≤ t')%Z → (level l ip t' <= level l ip t + Seconds (t' - t) * rate l)%Q.
Proof.
  intros Hr Ht. pose proof (gain_nonneg l (t' - t) Hr ltac:(lia)). unfold level.
  destruct (buckets l !! ip) as [b|]; [|lra].
  pose proof (gain_split l (t - filled b) (t' - t)) as Hg.
  replace (t - filled b + (t' - t))%Z with (t' - filled b)%Z in Hg by lia.
  destruct (Q.min_spec (burst l) (tokens b + Seconds (t' - filled b) * rate l)) as [[? ->]|[? ->]],
    (Q.min_spec (burst l) (tokens b + Seconds (t - filled b) * rate l)) as [[? ->]|[? ->]]; lra.
Qed.

Lemma level_burst l ip t : (level l ip t <= burst l)%Q.
Proof. unfold level. destruct (buckets l !! ip); [apply Q.le_min_l|apply Qle_refl]. Qed.

Lemma level_nonneg l now ip : well_formed l now → (0 <= level l ip now)%Q.
Proof.
  intros Hw. unfold level. destruct (buckets l !! ip) as [b|] eqn:Hb; [|apply Hw].
  destruct (wf_filled _ _ Hw _ _ Hb). pose proof (wf_burst _ _ Hw).
  pose proof (gain_nonneg l (now - filled b) (wf_rate _ _ Hw) ltac:(lia)).
  apply Q.min_glb; lra.
Qed.

Record refilled (ip : Addr) (now : Z) (l l' : IPLimiter) (b : bucket) : Prop := {
  rf_rate : rate l' = rate l;
  rf_burst : burst l' = burst l;
  rf_bucket : buckets l' !! ip = Some b;
  rf_tokens : (tokens b == level l ip now)%Q;
  rf_now : filled b = now;
  rf_wf : well_formed l' now;
  rf_others ip' t : ip' ≠ ip → (now ≤ t)%Z → (level l' ip' t == level l ip' t)%Q;
}.

Lemma refill_spec ip now l t0 :
  well_formed l t0 → (t0 ≤ now)%Z → refilled ip now l (refill ip now l).1 (refill ip now l).2.
Proof.
  intros Hw Ht. set (l1 := if (minute <? now - lastSweep l)%Z then sweep now l else l).
  assert (well_formed l1 t0 ∧ rate l1 = rate l ∧ burst l1 = burst l ∧
          ∀ ip' t, (now ≤ t)%Z → (level l1 ip' t == level l ip' t)%Q) as (Hw1 & Hr1 & Hb1 & Hl1).
  { subst l1. destruct (_ <? _)%Z; [|by split_and!]. split_and!; [by apply wf_sweep|done|done|].
    intros. apply level_sweep; [apply Hw|done]. }
  unfold refill. fold l1. set (b := match buckets l1 !! ip with Some _ => _ | None => _ end). cbn [fst snd].
  assert (tokens b == level l1 ip now ∧ filled b = now)%Q as [Htok Hnow].
  { subst b. unfold level. destruct (buckets l1 !! ip) as [b1|]; [|done]. cbn. split; [|done].
    destruct (Qlt_bool _ _) eqn:Hlt.
    - apply Qlt_bool_iff in Hlt. symmetry. apply Q.min_l. lra.
    - symmetry. apply Q.min_r. apply Qnot_lt_le. rewrite <-Qlt_bool_iff, Hlt. done. }
  assert (0 <= tokens b)%Q as Hpos.
  { rewrite Htok. apply level_nonneg. split; [apply Hw1..|]. intros ip' b' Hb'.
    destruct (wf_filled _ _ Hw1 _ _ Hb'). split; [lia|done]. }
  split; cbn; [done|done|apply lookup_insert_eq|by rewrite Htok, Hl1|done| |].
  - split; [apply Hw1..|]. intros ip' b'. cbn. rewrite lookup_insert_Some.
    intros [[<- <-]|[_ Hb']]; [split; [lia|done]|].
    destruct (wf_filled _ _ Hw1 _ _ Hb'). split; [lia|done].
  - intros ip' t Hne Hnt. rewrite <-(Hl1 ip' t Hnt). unfold level. cbn. by rewrite lookup_insert_ne.
Qed.

(** What [Allow] does to every address: it spends one token of [ip] if there
is one, and nothing else. *)
Lemma Allow_level ip now l t0 l' ok :
  well_formed l t0 → (t0 ≤ now)%Z → Allow ip now l = (l', ok) →
  let spent := if ok then 1%Q else 0%Q in
  (ok = true ↔ (1 <= level l (Unmap ip) now)%Q) ∧
  well_formed l' now ∧ rate l' = rate l ∧ burst l' = burst l ∧
  (∀ ip' t, ip' ≠ Unmap ip → (now ≤ t)%Z → (level l' ip' t == level l ip' t)%Q) ∧
  (∀ t, (level l' (Unmap ip) t ==
         Qmin (burst l) (level l (Unmap ip) now - spent + Seconds (t - now) * rate l))%Q).
Proof.
  intros Hw Ht Ha. pose proof (refill_spec (Unmap ip) now l t0 Hw Ht) as Hf. unfold Allow in Ha.
  destruct (refill (Unmap ip) now l) as [l1 b]. cbn in Hf. destruct Hf as [Hr Hb Hlk Htok Hn Hwf Ho].
  destruct (Qlt_bool (tokens b) 1) eqn:Hlt; simplify_eq.
  - apply Qlt_bool_iff in Hlt. split_and!; [|done..|].
    + split; [done|]. intros. lra.
    + intros t. unfold level at 1. rewrite Hlk, Hr, Hb, Htok. f_equiv. lra.
  - assert (1 <= tokens b)%Q as Hge by (apply Qnot_lt_le; by rewrite <-Qlt_bool_iff, Hlt).
    split_and!; [|split; cbn; [apply Hwf..|]|done..| |].
    + split; [|done]. intros _. by rewrite <-Htok.
    + intros ip' b'. rewrite lookup_insert_Some. intros [[<- <-]|[_ Hb']]; [cbn; split; [lia|lra]|by eapply wf_filled].
    + intros ip' t Hne Hnt. rewrite <-(Ho ip' t Hne Hnt). unfold level. cbn. by rewrite lookup_insert_ne.
    + intros t. unfold level at 1. cbn. rewrite lookup_insert_eq. cbn. rewrite Hr, Hb, Htok. done.
Qed.

(** [Exhausted] says whether there is less than a token, and spends nothing. *)
Lemma Exhausted_level ip now l t0 l' ex :
  well_formed l t0 → (t0 ≤ now)%Z → Exhausted ip now l = (l', ex) →
  (ex = false ↔ (1 <= level l (Unmap ip) now)%Q) ∧
  well_formed l' now ∧ rate l' = rate l ∧ burst l' = burst l ∧
  (∀ ip' t, (now ≤ t)%Z → (level l' ip' t <= level l ip' now + Seconds (t - now) * rate l)%Q) ∧
  (level l' (Unmap ip) now == level l (Unmap ip) now)%Q.
Proof.
  intros Hw Ht He. pose proof (refill_spec (Unmap ip) now l t0 Hw Ht) as Hf. unfold Exhausted in He.
  destruct (refill (Unmap ip) now l) as [l1 b]. cbn in Hf. destruct Hf as [Hr Hb Hlk Htok Hn Hwf Ho]. simplify_eq.
  assert (level l' (Unmap ip) (filled b) == level l (Unmap ip) (filled b))%Q as Hsame.
  { rewrite <-Htok. unfold level. rewrite Hlk, Z.sub_diag, Hr, Hb. change (Seconds 0) with (0 # 1000000000).
    assert (tokens b <= burst l)%Q by (rewrite Htok; apply level_burst).
    rewrite Q.min_r; lra. }
  split_and!; [|done..| |done].
  - rewrite <-not_true_iff_false, Qlt_bool_iff, Htok. split; [apply Qnot_lt_le|apply Qle_not_lt].
  - intros ip' t Hnt. pose proof (level_mono l' ip' (filled b) t (wf_rate _ _ Hwf) Hnt) as Hm.
    rewrite Hr in Hm. destruct (decide (ip' = Unmap ip)) as [->|Hne]; [lra|].
    specialize (Ho ip' (filled b) Hne ltac:(lia)). lra.
Qed.

(** Nor does it change what any address has. *)
Lemma Exhausted_same ip now l t0 ip' :
  well_formed l t0 → (t0 ≤ now)%Z → (level (Exhausted ip now l).1 ip' now == level l ip' now)%Q.
Proof.
  intros Hw Ht. destruct (decide (ip' = Unmap ip)) as [->|Hne].
  - destruct (Exhausted ip now l) as [l' ex] eqn:He. by apply (Exhausted_level _ _ _ _ _ _ Hw Ht He).
  - pose proof (refill_spec (Unmap ip) now l t0 Hw Ht) as Hf. unfold Exhausted.
    destruct (refill (Unmap ip) now l) as [l1 b]. cbn in *. apply (rf_others _ _ _ _ _ Hf); [done|lia].
Qed.

(** Without spending, a level only rises. *)
Lemma level_rises l ip t t' : (0 <= rate l)%Q → (t ≤ t')%Z → (level l ip t <= level l ip t')%Q.
Proof.
  intros Hr Ht. unfold level. destruct (buckets l !! ip) as [b|]; [|lra]. apply Q.min_le_compat_l.
  pose proof (gain_split l (t - filled b) (t' - t)) as Hg.
  replace (t - filled b + (t' - t))%Z with (t' - filled b)%Z in Hg by lia.
  pose proof (gain_nonneg l (t' - t) Hr ltac:(lia)). lra.
Qed.

(** ** Theorems *)

(** Calls of [Allow], oldest first, with the answers. *)
Fixpoint run (evs : list (Addr * Z)) (l : IPLimiter) : IPLimiter * list (Addr * bool) :=
  match evs with
  | [] => (l, [])
  | (ip, now) :: evs =>
      let '(l, ok) := Allow ip now l in
      let '(l, out) := run evs l in (l, (Unmap ip, ok) :: out)
  end.

Definition allowed (ip : Addr) (out : list (Addr * bool)) : Z :=
  Z.of_nat (length (filter (λ p, p = (ip, true)) out)).

(** The calls are in the order of the clock, between [t0] and [t1]. *)
Fixpoint in_order (t0 t1 : Z) (evs : list (Addr * Z)) : Prop :=
  match evs with
  | [] => (t0 ≤ t1)%Z
  | (_, t) :: evs => (t0 ≤ t)%Z ∧ in_order t t1 evs
  end.

Lemma in_order_le t0 t1 evs : in_order t0 t1 evs → (t0 ≤ t1)%Z.
Proof. revert t0. induction evs as [|[ip t] evs IH]; intros t0; cbn; [done|]. intros [? ?%IH]. lia. Qed.

Lemma run_bound ip t0 t1 evs l :
  well_formed l t0 → in_order t0 t1 evs →
  (inject_Z (allowed ip (run evs l).2) <= level l ip t0 + Seconds (t1 - t0) * rate l)%Q.
Proof.
  revert t0 l. induction evs as [|[ip0 t] evs IH]; intros t0 l Hw Hord; cbn [in_order] in Hord; cbn [run snd].
  { pose proof (level_nonneg _ _ ip Hw). pose proof (gain_nonneg l (t1 - t0) (wf_rate _ _ Hw) ltac:(lia)).
    change (inject_Z (allowed ip [])) with 0%Q. lra. }
  destruct Hord as [Ht Hord]. destruct (Allow ip0 t l) as [l1 ok] eqn:Ha.
  destruct (Allow_level ip0 t l t0 l1 ok Hw Ht Ha) as (Hok & Hw1 & Hr & Hb & Ho & Hself).
  specialize (IH t l1 Hw1 Hord). destruct (run evs l1) as [l2 out]. cbn [snd] in *.
  pose proof (level_mono l ip t0 t (wf_rate _ _ Hw) Ht) as Hmono.
  pose proof (gain_split l (t - t0) (t1 - t)) as Hg.
  replace (t - t0 + (t1 - t))%Z with (t1 - t0)%Z in Hg by lia. rewrite Hr in IH.
  assert (inject_Z (allowed ip ((Unmap ip0, ok) :: out)) ==
          inject_Z (allowed ip out) + (if decide (Unmap ip0 = ip ∧ ok = true) then 1 else 0))%Q as Hcount.
  { unfold allowed. rewrite filter_cons. destruct (decide (Unmap ip0 = ip ∧ ok = true)) as [[-> ->]|Hne].
    - rewrite decide_True by done. cbn [length]. rewrite Nat2Z.inj_succ. unfold Z.succ. rewrite inject_Z_plus. reflexivity.
    - rewrite decide_False by naive_solver. lra. }
  destruct (decide (ip = Unmap ip0)) as [->|Hne].
  - specialize (Hself t). rewrite Z.sub_diag in Hself. change (Seconds 0) with (0 # 1000000000) in Hself.
    pose proof (Q.le_min_r (burst l) (level l (Unmap ip0) t - (if ok then 1 else 0) + (0 # 1000000000) * rate l)) as Hmin.
    destruct (decide (Unmap ip0 = Unmap ip0 ∧ ok = true)) as [[_ ->]|Hno]; [lra|]. destruct ok; [naive_solver|lra].
  - destruct (decide (Unmap ip0 = ip ∧ ok = true)) as [[? _]|_]; [done|].
    specialize (Ho ip t ltac:(done) ltac:(lia)). lra.
Qed.

Lemma wf_later l t t' : well_formed l t → (t ≤ t')%Z → well_formed l t'.
Proof. intros Hw Ht. split; [apply Hw..|]. intros ip b Hb. destruct (wf_filled _ _ Hw _ _ Hb). split; [lia|done]. Qed.

Lemma run_wf t t' evs l :
  well_formed l t → in_order t t' evs →
  well_formed (run evs l).1 t' ∧ rate (run evs l).1 = rate l ∧ burst (run evs l).1 = burst l.
Proof.
  revert t l. induction evs as [|[ip0 t0] evs IH]; intros t l Hw Hord; cbn [in_order] in Hord; cbn [run fst].
  { split; [by eapply wf_later|done]. }
  destruct Hord as [Ht Hord]. destruct (Allow ip0 t0 l) as [l1 ok] eqn:Ha.
  destruct (Allow_level ip0 t0 l t l1 ok Hw Ht Ha) as (_ & Hw1 & Hr & Hb & _).
  destruct (IH t0 l1 Hw1 Hord) as (? & ? & ?). destruct (run evs l1). cbn [fst] in *. split_and!; [done|congruence..].
Qed.

Lemma run_others ip t t' evs l t3 :
  well_formed l t → in_order t t' evs → Forall (λ e, Unmap e.1 ≠ ip) evs → (t' ≤ t3)%Z →
  (level (run evs l).1 ip t3 == level l ip t3)%Q.
Proof.
  revert t l. induction evs as [|[ip0 t0] evs IH]; intros t l Hw Hord Hall Ht3; cbn [in_order] in Hord; cbn [run fst]; [done|].
  destruct Hord as [Ht Hord]. apply Forall_cons in Hall as [Hne Hall]. cbn in Hne.
  destruct (Allow ip0 t0 l) as [l1 ok] eqn:Ha.
  destruct (Allow_level ip0 t0 l t l1 ok Hw Ht Ha) as (_ & Hw1 & _ & _ & Ho & _).
  specialize (IH t0 l1 Hw1 Hord Hall Ht3). pose proof (in_order_le _ _ _ Hord).
  destruct (run evs l1) as [l2 out]. cbn [fst] in *. rewrite IH. apply Ho; [done|lia].
Qed.

Lemma level_gain l t ip t' :
  well_formed l t → (t ≤ t')%Z → (Qmin (burst l) (Seconds (t' - t) * rate l) <= level l ip t')%Q.
Proof.
  intros Hw Ht. unfold level. destruct (buckets l !! ip) as [b|] eqn:Hb; [|apply Q.le_min_l].
  destruct (wf_filled _ _ Hw _ _ Hb). apply Q.min_le_compat_l.
  pose proof (gain_split l (t - filled b) (t' - t)) as Hg.
  replace (t - filled b + (t' - t))%Z with (t' - filled b)%Z in Hg by lia.
  pose proof (gain_nonneg l (t - filled b) (wf_rate _ _ Hw) ltac:(lia)). lra.
Qed.

(** the limiter keeps its promise for every address. Between two
instants, over any sequence of calls for any addresses (with the sweeps that
happen on the way), an address is let through at most burst + rate * seconds
times; and an address that waits until a whole token came in is let through,
whatever the other addresses do meanwhile. *)
Theorem Allow_promise ip t0 t1 evs perSecond n :
  (0 <= perSecond)%Q → (1 ≤ n)%Z → in_order t0 t1 evs →
  let l := NewIPLimiter perSecond n t0 in
  (inject_Z (allowed (Unmap ip) (run evs l).2) <= inject_Z n + Seconds (t1 - t0) * perSecond)%Q ∧
  ∀ t2 t3 others, in_order t1 t2 others → Forall (λ e, Unmap e.1 ≠ Unmap ip) others → (t2 ≤ t3)%Z →
    (1 <= Seconds (t3 - t1) * perSecond)%Q →
    (Allow ip t3 (run others (run evs l).1).1).2 = true.
Proof.
  intros Hr Hn Hord l. assert (well_formed l t0) as Hw.
  { split; [done| |intros ? ?; cbn; by rewrite lookup_empty].
    change (inject_Z 0 <= inject_Z n)%Q. rewrite <-Zle_Qle. lia. }
  split; [exact (run_bound (Unmap ip) t0 t1 evs l Hw Hord)|].
  intros t2 t3 others Hord2 Hall Ht3 Hgain. pose proof (in_order_le _ _ _ Hord2).
  destruct (run_wf _ _ _ _ Hw Hord) as (Hw1 & Hr1 & Hb1).
  destruct (run_wf _ _ _ _ Hw1 Hord2) as (Hw2 & _).
  pose proof (run_others (Unmap ip) _ _ _ _ t3 Hw1 Hord2 Hall Ht3) as Hl.
  pose proof (level_gain _ _ (Unmap ip) t3 Hw1 ltac:(lia)) as Hg. rewrite Hr1, Hb1 in Hg.
  change (burst l) with (inject_Z n) in Hg. change (rate l) with perSecond in Hg.
  assert (1 <= Qmin (inject_Z n) (Seconds (t3 - t1) * perSecond))%Q.
  { apply Q.min_glb; [|done]. change (inject_Z 1 <= inject_Z n)%Q. by rewrite <-Zle_Qle. }
  destruct (Allow ip t3 _) as [l' ok] eqn:Ha. cbn. apply (Allow_level ip t3 _ t2 l' ok Hw2 Ht3 Ha). lra.
Qed.
End limiter.

Lemma Allow_promise_witness :
  allowed (V4 1) (run [(V4 1, 0); (V4 2, 1); (V4 1, 2); (V4 1, 3)]%Z (NewIPLimiter 1 2 0)).2 = 2%Z ∧
  (inject_Z (allowed (V4 1) (run [(V4 1, 0); (V4 2, 1); (V4 1, 2); (V4 1, 3)]%Z (NewIPLimiter 1 2 0)).2)
   <= inject_Z 2 + Seconds 5 * 1)%Q.
Proof.
  split; [vm_compute; reflexivity|].
  refine (proj1 (Allow_promise (V4 1) 0 5 [(V4 1, 0); (V4 2, 1); (V4 1, 2); (V4 1, 3)]%Z 1 2 _ _ _)).
  - discriminate.
  - lia.
  - cbn. lia.
Defined.
