(* ===== verification/Transport.v ===== *)
(** * Signed PROXY headers (go/tunnel/transport/proxyproto.go)

The edge and the relays pass a client's stream on with a PROXY header. For a
named tunnel the header carries the tunnel's name and a signature: the time
and an HMAC-SHA256, keyed with the cluster secret, over the time, the name and
the client's address. Reading and writing headers is done by a library; a
header is its list of TLVs. *)

From S2P Require Import Prelude GoStrings NetIP.
From stdpp Require Import options.
From Stdlib Require Import Ascii.
#[local] Open Scope l8_scope.

(** [hmac.New(sha256.New, key)] on a message. *)
Class HMAC := {
  hmac_sha256 : string → string → string;
  hmac_length key m : String.length (hmac_sha256 key m) = 32;
}.

Record TLV := mkTLV { TLVType : N; TLVValue : string }.

Definition TLVTunnel : N := 224.   (* 0xE0 *)
Definition TLVAuth : N := 225.     (* 0xE1 *)
Definition streamAuthWindow : Z := minute.

Definition FindTLV (tlvs : list TLV) (t : N) : option string :=
  TLVValue <$> List.find (λ tlv, (TLVType tlv =? t)%N) tlvs.

(** [binary.BigEndian.PutUint64] and [Uint64]; int64 and uint64 convert by
wrapping. *)
Definition put_uint64 (ts : Z) : string := String.string_of_list_ascii (be_bytes 8 (Z.to_N (uint64 ts))).
Definition get_int64 (s : string) : Z := int64 (Z.of_N (be_value (String.list_ascii_of_string s))).

Section sign.
Context `{HMAC}.

(** What is signed. *)
Definition stream_message (subject client : string) (ts : Z) : string :=
  put_uint64 ts +:+ subject +:+ String "000" client.

Definition signStream (key subject client : string) (ts : Z) : string :=
  put_uint64 ts +:+ hmac_sha256 key (stream_message subject client ts).

Definition SignedTLVs (key subject client : string) (now : Z) : list TLV :=
  [mkTLV TLVTunnel subject; mkTLV TLVAuth (signStream key subject client (unix now))].

Inductive tlv_err := NoTunnelTLV | NoAuthTLV | OutsideWindow | BadSignature.

Definition VerifySignedTLVs (key : string) (tlvs : list TLV) (client : string) (now : Z) : result tlv_err string :=
  match FindTLV tlvs TLVTunnel with
  | None => Err NoTunnelTLV
  | Some subject =>
  match FindTLV tlvs TLVAuth with
  | None => Err NoAuthTLV
  | Some auth =>
  refuse! negb (String.length auth =? 8 + 32) with NoAuthTLV ;;
  let ts := get_int64 (String.substring 0 8 auth) in
  let d := int64 (unix now - ts) in
  refuse! (streamAuthWindow / second <? d)%Z || (d <? - (streamAuthWindow / second))%Z with OutsideWindow ;;
  refuse! negb (String.eqb auth (signStream key subject client ts)) with BadSignature ;;
  Ok subject
  end end.
End sign.

(** [ap] is what [netip.ParseAddrPort] reads in the address. *)
Definition IsTrusted (ap : option Addr) (trusted : list Prefix) : bool :=
  match ap with
  | None => false
  | Some a => existsb (λ p, Contains p (Unmap a)) trusted
  end.

(** ** Theorems *)

Lemma substring_app_length a b : String.substring 0 (String.length a) (a +:+ b) = a.
Proof.
  induction a as [|c a IH]; [by destruct b|]. rewrite str_app_cons. cbn [String.length String.substring]. by rewrite IH.
Qed.

Lemma length_put_uint64 ts : String.length (put_uint64 ts) = 8.
Proof. unfold put_uint64. by rewrite length_string_of, length_be_bytes. Qed.

Definition is_int64 (z : Z) : Prop := (- 2 ^ 63 ≤ z < 2 ^ 63)%Z.

Lemma get_put_int64 ts : is_int64 ts → get_int64 (put_uint64 ts) = ts.
Proof.
  intros Hts. unfold get_int64, put_uint64. rewrite String.list_ascii_of_string_of_list_ascii.
  pose proof (Z.mod_pos_bound ts (2 ^ 64) ltac:(lia)) as Hb.
  rewrite be_value_bytes by (unfold uint64; change (256 ^ N.of_nat 8)%N with (Z.to_N (2 ^ 64)); lia).
  unfold uint64, int64, is_int64 in *. rewrite Z2N.id by lia.
  destruct (decide (0 ≤ ts)%Z).
  - rewrite (Z.mod_small ts) by lia. rewrite Z.mod_small by lia. lia.
  - assert (ts mod 2 ^ 64 = ts + 2 ^ 64)%Z as -> by (symmetry; apply (Z.mod_unique _ _ (-1)); [left|]; lia).
    replace (ts + 2 ^ 64 + 2 ^ 63)%Z with ((ts + 2 ^ 63) + 1 * 2 ^ 64)%Z by lia.
    rewrite Z.mod_add by lia. rewrite Z.mod_small; lia.
Qed.

Lemma length_signStream `{HMAC} key s c ts : String.length (signStream key s c ts) = 40.
Proof. unfold signStream. by rewrite str_length_app, length_put_uint64, hmac_length. Qed.

Lemma signStream_ts `{HMAC} key s c ts : is_int64 ts → get_int64 (String.substring 0 8 (signStream key s c ts)) = ts.
Proof.
  intros Hts. unfold signStream. rewrite <-(length_put_uint64 ts), substring_app_length. by apply get_put_int64.
Qed.

(** The name and the address can be read back from what is signed, as the
address has no zero byte. *)
Lemma stream_message_inj s s' c c' ts ts' :
  str_mem "000" c = false → str_mem "000" c' = false → is_int64 ts → is_int64 ts' →
  stream_message s c ts = stream_message s' c' ts' → s = s' ∧ c = c' ∧ ts = ts'.
Proof.
  intros Hc Hc' Ht Ht' Heq. unfold stream_message in Heq.
  apply str_app_inj_len in Heq as [Hts Heq]; [|by rewrite !length_put_uint64].
  apply (f_equal get_int64) in Hts. rewrite !get_put_int64 in Hts by done.
  assert (∀ s s' c c', str_mem "000" c = false → str_mem "000" c' = false →
    s +:+ String "000" c = s' +:+ String "000" c' → s = s' ∧ c = c') as Hlast.
  { clear. assert (∀ s c, str_mem "000" (s +:+ String "000" c) = true) as Hmem.
    { intros s c. induction s as [|x s IH]; [done|]. rewrite str_app_cons. unfold str_mem in *. cbn in *.
      destruct (Ascii.eqb x "000"); [done|exact IH]. }
    induction s as [|x s IH]; intros [|x' s'] c c' Hc Hc'; rewrite ?str_app_cons, ?str_app_nil_l; intros Heq.
    - by simplify_eq.
    - injection Heq as _ ->. by rewrite Hmem in Hc.
    - injection Heq as _ <-. by rewrite Hmem in Hc'.
    - injection Heq as -> Heq. destruct (IH s' c c') as [-> ->]; done. }
  destruct (Hlast s s' c c') as [-> ->]; done.
Qed.

(** A header signed for a client is accepted from that client for the length
of the window, and names the tunnel it was signed for. *)
Lemma signed_roundtrip `{HMAC} key subject client now now' :
  is_int64 (unix now) → is_int64 (unix now') → (- 60 ≤ unix now' - unix now ≤ 60)%Z →
  VerifySignedTLVs key (SignedTLVs key subject client now) client now' = Ok subject.
Proof.
  intros Hn Hn' Hw. unfold VerifySignedTLVs, SignedTLVs, FindTLV. cbn -[signStream String.substring int64].
  rewrite length_signStream, signStream_ts by done. cbn [Nat.eqb negb Nat.add].
  assert (int64 (unix now' - unix now) = unix now' - unix now)%Z as -> by (unfold int64; rewrite Z.mod_small; lia).
  change (streamAuthWindow / second)%Z with 60%Z.
  rewrite (proj2 (Z.ltb_ge 60 _)), (proj2 (Z.ltb_ge _ (-60))) by lia.
  cbn [orb]. by rewrite String.eqb_refl.
Qed.

(** At any other time it is not. *)
Lemma signed_outside `{HMAC} key subject client now client' now' :
  (0 ≤ unix now < 2 ^ 62)%Z → (0 ≤ unix now' < 2 ^ 62)%Z → ¬ (- 60 ≤ unix now' - unix now ≤ 60)%Z →
  VerifySignedTLVs key (SignedTLVs key subject client now) client' now' = Err OutsideWindow.
Proof.
  intros Hn Hn' Hw. unfold VerifySignedTLVs, SignedTLVs, FindTLV. cbn -[signStream String.substring int64].
  rewrite length_signStream, signStream_ts by (unfold is_int64; lia). cbn [Nat.eqb negb Nat.add].
  assert (int64 (unix now' - unix now) = unix now' - unix now)%Z as -> by (unfold int64; rewrite Z.mod_small; lia).
  change (streamAuthWindow / second)%Z with 60%Z.
  destruct (Z.ltb_spec 60 (unix now' - unix now)); cbn [orb]; [done|]. destruct (Z.ltb_spec (unix now' - unix now) (- (60))); [done|lia].
Qed.

Lemma get_int64_range s : is_int64 (get_int64 s).
Proof.
  unfold get_int64, int64, is_int64.
  pose proof (Z.mod_pos_bound (Z.of_N (be_value (String.list_ascii_of_string s)) + 2 ^ 63) (2 ^ 64) ltac:(lia)). lia.
Qed.

(** A difference of times, taken in 64 bits, is a real difference when one of
the two is a time of this age. *)
Lemma window_exact now ts :
  (0 ≤ now < 2 ^ 62)%Z → is_int64 ts → (- 60 ≤ int64 (now - ts) ≤ 60)%Z → (- 60 ≤ now - ts ≤ 60)%Z.
Proof.
  unfold int64, is_int64. intros Hn Ht Hw.
  destruct (decide (now - ts < 2 ^ 63)%Z); [rewrite Z.mod_small in Hw by lia; lia|].
  replace (now - ts + 2 ^ 63)%Z with ((now - ts - 2 ^ 63) + 1 * 2 ^ 64)%Z in Hw by lia.
  rewrite Z.mod_add, Z.mod_small in Hw by lia. lia.
Qed.

(** What an accepted header holds. *)
Lemma VerifySignedTLVs_inv `{HMAC} key tlvs client now subject :
  VerifySignedTLVs key tlvs client now = Ok subject →
  ∃ stamp tag, String.length stamp = 8 ∧ FindTLV tlvs TLVAuth = Some (stamp +:+ tag) ∧
    (- 60 ≤ int64 (unix now - get_int64 stamp) ≤ 60)%Z ∧ tag = hmac_sha256 key (stream_message subject client (get_int64 stamp)).
Proof.
  unfold VerifySignedTLVs. destruct (FindTLV tlvs TLVTunnel) as [s|]; [|done].
  destruct (FindTLV tlvs TLVAuth) as [auth|]; [|done]. intros Hv.
  destruct (String.length auth =? 8 + 32); [|done]. cbn [negb] in Hv.
  change (streamAuthWindow / second)%Z with 60%Z in Hv. destruct (_ || _) eqn:Hw in Hv; [done|].
  destruct (String.eqb_spec auth (signStream key s client (get_int64 (String.substring 0 8 auth)))) as [Ha|]; [|done].
  cbn [negb] in Hv. injection Hv as ->. set (ts := get_int64 (String.substring 0 8 auth)) in *.
  exists (put_uint64 ts), (hmac_sha256 key (stream_message subject client ts)).
  assert (ts = get_int64 (put_uint64 ts)) as Hts by (symmetry; apply get_put_int64, get_int64_range).
  rewrite <-Hts, Ha. bool_facts. split_and!; [apply length_put_uint64|done|lia|lia|done].
Qed.

(** Two messages that the MAC does not tell apart. *)
Definition collide `{HMAC} (key m m' : string) : Prop := m ≠ m' ∧ hmac_sha256 key m = hmac_sha256 key m'.

(** C25: a signature cannot be used for anything else. Take the MAC an edge or
a relay made for a tunnel, a client's address and a time, and a header that
carries it, behind any time stamp, with any tunnel's name and from any
address. When that header is accepted, it names that tunnel, comes from that
address, carries that time, and the time is at most a minute from now; short
of a collision of the two messages at hand, the one that was signed and the
one that is checked. *)
Theorem signed_header_binds `{HMAC} key subject client made tlvs stamp subject' client' now :
  is_int64 made → (0 ≤ unix now < 2 ^ 62)%Z → str_mem "000" client = false → str_mem "000" client' = false →
  String.length stamp = 8 →
  FindTLV tlvs TLVAuth = Some (stamp +:+ hmac_sha256 key (stream_message subject client made)) →
  ¬ collide key (stream_message subject' client' (get_int64 stamp)) (stream_message subject client made) →
  VerifySignedTLVs key tlvs client' now = Ok subject' →
  subject' = subject ∧ client' = client ∧ get_int64 stamp = made ∧ (- 60 ≤ unix now - made ≤ 60)%Z.
Proof.
  intros Hm Hn Hc Hc' Hl Hauth Hcol Hv. apply VerifySignedTLVs_inv in Hv as (stamp' & tag & Hl' & Ha & Hw & Ht).
  rewrite Hauth in Ha. injection Ha as Ha. apply str_app_inj_len in Ha as [<- Ha]; [|congruence].
  rewrite <-Ha in Ht. pose proof (get_int64_range stamp) as Hr.
  destruct (decide (stream_message subject' client' (get_int64 stamp) = stream_message subject client made)) as [Heq|Hne].
  - apply stream_message_inj in Heq as (-> & -> & <-); [|done..]. do 3 (split; [done|]). by apply window_exact.
  - by destruct Hcol.
Qed.

Module SignSample.
(** A stand-in for the MAC: 32 bytes that depend on the message. *)
Fixpoint pad (n : nat) (s : string) : string :=
  match n with O => "" | S n => match s with "" => String "000" (pad n "") | String c s => String c (pad n s) end end.
Lemma length_pad n s : String.length (pad n s) = n.
Proof. revert s. induction n as [|n IH]; intros s; [done|]. destruct s; cbn; by rewrite IH. Qed.
#[export] Instance toy : HMAC := {| hmac_sha256 key m := pad 32 (key +:+ m); hmac_length key m := length_pad 32 (key +:+ m) |}.
Definition t0 : Z := 1700000000 * second.
Definition hdr : list TLV := SignedTLVs "k" "ssh" "1.2.3.4:9" t0.
End SignSample.
Import SignSample.

(** Half a minute after it was signed the header is accepted from its client,
and from nobody else. *)
Lemma signed_header_binds_witness :
  let '(k, c, now) := ("k", "1.2.3.4:9", (SignSample.t0 + 30 * second)%Z) in
  VerifySignedTLVs k SignSample.hdr c now = Ok "ssh" ∧ VerifySignedTLVs k SignSample.hdr "5.6.7.8:9" now = Err BadSignature ∧
  VerifySignedTLVs k SignSample.hdr c (now + minute) = Err OutsideWindow ∧
  "ssh" = "ssh" ∧ c = c ∧ get_int64 (put_uint64 (unix SignSample.t0)) = unix SignSample.t0 ∧ (-60 ≤ unix now - unix SignSample.t0 ≤ 60)%Z.
Proof.
  split; [vm_compute; reflexivity|]. split; [vm_compute; reflexivity|]. split; [vm_compute; reflexivity|].
  apply (signed_header_binds "k" "ssh" "1.2.3.4:9" (unix SignSample.t0) SignSample.hdr (put_uint64 (unix SignSample.t0)) "ssh" "1.2.3.4:9");
    [split; vm_compute; congruence|split; vm_compute; congruence|reflexivity|reflexivity|reflexivity|reflexivity| |vm_compute; reflexivity].
  intros [Hne _]. apply Hne. vm_compute. reflexivity.
Defined.
