(* ===== verification/Access.v ===== *)
(** * Tunnel access rules (go/tunnel/auth/access.go, token.go, gatewaykey.go)

Who may use a tunnel: address lists, basic auth, access tokens and OIDC
rules; the form of agent tokens; the grants of gateway keys. Hash functions
are parameters: bcrypt's comparison and the digests are given by [Crypto]. *)

From S2P Require Import Prelude GoStrings Regex Protocol PathMatch Policy NetIP.
From stdpp Require Import options.
From Stdlib Require Import Ascii.
#[local] Open Scope l8_scope.

Class Crypto := {
  bcrypt_is_hash : string → bool;             (* bcrypt.Cost(hash) succeeds *)
  bcrypt_matches : string → string → bool;    (* CompareHashAndPassword(hash, password) == nil *)
  sha256 : string → string;
}.

(** ** Policies and rules *)

Record BasicUser := mkUser { Username : string; BcryptHash : string }.
Record OIDCPolicy := mkOIDC { oProvider : string; AllowEmails : list string; AllowDomains : list string }.
Record AccessPolicy := mkAccess {
  AllowIps : list string;
  DenyIps : list string;
  BasicUsers : list BasicUser;
  AccessTokenSha256 : string;
  Oidc : option OIDCPolicy;
}.
Definition noPolicy : AccessPolicy := mkAccess [] [] [] "" None.

Record OIDCRule := mkRule {
  Provider : string;
  Emails : gset string;
  EmailDomains : gset string;
}.

Record Access := mkParsed {
  allow : list Prefix;
  deny : list Prefix;
  users : gmap string string;
  tokenHash : string;
  oidc : option OIDCRule;
  verified : gmap string Z;   (* digest -> expiry *)
}.
#[export] Instance eta_access : Eta Access := λ a,
  mkParsed (allow a) (deny a) (users a) (tokenHash a) (oidc a) (verified a).

Inductive access_err :=
| BadAllowIp (s : string) | BadDenyIp (s : string) | BadUsername (s : string)
| BadPasswordHash (user : string) | DuplicateUser (user : string)
| ProviderRequired | BadEmail (s : string) | BadEmailDomain (s : string) | NoAllowEntries
| BadTokenHash
| PortOnlyTcp | BasicOnlyHttp | OidcOnlyHttp | BasicAndOidc | TokenOnlyTcp | TokenWithPort.

Definition basicCacheTTL : Z := (5 * minute)%Z.

(** ** Parsing *)

Definition ParsePrefix (s : string) : option Prefix :=
  if str_mem "/" s then Masked <$> netip_ParsePrefix s
  else a ← ParseAddr s; let a := Unmap a in Some (mkPrefix a (BitLen a)).

Definition ParsePrefixes (l : list string) : result string (list Prefix) :=
  mapR (λ s, match ParsePrefix s with Some p => Ok p | None => Err s end) l.

Definition parse_email `{GoUnicode} (e : string) : string := ToLower (TrimSpace e).
Definition parse_email_domain `{GoUnicode} (d : string) : string := ToLower (TrimPrefix "@" (TrimSpace d)).

Definition parseOIDC `{GoUnicode} (p : OIDCPolicy) : result access_err OIDCRule :=
  refuse! String.eqb (oProvider p) "" with ProviderRequired ;;
  match foldM (λ es e, let e := parse_email e in
                 if negb (str_mem "@" e) then Err (BadEmail e) else Ok ({[e]} ∪ es)) ∅ (AllowEmails p) with
  | Err err => Err err
  | Ok emails =>
  match foldM (λ ds d, let d := parse_email_domain d in
                 if String.eqb d "" || str_mem "@" d then Err (BadEmailDomain d) else Ok ({[d]} ∪ ds))
              ∅ (AllowDomains p) with
  | Err err => Err err
  | Ok domains =>
  refuse! bool_decide (emails = ∅) && bool_decide (domains = (∅ : gset string)) with NoAllowEntries ;;
  Ok (mkRule (oProvider p) emails domains)
  end end.

Definition Allows `{GoUnicode} (r : OIDCRule) (email : string) : bool :=
  let email := ToLower email in
  if bool_decide (email ∈ Emails r) then true
  else match AfterLastByte "@" email with
       | Some d => bool_decide (d ∈ EmailDomains r)
       | None => false
       end.

Definition add_user `{Crypto} (m : gmap string string) (u : BasicUser) : result access_err (gmap string string) :=
  refuse! String.eqb (Username u) "" || str_mem ":" (Username u) with BadUsername (Username u) ;;
  refuse! negb (bcrypt_is_hash (BcryptHash u)) with BadPasswordHash (Username u) ;;
  refuse! bool_decide (is_Some (m !! Username u)) with DuplicateUser (Username u) ;;
  Ok (<[Username u := BcryptHash u]> m).

Definition ParseAccess `{GoUnicode, Crypto} (p : AccessPolicy) : result access_err Access :=
  match ParsePrefixes (AllowIps p) with
  | Err s => Err (BadAllowIp s)
  | Ok allow =>
  match ParsePrefixes (DenyIps p) with
  | Err s => Err (BadDenyIp s)
  | Ok deny =>
  match foldM add_user ∅ (BasicUsers p) with
  | Err err => Err err
  | Ok users =>
  match (match Oidc p with
         | None => Ok None
         | Some o => match parseOIDC o with Ok r => Ok (Some r) | Err err => Err err end
         end) with
  | Err err => Err err
  | Ok oidc =>
  let h := AccessTokenSha256 p in
  refuse! negb (String.length h =? 0) && negb (String.length h =? 32) with BadTokenHash ;;
  Ok (mkParsed allow deny users h oidc ∅)
  end end end end.

(** ** Checks *)

Definition AllowsIP (a : Access) (addr : Addr) : bool :=
  let addr := Unmap addr in
  if existsb (λ p, Contains p addr) (deny a) then false
  else match allow a with
       | [] => true
       | ps => existsb (λ p, Contains p addr) ps
       end.

Definition RequiresBasic (a : Access) : bool := negb (bool_decide (users a = ∅)).
Definition RequiresToken (a : Access) : bool := negb (String.eqb (tokenHash a) "").

Definition basic_digest `{Crypto} (user password : string) : string :=
  sha256 (user +:+ String "000" password).

(** The rule's cache after the call, and the answer. *)
Definition CheckBasic `{Crypto} (now : Z) (user password : string) (a : Access) : Access * bool :=
  let digest := basic_digest user password in
  if (if verified a !! digest is Some expiry then (now <? expiry)%Z else false) then (a, true)
  else match users a !! user with
       | None => (a, false)
       | Some hash =>
           if negb (bcrypt_matches hash password) then (a, false)
           else
             let kept := filter (λ p, ¬ (p.2 < now)%Z) (verified a) in
             (a <| verified := <[digest := (now + basicCacheTTL)%Z]> kept |>, true)
       end.

Definition CheckToken `{Crypto} (a : Access) (token : string) : bool :=
  String.eqb (sha256 token) (tokenHash a).
Definition HashAccessToken `{Crypto} (token : string) : string := sha256 token.

Definition tcpLike (typ : TunnelType) : bool :=
  match typ with TUNNEL_TYPE_TCP | TUNNEL_TYPE_SSH => true | _ => false end.
Definition isHTTP (typ : TunnelType) : bool :=
  match typ with TUNNEL_TYPE_HTTP => true | _ => false end.

Definition ValidateSpecAccess `{GoUnicode, Crypto} (typ : TunnelType) (publicPort : N) (p : AccessPolicy)
    : result access_err Access :=
  refuse! negb (tcpLike typ) && negb (publicPort =? 0)%N with PortOnlyTcp ;;
  match ParseAccess p with
  | Err err => Err err
  | Ok a =>
  let has_oidc := bool_decide (is_Some (oidc a)) in
  refuse! RequiresBasic a && negb (isHTTP typ) with BasicOnlyHttp ;;
  refuse! has_oidc && negb (isHTTP typ) with OidcOnlyHttp ;;
  refuse! has_oidc && RequiresBasic a with BasicAndOidc ;;
  refuse! RequiresToken a && negb (tcpLike typ) with TokenOnlyTcp ;;
  refuse! RequiresToken a && negb (publicPort =? 0)%N with TokenWithPort ;;
  Ok a
  end.

(** ** Agent tokens *)

Definition is_hex (c : ascii) : bool := is_digit c || ((97 <=? code c) && (code c <=? 102))%N.
Definition is_word (c : ascii) : bool :=
  is_lower c || is_upper c || is_digit c || Ascii.eqb c "_" || Ascii.eqb c "-".

(** [^l8t_([0-9a-f]{8})_([A-Za-z0-9_-]{43})$]; the id and the secret. *)
Definition tokenPattern : regex :=
  RSeq (RLit ["l"; "8"; "t"; "_"]%char)
    (RSeq (RTimes (RClass is_hex) 8) (RSeq (RLit ["_"%char]) (RTimes (RClass is_word) 43))).
Definition ParseToken (token : string) : option (string * string) :=
  if MatchString tokenPattern token
  then Some (String.substring 4 8 token, String.substring 13 43 token) else None.

Definition token_name_char (c : ascii) : bool :=
  is_lower c || is_upper c || is_digit c || Ascii.eqb c "." || Ascii.eqb c "_" || Ascii.eqb c "-".
(** [^[A-Za-z0-9][A-Za-z0-9._-]{0,63}$] *)
Definition namePattern : regex :=
  RSeq (RClass (λ c, is_lower c || is_upper c || is_digit c)) (RUpTo (RClass token_name_char) 63).
Definition ValidateTokenName (name : string) : bool := MatchString namePattern name.

Record TokenRecord := mkToken {
  ID : string;
  TName : string;
  Hash : string;
  TPolicy : Auth.Policy;
  CertSerials : list string;
}.
Definition Verify `{Crypto} (r : TokenRecord) (secret : string) : bool := bcrypt_matches (Hash r) secret.
Definition HasCertSerial (r : TokenRecord) (serial : string) : bool :=
  existsb (λ s, String.eqb s serial) (CertSerials r).

(** A client certificate, as TLS verified it: its URIs and serial number. *)
Record Certificate := mkCert { URIs : list string; Serial : string }.
Definition CertIdentity (c : Certificate) : option (string * string) :=
  match omap (CutPrefix "l8tunnel:token:") (URIs c) with
  | id :: _ => Some (id, Serial c)
  | [] => None
  end.

(** ** Gateway keys *)

Record GatewayKey := mkKey { KName : string; PublicKey : string; Fingerprint : string; Tunnels : list string }.
Definition KeyAllows (k : GatewayKey) (tunnel : string) (explicitOnly : bool) : bool :=
  existsb (λ p, if explicitOnly then String.eqb p tunnel else PathMatch.matches p tunnel) (Tunnels k).

(** ** Lemmas *)

Lemma AfterLastByte_Some c s d :
  AfterLastByte c s = Some d ↔ ∃ u, s = u +:+ String c d ∧ str_mem c d = false.
Proof.
  unfold str_mem. revert d. induction s as [|a s IH]; intros d; simpl.
  { split; [done|]. intros ([|] & ? & _); done. }
  destruct (AfterLastByte c s) as [d'|] eqn:Hs.
  - destruct (proj1 (IH d') eq_refl) as (u & -> & Hd'). split.
    + intros [= <-]. exists (String a u). by rewrite str_app_cons.
    + intros (v & Hv & Hd). f_equal. destruct v as [|b v].
      * rewrite str_app_nil_l in Hv. simplify_eq.
        rewrite str_forall_app in Hd. simpl in Hd. rewrite Ascii.eqb_refl in Hd. simpl in Hd.
        by rewrite andb_false_r in Hd.
      * rewrite str_app_cons in Hv. simplify_eq.
        assert (Some d' = Some d) as [= <-]; [|done]. apply IH. by exists v.
  - destruct (Ascii.eqb_spec a c) as [->|Hac]; split.
    + intros [= <-]. exists "". split; [done|].
      destruct (negb (str_forall (λ x, negb (Ascii.eqb x c)) s)) eqn:Hm; [|done].
      exfalso. clear IH. revert Hs Hm. induction s as [|x s IHs]; simpl; [done|].
      destruct (AfterLastByte c s); [done|]. destruct (Ascii.eqb x c); simpl; [done|]. intros _. by apply IHs.
    + intros ([|b v] & Hv & Hd).
      * rewrite str_app_nil_l in Hv. by simplify_eq.
      * rewrite str_app_cons in Hv. simplify_eq. by assert (None = Some d) by (apply IH; by exists v).
    + done.
    + intros ([|b v] & Hv & Hd).
      * rewrite str_app_nil_l in Hv. by simplify_eq.
      * rewrite str_app_cons in Hv. simplify_eq. by assert (None = Some d) by (apply IH; by exists v).
Qed.

(** A loop that collects the images of a list, refusing some. *)
Lemma foldM_collect {E A} (f : A → string) (bad : string → bool) (err : string → E) l (s0 s : gset string) :
  foldM (λ s x, if bad (f x) then Err (err (f x)) else Ok ({[f x]} ∪ s)) s0 l = Ok s →
  (∀ y, y ∈ s ↔ y ∈ s0 ∨ ∃ x, x ∈ l ∧ y = f x) ∧ ∀ x, x ∈ l → bad (f x) = false.
Proof.
  revert s0. induction l as [|x l IH]; intros s0; simpl.
  { intros [= <-]. split; [|by intros ? ?%elem_of_nil]. intros y. split; [by left|].
    intros [?|(x & ?%elem_of_nil & _)]; done. }
  destruct (bad (f x)) eqn:Hb; [done|]. intros [Hs Hbad]%IH. split.
  - intros y. rewrite Hs. set_solver.
  - intros z [->|Hz]%elem_of_cons; [done|by apply Hbad].
Qed.

Lemma parseOIDC_ok `{GoUnicode} p r :
  parseOIDC p = Ok r →
  (∀ e, e ∈ Emails r ↔ ∃ x, x ∈ AllowEmails p ∧ e = parse_email x) ∧
  (∀ d, d ∈ EmailDomains r ↔ ∃ x, x ∈ AllowDomains p ∧ d = parse_email_domain x) ∧
  (∀ x, x ∈ AllowDomains p → str_mem "@" (parse_email_domain x) = false) ∧
  (AllowEmails p ≠ [] ∨ AllowDomains p ≠ []).
Proof.
  unfold parseOIDC. intros Hp. case_if_in Hp; [done|].
  destruct (foldM _ ∅ (AllowEmails p)) as [es|] eqn:He; [|done].
  destruct (foldM _ ∅ (AllowDomains p)) as [ds|] eqn:Hd; [|done].
  case_if_in Hp; [done|]. simplify_eq. simpl.
  apply (foldM_collect parse_email (λ e, negb (str_mem "@" e)) BadEmail) in He as [He _].
  apply (foldM_collect parse_email_domain (λ d, String.eqb d "" || str_mem "@" d) BadEmailDomain) in Hd as [Hd Hbad].
  split_and!.
  - intros e. rewrite He. set_solver.
  - intros d. rewrite Hd. set_solver.
  - intros x Hx. apply Hbad in Hx. by apply orb_false_iff in Hx as [_ ?].
  - destruct (AllowEmails p); [|by left]. destruct (AllowDomains p); [|by right].
    exfalso. assert (es = ∅) by (apply set_eq; set_solver). assert (ds = ∅) by (apply set_eq; set_solver).
    subst. by rewrite !bool_decide_true in Hif0.
Qed.

Lemma string_of_app a b :
  String.string_of_list_ascii (a ++ b) = String.string_of_list_ascii a +:+ String.string_of_list_ascii b.
Proof. induction a as [|c a IH]; [done|]. simpl. by rewrite IH, str_app_cons. Qed.

Lemma list_ascii_of_app a b :
  String.list_ascii_of_string (a +:+ b) = String.list_ascii_of_string a ++ String.list_ascii_of_string b.
Proof. induction a as [|c a IH]; [done|]. rewrite str_app_cons. simpl. by rewrite IH. Qed.

Lemma substring_app a b c :
  ∀ n m, String.length a = n → String.length b = m → String.substring n m (a +:+ b +:+ c) = b.
Proof.
  induction a as [|x a IH]; intros n m <- <-.
  - rewrite str_app_nil_l. simpl. induction b as [|y b IHb]; [by destruct c|].
    rewrite str_app_cons. simpl. by rewrite IHb.
  - rewrite str_app_cons. simpl. by apply IH.
Qed.

(** ** Theorems *)

(** an OIDC rule lets a verified email pass exactly when it is on the
allow list, or its part after the last "@" is an allowed domain; letter case,
surrounding blanks and a leading "@" of the entries do not matter, and a rule
without any entry is refused, so an account at the provider alone is never
enough. *)
Theorem OIDC_Allows_spec `{GoUnicode} (p : OIDCPolicy) (r : OIDCRule) (email : string) :
  parseOIDC p = Ok r →
  (AllowEmails p ≠ [] ∨ AllowDomains p ≠ []) ∧
  (Allows r email = true ↔
   (∃ e, e ∈ AllowEmails p ∧ ToLower email = parse_email e) ∨
   (∃ d u, d ∈ AllowDomains p ∧ ToLower email = u +:+ "@" +:+ parse_email_domain d)).
Proof.
  intros (He & Hd & Hat & Hne)%parseOIDC_ok. split; [done|]. unfold Allows.
  case_bool_decide as Hin; [apply He in Hin; naive_solver|].
  assert (¬ ∃ e, e ∈ AllowEmails p ∧ ToLower email = parse_email e) as Hno.
  { intros (e & ? & ?). apply Hin, He. by exists e. }
  destruct (AfterLastByte "@" (ToLower email)) as [d|] eqn:Ha.
  - rewrite bool_decide_eq_true, Hd. apply AfterLastByte_Some in Ha as (u & Hu & Hd'). split.
    + intros (x & Hx & ->). right. exists x, u. done.
    + intros [?|(x & v & Hx & Hv)]; [done|]. exists x. split; [done|].
      assert (AfterLastByte "@" (ToLower email) = Some d) as H1 by (apply AfterLastByte_Some; by exists u).
      assert (AfterLastByte "@" (ToLower email) = Some (parse_email_domain x)) as H2.
      { apply AfterLastByte_Some. exists v. split; [done|by apply Hat]. }
      congruence.
  - split; [done|]. intros [?|(x & v & Hx & Hv)]; [done|].
    assert (AfterLastByte "@" (ToLower email) = Some (parse_email_domain x)); [|congruence].
    apply AfterLastByte_Some. exists v. split; [done|by apply Hat].
Qed.

(** an accepted access policy fits its tunnel: a public port or an access
token only on tcp and ssh tunnels and never both, basic auth and OIDC only on
http tunnels and never both. *)
Theorem ValidateSpecAccess_sound `{GoUnicode, Crypto} typ publicPort p a :
  ValidateSpecAccess typ publicPort p = Ok a →
  (publicPort ≠ 0%N → tcpLike typ = true) ∧
  (RequiresToken a = true → tcpLike typ = true ∧ publicPort = 0%N ∧ String.length (tokenHash a) = 32) ∧
  (RequiresBasic a = true → typ = TUNNEL_TYPE_HTTP ∧ oidc a = None) ∧
  (∀ r, oidc a = Some r → typ = TUNNEL_TYPE_HTTP ∧ RequiresBasic a = false).
Proof.
  unfold ValidateSpecAccess. intros Hv. case_if_in Hv; [done|].
  destruct (ParseAccess p) as [a'|] eqn:Hp; [|done]. do 5 (case_if_in Hv; [done|]). simplify_eq.
  assert (RequiresToken a = true → String.length (tokenHash a) = 32) as Hlen.
  { unfold ParseAccess in Hp. repeat (case_match; [|done]). simplify_eq.
    case_if_in Hp; [done|]. simplify_eq. unfold RequiresToken. simpl.
    destruct (AccessTokenSha256 p) as [|c s]; [done|]. intros _.
    rewrite andb_false_iff, !negb_false_iff, !Nat.eqb_eq in Hif5. simpl in Hif5. naive_solver lia. }
  destruct (N.eqb_spec publicPort 0), (RequiresToken a), (RequiresBasic a), (oidc a) as [r0|];
    simpl in *; destruct typ; simpl in *; try done; naive_solver.
Qed.

(** the form of agent tokens: [ParseToken] accepts exactly
l8t_<id>_<secret> with an id of 8 hex digits and a secret of 43 URL-safe
base64 characters, and gives these two back. *)
Theorem ParseToken_spec (token id secret : string) :
  ParseToken token = Some (id, secret) ↔
  token = "l8t_" +:+ id +:+ "_" +:+ secret ∧
  String.length id = 8 ∧ str_forall is_hex id = true ∧
  String.length secret = 43 ∧ str_forall is_word secret = true.
Proof.
  unfold ParseToken, MatchString. destruct (re_match _ _) eqn:Hm.
  - apply re_match_spec in Hm. unfold tokenPattern in Hm. rewrite in_seq_iff in Hm.
    destruct Hm as (w1 & w2 & Hw & ->%in_lit_iff & (a & w3 & -> & Ha & (w4 & b & -> & ->%in_lit_iff & Hb)%in_seq_iff)%in_seq_iff).
    apply in_times_class in Ha as [Hla Ha], Hb as [Hlb Hb].
    assert (token = "l8t_" +:+ String.string_of_list_ascii a +:+ "_" +:+ String.string_of_list_ascii b) as ->.
    { rewrite <-(String.string_of_list_ascii_of_string token), Hw, !string_of_app. done. }
    rewrite (substring_app "l8t_" (String.string_of_list_ascii a)); [|done|by rewrite length_string_of].
    assert (String.substring 13 43 ("l8t_" +:+ String.string_of_list_ascii a +:+ "_" +:+ String.string_of_list_ascii b)
            = String.string_of_list_ascii b) as ->.
    { replace ("l8t_" +:+ String.string_of_list_ascii a +:+ "_" +:+ String.string_of_list_ascii b) with
        (("l8t_" +:+ String.string_of_list_ascii a +:+ "_") +:+ String.string_of_list_ascii b +:+ "")
        by (rewrite str_app_nil_r, <-!str_app_assoc; done).
      apply substring_app; [|by rewrite length_string_of]. rewrite !str_length_app, length_string_of, Hla. done. }
    split.
    + intros [= <- <-]. rewrite !length_string_of, <-!Forall_list_ascii, !String.list_ascii_of_string_of_list_ascii.
      done.
    + intros (Heq & Hid & _ & Hsec & _). f_equal.
      apply str_app_inj_l, str_app_inj_len in Heq as [-> Heq]; [|by rewrite length_string_of, Hla, Hid].
      by apply str_app_inj_l in Heq as ->.
  - split; [done|]. intros (-> & Hid & Hhex & Hsec & Hword). exfalso.
    apply not_true_iff_false in Hm. apply Hm, re_match_spec. unfold tokenPattern.
    rewrite in_seq_iff. exists ["l"; "8"; "t"; "_"]%char, (String.list_ascii_of_string (id +:+ "_" +:+ secret)).
    split; [by rewrite list_ascii_of_app|]. split; [by apply in_lit_iff|]. rewrite list_ascii_of_app.
    apply in_seq_iff. eexists _, _. split; [done|].
    split; [apply in_times_class; by rewrite length_list_ascii, Forall_list_ascii|].
    rewrite list_ascii_of_app. apply in_seq_iff. eexists _, _. split; [done|].
    split; [by apply in_lit_iff|]. apply in_times_class. by rewrite length_list_ascii, Forall_list_ascii.
Qed.

(** *** Basic auth *)

(** The states of a parsed policy: its cache changes with every check. *)
Inductive checked `{Crypto} (a : Access) : Access → Prop :=
| checked_none : checked a a
| checked_step now user password a' : checked a a' → checked a (CheckBasic now user password a').1.

Definition cache_ok `{Crypto} (us : gmap string string) (a : Access) : Prop :=
  users a = us ∧
  ∀ digest expiry, verified a !! digest = Some expiry →
    ∃ u p h, digest = basic_digest u p ∧ us !! u = Some h ∧ bcrypt_matches h p = true.

Lemma checked_cache_ok `{Crypto} a a' :
  verified a = ∅ → checked a a' → cache_ok (users a) a'.
Proof.
  intros Hv. induction 1 as [|now u p a' Hc [Hu IH]].
  { split; [done|]. intros digest expiry. by rewrite Hv, lookup_empty. }
  unfold CheckBasic. case_match; [done|]. rewrite Hu. destruct (users a !! u) as [h|] eqn:Hh; [|done].
  destruct (bcrypt_matches h p) eqn:Hb; [|done]. simpl. split; [done|]. simpl.
  intros digest expiry. rewrite lookup_insert_Some. intros [[<- _]|[_ Hf]]; [by exists u, p, h|].
  apply map_lookup_filter_Some in Hf as [Hf _]. by eapply IH.
Qed.

(** A separator no part contains splits a string in one way. *)
Lemma sep_inj c u u' p p' :
  str_mem c u = false → str_mem c u' = false → u +:+ String c p = u' +:+ String c p' → u = u' ∧ p = p'.
Proof.
  unfold str_mem. revert u'. induction u as [|x u IH]; intros [|y u']; simpl; intros Hu Hu'.
  - by intros [= ->].
  - rewrite str_app_nil_l, str_app_cons. intros [= <- _]. rewrite Ascii.eqb_refl in Hu'. done.
  - rewrite str_app_nil_l, str_app_cons. intros [= -> _]. rewrite Ascii.eqb_refl in Hu. done.
  - rewrite !str_app_cons. intros [= -> Heq]. destruct (Ascii.eqb y c); [done|]. simpl in *.
    by destruct (IH u' Hu Hu' Heq) as [-> ->].
Qed.

Definition NUL : ascii := "000".

(** caching does not change who passes basic auth. Whatever was checked
before, and when, a user and password pass exactly when the policy has the
user with a bcrypt hash the password matches (for digests that do not
collide and names without NUL). *)
Theorem CheckBasic_equiv `{GoUnicode, Crypto} (p : AccessPolicy) (a a' : Access) now user password :
  (∀ x y, sha256 x = sha256 y → x = y) →
  ParseAccess p = Ok a → checked a a' →
  (∀ u, u ∈ dom (users a) → str_mem NUL u = false) → str_mem NUL user = false →
  (CheckBasic now user password a').2 = true ↔
  ∃ h, users a !! user = Some h ∧ bcrypt_matches h password = true.
Proof.
  intros Hinj Hp Hc Hnul Hu. assert (verified a = ∅) as Hv.
  { unfold ParseAccess in Hp. repeat (case_match; [|done]). by case_if_in Hp; simplify_eq. }
  destruct (checked_cache_ok a a' Hv Hc) as [Hus Hcache]. unfold CheckBasic.
  destruct (verified a' !! basic_digest user password) as [expiry|] eqn:Hd.
  - destruct (Hcache _ _ Hd) as (u & pw & h & Hdig & Hh & Hb). unfold basic_digest in Hdig.
    apply Hinj, sep_inj in Hdig as [<- <-]; [|done|apply Hnul, elem_of_dom; by eexists].
    rewrite Hus, Hh, Hb. simpl. case_match; simpl; naive_solver.
  - rewrite Hus. destruct (users a !! user) as [h|]; [|naive_solver].
    destruct (bcrypt_matches h password) eqn:Hb; simpl; naive_solver.
Qed.

(** *** Address lists *)

Lemma mapR_ok {E A B} (f : A → result E B) l l' :
  mapR f l = Ok l' → Forall2 (λ x y, f x = Ok y) l l'.
Proof.
  revert l'. induction l as [|x l IH]; intros l'; simpl; [intros [= <-]; constructor|].
  destruct (f x) as [y|] eqn:Hx; [|done]. destruct (mapR f l) as [ys|]; [|done].
  intros [= <-]. constructor; [done|by apply IH].
Qed.

(** [s], as an entry of an address list, covers the client. *)
Definition listed (s : string) (addr : Addr) : Prop :=
  ∃ p, ParsePrefix s = Some p ∧ Contains p (Unmap addr) = true.

Lemma existsb_listed l ps addr :
  ParsePrefixes l = Ok ps →
  existsb (λ p, Contains p (Unmap addr)) ps = true ↔ ∃ s, s ∈ l ∧ listed s addr.
Proof.
  intros Hf%mapR_ok. induction Hf as [|s p l ps Hsp _ IH]; simpl.
  { split; [done|]. by intros (s & ?%elem_of_nil & _). }
  rewrite orb_true_iff, IH. destruct (ParsePrefix s) as [p'|] eqn:Hs; simplify_eq. split.
  - intros [Hc|(s' & ? & ?)]; [exists s; split; [left|by exists p]|exists s'; split; [by right|done]].
  - intros (s' & [->|?]%elem_of_cons & Hl); [left|right; eauto]. destruct Hl as (p' & ? & ?). congruence.
Qed.

Lemma ParseAccess_lists `{GoUnicode, Crypto} p a :
  ParseAccess p = Ok a → ParsePrefixes (AllowIps p) = Ok (allow a) ∧ ParsePrefixes (DenyIps p) = Ok (deny a).
Proof.
  unfold ParseAccess. intros Hp. destruct (ParsePrefixes (AllowIps p)); [|done].
  destruct (ParsePrefixes (DenyIps p)); [|done]. destruct (foldM _ _ _); [|done].
  repeat (case_match; [|done]). by case_if_in Hp; simplify_eq.
Qed.

(** the address lists of an accepted policy: a client passes exactly when
no deny entry covers it, and the allow list is empty or has an entry that
covers it. A deny entry wins over an allow entry. *)
Theorem AllowsIP_spec `{GoUnicode, Crypto} p a addr :
  ParseAccess p = Ok a →
  AllowsIP a addr = true ↔
  (∀ s, s ∈ DenyIps p → ¬ listed s addr) ∧ (AllowIps p = [] ∨ ∃ s, s ∈ AllowIps p ∧ listed s addr).
Proof.
  intros [Ha Hd]%ParseAccess_lists. unfold AllowsIP.
  pose proof (existsb_listed _ _ addr Ha) as Hallow. pose proof (existsb_listed _ _ addr Hd) as Hdeny.
  destruct (existsb _ (deny a)).
  { split; [done|]. intros [Hn _]. destruct (proj1 Hdeny eq_refl) as (s & ? & ?). by destruct (Hn s). }
  assert (∀ s, s ∈ DenyIps p → ¬ listed s addr) as Hnone.
  { intros s ? ?. assert (false = true); [|done]. apply Hdeny. eauto. }
  apply mapR_ok in Ha. destruct (allow a) as [|q qs] eqn:Hq.
  - apply Forall2_nil_inv_r in Ha. naive_solver.
  - rewrite Hallow. split; [by split; [|right]|]. intros [_ [Hnil|?]]; [|done].
    rewrite Hnil in Ha. inversion Ha.
Qed.

(** An IPv4 network covers the addresses with its leading bits. *)
Lemma Contains_v4 x y n : (n ≤ 32)%N →
  Contains (Masked (mkPrefix (V4 x) n)) (V4 y) = true ↔ (x / 2 ^ (32 - n) = y / 2 ^ (32 - n))%N.
Proof.
  intros Hn. unfold Contains, Masked. cbn [pAddr pBits].
  rewrite N.eqb_eq, N.shiftr_shiftl_l, N.sub_diag, N.shiftl_0_r by lia. by rewrite !N.shiftr_div_pow2.
Qed.

(** a CIDR entry written in IPv4-mapped form (such as ::ffff:10.0.0.0/104)
is accepted and covers no client at all, because clients are unmapped before
the comparison and such entries are not: denying one lets everybody in. *)
Theorem mapped_cidr_covers_nothing (addr : Addr) :
  ParsePrefix "::ffff:10.0.0.0/104" = Some (mkPrefix (V6 281470849515520 "") 104) ∧
  ¬ listed "::ffff:10.0.0.0/104" addr ∧ listed "10.0.0.0/8" (V4 167838211).
Proof.
  split; [vm_compute; reflexivity|]. split; [|eexists; split; vm_compute; reflexivity].
  intros (p & Hp & Hc). assert (p = mkPrefix (V6 281470849515520 "") 104) as ->.
  { assert (ParsePrefix "::ffff:10.0.0.0/104" = Some (mkPrefix (V6 281470849515520 "") 104)) by (vm_compute; reflexivity).
    congruence. }
  destruct addr as [|y|y z]; [discriminate Hc|discriminate Hc|]. unfold Unmap in Hc.
  destruct (N.shiftr y 32 =? 65535)%N eqn:H4; [discriminate Hc|].
  unfold Contains in Hc. cbn [pAddr pBits] in Hc. destruct z; [|discriminate Hc].
  apply N.eqb_eq in Hc. apply N.eqb_neq in H4. apply H4.
  replace (128 - 104)%N with 24%N in Hc by reflexivity.
  replace 32%N with (24 + 8)%N by reflexivity. rewrite <-N.shiftr_shiftr, <-Hc. vm_compute. reflexivity.
Qed.

(** ** Witnesses *)

(** Digests that do not collide, and a hash that is the password itself. *)
Definition plain_crypto : Crypto := {|
  bcrypt_is_hash _ := true; bcrypt_matches h p := String.eqb h p; sha256 s := s
|}.

Lemma OIDC_Allows_spec_witness :
  ∃ r, parseOIDC (mkOIDC "google" [] ["@Example.com"]) = Ok r ∧ Allows r "joe@example.com" = true.
Proof.
  eexists. split; [vm_compute; reflexivity|].
  apply (proj2 (OIDC_Allows_spec (mkOIDC "google" [] ["@Example.com"]) _ "joe@example.com"
    ltac:(vm_compute; reflexivity))).
  right. exists "@Example.com", "joe". split; [left|vm_compute; reflexivity].
Defined.

Lemma ValidateSpecAccess_sound_witness :
  ∃ a, @ValidateSpecAccess ascii_only plain_crypto TUNNEL_TYPE_SSH 22 (mkAccess ["10.0.0.0/8"] [] [] "" None) = Ok a ∧
       tcpLike TUNNEL_TYPE_SSH = true.
Proof.
  eexists. split; [vm_compute; reflexivity|].
  refine (proj1 (@ValidateSpecAccess_sound ascii_only plain_crypto TUNNEL_TYPE_SSH 22
    (mkAccess ["10.0.0.0/8"] [] [] "" None) _ _) _); [vm_compute; reflexivity|discriminate].
Defined.

Definition basic_policy : AccessPolicy := mkAccess [] [] [mkUser "joe" "secret"] "" None.
Definition basic_access : Access := mkParsed [] [] {["joe" := "secret"]} "" None ∅.

Lemma CheckBasic_equiv_witness :
  (@CheckBasic plain_crypto 1 "joe" "secret" (@CheckBasic plain_crypto 0 "joe" "secret" basic_access).1).2 = true.
Proof.
  apply (@CheckBasic_equiv ascii_only plain_crypto basic_policy basic_access).
  - intros x y Hxy. exact Hxy.
  - vm_compute. reflexivity.
  - apply checked_step, checked_none.
  - intros u Hu. rewrite elem_of_dom in Hu. destruct Hu as [h Hu]. unfold basic_access in Hu. cbn [users] in Hu.
    apply lookup_singleton_Some in Hu as [<- _].
    vm_compute. reflexivity.
  - vm_compute. reflexivity.
  - exists "secret". split; vm_compute; reflexivity.
Defined.

Lemma AllowsIP_spec_witness :
  AllowsIP (mkParsed [mkPrefix (V4 167772160) 8] [mkPrefix (V4 167838211) 32] ∅ "" None ∅) (V4 167838211) = false ∧
  AllowsIP (mkParsed [mkPrefix (V4 167772160) 8] [mkPrefix (V4 167838211) 32] ∅ "" None ∅) (V4 167838212) = true.
Proof.
  pose proof (@AllowsIP_spec ascii_only plain_crypto (mkAccess ["10.0.0.0/8"] ["10.1.2.3"] [] "" None)
    (mkParsed [mkPrefix (V4 167772160) 8] [mkPrefix (V4 167838211) 32] ∅ "" None ∅)) as Hs.
  split.
  - apply not_true_iff_false. intros Ht. apply Hs in Ht as [Hd _]; [|vm_compute; reflexivity].
    destruct (Hd "10.1.2.3"); [left|]. eexists. split; vm_compute; reflexivity.
  - apply Hs; [vm_compute; reflexivity|]. split.
    + intros s Hin%list_elem_of_singleton (p & Hp & Hc). subst. vm_compute in Hp. injection Hp as <-. discriminate Hc.
    + right. exists "10.0.0.0/8". split; [left|]. eexists. split; vm_compute; reflexivity.
Defined.
