(* ===== verification/Claims.v ===== *)
(** * The claims engine: data and operations (go/tunnel/claims)

The cluster's registry process runs one engine. It owns the live state of
every relay, agent and tunnel and answers the relays' requests one at a time
(each exported method holds the engine's mutex from start to end, so an
operation is a function from engine to engine). The [sink] field is the
trace of everything reported through the [Sink] interface, oldest first.

The clock is an argument: an operation sees one instant, [now], in
nanoseconds. The management data ([Directory]) is an argument too. Protobuf
messages are the records below; a nil message pointer is [None]. *)

From S2P Require Import Prelude GoStrings Policy.
From stdpp Require Import options.
#[local] Open Scope l8_scope.
Import Rules.

(** ** Messages *)

Inductive TunTunnelType :=
| TUN_TUNNEL_TYPE_UNSPECIFIED | TUN_TUNNEL_TYPE_TCP | TUN_TUNNEL_TYPE_SSH
| TUN_TUNNEL_TYPE_HTTP | TUN_TUNNEL_TYPE_TLS.
Inductive TunLiveState :=
| TUN_LIVE_STATE_UNSPECIFIED | TUN_LIVE_STATE_ACTIVE | TUN_LIVE_STATE_GRACE.
Inductive TunRelayState :=
| TUN_RELAY_STATE_UNSPECIFIED | TUN_RELAY_STATE_READY | TUN_RELAY_STATE_DRAINING
| TUN_RELAY_STATE_DOWN.
Inductive TunAgentState :=
| TUN_AGENT_STATE_UNSPECIFIED | TUN_AGENT_STATE_ONLINE | TUN_AGENT_STATE_GRACE
| TUN_AGENT_STATE_OFFLINE.
Inductive TunAgentTransport :=
| TUN_AGENT_TRANSPORT_UNSPECIFIED | TUN_AGENT_TRANSPORT_TLS | TUN_AGENT_TRANSPORT_WEBSOCKET
| TUN_AGENT_TRANSPORT_WEBSOCKET_PROXY.
Inductive TunDisconnectReason :=
| TUN_DISCONNECT_REASON_UNSPECIFIED | TUN_DISCONNECT_REASON_HEARTBEAT_TIMEOUT
| TUN_DISCONNECT_REASON_TOKEN_REVOKED | TUN_DISCONNECT_REASON_RELAY_DRAINED
| TUN_DISCONNECT_REASON_RELAY_LOST | TUN_DISCONNECT_REASON_TAKEOVER
| TUN_DISCONNECT_REASON_AGENT_CLOSED | TUN_DISCONNECT_REASON_OPERATOR.
Inductive TunCtlCommandKind :=
| TUN_CTL_COMMAND_KIND_UNSPECIFIED | TUN_CTL_COMMAND_KIND_REANNOUNCE
| TUN_CTL_COMMAND_KIND_DRAIN | TUN_CTL_COMMAND_KIND_RESUME
| TUN_CTL_COMMAND_KIND_DISCONNECT_AGENT | TUN_CTL_COMMAND_KIND_DISCONNECT_TUNNEL
| TUN_CTL_COMMAND_KIND_TAKEN_OVER.
Inductive TunClaimKind :=
| TUN_CLAIM_KIND_UNSPECIFIED | TUN_CLAIM_KIND_CLAIM | TUN_CLAIM_KIND_PARK
| TUN_CLAIM_KIND_RELEASE | TUN_CLAIM_KIND_ANNOUNCE | TUN_CLAIM_KIND_HEARTBEAT
| TUN_CLAIM_KIND_AGENT_UP | TUN_CLAIM_KIND_AGENT_DOWN.
Inductive TunClaimError :=
| TUN_CLAIM_ERROR_UNSPECIFIED | TUN_CLAIM_ERROR_NAME_TAKEN | TUN_CLAIM_ERROR_MAX_TUNNELS
| TUN_CLAIM_ERROR_PORT_UNAVAILABLE | TUN_CLAIM_ERROR_PORT_NOT_ALLOWED
| TUN_CLAIM_ERROR_FORBIDDEN | TUN_CLAIM_ERROR_INVALID.

#[export] Instance tunnel_type_eq_dec : EqDecision TunTunnelType.
Proof. solve_decision. Defined.
#[export] Instance live_state_eq_dec : EqDecision TunLiveState.
Proof. solve_decision. Defined.
#[export] Instance relay_state_eq_dec : EqDecision TunRelayState.
Proof. solve_decision. Defined.
#[export] Instance agent_state_eq_dec : EqDecision TunAgentState.
Proof. solve_decision. Defined.
#[export] Instance transport_eq_dec : EqDecision TunAgentTransport.
Proof. solve_decision. Defined.
#[export] Instance reason_eq_dec : EqDecision TunDisconnectReason.
Proof. solve_decision. Defined.
#[export] Instance command_kind_eq_dec : EqDecision TunCtlCommandKind.
Proof. solve_decision. Defined.
#[export] Instance claim_kind_eq_dec : EqDecision TunClaimKind.
Proof. solve_decision. Defined.
#[export] Instance claim_error_eq_dec : EqDecision TunClaimError.
Proof. solve_decision. Defined.

(** The fields carry their message's initial: [t] tunnel, [a] agent, [r]
relay, [v] reservation, [c] command, [q] request, [p] response. *)
Record TunLiveTunnel := mkTunnel {
  tTunnelId : string;
  tName : string;
  tType : TunTunnelType;
  tHostname : string;
  tDomains : list string;
  tPublicPort : Z;
  tRelayId : string;
  tAgentId : string;
  tTokenId : string;
  tState : TunLiveState;
  tConnectedAt : Z;
  tGraceUntil : Z;
  tActiveConns : Z;
  tTotalConns : Z;
  tBytesIn : Z;
  tBytesOut : Z;
  tSimulated : bool;
  tSessionId : string;
  tAccessToken : bool;
  tPreviousPort : Z;
}.

Record TunAgent := mkAgent {
  aAgentId : string;
  aTokenId : string;
  aTokenName : string;
  aCertSerial : string;
  aSessionId : string;
  aVersion : string;
  aOs : string;
  aArch : string;
  aPublicIp : string;
  aRelayId : string;
  aTransport : TunAgentTransport;
  aState : TunAgentState;
  aConnectedAt : Z;
  aLastHeartbeat : Z;
  aRttUs : Z;
  aTunnelCount : Z;
  aActiveStreams : Z;
  aBytesIn : Z;
  aBytesOut : Z;
  aGraceUntil : Z;
  aLastSeen : Z;
  aDisconnectReason : TunDisconnectReason;
  aSimulated : bool;
}.

Record TunRelay := mkRelay {
  rRelayId : string;
  rPodIp : string;
  rTlsPort : Z;
  rHttpPort : Z;
  rStreamPort : Z;
  rGatewayPort : Z;
  rOpsPort : Z;
  rState : TunRelayState;
  rSessions : Z;
  rTunnels : Z;
  rBytesIn : Z;
  rBytesOut : Z;
  rCertNotAfter : Z;
  rVersion : string;
  rStartedAt : Z;
  rLastSeen : Z;
  rSimulated : bool;
}.

Record TunReservation := mkReservation {
  vReservationId : string;
  vName : string;
  vTokenId : string;
  vPublicPort : Z;
  vNote : string;
  vCreatedAt : Z;
}.

Record TunCtlCommand := mkCommand {
  cKind : TunCtlCommandKind;
  cRelayId : string;
  cAgentId : string;
  cTunnelId : string;
  cRequestedBy : string;
}.

Record TunClaimRequest := mkRequest {
  qKind : TunClaimKind;
  qRelayId : string;
  qSessionId : string;
  qAgentId : string;
  qTokenId : string;
  qMaxTunnels : Z;
  qPortMin : Z;
  qPortMax : Z;
  qTunnels : list TunLiveTunnel;
  qNames : list string;
  qGraceUntil : Z;
  qAgent : option TunAgent;
  qAgents : list TunAgent;
  qRelay : option TunRelay;
  qReason : TunDisconnectReason;
}.

(** The texts of the refusals, with their arguments. [MsgPortLoop] is not a
text: it marks a port search that did not end (see [scan]). *)
Inductive message :=
| MsgNone | MsgRelayIdRequired | MsgKindRequired | MsgNoTunnels | MsgIdsRequired
| MsgSimulated | MsgRequestedTwice (name : string) | MsgRule (e : rule_err)
| MsgNameTaken (name : string) | MsgMaxTunnels (n : Z) | MsgDomainTaken (d : string)
| MsgPortOutside (p lo hi : Z) | MsgPortHeld (p : Z) | MsgNoFreePort (lo hi : Z)
| MsgAgentRequired | MsgPortLoop.

Record TunClaimResponse := mkResponse {
  pError : TunClaimError;
  pMessage : message;
  pTunnels : list TunLiveTunnel;
  pConflicts : list string;
}.

#[export] Instance eta_tunnel : Eta TunLiveTunnel := λ r,
  mkTunnel (tTunnelId r) (tName r) (tType r) (tHostname r) (tDomains r) (tPublicPort r)
    (tRelayId r) (tAgentId r) (tTokenId r) (tState r) (tConnectedAt r) (tGraceUntil r)
    (tActiveConns r) (tTotalConns r) (tBytesIn r) (tBytesOut r) (tSimulated r)
    (tSessionId r) (tAccessToken r) (tPreviousPort r).
#[export] Instance eta_agent : Eta TunAgent := λ r,
  mkAgent (aAgentId r) (aTokenId r) (aTokenName r) (aCertSerial r) (aSessionId r) (aVersion r)
    (aOs r) (aArch r) (aPublicIp r) (aRelayId r) (aTransport r) (aState r) (aConnectedAt r)
    (aLastHeartbeat r) (aRttUs r) (aTunnelCount r) (aActiveStreams r) (aBytesIn r)
    (aBytesOut r) (aGraceUntil r) (aLastSeen r) (aDisconnectReason r) (aSimulated r).
#[export] Instance eta_relay : Eta TunRelay := λ r,
  mkRelay (rRelayId r) (rPodIp r) (rTlsPort r) (rHttpPort r) (rStreamPort r) (rGatewayPort r)
    (rOpsPort r) (rState r) (rSessions r) (rTunnels r) (rBytesIn r) (rBytesOut r)
    (rCertNotAfter r) (rVersion r) (rStartedAt r) (rLastSeen r) (rSimulated r).
#[export] Instance eta_command : Eta TunCtlCommand := λ r,
  mkCommand (cKind r) (cRelayId r) (cAgentId r) (cTunnelId r) (cRequestedBy r).

(** The zero message, as Go's [&tun.TunRelay{}]. *)
Definition zeroRelay : TunRelay :=
  mkRelay "" "" 0 0 0 0 0 TUN_RELAY_STATE_UNSPECIFIED 0 0 0 0 0 "" 0 0 false.
Definition emptyResponse : TunClaimResponse :=
  mkResponse TUN_CLAIM_ERROR_UNSPECIFIED MsgNone [] [].

(** ** The engine *)

Inductive Change := Created | Updated | Moved | Deleted.

Inductive Event :=
| TunnelChanged (rec : TunLiveTunnel) (change : Change)
| AgentChanged (rec : TunAgent) (change : Change)
| RelayChanged (rec : TunRelay) (change : Change)
| CommandSent (cmd : TunCtlCommand).

Record Directory := mkDirectory {
  Reservations : list TunReservation;
  IsSiteName : string → bool;
}.

Record Config := mkConfig {
  cfgRules : Rules;
  Grace : Z;
  RelayTimeout : Z;
  OfflineRetention : Z;
  DownRetention : Z;
  AllowSimulated : bool;
}.
#[export] Instance eta_config : Eta Config := λ r,
  mkConfig (cfgRules r) (Grace r) (RelayTimeout r) (OfflineRetention r) (DownRetention r)
    (AllowSimulated r).

Definition DefaultGrace : Z := (5 * minute)%Z.
Definition DefaultRelayTimeout : Z := (15 * second)%Z.
Definition DefaultOfflineRetention : Z := (24 * hour)%Z.
Definition DefaultDownRetention : Z := hour.

Record Engine := mkEngine {
  cfg : Config;
  tunnels : gmap string TunLiveTunnel;
  byPort : gmap Z string;
  byDomain : gmap string string;
  agents : gmap string TunAgent;
  relays : gmap string TunRelay;
  sink : list Event;
}.
#[export] Instance eta_engine : Eta Engine := λ e,
  mkEngine (cfg e) (tunnels e) (byPort e) (byDomain e) (agents e) (relays e) (sink e).

Definition New (c : Config) : Engine :=
  let c := if (Grace c =? 0)%Z then c <| Grace := DefaultGrace |> else c in
  let c := if (RelayTimeout c =? 0)%Z then c <| RelayTimeout := DefaultRelayTimeout |> else c in
  let c := if (OfflineRetention c =? 0)%Z
           then c <| OfflineRetention := DefaultOfflineRetention |> else c in
  let c := if (DownRetention c =? 0)%Z then c <| DownRetention := DefaultDownRetention |> else c in
  mkEngine c ∅ ∅ ∅ ∅ ∅ [].

Definition refuse (code : TunClaimError) (msg : message) : TunClaimResponse :=
  mkResponse code msg [] [].

Definition report (ev : Event) (e : Engine) : Engine := e <| sink := sink e ++ [ev] |>.

(** [m[k]] of a Go map of strings: a missing entry reads as "". *)
Definition at_ {K} `{Countable K} (m : gmap K string) (k : K) : string := default "" (m !! k).

Definition unindex_domains (name : string) (ds : list string) (m : gmap string string)
    : gmap string string :=
  foldl (λ m d, if String.eqb (at_ m d) name then delete d m else m) m ds.
Definition index_domains (name : string) (ds : list string) (m : gmap string string)
    : gmap string string :=
  foldl (λ m d, <[d := name]> m) m ds.

Definition unindex (rec : TunLiveTunnel) (e : Engine) : Engine :=
  let e := if negb (tPublicPort rec =? 0)%Z && String.eqb (at_ (byPort e) (tPublicPort rec)) (tName rec)
           then e <| byPort := delete (tPublicPort rec) (byPort e) |> else e in
  e <| byDomain := unindex_domains (tName rec) (tDomains rec) (byDomain e) |>.

Definition setTunnel (rec : TunLiveTunnel) (e : Engine) : Engine :=
  let old := tunnels e !! tName rec in
  let change := match old with
                | None => Created
                | Some old =>
                    if negb (String.eqb (tRelayId old) (tRelayId rec))
                       || negb (bool_decide (tState old = tState rec))
                       || negb (tPublicPort old =? tPublicPort rec)%Z
                    then Moved else Updated
                end in
  let e := match old with Some old => unindex old e | None => e end in
  let e := e <| tunnels := <[tName rec := rec]> (tunnels e) |> in
  let e := if negb (tPublicPort rec =? 0)%Z
           then e <| byPort := <[tPublicPort rec := tName rec]> (byPort e) |> else e in
  let e := e <| byDomain := index_domains (tName rec) (tDomains rec) (byDomain e) |> in
  report (TunnelChanged rec change) e.

Definition deleteTunnel (name : string) (e : Engine) : Engine :=
  match tunnels e !! name with
  | None => e
  | Some rec =>
      let e := unindex rec e in
      let e := e <| tunnels := delete name (tunnels e) |> in
      report (TunnelChanged rec Deleted) e
  end.

Definition setAgent (a : TunAgent) (e : Engine) : Engine :=
  let change := match agents e !! aAgentId a with Some _ => Updated | None => Created end in
  let e := e <| agents := <[aAgentId a := a]> (agents e) |> in
  report (AgentChanged a change) e.

Definition setRelay (r : TunRelay) (e : Engine) : Engine :=
  let change := match relays e !! rRelayId r with Some _ => Updated | None => Created end in
  let e := e <| relays := <[rRelayId r := r]> (relays e) |> in
  report (RelayChanged r change) e.

#[global] Arguments unindex : simpl never.
#[global] Arguments setTunnel : simpl never.
#[global] Arguments deleteTunnel : simpl never.
#[global] Arguments setAgent : simpl never.
#[global] Arguments setRelay : simpl never.

(** ** Claims *)

Definition hasPort (t : TunTunnelType) : bool :=
  match t with TUN_TUNNEL_TYPE_TCP | TUN_TUNNEL_TYPE_SSH => true | _ => false end.

Definition is_active (t : TunLiveTunnel) : bool := bool_decide (tState t = TUN_LIVE_STATE_ACTIVE).

(** Counts the token's connected tunnels, not counting [name], and including
the ones staged in this request. *)
Definition active `{MapRange} (e : Engine) (tokenID name : string)
    (staged : gmap string TunLiveTunnel) : Z :=
  foldl (λ n '(_, t),
           if String.eqb (tTokenId t) tokenID && negb (String.eqb (tName t) name) && is_active t
              && bool_decide (staged !! tName t = None)
           then (n + 1)%Z else n) 0%Z (range (tunnels e))
  + Z.of_nat (size staged).

Definition reservedByOther (reservations : list TunReservation) (name : string) (p : Z) : bool :=
  existsb (λ r, (vPublicPort r =? p)%Z && negb (String.eqb (vName r) name)) reservations.

(** Nobody else holds the port, in the engine, in this request or by reservation. *)
Definition port_free (e : Engine) (name : string) (reservations : list TunReservation)
    (staged : gmap Z string) (p : Z) : bool :=
  let owner := at_ (byPort e) p in
  (String.eqb owner "" || String.eqb owner name) && String.eqb (at_ staged p) ""
  && negb (reservedByOther reservations name p).

(** [for p := lo; p <= hi; p++ { if free(p) { return p } }] on 32-bit [p]:
[Some None] when the loop ends without a port, [None] when [fuel] rounds were
not enough. *)
Fixpoint scan (fuel : nat) (free : Z → bool) (p hi : Z) : option (option Z) :=
  if (p <=? hi)%Z then
    match fuel with
    | O => None
    | S fuel => if free p then Some (Some p) else scan fuel free (int32 (p + 1)) hi
    end
  else Some None.

Definition claim_err : Type := TunClaimError * message.

Definition port (e : Engine) (req : TunClaimRequest) (spec : TunLiveTunnel)
    (holder : option TunLiveTunnel) (resv : option TunReservation)
    (reservations : list TunReservation) (staged : gmap Z string) : result claim_err Z :=
  let rules := cfgRules (cfg e) in
  let free := port_free e (tName spec) reservations staged in
  let '(lo, hi) := if (qPortMin req =? 0)%Z then (int32 (PortMin rules), int32 (PortMax rules))
                   else (qPortMin req, qPortMax req) in
  let want := tPublicPort spec in
  let want := match resv with
              | Some r => if (want =? 0)%Z && negb (vPublicPort r =? 0)%Z then vPublicPort r else want
              | None => want
              end in
  let want := match holder with
              | Some h => if (want =? 0)%Z && negb (tPublicPort h =? 0)%Z then tPublicPort h else want
              | None => want
              end in
  if (want =? 0)%Z && (lo <=? tPreviousPort spec)%Z && (tPreviousPort spec <=? hi)%Z
     && free (tPreviousPort spec)
  then Ok (tPreviousPort spec)
  else if negb (want =? 0)%Z then
    refuse! (want <? int32 (PortMin rules))%Z || (int32 (PortMax rules) <? want)%Z
    with (TUN_CLAIM_ERROR_PORT_NOT_ALLOWED, MsgPortOutside want (PortMin rules) (PortMax rules)) ;;
    refuse! negb (free want) with (TUN_CLAIM_ERROR_PORT_UNAVAILABLE, MsgPortHeld want) ;;
    Ok want
  else match scan (Z.to_nat (hi - lo + 1)) free lo hi with
       | Some (Some p) => Ok p
       | Some None => Err (TUN_CLAIM_ERROR_PORT_UNAVAILABLE, MsgNoFreePort lo hi)
       | None => Err (TUN_CLAIM_ERROR_UNSPECIFIED, MsgPortLoop)
       end.

(** The last reservation of the name, as the loop finds it. *)
Definition find_reservation (reservations : list TunReservation) (name : string)
    : option TunReservation :=
  foldl (λ resv r, if String.eqb (vName r) name then Some r else resv) None reservations.

Definition holder_of (req : TunClaimRequest) (holder : option TunLiveTunnel) : option Holder :=
  match holder with
  | None => None
  | Some h => Some (mkHolder (tTokenId h) (tAgentId h) (is_active h)
                             (String.eqb (tSessionId h) (qSessionId req)))
  end.

(** The record a claim stores, before its port is chosen. *)
Definition claimed (now : Z) (req : TunClaimRequest) (spec : TunLiveTunnel) : TunLiveTunnel :=
  spec <| tRelayId := qRelayId req |> <| tAgentId := qAgentId req |>
       <| tTokenId := qTokenId req |> <| tSessionId := qSessionId req |>
       <| tState := TUN_LIVE_STATE_ACTIVE |>
       <| tConnectedAt := unix now |> <| tGraceUntil := 0%Z |>
       <| tActiveConns := 0%Z |> <| tTotalConns := 0%Z |> <| tBytesIn := 0%Z |> <| tBytesOut := 0%Z |>
       <| tPublicPort := 0%Z |> <| tPreviousPort := 0%Z |>.

Definition check `{MapRange} (dir : Directory) (now : Z) (e : Engine) (req : TunClaimRequest)
    (spec : TunLiveTunnel) (staged : gmap string TunLiveTunnel) (stagedPorts : gmap Z string)
    (stagedDomains : gmap string string) : result claim_err TunLiveTunnel :=
  let rules := cfgRules (cfg e) in
  let name := tName spec in
  match CheckName rules name with
  | Err err => Err (TUN_CLAIM_ERROR_INVALID, MsgRule err)
  | Ok _ =>
  refuse! IsSiteName dir (name +:+ "." +:+ BaseDomain rules)
  with (TUN_CLAIM_ERROR_NAME_TAKEN, MsgNameTaken name) ;;
  let resv := find_reservation (Reservations dir) name in
  refuse! (if resv is Some r then negb (String.eqb (vTokenId r) (qTokenId req)) else false)
  with (TUN_CLAIM_ERROR_NAME_TAKEN, MsgNameTaken name) ;;
  let holder := tunnels e !! name in
  match Decide (holder_of req holder) (qTokenId req) (qAgentId req)
               (active e (qTokenId req) name staged) (qMaxTunnels req) with
  | Err ErrMaxTunnels => Err (TUN_CLAIM_ERROR_MAX_TUNNELS, MsgMaxTunnels (qMaxTunnels req))
  | Err _ => Err (TUN_CLAIM_ERROR_NAME_TAKEN, MsgNameTaken name)
  | Ok _ =>
  let rec := claimed now req spec in
  match List.find (λ d, let owner := at_ (byDomain e) d in
                        (negb (String.eqb owner "") && negb (String.eqb owner name))
                        || negb (String.eqb (at_ stagedDomains d) "")) (tDomains rec) with
  | Some d => Err (TUN_CLAIM_ERROR_NAME_TAKEN, MsgDomainTaken d)
  | None =>
  if hasPort (tType spec) && negb (tAccessToken spec) then
    match port e req spec holder resv (Reservations dir) stagedPorts with
    | Err err => Err err
    | Ok p => Ok (rec <| tPublicPort := p |>)
    end
  else Ok rec
  end end end.

(** The loop variables of [claim]. *)
Record Staging := mkStaging {
  staged : gmap string TunLiveTunnel;
  stagedPorts : gmap Z string;
  stagedDomains : gmap string string;
  takeovers : list TunLiveTunnel;
}.

Definition stage `{MapRange} (dir : Directory) (now : Z) (e : Engine) (req : TunClaimRequest)
    (s : Staging) (spec : TunLiveTunnel) : result claim_err Staging :=
  refuse! tSimulated spec && negb (AllowSimulated (cfg e))
  with (TUN_CLAIM_ERROR_FORBIDDEN, MsgSimulated) ;;
  refuse! bool_decide (is_Some (staged s !! tName spec))
  with (TUN_CLAIM_ERROR_INVALID, MsgRequestedTwice (tName spec)) ;;
  match check dir now e req spec (staged s) (stagedPorts s) (stagedDomains s) with
  | Err err => Err err
  | Ok rec =>
      let takeovers' :=
        match tunnels e !! tName spec with
        | Some old => if is_active old && negb (String.eqb (tRelayId old) (qRelayId req))
                      then takeovers s ++ [old] else takeovers s
        | None => takeovers s
        end in
      Ok (mkStaging (<[tName rec := rec]> (staged s))
            (if negb (tPublicPort rec =? 0)%Z then <[tPublicPort rec := tName rec]> (stagedPorts s)
             else stagedPorts s)
            (index_domains (tName rec) (tDomains rec) (stagedDomains s))
            takeovers')
  end.

Definition taken_over (old : TunLiveTunnel) : TunCtlCommand :=
  mkCommand TUN_CTL_COMMAND_KIND_TAKEN_OVER (tRelayId old) (tAgentId old) (tTunnelId old) "".

Definition claim `{MapRange} (dir : Directory) (now : Z) (req : TunClaimRequest) (e : Engine)
    : Engine * TunClaimResponse :=
  match qTunnels req with
  | [] => (e, refuse TUN_CLAIM_ERROR_INVALID MsgNoTunnels)
  | _ =>
  if String.eqb (qAgentId req) "" || String.eqb (qTokenId req) "" || String.eqb (qSessionId req) ""
  then (e, refuse TUN_CLAIM_ERROR_INVALID MsgIdsRequired) else
  match foldM (stage dir now e req) (mkStaging ∅ ∅ ∅ []) (qTunnels req) with
  | Err (code, msg) => (e, refuse code msg)
  | Ok s =>
      let '(e, recs) :=
        foldl (λ '(e, recs) spec,
                 match staged s !! tName spec with
                 | Some rec => (setTunnel rec e, recs ++ [rec])
                 | None => (e, recs)
                 end) (e, []) (qTunnels req) in
      let e := foldl (λ e old, report (CommandSent (taken_over old)) e) e (takeovers s) in
      (e, mkResponse TUN_CLAIM_ERROR_UNSPECIFIED MsgNone recs [])
  end end.

(** ** Lifecycle *)

(** The tunnel is still this relay's (and, when given, this session's). *)
Definition owned_by (req : TunClaimRequest) (rec : TunLiveTunnel) : bool :=
  String.eqb (tRelayId rec) (qRelayId req)
  && (String.eqb (qSessionId req) "" || String.eqb (tSessionId rec) (qSessionId req)).

Definition park (now : Z) (req : TunClaimRequest) (e : Engine) : Engine :=
  let until := if (qGraceUntil req =? 0)%Z then unix (now + Grace (cfg e)) else qGraceUntil req in
  foldl (λ e name,
           match tunnels e !! name with
           | None => e
           | Some rec =>
               if negb (owned_by req rec) then e
               else setTunnel (rec <| tState := TUN_LIVE_STATE_GRACE |> <| tGraceUntil := until |>
                                   <| tActiveConns := 0%Z |>) e
           end) e (qNames req).

Definition release (req : TunClaimRequest) (e : Engine) : Engine :=
  foldl (λ e name,
           match tunnels e !! name with
           | None => e
           | Some rec => if owned_by req rec then deleteTunnel name e else e
           end) e (qNames req).

Definition touchRelay (now : Z) (id : string) (r : option TunRelay) (e : Engine) : Engine :=
  let rec := match r with
             | None => zeroRelay <| rRelayId := id |> <| rState := TUN_RELAY_STATE_READY |>
             | Some r => r <| rRelayId := id |>
             end in
  let rec := match rState rec with
             | TUN_RELAY_STATE_UNSPECIFIED | TUN_RELAY_STATE_DOWN =>
                 rec <| rState := TUN_RELAY_STATE_READY |>
             | _ => rec
             end in
  let rec := rec <| rLastSeen := unix now |> in
  let rec := match relays e !! id with
             | Some old => if (rStartedAt rec =? 0)%Z then rec <| rStartedAt := rStartedAt old |> else rec
             | None => rec
             end in
  setRelay rec e.

(** Another relay serves the name for another agent: the announcer must close it. *)
Definition conflicts_with (req : TunClaimRequest) (t : TunLiveTunnel) (e : Engine) : bool :=
  match tunnels e !! tName t with
  | Some cur => negb (String.eqb (tRelayId cur) (qRelayId req)) && is_active cur
                && negb (String.eqb (tAgentId cur) (tAgentId t))
  | None => false
  end.

Definition announced (req : TunClaimRequest) (t : TunLiveTunnel) : TunLiveTunnel :=
  let rec := t <| tRelayId := qRelayId req |> in
  match tState rec with
  | TUN_LIVE_STATE_UNSPECIFIED => rec <| tState := TUN_LIVE_STATE_ACTIVE |>
  | _ => rec
  end.

(** The loop over the announced tunnels: the engine, the names reported and
the conflicts. *)
Definition announce_tunnel (req : TunClaimRequest)
    (acc : Engine * gset string * list string) (t : TunLiveTunnel) : Engine * gset string * list string :=
  let '(e, reported, conflicts) := acc in
  if tSimulated t && negb (AllowSimulated (cfg e)) then acc
  else if conflicts_with req t e then (e, reported, conflicts ++ [tName t])
  else (setTunnel (announced req t) e, {[tName t]} ∪ reported, conflicts).

Definition announce `{MapRange} (now : Z) (req : TunClaimRequest) (e : Engine)
    : Engine * TunClaimResponse :=
  if (if qRelay req is Some r then rSimulated r && negb (AllowSimulated (cfg e)) else false)
  then (e, refuse TUN_CLAIM_ERROR_FORBIDDEN MsgSimulated) else
  let e := match qRelay req with Some r => touchRelay now (qRelayId req) (Some r) e | None => e end in
  let '(e, reported, conflicts) := foldl (announce_tunnel req) (e, ∅, []) (qTunnels req) in
  let until := unix (now + Grace (cfg e)) in
  let e := foldl (λ e '(name, rec),
             if String.eqb (tRelayId rec) (qRelayId req) && negb (bool_decide (name ∈ reported))
                && is_active rec
             then setTunnel (rec <| tState := TUN_LIVE_STATE_GRACE |> <| tGraceUntil := until |>) e
             else e) e (range (tunnels e)) in
  let e := foldl (λ e a,
             if aSimulated a && negb (AllowSimulated (cfg e)) then e
             else setAgent (a <| aRelayId := qRelayId req |>) e) e (qAgents req) in
  (e, mkResponse TUN_CLAIM_ERROR_UNSPECIFIED MsgNone [] conflicts).

Definition heartbeat (now : Z) (req : TunClaimRequest) (e : Engine) : Engine :=
  let e := touchRelay now (qRelayId req) (qRelay req) e in
  let e := foldl (λ e t,
             match tunnels e !! tName t with
             | None => e
             | Some rec =>
                 if negb (String.eqb (tRelayId rec) (qRelayId req)) || negb (is_active rec) then e
                 else if (tActiveConns rec =? tActiveConns t)%Z && (tTotalConns rec =? tTotalConns t)%Z
                         && (tBytesIn rec =? tBytesIn t)%Z && (tBytesOut rec =? tBytesOut t)%Z then e
                 else setTunnel (rec <| tActiveConns := tActiveConns t |> <| tTotalConns := tTotalConns t |>
                                     <| tBytesIn := tBytesIn t |> <| tBytesOut := tBytesOut t |>) e
             end) e (qTunnels req) in
  foldl (λ e a,
    match agents e !! aAgentId a with
    | None => e
    | Some rec =>
        if negb (String.eqb (aRelayId rec) (qRelayId req)) || negb (String.eqb (aSessionId rec) (aSessionId a))
        then e
        else setAgent (rec <| aLastHeartbeat := aLastHeartbeat a |> <| aRttUs := aRttUs a |>
                           <| aTunnelCount := aTunnelCount a |> <| aActiveStreams := aActiveStreams a |>
                           <| aBytesIn := aBytesIn a |> <| aBytesOut := aBytesOut a |>
                           <| aLastSeen := unix now |>) e
    end) e (qAgents req).

Definition agentUp (now : Z) (req : TunClaimRequest) (e : Engine) : Engine * TunClaimResponse :=
  match qAgent req with
  | None => (e, refuse TUN_CLAIM_ERROR_INVALID MsgAgentRequired)
  | Some a =>
      if String.eqb (aAgentId a) "" || String.eqb (aSessionId a) ""
      then (e, refuse TUN_CLAIM_ERROR_INVALID MsgAgentRequired)
      else if aSimulated a && negb (AllowSimulated (cfg e))
      then (e, refuse TUN_CLAIM_ERROR_FORBIDDEN MsgSimulated)
      else
        let rec := a <| aRelayId := qRelayId req |> <| aState := TUN_AGENT_STATE_ONLINE |>
                     <| aGraceUntil := 0%Z |>
                     <| aDisconnectReason := TUN_DISCONNECT_REASON_UNSPECIFIED |> in
        let rec := if (aConnectedAt rec =? 0)%Z then rec <| aConnectedAt := unix now |> else rec in
        let rec := rec <| aLastSeen := unix now |> <| aLastHeartbeat := unix now |> in
        (setAgent rec e, emptyResponse)
  end.

Definition downAgent (rec : TunAgent) (reason : TunDisconnectReason) (now : Z) (e : Engine) : Engine :=
  let rec := rec <| aState := TUN_AGENT_STATE_GRACE |> <| aDisconnectReason := reason |>
                 <| aGraceUntil := unix (now + Grace (cfg e)) |> <| aLastSeen := unix now |>
                 <| aActiveStreams := 0%Z |> in
  let rec := match reason with
             | TUN_DISCONNECT_REASON_TOKEN_REVOKED =>
                 rec <| aState := TUN_AGENT_STATE_OFFLINE |> <| aGraceUntil := 0%Z |>
             | _ => rec
             end in
  setAgent rec e.

Definition agentDown (now : Z) (req : TunClaimRequest) (e : Engine) : Engine :=
  match agents e !! qAgentId req with
  | None => e
  | Some rec =>
      if negb (String.eqb (aRelayId rec) (qRelayId req)) || negb (String.eqb (aSessionId rec) (qSessionId req))
      then e else downAgent rec (qReason req) now e
  end.

Definition Handle `{MapRange} (dir : Directory) (now : Z) (req : TunClaimRequest) (e : Engine)
    : Engine * TunClaimResponse :=
  if String.eqb (qRelayId req) "" then (e, refuse TUN_CLAIM_ERROR_INVALID MsgRelayIdRequired) else
  match qKind req with
  | TUN_CLAIM_KIND_CLAIM => claim dir now req e
  | TUN_CLAIM_KIND_PARK => (park now req e, emptyResponse)
  | TUN_CLAIM_KIND_RELEASE => (release req e, emptyResponse)
  | TUN_CLAIM_KIND_ANNOUNCE => announce now req e
  | TUN_CLAIM_KIND_HEARTBEAT => (heartbeat now req e, emptyResponse)
  | TUN_CLAIM_KIND_AGENT_UP => agentUp now req e
  | TUN_CLAIM_KIND_AGENT_DOWN => (agentDown now req e, emptyResponse)
  | TUN_CLAIM_KIND_UNSPECIFIED => (e, refuse TUN_CLAIM_ERROR_INVALID MsgKindRequired)
  end.

Definition Snapshot `{MapRange} (e : Engine) : list TunLiveTunnel * list TunAgent * list TunRelay :=
  ((range (tunnels e)).*2, (range (agents e)).*2, (range (relays e)).*2).

(** ** Sweep and commands *)

Definition lostRelay `{MapRange} (now : Z) (id : string) (r : TunRelay) (e : Engine) : Engine :=
  let rec := r <| rState := TUN_RELAY_STATE_DOWN |> <| rSessions := 0%Z |> <| rTunnels := 0%Z |> in
  let e := setRelay rec e in
  let until := unix (now + Grace (cfg e)) in
  let e := foldl (λ e '(_, t),
             if String.eqb (tRelayId t) id && is_active t
             then setTunnel (t <| tState := TUN_LIVE_STATE_GRACE |> <| tGraceUntil := until |>
                               <| tActiveConns := 0%Z |>) e
             else e) e (range (tunnels e)) in
  foldl (λ e '(_, a),
    if String.eqb (aRelayId a) id && bool_decide (aState a = TUN_AGENT_STATE_ONLINE)
    then downAgent a TUN_DISCONNECT_REASON_RELAY_LOST now e else e) e (range (agents e)).

Definition sweep_relay `{MapRange} (now : Z) (e : Engine) (p : string * TunRelay) : Engine :=
  let '(id, r) := p in
  let down := bool_decide (rState r = TUN_RELAY_STATE_DOWN) in
  if rSimulated r then e
  else if negb down && (rLastSeen r <? unix (now - RelayTimeout (cfg e)))%Z then lostRelay now id r e
  else if down && (rLastSeen r <? unix (now - DownRetention (cfg e)))%Z
  then report (RelayChanged r Deleted) (e <| relays := delete id (relays e) |>)
  else e.

Definition sweep_tunnel (now : Z) (e : Engine) (p : string * TunLiveTunnel) : Engine :=
  let '(name, t) := p in
  if negb (tSimulated t) && bool_decide (tState t = TUN_LIVE_STATE_GRACE)
     && (tGraceUntil t <=? unix now)%Z
  then deleteTunnel name e else e.

Definition sweep_agent (now : Z) (e : Engine) (p : string * TunAgent) : Engine :=
  let '(id, a) := p in
  if aSimulated a then e
  else if bool_decide (aState a = TUN_AGENT_STATE_GRACE) && (aGraceUntil a <=? unix now)%Z
  then setAgent (a <| aState := TUN_AGENT_STATE_OFFLINE |> <| aGraceUntil := 0%Z |>) e
  else if bool_decide (aState a = TUN_AGENT_STATE_OFFLINE)
          && (aLastSeen a <? unix (now - OfflineRetention (cfg e)))%Z
  then report (AgentChanged a Deleted) (e <| agents := delete id (agents e) |>)
  else e.

Definition Sweep `{MapRange} (now : Z) (e : Engine) : Engine :=
  let e := foldl (sweep_relay now) e (range (relays e)) in
  let e := foldl (sweep_tunnel now) e (range (tunnels e)) in
  foldl (sweep_agent now) e (range (agents e)).

Inductive command_err := ErrNotFound | ErrUnsupported.

(** The command as the caller sees it after the call (its target is filled
in), or the error. *)
Definition Command `{MapRange} (cmd : TunCtlCommand) (e : Engine)
    : Engine * result command_err TunCtlCommand :=
  let send e cmd := (report (CommandSent cmd) e, Ok cmd) in
  let relay_command st :=
    match relays e !! cRelayId cmd with
    | None => (e, Err ErrNotFound)
    | Some r =>
        if bool_decide (rState r = TUN_RELAY_STATE_DOWN) then (e, Err ErrNotFound)
        else send (setRelay (r <| rState := st |>) e) cmd
    end in
  match cKind cmd with
  | TUN_CTL_COMMAND_KIND_DRAIN => relay_command TUN_RELAY_STATE_DRAINING
  | TUN_CTL_COMMAND_KIND_RESUME => relay_command TUN_RELAY_STATE_READY
  | TUN_CTL_COMMAND_KIND_DISCONNECT_AGENT =>
      match agents e !! cAgentId cmd with
      | None => (e, Err ErrNotFound)
      | Some a =>
          if negb (bool_decide (aState a = TUN_AGENT_STATE_ONLINE)) then (e, Err ErrNotFound)
          else send e (cmd <| cRelayId := aRelayId a |>)
      end
  | TUN_CTL_COMMAND_KIND_DISCONNECT_TUNNEL =>
      let found := foldl (λ found '(_, t),
                     if String.eqb (tTunnelId t) (cTunnelId cmd) && is_active t then Some t else found)
                     None (range (tunnels e)) in
      match found with
      | None => (e, Err ErrNotFound)
      | Some t => send e (cmd <| cRelayId := tRelayId t |> <| cAgentId := tAgentId t |>)
      end
  | TUN_CTL_COMMAND_KIND_REANNOUNCE => send e cmd
  | _ => (e, Err ErrUnsupported)
  end.
