(* ===== verification/ClaimsInv.v ===== *)
(** * The claims engine: invariants (go/tunnel/claims)

Every operation of the engine is a sequence of elementary changes
([basic]): store or delete a tunnel, an agent or a relay, send a command.
This file proves what each elementary change does to the port and domain
indexes, and decomposes every operation into such changes; the invariants
are then checked against the elementary changes once.

- [wf]: the tables are keyed by the records' own identifiers and an index
  entry always points at a tunnel that has that port or domain;
- [exclusive]: every tunnel that has a port or a domain is the one its index
  names, so no two tunnels share one;
- [mirrored]: replaying the trace of reported changes rebuilds the tables. *)

From S2P Require Import Prelude GoStrings Policy Claims.
From stdpp Require Import options.
#[local] Open Scope l8_scope.
Import Rules.

Lemma foldl_rest {A B} (P : B → list A → Prop) (f : B → A → B) l b :
  P b l → (∀ b x l, P b (x :: l) → P (f b x) l) → P (foldl f b l) [].
Proof. revert b. induction l as [|x l IH]; simpl; eauto. Qed.

(** ** Indexes *)

Lemma at_eq {K} `{Countable K} (m : gmap K string) k n :
  n ≠ "" → at_ m k = n ↔ m !! k = Some n.
Proof. unfold at_. destruct (m !! k); naive_solver. Qed.

Lemma at_empty {K} `{Countable K} (m : gmap K string) k :
  (∀ n, m !! k = Some n → n ≠ "") → at_ m k = "" → m !! k = None.
Proof. unfold at_. destruct (m !! k); naive_solver. Qed.

Lemma lookup_unindex_domains name ds m d :
  unindex_domains name ds m !! d =
  if decide (d ∈ ds ∧ m !! d = Some name) then None else m !! d.
Proof.
  unfold unindex_domains. revert m. induction ds as [|d0 ds IH]; intros m; cbn [foldl].
  { case_decide; [set_solver|done]. }
  rewrite IH. destruct (decide (d = d0)) as [->|Hd].
  - destruct (String.eqb_spec (at_ m d0) name) as [He|He].
    + rewrite lookup_delete_eq. rewrite decide_False by naive_solver.
      unfold at_ in He. destruct (m !! d0); simpl in He; subst; [|by destruct (decide _)].
      rewrite decide_True; [done|]. split; [apply list_elem_of_here|done].
    + rewrite decide_False; [rewrite decide_False; [done|]|]; unfold at_ in He;
        intros [_ Hm]; rewrite Hm in He; done.
  - assert ((if String.eqb (at_ m d0) name then delete d0 m else m) !! d = m !! d) as ->.
    { case_match; [by rewrite lookup_delete_ne|done]. }
    repeat case_decide; set_solver.
Qed.

Lemma lookup_index_domains name ds m d :
  index_domains name ds m !! d = if decide (d ∈ ds) then Some name else m !! d.
Proof.
  unfold index_domains. revert m. induction ds as [|d0 ds IH]; intros m; cbn [foldl].
  { case_decide; [set_solver|done]. }
  rewrite IH. destruct (decide (d = d0)) as [->|Hd].
  - rewrite lookup_insert_eq. repeat case_decide; set_solver.
  - rewrite lookup_insert_ne by done. repeat case_decide; set_solver.
Qed.

Lemma lookup_unindex_port rec e p :
  byPort (unindex rec e) !! p =
  if decide (p ≠ 0%Z ∧ p = tPublicPort rec ∧ byPort e !! p = Some (tName rec)) then None
  else byPort e !! p.
Proof.
  unfold unindex. destruct (Z.eqb_spec (tPublicPort rec) 0) as [H0|H0]; simpl.
  { case_decide; naive_solver. }
  destruct (String.eqb_spec (at_ (byPort e) (tPublicPort rec)) (tName rec)) as [He|He]; simpl.
  - destruct (decide (p = tPublicPort rec)) as [->|Hp].
    + rewrite lookup_delete_eq. unfold at_ in He.
      destruct (byPort e !! _); simpl in *; subst; case_decide; naive_solver.
    + rewrite lookup_delete_ne by done. case_decide; naive_solver.
  - case_decide as Hd; [|done]. destruct Hd as (_ & -> & Hd). unfold at_ in He. by rewrite Hd in He.
Qed.

Lemma byDomain_unindex rec e :
  byDomain (unindex rec e) = unindex_domains (tName rec) (tDomains rec) (byDomain e).
Proof. unfold unindex. by case_match. Qed.

(** [unindex] leaves everything but the indexes alone. *)
Lemma unindex_frame rec e :
  tunnels (unindex rec e) = tunnels e ∧ agents (unindex rec e) = agents e ∧
  relays (unindex rec e) = relays e ∧ sink (unindex rec e) = sink e ∧ cfg (unindex rec e) = cfg e.
Proof. unfold unindex. by case_match. Qed.

(** ** Well-formed engines *)

Record wf (e : Engine) : Prop := {
  wf_name n t : tunnels e !! n = Some t → tName t = n;
  wf_port p n : byPort e !! p = Some n →
    ∃ t, tunnels e !! n = Some t ∧ tPublicPort t = p ∧ p ≠ 0%Z;
  wf_domain d n : byDomain e !! d = Some n → ∃ t, tunnels e !! n = Some t ∧ d ∈ tDomains t;
  wf_agent id a : agents e !! id = Some a → aAgentId a = id;
  wf_relay id r : relays e !! id = Some r → rRelayId r = id;
}.

(** What the sink is told about a stored tunnel. *)
Definition change_of (e : Engine) (rec : TunLiveTunnel) : Change :=
  match tunnels e !! tName rec with
  | None => Created
  | Some old => if negb (String.eqb (tRelayId old) (tRelayId rec))
                   || negb (bool_decide (tState old = tState rec))
                   || negb (tPublicPort old =? tPublicPort rec)%Z
                then Moved else Updated
  end.

Lemma setTunnel_frame rec e :
  tunnels (setTunnel rec e) = <[tName rec := rec]> (tunnels e) ∧
  agents (setTunnel rec e) = agents e ∧ relays (setTunnel rec e) = relays e ∧
  cfg (setTunnel rec e) = cfg e ∧
  sink (setTunnel rec e) = sink e ++ [TunnelChanged rec (change_of e rec)].
Proof.
  unfold setTunnel, change_of.
  destruct (tunnels e !! tName rec) as [old|]; [|by destruct (negb (_ =? _)%Z)].
  generalize (unindex_frame old e). generalize (unindex old e) as e1.
  intros e1 (<- & <- & <- & <- & <-). by destruct (negb (tPublicPort rec =? 0)%Z).
Qed.

Lemma tunnels_setTunnel rec e : tunnels (setTunnel rec e) = <[tName rec := rec]> (tunnels e).
Proof. apply setTunnel_frame. Qed.

Lemma relays_setTunnel rec e : relays (setTunnel rec e) = relays e.
Proof. apply setTunnel_frame. Qed.

Lemma cfg_setTunnel rec e : cfg (setTunnel rec e) = cfg e.
Proof. apply setTunnel_frame. Qed.

(** A changed index entry belongs to the stored tunnel; the others keep theirs. *)
Lemma byPort_setTunnel rec e p n :
  wf e →
  byPort (setTunnel rec e) !! p = Some n ↔
  (n = tName rec ∧ p = tPublicPort rec ∧ p ≠ 0%Z) ∨
  (n ≠ tName rec ∧ byPort e !! p = Some n ∧ ¬ (p = tPublicPort rec ∧ p ≠ 0%Z)).
Proof.
  intros Hwf.
  assert (∀ q, byPort (match tunnels e !! tName rec with Some old => unindex old e | None => e end) !! q
               = Some n ↔ n ≠ tName rec ∧ byPort e !! q = Some n) as Hold.
  { intros q. destruct (tunnels e !! tName rec) as [old|] eqn:Ho.
    - rewrite lookup_unindex_port, (wf_name e Hwf _ _ Ho). case_decide as Hd; [naive_solver|].
      split; [|naive_solver]. intros Hq. split; [|done]. intros ->.
      destruct (wf_port e Hwf _ _ Hq) as (t & Ht & Hp & ?). naive_solver.
    - split; [|naive_solver]. intros Hq. split; [|done]. intros ->.
      destruct (wf_port e Hwf _ _ Hq) as (t & Ht & ?). naive_solver. }
  unfold setTunnel. destruct (Z.eqb_spec (tPublicPort rec) 0) as [H0|H0]; simpl.
  - rewrite Hold. naive_solver.
  - destruct (decide (p = tPublicPort rec)) as [->|Hp].
    + rewrite lookup_insert_eq. naive_solver.
    + rewrite lookup_insert_ne by done. rewrite Hold. naive_solver.
Qed.

Lemma byDomain_setTunnel rec e d n :
  wf e →
  byDomain (setTunnel rec e) !! d = Some n ↔
  (n = tName rec ∧ d ∈ tDomains rec) ∨
  (n ≠ tName rec ∧ byDomain e !! d = Some n ∧ d ∉ tDomains rec).
Proof.
  intros Hwf.
  assert (byDomain (setTunnel rec e) = index_domains (tName rec) (tDomains rec)
    (byDomain (match tunnels e !! tName rec with Some old => unindex old e | None => e end))) as ->.
  { unfold setTunnel. by destruct (negb (tPublicPort rec =? 0)%Z). }
  rewrite lookup_index_domains. case_decide; [naive_solver|].
  destruct (tunnels e !! tName rec) as [old|] eqn:Ho.
  - rewrite byDomain_unindex, lookup_unindex_domains, (wf_name e Hwf _ _ Ho).
    case_decide; [naive_solver|]. split; [|naive_solver]. intros Hq.
    right. split_and!; [|done..]. intros ->.
    destruct (wf_domain e Hwf _ _ Hq) as (t & Ht & ?). naive_solver.
  - split; [|naive_solver]. intros Hq. right. split_and!; [|done..]. intros ->.
    destruct (wf_domain e Hwf _ _ Hq) as (t & Ht & ?). naive_solver.
Qed.

Lemma deleteTunnel_frame name e :
  tunnels (deleteTunnel name e) = delete name (tunnels e) ∧
  agents (deleteTunnel name e) = agents e ∧ relays (deleteTunnel name e) = relays e ∧
  cfg (deleteTunnel name e) = cfg e ∧
  sink (deleteTunnel name e) = sink e ++ match tunnels e !! name with
                                         | Some rec => [TunnelChanged rec Deleted]
                                         | None => []
                                         end.
Proof.
  unfold deleteTunnel. destruct (tunnels e !! name) as [rec|] eqn:Hr.
  - generalize (unindex_frame rec e). generalize (unindex rec e) as e1.
    intros e1 (<- & <- & <- & <- & <-). done.
  - rewrite app_nil_r, delete_id; done.
Qed.

Lemma byPort_deleteTunnel name e p n :
  wf e → byPort (deleteTunnel name e) !! p = Some n ↔ n ≠ name ∧ byPort e !! p = Some n.
Proof.
  intros Hwf. unfold deleteTunnel. destruct (tunnels e !! name) as [rec|] eqn:Hr.
  - change (byPort (report _ ?e')) with (byPort (unindex rec e)).
    rewrite lookup_unindex_port, (wf_name e Hwf _ _ Hr). case_decide; [naive_solver|].
    split; [|naive_solver]. intros Hq. split; [|done]. intros ->.
    destruct (wf_port e Hwf _ _ Hq) as (t & Ht & ?). naive_solver.
  - split; [|naive_solver]. intros Hq. split; [|done]. intros ->.
    destruct (wf_port e Hwf _ _ Hq) as (t & Ht & ?). naive_solver.
Qed.

Lemma byDomain_deleteTunnel name e d n :
  wf e → byDomain (deleteTunnel name e) !! d = Some n ↔ n ≠ name ∧ byDomain e !! d = Some n.
Proof.
  intros Hwf. unfold deleteTunnel. destruct (tunnels e !! name) as [rec|] eqn:Hr.
  - change (byDomain (report _ ?e')) with (byDomain (unindex rec e)).
    rewrite byDomain_unindex, lookup_unindex_domains, (wf_name e Hwf _ _ Hr).
    case_decide; [naive_solver|].
    split; [|naive_solver]. intros Hq. split; [|done]. intros ->.
    destruct (wf_domain e Hwf _ _ Hq) as (t & Ht & ?). naive_solver.
  - split; [|naive_solver]. intros Hq. split; [|done]. intros ->.
    destruct (wf_domain e Hwf _ _ Hq) as (t & Ht & ?). naive_solver.
Qed.

(** ** Elementary changes *)

(** One elementary change; [P e rec] says which tunnels may be stored. *)
Inductive basic (P : Engine → TunLiveTunnel → Prop) (e : Engine) : Engine → Prop :=
| basic_tunnel rec : P e rec → basic P e (setTunnel rec e)
| basic_deltunnel name : basic P e (deleteTunnel name e)
| basic_agent a : basic P e (setAgent a e)
| basic_delagent id a : agents e !! id = Some a →
    basic P e (report (AgentChanged a Deleted) (e <| agents := delete id (agents e) |>))
| basic_relay r : basic P e (setRelay r e)
| basic_delrelay id r : relays e !! id = Some r →
    basic P e (report (RelayChanged r Deleted) (e <| relays := delete id (relays e) |>))
| basic_command cmd : basic P e (report (CommandSent cmd) e).

(** Any record; a record with the port and the domains its name already has;
a named record whose port and domains no other name holds. *)
Definition anything (_ : Engine) (_ : TunLiveTunnel) : Prop := True.
Definition keeps (e : Engine) (rec : TunLiveTunnel) : Prop :=
  ∃ old, tunnels e !! tName rec = Some old ∧
         tPublicPort rec = tPublicPort old ∧ tDomains rec = tDomains old.
Definition fits (e : Engine) (rec : TunLiveTunnel) : Prop :=
  (∀ n, tPublicPort rec ≠ 0%Z → byPort e !! tPublicPort rec = Some n → n = tName rec) ∧
  (∀ d n, d ∈ tDomains rec → byDomain e !! d = Some n → n = tName rec).
Definition named_fits (e : Engine) (rec : TunLiveTunnel) : Prop := tName rec ≠ "" ∧ fits e rec.

Lemma basic_mono (P Q : Engine → TunLiveTunnel → Prop) e e' :
  (∀ rec, P e rec → Q e rec) → basic P e e' → basic Q e e'.
Proof. intros HPQ []; constructor; auto. Qed.

(** Elementary changes keep the configuration. *)
Lemma basic_cfg P e e' : basic P e e' → cfg e' = cfg e.
Proof.
  intros []; [apply setTunnel_frame|apply deleteTunnel_frame|done..].
Qed.

Lemma basic_wf P e e' : basic P e e' → wf e → wf e'.
Proof.
  intros Hb Hwf. destruct Hb as [rec _|name|a|id a Ha|r|id r Hr|cmd].
  - pose proof (setTunnel_frame rec e) as (Ht & Ha & Hr & _ & _).
    split; rewrite ?Ht, ?Ha, ?Hr; try apply Hwf.
    + intros n t. rewrite lookup_insert_Some. intros [[<- <-]|[_ ?]]; [done|by apply Hwf].
    + intros p n. rewrite byPort_setTunnel by done. setoid_rewrite lookup_insert_Some.
      intros [(-> & -> & ?)|(Hn & Hp & _)]; [naive_solver|].
      destruct (wf_port e Hwf _ _ Hp) as (t & ? & ?). naive_solver.
    + intros d n. rewrite byDomain_setTunnel by done. setoid_rewrite lookup_insert_Some.
      intros [(-> & ?)|(Hn & Hp & _)]; [naive_solver|].
      destruct (wf_domain e Hwf _ _ Hp) as (t & ? & ?). naive_solver.
  - pose proof (deleteTunnel_frame name e) as (Ht & Ha & Hr & _ & _).
    split; rewrite ?Ht, ?Ha, ?Hr; try apply Hwf.
    + intros n t. rewrite lookup_delete_Some. intros [_ ?]. by apply Hwf.
    + intros p n. rewrite byPort_deleteTunnel by done. setoid_rewrite lookup_delete_Some.
      intros (Hn & Hp). destruct (wf_port e Hwf _ _ Hp) as (t & ? & ?). naive_solver.
    + intros d n. rewrite byDomain_deleteTunnel by done. setoid_rewrite lookup_delete_Some.
      intros (Hn & Hp). destruct (wf_domain e Hwf _ _ Hp) as (t & ? & ?). naive_solver.
  - split; try apply Hwf. simpl. intros id b. rewrite lookup_insert_Some.
    intros [[<- <-]|[_ ?]]; [done|by apply Hwf].
  - split; try apply Hwf. simpl. intros id' b. rewrite lookup_delete_Some.
    intros [_ ?]. by apply Hwf.
  - split; try apply Hwf. simpl. intros id b. rewrite lookup_insert_Some.
    intros [[<- <-]|[_ ?]]; [done|by apply Hwf].
  - split; try apply Hwf. simpl. intros id' b. rewrite lookup_delete_Some.
    intros [_ ?]. by apply Hwf.
  - split; apply Hwf.
Qed.

(** ** Exclusive ports, domains and names *)

Record exclusive (e : Engine) : Prop := {
  ex_port n t : tunnels e !! n = Some t → tPublicPort t ≠ 0%Z → byPort e !! tPublicPort t = Some n;
  ex_domain n t d : tunnels e !! n = Some t → d ∈ tDomains t → byDomain e !! d = Some n;
  ex_name t : tunnels e !! "" = Some t → False;
}.

Lemma basic_exclusive e e' :
  basic named_fits e e' → wf e → exclusive e → exclusive e'.
Proof.
  intros Hb Hwf Hex. destruct Hb as [rec [Hne [Hfp Hfd]]|name| | | | |]; [..|by split; apply Hex].
  - split; rewrite tunnels_setTunnel; setoid_rewrite lookup_insert_Some.
    + intros n t Hn H0. rewrite byPort_setTunnel by done. destruct Hn as [[<- <-]|[Hn Ht]]; [naive_solver|].
      right. pose proof (ex_port e Hex _ _ Ht H0) as Hp. split_and!; [done..|].
      intros [Heq _]. rewrite Heq in Hp, H0. naive_solver.
    + intros n t d Hn Hd. rewrite byDomain_setTunnel by done. destruct Hn as [[<- <-]|[Hn Ht]]; [naive_solver|].
      right. pose proof (ex_domain e Hex _ _ _ Ht Hd) as Hp. split_and!; [done..|]. naive_solver.
    + intros t [[]|[_ ?]]; [done|]. by eapply Hex.
  - split; rewrite (proj1 (deleteTunnel_frame name e)); setoid_rewrite lookup_delete_Some.
    + intros n t [? Ht] H0. rewrite byPort_deleteTunnel by done. split; [done|]. by apply Hex.
    + intros n t d [? Ht] Hd. rewrite byDomain_deleteTunnel by done. split; [done|]. by eapply Hex.
    + intros t [? Ht]. by eapply Hex.
  - split; apply Hex.
  - split; apply Hex.
  - split; apply Hex.
  - split; apply Hex.
Qed.

Lemma keeps_fits e rec : wf e → exclusive e → keeps e rec → named_fits e rec.
Proof.
  intros Hwf Hex (old & Ho & Hp & Hd). split; [intros Hn; rewrite Hn in Ho; by eapply Hex|].
  split.
  - intros n H0 Hn. rewrite Hp in H0, Hn. rewrite (ex_port e Hex _ _ Ho H0) in Hn. naive_solver.
  - intros d n Hin Hn. rewrite Hd in Hin. rewrite (ex_domain e Hex _ _ _ Ho Hin) in Hn. naive_solver.
Qed.

(** ** The reported changes *)

Definition tables : Type :=
  gmap string TunLiveTunnel * gmap string TunAgent * gmap string TunRelay.
Definition tables_of (e : Engine) : tables := (tunnels e, agents e, relays e).

(** The live tables as the registry mirrors them: a record is created once,
changed and deleted only while it exists. *)
Definition apply_change {A} (key : A → string) (m : gmap string A) (rec : A) (change : Change)
    : option (gmap string A) :=
  match change, m !! key rec with
  | Created, None => Some (<[key rec := rec]> m)
  | (Updated | Moved), Some _ => Some (<[key rec := rec]> m)
  | Deleted, Some _ => Some (delete (key rec) m)
  | _, _ => None
  end.

Definition apply_event (s : tables) (ev : Event) : option tables :=
  let '(ts, ags, rs) := s in
  match ev with
  | TunnelChanged rec c => ts' ← apply_change tName ts rec c; Some (ts', ags, rs)
  | AgentChanged rec c => ags' ← apply_change aAgentId ags rec c; Some (ts, ags', rs)
  | RelayChanged rec c => rs' ← apply_change rRelayId rs rec c; Some (ts, ags, rs')
  | CommandSent _ => Some s
  end.

Definition replay (log : list Event) : option tables :=
  foldl (λ s ev, s ← s; apply_event s ev) (Some (∅, ∅, ∅)) log.

Definition mirrored (e : Engine) : Prop := replay (sink e) = Some (tables_of e).

Lemma replay_snoc log ev s : replay log = Some s → replay (log ++ [ev]) = apply_event s ev.
Proof. unfold replay. intros Hs. rewrite foldl_app, Hs. done. Qed.

Lemma basic_mirrored P e e' : basic P e e' → wf e → mirrored e → mirrored e'.
Proof.
  unfold mirrored. intros Hb Hwf Hm. destruct Hb as [rec _|name|a|id a Ha|r|id r Hr|cmd].
  - pose proof (setTunnel_frame rec e) as (Ht & Ha & Hr & _ & ->).
    rewrite (replay_snoc _ _ _ Hm). unfold tables_of. rewrite Ht, Ha, Hr. unfold change_of. simpl.
    destruct (tunnels e !! tName rec) eqn:Ho; simpl; [|by rewrite Ho].
    case_match; simpl; by rewrite Ho.
  - pose proof (deleteTunnel_frame name e) as (Ht & Ha & Hr & _ & ->).
    unfold tables_of. rewrite Ht, Ha, Hr.
    destruct (tunnels e !! name) as [rec|] eqn:Ho.
    + rewrite (replay_snoc _ _ _ Hm). simpl. by rewrite (wf_name e Hwf _ _ Ho), Ho.
    + rewrite app_nil_r, Hm, delete_id by done. done.
  - simpl. rewrite (replay_snoc _ _ _ Hm). unfold apply_event, apply_change, tables_of; simpl.
    by destruct (agents e !! aAgentId a).
  - simpl. rewrite (replay_snoc _ _ _ Hm). simpl. by rewrite (wf_agent e Hwf _ _ Ha), Ha.
  - simpl. rewrite (replay_snoc _ _ _ Hm). unfold apply_event, apply_change, tables_of; simpl.
    by destruct (relays e !! rRelayId r).
  - simpl. rewrite (replay_snoc _ _ _ Hm). simpl. by rewrite (wf_relay e Hwf _ _ Hr), Hr.
  - simpl. by rewrite (replay_snoc _ _ _ Hm).
Qed.

(** ** Sequences of elementary changes *)

Abbreviation changes P := (rtc (basic P)).

Lemma changes_mono (P Q : Engine → TunLiveTunnel → Prop) e e' :
  (∀ e rec, P e rec → Q e rec) → changes P e e' → changes Q e e'.
Proof.
  intros HPQ. induction 1; [done|]. eapply rtc_l; [eapply basic_mono; [apply HPQ|done]|done].
Qed.

Lemma changes_wf P e e' : changes P e e' → wf e → wf e'.
Proof. induction 1; eauto using basic_wf. Qed.

Lemma changes_cfg P e e' : changes P e e' → cfg e' = cfg e.
Proof. induction 1; [done|]. etrans; [done|]. by eapply basic_cfg. Qed.

Lemma changes_mirrored P e e' : changes P e e' → wf e → mirrored e → mirrored e'.
Proof. induction 1; eauto using basic_wf, basic_mirrored. Qed.

Lemma changes_exclusive e e' :
  changes named_fits e e' → wf e → exclusive e → exclusive e'.
Proof. induction 1; eauto using basic_wf, basic_exclusive. Qed.

Lemma changes_keeps_exclusive e e' :
  changes keeps e e' → wf e → exclusive e → exclusive e'.
Proof.
  induction 1 as [|e e1 e' Hb _ IH]; [done|]. intros Hwf Hex.
  assert (basic named_fits e e1) by (eapply basic_mono; [|done]; intros; by apply keeps_fits).
  apply IH; [by eapply basic_wf|by eapply basic_exclusive].
Qed.

(** A loop of changes, with a loop invariant [I] besides well-formedness. *)
Lemma changes_foldl_inv {A} P (I : Engine → Prop) (f : Engine → A → Engine) l e :
  wf e → I e →
  (∀ e x, x ∈ l → wf e → I e → changes P e (f e x) ∧ I (f e x)) →
  changes P e (foldl f e l) ∧ I (foldl f e l).
Proof.
  intros Hwf HI Hf. revert e Hwf HI. induction l as [|x l IH]; intros e Hwf HI; [done|].
  destruct (Hf e x) as [Hc HI']; [set_solver|done..|]. simpl.
  destruct (IH ltac:(set_solver) (f e x)) as [Hc' ?]; [by eapply changes_wf|done|].
  split; [by etrans|done].
Qed.

Lemma changes_foldl {A} P (f : Engine → A → Engine) l e :
  wf e → (∀ e x, x ∈ l → wf e → changes P e (f e x)) → changes P e (foldl f e l).
Proof.
  intros Hwf Hf. apply (changes_foldl_inv P (λ _, True)); [done..|]. intros. split; [by apply Hf|done].
Qed.

(** A loop over a map whose round for an entry needs that entry still there. *)
Lemma changes_foldl_range {V} P (get : Engine → gmap string V)
    (f : Engine → string * V → Engine) (l : list (string * V)) e :
  wf e → NoDup l.*1 → (∀ id v, (id, v) ∈ l → get e !! id = Some v) →
  (∀ e id v, wf e → get e !! id = Some v →
             changes P e (f e (id, v)) ∧ ∀ id', id' ≠ id → get (f e (id, v)) !! id' = get e !! id') →
  changes P e (foldl f e l).
Proof.
  intros Hwf Hnd Hin Hf. revert e Hwf Hnd Hin. induction l as [|[id v] l IH]; intros e Hwf Hnd Hin; [done|].
  cbn in Hnd. apply NoDup_cons in Hnd as [Hni Hnd].
  destruct (Hf e id v) as [Hc Hne]; [done|apply Hin; set_solver|]. simpl.
  etrans; [exact Hc|]. apply IH; [by eapply changes_wf|done|].
  intros id' v' Hl. rewrite Hne; [apply Hin; set_solver|].
  intros ->. apply Hni. apply list_elem_of_fmap. by exists (id, v').
Qed.

(** No change, or a single elementary one that needs no side condition. *)
Ltac one_change := solve [done | apply rtc_once; constructor; done].

Lemma keeps_intro e n rec rec' :
  wf e → tunnels e !! n = Some rec → tName rec' = tName rec →
  tPublicPort rec' = tPublicPort rec → tDomains rec' = tDomains rec → keeps e rec'.
Proof. intros Hwf Hn Hname Hp Hd. exists rec. by rewrite Hname, (wf_name e Hwf _ _ Hn). Qed.

Lemma park_changes now req e : wf e → changes keeps e (park now req e).
Proof.
  intros Hwf. apply changes_foldl; [done|]. intros e' n _ Hwf'.
  destruct (tunnels e' !! n) as [rec|] eqn:Hn; [|done]. case_match; [done|].
  apply rtc_once, basic_tunnel. by eapply keeps_intro.
Qed.

Lemma release_changes P req e : wf e → changes P e (release req e).
Proof.
  intros Hwf. apply changes_foldl; [done|]. intros e' n _ Hwf'.
  destruct (tunnels e' !! n) as [rec|] eqn:Hn; [|done]. case_match; one_change.
Qed.

Lemma touchRelay_changes P now id r e : changes P e (touchRelay now id r e).
Proof. unfold touchRelay. one_change. Qed.

Lemma heartbeat_changes now req e : wf e → changes keeps e (heartbeat now req e).
Proof.
  intros Hwf. unfold heartbeat. set (e1 := touchRelay _ _ _ e).
  assert (changes keeps e e1) as H1 by apply touchRelay_changes.
  assert (wf e1) as Hwf1 by (by eapply changes_wf).
  match goal with |- changes _ _ (foldl _ ?e2 _) => assert (changes keeps e1 e2) as H2 end.
  { apply changes_foldl; [done|]. intros e' t _ Hwf'.
    destruct (tunnels e' !! tName t) as [rec|] eqn:Hn; [|done]. do 2 (case_match; [done|]).
    apply rtc_once, basic_tunnel. by eapply keeps_intro. }
  etrans; [exact H1|]. etrans; [exact H2|]. apply changes_foldl; [by eapply changes_wf|].
  intros e' a _ Hwf'. destruct (agents e' !! aAgentId a); [|done]. case_match; one_change.
Qed.

Lemma agentUp_changes P now req e : changes P e (agentUp now req e).1.
Proof. unfold agentUp. destruct (qAgent req); [|done]. do 2 (case_match; [done|]). one_change. Qed.

Lemma downAgent_changes P a reason now e : changes P e (downAgent a reason now e).
Proof. unfold downAgent. one_change. Qed.

Lemma agentDown_changes P now req e : changes P e (agentDown now req e).
Proof.
  unfold agentDown. destruct (agents e !! _); [|done]. case_match; [done|]. apply downAgent_changes.
Qed.

(** [e'] still has every tunnel of [e], with the same port and domains. *)
Definition covers (e e' : Engine) : Prop :=
  ∀ n t, tunnels e !! n = Some t →
    ∃ t', tunnels e' !! n = Some t' ∧ tPublicPort t' = tPublicPort t ∧ tDomains t' = tDomains t.

Lemma covers_refl e : covers e e.
Proof. intros n t Ht. by exists t. Qed.

Lemma covers_setTunnel e e' n rec rec' :
  wf e → covers e e' → tunnels e !! n = Some rec → tName rec' = tName rec →
  tPublicPort rec' = tPublicPort rec → tDomains rec' = tDomains rec →
  keeps e' rec' ∧ covers e (setTunnel rec' e').
Proof.
  intros Hwf Hcov Hn Hname Hp Hd. assert (tName rec' = n) as Hn' by (by rewrite Hname, (wf_name e Hwf _ _ Hn)).
  split.
  - destruct (Hcov _ _ Hn) as (t' & ? & ? & ?). exists t'. by rewrite Hn', Hp, Hd.
  - intros m t Hm. rewrite tunnels_setTunnel, Hn'. destruct (decide (m = n)) as [->|Hmn].
    + rewrite lookup_insert_eq. naive_solver.
    + rewrite lookup_insert_ne by done. by apply Hcov.
Qed.

(** The loops that change tunnels seen in a range over the table. *)
Lemma range_keeps_changes `{MapRange} (cond : string → TunLiveTunnel → bool)
    (h : TunLiveTunnel → TunLiveTunnel) e :
  wf e →
  (∀ t, tName (h t) = tName t ∧ tPublicPort (h t) = tPublicPort t ∧ tDomains (h t) = tDomains t) →
  changes keeps e (foldl (λ e '(n, t), if cond n t then setTunnel (h t) e else e) e
                         (range (tunnels e))).
Proof.
  intros Hwf Hh. apply (changes_foldl_inv keeps (covers e)); [done|apply covers_refl|].
  intros e' [n t] Hin%elem_of_range Hwf' Hcov. destruct (cond n t); [|done].
  destruct (Hh t) as (? & ? & ?).
  destruct (covers_setTunnel e e' n t (h t)) as [Hk Hc]; [done..|].
  split; [by apply rtc_once, basic_tunnel|done].
Qed.

Section sweep.
Context `{MapRange}.

Lemma lostRelay_changes now id r e : wf e → changes keeps e (lostRelay now id r e).
Proof.
  intros Hwf. unfold lostRelay. set (e1 := setRelay _ e).
  assert (changes keeps e e1) as H1 by (apply rtc_once; constructor).
  assert (wf e1) as Hwf1 by (by eapply changes_wf).
  match goal with |- changes _ _ (foldl _ ?e2 _) => assert (changes keeps e1 e2) as H2 end.
  { by apply (range_keeps_changes (λ _ t, String.eqb (tRelayId t) id && is_active t)
                (λ t, t <| tState := TUN_LIVE_STATE_GRACE |>
                        <| tGraceUntil := unix (now + Grace (cfg e1)) |> <| tActiveConns := 0%Z |>)). }
  etrans; [exact H1|]. etrans; [exact H2|]. apply changes_foldl; [by eapply changes_wf|].
  intros e' [n a] _ _. case_match; [apply downAgent_changes|done].
Qed.

Lemma relays_lostRelay now id r e id' :
  id' ≠ rRelayId r → relays (lostRelay now id r e) !! id' = relays e !! id'.
Proof.
  intros Hne. unfold lostRelay. apply (foldl_inv (λ e', relays e' !! id' = relays e !! id')).
  - apply (foldl_inv (λ e', relays e' !! id' = relays e !! id')).
    + simpl. by rewrite lookup_insert_ne.
    + intros b [? t] _ <-. case_match; [|done]. by rewrite relays_setTunnel.
  - intros b [? a] _ <-. by case_match.
Qed.

Lemma sweep_relays_changes now e :
  wf e → changes keeps e (foldl (sweep_relay now) e (range (relays e))).
Proof.
  intros Hwf. apply (changes_foldl_range keeps relays); [done|apply NoDup_range| |].
  { intros id r. by rewrite elem_of_range. }
  intros e' id r Hwf' Hr. unfold sweep_relay. case_match; [done|].
  case_match; [|case_match; [|done]].
  - split; [by apply lostRelay_changes|]. intros id' Hne. apply relays_lostRelay.
    by rewrite (wf_relay e' Hwf' _ _ Hr).
  - split; [by apply rtc_once; constructor|]. intros id' Hne. simpl. by rewrite lookup_delete_ne.
Qed.

Lemma sweep_tunnels_changes P now e l : wf e → changes P e (foldl (sweep_tunnel now) e l).
Proof.
  intros Hwf. apply changes_foldl; [done|]. intros e' [n t] _ _. unfold sweep_tunnel.
  case_match; one_change.
Qed.

Lemma sweep_agents_changes P now e :
  wf e → changes P e (foldl (sweep_agent now) e (range (agents e))).
Proof.
  intros Hwf. apply (changes_foldl_range P agents); [done|apply NoDup_range| |].
  { intros id a. by rewrite elem_of_range. }
  intros e' id a Hwf' Ha. unfold sweep_agent. case_match; [done|].
  case_match; [|case_match; [|done]].
  - split; [by apply rtc_once; constructor|]. intros id' Hne. simpl.
    rewrite lookup_insert_ne; [done|]. by rewrite (wf_agent e' Hwf' _ _ Ha).
  - split; [by apply rtc_once; constructor|]. intros id' Hne. simpl. by rewrite lookup_delete_ne.
Qed.

Lemma Sweep_changes now e : wf e → changes keeps e (Sweep now e).
Proof.
  intros Hwf. unfold Sweep. pose proof (sweep_relays_changes now e Hwf) as H1.
  set (e1 := foldl (sweep_relay now) e _) in *. assert (wf e1) as Hwf1 by (by eapply changes_wf).
  pose proof (sweep_tunnels_changes keeps now e1 (range (tunnels e1)) Hwf1) as H2.
  set (e2 := foldl (sweep_tunnel now) e1 _) in *.
  etrans; [exact H1|]. etrans; [exact H2|]. apply sweep_agents_changes. by eapply changes_wf.
Qed.

Lemma Command_changes P cmd e : changes P e (Command cmd e).1.
Proof.
  unfold Command. destruct (cKind cmd); try (by apply rtc_refl); try one_change.
  - destruct (relays e !! _); [|done]. case_match; [done|]. eapply rtc_l; [constructor|one_change].
  - destruct (relays e !! _); [|done]. case_match; [done|]. eapply rtc_l; [constructor|one_change].
  - destruct (agents e !! _); [|done]. case_match; one_change.
  - case_match; one_change.
Qed.
End sweep.

(** ** Storing several tunnels *)

(** The tunnels may be stored together: each has a name and fits the engine,
and no two of different names share a port or a domain. *)
Record batch_ok (e : Engine) (recs : list TunLiveTunnel) : Prop := {
  batch_fits r : r ∈ recs → named_fits e r;
  batch_port r r' : r ∈ recs → r' ∈ recs → tPublicPort r ≠ 0%Z →
    tPublicPort r = tPublicPort r' → tName r = tName r';
  batch_domain r r' d : r ∈ recs → r' ∈ recs → d ∈ tDomains r → d ∈ tDomains r' →
    tName r = tName r';
}.

(** A condition [J] on the tunnels still to be stored that allows each of them. *)
Class BatchInv (P : Engine → TunLiveTunnel → Prop) (J : Engine → list TunLiveTunnel → Prop) : Prop := {
  batch_head e r rs : wf e → J e (r :: rs) → P e r ∧ J (setTunnel r e) rs;
  batch_tail e r rs : J e (r :: rs) → J e rs;
  batch_relay e r rs : J e rs → J (setRelay r e) rs;
}.

#[export] Instance any_batch : BatchInv anything (λ _ _, True).
Proof. by split. Qed.

Lemma batch_ok_tail e r rs : batch_ok e (r :: rs) → batch_ok e rs.
Proof. intros [Hf Hp Hd]. split; intros; [apply Hf|eapply Hp|eapply Hd]; set_solver. Qed.

#[export] Instance fits_batch : BatchInv named_fits batch_ok.
Proof.
  split.
  - intros e r rs Hwf Hb. split; [apply Hb; set_solver|]. split; [|by apply (batch_ok_tail _ _ _ Hb)..].
    intros r' Hr'. destruct (batch_fits e _ Hb r') as [Hne [Hp Hd]]; [set_solver|].
    split; [done|]. split.
    + intros n H0. rewrite byPort_setTunnel by done. intros [(-> & ? & _)|(_ & ? & _)]; [|by apply Hp].
      symmetry. apply (batch_port e _ Hb); [set_solver..|done|done].
    + intros d n Hin. rewrite byDomain_setTunnel by done. intros [(-> & ?)|(_ & ? & _)]; [|by eapply Hd].
      symmetry. apply (batch_domain e _ Hb _ _ d); set_solver.
  - apply batch_ok_tail.
  - intros e r rs [? ? ?]. by split.
Qed.

Section batches.
Context `{MapRange} {P : Engine → TunLiveTunnel → Prop}
        {J : Engine → list TunLiveTunnel → Prop} `{!BatchInv P J}.

Lemma changes_batch e recs :
  wf e → J e recs → changes P e (foldl (λ e r, setTunnel r e) e recs).
Proof using Type*.
  intros Hwf HJ. revert e Hwf HJ. induction recs as [|r recs IH]; intros e Hwf HJ; [done|].
  destruct (batch_head e r recs Hwf HJ) as [HP HJ'].
  eapply rtc_l; [by apply basic_tunnel|]. apply IH; [|done]. by eapply (basic_wf P), Hwf; constructor.
Qed.

Lemma announce_tunnels_changes req e l :
  wf e → J e (announced req <$> l) →
  changes P e (foldl (announce_tunnel req) (e, ∅, []) l).1.1.
Proof using Type*.
  intros Hwf HJ.
  apply (foldl_rest (λ (acc : Engine * gset string * list string) l,
    changes P e acc.1.1 ∧ wf acc.1.1 ∧ J acc.1.1 (announced req <$> l))); [done|].
  intros [[e' reported] cs] t l' (Hc & Hwf' & HJ'). cbn in *. unfold announce_tunnel.
  pose proof (batch_tail _ _ _ HJ'). do 2 (case_match; [done|]). cbn.
  destruct (batch_head e' _ _ Hwf' HJ') as [HP HJ''].
  assert (basic P e' (setTunnel (announced req t) e')) as Hb by (by apply basic_tunnel).
  split_and!; [by eapply rtc_r|by eapply basic_wf|done].
Qed.

Lemma announce_changes now req e :
  wf e → J e (announced req <$> qTunnels req) →
  ∃ e1, changes P e e1 ∧ changes keeps e1 (announce now req e).1.
Proof using Type*.
  intros Hwf HJ. unfold announce. case_match; [by exists e|].
  set (e0 := match qRelay req with Some r => _ | None => e end).
  assert (changes P e e0 ∧ J e0 (announced req <$> qTunnels req)) as [Hc0 HJ0].
  { subst e0. destruct (qRelay req) as [r|]; [|done].
    split; [apply touchRelay_changes|by apply batch_relay]. }
  assert (wf e0) as Hwf0 by (by eapply changes_wf).
  pose proof (announce_tunnels_changes req e0 _ Hwf0 HJ0) as H1.
  destruct (foldl (announce_tunnel req) _ _) as [[e1 reported] cs]. cbn in *.
  exists e1. split; [by etrans|]. assert (wf e1) as Hwf1 by (by eapply changes_wf).
  pose proof (range_keeps_changes (λ n t, String.eqb (tRelayId t) (qRelayId req)
      && negb (bool_decide (n ∈ reported)) && is_active t)
    (λ t, t <| tState := TUN_LIVE_STATE_GRACE |> <| tGraceUntil := unix (now + Grace (cfg e1)) |>)
    e1 Hwf1 ltac:(done)) as H2.
  etrans; [exact H2|]. apply changes_foldl; [by eapply changes_wf|].
  intros e' a _ _. destruct (aSimulated a && _); one_change.
Qed.
End batches.

(** ** Claims *)

(** The records a granted claim stores, in the order of the request. *)
Definition claim_recs (s : Staging) (specs : list TunLiveTunnel) : list TunLiveTunnel :=
  omap (λ spec, staged s !! tName spec) specs.

Lemma claim_store s specs e recs :
  foldl (λ '(e, recs) spec,
           match staged s !! tName spec with
           | Some rec => (setTunnel rec e, recs ++ [rec])
           | None => (e, recs)
           end) (e, recs) specs =
  (foldl (λ e r, setTunnel r e) e (claim_recs s specs), recs ++ claim_recs s specs).
Proof.
  revert e recs. induction specs as [|spec specs IH]; intros e recs; cbn; [by rewrite app_nil_r|].
  destruct (staged s !! tName spec) as [rec|]; rewrite IH; [|done]. cbn. by rewrite <-app_assoc.
Qed.

(** A refusal says why; only a port search that does not end has no code. *)
Definition real_refusal (err : claim_err) : Prop :=
  err.2 ≠ MsgNone ∧ (err.1 ≠ TUN_CLAIM_ERROR_UNSPECIFIED ∨ err.2 = MsgPortLoop).
Ltac refusal := solve [split; [done|first [by left|by right]]].

(** A claim leaves the engine alone, or stores the staged records and then
tells the relays that lost a tunnel. *)
Inductive claim_result `{MapRange} (dir : Directory) (now : Z) (req : TunClaimRequest) (e : Engine)
    : Engine * TunClaimResponse → Prop :=
| claim_refused code msg :
    real_refusal (code, msg) →
    claim_result dir now req e (e, refuse code msg)
| claim_granted s :
    qTunnels req ≠ [] → qAgentId req ≠ "" → qTokenId req ≠ "" → qSessionId req ≠ "" →
    foldM (stage dir now e req) (mkStaging ∅ ∅ ∅ []) (qTunnels req) = Ok s →
    claim_result dir now req e
      (foldl (λ e old, report (CommandSent (taken_over old)) e)
             (foldl (λ e r, setTunnel r e) e (claim_recs s (qTunnels req))) (takeovers s),
       mkResponse TUN_CLAIM_ERROR_UNSPECIFIED MsgNone (claim_recs s (qTunnels req)) []).

Lemma foldM_err {E A B} (Q : E → Prop) (f : B → A → result E B) l b err :
  foldM f b l = Err err → (∀ b x err, f b x = Err err → Q err) → Q err.
Proof.
  intros Hf HQ. revert b Hf. induction l as [|x l IH]; intros b Hf; simpl in *; [done|].
  destruct (f b x) eqn:Hfx; [by eapply IH|]. simplify_eq. by eapply HQ.
Qed.

Lemma port_err e req spec holder resv rs st err :
  port e req spec holder resv rs st = Err err → real_refusal err.
Proof.
  unfold port. destruct (if (qPortMin req =? 0)%Z then _ else _) as [lo hi]. cbv zeta.
  intros Hp. case_if_in Hp; [done|]. case_if_in Hp.
  - do 2 (case_if_in Hp; [simplify_eq; refusal|]). done.
  - destruct (scan _ _ _ _) as [[]|]; simplify_eq; refusal.
Qed.

Lemma check_err `{MapRange} dir now e req spec st sp sd err :
  check dir now e req spec st sp sd = Err err → real_refusal err.
Proof.
  unfold check. intros Hc. destruct (CheckName _ _); [|simplify_eq; refusal].
  do 2 (case_if_in Hc; [simplify_eq; refusal|]).
  destruct (Decide _ _ _ _ _) as [|[]]; try (simplify_eq; refusal).
  destruct (List.find _ _); [simplify_eq; refusal|]. destruct (_ && _); [|done].
  destruct (port _ _ _ _ _ _ _) eqn:Hp; simplify_eq. by eapply port_err.
Qed.

Lemma stage_err `{MapRange} dir now e req s spec err :
  stage dir now e req s spec = Err err → real_refusal err.
Proof.
  unfold stage. intros Hs. do 2 (case_if_in Hs; [simplify_eq; refusal|]).
  destruct (check _ _ _ _ _ _ _ _) eqn:Hc; simplify_eq. by eapply check_err.
Qed.

Lemma claim_result_of `{MapRange} dir now req e : claim_result dir now req e (claim dir now req e).
Proof.
  unfold claim. destruct (qTunnels req) as [|spec specs] eqn:Hq; [apply claim_refused; refusal|].
  rewrite <-Hq. destruct (String.eqb_spec (qAgentId req) ""); [apply claim_refused; refusal|].
  destruct (String.eqb_spec (qTokenId req) ""); [apply claim_refused; refusal|].
  destruct (String.eqb_spec (qSessionId req) ""); [apply claim_refused; refusal|]. cbn [orb].
  destruct (foldM _ _ _) as [s|[code msg]] eqn:Hf.
  - rewrite claim_store. apply claim_granted; congruence.
  - apply claim_refused. apply (foldM_err real_refusal _ _ _ _ Hf). apply stage_err.
Qed.
