(* ===== verification/ClaimsSpec.v ===== *)
(** * The claims engine: what its operations promise (go/tunnel/claims)

The theorems about claims, the lifecycle operations and the sweep, and about
every engine the registry process can reach. *)

From S2P Require Import Prelude GoStrings Policy Claims ClaimsInv.
From stdpp Require Import options.
#[local] Open Scope l8_scope.
Import Rules.

(** ** Ports *)

Lemma scan_free fuel free p hi q : scan fuel free p hi = Some (Some q) → free q = true.
Proof.
  revert p. induction fuel as [|fuel IH]; intros p; simpl; case_match; try done.
  case_match; [naive_solver|]. apply IH.
Qed.

(** The lowest free port of a range, if there is one. *)
Definition lowest_free (free : Z → bool) (lo hi : Z) (r : option Z) : Prop :=
  match r with
  | Some p => (lo ≤ p ≤ hi)%Z ∧ free p = true ∧ ∀ q, (lo ≤ q < p)%Z → free q = false
  | None => ∀ q, (lo ≤ q ≤ hi)%Z → free q = false
  end.

(** With an upper bound below the largest 32-bit integer the search ends
within the length of the range. *)
Lemma scan_spec fuel free lo hi :
  (- 2 ^ 31 ≤ lo)%Z → (hi < 2 ^ 31 - 1)%Z → (hi - lo + 1 ≤ Z.of_nat fuel)%Z →
  ∃ r, scan fuel free lo hi = Some r ∧ lowest_free free lo hi r.
Proof.
  intros Hlo Hhi. revert lo Hlo. induction fuel as [|fuel IH]; intros lo Hlo Hf; simpl.
  { destruct (Z.leb_spec lo hi); [lia|]. exists None. split; [done|]. intros q ?. lia. }
  destruct (Z.leb_spec lo hi) as [Hle|Hle]; [|exists None; split; [done|intros q ?; lia]].
  destruct (free lo) eqn:Hfree; [exists (Some lo); split; [done|]; split_and!; [lia..|done|intros; lia]|].
  rewrite int32_id by (unfold is_int32; lia).
  destruct (IH (lo + 1)%Z) as (r & -> & Hr); [lia..|]. exists r. split; [done|].
  assert (∀ q, (lo ≤ q)%Z → (lo + 1 ≤ q)%Z ∨ q = lo) as Hq by lia.
  destruct r as [p|]; simpl in *.
  - destruct Hr as (? & ? & Hr). split_and!; [lia..|done|]. intros q ?.
    destruct (Hq q) as [?| ->]; [lia|apply Hr; lia|done].
  - intros q ?. destruct (Hq q) as [?| ->]; [lia|apply Hr; lia|done].
Qed.

(** The port asked for: by the agent, else by the reservation, else the one held. *)
Definition wanted_port (spec : TunLiveTunnel) (resv : option TunReservation)
    (holder : option TunLiveTunnel) : Z :=
  let r := default 0%Z (vPublicPort <$> resv) in
  let h := default 0%Z (tPublicPort <$> holder) in
  if negb (tPublicPort spec =? 0)%Z then tPublicPort spec else if negb (r =? 0)%Z then r else h.

Definition port_range (e : Engine) (req : TunClaimRequest) : Z * Z :=
  if (qPortMin req =? 0)%Z
  then (int32 (PortMin (cfgRules (cfg e))), int32 (PortMax (cfgRules (cfg e))))
  else (qPortMin req, qPortMax req).

Lemma wanted_port_eq spec resv holder :
  wanted_port spec resv holder =
  (let want := tPublicPort spec in
   let want := match resv with
               | Some r => if (want =? 0)%Z && negb (vPublicPort r =? 0)%Z then vPublicPort r else want
               | None => want
               end in
   match holder with
   | Some h => if (want =? 0)%Z && negb (tPublicPort h =? 0)%Z then tPublicPort h else want
   | None => want
   end).
Proof.
  unfold wanted_port. destruct resv as [v|], holder as [h|]; simpl;
    destruct (Z.eqb_spec (tPublicPort spec) 0); simpl;
    try destruct (Z.eqb_spec (vPublicPort v) 0); simpl;
    repeat (case_match; bool_facts); simpl in *; try done; lia.
Qed.

Lemma port_unfold e req spec holder resv rs st :
  port e req spec holder resv rs st =
  (let free := port_free e (tName spec) rs st in
   let '(lo, hi) := port_range e req in
   let want := wanted_port spec resv holder in
   let rules := cfgRules (cfg e) in
   if (want =? 0)%Z && (lo <=? tPreviousPort spec)%Z && (tPreviousPort spec <=? hi)%Z
      && free (tPreviousPort spec)
   then Ok (tPreviousPort spec)
   else if negb (want =? 0)%Z then
     refuse! (want <? int32 (PortMin rules))%Z || (int32 (PortMax rules) <? want)%Z
     with (TUN_CLAIM_ERROR_PORT_NOT_ALLOWED, MsgPortOutside want (PortMin rules) (PortMax rules)) ;;
     refuse! negb (free want) with (TUN_CLAIM_ERROR_PORT_UNAVAILABLE, MsgPortHeld want) ;;
     Ok want
   else match scan (Z.to_nat (hi - lo + 1)) free lo hi with
        | Some (Some p) => Ok p
        | Some None => Err (TUN_CLAIM_ERROR_PORT_UNAVAILABLE, MsgNoFreePort lo hi)
        | None => Err (TUN_CLAIM_ERROR_UNSPECIFIED, MsgPortLoop)
        end).
Proof.
  rewrite wanted_port_eq. reflexivity.
Qed.

Lemma port_is_free e req spec holder resv rs st p :
  port e req spec holder resv rs st = Ok p → port_free e (tName spec) rs st p = true.
Proof.
  rewrite port_unfold. cbv zeta. destruct (port_range e req) as [lo hi]. intros Hp.
  case_if_in Hp; [simplify_eq; by bool_facts|]. case_if_in Hp.
  - do 2 (case_if_in Hp; [done|]). simplify_eq. by bool_facts.
  - destruct (scan _ _ _ _) as [[q|]|] eqn:Hs; simplify_eq. by eapply scan_free.
Qed.

(** ** One tunnel of a claim *)

(** What a granted tunnel went through. *)
Record granted `{MapRange} (dir : Directory) (now : Z) (e : Engine) (req : TunClaimRequest)
    (spec : TunLiveTunnel) (st : gmap string TunLiveTunnel) (sp : gmap Z string)
    (sd : gmap string string) (rec : TunLiveTunnel) : Prop := {
  granted_rec : rec = claimed now req spec <| tPublicPort := tPublicPort rec |>;
  granted_name : CheckName (cfgRules (cfg e)) (tName spec) = Ok tt;
  granted_site : IsSiteName dir (tName spec +:+ "." +:+ BaseDomain (cfgRules (cfg e))) = false;
  granted_resv r : find_reservation (Reservations dir) (tName spec) = Some r → vTokenId r = qTokenId req;
  granted_holder : may_claim (holder_of req (tunnels e !! tName spec)) (qTokenId req) (qAgentId req);
  granted_cap : (0 < qMaxTunnels req)%Z →
    (active e (qTokenId req) (tName spec) st < qMaxTunnels req)%Z;
  granted_domain d : d ∈ tDomains spec →
    (at_ (byDomain e) d = "" ∨ at_ (byDomain e) d = tName spec) ∧ at_ sd d = "";
  granted_port :
    if hasPort (tType spec) && negb (tAccessToken spec)
    then port e req spec (tunnels e !! tName spec)
              (find_reservation (Reservations dir) (tName spec)) (Reservations dir) sp = Ok (tPublicPort rec)
    else tPublicPort rec = 0%Z;
}.

Lemma check_ok `{MapRange} dir now e req spec st sp sd rec :
  check dir now e req spec st sp sd = Ok rec → granted dir now e req spec st sp sd rec.
Proof.
  unfold check. intros Hc. destruct (CheckName _ _) as [[]|] eqn:Hname; [|done].
  case_if_in Hc; [done|]. case_if_in Hc; [done|].
  destruct (Decide _ _ _ _ _) as [d|[]] eqn:Hd; try done. apply Decide_ok in Hd as (Hh & Hcap & _).
  destruct (List.find _ _) eqn:Hf; [done|].
  pose proof (find_none _ _ Hf) as Hdom. clear Hf. simpl in Hdom.
  assert (∀ d, d ∈ tDomains spec →
    (at_ (byDomain e) d = "" ∨ at_ (byDomain e) d = tName spec) ∧ at_ sd d = "") as Hdom'.
  { intros x Hx. specialize (Hdom x Hx).
    destruct (String.eqb_spec (at_ (byDomain e) x) ""), (String.eqb_spec (at_ (byDomain e) x) (tName spec)),
      (String.eqb_spec (at_ sd x) ""); naive_solver. }
  assert (∀ r, find_reservation (Reservations dir) (tName spec) = Some r → vTokenId r = qTokenId req) as Hresv.
  { intros r Hr. rewrite Hr in Hif0. apply negb_false_iff in Hif0. by apply String.eqb_eq. }
  destruct (hasPort _ && _) eqn:Hp.
  - destruct (port _ _ _ _ _ _ _) as [p|] eqn:Hport; simplify_eq. split; try done. by rewrite Hp.
  - simplify_eq. split; try done. by rewrite Hp.
Qed.

(** ** Staging *)

(** The engine's own names are not empty, so an empty owner means no owner. *)
Lemma port_owner e p n :
  wf e → exclusive e → n ≠ "" → at_ (byPort e) p = "" ∨ at_ (byPort e) p = n →
  ∀ m, byPort e !! p = Some m → m = n.
Proof.
  intros Hwf Hex Hn Ho m Hm. unfold at_ in Ho. rewrite Hm in Ho. simpl in Ho.
  destruct Ho as [-> |?]; [|done]. destruct (wf_port e Hwf _ _ Hm) as (t & Ht & _).
  by destruct (ex_name e Hex _ Ht).
Qed.

Lemma domain_owner e d n :
  wf e → exclusive e → n ≠ "" → at_ (byDomain e) d = "" ∨ at_ (byDomain e) d = n →
  ∀ m, byDomain e !! d = Some m → m = n.
Proof.
  intros Hwf Hex Hn Ho m Hm. unfold at_ in Ho. rewrite Hm in Ho. simpl in Ho.
  destruct Ho as [-> |?]; [|done]. destruct (wf_domain e Hwf _ _ Hm) as (t & Ht & _).
  by destruct (ex_name e Hex _ Ht).
Qed.

Lemma granted_facts `{MapRange} dir now e req spec st sp sd rec :
  granted dir now e req spec st sp sd rec →
  tName rec = tName spec ∧ tDomains rec = tDomains spec ∧ tName rec ≠ "" ∧
  tState rec = TUN_LIVE_STATE_ACTIVE ∧ tTokenId rec = qTokenId req ∧
  (tPublicPort rec ≠ 0%Z → port_free e (tName spec) (Reservations dir) sp (tPublicPort rec) = true).
Proof.
  intros Hg. pose proof (granted_rec _ _ _ _ _ _ _ _ _ Hg) as Hrec.
  assert (tName spec ≠ "") as Hne.
  { eapply ValidName_nonempty, CheckName_ok, granted_name; done. }
  pose proof (granted_port _ _ _ _ _ _ _ _ _ Hg) as Hp.
  rewrite Hrec at 1 2 3 4 5. split_and!; try done. intros H0.
  destruct (_ && _); [|done]. by eapply port_is_free.
Qed.

Lemma granted_fits `{MapRange} dir now e req spec st sp sd rec :
  wf e → exclusive e → granted dir now e req spec st sp sd rec → named_fits e rec.
Proof.
  intros Hwf Hex Hg. destruct (granted_facts _ _ _ _ _ _ _ _ _ Hg) as (Hn & Hd & Hne & _ & _ & Hfree).
  split; [done|]. split.
  - intros n H0. specialize (Hfree H0). unfold port_free in Hfree. bool_facts.
    apply port_owner; [done..|]. rewrite Hn. rewrite orb_true_iff, !String.eqb_eq in H1. done.
  - intros d n Hin. apply domain_owner; [done..|]. rewrite Hn. rewrite Hd in Hin. by eapply granted_domain.
Qed.

Record staged_ok (e : Engine) (s : Staging) : Prop := {
  so_fits n r : staged s !! n = Some r → tName r = n ∧ named_fits e r;
  so_port n r : staged s !! n = Some r → tPublicPort r ≠ 0%Z → stagedPorts s !! tPublicPort r = Some n;
  so_domain n r d : staged s !! n = Some r → d ∈ tDomains r → stagedDomains s !! d = Some n;
  so_ports_named p n : stagedPorts s !! p = Some n → n ≠ "";
  so_domains_named d n : stagedDomains s !! d = Some n → n ≠ "";
}.

(** What one round of the staging loop does. *)
Inductive staged_to `{MapRange} (dir : Directory) (now : Z) (e : Engine) (req : TunClaimRequest)
    (s : Staging) (spec : TunLiveTunnel) (s' : Staging) : Prop :=
| staged_to_intro rec :
    granted dir now e req spec (staged s) (stagedPorts s) (stagedDomains s) rec →
    staged s !! tName spec = None →
    staged s' = <[tName spec := rec]> (staged s) →
    stagedPorts s' = (if negb (tPublicPort rec =? 0)%Z
                      then <[tPublicPort rec := tName spec]> (stagedPorts s) else stagedPorts s) →
    stagedDomains s' = index_domains (tName spec) (tDomains spec) (stagedDomains s) →
    takeovers s' = takeovers s ++ match tunnels e !! tName spec with
                                  | Some old => if is_active old && negb (String.eqb (tRelayId old) (qRelayId req))
                                                then [old] else []
                                  | None => []
                                  end →
    staged_to dir now e req s spec s'.

Lemma stage_ok `{MapRange} dir now e req s spec s' :
  stage dir now e req s spec = Ok s' → staged_to dir now e req s spec s'.
Proof.
  unfold stage. intros Hs. case_if_in Hs; [done|]. case_if_in Hs; [done|].
  destruct (check _ _ _ _ _ _ _ _) as [rec|] eqn:Hc; [|done]. apply check_ok in Hc.
  destruct (granted_facts _ _ _ _ _ _ _ _ _ Hc) as (Hn & Hd & _). simplify_eq.
  apply (staged_to_intro _ _ _ _ _ _ _ rec); simpl; rewrite ?Hn, ?Hd; try done.
  - apply bool_decide_eq_false_1 in Hif0. by apply eq_None_not_Some.
  - destruct (tunnels e !! tName spec) as [old|]; [|by rewrite app_nil_r].
    case_match; [done|by rewrite app_nil_r].
Qed.

Lemma staged_ok_step `{MapRange} dir now e req s spec s' :
  wf e → exclusive e → staged_ok e s → staged_to dir now e req s spec s' → staged_ok e s'.
Proof.
  intros Hwf Hex Hs [rec Hg Hnew Hst Hsp Hsd _].
  destruct (granted_facts _ _ _ _ _ _ _ _ _ Hg) as (Hn & Hd & Hne & _ & _ & Hfree).
  rewrite Hn in Hne.
  assert (tPublicPort rec ≠ 0%Z → stagedPorts s !! tPublicPort rec = None) as Hport.
  { intros H0. specialize (Hfree H0). unfold port_free in Hfree. bool_facts.
    apply at_empty; [apply (so_ports_named e s Hs)|by apply String.eqb_eq]. }
  assert (∀ d, d ∈ tDomains spec → stagedDomains s !! d = None) as Hdom.
  { intros d Hin. apply at_empty; [apply (so_domains_named e s Hs)|]. by eapply granted_domain. }
  split; rewrite ?Hst, ?Hsp, ?Hsd; setoid_rewrite lookup_insert_Some || idtac.
  - intros n r [[<- <-]|[_ Hr]]; [split; [done|by eapply granted_fits]|by apply (so_fits e s Hs)].
  - intros n r [[<- <-]|[Hnn Hr]] H0.
    + rewrite (proj2 (Z.eqb_neq _ _) H0). simpl. apply lookup_insert_eq.
    + pose proof (so_port e s Hs _ _ Hr H0) as Hp. case_match; bool_facts; [|done].
      destruct (decide (tPublicPort rec = tPublicPort r)) as [Heq|?]; [|by rewrite lookup_insert_ne].
      rewrite <-Heq, Hport in Hp by congruence. done.
  - intros n r d [[<- <-]|[Hnn Hr]] Hin; rewrite lookup_index_domains.
    + rewrite decide_True; [done|by rewrite <-Hd].
    + pose proof (so_domain e s Hs _ _ _ Hr Hin) as Hp. rewrite decide_False; [done|].
      intros Hin'. by rewrite Hdom in Hp.
  - intros p n. case_match; [|apply (so_ports_named e s Hs)]. rewrite lookup_insert_Some.
    intros [[_ <-]|[_ ?]]; [done|by eapply (so_ports_named e s Hs)].
  - intros d n. rewrite lookup_index_domains. case_decide; [by intros [= <-]|apply (so_domains_named e s Hs)].
Qed.

Lemma claim_batch_ok `{MapRange} dir now e req specs s :
  wf e → exclusive e → foldM (stage dir now e req) (mkStaging ∅ ∅ ∅ []) specs = Ok s →
  batch_ok e (claim_recs s specs).
Proof.
  intros Hwf Hex Hf. assert (staged_ok e s) as Hs.
  { apply (foldM_inv (staged_ok e) _ _ _ _ Hf).
    - split; intros *; cbn [staged stagedPorts stagedDomains]; by rewrite lookup_empty.
    - intros s1 spec s2 _ H1 H2%stage_ok. by eapply staged_ok_step. }
  assert (∀ r, r ∈ claim_recs s specs → staged s !! tName r = Some r) as Hin.
  { intros r (spec & _ & Hr)%list_elem_of_omap. by destruct (so_fits e s Hs _ _ Hr) as [-> _]. }
  split.
  - intros r Hr%Hin. by apply (so_fits e s Hs) in Hr as [_ ?].
  - intros r r' Hr%Hin Hr'%Hin H0 Heq. pose proof (so_port e s Hs _ _ Hr H0) as Hp.
    rewrite Heq in Hp, H0. rewrite (so_port e s Hs _ _ Hr' H0) in Hp. by simplify_eq.
  - intros r r' d Hr%Hin Hr'%Hin Hd Hd'. pose proof (so_domain e s Hs _ _ _ Hr Hd) as Hp.
    rewrite (so_domain e s Hs _ _ _ Hr' Hd') in Hp. by simplify_eq.
Qed.

(** ** The steps of the registry process *)

Section steps.
Context `{MapRange}.

Inductive step : Engine → Engine → Prop :=
| step_handle dir now req e : step e (Handle dir now req e).1
| step_sweep now e : step e (Sweep now e)
| step_command cmd e : step e (Command cmd e).1.

(** Steps in which an announcement (a relay reporting the tunnels it already
serves) does not contradict what other relays hold. *)
Inductive orderly_step : Engine → Engine → Prop :=
| orderly_handle dir now req e :
    (qKind req = TUN_CLAIM_KIND_ANNOUNCE → batch_ok e (announced req <$> qTunnels req)) →
    orderly_step e (Handle dir now req e).1
| orderly_sweep now e : orderly_step e (Sweep now e)
| orderly_command cmd e : orderly_step e (Command cmd e).1.

Definition reachable (c : Config) : Engine → Prop := rtc step (New c).
Definition orderly (c : Config) : Engine → Prop := rtc orderly_step (New c).

Lemma commands_changes P (f : TunLiveTunnel → TunCtlCommand) l e :
  wf e → changes P e (foldl (λ e old, report (CommandSent (f old)) e) e l).
Proof. intros Hwf. apply changes_foldl; [done|]. intros. one_change. Qed.

Lemma claim_changes {P J} `{!BatchInv P J} dir now req e :
  wf e → (∀ s, foldM (stage dir now e req) (mkStaging ∅ ∅ ∅ []) (qTunnels req) = Ok s →
               J e (claim_recs s (qTunnels req))) →
  changes P e (claim dir now req e).1.
Proof.
  intros Hwf HJ. destruct (claim_result_of dir now req e) as [|s]; [done|]. cbn.
  pose proof (changes_batch e (claim_recs s (qTunnels req)) Hwf (HJ s ltac:(done))) as Hc.
  etrans; [exact Hc|]. apply commands_changes. by eapply changes_wf.
Qed.

Lemma anything_of_keeps e e' : changes keeps e e' → changes anything e e'.
Proof. by apply changes_mono. Qed.

Lemma step_changes e e' : step e e' → wf e → changes anything e e'.
Proof.
  intros Hs Hwf. destruct Hs as [dir now req e|now e|cmd e].
  - unfold Handle. destruct (String.eqb _ _); [done|]. destruct (qKind req); simpl; try done.
    + by apply (claim_changes (J := λ _ _, True)).
    + by apply anything_of_keeps, park_changes.
    + by apply release_changes.
    + destruct (announce_changes (P := anything) (J := λ _ _, True) now req e) as (e1 & ? & ?); [done..|].
      etrans; [done|by apply anything_of_keeps].
    + by apply anything_of_keeps, heartbeat_changes.
    + apply agentUp_changes.
    + apply agentDown_changes.
  - by apply anything_of_keeps, Sweep_changes.
  - apply Command_changes.
Qed.

Lemma New_wf c : wf (New c).
Proof. split; intros *; cbn [tunnels byPort byDomain agents relays New]; by rewrite lookup_empty. Qed.

Lemma reachable_wf c e : reachable c e → wf e ∧ mirrored e.
Proof.
  intros Hr. unfold reachable in Hr.
  assert (wf (New c) ∧ mirrored (New c)) as Hi by (split; [apply New_wf|done]). revert Hr Hi.
  induction 1 as [|e1 e2 e3 Hs _ IH]; [done|]. intros [Hwf Hm]. apply IH.
  pose proof (step_changes _ _ Hs Hwf) as Hc.
  split; [by eapply changes_wf|by eapply changes_mirrored].
Qed.

Lemma orderly_step_step e e' : orderly_step e e' → step e e'.
Proof. intros []; constructor. Qed.

Lemma orderly_reachable c e : orderly c e → reachable c e.
Proof. intros Ho. eapply rtc_subrel; [|exact Ho]. intros ??. apply orderly_step_step. Qed.

Lemma orderly_step_exclusive e e' : orderly_step e e' → wf e → exclusive e → exclusive e'.
Proof.
  intros Hs Hwf Hex.
  assert (changes keeps e e' → exclusive e') as Hkeeps by (intros; by eapply changes_keeps_exclusive).
  destruct Hs as [dir now req e Hann|now e|cmd e].
  - unfold Handle in *. destruct (String.eqb _ _); [done|]. destruct (qKind req); simpl in *; try done.
    + eapply (changes_exclusive e); [|done..].
      apply (claim_changes (J := batch_ok)); [done|]. intros s. by apply claim_batch_ok.
    + by apply Hkeeps, park_changes.
    + by apply Hkeeps, release_changes.
    + destruct (announce_changes (P := named_fits) (J := batch_ok) now req e) as (e1 & H1 & H2); [by auto..|].
      eapply changes_keeps_exclusive; [exact H2|by eapply changes_wf|by eapply changes_exclusive].
    + by apply Hkeeps, heartbeat_changes.
    + apply Hkeeps, agentUp_changes.
    + apply Hkeeps, agentDown_changes.
  - by apply Hkeeps, Sweep_changes.
  - apply Hkeeps, Command_changes.
Qed.

Lemma orderly_exclusive c e : orderly c e → wf e ∧ exclusive e.
Proof.
  intros Hr. unfold orderly in Hr.
  assert (wf (New c) ∧ exclusive (New c)) as Hi.
  { split; [apply New_wf|]. split; intros *; cbn [tunnels New]; by rewrite lookup_empty. }
  revert Hr Hi. induction 1 as [|e1 e2 e3 Hs _ IH]; [done|]. intros [Hwf Hex]. apply IH.
  split; [|by eapply orderly_step_exclusive].
  eapply changes_wf; [|done]. eapply step_changes; [by apply orderly_step_step|done].
Qed.
End steps.

(** ** Granted claims *)

Lemma foldM_prefix {E A B} (Q : B → list A → Prop) (f : B → A → result E B) l b b' :
  foldM f b l = Ok b' → Q b [] →
  (∀ b l x b', Q b l → f b x = Ok b' → Q b' (l ++ [x])) → Q b' l.
Proof.
  intros Hf Hb Hstep. change l with ([] ++ l). revert b Hb Hf. generalize (@nil A) as k.
  induction l as [|x l IH]; intros k b Hb Hf; simpl in *.
  { simplify_eq. by rewrite app_nil_r. }
  destruct (f b x) as [b1|] eqn:Hx; [|done]. rewrite cons_middle, app_assoc. by eapply IH; [eapply Hstep|].
Qed.

(** The token's connected tunnels. *)
Definition connected (tok : string) (t : TunLiveTunnel) : bool :=
  String.eqb (tTokenId t) tok && is_active t.
Definition active_names (e : Engine) (tok : string) : list string :=
  (filter (λ p, connected tok p.2 = true) (map_to_list (tunnels e))).*1.

Lemma elem_of_active_names e tok n :
  n ∈ active_names e tok ↔ ∃ t, tunnels e !! n = Some t ∧ connected tok t = true.
Proof.
  unfold active_names. rewrite list_elem_of_fmap. setoid_rewrite list_elem_of_filter. split.
  - intros ([m t] & -> & Hc & Hin%elem_of_map_to_list). by exists t.
  - intros (t & Ht & Hc). exists (n, t). by rewrite elem_of_map_to_list.
Qed.

Lemma NoDup_active_names e tok : NoDup (active_names e tok).
Proof.
  unfold active_names. generalize (NoDup_fst_map_to_list (tunnels e)).
  induction (map_to_list (tunnels e)) as [|[n t] l IH]; [done|].
  rewrite fmap_cons. intros [Hn Hnd]%NoDup_cons. rewrite filter_cons. case_decide; [|by apply IH].
  rewrite fmap_cons. apply NoDup_cons. split; [|by apply IH]. contradict Hn.
  apply list_elem_of_fmap in Hn as (p & -> & [_ Hp]%list_elem_of_filter). apply list_elem_of_fmap. by exists p.
Qed.

(** The names of the token's connected tunnels that the claim does not touch. *)
Definition others (e : Engine) (tok : string) (st : gmap string TunLiveTunnel) : list string :=
  filter (λ n, st !! n = None) (active_names e tok).

Lemma foldl_count_filter {A} (f : A → bool) l k :
  foldl (λ n x, if f x then (n + 1)%Z else n) k l = (k + Z.of_nat (length (filter (λ x, f x = true) l)))%Z.
Proof.
  rewrite (foldl_count f) by done. do 2 f_equal. induction l as [|x l IH]; [done|].
  rewrite filter_cons. cbn. destruct (f x); cbn; by rewrite IH.
Qed.

(** The count the cap is compared with, once the claimed name is staged too. *)
Lemma active_others `{MapRange} e tok name st rec :
  wf e → st !! name = None →
  (active e tok name st + 1 = Z.of_nat (length (others e tok (<[name := rec]> st)))
                              + Z.of_nat (size (<[name := rec]> st)))%Z.
Proof.
  intros Hwf Hst. unfold active. rewrite map_size_insert_None by done.
  set (f := λ p : string * TunLiveTunnel, String.eqb (tTokenId p.2) tok
     && negb (String.eqb (tName p.2) name) && is_active p.2 && bool_decide (st !! tName p.2 = None)).
  assert (foldl (λ n '(_, t), if String.eqb (tTokenId t) tok && negb (String.eqb (tName t) name)
                && is_active t && bool_decide (st !! tName t = None) then (n + 1)%Z else n)
            0%Z (range (tunnels e)) =
          Z.of_nat (length (filter (λ p, f p = true) (map_to_list (tunnels e))))) as ->.
  { rewrite <-(range_perm (tunnels e)). rewrite <-Z.add_0_l, <-foldl_count_filter.
    generalize 0%Z. induction (range (tunnels e)) as [|[n t] l IH]; intros k; [done|]. cbn. by rewrite IH. }
  assert (length (others e tok (<[name:=rec]> st)) = length (filter (λ p, f p = true) (map_to_list (tunnels e)))) as ->.
  { unfold others, active_names.
    assert (∀ p, p ∈ map_to_list (tunnels e) → tName p.2 = p.1) as Hkey.
    { intros [n t] Hin%elem_of_map_to_list. by apply (wf_name e Hwf). }
    induction (map_to_list (tunnels e)) as [|[n t] l IH]; [done|].
    specialize (IH ltac:(set_solver)). pose proof (Hkey (n, t) ltac:(set_solver)) as Hn. simpl in Hn.
    rewrite !filter_cons. subst f. simpl in *. rewrite Hn. unfold connected in *.
    destruct (String.eqb_spec (tTokenId t) tok); simpl; [|done].
    destruct (is_active t); simpl; [|by rewrite andb_false_r].
    rewrite filter_cons. destruct (String.eqb_spec n name) as [->|Hne]; simpl.
    - rewrite lookup_insert_eq. by rewrite decide_False.
    - rewrite lookup_insert_ne by done. destruct (decide (st !! n = None)) as [Hs|Hs].
      + rewrite bool_decide_true by done. simpl. f_equal. exact IH.
      + by rewrite bool_decide_false. }
  lia.
Qed.

(** The result of the staging loop. *)
Record staging_result `{MapRange} (dir : Directory) (now : Z) (e : Engine) (req : TunClaimRequest)
    (s : Staging) (specs : list TunLiveTunnel) : Prop := {
  sr_granted spec : spec ∈ specs → ∃ rec st sp sd,
    granted dir now e req spec st sp sd rec ∧ staged s !! tName spec = Some rec;
  sr_staged n rec : staged s !! n = Some rec →
    tName rec = n ∧ (∃ spec, spec ∈ specs ∧ rec = claimed now req spec <| tPublicPort := tPublicPort rec |>);
  sr_nodup : NoDup (tName <$> specs);
  sr_cap : specs ≠ [] → wf e → (0 < qMaxTunnels req)%Z →
    (Z.of_nat (length (others e (qTokenId req) (staged s))) + Z.of_nat (size (staged s)) ≤ qMaxTunnels req)%Z;
}.

Lemma staging_result_of `{MapRange} dir now e req s :
  foldM (stage dir now e req) (mkStaging ∅ ∅ ∅ []) (qTunnels req) = Ok s →
  staging_result dir now e req s (qTunnels req).
Proof.
  intros Hf. eapply (foldM_prefix (staging_result dir now e req)); [exact Hf| |].
  { split; [by intros ? ?%elem_of_nil|by intros *; cbn [staged]; rewrite lookup_empty|constructor|done]. }
  intros s1 l spec s2 Hs Hst%stage_ok. destruct Hst as [rec Hg Hnew Hstg _ _ _].
  destruct (granted_facts _ _ _ _ _ _ _ _ _ Hg) as (Hn & _).
  assert (∀ x, x ∈ l → tName x ≠ tName spec) as Hfresh.
  { intros x Hx Heq. destruct (sr_granted _ _ _ _ _ _ Hs x Hx) as (r & ? & ? & ? & _ & Hr). congruence. }
  split; rewrite ?Hstg.
  - intros x [Hx| ->%list_elem_of_singleton]%elem_of_app.
    + destruct (sr_granted _ _ _ _ _ _ Hs x Hx) as (r & st & sp & sd & ? & ?). exists r, st, sp, sd.
      split; [done|]. rewrite lookup_insert_ne; [done|]. intros ?. by apply (Hfresh x).
    + eexists rec, _, _, _. split; [exact Hg|apply lookup_insert_eq].
  - intros n r. rewrite lookup_insert_Some. intros [[<- <-]|[_ Hr]].
    + split; [done|]. exists spec. split; [set_solver|apply Hg].
    + destruct (sr_staged _ _ _ _ _ _ Hs _ _ Hr) as (? & x & ? & ?). split; [done|]. exists x. set_solver.
  - rewrite fmap_app. apply NoDup_app. split_and!; [apply Hs| |apply NoDup_singleton].
    intros x Hx. change (x ∉ [tName spec]). rewrite list_elem_of_singleton. intros ->.
    apply list_elem_of_fmap in Hx as (y & Hy & ?). by apply (Hfresh y).
  - intros _ Hwf H0. rewrite <-active_others by done. apply Hg in H0. lia.
Qed.

Lemma tunnels_foldl_set recs e n :
  tunnels (foldl (λ e r, setTunnel r e) e recs) !! n =
  match List.find (λ r, String.eqb (tName r) n) (reverse recs) with
  | Some r => Some r
  | None => tunnels e !! n
  end.
Proof.
  induction recs as [|r recs IH] using rev_ind; [done|].
  rewrite foldl_snoc, reverse_snoc, tunnels_setTunnel. simpl.
  destruct (String.eqb_spec (tName r) n) as [<-|Hne]; [apply lookup_insert_eq|].
  by rewrite lookup_insert_ne.
Qed.

Lemma foldl_set_lookup recs e n :
  NoDup (tName <$> recs) →
  (∀ r, r ∈ recs → tName r = n → tunnels (foldl (λ e r, setTunnel r e) e recs) !! n = Some r) ∧
  (n ∉ tName <$> recs → tunnels (foldl (λ e r, setTunnel r e) e recs) !! n = tunnels e !! n).
Proof.
  rewrite tunnels_foldl_set. intros Hnd. destruct (List.find _ _) as [r'|] eqn:Hf.
  - apply List.find_some in Hf as [Hin Hn]. rewrite <-list_elem_of_In, elem_of_reverse in Hin.
    apply String.eqb_eq in Hn. split.
    + intros r Hr Hrn. f_equal. apply list_elem_of_lookup in Hin as [i Hi], Hr as [j Hj].
      assert (i = j) as ->.
      { by apply (NoDup_lookup (tName <$> recs) i j n Hnd); rewrite list_lookup_fmap, ?Hi, ?Hj; simpl; f_equal. }
      congruence.
    + intros Hni. destruct Hni. apply list_elem_of_fmap. by exists r'.
  - split; [|done]. intros r Hr Hrn.
    pose proof (find_none _ _ Hf r) as Hx. rewrite elem_of_reverse in Hx. specialize (Hx Hr).
    by apply String.eqb_neq in Hx.
Qed.

Lemma commands_frame (f : TunLiveTunnel → TunCtlCommand) l e :
  let e' := foldl (λ e old, report (CommandSent (f old)) e) e l in
  tunnels e' = tunnels e ∧ agents e' = agents e ∧ relays e' = relays e ∧ byPort e' = byPort e.
Proof.
  cbv zeta. apply (foldl_inv (λ e', tunnels e' = tunnels e ∧ agents e' = agents e ∧ relays e' = relays e
    ∧ byPort e' = byPort e)); [done|]. by intros b x _ (<- & <- & <- & <-).
Qed.

Lemma foldl_set_frame recs e :
  agents (foldl (λ e r, setTunnel r e) e recs) = agents e ∧
  relays (foldl (λ e r, setTunnel r e) e recs) = relays e.
Proof.
  apply (foldl_inv (λ e', agents e' = agents e ∧ relays e' = relays e)); [done|].
  intros b x _ [<- <-]. by destruct (setTunnel_frame x b) as (_ & -> & -> & _).
Qed.

Lemma claim_recs_names `{MapRange} dir now e req s specs :
  staging_result dir now e req s specs → tName <$> claim_recs s specs = tName <$> specs.
Proof.
  intros Hs. assert (∀ spec, spec ∈ specs → ∃ r, staged s !! tName spec = Some r ∧ tName r = tName spec) as Hr.
  { intros spec Hin. destruct (sr_granted _ _ _ _ _ _ Hs _ Hin) as (r & ? & ? & ? & _ & Hl).
    exists r. split; [done|]. by destruct (sr_staged _ _ _ _ _ _ Hs _ _ Hl). }
  clear Hs. induction specs as [|spec specs IH]; [done|].
  destruct (Hr spec) as (r & Hl & Hn); [set_solver|]. unfold claim_recs in *. cbn [omap list_omap].
  rewrite Hl. rewrite !fmap_cons, Hn. f_equal. apply IH. set_solver.
Qed.

Lemma claim_recs_elem `{MapRange} dir now e req s specs r :
  staging_result dir now e req s specs → r ∈ claim_recs s specs →
  ∃ spec, spec ∈ specs ∧ r = claimed now req spec <| tPublicPort := tPublicPort r |>.
Proof.
  intros Hs (spec & _ & Hr)%list_elem_of_omap. by destruct (sr_staged _ _ _ _ _ _ Hs _ _ Hr).
Qed.

Lemma claim_recs_stored `{MapRange} dir now e req s r :
  staging_result dir now e req s (qTunnels req) → r ∈ claim_recs s (qTunnels req) →
  tunnels (foldl (λ e r, setTunnel r e) e (claim_recs s (qTunnels req))) !! tName r = Some r ∧
  ∃ spec, spec ∈ qTunnels req ∧ r = claimed now req spec <| tPublicPort := tPublicPort r |>.
Proof.
  intros Hf Hr. split; [|by eapply claim_recs_elem].
  destruct (foldl_set_lookup (claim_recs s (qTunnels req)) e (tName r)) as [Hl _]; [|by apply Hl].
  rewrite (claim_recs_names _ _ _ _ _ _ Hf). by eapply sr_nodup.
Qed.

(** A granted claim, as the properties below see it. *)
Lemma claim_granted_inv `{MapRange} dir now req e e' resp :
  claim dir now req e = (e', resp) → pMessage resp = MsgNone →
  ∃ s, staging_result dir now e req s (qTunnels req) ∧ qTunnels req ≠ [] ∧
       tunnels e' = tunnels (foldl (λ e r, setTunnel r e) e (claim_recs s (qTunnels req))) ∧
       pTunnels resp = claim_recs s (qTunnels req).
Proof.
  intros Hc Hm. pose proof (claim_result_of dir now req e) as Hres. rewrite Hc in Hres.
  inversion Hres as [code msg Hr Heq|s Hne ? ? ? Hf Heq]; subst.
  - by destruct Hr.
  - exists s. split; [by apply staging_result_of|]. split; [done|]. split; [|done].
    apply commands_frame.
Qed.

(** ** Theorems: claims *)

(** C3: a claim registers every tunnel of the request or none. A refused
claim (it says why) leaves the engine exactly as it was; a granted one answers with one record per
requested tunnel, stores exactly these under their names (each connected, with
the request's relay, agent, token and session), and touches no other tunnel,
agent or relay. *)
Theorem claim_all_or_nothing `{MapRange} dir now req e :
  let '(e', resp) := claim dir now req e in
  (pMessage resp ≠ MsgNone ∧ e' = e ∧ pTunnels resp = []) ∨
  (pMessage resp = MsgNone ∧ pError resp = TUN_CLAIM_ERROR_UNSPECIFIED ∧
   tName <$> pTunnels resp = tName <$> qTunnels req ∧ NoDup (tName <$> qTunnels req) ∧
   (∀ r, r ∈ pTunnels resp →
      tunnels e' !! tName r = Some r ∧ tState r = TUN_LIVE_STATE_ACTIVE ∧ tRelayId r = qRelayId req ∧
      tAgentId r = qAgentId req ∧ tTokenId r = qTokenId req ∧ tSessionId r = qSessionId req) ∧
   (∀ n, n ∉ tName <$> qTunnels req → tunnels e' !! n = tunnels e !! n) ∧
   agents e' = agents e ∧ relays e' = relays e).
Proof.
  destruct (claim_result_of dir now req e) as [code msg [Hm _]|s Hne Ha Ht Hs Hf]; [by left|right].
  apply staging_result_of in Hf. cbn. split_and!; try done.
  - by eapply claim_recs_names.
  - by eapply sr_nodup.
  - intros r Hr. rewrite (proj1 (commands_frame _ _ _)).
    destruct (claim_recs_stored _ _ _ _ _ r Hf Hr) as [-> (spec & _ & ->)]. done.
  - intros n Hn. rewrite (proj1 (commands_frame _ _ _)).
    pose proof (claim_recs_names _ _ _ _ _ _ Hf) as Hnames.
    apply foldl_set_lookup; rewrite Hnames; [by eapply sr_nodup|done].
  - destruct (commands_frame taken_over (takeovers s) (foldl (λ e r, setTunnel r e) e (claim_recs s (qTunnels req))))
      as (_ & -> & _). apply foldl_set_frame.
  - destruct (commands_frame taken_over (takeovers s) (foldl (λ e r, setTunnel r e) e (claim_recs s (qTunnels req))))
      as (_ & _ & -> & _). apply foldl_set_frame.
Qed.

(** ** Reservations in a list *)

Lemma find_reservation_in l n r0 :
  let f := λ resv r, if String.eqb (vName r) n then Some r else resv in
  match foldl f r0 l with
  | Some r => (r ∈ l ∧ vName r = n) ∨ r0 = Some r ∧ ∀ r', r' ∈ l → vName r' ≠ n
  | None => r0 = None ∧ ∀ r', r' ∈ l → vName r' ≠ n
  end.
Proof.
  intros f. revert r0. induction l as [|x l IH]; intros r0; cbn [foldl].
  { destruct r0; [right|]; (split; [done|by intros ? ?%elem_of_nil]). }
  specialize (IH (f r0 x)). assert (f r0 x = if String.eqb (vName x) n then Some x else r0) as Hf by done. revert Hf IH.
  generalize (f r0 x) as y. intros y. destruct (String.eqb_spec (vName x) n) as [Hx|Hx], (foldl f y l) as [r|]; intros -> IH.
  - destruct IH as [[? ?]|[[= <-] _]]; left; (split; [|done]); [by right|by left].
  - by destruct IH.
  - destruct IH as [[? ?]|[Hr Hall]]; [left; split; [by right|done]|right]. split; [done|]. intros r' [->|?]%elem_of_cons; auto.
  - destruct IH as [Hr Hall]. split; [done|]. intros r' [->|?]%elem_of_cons; auto.
Qed.

Lemma find_reservation_named l n r : find_reservation l n = Some r → r ∈ l ∧ vName r = n.
Proof.
  intros Hf. pose proof (find_reservation_in l n None) as Hx. cbn zeta in Hx. unfold find_reservation in Hf. rewrite Hf in Hx.
  by destruct Hx as [?|[? _]].
Qed.
Lemma find_reservation_total l n r : r ∈ l → vName r = n → is_Some (find_reservation l n).
Proof.
  intros Hin Hn. pose proof (find_reservation_in l n None) as Hx. cbn zeta in Hx. unfold find_reservation.
  destruct (foldl _ None l); [done|]. destruct Hx as [_ Hx]. by destruct (Hx r Hin).
Qed.

(** With one reservation per name, it is the one that is found. *)
Lemma find_reservation_unique l r : NoDup (vName <$> l) → r ∈ l → find_reservation l (vName r) = Some r.
Proof.
  intros Hnd Hin. destruct (find_reservation_total l (vName r) r Hin eq_refl) as [v Hv]. rewrite Hv. f_equal.
  apply find_reservation_named in Hv as [Hvin Hvn]. apply list_elem_of_lookup_1 in Hin as [i Hi], Hvin as [j Hj].
  assert (i = j) as ->; [|congruence].
  eapply (NoDup_lookup _ _ _ (vName r) Hnd); rewrite list_lookup_fmap; [by rewrite Hi|by rewrite Hj; cbn; rewrite Hvn].
Qed.

(** C4: a granted claim takes nothing from anybody: every name it got was
valid, not reserved for the relay, not the name of an edge site and not
reserved for another token (where several reservations have the name, the last
of the list counts), and if the name was held, then by the claiming
token, and either parked or served by another session of the same agent. *)
Theorem claim_takes_nothing `{MapRange} dir now req e e' resp spec :
  claim dir now req e = (e', resp) → pMessage resp = MsgNone → spec ∈ qTunnels req →
  ValidName (tName spec) = true ∧ IsReserved (cfgRules (cfg e)) (tName spec) = false ∧
  IsSiteName dir (tName spec +:+ "." +:+ BaseDomain (cfgRules (cfg e))) = false ∧
  (∀ v, find_reservation (Reservations dir) (tName spec) = Some v → vTokenId v = qTokenId req) ∧
  (NoDup (vName <$> Reservations dir) → ∀ v, v ∈ Reservations dir → vName v = tName spec → vTokenId v = qTokenId req) ∧
  (∀ old, tunnels e !! tName spec = Some old →
     tTokenId old = qTokenId req ∧
     (tState old = TUN_LIVE_STATE_ACTIVE → tAgentId old = qAgentId req ∧ tSessionId old ≠ qSessionId req)).
Proof.
  intros Hc Hm Hin. destruct (claim_granted_inv _ _ _ _ _ _ Hc Hm) as (s & Hs & _).
  destruct (sr_granted _ _ _ _ _ _ Hs _ Hin) as (rec & st & sp & sd & Hg & _).
  destruct (proj1 (CheckName_ok _ _) (granted_name _ _ _ _ _ _ _ _ _ Hg)) as [? ?].
  split_and!; [done|done|by apply Hg|by apply Hg| |].
  { intros Hnd v Hv Hn. apply (granted_resv _ _ _ _ _ _ _ _ _ Hg). rewrite <-Hn. by apply find_reservation_unique. }
  intros old Hold. pose proof (granted_holder _ _ _ _ _ _ _ _ _ Hg) as Hh. rewrite Hold in Hh.
  destruct Hh as [? Hh]. split; [done|]. intros Hst. simpl in Hh. unfold is_active in Hh.
  rewrite Hst in Hh. destruct (Hh eq_refl) as [? ?%String.eqb_neq]. done.
Qed.

(** C12: no claim takes a token over its cap: after a granted claim with a cap,
the token has at most that many connected tunnels in the whole cluster. *)
Theorem claim_within_cap `{MapRange} dir now req e e' resp :
  wf e → claim dir now req e = (e', resp) → pMessage resp = MsgNone → (0 < qMaxTunnels req)%Z →
  (Z.of_nat (length (active_names e' (qTokenId req))) ≤ qMaxTunnels req)%Z.
Proof.
  intros Hwf Hc Hm H0. destruct (claim_granted_inv _ _ _ _ _ _ Hc Hm) as (s & Hs & Hne & Ht & _).
  etrans; [|by eapply (sr_cap _ _ _ _ _ _ Hs)].
  assert (active_names e' (qTokenId req) ⊆+ others e (qTokenId req) (staged s) ++ elements (dom (staged s))) as Hsub.
  { apply NoDup_submseteq; [apply NoDup_active_names|]. intros n (t & Hn & Hc')%elem_of_active_names.
    rewrite elem_of_app, elem_of_elements, elem_of_dom. destruct (staged s !! n) as [r|] eqn:Hr; [by right; eauto|].
    left. apply list_elem_of_filter. split; [done|]. apply elem_of_active_names. exists t. split; [|done].
    rewrite Ht in Hn. pose proof (claim_recs_names _ _ _ _ _ _ Hs) as Hnames.
    destruct (foldl_set_lookup (claim_recs s (qTunnels req)) e n) as [_ Hl].
    { rewrite Hnames. apply Hs. }
    rewrite <-Hl; [done|]. rewrite Hnames. intros (spec & -> & Hin)%list_elem_of_fmap.
    destruct (sr_granted _ _ _ _ _ _ Hs _ Hin) as (? & ? & ? & ? & _ & ?). congruence. }
  apply submseteq_length in Hsub. rewrite length_app in Hsub.
  assert (length (elements (dom (staged s))) = size (staged s)) as Hsz by apply size_dom. lia.
Qed.

(** which public port a claim gets. A port asked for (by the agent, else
by the name's reservation, else the one the name holds) is given iff it is in
the relay's range and free, and refused otherwise; with none asked for, the
port the tunnel had before is given if it is in the token's range and free,
else the lowest free port of the range; there is no port only if none of the
range is free, and the search always ends. *)
Theorem port_spec e req spec holder resv rs st :
  let free := port_free e (tName spec) rs st in
  let rules := cfgRules (cfg e) in
  let '(lo, hi) := port_range e req in
  let want := wanted_port spec resv holder in
  (- 2 ^ 31 ≤ lo)%Z → (hi < 2 ^ 31 - 1)%Z →
  match port e req spec holder resv rs st with
  | Ok p =>
      free p = true ∧
      (want ≠ 0%Z → p = want ∧ (int32 (PortMin rules) ≤ p ≤ int32 (PortMax rules))%Z) ∧
      (want = 0%Z → (lo ≤ p ≤ hi)%Z ∧ (p = tPreviousPort spec ∨ lowest_free free lo hi (Some p)))
  | Err (TUN_CLAIM_ERROR_PORT_NOT_ALLOWED, _) =>
      want ≠ 0%Z ∧ ¬ (int32 (PortMin rules) ≤ want ≤ int32 (PortMax rules))%Z
  | Err (TUN_CLAIM_ERROR_PORT_UNAVAILABLE, _) =>
      (want ≠ 0%Z ∧ free want = false) ∨ (want = 0%Z ∧ lowest_free free lo hi None)
  | Err _ => False
  end.
Proof.
  cbv zeta. rewrite port_unfold. cbv zeta. destruct (port_range e req) as [lo hi]. intros Hlo Hhi.
  set (want := wanted_port spec resv holder). destruct (_ && _ && _ && _) eqn:Hprev.
  { bool_facts. split_and!; [done|lia|]. intros _. split; [lia|by left]. }
  clear Hprev. destruct (Z.eqb_spec want 0) as [Hw|Hw]; simpl.
  - destruct (scan_spec (Z.to_nat (hi - lo + 1)) (port_free e (tName spec) rs st) lo hi) as ([p|] & -> & Hl);
      [lia..| |].
    + pose proof Hl as (? & ? & _). split_and!; [done|lia|]. intros _. split; [lia|by right].
    + right. by split.
  - destruct (Z.ltb_spec want (int32 (PortMin (cfgRules (cfg e)))));
      destruct (Z.ltb_spec (int32 (PortMax (cfgRules (cfg e)))) want); simpl; try (split; [done|lia]).
    destruct (port_free _ _ _ _ want) eqn:Hf; simpl; [|by left]. split_and!; [done|intros _; lia|lia].
Qed.
