(* ===== verification/ClaimsLife.v ===== *)
(** * The claims engine over time (go/tunnel/claims/lifecycle.go, sweep.go)

Parking, releasing, announcing and sweeping tunnels, and what holds in every
engine the registry process can reach. *)

From S2P Require Import Prelude GoStrings Policy Claims ClaimsInv ClaimsSpec.
From stdpp Require Import options.
#[local] Open Scope l8_scope.
Import Rules.

(** ** Park and release *)

(** A loop over names whose round changes only the tunnel of that name. *)
Lemma foldl_names (f : Engine → string → Engine) (g : option TunLiveTunnel → option TunLiveTunnel) l e n :
  wf e → (∀ o, g (g o) = g o) →
  (∀ e m, wf e → wf (f e m) ∧ tunnels (f e m) !! m = g (tunnels e !! m)) →
  (∀ e m m', wf e → m' ≠ m → tunnels (f e m) !! m' = tunnels e !! m') →
  tunnels (foldl f e l) !! n = if bool_decide (n ∈ l) then g (tunnels e !! n) else tunnels e !! n.
Proof.
  intros Hwf Hg Hm Hne. revert e Hwf. induction l as [|m l IH]; intros e Hwf; [done|].
  simpl. destruct (Hm e m Hwf) as [Hwf' Hlm]. rewrite IH by done.
  destruct (decide (n = m)) as [->|Hnm].
  - rewrite Hlm, (bool_decide_true (m ∈ m :: l)) by set_solver. case_match; [apply Hg|done].
  - rewrite Hne by done. destruct (decide (n ∈ l)).
    + rewrite !bool_decide_true by set_solver. done.
    + rewrite !bool_decide_false by set_solver. done.
Qed.

Definition parked (until : Z) (t : TunLiveTunnel) : TunLiveTunnel :=
  t <| tState := TUN_LIVE_STATE_GRACE |> <| tGraceUntil := until |> <| tActiveConns := 0%Z |>.

Definition park_until (now : Z) (req : TunClaimRequest) (e : Engine) : Z :=
  if (qGraceUntil req =? 0)%Z then unix (now + Grace (cfg e)) else qGraceUntil req.

(** parking changes exactly the named tunnels that are still this relay's
(and this session's, when one is given): they are held for the grace period.
A tunnel that another relay or session took over meanwhile keeps its record,
and so does every tunnel not named. *)
Theorem park_spec now req e n :
  wf e →
  tunnels (park now req e) !! n =
  (λ t, if bool_decide (n ∈ qNames req) && owned_by req t
        then parked (park_until now req e) t else t) <$> tunnels e !! n.
Proof.
  intros Hwf. unfold park.
  rewrite (foldl_names _ (fmap (λ t, if owned_by req t then parked (park_until now req e) t else t)) _ _ _ Hwf).
  - destruct (tunnels e !! n) as [t|]; simpl; [|by case_match]. by case_match.
  - intros [t|]; [|done]. simpl. destruct (owned_by req t) eqn:Ho; [|by rewrite Ho].
    assert (owned_by req (parked (park_until now req e) t) = true) as -> by exact Ho. done.
  - intros e' m Hwf'. destruct (tunnels e' !! m) as [t|] eqn:Ht; [|by rewrite Ht].
    cbn [fmap option_fmap option_map]. destruct (owned_by req t); cbn [negb]; [|by rewrite Ht]. split.
    + eapply (basic_wf anything), Hwf'. by constructor.
    + rewrite tunnels_setTunnel. simpl. rewrite (wf_name e' Hwf' _ _ Ht). apply lookup_insert_eq.
  - intros e' m m' Hwf' Hne. destruct (tunnels e' !! m) as [t|] eqn:Ht; [|done].
    destruct (owned_by req t); cbn [negb]; [|done].
    rewrite tunnels_setTunnel. simpl. rewrite (wf_name e' Hwf' _ _ Ht). by apply lookup_insert_ne.
Qed.

(** releasing deletes exactly the named tunnels that are still this
relay's (and this session's, when one is given), and frees their ports and
domains; every other tunnel keeps its record. *)
Theorem release_spec req e n :
  wf e →
  let e' := release req e in
  tunnels e' !! n = (t ← tunnels e !! n; if bool_decide (n ∈ qNames req) && owned_by req t
                                         then None else Some t) ∧
  (tunnels e' !! n = None → ∀ p, byPort e' !! p ≠ Some n) ∧
  (tunnels e' !! n = None → ∀ d, byDomain e' !! d ≠ Some n).
Proof.
  intros Hwf e'. assert (wf e') as Hwf'.
  { eapply (changes_wf anything), Hwf. by apply release_changes. }
  split_and!.
  - subst e'. unfold release.
    rewrite (foldl_names _ (λ o, t ← o; if owned_by req t then None else Some t) _ _ _ Hwf).
    + destruct (tunnels e !! n) as [t|]; simpl; [|by case_match]. by case_match.
    + intros [t|]; [|done]. simpl. destruct (owned_by req t) eqn:Ho; simpl; [done|by rewrite Ho].
    + intros e1 m Hwf1. destruct (tunnels e1 !! m) as [t|] eqn:Ht; [|by rewrite Ht].
      cbn [mbind option_bind]. destruct (owned_by req t); [|by rewrite Ht]. split.
      * eapply (basic_wf anything), Hwf1. by constructor.
      * rewrite (proj1 (deleteTunnel_frame m e1)). apply lookup_delete_eq.
    + intros e1 m m' _ Hne. destruct (tunnels e1 !! m) as [t|] eqn:Ht; [|done].
      destruct (owned_by req t); [|done]. rewrite (proj1 (deleteTunnel_frame m e1)). by apply lookup_delete_ne.
  - intros Hn p Hp. destruct (wf_port e' Hwf' _ _ Hp) as (t & Ht & _). congruence.
  - intros Hn d Hp. destruct (wf_domain e' Hwf' _ _ Hp) as (t & Ht & _). congruence.
Qed.

(** ** Sweep *)

(** The relay was silent for longer than the timeout. *)
Definition silent (now : Z) (c : Config) (r : TunRelay) : bool :=
  negb (rSimulated r) && negb (bool_decide (rState r = TUN_RELAY_STATE_DOWN))
  && (rLastSeen r <? unix (now - RelayTimeout c))%Z.
Definition lost (now : Z) (e : Engine) (id : string) : bool :=
  match relays e !! id with Some r => silent now (cfg e) r | None => false end.

(** The grace period of a parked tunnel is over. *)
Definition expired (now : Z) (t : TunLiveTunnel) : bool :=
  negb (tSimulated t) && bool_decide (tState t = TUN_LIVE_STATE_GRACE) && (tGraceUntil t <=? unix now)%Z.

(** What a sweep makes of a tunnel. *)
Definition swept (now : Z) (e : Engine) (t : TunLiveTunnel) : option TunLiveTunnel :=
  let t := if is_active t && lost now e (tRelayId t) then parked (unix (now + Grace (cfg e))) t else t in
  if expired now t then None else Some t.

Lemma foldl_set_range (cond : string → TunLiveTunnel → bool) (h : TunLiveTunnel → TunLiveTunnel) l e :
  NoDup l.*1 → (∀ n t, (n, t) ∈ l → tName (h t) = n) →
  let e' := foldl (λ e '(n, t), if cond n t then setTunnel (h t) e else e) e l in
  (∀ n t, (n, t) ∈ l → tunnels e' !! n = if cond n t then Some (h t) else tunnels e !! n) ∧
  (∀ n, n ∉ l.*1 → tunnels e' !! n = tunnels e !! n).
Proof.
  cbv zeta. revert e. induction l as [|[m u] l IH]; intros e Hnd Hh.
  { split; [by intros ?? ?%elem_of_nil|done]. }
  rewrite fmap_cons in Hnd. apply NoDup_cons in Hnd as [Hm Hnd]. simpl in Hm.
  set (e1 := if cond m u then setTunnel (h u) e else e).
  assert (∀ n, n ≠ m → tunnels e1 !! n = tunnels e !! n) as Hne.
  { intros n Hn. subst e1. destruct (cond m u); [|done]. rewrite tunnels_setTunnel, lookup_insert_ne; [done|].
    rewrite (Hh m u); [done|set_solver]. }
  destruct (IH e1 Hnd) as [IH1 IH2]; [intros; apply Hh; set_solver|].
  split.
  - intros n t [[= -> ->]|Hin]%elem_of_cons; simpl.
    + fold e1. rewrite IH2 by done. subst e1. destruct (cond m u); [|done].
      rewrite tunnels_setTunnel, (Hh m u) by set_solver. apply lookup_insert_eq.
    + fold e1. rewrite (IH1 n t) by done. case_match; [done|]. apply Hne.
      intros ->. destruct Hm. apply list_elem_of_fmap. by exists (m, t).
  - intros n Hn. rewrite fmap_cons, not_elem_of_cons in Hn. destruct Hn as [Hn1 Hn2].
    simpl. fold e1. rewrite IH2 by done. by apply Hne.
Qed.

Section sweep_spec.
Context `{MapRange}.

Lemma foldl_tunnels_id {A} (f : Engine → A → Engine) l e :
  (∀ e x, tunnels (f e x) = tunnels e) → tunnels (foldl f e l) = tunnels e.
Proof. intros Hf. apply (foldl_inv (λ e', tunnels e' = tunnels e)); [done|]. intros b x _ <-. apply Hf. Qed.

Lemma lostRelay_tunnels now id r e n :
  wf e →
  tunnels (lostRelay now id r e) !! n =
  (λ t, if String.eqb (tRelayId t) id && is_active t then parked (unix (now + Grace (cfg e))) t else t)
    <$> tunnels e !! n.
Proof.
  intros Hwf. unfold lostRelay. rewrite foldl_tunnels_id; [|intros e' [? a]; by case_match].
  set (e1 := setRelay _ e). change (tunnels e) with (tunnels e1). change (cfg e) with (cfg e1).
  assert (wf e1) as Hwf1 by (eapply (basic_wf anything), Hwf; constructor).
  destruct (foldl_set_range (λ _ t, String.eqb (tRelayId t) id && is_active t)
    (parked (unix (now + Grace (cfg e1)))) (range (tunnels e1)) e1 (NoDup_range _)) as [H1 H2].
  { intros m t Hin%elem_of_range. simpl. by apply (wf_name e1 Hwf1). }
  destruct (tunnels e1 !! n) as [t|] eqn:Ht.
  - etrans; [apply (H1 n t); by apply elem_of_range|]. simpl. by destruct (_ && _).
  - etrans; [apply (H2 n)|done]. rewrite elem_of_range_keys, Ht. by intros [].
Qed.

Lemma sweep_relays_tunnels now l e n :
  wf e → (∀ id r, (id, r) ∈ l → relays e !! id = Some r) → NoDup l.*1 →
  tunnels (foldl (sweep_relay now) e l) !! n =
  (λ t, if is_active t && existsb (λ '(id, r), String.eqb (tRelayId t) id && silent now (cfg e) r) l
        then parked (unix (now + Grace (cfg e))) t else t) <$> tunnels e !! n.
Proof.
  revert e. induction l as [|[id r] l IH]; intros e Hwf Hl Hnd.
  { simpl. destruct (tunnels e !! n); simpl; [|done]. by rewrite andb_false_r. }
  rewrite fmap_cons in Hnd. apply NoDup_cons in Hnd as [Hid Hnd]. simpl in Hid.
  assert (relays e !! id = Some r) as Hr by (apply Hl; set_solver).
  assert (∀ id' r', (id', r') ∈ l → id' ≠ id) as Hne.
  { intros id' r' Hin ->. apply Hid, list_elem_of_fmap. by exists (id, r'). }
  set (e1 := sweep_relay now e (id, r)).
  assert (changes keeps e e1 ∧ (∀ id', id' ≠ id → relays e1 !! id' = relays e !! id')) as [Hc Hrel].
  { subst e1. unfold sweep_relay. case_match; [done|]. case_match; [|case_match; [|done]].
    - split; [by apply lostRelay_changes|]. intros id' ?. apply relays_lostRelay. by rewrite (wf_relay e Hwf _ _ Hr).
    - split; [by apply rtc_once; constructor|]. intros id' ?. simpl. by rewrite lookup_delete_ne. }
  assert (tunnels e1 !! n = (λ t, if is_active t && (String.eqb (tRelayId t) id && silent now (cfg e) r)
            then parked (unix (now + Grace (cfg e))) t else t) <$> tunnels e !! n) as Ht1.
  { subst e1. unfold sweep_relay, silent. destruct (rSimulated r); simpl.
    { destruct (tunnels e !! n); simpl; [|done]. by rewrite !andb_false_r. }
    destruct (negb _ && _) eqn:Hs; [|destruct (bool_decide _ && _)].
    - rewrite lostRelay_tunnels by done. destruct (tunnels e !! n) as [t|]; simpl; [|done].
      rewrite andb_true_r. by rewrite (andb_comm (is_active t)).
    - simpl. destruct (tunnels e !! n); simpl; [|done]. by rewrite !andb_false_r.
    - destruct (tunnels e !! n); simpl; [|done]. by rewrite !andb_false_r. }
  cbn [foldl existsb]. fold e1. rewrite IH; [|by eapply changes_wf| |done].
  - rewrite (changes_cfg _ _ _ Hc), Ht1. destruct (tunnels e !! n) as [t|]; simpl; [|done]. f_equal.
    destruct (is_active t) eqn:Ha; simpl; [|by rewrite Ha].
    destruct (String.eqb (tRelayId t) id && silent now (cfg e) r); simpl; [done|by rewrite Ha].
  - intros id' r' Hin. rewrite Hrel by (by eapply Hne). apply Hl. set_solver.
Qed.

Lemma existsb_range (e : Engine) (f : TunRelay → bool) id :
  existsb (λ '(id', r), String.eqb id id' && f r) (range (relays e)) =
  match relays e !! id with Some r => f r | None => false end.
Proof.
  apply eq_true_iff_eq. rewrite existsb_exists. setoid_rewrite <-list_elem_of_In. split.
  - intros ([id' r] & Hin%elem_of_range & [->%String.eqb_eq Hf]%andb_true_iff). by rewrite Hin.
  - destruct (relays e !! id) as [r|] eqn:Hr; [|done]. intros Hf. exists (id, r).
    by rewrite elem_of_range, String.eqb_refl.
Qed.

Lemma sweep_tunnels_lookup now e n :
  tunnels (foldl (sweep_tunnel now) e (range (tunnels e))) !! n =
  (t ← tunnels e !! n; if expired now t then None else Some t).
Proof.
  destruct (foldl_pointwise (λ e k, tunnels e !! k) (sweep_tunnel now)
    (λ k t o, if expired now t then None else o) (range (tunnels e)) e) as [H1 H2].
  - intros s k t. unfold sweep_tunnel. fold (expired now t). destruct (expired now t); [|done].
    rewrite (proj1 (deleteTunnel_frame _ _)). apply lookup_delete_eq.
  - intros s k t k' Hne. unfold sweep_tunnel. case_match; [|done].
    rewrite (proj1 (deleteTunnel_frame _ _)). by apply lookup_delete_ne.
  - apply NoDup_range.
  - destruct (tunnels e !! n) as [t|] eqn:Ht; simpl.
    + rewrite (H1 n t) by (by apply elem_of_range). by rewrite Ht.
    + rewrite H2; [done|]. rewrite elem_of_range_keys, Ht. by intros [].
Qed.

Lemma Sweep_tunnels now e n :
  wf e → tunnels (Sweep now e) !! n = tunnels e !! n ≫= swept now e.
Proof.
  intros Hwf. unfold Sweep. rewrite foldl_tunnels_id.
  2:{ intros e' [id a]. unfold sweep_agent. do 3 (case_match; try done). }
  rewrite sweep_tunnels_lookup, sweep_relays_tunnels; [|done|by intros ??; rewrite elem_of_range|apply NoDup_range].
  destruct (tunnels e !! n) as [t|]; simpl; [|done].
  unfold swept, lost. by rewrite (existsb_range e (silent now (cfg e))).
Qed.
End sweep_spec.

(** ** Theorems *)

Section theorems.
Context `{MapRange}.

(** what a sweep makes of every tunnel, exactly: a connected tunnel whose
relay was silent beyond the timeout is parked for the grace period; a parked
tunnel (not simulated) whose grace period is over is deleted; every other
tunnel keeps its record. *)
Theorem Sweep_spec now e n t :
  wf e → tunnels e !! n = Some t →
  tunnels (Sweep now e) !! n =
  if is_active t && lost now e (tRelayId t) then
    let t' := parked (unix (now + Grace (cfg e))) t in
    if negb (tSimulated t) && (tGraceUntil t' <=? unix now)%Z then None else Some t'
  else if expired now t then None else Some t.
Proof.
  intros Hwf Ht. rewrite Sweep_tunnels by done. rewrite Ht. simpl. unfold swept.
  destruct (is_active t && _); [|done]. unfold expired. simpl. by rewrite andb_true_r.
Qed.

(** C13: the tunnels of a relay that stopped reporting are not held for ever: a
sweep that finds the relay lost, and any later sweep once the grace period
has passed, together remove its tunnels and free their ports and domains. *)
Theorem lost_relay_released now now' e n t :
  wf e → tunnels e !! n = Some t → tSimulated t = false →
  is_active t = true → lost now e (tRelayId t) = true →
  (now + Grace (cfg e) ≤ now')%Z →
  let e' := Sweep now' (Sweep now e) in
  tunnels e' !! n = None ∧ (∀ p, byPort e' !! p ≠ Some n) ∧ (∀ d, byDomain e' !! d ≠ Some n).
Proof.
  intros Hwf Ht Hsim Ha Hl Hnow e'.
  pose proof (changes_wf _ _ _ (Sweep_changes now e Hwf) Hwf) as Hwf1.
  pose proof (changes_wf _ _ _ (Sweep_changes now' _ Hwf1) Hwf1) as Hwf2. fold e' in Hwf2.
  assert (tunnels e' !! n = None) as Hn.
  { subst e'. rewrite !Sweep_tunnels by done. rewrite Ht. simpl. unfold swept at 2. rewrite Ha, Hl. simpl.
    destruct (expired now _); [done|]. simpl. unfold swept. simpl. unfold expired. simpl.
    rewrite Hsim. simpl. apply unix_mono in Hnow. by rewrite (proj2 (Z.leb_le _ _) Hnow). }
  split_and!; [done|..].
  - intros p Hp. destruct (wf_port e' Hwf2 _ _ Hp) as (? & ? & _). congruence.
  - intros d Hp. destruct (wf_domain e' Hwf2 _ _ Hp) as (? & ? & _). congruence.
Qed.

(** C1: in every engine reached by requests, sweeps and commands, two tunnels
of different names never have the same public port or a custom domain in
common, as long as no relay announces a tunnel whose port or domain another
name already holds. *)
Theorem tunnels_exclusive c e n1 n2 t1 t2 :
  orderly c e → n1 ≠ n2 → tunnels e !! n1 = Some t1 → tunnels e !! n2 = Some t2 →
  (tPublicPort t1 = tPublicPort t2 → tPublicPort t1 = 0%Z) ∧
  (∀ d, d ∈ tDomains t1 → d ∈ tDomains t2 → False).
Proof.
  intros Ho Hne H1 H2. destruct (orderly_exclusive c e Ho) as [Hwf Hex]. split.
  - intros Heq. destruct (decide (tPublicPort t1 = 0%Z)) as [|H0]; [done|].
    pose proof (ex_port e Hex _ _ H1 H0) as Hp1. rewrite Heq in Hp1, H0.
    rewrite (ex_port e Hex _ _ H2 H0) in Hp1. congruence.
  - intros d Hd1 Hd2. pose proof (ex_domain e Hex _ _ _ H1 Hd1) as Hp1.
    rewrite (ex_domain e Hex _ _ _ H2 Hd2) in Hp1. congruence.
Qed.

(** the live tables the registry keeps are exactly the engine's state:
replaying the reported changes from the start (a record is created only while
absent, changed and deleted only while present) rebuilds the engine's
tunnels, agents and relays, in every reachable engine. *)
Theorem live_tables_mirror c e :
  reachable c e → replay (sink e) = Some (tables_of e).
Proof. intros Hr. by apply (reachable_wf c e Hr). Qed.

(** in every reachable engine the tables and indexes agree: a record is
stored under its own identifier, and an index entry for a port or domain
names a tunnel that has it. *)
Theorem reachable_indexes c e :
  reachable c e →
  (∀ n t, tunnels e !! n = Some t → tName t = n) ∧
  (∀ p n, byPort e !! p = Some n → ∃ t, tunnels e !! n = Some t ∧ tPublicPort t = p ∧ p ≠ 0%Z) ∧
  (∀ d n, byDomain e !! d = Some n → ∃ t, tunnels e !! n = Some t ∧ d ∈ tDomains t) ∧
  (∀ id a, agents e !! id = Some a → aAgentId a = id) ∧
  (∀ id r, relays e !! id = Some r → rRelayId r = id).
Proof. intros Hr. destruct (reachable_wf c e Hr) as [[? ? ? ? ?] _]. done. Qed.

(** an agent's end of session is ignored when a newer session of the agent
is up (or it is at another relay); otherwise the agent goes to grace with
the configured deadline, or straight offline when its token was revoked. *)
Theorem agentDown_spec now req e a :
  agents e !! qAgentId req = Some a → aAgentId a = qAgentId req →
  agents (agentDown now req e) !! qAgentId req =
  Some (if String.eqb (aRelayId a) (qRelayId req) && String.eqb (aSessionId a) (qSessionId req)
        then if bool_decide (qReason req = TUN_DISCONNECT_REASON_TOKEN_REVOKED)
             then a <| aState := TUN_AGENT_STATE_OFFLINE |> <| aDisconnectReason := qReason req |>
                    <| aGraceUntil := 0%Z |> <| aLastSeen := unix now |> <| aActiveStreams := 0%Z |>
             else a <| aState := TUN_AGENT_STATE_GRACE |> <| aDisconnectReason := qReason req |>
                    <| aGraceUntil := unix (now + Grace (cfg e)) |> <| aLastSeen := unix now |>
                    <| aActiveStreams := 0%Z |>
        else a).
Proof.
  intros Ha Hid. unfold agentDown. rewrite Ha.
  destruct (String.eqb (aRelayId a) _), (String.eqb (aSessionId a) _); cbn [negb orb andb]; try done.
  unfold downAgent, setAgent. cbn. destruct (qReason req); cbn; rewrite Hid; apply lookup_insert_eq.
Qed.
End theorems.

(** ** A sample cluster *)

Module Sample.
Definition rules : Rules := mkRules "t.example" "control.t.example" "" ["www"] 20000 20010.
Definition config : Config := mkConfig rules 0 0 0 0 false.
Definition dir : Directory := mkDirectory [] (λ _, false).
Definition spec (name : string) (port : Z) (domains : list string) : TunLiveTunnel :=
  mkTunnel (String.append "id-" name) name TUN_TUNNEL_TYPE_TCP "" domains port "" "" ""
    TUN_LIVE_STATE_UNSPECIFIED 0 0 0 0 0 0 false "" false 0.
Definition request (kind : TunClaimKind) (relay session : string) (ts : list TunLiveTunnel)
    (names : list string) : TunClaimRequest :=
  mkRequest kind relay session "agent-1" "tok" 2 0 0 ts names 0 None [] None
    TUN_DISCONNECT_REASON_UNSPECIFIED.
Definition now : Z := (1000 * second)%Z.
Definition claim_req : TunClaimRequest :=
  request TUN_CLAIM_KIND_CLAIM "relay-a" "s1" [spec "web" 0 ["a.example"]; spec "db" 0 []] [].
Definition beat_req : TunClaimRequest := request TUN_CLAIM_KIND_HEARTBEAT "relay-a" "" [] [].
(** The engine after one heartbeat of relay-a and its claim of two tunnels. *)
Definition e0 : Engine := (Handle dir now beat_req (New config)).1.
Definition e1 : Engine := (Handle dir now claim_req e0).1.
Definition web : TunLiveTunnel :=
  claimed now claim_req (spec "web" 0 ["a.example"]) <| tPublicPort := 20000%Z |>.
Definition db : TunLiveTunnel :=
  claimed now claim_req (spec "db" 0 []) <| tPublicPort := 20001%Z |>.

Lemma web_stored : tunnels e1 !! "web" = Some web.
Proof. vm_compute. reflexivity. Defined.
Lemma db_stored : tunnels e1 !! "db" = Some db.
Proof. vm_compute. reflexivity. Defined.
Lemma e1_reachable : reachable config e1.
Proof.
  apply (rtc_l _ _ e0); [exact (step_handle dir now beat_req (New config))|].
  apply rtc_once. exact (step_handle dir now claim_req e0).
Defined.
Lemma e1_orderly : orderly config e1.
Proof.
  apply (rtc_l _ _ e0); [apply (orderly_handle dir now beat_req (New config)); discriminate|].
  apply rtc_once. apply (orderly_handle dir now claim_req e0). discriminate.
Defined.
Lemma e1_wf : wf e1.
Proof. exact (proj1 (reachable_wf config e1 e1_reachable)). Defined.
Lemma e0_wf : wf e0.
Proof.
  refine (proj1 (reachable_wf config e0 _)). apply rtc_once. exact (step_handle dir now beat_req (New config)).
Defined.
End Sample.
Import Sample.

Lemma park_spec_witness :
  tunnels (park now (request TUN_CLAIM_KIND_PARK "relay-a" "s1" [] ["web"]) e1) !! "web"
  = Some (parked 1300 web).
Proof. rewrite (park_spec _ _ _ _ e1_wf). vm_compute. reflexivity. Defined.

Lemma release_spec_witness :
  tunnels (release (request TUN_CLAIM_KIND_RELEASE "relay-a" "s2" [] ["web"]) e1) !! "web" = Some web.
Proof.
  rewrite (proj1 (release_spec (request TUN_CLAIM_KIND_RELEASE "relay-a" "s2" [] ["web"]) e1 "web" e1_wf)).
  vm_compute. reflexivity.
Defined.

Lemma Sweep_spec_witness :
  tunnels (Sweep (now + 16 * second)%Z e1) !! "web" = Some (parked 1316 web).
Proof. rewrite (Sweep_spec _ _ _ _ e1_wf web_stored). vm_compute. reflexivity. Defined.

Lemma lost_relay_released_witness :
  tunnels (Sweep (now + hour)%Z (Sweep (now + 16 * second)%Z e1)) !! "web" = None.
Proof.
  refine (proj1 (lost_relay_released (now + 16 * second)%Z (now + hour)%Z e1 "web" web
    e1_wf web_stored _ _ _ _)); vm_compute; (reflexivity || discriminate).
Defined.

Lemma tunnels_exclusive_witness :
  orderly config e1 ∧ bool_decide (tPublicPort web = tPublicPort db) = false.
Proof.
  split; [exact e1_orderly|]. apply bool_decide_eq_false_2. intros Heq.
  assert (tPublicPort web = 0%Z) as H0.
  { refine (proj1 (tunnels_exclusive config e1 "web" "db" web db e1_orderly _ web_stored db_stored) Heq).
    discriminate. }
  vm_compute in H0. discriminate H0.
Defined.

Lemma live_tables_mirror_witness : replay (sink e1) = Some (tables_of e1).
Proof. exact (live_tables_mirror config e1 e1_reachable). Defined.

Lemma reachable_indexes_witness : ∃ t, tunnels e1 !! "web" = Some t ∧ tPublicPort t = 20000%Z ∧ 20000%Z ≠ 0%Z.
Proof. apply (proj1 (proj2 (reachable_indexes config e1 e1_reachable)) 20000%Z "web"). vm_compute. reflexivity. Defined.

Lemma claim_takes_nothing_witness : ValidName "web" = true.
Proof.
  refine (proj1 (claim_takes_nothing dir now claim_req e0 (claim dir now claim_req e0).1
    (claim dir now claim_req e0).2 (spec "web" 0 ["a.example"]) _ _ _)).
  - vm_compute. reflexivity.
  - vm_compute. reflexivity.
  - vm_compute. left.
Defined.

Lemma claim_within_cap_witness : (Z.of_nat (length (active_names e1 "tok")) ≤ 2)%Z.
Proof.
  refine (claim_within_cap dir now claim_req e0 e1 (claim dir now claim_req e0).2 e0_wf _ _ _);
    vm_compute; reflexivity.
Defined.

Lemma port_spec_witness :
  port e1 claim_req (spec "ssh" 0 []) None None [] ∅ = Ok 20002%Z ∧
  lowest_free (port_free e1 "ssh" [] ∅) 20000 20010 (Some 20002%Z).
Proof.
  pose proof (port_spec e1 claim_req (spec "ssh" 0 []) None None [] ∅) as Hs.
  assert (port e1 claim_req (spec "ssh" 0 []) None None [] ∅ = Ok 20002%Z) as Hp by (vm_compute; reflexivity).
  rewrite Hp in Hs. cbv zeta in Hs.
  replace (port_range e1 claim_req) with (20000%Z, 20010%Z) in Hs by (vm_compute; reflexivity).
  destruct Hs as (_ & _ & Hs); [lia|lia|]. destruct Hs as [_ [Hs|Hs]]; [vm_compute; reflexivity|discriminate|].
  split; [exact Hp|exact Hs].
Defined.

Definition sample_agent : TunAgent :=
  mkAgent "agent-1" "tok" "" "" "s1" "" "" "" "" "relay-a" TUN_AGENT_TRANSPORT_TLS TUN_AGENT_STATE_ONLINE
    0 0 0 0 0 0 0 0 0 TUN_DISCONNECT_REASON_UNSPECIFIED false.

Lemma agentDown_spec_witness :
  agents (agentDown now (request TUN_CLAIM_KIND_AGENT_DOWN "relay-a" "s0" [] []) (setAgent sample_agent e1))
    !! "agent-1" = Some sample_agent.
Proof.
  exact (agentDown_spec now (request TUN_CLAIM_KIND_AGENT_DOWN "relay-a" "s0" [] [])
    (setAgent sample_agent e1) sample_agent eq_refl eq_refl).
Defined.

(** an announcement is not checked against the ports other names hold. A
relay that reports a tunnel it served before a registry restart, after its
port went to a new claim, leaves two connected tunnels with one public port
in the engine: the exclusivity above does need its condition. *)
Theorem announce_can_share_port :
  ∃ e t1 t2, reachable config e ∧
    tunnels e !! "web" = Some t1 ∧ tunnels e !! "old" = Some t2 ∧
    tState t1 = TUN_LIVE_STATE_ACTIVE ∧ tState t2 = TUN_LIVE_STATE_ACTIVE ∧
    tRelayId t1 ≠ tRelayId t2 ∧ tPublicPort t1 = 20000%Z ∧ tPublicPort t2 = 20000%Z.
Proof.
  set (req := request TUN_CLAIM_KIND_ANNOUNCE "relay-b" "" [spec "old" 20000 []] []).
  exists (Handle dir now req e1).1, web.
  exists (announced req (spec "old" 20000 [])).
  split; [eapply rtc_r; [exact e1_reachable|apply (step_handle dir now)]|].
  split_and!; try (vm_compute; (reflexivity || discriminate)).
Qed.
