(* ===== verification/NameRegistry.v ===== *)
(** * The relay's own registry of names (go/tunnel/relay/registry.go)

A relay keeps the tunnel names, custom domains and public ports it serves in
a [nameRegistry]. The maps hold pointers to reservations that sessions keep
too, so the model has a heap of reservations and the maps hold locations;
two reservations are the same when their locations are.

Every method runs under the registry's mutex. Sessions and tunnels are known
to the registry only by identity. A grace timer is a flag on its reservation:
stopping a timer that already fired does not prevent its [expire] from
running, so [expire] may be called on any reservation. *)

From S2P Require Import Prelude GoStrings Protocol Policy.
From stdpp Require Import options.
#[local] Open Scope l8_scope.
Import Rules.

Definition loc := positive.
Definition session_id := positive.
Definition tunnel_id := positive.

Record reservation := mkReservation {
  name : string;
  typ : TunnelType;
  tokenID : string;
  agentID : string;
  port : Z;
  domains : list string;
  permanent : bool;
  session : option session_id;
  tunnel : option tunnel_id;
  timer : bool;
  expires : Z;
}.
#[export] Instance eta_reservation : Eta reservation := λ r,
  mkReservation (name r) (typ r) (tokenID r) (agentID r) (port r) (domains r) (permanent r)
    (session r) (tunnel r) (timer r) (expires r).

Record nameRegistry := mkRegistry {
  heap : gmap loc reservation;
  grace : Z;
  names : gmap string loc;
  domainMap : gmap string loc;
  ports : gset Z;
  closed : bool;
  clustered : bool;
  (** the tunnels whose [close] the registry called, oldest first *)
  stopped : list tunnel_id;
}.
#[export] Instance eta_registry : Eta nameRegistry := λ r,
  mkRegistry (heap r) (grace r) (names r) (domainMap r) (ports r) (closed r) (clustered r) (stopped r).

Definition newNameRegistry (grace : Z) : nameRegistry :=
  mkRegistry ∅ grace ∅ ∅ ∅ false false [].

Definition fresh_loc (r : nameRegistry) : loc := fresh (dom (heap r)).

(** Writes through the pointer [l]. *)
Definition update (l : loc) (f : reservation → reservation) (r : nameRegistry) : nameRegistry :=
  r <| heap := alter f l (heap r) |>.

Definition stop_timer (res : reservation) : reservation :=
  if timer res then res <| timer := false |> else res.

(** The session that serves a reservation changes, or ends. *)
Definition rebind (ty : TunnelType) (agent : string) (sess : session_id) (res : reservation) : reservation :=
  stop_timer res <| typ := ty |> <| agentID := agent |> <| session := Some sess |> <| tunnel := None |>.
Definition unbind (res : reservation) : reservation :=
  res <| session := None |> <| tunnel := None |>.

Section ops.
Context `{MapRange}.

Definition activeLocked (r : nameRegistry) (tok : string) (except : option loc) : Z :=
  foldl (λ n '(_, l),
           match heap r !! l with
           | Some res => if String.eqb (tokenID res) tok && bool_decide (is_Some (session res))
                            && negb (bool_decide (Some l = except))
                         then (n + 1)%Z else n
           | None => n
           end) 0%Z (range (names r)).

Definition holder_at (r : nameRegistry) (sess : session_id) (ol : option loc) : option Holder :=
  l ← ol; res ← heap r !! l;
  Some (mkHolder (tokenID res) (agentID res) (bool_decide (is_Some (session res)))
                 (bool_decide (session res = Some sess))).

Definition claim (n : string) (ty : TunnelType) (tok agent : string) (sess : session_id)
    (maxTunnels : Z) (r : nameRegistry) : nameRegistry * result rule_err (loc * bool) :=
  let found := names r !! n in
  match Decide (holder_at r sess found) tok agent (activeLocked r tok found) maxTunnels, found with
  | Err e, _ => (r, Err e)
  | Ok DecisionNew, _ | Ok _, None =>
      let l := fresh_loc r in
      let res := mkReservation n ty tok agent 0 [] false (Some sess) None false 0 in
      (r <| heap := <[l := res]> (heap r) |> <| names := <[n := l]> (names r) |>, Ok (l, false))
  | Ok d, Some l =>
      let stale := match d with
                   | DecisionTakeover => match (res ← heap r !! l; tunnel res) with
                                         | Some t => [t]
                                         | None => []
                                         end
                   | _ => []
                   end in
      let r := r <| stopped := stopped r ++ stale |> in
      (update l (rebind ty agent sess) r, Ok (l, true))
  end.
End ops.

Definition activate (l : loc) (t : tunnel_id) (r : nameRegistry) : nameRegistry :=
  update l (λ res, res <| tunnel := Some t |>) r.

Definition drop_domains (l : loc) (ds : list string) (m : gmap string loc) : gmap string loc :=
  foldl (λ m d, if bool_decide (m !! d = Some l) then delete d m else m) m ds.

Definition deleteLocked (l : loc) (r : nameRegistry) : nameRegistry :=
  match heap r !! l with
  | None => r
  | Some res =>
      let r := update l stop_timer r in
      let r := if bool_decide (names r !! name res = Some l)
               then r <| names := delete (name res) (names r) |> else r in
      let r := if negb (port res =? 0)%Z then r <| ports := ports r ∖ {[port res]} |> else r in
      r <| domainMap := drop_domains l (domains res) (domainMap r) |>
  end.

Definition park (now : Z) (l : loc) (sess : session_id) (r : nameRegistry) : nameRegistry :=
  match heap r !! l with
  | None => r
  | Some res =>
      if negb (bool_decide (session res = Some sess)) then r
      else
        let r := update l unbind r in
        if negb (bool_decide (names r !! name res = Some l)) then r
        else if (closed r || clustered r) && negb (permanent res) then deleteLocked l r
        else if negb (permanent res)
        then update l (λ res, res <| expires := (now + grace r)%Z |> <| timer := true |>) r
        else r
  end.

Definition rollback (now : Z) (l : loc) (sess : session_id) (existed : bool) (r : nameRegistry)
    : nameRegistry :=
  if existed then park now l sess r
  else match heap r !! l with
       | Some res => if bool_decide (session res = Some sess) then deleteLocked l r else r
       | None => r
       end.

Definition expire (l : loc) (r : nameRegistry) : nameRegistry :=
  match heap r !! l with
  | Some res => if bool_decide (names r !! name res = Some l) && bool_decide (session res = None)
                   && negb (permanent res)
                then deleteLocked l r else r
  | None => r
  end.

(** The first of the domains that another reservation holds. *)
Definition domain_holder (l : loc) (ds : list string) (r : nameRegistry) : option string :=
  List.find (λ d, match domainMap r !! d with Some l' => negb (bool_decide (l' = l)) | None => false end) ds.

Definition setDomains (l : loc) (ds : list string) (r : nameRegistry)
    : nameRegistry * result string unit :=
  match domain_holder l ds r with
  | Some d => (r, Err d)
  | None =>
      let old := default [] (domains <$> heap r !! l) in
      let r := r <| domainMap := drop_domains l old (domainMap r) |> in
      let r := update l (λ res, res <| domains := ds |>) r in
      (r <| domainMap := foldl (λ m d, <[d := l]> m) (domainMap r) ds |>, Ok tt)
  end.

Definition lookup (n : string) (r : nameRegistry) : option tunnel_id * TunnelType * bool :=
  match (l ← names r !! n; heap r !! l) with
  | None => (None, TUNNEL_TYPE_UNSPECIFIED, false)
  | Some res => (tunnel res, typ res, true)
  end.

(** The exact owner, else the closest wildcard's. *)
Definition domain_owner (domain : string) (r : nameRegistry) : option loc :=
  foldl (λ res w, match res with Some _ => res | None => domainMap r !! w end)
        (domainMap r !! domain) (WildcardsOf domain).

Definition lookupDomain (domain : string) (r : nameRegistry)
    : option tunnel_id * TunnelType * string * bool :=
  match (l ← domain_owner domain r; heap r !! l) with
  | None => (None, TUNNEL_TYPE_UNSPECIFIED, "", false)
  | Some res => (tunnel res, typ res, name res, true)
  end.

Definition reserve (n tok : string) (p : Z) (r : nameRegistry) : nameRegistry * result rule_err unit :=
  let found := l ← names r !! n; res ← heap r !! l; Some (l, res) in
  if (if found is Some (_, res) then negb (String.eqb (tokenID res) tok) else false)
  then (r, Err ErrNameTaken)
  else if negb (p =? 0)%Z && (if found is Some (_, res) then negb (port res =? p)%Z else true)
          && bool_decide (p ∈ ports r)
  then (r, Err ErrPortTaken)
  else
    let '(r, l, res) :=
      match found with
      | Some (l, res) => (r, l, res)
      | None =>
          let l := fresh_loc r in
          let res := mkReservation n TUNNEL_TYPE_UNSPECIFIED tok "" 0 [] false None None false 0 in
          (r <| heap := <[l := res]> (heap r) |> <| names := <[n := l]> (names r) |>, l, res)
      end in
    let r := if negb (p =? 0)%Z && negb (port res =? p)%Z then
               let ps := if negb (port res =? 0)%Z then ports r ∖ {[port res]} else ports r in
               update l (λ res, res <| port := p |>) (r <| ports := {[p]} ∪ ps |>)
             else r in
    (update l (λ res, stop_timer (res <| permanent := true |>)) r, Ok tt).

Definition unreserve (n : string) (r : nameRegistry) : nameRegistry :=
  match (l ← names r !! n; res ← heap r !! l; Some (l, res)) with
  | None => r
  | Some (l, res) =>
      if negb (permanent res) then r
      else
        let r := update l (λ res, res <| permanent := false |>) r in
        if bool_decide (session res = None) then deleteLocked l r else r
  end.

Definition releaseToken `{MapRange} (tok : string) (r : nameRegistry) : nameRegistry * list session_id :=
  foldl (λ '(r, sessions) '(_, l),
           match heap r !! l with
           | Some res =>
               if String.eqb (tokenID res) tok
               then (deleteLocked l r, sessions ++ match session res with Some s => [s] | None => [] end)
               else (r, sessions)
           | None => (r, sessions)
           end) (r, []) (range (names r)).

Definition reservePort (p : Z) (r : nameRegistry) : nameRegistry * bool :=
  if bool_decide (p ∈ ports r) then (r, false) else (r <| ports := {[p]} ∪ ports r |>, true).

Definition releasePort (p : Z) (r : nameRegistry) : nameRegistry := r <| ports := ports r ∖ {[p]} |>.

Definition setPort (l : loc) (p : Z) (r : nameRegistry) : nameRegistry :=
  let old := default 0%Z (port <$> heap r !! l) in
  let r := if negb (old =? 0)%Z && negb (old =? p)%Z then r <| ports := ports r ∖ {[old]} |> else r in
  update l (λ res, res <| port := p |>) r.

Definition portOf (l : loc) (r : nameRegistry) : Z := default 0%Z (port <$> heap r !! l).

Record ParkedTunnel := mkParked {
  Name : string; TokenID : string; Type_ : string; Port : Z; Permanent : bool; Expires : Z;
}.

Definition parked_of (res : reservation) : ParkedTunnel :=
  mkParked (name res) (tokenID res) (TunnelTypeName (typ res)) (port res) (permanent res)
           (if permanent res then 0%Z else expires res).

(** The order [sort.Slice] sorts by: strings compare bytewise. *)
Definition by_name (p q : ParkedTunnel) : Prop := String.leb (Name p) (Name q) = true.
#[export] Instance by_name_dec : RelDecision by_name.
Proof. intros p q. unfold by_name. apply _. Defined.

Definition parked `{MapRange} (r : nameRegistry) : list ParkedTunnel :=
  merge_sort by_name
    (omap (λ '(_, l), match heap r !! l with
                      | Some res => if bool_decide (is_Some (session res)) then None else Some (parked_of res)
                      | None => None
                      end) (range (names r))).

Definition close `{MapRange} (r : nameRegistry) : nameRegistry :=
  let r := r <| closed := true |> in
  foldl (λ r '(_, l),
           match heap r !! l with
           | Some res =>
               if bool_decide (session res = None)
               then let r := update l stop_timer r in
                    if negb (permanent res) then deleteLocked l r else r
               else r
           | None => r
           end) r (range (names r)).
