(* ===== verification/NameRegistryInv.v ===== *)
(** * The relay's registry of names: invariants (go/tunnel/relay/registry.go)

[inv] (names and domains) holds after every sequence of registry calls,
however the sessions' calls interleave. [ports_ok] (the set of public ports)
is kept by every call made on a live reservation; [pend] holds the ports a
session has reserved and not yet recorded on its reservation. *)

From S2P Require Import Prelude GoStrings Protocol Policy NameRegistry.
From stdpp Require Import options.
#[local] Open Scope l8_scope.
Import Rules.

(** The reservation at [l] is the one its name stands for. *)
Definition live (r : nameRegistry) (l : loc) (res : reservation) : Prop :=
  heap r !! l = Some res ∧ names r !! name res = Some l.

Record inv (r : nameRegistry) : Prop := {
  inv_name n l : names r !! n = Some l → ∃ res, heap r !! l = Some res ∧ name res = n;
  inv_domain d l : domainMap r !! d = Some l → ∃ res, heap r !! l = Some res ∧ d ∈ domains res;
  inv_owner l res d : live r l res → d ∈ domains res → domainMap r !! d = Some l;
}.

Record ports_ok (pend : gset Z) (r : nameRegistry) : Prop := {
  po_exact p : p ∈ ports r ↔ p ∈ pend ∨ (p ≠ 0%Z ∧ ∃ l res, live r l res ∧ port res = p);
  po_unique l1 l2 res1 res2 : live r l1 res1 → live r l2 res2 →
    port res1 = port res2 → port res1 ≠ 0%Z → l1 = l2;
  po_pend l res : live r l res → port res ≠ 0%Z → port res ∉ pend;
}.

(** ** Writing through a pointer *)

Lemma live_update l f r l' res' :
  (∀ res, name (f res) = name res) →
  live (update l f r) l' res' ↔
  ∃ res, live r l' res ∧ res' = if decide (l' = l) then f res else res.
Proof.
  intros Hf. unfold live, update. cbn. destruct (decide (l' = l)) as [->|Hl].
  - rewrite lookup_alter_eq, fmap_Some. split.
    + intros [(res & Hres & ->) Hn]. exists res. by rewrite Hf in Hn.
    + intros (res & [Hres Hn] & ->). rewrite Hf. naive_solver.
  - rewrite lookup_alter_ne by done. naive_solver.
Qed.

Lemma live_update_same l f r res :
  (∀ res, name (f res) = name res) → live r l res → live (update l f r) l (f res).
Proof. intros Hf Hl. apply live_update; [done|]. exists res. by rewrite decide_True. Qed.

Lemma live_update_ne l f r l' res' :
  (∀ res, name (f res) = name res) → l' ≠ l → live (update l f r) l' res' ↔ live r l' res'.
Proof. intros Hf Hl. rewrite live_update by done. case_decide; naive_solver. Qed.

Lemma live_update_eq l f r res' :
  (∀ res, name (f res) = name res) → live (update l f r) l res' ↔ ∃ res, live r l res ∧ res' = f res.
Proof. intros Hf. rewrite live_update by done. case_decide; naive_solver. Qed.

Lemma update_update l f g r : update l g (update l f r) = update l (λ res, g (f res)) r.
Proof.
  unfold update, set_field. simpl. f_equal. apply map_eq. intros i.
  destruct (decide (l = i)) as [->|?]; [|by rewrite !lookup_alter_ne].
  rewrite !lookup_alter_eq. by destruct (heap r !! i).
Qed.

Lemma inv_update l f r :
  (∀ res, name (f res) = name res) → (∀ res, domains (f res) = domains res) →
  inv r → inv (update l f r).
Proof.
  intros Hn Hd Hi. split.
  - intros n l' Hl'. destruct (inv_name r Hi _ _ Hl') as (res & Hres & <-). cbn.
    destruct (decide (l = l')) as [->|?].
    + rewrite lookup_alter_eq, Hres. exists (f res). by rewrite Hn.
    + rewrite lookup_alter_ne by done. by exists res.
  - intros d l' Hl'. destruct (inv_domain r Hi _ _ Hl') as (res & Hres & Hin). cbn.
    destruct (decide (l = l')) as [->|?].
    + rewrite lookup_alter_eq, Hres. exists (f res). by rewrite Hd.
    + rewrite lookup_alter_ne by done. by exists res.
  - intros l' res' d (res & Hl & ->)%live_update Hin; [|done]. apply (inv_owner r Hi l' res d Hl).
    case_decide; [by rewrite Hd in Hin|done].
Qed.

Lemma ports_update pend l f r :
  (∀ res, name (f res) = name res) → (∀ res, port (f res) = port res) →
  ports_ok pend r → ports_ok pend (update l f r).
Proof.
  intros Hn Hp Ho. assert (∀ l' res, port (if decide (l' = l) then f res else res) = port res) as Hport.
  { intros. by case_decide; rewrite ?Hp. }
  split.
  - intros p. change (ports (update l f r)) with (ports r). rewrite (po_exact _ _ Ho).
    setoid_rewrite live_update; [|done]. split; (intros [?|(H0 & l' & res' & Hl & <-)]; [by left|right; split; [done|]]).
    + exists l'. eexists. split; [by exists res'|]. apply Hport.
    + destruct Hl as (res & ? & ->). exists l', res. by rewrite Hport.
  - intros l1 l2 res1 res2. rewrite !live_update by done.
    intros (x1 & ? & ->) (x2 & ? & ->). rewrite !Hport. by eapply (po_unique _ _ Ho).
  - intros l' res'. rewrite live_update by done. intros (x & ? & ->). rewrite Hport. by eapply (po_pend _ _ Ho).
Qed.

(** Changes of other fields. *)
Lemma inv_frame r r' :
  heap r' = heap r → names r' = names r → domainMap r' = domainMap r → inv r → inv r'.
Proof.
  intros Hh Hn Hd Hi. split; [intros n l|intros d l|intros l res d; unfold live]; rewrite ?Hh, ?Hn, ?Hd; apply Hi.
Qed.

Lemma ports_frame pend r r' :
  heap r' = heap r → names r' = names r → ports r' = ports r → ports_ok pend r → ports_ok pend r'.
Proof.
  intros Hh Hn Hp Ho. assert (∀ l res, live r' l res ↔ live r l res) as Hl.
  { intros. unfold live. by rewrite Hh, Hn. }
  split; [intros p|intros l1 l2 res1 res2|intros l res]; rewrite ?Hp; repeat setoid_rewrite Hl; apply Ho.
Qed.

(** ** A new reservation *)

Lemma fresh_loc_None r : heap r !! fresh_loc r = None.
Proof. apply not_elem_of_dom. exact (is_fresh (dom (heap r))). Qed.

Definition add_reservation (res : reservation) (r : nameRegistry) : nameRegistry :=
  r <| heap := <[fresh_loc r := res]> (heap r) |> <| names := <[name res := fresh_loc r]> (names r) |>.

Lemma live_add res r l res' :
  names r !! name res = None →
  live (add_reservation res r) l res' ↔ (l = fresh_loc r ∧ res' = res) ∨ (l ≠ fresh_loc r ∧ live r l res').
Proof.
  intros Hnew. unfold live. cbn. pose proof (fresh_loc_None r) as Hf. split.
  - rewrite lookup_insert_Some. intros [[[<- <-]|[Hl Hres]] Hn]; [by left|right].
    split; [done|]. split; [done|]. rewrite lookup_insert_Some in Hn. naive_solver.
  - intros [[-> ->]|[Hl [Hres Hn]]].
    + by rewrite !lookup_insert_eq.
    + rewrite !lookup_insert_ne; [done|congruence|done].
Qed.

Lemma inv_add res r :
  names r !! name res = None → domains res = [] → inv r → inv (add_reservation res r).
Proof.
  intros Hnew Hd Hi. pose proof (fresh_loc_None r) as Hf. split.
  - intros n l. cbn. rewrite lookup_insert_Some. intros [[<- <-]|[Hn Hl]].
    + exists res. by rewrite lookup_insert_eq.
    + destruct (inv_name r Hi _ _ Hl) as (res' & ? & ?). exists res'. rewrite lookup_insert_ne; [done|congruence].
  - intros d l Hl. destruct (inv_domain r Hi _ _ Hl) as (res' & ? & ?). exists res'. cbn.
    rewrite lookup_insert_ne; [done|congruence].
  - intros l res' d [[-> ->]|[_ Hl]]%live_add Hin; [|by apply (inv_owner r Hi l res')|done].
    rewrite Hd in Hin. by apply elem_of_nil in Hin.
Qed.

Lemma ports_add pend res r :
  names r !! name res = None → port res = 0%Z → ports_ok pend r → ports_ok pend (add_reservation res r).
Proof.
  intros Hnew Hp Ho. pose proof (fresh_loc_None r) as Hf. split.
  - intros p. change (ports (add_reservation res r)) with (ports r). rewrite (po_exact _ _ Ho).
    setoid_rewrite live_add; [|done]. split; (intros [?|(H0 & l & res' & Hl & <-)]; [by left|right; split; [done|]]).
    + exists l, res'. split; [|done]. right. split; [|done]. intros ->. destruct Hl. congruence.
    + destruct Hl as [[-> ->]|[_ ?]]; [done|]. by exists l, res'.
  - intros l1 l2 res1 res2. rewrite !live_add by done.
    intros [[-> ->]|[_ ?]] [[-> ->]|[_ ?]]; [done|congruence|congruence|by eapply (po_unique _ _ Ho)].
  - intros l res'. rewrite live_add by done. intros [[-> ->]|[_ ?]]; [done|by eapply (po_pend _ _ Ho)].
Qed.

(** ** Deleting a reservation *)

Lemma lookup_drop_domains l ds m d :
  drop_domains l ds m !! d = if decide (d ∈ ds ∧ m !! d = Some l) then None else m !! d.
Proof.
  unfold drop_domains. revert m. induction ds as [|d0 ds IH]; intros m; cbn [foldl].
  { rewrite decide_False; [done|]. intros [?%elem_of_nil _]. done. }
  rewrite IH. destruct (decide (m !! d0 = Some l)) as [Hm|Hm].
  - rewrite bool_decide_true by done. destruct (decide (d = d0)) as [->|Hd].
    + rewrite lookup_delete_eq, decide_False by naive_solver. rewrite decide_True; [done|]. split; [left|done].
    + rewrite lookup_delete_ne by done. destruct (decide (d ∈ ds ∧ m !! d = Some l)).
      * rewrite decide_True; [done|]. split; [right|]; naive_solver.
      * rewrite decide_False; [done|]. set_solver.
  - rewrite bool_decide_false by done. destruct (decide (d ∈ ds ∧ m !! d = Some l)).
    + rewrite decide_True; [done|]. split; [right|]; naive_solver.
    + rewrite decide_False; [done|]. set_solver.
Qed.

Lemma domainMap_deleteLocked l r d l' :
  inv r → domainMap (deleteLocked l r) !! d = Some l' ↔ l' ≠ l ∧ domainMap r !! d = Some l'.
Proof.
  intros Hi. unfold deleteLocked. destruct (heap r !! l) as [res|] eqn:Hl.
  - assert (domainMap (update l stop_timer r) = domainMap r) as Heq by done.
    destruct (bool_decide _), (negb _); cbn; rewrite lookup_drop_domains.
    all: case_decide as Hd; [naive_solver|]; split; [|naive_solver]; intros Hm; split; [|done]; intros ->.
    all: destruct (inv_domain r Hi _ _ Hm) as (res' & ? & ?); naive_solver.
  - split; [|naive_solver]. intros Hm. split; [|done]. intros ->.
    destruct (inv_domain r Hi _ _ Hm) as (res' & ? & ?). naive_solver.
Qed.

Lemma heap_deleteLocked l r : heap (deleteLocked l r) = alter stop_timer l (heap r).
Proof.
  unfold deleteLocked. destruct (heap r !! l) as [res|] eqn:Hl.
  - by destruct (bool_decide _), (negb _).
  - symmetry. apply map_eq. intros i. destruct (decide (i = l)) as [->|?].
    + by rewrite lookup_alter_eq, Hl.
    + by rewrite lookup_alter_ne.
Qed.

Lemma names_deleteLocked l r n l' :
  inv r → names (deleteLocked l r) !! n = Some l' ↔ l' ≠ l ∧ names r !! n = Some l'.
Proof.
  intros Hi. unfold deleteLocked. destruct (heap r !! l) as [res|] eqn:Hl.
  - assert (∀ m, names r !! m = Some l → m = name res) as Hm.
    { intros m Hm. destruct (inv_name r Hi _ _ Hm) as (res' & ? & ?). naive_solver. }
    change (names (update l stop_timer r)) with (names r).
    destruct (bool_decide (names r !! name res = Some l)) eqn:Hb.
    + apply bool_decide_eq_true_1 in Hb. destruct (negb _); cbn; rewrite lookup_delete_Some;
        (split; [|naive_solver]); intros [Hn Hn']; (split; [|done]); intros ->; naive_solver.
    + apply bool_decide_eq_false_1 in Hb. destruct (negb _); cbn; (split; [|naive_solver]);
        intros Hn; (split; [|done]); intros ->; naive_solver.
  - split; [|naive_solver]. intros Hn. split; [|done]. intros ->.
    destruct (inv_name r Hi _ _ Hn) as (res' & ? & ?). naive_solver.
Qed.

Lemma stop_timer_frame res :
  name (stop_timer res) = name res ∧ domains (stop_timer res) = domains res ∧
  port (stop_timer res) = port res ∧ tokenID (stop_timer res) = tokenID res ∧
  session (stop_timer res) = session res ∧ permanent (stop_timer res) = permanent res.
Proof. unfold stop_timer. by destruct (timer res). Qed.

Lemma live_deleteLocked l r l' res :
  inv r → live (deleteLocked l r) l' res ↔ l' ≠ l ∧ live r l' res.
Proof.
  intros Hi. unfold live. rewrite names_deleteLocked, heap_deleteLocked by done.
  split.
  - intros (Hh & Hl & Hn). rewrite lookup_alter_ne in Hh by done. done.
  - intros (Hl & Hh & Hn). by rewrite lookup_alter_ne.
Qed.

Lemma inv_delete l r : inv r → inv (deleteLocked l r).
Proof.
  intros Hi. split.
  - intros n l'. rewrite names_deleteLocked, heap_deleteLocked by done. intros [Hl Hn].
    rewrite lookup_alter_ne by done. by apply Hi.
  - intros d l'. rewrite domainMap_deleteLocked, heap_deleteLocked by done. intros [Hl Hn].
    rewrite lookup_alter_ne by done. by apply Hi.
  - intros l' res d. rewrite live_deleteLocked, domainMap_deleteLocked by done.
    intros [? Hl] Hin. split; [done|]. by apply (inv_owner r Hi l' res).
Qed.

Lemma ports_delete pend l res r :
  inv r → live r l res → ports_ok pend r → ports_ok pend (deleteLocked l r).
Proof.
  intros Hi Hl Ho. assert (∀ p, p ∈ ports (deleteLocked l r) ↔ p ∈ ports r ∧ (p ≠ port res ∨ p = 0%Z ∧ port res = 0%Z)) as Hp.
  { intros p. unfold deleteLocked. rewrite (proj1 Hl).
    destruct (Z.eqb_spec (port res) 0) as [Hz|Hz]; cbn [negb]; destruct (bool_decide _); cbn;
      rewrite ?elem_of_difference, ?elem_of_singleton; destruct (decide (p = port res)); naive_solver. }
  split.
  - intros p. rewrite Hp, (po_exact _ _ Ho). setoid_rewrite live_deleteLocked; [|done]. split.
    + intros [[?|(H0 & l' & res' & Hl' & <-)] Hne]; [by left|right]. split; [done|].
      exists l', res'. split; [|done]. split; [|done]. intros ->.
      assert (res' = res) as -> by (destruct Hl, Hl'; congruence). naive_solver.
    + intros [Hin|(H0 & l' & res' & (Hne & Hl') & <-)].
      * split; [by left|]. destruct (decide (p = port res)) as [->|?]; [|by left].
        destruct (decide (port res = 0%Z)); [by right|]. by destruct (po_pend _ _ Ho l res).
      * split; [by right; eauto|]. left. intros Heq. apply Hne. by eapply (po_unique _ _ Ho).
  - intros l1 l2 res1 res2. rewrite !live_deleteLocked by done. intros [_ ?] [_ ?]. by eapply (po_unique _ _ Ho).
  - intros l' res'. rewrite live_deleteLocked by done. intros [_ ?]. by eapply (po_pend _ _ Ho).
Qed.

(** ** The operations *)

Lemma set_domain_entries (l : loc) ds (m : gmap string loc) d :
  foldl (λ m d, <[d := l]> m) m ds !! d = if decide (d ∈ ds) then Some l else m !! d.
Proof.
  revert m. induction ds as [|d0 ds IH]; intros m; cbn [foldl].
  { rewrite decide_False; [done|]. apply not_elem_of_nil. }
  rewrite IH. destruct (decide (d ∈ ds)).
  - rewrite decide_True; [done|]. by right.
  - destruct (decide (d = d0)) as [->|Hd].
    + rewrite lookup_insert_eq, decide_True; [done|left].
    + rewrite lookup_insert_ne, decide_False; [done|set_solver|done].
Qed.

Lemma setDomains_ok l ds r r' :
  setDomains l ds r = (r', Ok tt) →
  (∀ d l', d ∈ ds → domainMap r !! d = Some l' → l' = l) ∧
  heap r' = alter (λ res, res <| domains := ds |>) l (heap r) ∧ names r' = names r ∧ ports r' = ports r ∧
  (∀ d, domainMap r' !! d = if decide (d ∈ ds) then Some l
        else drop_domains l (default [] (domains <$> heap r !! l)) (domainMap r) !! d).
Proof.
  unfold setDomains. destruct (domain_holder l ds r) as [d|] eqn:Hh; [done|]. intros [= <-].
  split; [|split_and!; [done..|apply set_domain_entries]].
  intros d l' Hin Hd. unfold domain_holder in Hh.
  pose proof (find_none _ _ Hh) as Hall. simpl in Hall.
  specialize (Hall d Hin). rewrite Hd in Hall. apply negb_false_iff in Hall. by apply bool_decide_eq_true_1 in Hall.
Qed.

Lemma inv_setDomains l ds r :
  is_Some (heap r !! l) → inv r → inv (setDomains l ds r).1.
Proof.
  intros [res0 Hl0] Hi. destruct (setDomains l ds r) as [r' [[]|d]] eqn:Hs; cbn.
  2:{ unfold setDomains in Hs. by destruct (domain_holder l ds r); simplify_eq. }
  destruct (setDomains_ok _ _ _ _ Hs) as (Hfree & Hh & Hn & _ & Hd).
  assert (∀ l', l' ≠ l → heap r' !! l' = heap r !! l') as Hne.
  { intros. by rewrite Hh, lookup_alter_ne. }
  assert (heap r' !! l = Some (res0 <| domains := ds |>)) as Hl by (by rewrite Hh, lookup_alter_eq, Hl0).
  split.
  - intros n l'. rewrite Hn. intros Hl'. destruct (inv_name r Hi _ _ Hl') as (res & ? & ?).
    destruct (decide (l' = l)) as [->|?]; [|exists res; by rewrite Hne].
    exists (res0 <| domains := ds |>). split; [done|]. simpl. congruence.
  - intros d l'. rewrite Hd. case_decide as Hin.
    + intros [= <-]. exists (res0 <| domains := ds |>). done.
    + rewrite lookup_drop_domains, Hl0. simpl. case_decide as Hd'; [done|]. intros Hm.
      destruct (inv_domain r Hi _ _ Hm) as (res & Hres & ?).
      destruct (decide (l' = l)) as [->|?]; [naive_solver|]. exists res. by rewrite Hne.
  - intros l' res d [Hh' Hn'] Hin. rewrite Hn in Hn'. rewrite Hd.
    destruct (decide (l' = l)) as [->|Hll].
    + rewrite Hl in Hh'. simplify_eq. simpl in Hin. by rewrite decide_True.
    + rewrite Hne in Hh' by done. pose proof (inv_owner r Hi l' res d (conj Hh' Hn') Hin) as Ho.
      rewrite decide_False by (intros Hds; apply Hll; by eapply Hfree).
      rewrite lookup_drop_domains. case_decide; naive_solver.
Qed.

Lemma ports_setDomains pend l ds r : ports_ok pend r → ports_ok pend (setDomains l ds r).1.
Proof.
  intros Ho. unfold setDomains. case_match; [done|]. cbn.
  eapply ports_frame; [..|apply (ports_update pend l (λ res, res <| domains := ds |>) r); [done|done|exact Ho]]; done.
Qed.

Section claim_ops.
Context `{MapRange}.

(** What a claim does: nothing, a new reservation, or a change of the one
that exists. *)
Inductive claim_cases n ty tok agent sess mx (r : nameRegistry)
    : nameRegistry * result rule_err (loc * bool) → Prop :=
| claim_err e : claim_cases n ty tok agent sess mx r (r, Err e)
| claim_new : names r !! n = None → ((0 < mx)%Z → (activeLocked r tok None < mx)%Z) →
    claim_cases n ty tok agent sess mx r
      (add_reservation (mkReservation n ty tok agent 0 [] false (Some sess) None false 0) r,
       Ok (fresh_loc r, false))
| claim_old l res st : live r l res → name res = n → may_claim (holder_at r sess (Some l)) tok agent →
    ((0 < mx)%Z → (activeLocked r tok (Some l) < mx)%Z) →
    st = (if bool_decide (is_Some (session res)) then match tunnel res with Some t => [t] | None => [] end else []) →
    claim_cases n ty tok agent sess mx r
      (update l (rebind ty agent sess) (r <| stopped := stopped r ++ st |>), Ok (l, true)).

Lemma claim_cases_of n ty tok agent sess mx r :
  inv r → claim_cases n ty tok agent sess mx r (claim n ty tok agent sess mx r).
Proof.
  intros Hi. unfold claim. destruct (Decide _ _ _ _ _) as [d|e] eqn:Hd; [|constructor].
  apply Decide_ok in Hd as (Hmay & Hcap & Hdec). destruct (names r !! n) as [l|] eqn:Hn.
  - destruct (inv_name r Hi _ _ Hn) as (res & Hl & <-).
    assert (holder_at r sess (Some l) = Some (mkHolder (tokenID res) (agentID res)
      (bool_decide (is_Some (session res))) (bool_decide (session res = Some sess)))) as Hh.
    { unfold holder_at. simpl. by rewrite Hl. }
    rewrite Hh in Hdec. unfold decision_of in Hdec. simpl in Hdec. simpl. rewrite Hl. simpl.
    destruct (bool_decide (is_Some (session res))) eqn:Hs; subst d;
      (apply (claim_old _ _ _ _ _ _ _ l res); [done|done|done|done|by rewrite Hs]).
  - simpl in Hdec. subst d. by apply claim_new.
Qed.

Lemma inv_claim n ty tok agent sess mx r : inv r → inv (claim n ty tok agent sess mx r).1.
Proof.
  intros Hi. destruct (claim_cases_of n ty tok agent sess mx r Hi) as [|Hn _|l res st]; cbn [fst]; [done| |].
  - by apply inv_add.
  - apply inv_update; [intros x; apply (stop_timer_frame x)..|]. by apply (inv_frame r).
Qed.

Lemma ports_claim pend n ty tok agent sess mx r :
  inv r → ports_ok pend r → ports_ok pend (claim n ty tok agent sess mx r).1.
Proof.
  intros Hi Ho. destruct (claim_cases_of n ty tok agent sess mx r Hi) as [|Hn _|l res st]; cbn [fst]; [done| |].
  - by apply ports_add.
  - apply ports_update; [intros x; apply (stop_timer_frame x)..|]. by apply (ports_frame _ r).
Qed.

(** The reservation a claim returns is live and belongs to the session. *)
Lemma claim_live n ty tok agent sess mx r r' l existed :
  inv r → claim n ty tok agent sess mx r = (r', Ok (l, existed)) →
  ∃ res, live r' l res ∧ name res = n ∧ session res = Some sess ∧ (existed = false → port res = 0%Z).
Proof.
  intros Hi Hc. pose proof (claim_cases_of n ty tok agent sess mx r Hi) as Hcs. rewrite Hc in Hcs.
  inversion Hcs as [|Hn _|l' res st Hl Hname]; subst.
  - eexists. rewrite live_add by done. split; [by left|done].
  - exists (rebind ty agent sess res). split; [|split; [apply (stop_timer_frame res)|done]].
    apply live_update_same; [intros x; apply (stop_timer_frame x)|done].
Qed.
End claim_ops.

(** Parking, rolling back and expiring. *)
Lemma inv_park now l sess r : inv r → inv (park now l sess r).
Proof.
  intros Hi. unfold park. destruct (heap r !! l) as [res|]; [|done].
  repeat (case_match; try done); try (apply inv_delete); repeat (apply inv_update; [done|done|]); done.
Qed.

Lemma ports_park pend now l sess r : inv r → ports_ok pend r → ports_ok pend (park now l sess r).
Proof.
  intros Hi Ho. unfold park. destruct (heap r !! l) as [res|] eqn:Hl; [|done].
  destruct (negb (bool_decide (session res = Some sess))); [done|].
  set (r1 := update l _ r). assert (ports_ok pend r1) as Ho1 by (by apply ports_update).
  assert (inv r1) as Hi1 by (by apply inv_update).
  destruct (bool_decide (names r1 !! name res = Some l)) eqn:Hn; cbn [negb]; [|done].
  apply bool_decide_eq_true_1 in Hn.
  assert (live r1 l (unbind res)) as Hlive by (by apply live_update_same).
  destruct (_ && negb (permanent res)); [by eapply ports_delete|].
  destruct (negb (permanent res)); [by apply ports_update|done].
Qed.

Lemma inv_rollback now l sess existed r : inv r → inv (rollback now l sess existed r).
Proof.
  intros Hi. unfold rollback. destruct existed; [by apply inv_park|].
  destruct (heap r !! l); [|done]. case_match; [by apply inv_delete|done].
Qed.

Lemma inv_expire l r : inv r → inv (expire l r).
Proof. intros Hi. unfold expire. destruct (heap r !! l); [|done]. case_match; [by apply inv_delete|done]. Qed.

Lemma ports_expire pend l r : inv r → ports_ok pend r → ports_ok pend (expire l r).
Proof.
  intros Hi Ho. unfold expire. destruct (heap r !! l) as [res|] eqn:Hl; [|done].
  case_match; [|done]. bool_facts. by apply (ports_delete _ _ res).
Qed.

(** Ports. *)
Lemma ports_reservePort pend p r r' :
  p ≠ 0%Z → ports_ok pend r → reservePort p r = (r', true) → ports_ok ({[p]} ∪ pend) r' ∧ p ∉ pend.
Proof.
  intros H0 Ho. unfold reservePort. case_bool_decide as Hp; intros [= <-].
  assert (∀ l res, live r l res → port res ≠ p) as Hfree.
  { intros l res Hl <-. apply Hp, (po_exact _ _ Ho). right. eauto. }
  assert (p ∉ pend) as Hpend by (intros ?; apply Hp, (po_exact _ _ Ho); by left).
  split; [|done]. split.
  - intros q. cbn. rewrite elem_of_union, elem_of_singleton, (po_exact _ _ Ho), elem_of_union, elem_of_singleton.
    unfold live. cbn. tauto.
  - intros *. apply Ho.
  - intros l res Hl Hz. rewrite not_elem_of_union, not_elem_of_singleton.
    split; [by eapply Hfree|by eapply (po_pend _ _ Ho)].
Qed.

Lemma ports_releasePort pend p r :
  p ∈ pend → ports_ok pend r → ports_ok (pend ∖ {[p]}) (releasePort p r).
Proof.
  intros Hin Ho. split.
  - intros q. cbn. rewrite !elem_of_difference, !elem_of_singleton, (po_exact _ _ Ho). unfold live. cbn. split.
    + intros [[?|?] ?]; [by left|by right].
    + intros [[? ?]|(Hz & l & res & Hl & <-)]; [by split; [left|]|]. split; [by right; eauto 10|].
      intros Heq. apply (po_pend _ _ Ho l res Hl Hz). by rewrite Heq.
  - intros *. apply Ho.
  - intros l res Hl Hz. rewrite elem_of_difference. intros [? _]. by eapply (po_pend _ _ Ho).
Qed.

Lemma ports_setPort pend l res p r :
  p ≠ 0%Z → live r l res → p = port res ∨ p ∈ pend → ports_ok pend r →
  ports_ok (pend ∖ {[p]}) (setPort l p r).
Proof.
  intros H0 Hl Hp Ho. pose proof (proj1 Hl) as Hh. unfold setPort. rewrite Hh. simpl.
  set (r1 := if negb (port res =? 0)%Z && negb (port res =? p)%Z then r <| ports := ports r ∖ {[port res]} |> else r).
  assert (heap r1 = heap r ∧ names r1 = names r) as [Hh1 Hn1] by (by subst r1; case_match).
  assert (∀ q, q ∈ ports r1 ↔ q ∈ ports r ∧ (q = p ∨ q ≠ port res ∨ port res = 0%Z)) as Hports.
  { intros q. subst r1. destruct (Z.eqb_spec (port res) 0), (Z.eqb_spec (port res) p); cbn;
      rewrite ?elem_of_difference, ?elem_of_singleton; destruct (decide (q = port res)); naive_solver. }
  assert (∀ l' res', live (update l (λ res, res <| port := p |>) r1) l' res' ↔
            (l' = l ∧ res' = res <| port := p |>) ∨ (l' ≠ l ∧ live r l' res')) as Hlive.
  { intros l' res'. rewrite live_update by done. unfold live. rewrite Hh1, Hn1.
    destruct (decide (l' = l)) as [->|Hll].
    - split; [|naive_solver]. intros (x & [Hx _] & ->). left. split; [done|]. congruence.
    - naive_solver. }
  assert (∀ l' res', l' ≠ l → live r l' res' → port res' ≠ p) as Hfree.
  { intros l' res' Hll Hl' Hpp. destruct Hp as [->|Hp].
    - apply Hll. apply (po_unique _ _ Ho l' l res' res); congruence.
    - apply (po_pend _ _ Ho l' res' Hl'); [congruence|by rewrite Hpp]. }
  split.
  - intros q. change (ports (update l _ r1)) with (ports r1).
    rewrite Hports, (po_exact _ _ Ho), elem_of_difference, elem_of_singleton. setoid_rewrite Hlive.
    destruct (decide (q = p)) as [->|Hq]; [split; [naive_solver|]|split].
    + intros _. split; [|by left]. destruct Hp as [->|Hp]; [right; eauto|by left].
    + intros [[?|(Hz & l' & res' & Hl' & <-)] Hor]; [by left|right].
      split; [done|]. exists l', res'. split; [|done]. right. split; [|done]. intros ->.
      assert (res' = res) as -> by (destruct Hl, Hl'; congruence). naive_solver.
    + intros [[? _]|(Hz & l' & res' & [[-> ->]|[Hll Hl']] & Hpp)]; [|by simpl in Hpp|].
      * split; [by left|]. right. destruct (decide (port res = 0%Z)) as [|Hz]; [by right|left].
        intros ->. by apply (po_pend _ _ Ho l res).
      * split; [right; eauto|]. right. destruct (decide (port res = 0%Z)) as [|Hz']; [by right|left].
        intros Heq. apply Hll. apply (po_unique _ _ Ho l' l res' res); congruence.
  - intros l1 l2 res1 res2 [[-> ->]|[? Hl1]]%Hlive [[-> ->]|[? Hl2]]%Hlive; simpl.
    + done.
    + intros Heq _. by destruct (Hfree l2 res2).
    + intros Heq _. by destruct (Hfree l1 res1).
    + by apply (po_unique _ _ Ho).
  - intros l' res' [[-> ->]|[? Hl']]%Hlive Hz; rewrite elem_of_difference, elem_of_singleton; simpl; [tauto|].
    intros [? _]. by eapply (po_pend _ _ Ho).
Qed.

Lemma inv_ports f r : inv r → inv (r <| ports := f |>).
Proof. by apply inv_frame. Qed.

Lemma inv_setPort l p r : inv r → inv (setPort l p r).
Proof. intros Hi. unfold setPort. apply inv_update; [done|done|]. case_match; [by apply inv_ports|done]. Qed.

(** Operator reservations. *)
Definition make_permanent (res : reservation) : reservation := stop_timer (res <| permanent := true |>).

Lemma make_permanent_frame res :
  name (make_permanent res) = name res ∧ domains (make_permanent res) = domains res ∧
  port (make_permanent res) = port res.
Proof. unfold make_permanent. destruct (stop_timer_frame (res <| permanent := true |>)) as (-> & -> & -> & _). done. Qed.

Lemma reserve_found n tok p r l res :
  live r l res → name res = n → tokenID res = tok → (p = 0%Z ∨ p = port res ∨ p ∉ ports r) →
  reserve n tok p r =
  (update l make_permanent (if negb (p =? 0)%Z && negb (port res =? p)%Z
                            then setPort l p (reservePort p r).1 else r), Ok tt).
Proof.
  intros Hl <- <- Hp. unfold reserve. destruct Hl as [Hh Hn]. rewrite Hn. simpl. rewrite Hh. simpl.
  rewrite String.eqb_refl. simpl.
  destruct (Z.eqb_spec p 0) as [->|Hp0]; simpl; [done|].
  destruct (Z.eqb_spec (port res) p) as [Hpp|Hpp]; simpl; [done|].
  assert (p ∉ ports r) as Hnot by naive_solver. rewrite bool_decide_false by done.
  unfold setPort, reservePort. rewrite bool_decide_false by done. simpl. rewrite Hh. simpl.
  rewrite (proj2 (Z.eqb_neq _ _) Hpp), andb_true_r. f_equal. f_equal. f_equal.
  destruct (Z.eqb_spec (port res) 0); simpl; [done|]. unfold set_field. simpl. f_equal. set_solver.
Qed.

Definition operator_reservation (n tok : string) : reservation :=
  mkReservation n TUNNEL_TYPE_UNSPECIFIED tok "" 0 [] false None None false 0.

(** What an operator's reservation does: it fails and changes nothing, or it
makes a live reservation (found or new) permanent, with its new port. *)
Lemma reserve_cases n tok p r :
  inv r →
  (∃ e, reserve n tok p r = (r, Err e)) ∨
  (∃ r1 l res, (r1 = r ∨ (names r !! n = None ∧ r1 = add_reservation (operator_reservation n tok) r)) ∧
     live r1 l res ∧ name res = n ∧ tokenID res = tok ∧ (p = 0%Z ∨ p = port res ∨ p ∉ ports r1) ∧
     reserve n tok p r = reserve n tok p r1).
Proof.
  intros Hi. destruct (names r !! n) as [l|] eqn:Hn.
  - destruct (inv_name r Hi _ _ Hn) as (res & Hl & Hname).
    destruct (decide (tokenID res = tok)) as [Ht|Ht].
    + destruct (decide (p = 0%Z ∨ p = port res ∨ p ∉ ports r)) as [Hp|Hp].
      * right. exists r, l, res. split; [by left|]. split; [by split; [|rewrite Hname]|done].
      * left. exists ErrPortTaken. unfold reserve. rewrite Hn. simpl. rewrite Hl. simpl.
        rewrite Ht, String.eqb_refl. simpl. rewrite (proj2 (Z.eqb_neq p 0)) by naive_solver.
        rewrite (proj2 (Z.eqb_neq (port res) p)) by naive_solver. simpl.
        destruct (decide (p ∈ ports r)); [by rewrite bool_decide_true|naive_solver].
    + left. exists ErrNameTaken. unfold reserve. rewrite Hn. simpl. rewrite Hl. simpl.
      by rewrite (proj2 (String.eqb_neq _ _) Ht).
  - destruct (decide (p = 0%Z ∨ p ∉ ports r)) as [Hp|Hp].
    + right. exists (add_reservation (operator_reservation n tok) r), (fresh_loc r), (operator_reservation n tok).
      split; [by right|]. split; [by apply live_add; [|left]|]. split_and!; [done|done|cbn; naive_solver|].
      unfold reserve, add_reservation. rewrite Hn. simpl. rewrite !lookup_insert_eq. simpl.
      rewrite lookup_insert_eq. simpl. rewrite String.eqb_refl. simpl.
      destruct (Z.eqb_spec p 0) as [->|Hp0]; simpl; [done|].
      rewrite (bool_decide_false (p ∈ ports r)) by naive_solver. simpl.
      destruct p; try done.
    + left. exists ErrPortTaken. unfold reserve. rewrite Hn. simpl.
      rewrite (proj2 (Z.eqb_neq p 0)) by naive_solver. simpl.
      destruct (decide (p ∈ ports r)); [by rewrite bool_decide_true|naive_solver].
Qed.

Lemma reserve_ok pend n tok p r :
  inv r → ports_ok pend r → inv (reserve n tok p r).1 ∧ ports_ok pend (reserve n tok p r).1.
Proof.
  intros Hi Ho. destruct (reserve_cases n tok p r Hi) as [[e ->]|(r1 & l & res & Hr1 & Hl & Hn & Ht & Hp & ->)]; [done|].
  assert (inv r1 ∧ ports_ok pend r1) as [Hi1 Ho1].
  { destruct Hr1 as [->|[Hnew ->]]; [done|]. split; [by apply inv_add|by apply ports_add]. }
  rewrite (reserve_found _ _ _ _ l res) by done. cbn [fst].
  assert (∀ x, name (make_permanent x) = name x) as Hm1 by (intros; apply make_permanent_frame).
  assert (∀ x, port (make_permanent x) = port x) as Hm2 by (intros; apply make_permanent_frame).
  assert (∀ x, domains (make_permanent x) = domains x) as Hm3 by (intros; apply make_permanent_frame).
  split; [apply inv_update|apply ports_update]; try done.
  - case_match; [|done]. apply inv_setPort. unfold reservePort. case_match; [done|by apply inv_ports].
  - destruct (Z.eqb_spec p 0); simpl; [done|]. destruct (Z.eqb_spec (port res) p); simpl; [done|].
    assert (p ∉ ports r1) as Hnot by naive_solver.
    assert (reservePort p r1 = ((reservePort p r1).1, true)) as Hres.
    { unfold reservePort. by rewrite bool_decide_false. }
    destruct (ports_reservePort pend p r1 (reservePort p r1).1) as [Ho2 Hpend]; [done..|].
    replace pend with (({[p]} ∪ pend) ∖ {[p]}) by set_solver.
    apply (ports_setPort _ l res); [done| |set_solver|done].
    unfold reservePort. by rewrite bool_decide_false.
Qed.

Lemma unreserve_ok pend n r :
  inv r → ports_ok pend r → inv (unreserve n r) ∧ ports_ok pend (unreserve n r).
Proof.
  intros Hi Ho. unfold unreserve. destruct (names r !! n) as [l|] eqn:Hn; simpl; [|done].
  destruct (inv_name r Hi _ _ Hn) as (res & Hl & Hname). rewrite Hl. simpl.
  destruct (negb (permanent res)); [done|].
  set (r1 := update l _ r). assert (inv r1) as Hi1 by (by apply inv_update).
  assert (ports_ok pend r1) as Ho1 by (by apply ports_update).
  case_match; [|done]. split; [by apply inv_delete|]. eapply (ports_delete _ l); [done| |done].
  apply live_update; [done|]. exists res. split; [|done]. by split; [|rewrite Hname].
Qed.

(** A loop over the names that deletes some of the reservations it visits. *)
Lemma delete_loop {A} pend (f : nameRegistry * A → string * loc → nameRegistry * A) l acc :
  inv acc.1 → ports_ok pend acc.1 → NoDup l.*1 → (∀ n x, (n, x) ∈ l → names acc.1 !! n = Some x) →
  (∀ acc n x res, inv acc.1 → ports_ok pend acc.1 → live acc.1 x res → name res = n →
     inv (f acc (n, x)).1 ∧ ports_ok pend (f acc (n, x)).1 ∧
     (∀ m y, y ≠ x → names (f acc (n, x)).1 !! m = Some y ↔ names acc.1 !! m = Some y)) →
  inv (foldl f acc l).1 ∧ ports_ok pend (foldl f acc l).1.
Proof.
  intros Hi Ho Hnd Hl Hf. revert acc Hi Ho Hl. induction l as [|[n x] l IH]; intros acc Hi Ho Hl; [done|].
  rewrite fmap_cons in Hnd. apply NoDup_cons in Hnd as [Hn Hnd]. simpl in Hn.
  assert (names acc.1 !! n = Some x) as Hx by (apply Hl; left).
  destruct (inv_name _ Hi _ _ Hx) as (res & Hres & Hname).
  destruct (Hf acc n x res) as (Hi' & Ho' & Hnames); [done..|by split; [|rewrite Hname]|done|]. cbn [foldl].
  apply IH; [done..|]. intros m y Hin. apply Hnames.
  - intros ->. pose proof (Hl m x ltac:(by right)) as Hm.
    destruct (inv_name _ Hi _ _ Hm) as (res' & Hres' & Hname').
    apply Hn. apply list_elem_of_fmap. exists (m, x). split; [|done]. simpl. congruence.
  - apply Hl. by right.
Qed.

Lemma releaseToken_ok `{MapRange} pend tok r :
  inv r → ports_ok pend r →
  inv (releaseToken tok r).1 ∧ ports_ok pend (releaseToken tok r).1.
Proof.
  intros Hi Ho. unfold releaseToken. apply delete_loop; [done|done|apply NoDup_range| |].
  { intros n x. by rewrite elem_of_range. }
  intros [r1 ss] n x res Hi1 Ho1 Hl Hn. cbn in Hi1, Ho1, Hl. cbn. rewrite (proj1 Hl).
  destruct (String.eqb _ _); [|done]. cbn. split_and!; [by apply inv_delete|by eapply ports_delete|].
  intros m y Hy. rewrite names_deleteLocked by done. tauto.
Qed.

Lemma close_ok `{MapRange} pend r :
  inv r → ports_ok pend r → inv (close r) ∧ ports_ok pend (close r).
Proof.
  intros Hi Ho. unfold close. set (r0 := r <| closed := true |>).
  assert (inv r0) as Hi0 by (by apply (inv_frame r)).
  assert (ports_ok pend r0) as Ho0 by (by apply (ports_frame _ r)).
  set (g := λ (r : nameRegistry) (p : string * loc), let '(_, l) := p in
    match heap r !! l with
    | Some res => if bool_decide (session res = None)
                  then let r := update l stop_timer r in if negb (permanent res) then deleteLocked l r else r
                  else r
    | None => r
    end).
  assert (∀ l r, (foldl (λ (acc : nameRegistry * unit) p, (g acc.1 p, tt)) (r, tt) l).1 = foldl g r l) as Heq.
  { intros l. induction l as [|p l IH]; intros r'; [done|]. cbn [foldl fst]. apply IH. }
  change (inv (foldl g r0 (range (names r0))) ∧ ports_ok pend (foldl g r0 (range (names r0)))).
  rewrite <-Heq. apply delete_loop; [done|done|apply NoDup_range| |].
  { intros n x. by rewrite elem_of_range. }
  intros [r1 []] n x res Hi1 Ho1 Hl Hn. cbn in Hi1, Ho1, Hl. cbn. rewrite (proj1 Hl).
  destruct (bool_decide _); [|done].
  assert (inv (update x stop_timer r1)) as Hi2 by (apply inv_update; [intros y; apply (stop_timer_frame y)..|done]).
  assert (ports_ok pend (update x stop_timer r1)) as Ho2 by (apply ports_update; [intros y; apply (stop_timer_frame y)..|done]).
  destruct (negb _); [|done]. split_and!; [by apply inv_delete| |].
  - apply (ports_delete _ x (stop_timer res)); [done| |done].
    apply live_update_same; [intros y; apply (stop_timer_frame y)|done].
  - intros m y Hy. rewrite names_deleteLocked by done. tauto.
Qed.

Lemma live_fresh_ports pend r l res :
  ports_ok pend r → live r l res → port res ≠ 0%Z → port res ∈ ports r.
Proof. intros Ho Hl H0. apply (po_exact _ _ Ho). right. eauto. Qed.
