(* ===== verification/NameRegistrySpec.v ===== *)
(** * The relay's registry of names: what it promises

Which tunnel a name or a custom domain leads to, holding a name through a
disconnect, and what the calls of different sessions can do to each other. *)

From S2P Require Import Prelude GoStrings Protocol Policy NameRegistry NameRegistryInv.
From stdpp Require Import options.
#[local] Open Scope l8_scope.
Import Rules.

(** ** Any interleaving of calls *)

Section calls.
Context `{MapRange}.

(** One call of the registry by some session, timer or operator. *)
Inductive call (r : nameRegistry) : nameRegistry → Prop :=
| call_claim n ty tok agent sess mx : call r (claim n ty tok agent sess mx r).1
| call_activate l t : call r (activate l t r)
| call_park now l sess : call r (park now l sess r)
| call_rollback now l sess existed : call r (rollback now l sess existed r)
| call_expire l : call r (expire l r)
| call_setDomains l ds : is_Some (heap r !! l) → call r (setDomains l ds r).1
| call_reserve n tok p : call r (reserve n tok p r).1
| call_unreserve n : call r (unreserve n r)
| call_releaseToken tok : call r (releaseToken tok r).1
| call_reservePort p : call r (reservePort p r).1
| call_releasePort p : call r (releasePort p r)
| call_setPort l p : call r (setPort l p r)
| call_close : call r (close r).

Definition calls (g : Z) : nameRegistry → Prop := rtc call (newNameRegistry g).

Lemma inv_reserve n tok p r : inv r → inv (reserve n tok p r).1.
Proof.
  intros Hi. destruct (reserve_cases n tok p r Hi) as [[e ->]|(r1 & l & res & Hr1 & Hl & Hn & Ht & Hp & ->)]; [done|].
  assert (inv r1) as Hi1 by (destruct Hr1 as [->|[Hnew ->]]; [done|by apply inv_add]).
  rewrite (reserve_found _ _ _ _ l res) by done. cbn [fst].
  apply inv_update; [intros x; apply (make_permanent_frame x)..|].
  case_match; [|done]. apply inv_setPort. unfold reservePort. case_match; [done|by apply inv_ports].
Qed.

Lemma inv_unreserve n r : inv r → inv (unreserve n r).
Proof.
  intros Hi. unfold unreserve. case_match; [|done]. case_match. case_match; [done|].
  case_match; [apply inv_delete|]; by apply inv_update.
Qed.

Lemma inv_releaseToken tok r : inv r → inv (releaseToken tok r).1.
Proof.
  intros Hi. unfold releaseToken. apply (foldl_inv (λ acc : nameRegistry * list session_id, inv acc.1)); [done|].
  intros [r1 ss] [n l] _ Hi1. cbn in *. case_match; [|done]. case_match; [by apply inv_delete|done].
Qed.

Lemma inv_close r : inv r → inv (close r).
Proof.
  intros Hi. unfold close. apply foldl_inv; [by apply (inv_frame r)|].
  intros r1 [n l] _ Hi1. case_match; [|done]. case_match; [|done].
  assert (inv (update l stop_timer r1)) by (apply inv_update; [intros y; apply (stop_timer_frame y)..|done]).
  case_match; [by apply inv_delete|done].
Qed.

Lemma call_inv r r' : call r r' → inv r → inv r'.
Proof.
  intros [] Hi.
  - by apply inv_claim.
  - by apply inv_update.
  - by apply inv_park.
  - by apply inv_rollback.
  - by apply inv_expire.
  - by apply inv_setDomains.
  - by apply inv_reserve.
  - by apply inv_unreserve.
  - by apply inv_releaseToken.
  - unfold reservePort. case_match; [done|by apply inv_ports].
  - by apply inv_ports.
  - by apply inv_setPort.
  - by apply inv_close.
Qed.

Lemma calls_inv g r : calls g r → inv r.
Proof.
  unfold calls. intros Hc. assert (inv (newNameRegistry g)) as Hi.
  { split; intros *; unfold live; cbn; rewrite lookup_empty; naive_solver. }
  revert Hc Hi. induction 1; eauto using call_inv.
Qed.
End calls.

Lemma domain_owner_first d r l :
  (domainMap r !! d = Some l ∨
   domainMap r !! d = None ∧
   ∃ k w, WildcardsOf d !! k = Some w ∧ domainMap r !! w = Some l ∧
          ∀ j w', j < k → WildcardsOf d !! j = Some w' → domainMap r !! w' = None) →
  domain_owner d r = Some l.
Proof.
  unfold domain_owner. generalize (WildcardsOf d) as ws. intros ws.
  assert (∀ ws l, foldl (λ (res : option loc) w, match res with Some _ => res | None => domainMap r !! w end)
                        (Some l) ws = Some l) as Hkeep by (intros ws'; induction ws'; naive_solver).
  intros [->|(-> & k & w & Hk & Hw & Hlt)]; [apply Hkeep|].
  revert k Hk Hlt. induction ws as [|w0 ws IH]; intros k Hk Hlt; [done|]. destruct k as [|k]; simpl in *.
  - simplify_eq. rewrite Hw. apply Hkeep.
  - rewrite (Hlt 0 w0); [|lia|done]. apply (IH k Hk). intros j w' Hj. apply (Hlt (S j)). lia.
Qed.

(** ** Theorems *)

Section theorems.
Context `{MapRange}.

(** routing by custom domain, however the sessions' calls interleaved: a
domain of a live reservation leads to that reservation, and a host without an
exact owner to the owner of the closest wildcard that covers it. *)
Theorem lookupDomain_spec g r d l res :
  calls g r → live r l res →
  (d ∈ domains res ∨
   domainMap r !! d = None ∧
   ∃ k w, WildcardsOf d !! k = Some w ∧ w ∈ domains res ∧
          ∀ j w', j < k → WildcardsOf d !! j = Some w' → domainMap r !! w' = None) →
  lookupDomain d r = (tunnel res, typ res, name res, true).
Proof.
  intros Hi%calls_inv Hl Hd. unfold lookupDomain.
  rewrite (domain_owner_first d r l); [simpl; by rewrite (proj1 Hl)|].
  destruct Hd as [Hd|(Hn & k & w & Hk & Hw & Hlt)]; [left; by apply (inv_owner r Hi l res)|right].
  split; [done|]. exists k, w. split_and!; [done|by apply (inv_owner r Hi l res)|done].
Qed.

(** C14: however the sessions' calls interleave, every name leads to one
reservation of that name, and two live reservations never share a custom
domain. *)
Theorem live_domains_exclusive g r :
  calls g r →
  (∀ n l, names r !! n = Some l → ∃ res, live r l res ∧ name res = n) ∧
  (∀ l1 l2 res1 res2 d, live r l1 res1 → live r l2 res2 →
     d ∈ domains res1 → d ∈ domains res2 → l1 = l2).
Proof.
  intros Hi%calls_inv. split.
  - intros n l Hn. destruct (inv_name r Hi _ _ Hn) as (res & Hres & <-). by exists res.
  - intros l1 l2 res1 res2 d H1 H2 Hd1 Hd2.
    pose proof (inv_owner r Hi _ _ _ H1 Hd1) as Ho. rewrite (inv_owner r Hi _ _ _ H2 Hd2) in Ho. congruence.
Qed.

(** Parking a session's own live reservation (on a standalone relay that is not
shutting down) only unbinds it. *)
Lemma park_update now r l res sess :
  live r l res → session res = Some sess → closed r = false → clustered r = false →
  ∃ f, park now l sess r = update l f r ∧ (∀ x, name (f x) = name x) ∧ (∀ x, domains (f x) = domains x) ∧
    (∀ x, port (f x) = port x) ∧ tokenID (f res) = tokenID res ∧ session (f res) = None ∧ tunnel (f res) = None ∧
    (permanent res = false → timer (f res) = true ∧ expires (f res) = (now + grace r)%Z) ∧ permanent (f res) = permanent res.
Proof.
  intros Hl Hs Hcl Hclu. unfold park. rewrite (proj1 Hl), bool_decide_true by done. cbn [negb].
  rewrite bool_decide_true by exact (proj2 Hl). cbn [negb].
  change (closed (update l unbind r)) with (closed r). change (clustered (update l unbind r)) with (clustered r).
  rewrite Hcl, Hclu. cbn [orb andb]. destruct (permanent res) eqn:Hp; cbn [negb].
  - exists unbind. done.
  - exists (λ x, unbind x <| expires := (now + grace r)%Z |> <| timer := true |>).
    split; [|done]. rewrite update_update. reflexivity.
Qed.

(** a disconnect does not lose a tunnel's name, port or domains. When the
session of a reservation ends (on a standalone relay that is not shutting
down), the reservation is held, for the grace period if it is not permanent;
the same token then claims the name again and gets the same reservation, with
its port and domains, whichever agent session asks; another token does not. *)
Theorem park_reclaim now r l res sess :
  inv r → live r l res → session res = Some sess → closed r = false → clustered r = false →
  let r1 := park now l sess r in
  (∃ res1, live r1 l res1 ∧ session res1 = None ∧ tunnel res1 = None ∧
     port res1 = port res ∧ domains res1 = domains res ∧
     (permanent res = false → timer res1 = true ∧ expires res1 = (now + grace r)%Z)) ∧
  ports r1 = ports r ∧
  (∀ ty agent sess' mx, ((0 < mx)%Z → (activeLocked r1 (tokenID res) (Some l) < mx)%Z) →
     ∃ r2 res2, claim (name res) ty (tokenID res) agent sess' mx r1 = (r2, Ok (l, true)) ∧
       live r2 l res2 ∧ session res2 = Some sess' ∧ timer res2 = false ∧
       port res2 = port res ∧ domains res2 = domains res) ∧
  (∀ ty tok agent sess' mx, tok ≠ tokenID res →
     claim (name res) ty tok agent sess' mx r1 = (r1, Err ErrNameTaken)).
Proof.
  intros Hi Hl Hs Hcl Hclu r1.
  destruct (park_update now r l res sess Hl Hs Hcl Hclu) as (f & Hr1 & Hfn & Hfd & Hfp & Hft & Hfs & Hfu & Hfx & _). fold r1 in Hr1.
  assert (inv r1) as Hi1 by (rewrite Hr1; by apply inv_update).
  assert (live r1 l (f res)) as Hl1 by (rewrite Hr1; by apply live_update_same).
  split_and!; [exists (f res); by rewrite Hfp, Hfd|by rewrite Hr1|..].
  - intros ty agent sess' mx Hcap. pose proof (claim_cases_of (name res) ty (tokenID res) agent sess' mx r1 Hi1) as Hc.
    assert (names r1 !! name res = Some l) as Hn1 by (rewrite <-(Hfn res); apply Hl1).
    assert (Decide (holder_at r1 sess' (Some l)) (tokenID res) agent (activeLocked r1 (tokenID res) (Some l)) mx
            = Ok DecisionReclaim) as Hdec.
    { apply Decide_ok. unfold holder_at. simpl. rewrite (proj1 Hl1). simpl. rewrite Hft, Hfs.
      by split_and!. }
    unfold claim in *. rewrite Hn1 in *. rewrite Hdec in *. cbn zeta match in *.
    eexists _, (rebind ty agent sess' (f res)). split; [done|].
    destruct (stop_timer_frame (f res)) as (_ & Hd & Hp & _).
    split; [|split_and!; [done| |exact (eq_trans Hp (Hfp res))|exact (eq_trans Hd (Hfd res))]].
    + apply live_update_same; [intros x; apply (stop_timer_frame x)|exact Hl1].
    + unfold rebind, stop_timer. simpl. destruct (timer (f res)) eqn:Ht; simpl; [done|by rewrite Ht].
  - intros ty tok agent sess' mx Htok. unfold claim.
    assert (names r1 !! name res = Some l) as -> by (rewrite <-(Hfn res); apply Hl1).
    unfold holder_at at 1. simpl. rewrite (proj1 Hl1). simpl. unfold Decide. simpl.
    rewrite Hft, (proj2 (String.eqb_neq _ _)) by done. done.
Qed.

(** when the grace period ends with nobody back, the timer frees the
name, the port and the domains; it does nothing to a reservation that is in
use again, is permanent, or lost its name. *)
Theorem expire_spec r l res :
  inv r → live r l res →
  (session res = None → permanent res = false →
     (∀ n, names (expire l r) !! n ≠ Some l) ∧ (∀ d, domainMap (expire l r) !! d ≠ Some l) ∧
     ports (expire l r) = (if (port res =? 0)%Z then ports r else ports r ∖ {[port res]})) ∧
  (session res ≠ None ∨ permanent res = true → expire l r = r).
Proof.
  intros Hi Hl. unfold expire. rewrite (proj1 Hl). rewrite (bool_decide_true (names r !! _ = _)) by apply Hl.
  split.
  - intros Hs Hp. rewrite Hp, bool_decide_true by done. cbn [andb negb]. split_and!.
    + intros n. rewrite names_deleteLocked by done. naive_solver.
    + intros d. rewrite domainMap_deleteLocked by done. naive_solver.
    + unfold deleteLocked. rewrite (proj1 Hl). destruct (Z.eqb_spec (port res) 0); cbn [negb];
        by destruct (bool_decide _).
  - intros [Hs|Hp]; [|by rewrite Hp, andb_false_r]. by rewrite bool_decide_false.
Qed.
End theorems.

(** ** A sample registry *)

Module RegSample.
Definition r0 : nameRegistry := newNameRegistry (5 * minute)%Z.
Definition r1 : nameRegistry := (claim "web" TUNNEL_TYPE_TLS "tok" "agent-1" 1%positive 0 r0).1.
Definition web : loc := fresh_loc r0.
Definition r2 : nameRegistry := (setDomains web ["a.example"; "*.b.example"] r1).1.
Definition r3 : nameRegistry := activate web 7%positive r2.
Definition res3 : reservation :=
  mkReservation "web" TUNNEL_TYPE_TLS "tok" "agent-1" 0 ["a.example"; "*.b.example"] false (Some 1%positive)
    (Some 7%positive) false 0.

Lemma r3_calls : calls (5 * minute)%Z r3.
Proof.
  apply (rtc_l _ _ r1); [exact (call_claim r0 "web" TUNNEL_TYPE_TLS "tok" "agent-1" 1%positive 0)|].
  apply (rtc_l _ _ r2); [apply (call_setDomains r1 web); vm_compute; eexists; reflexivity|].
  apply rtc_once. exact (call_activate r2 web 7%positive).
Defined.
Lemma r3_live : live r3 web res3.
Proof. vm_compute. split; reflexivity. Defined.
Lemma r3_inv : inv r3.
Proof. exact (calls_inv _ _ r3_calls). Defined.
End RegSample.
Import RegSample.

Lemma lookupDomain_spec_witness :
  lookupDomain "x.y.b.example" r3 = (Some 7%positive, TUNNEL_TYPE_TLS, "web", true).
Proof.
  apply (lookupDomain_spec (5 * minute)%Z r3 "x.y.b.example" web res3 r3_calls r3_live). right.
  split; [vm_compute; reflexivity|]. exists 1, "*.b.example". split_and!.
  - vm_compute. reflexivity.
  - vm_compute. right. left.
  - intros [|j] w' Hj; [|lia]. vm_compute. intros [= <-]. reflexivity.
Defined.

Lemma live_domains_exclusive_witness : ∃ res, live r3 web res ∧ name res = "web".
Proof. apply (proj1 (live_domains_exclusive (5 * minute)%Z r3 r3_calls)). vm_compute. reflexivity. Defined.

Lemma park_reclaim_witness :
  claim "web" TUNNEL_TYPE_TLS "other" "agent-2" 2%positive 0 (park 0 web 1%positive r3) = (park 0 web 1%positive r3, Err ErrNameTaken).
Proof.
  refine (proj2 (proj2 (proj2 (park_reclaim 0 r3 web res3 1%positive r3_inv r3_live _ _ _))) _ _ _ _ _ _);
    (reflexivity || discriminate).
Defined.

Lemma expire_spec_witness : expire web r3 = r3.
Proof. apply (proj2 (expire_spec r3 web res3 r3_inv r3_live)). left. discriminate. Defined.

(** ** Calls that race *)

(** a token revoked while one of its sessions is opening a tunnel leaves
the tunnel's custom domains taken: the session records them on a reservation
that already lost its name, and ending the session does not give them back,
so no other tunnel can use the domain until the relay restarts. *)
Theorem revoked_domain_stays_taken :
  let r := (claim "web" TUNNEL_TYPE_TLS "tok" "agent-1" 1%positive 0 (newNameRegistry (5 * minute)%Z)).1 in
  let l := fresh_loc (newNameRegistry (5 * minute)%Z) in
  let r := (releaseToken "tok" r).1 in          (* an operator revokes the token *)
  let r := (setDomains l ["a.example"] r).1 in  (* the session goes on *)
  let r := park 0 l 1%positive (activate l 7%positive r) in       (* and ends *)
  names r = ∅ ∧
  (let r' := (claim "shop" TUNNEL_TYPE_TLS "other" "agent-2" 2%positive 0 r).1 in
   (setDomains (fresh_loc r) ["a.example"] r').2 = Err "a.example").
Proof. split; vm_compute; reflexivity. Qed.

(** a tunnel that finishes opening after its name was taken over replaces
the new session's tunnel: the name then leads to the stale session's tunnel
although the reservation belongs to the new session. *)
Theorem late_activate_shadows_takeover :
  let r0 := newNameRegistry (5 * minute)%Z in
  let l := fresh_loc r0 in
  let r := (claim "web" TUNNEL_TYPE_TLS "tok" "agent-1" 1%positive 0 r0).1 in  (* session 1 is opening *)
  let r := (claim "web" TUNNEL_TYPE_TLS "tok" "agent-1" 2%positive 0 r).1 in   (* the agent reconnects *)
  let r := activate l 20%positive r in                                         (* session 2's tunnel *)
  let r := activate l 10%positive r in                                         (* session 1's tunnel *)
  (session <$> heap r !! l) = Some (Some 2%positive) ∧
  lookup "web" r = (Some 10%positive, TUNNEL_TYPE_TLS, true).
Proof. split; vm_compute; reflexivity. Qed.
