(* ===== verification/RelayTunnels.v ===== *)
(** * Opening and closing tunnels on a relay (go/tunnel/relay/tunnel.go,
session.go, cluster.go, admin.go)

A session registers its tunnels: each is checked against the token's policy,
claimed in the relay's registry (and, in a cluster, by the cluster), bound to
its public port and activated; a failure undoes the whole registration. The
network is a parameter ([can_bind] says which ports the system lets the relay
listen on) and so are random identifiers, the certificates the relay can
serve, the OIDC providers and the cluster. Error texts are left out: an error
is the code the agent gets. *)

From S2P Require Import Prelude GoStrings Protocol Policy NetIP Access NameRegistry.
From stdpp Require Import options.
#[local] Open Scope l8_scope.
Import Rules Auth.

Inductive ErrorCode :=
| ERROR_CODE_UNSPECIFIED | ERROR_CODE_UNAUTHORIZED | ERROR_CODE_UNSUPPORTED_VERSION
| ERROR_CODE_INVALID_REQUEST | ERROR_CODE_UNSUPPORTED_TUNNEL_TYPE | ERROR_CODE_NAME_TAKEN
| ERROR_CODE_PORT_NOT_ALLOWED | ERROR_CODE_PORT_UNAVAILABLE | ERROR_CODE_FORBIDDEN.

(** [remoteErr(code, ...)], or [ErrClusterUnavailable]. *)
Inductive open_err := RemoteErr (code : ErrorCode) | ErrClusterUnavailable.

Record TunnelSpec := mkSpec {
  sName : string;
  sType : TunnelType;
  sPublicPort : N;
  sAccess : AccessPolicy;
  sDomains : list string;
  sPreviousPort : N;
}.

Record Endpoint := mkEndpoint {
  TunnelId : string;
  EName : string;
  EType : TunnelType;
  PublicAddress : string;
  PublicPort : Z;
  Hostname : string;
  EDomains : list string;
}.
#[export] Instance eta_endpoint : Eta Endpoint := λ e,
  mkEndpoint (TunnelId e) (EName e) (EType e) (PublicAddress e) (PublicPort e) (Hostname e) (EDomains e).

Record ClaimRequest := mkClaim {
  crSessionID : session_id;
  crAgentID : string;
  crTokenID : string;
  crMaxTunnels : Z;
  crPortMin : Z;
  crPortMax : Z;
  crTunnelID : string;
  crName : string;
  crHostname : string;
  crType : TunnelType;
  crDomains : list string;
  crPublicPort : Z;
  crPreviousPort : Z;
  crAccessToken : bool;
}.

(** What a relay asks of the rest of the cluster. *)
Record ClusterLink := mkCluster {
  ClaimTunnel : ClaimRequest → result open_err Z;
  OwnerOf : string → option string;
  StreamOwnerOf : string → option (string * bool);
  ForwardKey : string;
}.

(** The OIDC login service. *)
Record LoginService := mkLogin { LoginAuthHost : string; HasProvider : string → bool }.

Record Server := mkServer {
  rules : Rules;
  PublicHost : string;
  publicHTTPSPort : Z;
  CanServeHost : string → bool;
  Login : option LoginService;      (* nil without OIDC *)
  Cluster : option ClusterLink;     (* nil on a standalone relay *)
}.

Record tunnel_t := mkTunnelT {
  tid : tunnel_id;
  tres : loc;
  existed : bool;
  endpoint : Endpoint;
  listener : bool;
  access : Access;
}.

(** Why a session ended; the first closer sets it. *)
Inductive DisconnectReason :=
| ReasonAgentClosed | ReasonHeartbeat | ReasonTokenRevoked | ReasonDrained | ReasonTakeover | ReasonOperator.
#[export] Instance reason_eq_dec : EqDecision DisconnectReason.
Proof. solve_decision. Defined.

Record agentSession := mkSession {
  sid : session_id;
  token : TokenRecord;
  sessAgentID : string;
  tunnels : list tunnel_t;
  reason : DisconnectReason;
}.
#[export] Instance eta_session : Eta agentSession := λ x,
  mkSession (sid x) (token x) (sessAgentID x) (tunnels x) (reason x).

(** What a handler does besides changing the registry: it closes a tunnel or
starts to serve its port, and tells the cluster that names are free again or
held for the grace period. *)
Inductive effect :=
| StopTunnel (t : tunnel_id)
| ServeTunnel (t : tunnel_id)
| ReleaseTunnels (sess : session_id) (names : list string)
| ParkTunnels (sess : session_id) (names : list string).

Definition in_cluster (s : Server) : bool := bool_decide (is_Some (Cluster s)).

Definition hasPublicPort (typ : TunnelType) : bool := tcpLike typ.

(** ** Checks *)

Definition checkDomain `{GoUnicode} (s : Server) (sess : agentSession) (typ : TunnelType) (raw : string)
    : result open_err string :=
  match NormalizeTunnelDomain raw with
  | Err _ => Err (RemoteErr ERROR_CODE_INVALID_REQUEST)
  | Ok d =>
  refuse! IsWildcardDomain d && negb (bool_decide (typ = TUNNEL_TYPE_TLS))
  with RemoteErr ERROR_CODE_INVALID_REQUEST ;;
  refuse! String.eqb d (BaseDomain (rules s)) || HasSuffix ("." +:+ BaseDomain (rules s)) d
          || String.eqb d (ControlSNI (rules s))
  with RemoteErr ERROR_CODE_INVALID_REQUEST ;;
  refuse! negb (AllowsDomain (TPolicy (token sess)) d) with RemoteErr ERROR_CODE_FORBIDDEN ;;
  refuse! isHTTP typ && negb (CanServeHost s d) with RemoteErr ERROR_CODE_INVALID_REQUEST ;;
  Ok d
  end.

Definition checkDomains `{GoUnicode} (s : Server) (sess : agentSession) (typ : TunnelType) (spec : TunnelSpec)
    : result open_err (list string) :=
  match sDomains spec with
  | [] => Ok []
  | _ =>
  refuse! negb (isHTTP typ) && negb (bool_decide (typ = TUNNEL_TYPE_TLS))
  with RemoteErr ERROR_CODE_INVALID_REQUEST ;;
  foldM (λ out raw,
           match checkDomain s sess typ raw with
           | Err e => Err e
           | Ok d => Ok (if bool_decide (d ∈ out) then out else out ++ [d])
           end) [] (sDomains spec)
  end.

Definition checkAccess `{GoUnicode, Crypto} (s : Server) (typ : TunnelType) (spec : TunnelSpec)
    : result open_err Access :=
  match ValidateSpecAccess typ (sPublicPort spec) (sAccess spec) with
  | Err _ => Err (RemoteErr ERROR_CODE_INVALID_REQUEST)
  | Ok a =>
      refuse! (if oidc a is Some rule
               then (if Login s is Some l then negb (HasProvider l (Provider rule)) else true) else false)
      with RemoteErr ERROR_CODE_INVALID_REQUEST ;;
      Ok a
  end.

Definition httpsHost (s : Server) (host : string) : string :=
  if negb (publicHTTPSPort s =? 443)%Z then JoinHostPort host (Itoa (publicHTTPSPort s)) else host.

(** ** Ports *)

Section ports.
Context (can_bind : Z → bool).

Definition tryListen (p : Z) (r : nameRegistry) : nameRegistry * bool :=
  let '(r, ok) := reservePort p r in
  if negb ok then (r, false)
  else if can_bind p then (r, true) else (releasePort p r, false).

(** [for port := lo; port <= hi; port++] until one can be listened on. *)
Fixpoint first_port (fuel : nat) (p hi : Z) (r : nameRegistry) : nameRegistry * option Z :=
  match fuel with
  | O => (r, None)
  | S fuel =>
      if (p <=? hi)%Z then
        let '(r, ok) := tryListen p r in
        if ok : bool then (r, Some p) else first_port fuel (p + 1) hi r
      else (r, None)
  end.

Definition listenTunnelPort `{GoUnicode} (s : Server) (l : loc) (requested previous : Z) (policy : Policy)
    (r : nameRegistry) : nameRegistry * result open_err Z :=
  let held := portOf l r in
  if negb (held =? 0)%Z && ((requested =? 0)%Z || (requested =? held)%Z) then
    if can_bind held then (r, Ok held) else (r, Err (RemoteErr ERROR_CODE_PORT_UNAVAILABLE))
  else if negb (requested =? 0)%Z then
    match CheckRequestedPort (rules s) requested policy with
    | Err ErrPortOutsideRange => (r, Err (RemoteErr ERROR_CODE_PORT_NOT_ALLOWED))
    | Err _ => (r, Err (RemoteErr ERROR_CODE_FORBIDDEN))
    | Ok _ =>
        let '(r, ok) := tryListen requested r in
        if ok : bool then (setPort l requested r, Ok requested)
        else (r, Err (RemoteErr ERROR_CODE_PORT_UNAVAILABLE))
    end
  else
    match AllocationRange (rules s) policy with
    | Err _ => (r, Err (RemoteErr ERROR_CODE_FORBIDDEN))
    | Ok (lo, hi) =>
        let '(r, got) :=
          if (lo <=? previous)%Z && (previous <=? hi)%Z then
            let '(r, ok) := tryListen previous r in (r, if ok : bool then Some previous else None)
          else (r, None) in
        match got with
        | Some p => (setPort l p r, Ok p)
        | None =>
            let '(r, got) := first_port (Z.to_nat (hi - lo + 1)) lo hi r in
            match got with
            | Some p => (setPort l p r, Ok p)
            | None => (r, Err (RemoteErr ERROR_CODE_PORT_UNAVAILABLE))
            end
        end
    end.

(** ** The cluster *)

Definition claimInCluster `{GoUnicode} (s : Server) (c : ClusterLink)
    (sess : agentSession) (e : Endpoint) (a : Access) (spec : TunnelSpec) (policy : Policy) : result open_err Z :=
  let requested := Z.of_N (sPublicPort spec) in
  match (if negb (requested =? 0)%Z && hasPublicPort (EType e)
         then CheckRequestedPort (rules s) requested policy else Ok tt) with
  | Err ErrPortOutsideRange => Err (RemoteErr ERROR_CODE_PORT_NOT_ALLOWED)
  | Err _ => Err (RemoteErr ERROR_CODE_FORBIDDEN)
  | Ok _ =>
      let range := AllocationRange (rules s) policy in
      refuse! negb (is_ok range) && hasPublicPort (EType e) with RemoteErr ERROR_CODE_FORBIDDEN ;;
      let '(lo, hi) := match range with Ok p => p | Err _ => (0, 0)%Z end in
      ClaimTunnel c (mkClaim (sid sess) (sessAgentID sess) (ID (token sess)) (MaxTunnels policy) lo hi
        (TunnelId e) (EName e) (Hostname e) (EType e) (EDomains e) requested
        (Z.of_N (sPreviousPort spec)) (RequiresToken a))
  end.

Definition setEndpointAddress (s : Server) (a : Access) (port : Z) (e : Endpoint) : Endpoint :=
  if hasPublicPort (EType e) && negb (RequiresToken a)
  then e <| PublicPort := uint32 port |> <| PublicAddress := JoinHostPort (PublicHost s) (Itoa port) |>
  else if isHTTP (EType e) then e <| PublicAddress := "https://" +:+ httpsHost s (Hostname e) |>
  else e <| PublicAddress := JoinHostPort (Hostname e) (Itoa (publicHTTPSPort s)) |>.

(** ** Opening a tunnel *)

(** The identifiers of a new tunnel: its identity, its random ID and the
random part of the name it gets when the spec has none. *)
Record ids := mkIds { new_tid : tunnel_id; random_id : string; random_name : string }.

Definition tunnel_name (x : ids) (spec : TunnelSpec) : string :=
  if String.eqb (sName spec) "" then "t-" +:+ random_name x else sName spec.

Definition openTunnel `{GoUnicode, Crypto, MapRange} (s : Server) (now : Z) (sess : agentSession) (x : ids)
    (spec : TunnelSpec) (r : nameRegistry) : nameRegistry * result open_err tunnel_t :=
  let ty := sType spec in
  let policy := TPolicy (token sess) in
  if bool_decide (ty = TUNNEL_TYPE_UNSPECIFIED) then (r, Err (RemoteErr ERROR_CODE_INVALID_REQUEST))
  else if negb (AllowsType policy (TunnelTypeName ty)) then (r, Err (RemoteErr ERROR_CODE_FORBIDDEN))
  else match checkAccess s ty spec with
  | Err e => (r, Err e)
  | Ok a =>
  let n := tunnel_name x spec in
  if negb (ValidName n) then (r, Err (RemoteErr ERROR_CODE_INVALID_REQUEST))
  else if negb (AllowsName policy n) then (r, Err (RemoteErr ERROR_CODE_FORBIDDEN))
  else if IsReserved (rules s) n then (r, Err (RemoteErr ERROR_CODE_INVALID_REQUEST))
  else match checkDomains s sess ty spec with
  | Err e => (r, Err e)
  | Ok ds =>
  match claim n ty (ID (token sess)) (sessAgentID sess) (sid sess) (MaxTunnels policy) r with
  | (r, Err ErrMaxTunnels) => (r, Err (RemoteErr ERROR_CODE_FORBIDDEN))
  | (r, Err _) => (r, Err (RemoteErr ERROR_CODE_NAME_TAKEN))
  | (r, Ok (l, ex)) =>
  match setDomains l ds r with
  | (r, Err _) => (rollback now l (sid sess) ex r, Err (RemoteErr ERROR_CODE_NAME_TAKEN))
  | (r, Ok _) =>
  let host := n +:+ "." +:+ BaseDomain (rules s) in
  let e := mkEndpoint (random_id x) n ty "" 0 host ds in
  let opened r e ln := (activate l (new_tid x) r, Ok (mkTunnelT (new_tid x) l ex e ln a)) in
  match Cluster s with
  | Some c =>
      match claimInCluster s c sess e a spec policy with
      | Err err => (rollback now l (sid sess) ex r, Err err)
      | Ok port => opened r (setEndpointAddress s a port e) false
      end
  | None =>
      if hasPublicPort ty && negb (RequiresToken a) then
        match listenTunnelPort s l (Z.of_N (sPublicPort spec)) (Z.of_N (sPreviousPort spec)) policy r with
        | (r, Err err) => (rollback now l (sid sess) ex r, Err err)
        | (r, Ok p) => opened r (e <| PublicPort := uint32 p |>
                                   <| PublicAddress := JoinHostPort (PublicHost s) (Itoa p) |>) true
        end
      else if isHTTP ty then opened r (e <| PublicAddress := "https://" +:+ httpsHost s host |>) false
      else opened r (e <| PublicAddress := JoinHostPort host (Itoa (publicHTTPSPort s)) |>) false
  end end end end end.

(** ** Registering and closing *)

Inductive reply :=
| Registered (endpoints : list Endpoint)
| ErrorReply (code : ErrorCode)
| EndSession.

(** The tunnels opened so far are closed again, oldest first. *)
Definition undo (s : Server) (now : Z) (sess : agentSession) (opened : list tunnel_t) (r : nameRegistry)
    : nameRegistry * list effect :=
  let '(r, fx) := foldl (λ '(r, fx) o, (rollback now (tres o) (sid sess) (existed o) r, fx ++ [StopTunnel (tid o)]))
                        (r, []) opened in
  (r, if in_cluster s && negb (bool_decide (opened = []))
      then fx ++ [ReleaseTunnels (sid sess) ((λ o, EName (endpoint o)) <$> opened)] else fx).

Fixpoint open_all `{GoUnicode, Crypto, MapRange} (s : Server) (now : Z) (sess : agentSession)
    (specs : list (ids * TunnelSpec)) (opened : list tunnel_t) (r : nameRegistry)
    : nameRegistry * list effect * result open_err (list tunnel_t) :=
  match specs with
  | [] => (r, [], Ok opened)
  | (x, spec) :: specs =>
      match openTunnel s now sess x spec r with
      | (r, Err e) => (undo s now sess opened r, Err e)
      | (r, Ok t) => open_all s now sess specs (opened ++ [t]) r
      end
  end.

Definition register `{GoUnicode, Crypto, MapRange} (s : Server) (now : Z) (sess : agentSession)
    (specs : list (ids * TunnelSpec)) (r : nameRegistry)
    : nameRegistry * agentSession * list effect * reply :=
  match specs with
  | [] => (r, sess, [], ErrorReply ERROR_CODE_INVALID_REQUEST)
  | _ =>
      match open_all s now sess specs [] r with
      | (r, fx, Err ErrClusterUnavailable) => (r, sess, fx, EndSession)
      | (r, fx, Err (RemoteErr code)) => (r, sess, fx, ErrorReply code)
      | (r, fx, Ok opened) =>
          (r, sess <| tunnels := tunnels sess ++ opened |>,
           fx ++ omap (λ t, if listener t then Some (ServeTunnel (tid t)) else None) opened,
           Registered (endpoint <$> opened))
      end
  end.

(** A revoked token's names are not held in the cluster; after every other
disconnect they are, for the grace period. *)
Definition closeTunnels (s : Server) (now : Z) (sess : agentSession) (r : nameRegistry)
    : nameRegistry * agentSession * list effect :=
  let ts := tunnels sess in
  let '(r, fx) := foldl (λ '(r, fx) t, (park now (tres t) (sid sess) r, fx ++ [StopTunnel (tid t)])) (r, []) ts in
  let names := (λ t, EName (endpoint t)) <$> ts in
  (r, sess <| tunnels := [] |>,
   if in_cluster s && negb (bool_decide (ts = []))
   then fx ++ [if bool_decide (reason sess = ReasonTokenRevoked)
               then ReleaseTunnels (sid sess) names else ParkTunnels (sid sess) names]
   else fx).
End ports.

(** ** Authentication *)

Inductive auth_err := errUnauthorized | errCertRequired | errLookup.

(** The token store: the record of an ID, or a failure. *)
Definition TokenStore : Type := string → result unit (option TokenRecord).

Definition verifyToken `{Crypto} (store : TokenStore) (tok : string) : result auth_err TokenRecord :=
  match ParseToken tok with
  | None => Err errUnauthorized
  | Some (id, secret) =>
      match store id with
      | Err _ => Err errLookup
      | Ok None => Err errUnauthorized
      | Ok (Some rec) => if negb (Verify rec secret) then Err errUnauthorized else Ok rec
      end
  end.

Definition authenticate `{Crypto} (store : TokenStore) (tok : string) (peer : option Certificate)
    : result auth_err TokenRecord :=
  match (match peer with
         | None => Ok None
         | Some cert =>
             match CertIdentity cert with
             | None => Err errUnauthorized
             | Some (id, serial) =>
                 match store id with
                 | Err _ => Err errLookup
                 | Ok None => Err errUnauthorized
                 | Ok (Some rec) => if negb (HasCertSerial rec serial) then Err errUnauthorized else Ok (Some rec)
                 end
             end
         end) with
  | Err e => Err e
  | Ok byCert =>
      if String.eqb tok "" then match byCert with None => Err errUnauthorized | Some rec => Ok rec end
      else match verifyToken store tok with
           | Err e => Err e
           | Ok rec =>
               match byCert with
               | Some c => if negb (String.eqb (ID c) (ID rec)) then Err errUnauthorized else Ok rec
               | None => if RequireCert (TPolicy rec) then Err errCertRequired else Ok rec
               end
           end
  end.
