(* ===== verification/RelayTunnelsSpec.v ===== *)
(** * Opening and closing tunnels on a relay: theorems

Ports: which port a tunnel gets, and that no two reservations share one.
Registration: it succeeds as a whole or is refused, and what a refusal leaves. Custom domains
and authentication: what an accepted domain and an authenticated agent are. *)

From S2P Require Import Prelude GoStrings Protocol Policy NetIP Access NameRegistry NameRegistryInv RelayTunnels.
From stdpp Require Import options.
#[local] Open Scope l8_scope.
Import Rules Auth.

(** ** Allocation *)

Lemma AllocationRange_checked `{GoUnicode} r policy lo hi p :
  AllocationRange r policy = Ok (lo, hi) → (lo ≤ p ≤ hi)%Z → CheckRequestedPort r p policy = Ok tt.
Proof.
  unfold AllocationRange, CheckRequestedPort, PortRange. intros Ha Hp.
  assert ((PortMin r <= p) ∧ (p <= PortMax r))%Z as [H1 H2].
  { repeat case_match; simplify_eq; rewrite ?maxInt_spec, ?minInt_spec in *; lia. }
  rewrite (proj2 (Z.ltb_ge _ _) H1), (proj2 (Z.ltb_ge _ _) H2). cbn [orb].
  repeat case_match; simplify_eq; rewrite ?maxInt_spec, ?minInt_spec in *; bool_facts; try done;
    repeat match goal with H : (_ || _) = true |- _ => apply orb_true_iff in H as [H|H] end;
    rewrite ?negb_true_iff, ?Z.ltb_lt in *; (lia || congruence).
Qed.

Lemma CheckRequestedPort_min `{GoUnicode} r p policy :
  CheckRequestedPort r p policy = Ok tt → (PortMin r ≤ p ≤ PortMax r)%Z.
Proof. unfold CheckRequestedPort. case_match; [done|]. bool_facts. lia. Qed.

Section ports.
Context (can_bind : Z → bool).

(** A port nobody has, as far as the relay and the system know. *)
Definition usable (r : nameRegistry) (p : Z) : Prop := (p ∉ ports r) ∧ can_bind p = true.

Lemma tryListen_cases p r :
  (usable r p ∧ tryListen can_bind p r = (r <| ports := {[p]} ∪ ports r |>, true)) ∨
  (¬ usable r p ∧ tryListen can_bind p r = (r, false)).
Proof.
  unfold tryListen, reservePort, usable. case_bool_decide as Hp; cbn; [right; by split; [naive_solver|]|].
  destruct (can_bind p) eqn:Hb; [by left|right]. split; [naive_solver|].
  unfold releasePort, set_field. destruct r. cbn in *. do 2 f_equal. set_solver.
Qed.

Lemma first_port_spec fuel p hi r :
  match first_port can_bind fuel p hi r with
  | (r', Some q) => (p ≤ q ≤ hi)%Z ∧ usable r q ∧ r' = r <| ports := {[q]} ∪ ports r |> ∧
                    ∀ p', (p ≤ p' < q)%Z → ¬ usable r p'
  | (r', None) => r' = r ∧ ((hi - p + 1 ≤ Z.of_nat fuel)%Z → ∀ p', (p ≤ p' ≤ hi)%Z → ¬ usable r p')
  end.
Proof.
  revert p. induction fuel as [|fuel IH]; intros p; cbn [first_port].
  { split; [done|]. intros Hf p' ?. lia. }
  destruct (Z.leb_spec p hi) as [Hle|Hgt]; [|split; [done|]; intros; lia].
  destruct (tryListen_cases p r) as [[Hu ->]|[Hu ->]].
  { split_and!; [lia|lia|done|done|]. intros; lia. }
  specialize (IH (p + 1)%Z). destruct (first_port _ fuel (p + 1) hi r) as [r' [q|]].
  - destruct IH as (? & ? & ? & Hlt). split_and!; [lia|lia|done|done|].
    intros p' Hp'. destruct (decide (p' = p)) as [->|]; [done|]. apply Hlt. lia.
  - destruct IH as [-> Hall]. split; [done|]. intros Hf p' Hp'.
    destruct (decide (p' = p)) as [->|]; [done|]. apply Hall; lia.
Qed.

Definition open_port_err (e : open_err) : Prop :=
  e = RemoteErr ERROR_CODE_PORT_NOT_ALLOWED ∨ e = RemoteErr ERROR_CODE_FORBIDDEN ∨
  e = RemoteErr ERROR_CODE_PORT_UNAVAILABLE.

(** What listening does: it keeps the port the reservation holds, or takes a
usable port the policy allows, or fails and changes nothing. *)
Definition listen_post `{GoUnicode} s (l : loc) (req : Z) policy (r : nameRegistry)
    (out : nameRegistry * result open_err Z) : Prop :=
  match out with
  | (r', Ok p) =>
      (r' = r ∧ p = portOf l r ∧ p ≠ 0%Z ∧ (req = 0%Z ∨ req = p) ∧ can_bind p = true) ∨
      (usable r p ∧ CheckRequestedPort (rules s) p policy = Ok tt ∧ (req = 0%Z ∨ req = p) ∧
       r' = setPort l p (r <| ports := {[p]} ∪ ports r |>))
  | (r', Err e) => r' = r ∧ open_port_err e
  end.

Lemma first_port_post `{GoUnicode} s l policy r lo hi :
  AllocationRange (rules s) policy = Ok (lo, hi) →
  listen_post s l 0 policy r
    (let '(r', got) := first_port can_bind (Z.to_nat (hi - lo + 1)) lo hi r in
     match got with
     | Some p => (setPort l p r', Ok p)
     | None => (r', Err (RemoteErr ERROR_CODE_PORT_UNAVAILABLE))
     end).
Proof.
  intros Ha. pose proof (first_port_spec (Z.to_nat (hi - lo + 1)) lo hi r) as Hf.
  destruct (first_port _ _ _ _ _) as [r' [q|]].
  - destruct Hf as (Hq & Hu & -> & _). right. split_and!; [done| |by left|done].
    by eapply AllocationRange_checked.
  - destruct Hf as [-> _]. split; [done|]. by right; right.
Qed.

Lemma listenTunnelPort_cases `{GoUnicode} s l req prev policy r :
  listen_post s l req policy r (listenTunnelPort can_bind s l req prev policy r).
Proof.
  unfold listenTunnelPort.
  destruct (negb (portOf l r =? 0)%Z && _) eqn:Hheld.
  { apply andb_true_iff in Hheld as [H0 Hreq]. bool_facts. apply orb_true_iff in Hreq.
    destruct (can_bind (portOf l r)) eqn:Hb; [left|by split; [|right; right]].
    split_and!; [done..| |done]. destruct Hreq; bool_facts; [by left|by right]. }
  destruct (negb (req =? 0)%Z) eqn:Hreq; bool_facts.
  { destruct (CheckRequestedPort _ req policy) as [[]|[]] eqn:Hc;
      try (split; [done|]; unfold open_port_err; tauto).
    destruct (tryListen_cases req r) as [[Hu ->]|[Hu ->]]; [right|by split; [|right; right]].
    split_and!; [done|done|by right|done]. }
  subst req. destruct (AllocationRange _ _) as [[lo hi]|] eqn:Ha; [|by split; [|right; left]].
  destruct ((lo <=? prev)%Z && (prev <=? hi)%Z) eqn:Hprev; [|by apply first_port_post].
  bool_facts. destruct (tryListen_cases prev r) as [[Hu ->]|[Hu ->]]; [|by apply first_port_post].
  right. split_and!; [done| |by left|done]. by eapply AllocationRange_checked.
Qed.

(** Two states of a reservation that differ in its port at most. *)
Definition same_tunnel (a b : reservation) : Prop :=
  name a = name b ∧ session a = session b ∧ typ a = typ b ∧ domains a = domains b ∧ tokenID a = tokenID b.

(** Listening keeps the registry's invariants, and leaves the reservation with
the port. *)
Lemma listenTunnelPort_ok `{GoUnicode} s l res req prev policy r r' out :
  (1 ≤ PortMin (rules s))%Z → inv r → ports_ok ∅ r → live r l res →
  listenTunnelPort can_bind s l req prev policy r = (r', out) →
  inv r' ∧ ports_ok ∅ r' ∧ names r' = names r ∧ domainMap r' = domainMap r ∧
  (∃ f, heap r' = alter f l (heap r) ∧ ∀ x, same_tunnel (f x) x) ∧
  (∀ p, out = Ok p → portOf l r' = p ∧ p ≠ 0%Z).
Proof.
  intros Hmin Hi Ho Hl Hout. pose proof (listenTunnelPort_cases s l req prev policy r) as Hc.
  rewrite Hout in Hc. assert (∃ f, heap r = alter f l (heap r) ∧ ∀ x, same_tunnel (f x) x) as Hid.
  { exists id. split; [|done]. symmetry. apply map_eq. intros i. destruct (decide (i = l)) as [->|];
      [rewrite lookup_alter_eq; by destruct (heap r !! l)|by rewrite lookup_alter_ne]. }
  destruct out as [p|e]; cbn in Hc; [|destruct Hc as [-> _]; by split_and!].
  destruct Hc as [(-> & -> & H0 & _)|([Hp _] & Hchk & _ & ->)]; [split_and!; [done..|naive_solver]|].
  apply CheckRequestedPort_min in Hchk.
  assert (reservePort p r = (r <| ports := {[p]} ∪ ports r |>, true)) as Hr.
  { unfold reservePort. by rewrite bool_decide_false. }
  destruct (ports_reservePort ∅ p r _ ltac:(lia) Ho Hr) as [Ho' _].
  assert (ports_ok (({[p]} ∪ ∅) ∖ {[p]}) (setPort l p (r <| ports := {[p]} ∪ ports r |>))) as Ho''.
  { apply (ports_setPort _ l res); [lia|done|right; set_solver|done]. }
  split_and!.
  - apply inv_setPort. by apply inv_ports.
  - replace (∅ : gset Z) with (({[p]} ∪ ∅) ∖ {[p]} : gset Z) by set_solver. exact Ho''.
  - unfold setPort. by case_match.
  - unfold setPort. by case_match.
  - exists (λ x, x <| port := p |>). split; [|done]. unfold setPort. by case_match.
  - intros ? [= <-]. split; [|lia]. unfold portOf, setPort, update. destruct (_ && _); cbn;
      by rewrite lookup_alter_eq, (proj1 Hl).
Qed.
End ports.

(** ** Giving up a reservation *)

(** What a session's park or rollback of its own live reservation does: the
reservation is the session's no more, every other one is untouched, and no
name appears. *)
Record gave_up (sess : session_id) (l : loc) (pend : gset Z) (r r' : nameRegistry) : Prop := {
  gu_inv : inv r';
  gu_ports : ports_ok pend r';
  gu_others l' res' : l' ≠ l → live r' l' res' ↔ live r l' res';
  gu_self res' : live r' l res' → session res' ≠ Some sess;
  gu_names n l' : names r' !! n = Some l' → names r !! n = Some l';
}.

Lemma park_gave_up now l sess pend r res :
  inv r → ports_ok pend r → live r l res → session res = Some sess →
  gave_up sess l pend r (park now l sess r).
Proof.
  intros Hi Ho Hl Hs.
  assert (∀ f, (∀ x, name (f x) = name x) → (∀ x, session (f x) = None) →
    inv (update l f r) → ports_ok pend (update l f r) → gave_up sess l pend r (update l f r)) as Hupd.
  { intros f Hf Hfs ??. split; [done..| | |done].
    - intros l' res' Hne. by apply live_update_ne.
    - intros res'. rewrite live_update_eq by done. intros (x & _ & ->). by rewrite Hfs. }
  pose proof (inv_park now l sess r Hi) as Hi'. pose proof (ports_park pend now l sess r Hi Ho) as Ho'.
  unfold park in *. rewrite (proj1 Hl) in *. rewrite bool_decide_true in * by done. cbn [negb] in *.
  rewrite (bool_decide_true (names _ !! _ = _)) in * by apply Hl. cbn [negb] in *.
  destruct (_ && negb (permanent res)).
  - assert (inv (update l unbind r)) as Hi1 by (by apply inv_update).
    split; [done|done|..].
    + intros l' res' Hne. rewrite live_deleteLocked, live_update_ne by done. naive_solver.
    + intros res'. rewrite live_deleteLocked by done. naive_solver.
    + intros n l'. rewrite names_deleteLocked by done. by intros [_ ?].
  - destruct (negb (permanent res)); [rewrite update_update in *|]; by apply Hupd.
Qed.

Lemma rollback_gave_up now l sess existed pend r res :
  inv r → ports_ok pend r → live r l res → session res = Some sess →
  gave_up sess l pend r (rollback now l sess existed r) ∧
  (existed = false → ∀ n, names (rollback now l sess existed r) !! n ≠ Some l).
Proof.
  intros Hi Ho Hl Hs. unfold rollback. destruct existed; [split; [by eapply park_gave_up|done]|].
  rewrite (proj1 Hl), bool_decide_true by done. split; [split|].
  - by apply inv_delete.
  - by eapply ports_delete.
  - intros l' res' Hne. rewrite live_deleteLocked by done. naive_solver.
  - intros res'. rewrite live_deleteLocked by done. naive_solver.
  - intros n l'. rewrite names_deleteLocked by done. by intros [_ ?].
  - intros _ n. rewrite names_deleteLocked by done. naive_solver.
Qed.

(** ** Holding a claimed reservation *)

(** The state of the registry while a session opens a tunnel, with [r] before
its claim of [n] at [l]: the reservation is live and the session's, it was
nobody's or the same token's for [n], and every other reservation is as it was. *)
Record holds (sess : session_id) (tok n : string) (l : loc) (ex : bool) (r r1 : nameRegistry) : Prop := {
  ho_inv : inv r1;
  ho_ports : ports_ok ∅ r1;
  ho_self : ∃ res, live r1 l res ∧ session res = Some sess;
  ho_others l' res' : l' ≠ l → live r1 l' res' ↔ live r l' res';
  ho_prev res0 : live r l res0 → session res0 ≠ Some sess ∧ tokenID res0 = tok ∧ name res0 = n;
  ho_names m l' : names r1 !! m = Some l' → names r !! m = Some l' ∨ (l' = l ∧ ex = false);
}.

Lemma claim_holds `{MapRange} n ty tok agent sess mx r r1 l ex :
  inv r → ports_ok ∅ r → claim n ty tok agent sess mx r = (r1, Ok (l, ex)) → holds sess tok n l ex r r1.
Proof.
  intros Hi Ho Hc. pose proof (inv_claim n ty tok agent sess mx r Hi) as Hi1.
  pose proof (ports_claim ∅ n ty tok agent sess mx r Hi Ho) as Ho1.
  pose proof (claim_live _ _ _ _ _ _ _ _ _ _ Hi Hc) as (res & Hl & _ & Hs & _).
  pose proof (claim_cases_of n ty tok agent sess mx r Hi) as Hcs. rewrite Hc in *.
  split; [done|done|by exists res|..]; inversion Hcs as [|Hn Hcap|l' res1 st Hl1 Hn1 Hmay Hcap Hst]; subst.
  - intros l' res' Hne. rewrite live_add by done. naive_solver.
  - intros l' res' Hne. rewrite live_update_ne; [done|intros x; apply (stop_timer_frame x)|done].
  - intros res0 [Hh _]. by rewrite fresh_loc_None in Hh.
  - intros res0 Hl0. assert (res0 = res1) as -> by (destruct Hl0, Hl1; congruence).
    unfold holder_at in Hmay. simpl in Hmay. rewrite (proj1 Hl1) in Hmay. simpl in Hmay.
    destruct Hmay as [Ht Hown]. split; [|done]. intros Heq.
    destruct Hown as [_ Hno]; [by rewrite bool_decide_true; [|rewrite Heq]|].
    by rewrite bool_decide_true in Hno.
  - intros m l'. cbn. rewrite lookup_insert_Some. intros [[_ <-]|[_ ?]]; [by right|by left].
  - intros m l''. by left.
Qed.

(** Steps that change the held reservation only. *)
Lemma holds_step sess tok n l ex r r1 r2 f :
  holds sess tok n l ex r r1 → inv r2 → ports_ok ∅ r2 → names r2 = names r1 →
  heap r2 = alter f l (heap r1) → (∀ x, name (f x) = name x ∧ session (f x) = session x) →
  holds sess tok n l ex r r2.
Proof.
  intros Hh Hi Ho Hn Hheap Hf.
  assert (∀ l' res', live r2 l' res' ↔ live (update l f r1) l' res') as Hlive.
  { intros. unfold live, update. cbn. by rewrite Hheap, Hn. }
  split; [done|done|..].
  - destruct (ho_self _ _ _ _ _ _ _ Hh) as (res & Hl & Hs). exists (f res). rewrite Hlive.
    split; [apply live_update_same; [apply Hf|done]|]. by rewrite (proj2 (Hf res)).
  - intros l' res' Hne. rewrite Hlive, live_update_ne; [by apply Hh|apply Hf|done].
  - apply Hh.
  - rewrite Hn. apply Hh.
Qed.

Lemma holds_setDomains sess tok n l ex r r1 ds :
  holds sess tok n l ex r r1 → holds sess tok n l ex r (setDomains l ds r1).1.
Proof.
  intros Hh. destruct (setDomains l ds r1) as [r2 [[]|d]] eqn:Hs; cbn.
  - pose proof (setDomains_ok _ _ _ _ Hs) as (_ & Hheap & Hn & _).
    pose proof (ho_self _ _ _ _ _ _ _ Hh) as (res & Hl & _).
    pose proof (inv_setDomains l ds r1 (ex_intro _ res (proj1 Hl)) (ho_inv _ _ _ _ _ _ _ Hh)) as Hi.
    pose proof (ports_setDomains ∅ l ds r1 (ho_ports _ _ _ _ _ _ _ Hh)) as Ho. rewrite Hs in Hi, Ho.
    by eapply (holds_step _ _ _ _ _ _ r1).
  - unfold setDomains in Hs. destruct (domain_holder l ds r1); by simplify_eq.
Qed.

Lemma holds_listen can_bind `{GoUnicode} s sess tok n l ex r r1 req prev policy :
  (1 ≤ PortMin (rules s))%Z → holds sess tok n l ex r r1 →
  holds sess tok n l ex r (listenTunnelPort can_bind s l req prev policy r1).1.
Proof.
  intros Hmin Hh. destruct (ho_self _ _ _ _ _ _ _ Hh) as (res & Hl & _).
  destruct (listenTunnelPort _ _ _ _ _ _ _) as [r2 out] eqn:Hout.
  destruct (listenTunnelPort_ok can_bind s l res req prev policy r1 r2 out)
    as (Hi & Ho & Hn & _ & (f & Hf & Hfr) & _); [done|apply Hh|apply Hh|done|done|].
  eapply (holds_step _ _ _ _ _ _ r1); try done. intros y. by destruct (Hfr y) as (? & ? & _).
Qed.

Lemma holds_activate sess tok n l ex r r1 t :
  holds sess tok n l ex r r1 → holds sess tok n l ex r (activate l t r1).
Proof.
  intros Hh. eapply (holds_step _ _ _ _ _ _ r1 _ (λ res, res <| tunnel := Some t |>)); try done.
  - by apply inv_update; [..|apply Hh].
  - by apply ports_update; [..|apply Hh].
Qed.

(** ** A registration *)

(** The tunnels a registration has opened so far, with [r0] before it. *)
Record grew (sess : session_id) (tok : string) (r0 : nameRegistry) (opened : list tunnel_t) (r : nameRegistry)
    : Prop := {
  gr_inv : inv r;
  gr_ports : ports_ok ∅ r;
  gr_nodup : NoDup (tres <$> opened);
  gr_live t : t ∈ opened → ∃ res, live r (tres t) res ∧ session res = Some sess;
  gr_names n l : names r !! n = Some l →
    names r0 !! n = Some l ∨ ∃ t, t ∈ opened ∧ tres t = l ∧ existed t = false;
  gr_bound l res : live r l res → session res = Some sess →
    live r0 l res ∨ l ∈ tres <$> opened;
  gr_keep l res : live r0 l res → session res = Some sess ∨ tokenID res ≠ tok →
    live r l res ∧ l ∉ tres <$> opened;
}.

Lemma grew_start sess tok r : inv r → ports_ok ∅ r → grew sess tok r [] r.
Proof.
  intros. split; try done.
  - constructor.
  - intros t ?%elem_of_nil. done.
  - by left.
  - by left.
  - intros ? ? ? ?. split; [done|]. apply not_elem_of_nil.
Qed.

Lemma grew_perm sess tok r0 o1 o2 r : o1 ≡ₚ o2 → grew sess tok r0 o1 r → grew sess tok r0 o2 r.
Proof.
  intros Hp Hg. destruct Hg. split; try done; repeat setoid_rewrite <-Hp; done.
Qed.

Lemma grew_holds sess tok nm r0 opened r r1 t :
  grew sess tok r0 opened r → holds sess tok nm (tres t) (existed t) r r1 → grew sess tok r0 (t :: opened) r1.
Proof.
  intros Hg Hh. assert (tres t ∉ tres <$> opened) as Hnew.
  { intros (t' & Heq & Hin)%list_elem_of_fmap. destruct (gr_live _ _ _ _ _ Hg t' Hin) as (res & Hl & Hs).
    rewrite <-Heq in Hl. by destruct (ho_prev _ _ _ _ _ _ _ Hh _ Hl). }
  split; [apply Hh|apply Hh|..].
  - rewrite fmap_cons. apply NoDup_cons. split; [done|apply Hg].
  - intros t' [->|Hin]%elem_of_cons; [apply Hh|].
    destruct (gr_live _ _ _ _ _ Hg t' Hin) as (res & Hl & Hs). exists res. split; [|done].
    apply (ho_others _ _ _ _ _ _ _ Hh); [|done]. intros Heq. apply Hnew. rewrite <-Heq. by apply list_elem_of_fmap_2.
  - intros n l [Hn|[-> Hex]]%(ho_names _ _ _ _ _ _ _ Hh).
    + destruct (gr_names _ _ _ _ _ Hg _ _ Hn) as [?|(t' & ? & ?)]; [by left|right].
      exists t'. split; [by right|done].
    + right. exists t. split; [left|done].
  - intros l res Hl Hs. rewrite fmap_cons, elem_of_cons. destruct (decide (l = tres t)) as [->|Hne]; [by right; left|].
    apply (ho_others _ _ _ _ _ _ _ Hh) in Hl; [|done]. destruct (gr_bound _ _ _ _ _ Hg _ _ Hl Hs); tauto.
  - intros l res Hl Hor. destruct (gr_keep _ _ _ _ _ Hg _ _ Hl Hor) as [Hlr Hnin].
    assert (l ≠ tres t) as Hne.
    { intros ->. destruct (ho_prev _ _ _ _ _ _ _ Hh _ Hlr). naive_solver. }
    split; [by apply (ho_others _ _ _ _ _ _ _ Hh)|]. rewrite fmap_cons. by apply not_elem_of_cons.
Qed.

Lemma grew_rollback now sess tok r0 t opened r :
  grew sess tok r0 (t :: opened) r →
  grew sess tok r0 opened (rollback now (tres t) sess (existed t) r).
Proof.
  intros Hg. destruct (gr_live _ _ _ _ _ Hg t) as (res & Hl & Hs); [left|].
  destruct (rollback_gave_up now (tres t) sess (existed t) ∅ r res) as [Hu Hfree];
    [apply Hg|apply Hg|done|done|].
  pose proof (gr_nodup _ _ _ _ _ Hg) as Hnd. rewrite fmap_cons in Hnd. apply NoDup_cons in Hnd as [Hnin Hnd].
  split; [apply Hu|apply Hu|done|..].
  - intros t' Hin. destruct (gr_live _ _ _ _ _ Hg t') as (res' & Hl' & Hs'); [by right|]. exists res'.
    split; [|done]. apply (gu_others _ _ _ _ _ Hu); [|done]. intros Heq. apply Hnin. rewrite <-Heq.
    by apply list_elem_of_fmap_2.
  - intros n l Hn. destruct (gr_names _ _ _ _ _ Hg n l) as [?|(t' & Hin & <- & Hex)]; [by eapply gu_names|by left|].
    apply elem_of_cons in Hin as [->|Hin]; [by destruct (Hfree Hex n)|by eauto].
  - intros l res' Hl' Hs'. destruct (decide (l = tres t)) as [->|Hne]; [by destruct (gu_self _ _ _ _ _ Hu res')|].
    apply (gu_others _ _ _ _ _ Hu) in Hl'; [|done].
    destruct (gr_bound _ _ _ _ _ Hg _ _ Hl' Hs') as [?|Hin]; [by left|]. rewrite fmap_cons in Hin. set_solver.
  - intros l res' Hl' Hor. destruct (gr_keep _ _ _ _ _ Hg _ _ Hl' Hor) as [Hlr Hn].
    rewrite fmap_cons in Hn. apply not_elem_of_cons in Hn as [Hne Hn].
    split; [by apply (gu_others _ _ _ _ _ Hu)|done].
Qed.

Lemma grew_undo s now sess tok r0 opened r :
  grew (sid sess) tok r0 opened r → grew (sid sess) tok r0 [] (undo s now sess opened r).1.
Proof.
  intros Hg. unfold undo.
  assert (∀ fx, grew (sid sess) tok r0 [] (foldl (λ '(r, fx) o,
    (rollback now (tres o) (sid sess) (existed o) r, fx ++ [StopTunnel (tid o)])) (r, fx) opened).1) as Hloop.
  { revert r Hg. induction opened as [|t opened IH]; intros r Hg fx; [done|]. cbn [foldl].
    by apply IH, grew_rollback. }
  specialize (Hloop []). by destruct (foldl _ _ _).
Qed.

(** The reservation of a tunnel the session opened. *)
Definition opened_as (rs : Rules) (sess : session_id) (t : tunnel_t) (res : reservation) : Prop :=
  ValidName (EName (endpoint t)) = true ∧ IsReserved rs (EName (endpoint t)) = false ∧
  Hostname (endpoint t) = EName (endpoint t) +:+ "." +:+ BaseDomain rs ∧
  session res = Some sess ∧ tunnel res = Some (tid t) ∧ name res = EName (endpoint t) ∧
  typ res = EType (endpoint t) ∧ EType (endpoint t) ≠ TUNNEL_TYPE_UNSPECIFIED ∧ domains res = EDomains (endpoint t) ∧
  (listener t = true → port res ≠ 0%Z ∧ PublicPort (endpoint t) = uint32 (port res)).

(** A reservation a session is opening a tunnel for. *)
Definition opening_as (sess : session_id) n ty ds (res : reservation) : Prop :=
  session res = Some sess ∧ name res = n ∧ typ res = ty ∧ domains res = ds.

Section registration.
Context (can_bind : Z → bool) `{GoUnicode, Crypto, MapRange}.
Context (s : Server) (Hmin : (1 ≤ PortMin (rules s))%Z).

Lemma claim_opening n ty tok agent sess mx r r1 l ex :
  inv r → claim n ty tok agent sess mx r = (r1, Ok (l, ex)) →
  ∃ res, live r1 l res ∧ opening_as sess n ty (domains res) res.
Proof.
  intros Hi Hc. pose proof (claim_cases_of n ty tok agent sess mx r Hi) as Hcs. rewrite Hc in Hcs.
  inversion Hcs as [|Hn _|l' res st Hl Hname]; subst.
  - eexists. rewrite live_add by done. split; [by left|done].
  - exists (rebind ty agent sess res). split.
    + apply live_update_same; [intros x; apply (stop_timer_frame x)|done].
    + by split_and!; [..|apply (stop_timer_frame res)| |].
Qed.

Lemma setDomains_opening sess n ty l ds0 ds r r' res :
  live r l res → opening_as sess n ty ds0 res → setDomains l ds r = (r', Ok tt) →
  ∃ res', live r' l res' ∧ opening_as sess n ty ds res'.
Proof.
  intros [Hh Hn] (Hs & Hna & Ht & _) (_ & Hheap & Hnames & _)%setDomains_ok.
  exists (res <| domains := ds |>). split; [|done]. split; [by rewrite Hheap, lookup_alter_eq, Hh|].
  cbn. by rewrite Hnames.
Qed.

(** What opening a tunnel does: it is refused with nothing changed, refused
after the claim was given up, or the tunnel is live. *)
Lemma openTunnel_cases now sess x spec r :
  let tok := ID (token sess) in
  inv r → ports_ok ∅ r →
  match openTunnel can_bind s now sess x spec r with
  | (r', Ok t) => holds (sid sess) tok (tunnel_name x spec) (tres t) (existed t) r r' ∧ tid t = new_tid x ∧
                  ∃ res, live r' (tres t) res ∧ opened_as (rules s) (sid sess) t res
  | (r', Err _) => r' = r ∨ ∃ l ex r2, holds (sid sess) tok (tunnel_name x spec) l ex r r2 ∧ r' = rollback now l (sid sess) ex r2
  end.
Proof using Hmin.
  intros tok Hi Ho. unfold openTunnel.
  destruct (bool_decide (sType spec = _)) eqn:Htype; [by left|]. bool_facts. destruct (negb (AllowsType _ _)); [by left|].
  destruct (checkAccess _ _ _) as [a|]; [|by left]. destruct (ValidName _) eqn:Hvalid; cbn [negb]; [|by left].
  destruct (negb (AllowsName _ _)); [by left|]. destruct (IsReserved _ _) eqn:Hres; [by left|].
  destruct (checkDomains _ _ _ _) as [ds|]; [|by left].
  destruct (claim _ _ _ _ _ _ _) as [r1 [[l ex]|err]] eqn:Hc.
  2:{ pose proof (claim_cases_of (tunnel_name x spec) (sType spec) tok (sessAgentID sess) (sid sess)
        (MaxTunnels (TPolicy (token sess))) r Hi) as Hcs. subst tok. rewrite Hc in Hcs. inversion Hcs; subst.
      destruct err; by left. }
  destruct (claim_opening _ _ _ _ _ _ _ _ _ _ Hi Hc) as (res1 & Hl1 & Hop1).
  apply claim_holds in Hc; [|done..]. apply (holds_setDomains _ _ _ _ _ _ _ ds) in Hc.
  destruct (setDomains l ds r1) as [r2 [[]|d]] eqn:Hsd; cbn [fst] in Hc; [|right; by exists l, ex, r2].
  destruct (setDomains_opening _ _ _ _ _ _ _ _ _ Hl1 Hop1 Hsd) as (res2 & Hl2 & Hop2). clear Hl1 Hop1 Hsd.
  assert (∀ r3 res3 e ln, holds (sid sess) tok (tunnel_name x spec) l ex r r3 → live r3 l res3 →
    opening_as (sid sess) (tunnel_name x spec) (sType spec) ds res3 →
    EName e = tunnel_name x spec → EType e = sType spec → EDomains e = ds →
    Hostname e = tunnel_name x spec +:+ "." +:+ BaseDomain (rules s) →
    (ln = true → port res3 ≠ 0%Z ∧ PublicPort e = uint32 (port res3)) →
    let t := mkTunnelT (new_tid x) l ex e ln a in
    holds (sid sess) tok (tunnel_name x spec) (tres t) (existed t) r (activate l (new_tid x) r3) ∧ tid t = new_tid x ∧
    ∃ res, live (activate l (new_tid x) r3) (tres t) res ∧ opened_as (rules s) (sid sess) t res) as Hopen.
  { intros r3 res3 e ln Hh Hl (? & ? & ? & ?) He ? ? ? ? t. split_and!; [by apply holds_activate|done|].
    exists (res3 <| tunnel := Some (new_tid x) |>). split; [by apply live_update_same|].
    subst t. unfold opened_as. cbn. rewrite He. split_and!; congruence || done. }
  destruct (Cluster s) as [ct|].
  { destruct (claimInCluster _ _ _ _ _ _ _); [|right; by exists l, ex, r2].
    apply (Hopen r2 res2); try done; unfold setEndpointAddress; cbn; repeat case_match; done. }
  destruct (hasPublicPort _ && _); [|destruct (isHTTP _); by apply (Hopen r2 res2)].
  pose proof (holds_listen can_bind s _ _ _ _ _ _ _ (Z.of_N (sPublicPort spec)) (Z.of_N (sPreviousPort spec))
    (TPolicy (token sess)) Hmin Hc) as Hh.
  destruct (listenTunnelPort _ _ _ _ _ _ _) as [r3 [p|err]] eqn:Hls; cbn [fst] in Hh; [|right; by exists l, ex, r3].
  destruct (listenTunnelPort_ok can_bind s l res2 _ _ _ _ _ _ Hmin (ho_inv _ _ _ _ _ _ _ Hc) (ho_ports _ _ _ _ _ _ _ Hc) Hl2 Hls)
    as (_ & _ & Hn & _ & (f & Hheap & Hf) & Hp).
  destruct (Hp p eq_refl) as [Hport Hp0]. destruct (Hf res2) as (Hf1 & Hf2 & Hf3 & Hf4 & _).
  assert (heap r3 !! l = Some (f res2)) as Hl3 by (by rewrite Hheap, lookup_alter_eq, (proj1 Hl2)).
  assert (port (f res2) = p) as Hpp by (unfold portOf in Hport; by rewrite Hl3 in Hport).
  apply (Hopen r3 (f res2)); [done|split; [done|]| |done..|].
  - rewrite Hf1, Hn. apply Hl2.
  - unfold opening_as in *. rewrite Hf1, Hf2, Hf3, Hf4. done.
  - intros _. cbn. by rewrite Hpp.
Qed.

Lemma openTunnel_grew now sess x spec r0 opened r :
  let tok := ID (token sess) in
  grew (sid sess) tok r0 opened r →
  match openTunnel can_bind s now sess x spec r with
  | (r', Ok t) => grew (sid sess) tok r0 (t :: opened) r' ∧ tid t = new_tid x
  | (r', Err _) => grew (sid sess) tok r0 opened r'
  end.
Proof using Hmin.
  intros tok Hg. pose proof (openTunnel_cases now sess x spec r (gr_inv _ _ _ _ _ Hg) (gr_ports _ _ _ _ _ Hg)) as Hc.
  destruct (openTunnel _ _ _ _ _ _ _) as [r' [t|e]].
  - destruct Hc as (Hh & ? & _). split; [by eapply grew_holds|done].
  - destruct Hc as [->|(l & ex & r2 & Hh & ->)]; [done|].
    apply (grew_rollback now _ _ _ (mkTunnelT (new_tid x) l ex (mkEndpoint "" "" (sType spec) "" 0 "" []) false
      (mkParsed [] [] ∅ "" None ∅))).
    by eapply grew_holds.
Qed.

Lemma open_all_grew now sess specs r0 opened r :
  let tok := ID (token sess) in
  grew (sid sess) tok r0 opened r →
  match open_all can_bind s now sess specs opened r with
  | (r', _, Ok opened') => grew (sid sess) tok r0 opened' r' ∧
      tid <$> opened' = (tid <$> opened) ++ ((λ p, new_tid p.1) <$> specs)
  | (r', _, Err _) => grew (sid sess) tok r0 [] r'
  end.
Proof using Hmin.
  intros tok. revert opened r. induction specs as [|[x spec] specs IH]; intros opened r Hg; cbn [open_all].
  { split; [done|]. by rewrite app_nil_r. }
  pose proof (openTunnel_grew now sess x spec r0 opened r Hg) as Ho.
  destruct (openTunnel _ _ _ _ _ _ _) as [r1 [t|e]];
    [|pose proof (grew_undo s now sess tok r0 opened r1 Ho); by destruct (undo _ _ _ _ _)].
  destruct Ho as [Hg1 Ht].
  specialize (IH (opened ++ [t]) r1 ltac:(by eapply grew_perm; [apply Permutation_cons_append|])).
  destruct (open_all _ _ _ _ _ _ _) as [[r2 fx] [o|e]]; [|done]. destruct IH as [? Hids]. split; [done|].
  rewrite Hids, fmap_app, <-app_assoc. cbn. by rewrite Ht.
Qed.

(** Every tunnel of the list is live, as its endpoint says. *)
Definition all_opened (rs : Rules) (sess : session_id) (opened : list tunnel_t) (r : nameRegistry) : Prop :=
  ∀ t, t ∈ opened → ∃ res, live r (tres t) res ∧ opened_as rs sess t res.

Lemma open_all_opened now sess specs r0 opened r :
  grew (sid sess) (ID (token sess)) r0 opened r → all_opened (rules s) (sid sess) opened r →
  match open_all can_bind s now sess specs opened r with
  | (r', _, Ok opened') => all_opened (rules s) (sid sess) opened' r'
  | _ => True
  end.
Proof using Hmin.
  revert opened r. induction specs as [|[x spec] specs IH]; intros opened r Hg Ha; cbn [open_all]; [done|].
  pose proof (openTunnel_cases now sess x spec r (gr_inv _ _ _ _ _ Hg) (gr_ports _ _ _ _ _ Hg)) as Hc.
  pose proof (openTunnel_grew now sess x spec r0 opened r Hg) as Hgr.
  destruct (openTunnel _ _ _ _ _ _ _) as [r1 [t|e]]; [|by destruct (undo _ _ _ _ _)].
  destruct Hc as (Hh & _ & Ht), Hgr as [Hg1 _]. apply IH; [eapply grew_perm; [apply Permutation_cons_append|done]|].
  pose proof (gr_nodup _ _ _ _ _ Hg1) as Hnd. rewrite fmap_cons in Hnd. apply NoDup_cons in Hnd as [Hnin _].
  intros t' [Hin|[= ->]%list_elem_of_singleton]%elem_of_app; [|done].
  destruct (Ha t' Hin) as (res & Hl & Hop). exists res. split; [|done].
  apply (ho_others _ _ _ _ _ _ _ Hh); [|done]. intros Heq. apply Hnin. rewrite <-Heq. by apply list_elem_of_fmap_2.
Qed.

(** Reservations of names that are not asked for stay as they are. *)
Definition kept (ns : list string) (r0 : nameRegistry) (opened : list tunnel_t) (r : nameRegistry) : Prop :=
  ∀ l res, live r0 l res → name res ∉ ns → live r l res ∧ l ∉ tres <$> opened.

Lemma kept_holds ns sess tok n r0 opened r r1 t :
  kept ns r0 opened r → holds sess tok n (tres t) (existed t) r r1 → n ∈ ns → kept ns r0 (t :: opened) r1.
Proof.
  intros Hk Hh Hn l res Hl Hns. destruct (Hk l res Hl Hns) as [Hlr Hnin].
  assert (l ≠ tres t) as Hne by (intros ->; destruct (ho_prev _ _ _ _ _ _ _ Hh _ Hlr) as (_ & _ & ?); congruence).
  split; [by apply (ho_others _ _ _ _ _ _ _ Hh)|]. rewrite fmap_cons. by apply not_elem_of_cons.
Qed.

Lemma kept_rollback ns now sess tok r0 rg t opened r :
  grew sess tok rg (t :: opened) r → kept ns r0 (t :: opened) r → kept ns r0 opened (rollback now (tres t) sess (existed t) r).
Proof.
  intros Hg Hk l res Hl Hns. destruct (gr_live _ _ _ _ _ Hg t) as (res1 & Hl1 & Hs); [left|].
  destruct (rollback_gave_up now (tres t) sess (existed t) ∅ r res1) as [Hu _]; [apply Hg|apply Hg|done|done|].
  destruct (Hk l res Hl Hns) as [Hlr Hnin]. rewrite fmap_cons in Hnin. apply not_elem_of_cons in Hnin as [Hne Hnin].
  split; [by apply (gu_others _ _ _ _ _ Hu)|done].
Qed.

Lemma kept_undo ns now sess tok r0 rg opened r :
  grew (sid sess) tok rg opened r → kept ns r0 opened r → kept ns r0 [] (undo s now sess opened r).1.
Proof.
  intros Hg Hk. unfold undo. assert (∀ fx, kept ns r0 [] (foldl (λ '(r, fx) o,
    (rollback now (tres o) (sid sess) (existed o) r, fx ++ [StopTunnel (tid o)])) (r, fx) opened).1) as Hloop.
  { revert r Hg Hk. induction opened as [|t opened IH]; intros r Hg Hk fx; [done|]. cbn [foldl].
    apply IH; [by apply grew_rollback|by eapply kept_rollback]. }
  specialize (Hloop []). by destruct (foldl _ _ _).
Qed.

Lemma open_all_kept ns now sess specs r0 rg opened r :
  grew (sid sess) (ID (token sess)) rg opened r → kept ns r0 opened r → (∀ p, p ∈ specs → tunnel_name p.1 p.2 ∈ ns) →
  kept ns r0 [] (open_all can_bind s now sess specs opened r).1.1.
Proof using Hmin.
  revert opened r. induction specs as [|[x spec] specs IH]; intros opened r Hg Hk Hns; cbn [open_all].
  { intros l res Hl Hn. split; [by apply Hk|by apply not_elem_of_nil]. }
  pose proof (openTunnel_cases now sess x spec r (gr_inv _ _ _ _ _ Hg) (gr_ports _ _ _ _ _ Hg)) as Hc.
  pose proof (openTunnel_grew now sess x spec rg opened r Hg) as Hgr.
  assert (tunnel_name x spec ∈ ns) as Hn by (apply (Hns (x, spec)); left).
  destruct (openTunnel _ _ _ _ _ _ _) as [r1 [t|e]].
  - destruct Hc as (Hh & _ & _), Hgr as [Hg1 _]. apply IH; [by eapply grew_perm; [apply Permutation_cons_append|]| |].
    + intros l res Hl Hl'. destruct (kept_holds ns _ _ _ r0 opened r r1 t Hk Hh Hn l res Hl Hl') as [? Hnin]. split; [done|].
      rewrite fmap_app. rewrite fmap_cons in Hnin. set_solver.
    + intros p Hp. apply Hns. by right.
  - assert (kept ns r0 opened r1) as Hk1.
    { destruct Hc as [->|(l & ex & r2 & Hh & ->)]; [done|].
      set (t := mkTunnelT (new_tid x) l ex (mkEndpoint "" "" (sType spec) "" 0 "" []) false (mkParsed [] [] ∅ "" None ∅)).
      apply (kept_rollback ns now (sid sess) (ID (token sess)) r0 rg t); [exact (grew_holds _ _ _ _ _ _ _ t Hg Hh)|exact (kept_holds _ _ _ _ _ _ _ _ t Hk Hh Hn)]. }
    pose proof (kept_undo ns now sess _ r0 rg opened r1 Hgr Hk1). by destruct (undo _ _ _ _ _).
Qed.

(** The names a registration asks for. *)
Definition asked (specs : list (ids * TunnelSpec)) : list string := (λ p, tunnel_name p.1 p.2) <$> specs.

Lemma register_kept now sess specs r : inv r → ports_ok ∅ r →
  ∀ l res, live r l res → name res ∉ asked specs → live (register can_bind s now sess specs r).1.1.1 l res.
Proof using Hmin.
  intros Hi Ho l res Hl Hn. pose proof (open_all_kept (asked specs) now sess specs r r [] r (grew_start _ _ _ Hi Ho)) as Hk.
  unfold register. destruct specs as [|p specs]; [done|].
  assert (kept (asked (p :: specs)) r [] r) as Hstart by (intros l' res' Hl' _; split; [done|by apply not_elem_of_nil]).
  specialize (Hk Hstart (λ q Hq, list_elem_of_fmap_2 _ _ _ Hq) l res Hl Hn) as [Hk _].
  by destruct (open_all _ _ _ _ _ _ _) as [[r' fx] [o|[c|]]].
Qed.

(** Registries whose reservations are the same have the same ports. *)
Lemma same_ports r r' : ports_ok ∅ r → ports_ok ∅ r' → (∀ l res, live r l res ↔ live r' l res) → ports r = ports r'.
Proof. intros Ho Ho' Hl. apply set_eq. intros p. rewrite (po_exact _ _ Ho), (po_exact _ _ Ho'). by setoid_rewrite Hl. Qed.

Lemma register_grew now sess specs r :
  inv r → ports_ok ∅ r →
  let '(r', sess', _, rep) := register can_bind s now sess specs r in
  ∃ opened, grew (sid sess) (ID (token sess)) r opened r' ∧ sess' = sess <| tunnels := tunnels sess ++ opened |> ∧
  all_opened (rules s) (sid sess) opened r' ∧
  match rep with
  | Registered es => es = endpoint <$> opened ∧ tid <$> opened = (λ p, new_tid p.1) <$> specs
  | _ => opened = []
  end.
Proof using Hmin.
  intros Hi Ho. pose proof (open_all_grew now sess specs r [] r (grew_start _ _ _ Hi Ho)) as Hg.
  assert (∀ r', all_opened (rules s) (sid sess) [] r') as Hnil by (by intros r' t ?%elem_of_nil).
  pose proof (open_all_opened now sess specs r [] r (grew_start _ _ _ Hi Ho) (Hnil r)) as Hop.
  assert (sess = sess <| tunnels := tunnels sess ++ [] |>) as Hsess by (destruct sess; cbn; by rewrite app_nil_r).
  unfold register. destruct specs as [|p specs]; [exists []; split; [by apply grew_start|done]|].
  destruct (open_all _ _ _ _ _ _ _) as [[r' fx] [o|[c|]]]; [|exists []; by split..].
  exists o. by destruct Hg as [? ?].
Qed.

(** ** Theorems *)

(** C17: a registration takes effect as a whole or is refused, and only for the
names it asks for. On success every requested tunnel is live and bound to the
session, in the order asked for, with the name, type, custom domains and public
port its endpoint tells the agent. When it is refused (any spec of the list may
be at fault), no name appears that was not there, no reservation is bound to the
session that was not before, and the session keeps the tunnels it had. In both
cases the reservations of other tokens, of names not asked for, and of the
session itself are exactly what they were, and the name, domain and port
invariants are kept. A refused registration none of whose names was in use leaves
all names, reservations and ports as they were. (A name the token already had can
be taken over from its session before a later spec is refused: it is then left
parked, see [refused_after_takeover].) *)
Theorem register_all_or_nothing now sess specs r r' sess' fx rep :
  inv r → ports_ok ∅ r →
  register can_bind s now sess specs r = (r', sess', fx, rep) →
  inv r' ∧ ports_ok ∅ r' ∧
  (∀ l res, live r l res → tokenID res ≠ ID (token sess) ∨ name res ∉ asked specs ∨ session res = Some (sid sess) → live r' l res) ∧
  match rep with
  | Registered es =>
      ∃ opened, tunnels sess' = tunnels sess ++ opened ∧ es = endpoint <$> opened ∧
      tid <$> opened = (λ p, new_tid p.1) <$> specs ∧ NoDup (tres <$> opened) ∧
      all_opened (rules s) (sid sess) opened r'
  | _ => sess' = sess ∧ names r' ⊆ names r ∧
      (∀ l res, live r' l res → session res = Some (sid sess) → live r l res) ∧
      ((∀ n, n ∈ asked specs → names r !! n = None) →
       names r' = names r ∧ (∀ l res, live r' l res ↔ live r l res) ∧ ports r' = ports r)
  end.
Proof using Hmin.
  intros Hi Ho Hr. pose proof (register_grew now sess specs r Hi Ho) as Hg. pose proof (register_kept now sess specs r Hi Ho) as Hk.
  rewrite Hr in Hg, Hk. cbn in Hk. destruct Hg as (opened & Hg & Hsess & Hop & Hrep). split_and!; [apply Hg|apply Hg|..].
  - intros l res Hl [Ht|[Hn|Hs]]; [apply (gr_keep _ _ _ _ _ Hg); [done|by right]|by apply Hk|apply (gr_keep _ _ _ _ _ Hg); [done|by left]].
  - assert (opened = [] → sess' = sess ∧ names r' ⊆ names r ∧
      (∀ l res, live r' l res → session res = Some (sid sess) → live r l res) ∧
      ((∀ n, n ∈ asked specs → names r !! n = None) →
       names r' = names r ∧ (∀ l res, live r' l res ↔ live r l res) ∧ ports r' = ports r)) as Hfail.
    { intros ->. assert (names r' ⊆ names r) as Hsub.
      { apply map_subseteq_spec. intros n l Hn.
        destruct (gr_names _ _ _ _ _ Hg n l Hn) as [?|(t & ?%elem_of_nil & _)]; done. }
      split_and!; [by rewrite Hsess; destruct sess; cbn; rewrite app_nil_r|done| |].
      - intros l res Hl Hs. destruct (gr_bound _ _ _ _ _ Hg l res Hl Hs) as [?|?%elem_of_nil]; done.
      - intros Hfresh.
        assert (∀ l res, live r l res → live r' l res) as Hkeep.
        { intros l res Hl. apply Hk; [done|]. intros Hin. destruct Hl as [_ Hl]. by rewrite (Hfresh _ Hin) in Hl. }
        assert (∀ l res, live r' l res ↔ live r l res) as Hlive.
        { intros l res. split; [|by apply Hkeep]. intros [Hh Hn]. pose proof (lookup_weaken _ _ _ _ Hn Hsub) as Hn0.
          destruct (inv_name _ Hi _ _ Hn0) as (res0 & Hh0 & He).
          assert (live r l res0) as Hl0 by (split; [done|by rewrite He]).
          destruct (Hkeep _ _ Hl0) as [Hh' _]. rewrite Hh in Hh'. injection Hh' as ->. done. }
        split_and!; [|done|apply same_ports; [apply Hg|done|done]]. apply map_eq. intros n. apply option_eq. intros l. split.
        + intros Hn. by eapply lookup_weaken.
        + intros Hn. destruct (inv_name _ Hi _ _ Hn) as (res & Hh & <-). apply (Hkeep l res). by split. }
    destruct rep; [|by apply Hfail..]. destruct Hrep. exists opened.
    split_and!; [by rewrite Hsess|done|done|apply Hg|done].
Qed.

End registration.

Section relay.
Context `{GoUnicode, Crypto, MapRange} (s : Server) (Hmin : (1 ≤ PortMin (rules s))%Z).

(** One step of a relay whose sessions register and close one at a time. Which
ports can be bound may be different in every step. *)
Inductive relay_step (r : nameRegistry) : nameRegistry → Prop :=
| step_register can_bind now sess specs : relay_step r (register can_bind s now sess specs r).1.1.1
| step_close now sess : relay_step r (closeTunnels s now sess r).1.1
| step_expire l : relay_step r (expire l r)
| step_reserve n tok p : relay_step r (reserve n tok p r).1
| step_unreserve n : relay_step r (unreserve n r)
| step_release tok : relay_step r (releaseToken tok r).1
| step_shutdown : relay_step r (close r).

Lemma relay_step_ok r r' : relay_step r r' → inv r → ports_ok ∅ r → inv r' ∧ ports_ok ∅ r'.
Proof using Hmin.
  intros [] Hi Ho.
  - pose proof (register_grew can_bind s Hmin now sess specs r Hi Ho) as Hg.
    destruct (register _ _ _ _ _ _) as [[[r2 sess'] fx] rep]. cbn. destruct Hg as (opened & Hg & _). split; apply Hg.
  - unfold closeTunnels. pose proof (foldl_inv (λ p : nameRegistry * list effect, inv p.1 ∧ ports_ok ∅ p.1)
      (λ '(r, fx) t, (park now (tres t) (sid sess) r, fx ++ [StopTunnel (tid t)])) (tunnels sess) (r, [])) as Hl.
    destruct (foldl _ _ _) as [r2 fx]. cbn [fst] in *. apply Hl; [done|].
    intros [r1 fx1] t _ [? ?]. cbn. split; [by apply inv_park|by apply ports_park].
  - split; [by apply inv_expire|by apply ports_expire].
  - by apply reserve_ok.
  - by apply unreserve_ok.
  - by apply releaseToken_ok.
  - by apply close_ok.
Qed.

Lemma relay_steps_ok g r : rtc relay_step (newNameRegistry g) r → inv r ∧ ports_ok ∅ r.
Proof using Hmin.
  intros Hr. assert (inv (newNameRegistry g) ∧ ports_ok ∅ (newNameRegistry g)) as [Hi Ho].
  { split; split; intros *; unfold live; cbn; rewrite ?lookup_empty; set_solver. }
  induction Hr as [|r1 r2 r3 Hs _ IH]; [done|]. destruct (relay_step_ok _ _ Hs Hi Ho). by apply IH.
Qed.

(** C16: on a relay, no two live reservations ever hold the same public port,
and the set of ports the relay considers taken is exactly the set of ports its
live reservations hold: no port is handed out twice and none leaks, over every
sequence of registrations, disconnects, expiries, revocations and operator
reservations (each running as a whole). *)
Theorem relay_ports_exclusive g r :
  rtc relay_step (newNameRegistry g) r →
  (∀ l1 l2 res1 res2, live r l1 res1 → live r l2 res2 →
     port res1 = port res2 → port res1 ≠ 0%Z → l1 = l2) ∧
  (∀ p, p ∈ ports r ↔ p ≠ 0%Z ∧ ∃ l res, live r l res ∧ port res = p).
Proof using Hmin.
  intros [_ Ho]%relay_steps_ok. split; [apply Ho|]. intros p. rewrite (po_exact _ _ Ho). set_solver.
Qed.
End relay.

(** the port of a standalone relay's port tunnel. The relay keeps the port
the reservation holds when it can (it must be the one asked for, if any),
else takes a port that is free, can be bound and is allowed by the policy and
the relay's range: the requested one, else the previous one if it is in
range, else the lowest usable one. It fails without changing anything, and
when no port was asked for only if the policy allows none or no port of the
allowed range is usable. *)
Theorem listenTunnelPort_spec can_bind `{GoUnicode} s l res req prev policy r r' out :
  (1 ≤ PortMin (rules s))%Z → inv r → ports_ok ∅ r → live r l res →
  listenTunnelPort can_bind s l req prev policy r = (r', out) →
  match out with
  | Ok p => p ≠ 0%Z ∧ portOf l r' = p ∧ can_bind p = true ∧ (req = 0%Z ∨ req = p) ∧
      (p = port res ∨ (p ∉ ports r) ∧ CheckRequestedPort (rules s) p policy = Ok tt)
  | Err e => r' = r ∧
      (req = 0%Z → port res = 0%Z → ∀ lo hi, AllocationRange (rules s) policy = Ok (lo, hi) →
       ∀ p, (lo ≤ p ≤ hi)%Z → p ∈ ports r ∨ can_bind p = false)
  end.
Proof.
  intros Hmin Hi Ho Hl Hout.
  pose proof (listenTunnelPort_cases can_bind s l req prev policy r) as Hc. rewrite Hout in Hc.
  assert (portOf l r = port res) as Hport by (unfold portOf; by rewrite (proj1 Hl)).
  destruct out as [p|e].
  - destruct (listenTunnelPort_ok can_bind s l res req prev policy r r' (Ok p)) as (_ & _ & _ & _ & _ & Hp); [done..|].
    destruct (Hp p eq_refl) as [Hpo H0]. split; [done|]. split; [done|].
    destruct Hc as [(_ & -> & _ & Hreq & Hb)|([Hfree Hb] & Hchk & Hreq & _)]; split_and!; try done.
    + by left.
    + by right.
  - destruct Hc as [-> _]. split; [done|]. intros -> Hz lo hi Ha p Hp.
    unfold listenTunnelPort in Hout. rewrite Hport, Hz, Ha in Hout. cbn [Z.eqb negb andb] in Hout.
    assert (∀ r1, (let '(r', got) := first_port can_bind (Z.to_nat (hi - lo + 1)) lo hi r in
       match got with
       | Some p => (setPort l p r', Ok p)
       | None => (r', Err (RemoteErr ERROR_CODE_PORT_UNAVAILABLE))
       end) = (r1, Err e) → ¬ usable can_bind r p) as Hnone.
    { intros r1. pose proof (first_port_spec can_bind (Z.to_nat (hi - lo + 1)) lo hi r) as Hf.
      destruct (first_port _ _ _ _ _) as [r2 [q|]]; [done|]. intros _. apply Hf; lia. }
    assert (¬ usable can_bind r p) as Hnot.
    { destruct (_ && _); [|by eapply Hnone].
      destruct (tryListen_cases can_bind prev r) as [[_ Ht]|[_ Ht]]; rewrite Ht in Hout; [done|by eapply Hnone]. }
    unfold usable in Hnot. destruct (can_bind p); [|by right]. left. destruct (decide (p ∈ ports r)); naive_solver.
Qed.

(** ** Custom domains *)

Lemma checkDomain_ok `{GoUnicode} s sess ty raw d :
  checkDomain s sess ty raw = Ok d →
  NormalizeTunnelDomain raw = Ok d ∧ AllowsDomain (TPolicy (token sess)) d = true ∧
  (IsWildcardDomain d = true → ty = TUNNEL_TYPE_TLS) ∧ (isHTTP ty = true → CanServeHost s d = true) ∧
  d ≠ BaseDomain (rules s) ∧ HasSuffix ("." +:+ BaseDomain (rules s)) d = false ∧ d ≠ ControlSNI (rules s).
Proof.
  unfold checkDomain. destruct (NormalizeTunnelDomain raw) as [d'|] eqn:Hn; [|done].
  destruct (IsWildcardDomain d' && _) eqn:Hw; [done|].
  destruct (_ || _ || _) eqn:Hb; [done|]. bool_facts.
  destruct (AllowsDomain _ d') eqn:Ha; cbn [negb]; [|done].
  destruct (isHTTP ty && _) eqn:Hc; [done|]. intros [= <-].
  split_and!; [done|done| | |by apply String.eqb_neq|done|by apply String.eqb_neq].
  - intros Hwild. rewrite Hwild in Hw. cbn [andb] in Hw. by bool_facts.
  - intros Hh. rewrite Hh in Hc. cbn [andb] in Hc. by bool_facts.
Qed.

(** A loop that checks each element and collects the results once each. *)
Lemma foldM_dedup {E} (f : string → result E string) raws out ds :
  foldM (λ out raw, match f raw with
                    | Err e => Err e
                    | Ok d => Ok (if bool_decide (d ∈ out) then out else out ++ [d])
                    end) out raws = Ok ds →
  NoDup out →
  NoDup ds ∧ (∀ d, d ∈ ds ↔ d ∈ out ∨ ∃ raw, raw ∈ raws ∧ f raw = Ok d) ∧
  (∀ raw, raw ∈ raws → is_ok (f raw) = true).
Proof.
  revert out. induction raws as [|raw raws IH]; intros out Hf Hnd; cbn [foldM] in Hf.
  { simplify_eq. split_and!; [done|intros d; split; [by left|]|]; [|by intros raw ?%elem_of_nil].
    by intros [?|(raw & ?%elem_of_nil & _)]. }
  destruct (f raw) as [d0|] eqn:Hd0; [|done]. apply IH in Hf as (Hnd' & Hin & Hall).
  - split_and!; [done| |intros raw' [->|?]%elem_of_cons; [by rewrite Hd0|by apply Hall]].
    intros d. rewrite Hin. assert (d ∈ (if bool_decide (d0 ∈ out) then out else out ++ [d0]) ↔ d ∈ out ∨ d = d0) as ->.
    { case_bool_decide; [naive_solver|]. by rewrite elem_of_app, list_elem_of_singleton. }
    setoid_rewrite elem_of_cons. split.
    + intros [[?| ->]|(raw' & ? & ?)]; [by left|right; exists raw; by split; [left|]|right; exists raw'; by split; [right|]].
    + intros [?|(raw' & [->|?] & ?)]; [by left; left|left; right; congruence|right; by exists raw'].
  - case_bool_decide as Hd; [done|]. apply NoDup_app. split_and!; [done| |apply NoDup_singleton].
    intros x Hx ->%list_elem_of_singleton. done.
Qed.

(** the custom domains a tunnel is given are exactly the normal forms of
the ones asked for, without duplicates; the token's policy allows each, none
is the base domain, under it (so none can shadow a tunnel's host name) or the
control name, only TLS tunnels have wildcards, and an HTTP tunnel has only
domains the relay has a certificate for. *)
Theorem checkDomains_sound `{GoUnicode} s sess ty spec ds :
  checkDomains s sess ty spec = Ok ds →
  NoDup ds ∧ (∀ d, d ∈ ds ↔ ∃ raw, raw ∈ sDomains spec ∧ NormalizeTunnelDomain raw = Ok d) ∧
  (ds ≠ [] → isHTTP ty = true ∨ ty = TUNNEL_TYPE_TLS) ∧
  ∀ d, d ∈ ds →
    AllowsDomain (TPolicy (token sess)) d = true ∧ d ≠ ControlSNI (rules s) ∧
    d ≠ BaseDomain (rules s) ∧ TunnelName (rules s) d = "" ∧
    (IsWildcardDomain d = true → ty = TUNNEL_TYPE_TLS) ∧ (isHTTP ty = true → CanServeHost s d = true).
Proof.
  intros Hc. assert (NoDup ds ∧ (∀ d, d ∈ ds ↔ ∃ raw, raw ∈ sDomains spec ∧ checkDomain s sess ty raw = Ok d) ∧
    (∀ raw, raw ∈ sDomains spec → is_ok (checkDomain s sess ty raw) = true) ∧
    (ds ≠ [] → isHTTP ty = true ∨ ty = TUNNEL_TYPE_TLS)) as (Hnd & Hin & Hall & Hty).
  { unfold checkDomains in Hc. destruct (sDomains spec) as [|raw0 raws].
    { simplify_eq. split_and!; [constructor| |by intros ? ?%elem_of_nil|done].
      intros d. split; [by intros ?%elem_of_nil|by intros (? & ?%elem_of_nil & _)]. }
    destruct (negb (isHTTP ty) && _) eqn:Hty; [done|].
    destruct (foldM_dedup _ _ _ _ Hc (NoDup_nil_2)) as (Hnd & Hin & Hall). split_and!; [done| |done|].
    - intros d. rewrite Hin, elem_of_nil. tauto.
    - intros _. destruct (isHTTP ty); [by left|right]. cbn [negb andb] in Hty. by bool_facts. }
  split; [done|]. split; [intros d; rewrite Hin; split; intros (raw & Hr & Hd); exists raw; (split; [done|])|].
  - by apply checkDomain_ok in Hd as [? _].
  - specialize (Hall raw Hr). destruct (checkDomain s sess ty raw) as [d'|] eqn:Hd'; [|done].
    apply checkDomain_ok in Hd' as [? _]. congruence.
  - split; [done|]. intros d (raw & _ & Hd)%Hin. apply checkDomain_ok in Hd as (_ & ? & ? & ? & ? & Hsuf & ?).
    split_and!; try done. unfold TunnelName. unfold HasSuffix in Hsuf. bool_facts.
    destruct (CutSuffix _ d) as [x|] eqn:Hx; [|done]. destruct Hsuf. by exists x.
Qed.

(** ** Authentication *)

Lemma verifyToken_ok `{Crypto} store tok rec :
  verifyToken store tok = Ok rec ↔
  ∃ id secret, ParseToken tok = Some (id, secret) ∧ store id = Ok (Some rec) ∧ Verify rec secret = true.
Proof.
  unfold verifyToken. split.
  - intros Hv. repeat case_match; simplify_eq. bool_facts. eauto 10.
  - intros (id & secret & -> & -> & ->). done.
Qed.

(** The agent knows the secret of the stored token [rec]: it sent
l8t_<id>_<secret>, and the secret fits the hash stored under the ID. *)
Definition knows_secret `{Crypto} (store : TokenStore) (tok : string) (rec : TokenRecord) : Prop :=
  ∃ id secret, tok = "l8t_" +:+ id +:+ "_" +:+ secret ∧
    String.length id = 8 ∧ str_forall is_hex id = true ∧ String.length secret = 43 ∧ str_forall is_word secret = true ∧
    store id = Ok (Some rec) ∧ bcrypt_matches (Hash rec) secret = true.

(** The token a client certificate stands for: the first l8tunnel:token: URI names
it, and it still lists the certificate's serial number. *)
Definition certified (store : TokenStore) (cert : Certificate) (rec : TokenRecord) : Prop :=
  ∃ before id after, URIs cert = before ++ ("l8tunnel:token:" +:+ id) :: after ∧
    (∀ u, u ∈ before → ∀ x, u ≠ "l8tunnel:token:" +:+ x) ∧
    store id = Ok (Some rec) ∧ Serial cert ∈ CertSerials rec.

Lemma knows_secret_iff `{Crypto} store tok rec : verifyToken store tok = Ok rec ↔ knows_secret store tok rec.
Proof.
  rewrite verifyToken_ok. unfold knows_secret, Verify. split.
  - intros (id & secret & (? & ? & ? & ? & ?)%ParseToken_spec & ? & ?). by exists id, secret.
  - intros (id & secret & ? & ? & ? & ? & ? & ? & ?). exists id, secret. split; [|done]. by apply ParseToken_spec.
Qed.

Lemma CertIdentity_spec cert id serial : CertIdentity cert = Some (id, serial) ↔
  serial = Serial cert ∧ ∃ before after, URIs cert = before ++ ("l8tunnel:token:" +:+ id) :: after ∧
    ∀ u, u ∈ before → ∀ x, u ≠ "l8tunnel:token:" +:+ x.
Proof.
  unfold CertIdentity. generalize (Serial cert) as n. induction (URIs cert) as [|u us IH]; intros n.
  { split; [done|]. intros (_ & [|] & ? & ? & _); done. }
  cbn [omap list_omap]. destruct (CutPrefix "l8tunnel:token:" u) as [x|] eqn:Hu.
  - apply CutPrefix_Some in Hu. split.
    + intros [= <- <-]. split; [done|]. exists [], us. subst u. split; [done|by intros ? ?%elem_of_nil].
    + intros (-> & [|v before] & after & Hb & Hno); [|by destruct (Hno v ltac:(left) x); injection Hb as <- _].
      injection Hb as Heq _. rewrite Hu in Heq. by apply str_app_inj_l in Heq as ->.
  - assert (∀ x, u ≠ "l8tunnel:token:" +:+ x) as Hne by (intros x Hx; apply CutPrefix_Some in Hx; congruence).
    rewrite IH. split; intros (-> & before & after & Hb & Hno); (split; [done|]).
    + exists (u :: before), after. rewrite Hb. split; [done|]. intros v [->|Hv]%elem_of_cons; [done|by apply Hno].
    + destruct before as [|v before]; [by injection Hb as -> _; destruct (Hne id)|]. injection Hb as -> ->.
      exists before, after. split; [done|]. intros w Hw. apply Hno. by right.
Qed.

Lemma HasCertSerial_spec rec serial : HasCertSerial rec serial = true ↔ serial ∈ CertSerials rec.
Proof.
  unfold HasCertSerial. rewrite existsb_exists. setoid_rewrite <-list_elem_of_In. split.
  - by intros (x & ? & ->%String.eqb_eq).
  - intros ?. exists serial. by rewrite String.eqb_refl.
Qed.

(** C20: who an agent is. An agent is authenticated as a token exactly when: it
knows the token's secret and, if it also presents a certificate, that stands for
the same token, and if it presents none, the policy does not require one; or it
sends no secret and a certificate that stands for the token. Knowing a secret is
fitting the stored hash, standing for a token is naming it with a serial number it
still lists; so a certificate that is not (or no longer) listed is always refused,
also next to a valid secret. *)
Theorem authenticate_spec `{Crypto} store tok peer rec :
  authenticate store tok peer = Ok rec ↔
  match peer with
  | None => knows_secret store tok rec ∧ RequireCert (TPolicy rec) = false
  | Some cert => ∃ crec, certified store cert crec ∧
      (if String.eqb tok "" then rec = crec
       else knows_secret store tok rec ∧ ID crec = ID rec)
  end.
Proof.
  unfold authenticate. destruct peer as [cert|].
  - transitivity (∃ crec id serial, CertIdentity cert = Some (id, serial) ∧ store id = Ok (Some crec) ∧ HasCertSerial crec serial = true ∧
      (if String.eqb tok "" then rec = crec else verifyToken store tok = Ok rec ∧ ID crec = ID rec)).
    + destruct (CertIdentity cert) as [[id serial]|]; [|by split; [|intros (? & ? & ? & ? & _)]].
      destruct (store id) as [[crec|]|] eqn:Hst; [|split; [done|]; intros (? & ? & ? & [= <- <-] & ? & _); congruence..].
      destruct (HasCertSerial crec serial) eqn:Hser; cbn [negb];
        [|split; [done|]; intros (? & ? & ? & [= <- <-] & ? & ? & _); congruence].
      transitivity (if String.eqb tok "" then rec = crec else verifyToken store tok = Ok rec ∧ ID crec = ID rec).
      * destruct (String.eqb tok ""); [naive_solver|]. destruct (verifyToken store tok) as [rec'|]; [|naive_solver].
        destruct (String.eqb_spec (ID crec) (ID rec')); cbn [negb]; naive_solver.
      * split; [intros ?; exists crec; eauto 10|].
        intros (crec' & ? & ? & [= <- <-] & Hs & _ & ?). rewrite Hst in Hs. by simplify_eq.
    + apply exist_proper. intros crec. pose proof (knows_secret_iff store tok rec) as Hks. revert Hks.
      generalize (knows_secret store tok rec) as K. intros K Hks. destruct (String.eqb tok ""); try setoid_rewrite Hks; clear Hks;
      unfold certified; setoid_rewrite CertIdentity_spec;
      setoid_rewrite HasCertSerial_spec; (split;
      [intros (id & ? & (-> & before & after & ? & ?) & ? & ? & ?); split; [|done]; by exists before, id, after|
       intros ((before & id & after & ? & ? & ? & ?) & ?); exists id, (Serial cert); eauto 10]).
  - rewrite <-knows_secret_iff. destruct (String.eqb_spec tok "") as [->|].
    { split; [done|]. intros [Hv _]. by vm_compute in Hv. }
    destruct (verifyToken store tok) as [rec'|]; [|naive_solver].
    destruct (RequireCert (TPolicy rec')) eqn:Hq.
    + split; [done|]. intros ([= <-] & ?). congruence.
    + split; [by intros [= <-]|]. by intros ([= <-] & _).
Qed.

(** ** A sample relay *)

#[local] Existing Instance plain_crypto.
#[local] Existing Instance ascii_only.

Module RelaySample.
Definition can_bind (p : Z) : bool := negb (p =? 2000)%Z.   (* another program has port 2000 *)
Definition s : Server :=
  mkServer (mkRules "t.example" "control.t.example" "" [] 2000 2010) "relay.example" 443 (λ _, true) None None.
Definition rec : TokenRecord := mkToken "tok" "t" "secret" (mkPolicy [] [] 0 "" false ["*.shop.example"]) [].
Definition sess : agentSession := mkSession 1%positive rec "agent-1" [] ReasonAgentClosed.
Definition ssh : ids * TunnelSpec := (mkIds 10%positive "id1" "r1", mkSpec "ssh" TUNNEL_TYPE_TCP 0 noPolicy [] 0).
Definition web_spec : TunnelSpec := mkSpec "web" TUNNEL_TYPE_HTTP 0 noPolicy ["A.Shop.example."] 0.
Definition web : ids * TunnelSpec := (mkIds 11%positive "id2" "r2", web_spec).
(* the session itself has "ssh" by then *)
Definition bad : ids * TunnelSpec := (mkIds 12%positive "id3" "r3", mkSpec "ssh" TUNNEL_TYPE_TCP 0 noPolicy [] 0).
Definition r0 : nameRegistry := newNameRegistry (5 * minute)%Z.
Definition run (specs : list (ids * TunnelSpec)) (r : nameRegistry) := register can_bind s 0 sess specs r.
Definition r1 : nameRegistry := (run [ssh; web] r0).1.1.1.
Definition l1 : loc := fresh_loc r0.

Lemma r0_inv : inv r0.
Proof. split; intros *; unfold live; cbn; rewrite ?lookup_empty; set_solver. Defined.
Lemma r0_ports : ports_ok ∅ r0.
Proof. split; intros *; unfold live; cbn; rewrite ?lookup_empty; set_solver. Defined.
Lemma min_ok : (1 ≤ PortMin (rules s))%Z.
Proof. cbn. lia. Defined.
End RelaySample.

Lemma register_all_or_nothing_witness :
  let '(r, sess, _, rep) := RelaySample.run [RelaySample.ssh; RelaySample.web; RelaySample.bad] RelaySample.r0 in
  rep = ErrorReply ERROR_CODE_NAME_TAKEN ∧ sess = RelaySample.sess ∧ names r = names RelaySample.r0 ∧ ports r = ports RelaySample.r0.
Proof.
  destruct (RelaySample.run _ _) as [[[r sess] fx] rep] eqn:Hr.
  assert (rep = ErrorReply ERROR_CODE_NAME_TAKEN) as -> by (vm_compute in Hr; congruence).
  pose proof (register_all_or_nothing RelaySample.can_bind RelaySample.s RelaySample.min_ok 0 RelaySample.sess
    [RelaySample.ssh; RelaySample.web; RelaySample.bad] RelaySample.r0 r sess fx _
    RelaySample.r0_inv RelaySample.r0_ports Hr) as (_ & _ & _ & Hs & _ & _ & Hsame).
  destruct Hsame as (Hn & _ & Hp); [intros n _; reflexivity|].
  split_and!; [reflexivity|assumption..].
Defined.

(** A second session of the agent asks for its tunnel with another port and then
for the same name again. It is refused, but the first spec has already taken the
tunnel over from the old session: the reservation is parked with the new port. *)
Lemma refused_after_takeover :
  let again := RelaySample.sess <| sid := 2%positive |> in
  let moved := (mkIds 20%positive "id4" "r4", mkSpec "ssh" TUNNEL_TYPE_TCP 2007 noPolicy [] 0) in
  let r1 := (RelaySample.run [RelaySample.ssh] RelaySample.r0).1.1.1 in
  let '(r2, _, _, rep) := register RelaySample.can_bind RelaySample.s 0 again [moved; RelaySample.bad] r1 in
  rep = ErrorReply ERROR_CODE_NAME_TAKEN ∧ ports r1 = {[2001%Z]} ∧ ports r2 = {[2007%Z]} ∧
  (λ res, (session res, tunnel res)) <$> (names r2 !! "ssh" ≫= (heap r2 !!.)) = Some (None, None).
Proof. vm_compute. split_and!; reflexivity. Qed.

Lemma relay_ports_exclusive_witness :
  ports RelaySample.r1 = {[2001%Z]} ∧
  ∃ l res, live RelaySample.r1 l res ∧ port res = 2001%Z.
Proof.
  split; [vm_compute; reflexivity|].
  apply (relay_ports_exclusive RelaySample.s RelaySample.min_ok (5 * minute)%Z RelaySample.r1).
  - apply rtc_once. exact (step_register RelaySample.s RelaySample.r0 RelaySample.can_bind 0 RelaySample.sess
      [RelaySample.ssh; RelaySample.web]).
  - vm_compute. reflexivity.
Defined.

Lemma listenTunnelPort_spec_witness :
  let r := (claim "ssh" TUNNEL_TYPE_TCP "tok" "agent-1" 1%positive 0 RelaySample.r0).1 in
  ∃ p, (listenTunnelPort RelaySample.can_bind RelaySample.s RelaySample.l1 0 2000 (TPolicy RelaySample.rec) r).2 = Ok p ∧
       RelaySample.can_bind p = true.
Proof.
  intros r. exists 2001%Z. split; [vm_compute; reflexivity|].
  refine (proj1 (proj2 (proj2 (listenTunnelPort_spec RelaySample.can_bind RelaySample.s RelaySample.l1
    (mkReservation "ssh" TUNNEL_TYPE_TCP "tok" "agent-1" 0 [] false (Some 1%positive) None false 0)
    0 2000 (TPolicy RelaySample.rec) r _ (Ok 2001%Z) RelaySample.min_ok _ _ _ _)))).
  - exact (inv_claim _ _ _ _ _ _ _ RelaySample.r0_inv).
  - exact (ports_claim _ _ _ _ _ _ _ _ RelaySample.r0_inv RelaySample.r0_ports).
  - split; vm_compute; reflexivity.
  - vm_compute. reflexivity.
Defined.

Lemma checkDomains_sound_witness :
  checkDomains RelaySample.s RelaySample.sess TUNNEL_TYPE_HTTP RelaySample.web_spec = Ok ["a.shop.example"] ∧
  TunnelName (rules RelaySample.s) "a.shop.example" = "".
Proof.
  assert (checkDomains RelaySample.s RelaySample.sess TUNNEL_TYPE_HTTP RelaySample.web_spec = Ok ["a.shop.example"])
    as Hc by (vm_compute; reflexivity).
  split; [exact Hc|]. destruct (checkDomains_sound _ _ _ _ _ Hc) as (_ & _ & _ & Hd).
  apply (Hd "a.shop.example"). left.
Defined.
