(* ===== verification/RelayServe.v ===== *)
(** * A relay at work (go/tunnel/relay: router.go, gateway.go, admin.go,
session.go, cluster.go, tunnel.go, server.go)

The relay's state is its registry, the tunnel objects sessions opened, its
rate limiters and counters, its sessions and its flags. A handler takes the
state and what it reads from the network, and returns the new state and what
it does with the connection. TLS handshakes, dialing, SSH and message
decoding are not modelled: a handler that terminates TLS returns what it does
once the handshake succeeded, and network input is an argument. *)

From S2P Require Import Prelude GoStrings Protocol Policy NetIP Limiter Transport Access NameRegistry RelayTunnels.
From stdpp Require Import options.
From Stdlib Require Import Ascii.
#[local] Open Scope l8_scope.
Import Rules Auth.

Definition Version : N := 1.
Definition ALPN : string := "l8tunnel/1".
Definition ConnectALPN : string := "l8tunnel-connect/1".
Definition ConnectTokenALPN : string := "l8tunnel-connect-token/1".
Definition handshakeTimeout : Z := (10 * second)%Z.
Definition missedHeartbeats : Z := 3.

Record Hello := mkHello {
  ProtocolVersion : N; HToken : string; HAgent : string;
  AgentVersion : string; Os : string; Arch : string;
}.

(** A session the server tracks: [sess] once its handshake is done. *)
Record tracked := mkTracked {
  sess : option agentSession;
  tReason : DisconnectReason;
  muxClosed : bool;
  lastSeen : Z;
  rttMicros : Z;
}.
#[export] Instance eta_tracked : Eta tracked := λ t,
  mkTracked (sess t) (tReason t) (muxClosed t) (lastSeen t) (rttMicros t).

Record counters := mkCounters {
  rejectedRate : Z; rejectedIP : Z; rejectedNoRoute : Z; cAuthFailures : Z; sessionsAccepted : Z;
}.
#[export] Instance eta_counters : Eta counters := λ c,
  mkCounters (rejectedRate c) (rejectedIP c) (rejectedNoRoute c) (cAuthFailures c) (sessionsAccepted c).

Record relay := mkRelay {
  registry : nameRegistry;
  objects : gmap tunnel_id tunnel_t;
  connLimit : IPLimiter;
  authFailures : IPLimiter;
  count : counters;
  sessions : gmap session_id tracked;
  draining : bool;
  srvClosed : bool;
}.
#[export] Instance eta_relay : Eta relay := λ x,
  mkRelay (registry x) (objects x) (connLimit x) (authFailures x) (count x) (sessions x) (draining x) (srvClosed x).

Definition bump_rate (x : relay) : relay := x <| count := count x <| rejectedRate := (rejectedRate (count x) + 1)%Z |> |>.
Definition bump_ip (x : relay) : relay := x <| count := count x <| rejectedIP := (rejectedIP (count x) + 1)%Z |> |>.
Definition bump_route (x : relay) : relay := x <| count := count x <| rejectedNoRoute := (rejectedNoRoute (count x) + 1)%Z |> |>.
Definition bump_auth (x : relay) : relay := x <| count := count x <| cAuthFailures := (cAuthFailures (count x) + 1)%Z |> |>.
Definition bump_accepted (x : relay) : relay :=
  x <| count := count x <| sessionsAccepted := (sessionsAccepted (count x) + 1)%Z |> |>.

(** A peer address: the IP of a TCP address, if it is one, and the address
[netip.ParseAddrPort] reads in its text. *)
Record netAddr := mkNetAddr { tcpIP : option Addr; textIP : option Addr }.

Definition remoteIP (addr : netAddr) : Addr :=
  match tcpIP addr with
  | Some ip => Unmap ip
  | None => match textIP addr with None => AddrZero | Some ip => Unmap ip end
  end.

(** What the relay does with a connection. *)
Inductive tls_config := CfgAgent | CfgAgentWS | CfgTunnel | CfgTunnelToken | CfgHTTP.
Inductive action :=
| CloseConn                                  (* it is closed *)
| RejectTLS                                  (* the handshake fails with an alert *)
| Passthrough (t : tunnel_id)                (* the raw stream goes to the tunnel *)
| Terminate (cfg : tls_config) (next : next_step)  (* TLS is terminated; then, if the handshake succeeds *)
| ToOwner (addr : string)                    (* the raw stream goes to another relay *)
with next_step :=
| PushWebSocket | ServeAgent | ServeHTTP
| ForwardTo (t : tunnel_id)                  (* the inner stream goes to the tunnel *)
| TokenAuth (t : tunnel_id).                 (* the client sends its access token first *)

Section relay.
Context `{GoUnicode, Crypto, MapRange} (s : Server).

(** ** Admission *)

Definition admit_ (addr : netAddr) (access : option Access) (now : Z) (x : relay) : relay * bool :=
  let ip := remoteIP addr in
  let '(l, ok) := Allow ip now (connLimit x) in
  let x := x <| connLimit := l |> in
  if negb ok then (bump_rate x, false)
  else match access with
       | Some a => if negb (AllowsIP a ip) then (bump_ip x, false) else (x, true)
       | None => (x, true)
       end.

Definition offers (protos want : list string) : bool :=
  existsb (λ p, existsb (λ w, String.eqb p w) want) protos.

(** ** Routing by name *)

Definition normal_host (host : string) : string := ToLower (TrimSuffix "." host).

Definition resolveHost (x : relay) (host : string) : option tunnel_id * TunnelType * string :=
  let host := normal_host host in
  let name := TunnelName (rules s) host in
  if negb (String.eqb name "")
  then let '(t, typ, _) := lookup name (registry x) in (t, typ, name)
  else let '(t, typ, name, _) := lookupDomain host (registry x) in (t, typ, name).

Inductive State := StateUnknown | StateOffline | StateActive.

Definition lookupHTTP (x : relay) (host : string) : option tunnel_id * State * string :=
  let '(t, typ, name) := resolveHost x host in
  let '(_, _, found) := lookup name (registry x) in
  if String.eqb name "" then (None, StateUnknown, "")
  else if negb found || negb (isHTTP typ) then (None, StateUnknown, name)
  else match t with
       | None => (None, StateOffline, name)
       | Some t => (Some t, StateActive, name)
       end.

Definition IsTunnelHost (x : relay) (host : string) : bool :=
  if (if Login s is Some l then String.eqb (ToLower host) (LoginAuthHost l) else false) then true
  else
    let '(_, _, name) := resolveHost x host in
    let '(_, _, found) := lookup name (registry x) in found.

Definition OIDCRuleFor (x : relay) (host : string) : option OIDCRule :=
  let '(t, typ, _) := resolveHost x host in
  match t with
  | None => None
  | Some t => if negb (isHTTP typ) then None else (o ← objects x !! t; oidc (access o))
  end.

(** ** The shared TLS listener *)

Record ClientHello := mkClientHello { ServerName : string; SupportedProtos : list string }.

(** The access policy and the public port of a tunnel object. *)
Definition access_of (x : relay) (t : tunnel_id) : Access :=
  match objects x !! t with Some o => access o | None => mkParsed [] [] ∅ "" None ∅ end.

Definition public_port_of (x : relay) (t : tunnel_id) : Z :=
  match objects x !! t with Some o => PublicPort (endpoint o) | None => 0 end.

(** [forwardToOwner]: the relay to pass the connection to, if it is to be
passed on; [tlvs] are those of the connection's PROXY header, [reached] says
which relays the network lets it reach. *)
Definition forwardToOwner (tlvs : list TLV) (reached : string → bool) (host : string) : option string :=
  match Cluster s with
  | None => None
  | Some c =>
      if bool_decide (is_Some (FindTLV tlvs TLVAuth)) then None
      else match OwnerOf c host with
           | None => None
           | Some addr => if negb (reached addr) then None else Some addr
           end
  end.

(** [serveTokenTunnel], up to the TLS handshake. *)
Definition serveTokenTunnel (addr : netAddr) (t : tunnel_id) (protos : list string) (now : Z) (x : relay)
    : relay * action :=
  let '(l, exhausted) := Exhausted (remoteIP addr) now (authFailures x) in
  let x := x <| authFailures := l |> in
  if exhausted then (x, RejectTLS)
  else if negb (offers protos [ConnectTokenALPN]) then (x, RejectTLS)
  else (x, Terminate CfgTunnelToken (TokenAuth t)).

(** The switch at the end of [serveConn], on what the name resolved to. *)
Definition route (addr : netAddr) (t : option tunnel_id) (typ : TunnelType) (name : string) (protos : list string)
    (now : Z) (x : relay) : relay * action :=
  let rest := if negb (String.eqb name "") && (isHTTP typ || negb (offers protos [ConnectALPN]))
              then (x, Terminate CfgHTTP ServeHTTP) else (bump_route x, RejectTLS) in
  match t with
  | None => rest
  | Some t =>
      if negb (AllowsIP (access_of x t) (remoteIP addr)) && negb (isHTTP typ) then (bump_ip x, RejectTLS)
      else if bool_decide (typ = TUNNEL_TYPE_TLS) then (x, Passthrough t)
      else if hasPublicPort typ && RequiresToken (access_of x t) then serveTokenTunnel addr t protos now x
      else if hasPublicPort typ then (x, Terminate CfgTunnel (ForwardTo t))
      else rest
  end.

Definition serveConn (addr : netAddr) (hello : option ClientHello) (tlvs : list TLV) (reached : string → bool)
    (now : Z) (x : relay) : relay * action :=
  let '(x, ok) := admit_ addr None now x in
  if negb ok then (x, CloseConn)
  else match hello with
  | None => (x, CloseConn)
  | Some hello =>
  let sni := normal_host (ServerName hello) in
  let protos := SupportedProtos hello in
  if String.eqb sni (ControlSNI (rules s)) then
    if negb (offers protos [ALPN]) && offers protos ["http/1.1"] then (x, Terminate CfgAgentWS PushWebSocket)
    else if negb (offers protos [ALPN]) then (x, RejectTLS)
    else (x, Terminate CfgAgent ServeAgent)
  else if (if Login s is Some l then String.eqb sni (LoginAuthHost l) else false) then (x, Terminate CfgHTTP ServeHTTP)
  else
  let '(t, typ, name) := resolveHost x sni in
  match (if t is Some _ then None else forwardToOwner tlvs reached sni) with
  | Some owner => (x, ToOwner owner)
  | None => route addr t typ name protos now x
  end end.

(** The rest of [serveTokenTunnel], once TLS is set up: [msg] is the token the
client sent, if it sent one, [written] whether the answer could be sent. The
result is the tunnel the stream goes to. *)
Definition serveToken (addr : netAddr) (t : tunnel_id) (msg : option string) (written : bool) (now : Z) (x : relay)
    : relay * option tunnel_id :=
  match msg with
  | None => (x, None)
  | Some tok =>
      let ok := CheckToken (access_of x t) tok in
      if negb written then (x, None)
      else if negb ok then
        (bump_auth (x <| authFailures := (Allow (remoteIP addr) now (authFailures x)).1 |>), None)
      else (x, Some t)
  end.

(** ** Tunnel ports and relay-to-relay streams *)

(** One accepted connection on a tunnel's public port. *)
Definition servePort (addr : netAddr) (t : tunnel_id) (now : Z) (x : relay) : relay * option tunnel_id :=
  let '(x, ok) := admit_ addr (Some (access_of x t)) now x in
  (x, if negb ok then None else Some t).

(** One connection on the stream port (open only in a cluster); [client] is the
text of the client's address. *)
Definition serveStream `{HMAC} (addr : netAddr) (client : string) (tlvs : list TLV) (now : Z) (x : relay)
    : relay * option tunnel_id :=
  match Cluster s with
  | None => (x, None)
  | Some c =>
  match VerifySignedTLVs (ForwardKey c) tlvs client now with
  | Err _ => (x, None)
  | Ok name =>
      let '(t, _, _) := lookup name (registry x) in
      match t with
      | None => (bump_route x, None)
      | Some t => let '(x, ok) := admit_ addr (Some (access_of x t)) now x in (x, if negb ok then None else Some t)
      end
  end end.

(** ** The SSH gateway *)

Record directTCPIP := mkDirect { dHost : string; dPort : Z }.

Inductive gateway_refusal :=
| UnknownTunnel | KeyRemoved | NoTunnel | NotGranted | ReachedOn22 | AddressNotAllowed.

Inductive gateway_target :=
| LocalTunnel (t : tunnel_id)
| RemoteRelay (addr : string)
| Refused (why : gateway_refusal).

(** The host a client asked for, with the base domain if it named only the
tunnel. *)
Definition gateway_host (host : string) : string :=
  let host := normal_host host in
  if negb (str_mem "."%char host) then host +:+ "." +:+ BaseDomain (rules s) else host.

(** [keys] is the key store's answer for the fingerprint of the connection's
key, at the time of the call. *)
Definition gatewayTarget (keys : result unit (option GatewayKey)) (addr : netAddr) (req : directTCPIP) (x : relay)
    : relay * gateway_target :=
  let name := TunnelName (rules s) (gateway_host (dHost req)) in
  if String.eqb name "" then (x, Refused UnknownTunnel)
  else match keys with
  | Err _ | Ok None => (x, Refused KeyRemoved)
  | Ok (Some key) =>
  let '(t, typ, _) := lookup name (registry x) in
  match t, Cluster s with
  | None, Some c =>
      match StreamOwnerOf c name with
      | None => (x, Refused NoTunnel)
      | Some (addr, accessToken) =>
          if negb (KeyAllows key name accessToken) then (x, Refused NotGranted) else (x, RemoteRelay addr)
      end
  | None, None => (x, Refused NoTunnel)
  | Some t, _ =>
      if negb (hasPublicPort typ) then (x, Refused NoTunnel)
      else if negb (dPort req =? 22)%Z && negb (dPort req =? public_port_of x t)%Z then (x, Refused ReachedOn22)
      else if negb (KeyAllows key name (RequiresToken (access_of x t))) then (x, Refused NotGranted)
      else if negb (AllowsIP (access_of x t) (remoteIP addr)) then (bump_ip x, Refused AddressNotAllowed)
      else (x, LocalTunnel t)
  end end.

(** A gateway login: [accepted] says whether the SSH handshake succeeded with
a key of the store, [netclosed] whether it failed because the connection was
closed locally. *)
Definition serveGateway (addr : netAddr) (accepted netclosed : bool) (now : Z) (x : relay) : relay * bool :=
  let '(x, ok) := admit_ addr None now x in
  if negb ok then (x, false)
  else
    let '(l, exhausted) := Exhausted (remoteIP addr) now (authFailures x) in
    let x := x <| authFailures := l |> in
    if exhausted then (x, false)
    else if negb accepted then
      (if negb netclosed then bump_auth (x <| authFailures := (Allow (remoteIP addr) now (authFailures x)).1 |>) else x,
       false)
    else (x, true).

(** ** Sessions *)

Definition set_session (i : session_id) (f : tracked → tracked) (x : relay) : relay :=
  x <| sessions := alter f i (sessions x) |>.

(** [sess.close(reason)]: the first closer's reason stays. *)
Definition close_tracked (why : DisconnectReason) (t : tracked) : tracked :=
  t <| tReason := if bool_decide (tReason t = ReasonAgentClosed) then why else tReason t |> <| muxClosed := true |>.
Definition close_session (why : DisconnectReason) (i : session_id) (x : relay) : relay :=
  set_session i (close_tracked why) x.

Definition track (i : session_id) (x : relay) : relay * bool :=
  if srvClosed x then (x, false)
  else (x <| sessions := <[i := mkTracked None ReasonAgentClosed false 0 0]> (sessions x) |>, true).
Definition untrack (i : session_id) (x : relay) : relay := x <| sessions := delete i (sessions x) |>.

Definition sessionList (x : relay) : list (session_id * tracked) := range (sessions x).

(** [Drain], up to the point where an operator resumes the relay: [n] sessions
of the list were reached while it was draining. *)
Definition Drain (n : nat) (x : relay) : relay :=
  if draining x then x
  else foldl (λ x '(i, _), close_session ReasonDrained i x) (x <| draining := true |>) (take n (sessionList x)).
Definition Resume (x : relay) : relay := if draining x then x <| draining := false |> else x.

Definition DisconnectAgent (agent : string) (why : DisconnectReason) (x : relay) : relay * Z :=
  foldl (λ '(x, n) '(i, t),
           if (if sess t is Some se then String.eqb (sessAgentID se) agent else String.eqb "" agent)
           then (close_session why i x, (n + 1)%Z) else (x, n)) (x, 0%Z) (sessionList x).

Definition serves (tunnelID : string) (t : tracked) : bool :=
  if sess t is Some se then existsb (λ o, String.eqb (TunnelId (endpoint o)) tunnelID) (tunnels se) else false.

Definition CloseTunnel (tunnelID : string) (why : DisconnectReason) (x : relay) : relay * bool :=
  match List.find (λ '(_, t), serves tunnelID t) (sessionList x) with
  | Some (i, _) => (close_session why i x, true)
  | None => (x, false)
  end.

(** The sessions to end are those whose reservations were released and those
that authenticated with the token. *)
Definition DisconnectToken (tok : string) (x : relay) : relay * Z :=
  let '(r, released) := releaseToken tok (registry x) in
  let x := x <| registry := r |> in
  let own := omap (λ '(i, t), if sess t is Some se
                              then if String.eqb (ID (token se)) tok then Some i else None else None) (sessionList x) in
  let all : gset session_id := list_to_set (released ++ own) in
  (foldl (λ x i, close_session ReasonTokenRevoked i x) x (elements all), Z.of_nat (size all)).

Definition Reserve (n tok : string) (p : Z) (x : relay) : relay * result rule_err unit :=
  match CheckReservation (rules s) n p with
  | Err e => (x, Err e)
  | Ok _ => let '(r, res) := reserve n tok p (registry x) in (x <| registry := r |>, res)
  end.
Definition Unreserve (n : string) (x : relay) : relay := x <| registry := unreserve n (registry x) |>.

(** ** A session's life *)

(** The messages a session sends. *)
Inductive control_reply :=
| Welcome (sess : session_id)
| Pong (nonce : N) (sent : Z)
| Reply (r : reply).

Inductive handshake_err := ErrNoHello | ErrVersion | ErrAuth (e : auth_err) | ErrNoAgentID.

(** The first message of an agent: [None] is a message that is not Hello. *)
Definition handshake (store : TokenStore) (i : session_id) (peer : option Certificate) (hello : option Hello)
    : list control_reply * result handshake_err agentSession :=
  match hello with
  | None => ([Reply (ErrorReply ERROR_CODE_INVALID_REQUEST)], Err ErrNoHello)
  | Some h =>
      if negb (ProtocolVersion h =? Version)%N
      then ([Reply (ErrorReply ERROR_CODE_UNSUPPORTED_VERSION)], Err ErrVersion)
      else match authenticate store (HToken h) peer with
      | Err e => ([Reply (ErrorReply ERROR_CODE_UNAUTHORIZED)], Err (ErrAuth e))
      | Ok rec =>
          if String.eqb (HAgent h) "" then ([Reply (ErrorReply ERROR_CODE_INVALID_REQUEST)], Err ErrNoAgentID)
          else ([Welcome i], Ok (mkSession i rec (HAgent h) [] ReasonAgentClosed))
      end
  end.

(** [errors.Is(err, errUnauthorized)] *)
Definition unauthorized (e : handshake_err) : bool :=
  match e with ErrAuth errUnauthorized | ErrAuth errCertRequired => true | _ => false end.

(** [serveAgent] up to the control loop; [welcomed] says whether Welcome could
be sent. *)
Definition serveAgent (store : TokenStore) (i : session_id) (addr : netAddr) (peer : option Certificate)
    (hello : option Hello) (welcomed : bool) (now : Z) (x : relay) : relay * list control_reply * option agentSession :=
  let ip := remoteIP addr in
  let '(l, exhausted) := Exhausted ip now (authFailures x) in
  let x := x <| authFailures := l |> in
  if exhausted then (x, [], None)
  else if draining x then (x, [], None)
  else
    let '(x, ok) := track i x in
    if negb ok then (x, [], None)
    else match handshake store i peer hello with
    | (out, Err e) =>
        let x := if unauthorized e
                 then bump_auth (x <| authFailures := (Allow ip now (authFailures x)).1 |>) else x in
        (untrack i x, out, None)
    | (out, Ok se) =>
        if negb welcomed then (untrack i x, out, None)
        else (set_session i (λ t, t <| sess := Some se |> <| lastSeen := now |>) (bump_accepted x), out, Some se)
    end.

(** The control messages of an agent. *)
Inductive control_message :=
| MsgRegister (specs : list (ids * TunnelSpec))
| MsgPing (nonce : N) (sent : Z) (lastRTT : Z)
| MsgOther.

(** One round of [controlLoop]: the reply, or none if the session ends. The
tunnels the session opened become objects of the relay. *)
Definition add_objects (old new : agentSession) (x : relay) : relay :=
  x <| objects := foldl (λ m t, <[tid t := t]> m) (objects x) (drop (length (tunnels old)) (tunnels new)) |>.

Definition control_step (can_bind : Z → bool) (i : session_id) (se : agentSession) (msg : control_message) (now : Z)
    (x : relay) : relay * agentSession * list effect * option control_reply :=
  let x := set_session i (λ t, t <| lastSeen := now |>) x in
  match msg with
  | MsgRegister specs =>
      let '(r, se', fx, rep) := register can_bind s now se specs (registry x) in
      let x := add_objects se se' (set_session i (λ t, t <| sess := Some se' |>) (x <| registry := r |>)) in
      (x, se', fx, match rep with EndSession => None | rep => Some (Reply rep) end)
  | MsgPing nonce sent rtt =>
      (set_session i (λ t, t <| rttMicros := rtt |>) x, se, [], Some (Pong nonce sent))
  | MsgOther => (x, se, [], Some (Reply (ErrorReply ERROR_CODE_INVALID_REQUEST)))
  end.

(** One tick of [watchdog]. *)
Definition watchdog (interval : Z) (i : session_id) (now : Z) (x : relay) : relay :=
  match sessions x !! i with
  | Some t => if (missedHeartbeats * interval <? now - lastSeen t)%Z then close_session ReasonHeartbeat i x else x
  | None => x
  end.

(** The end of a session: its tunnels are closed and parked, and it is not
tracked any more. *)
Definition end_session (i : session_id) (now : Z) (x : relay) : relay * list effect :=
  match sessions x !! i with
  | Some t =>
      let '(r, fx) := match sess t with
                      | Some se =>
                          let '(r, _, fx) := closeTunnels s now (se <| reason := tReason t |>) (registry x) in (r, fx)
                      | None => (registry x, [])
                      end in
      (untrack i (x <| registry := r |>), fx)
  | None => (x, [])
  end.
End relay.
