(* ===== verification/RelayServeSpec.v ===== *)
(** * A relay at work: theorems

Which connections reach a tunnel, who may use the SSH gateway, how many wrong
access tokens an address may try, and that revoking a token is complete. *)

From S2P Require Import Prelude GoStrings Protocol Policy NetIP Limiter Transport Access.
From S2P Require Import NameRegistry NameRegistryInv NameRegistrySpec RelayTunnels RelayTunnelsSpec RelayServe.
From Stdlib Require Import QArith Lqa.
From stdpp Require Import options.
#[local] Open Scope l8_scope.
#[local] Open Scope nat_scope.
Import Rules Auth.

Section relay.
Context `{GoUnicode, Crypto, MapRange} (s : Server).

(** ** Routing *)

Lemma admit_frame addr a now x :
  registry (admit_ addr a now x).1 = registry x ∧ objects (admit_ addr a now x).1 = objects x ∧
  authFailures (admit_ addr a now x).1 = authFailures x ∧
  ((admit_ addr a now x).2 = true →
     (Allow (remoteIP addr) now (connLimit x)).2 = true ∧
     (if a is Some a then AllowsIP a (remoteIP addr) = true else True)).
Proof.
  unfold admit_. destruct (Allow _ _ _) as [l []]; [|done]. cbn. destruct a as [a|]; [|done].
  by destruct (AllowsIP a (remoteIP addr)).
Qed.

Lemma resolveHost_frame x x' host : registry x' = registry x → resolveHost s x' host = resolveHost s x host.
Proof. unfold resolveHost. by intros ->. Qed.

Lemma offers_one protos w : offers protos [w] = true → w ∈ protos.
Proof.
  unfold offers. intros (p & Hin & Hp)%existsb_exists. cbn in Hp.
  rewrite orb_false_r in Hp. apply String.eqb_eq in Hp as ->. by apply list_elem_of_In.
Qed.

Lemma route_safe addr ot typ name protos now x x' act :
  route addr ot typ name protos now x = (x', act) →
  match act with
  | Passthrough t => ot = Some t ∧ typ = TUNNEL_TYPE_TLS ∧ AllowsIP (access_of x t) (remoteIP addr) = true
  | Terminate cfg (ForwardTo t) => ot = Some t ∧ cfg = CfgTunnel ∧ hasPublicPort typ = true ∧
      RequiresToken (access_of x t) = false ∧ AllowsIP (access_of x t) (remoteIP addr) = true
  | Terminate cfg (TokenAuth t) => ot = Some t ∧ cfg = CfgTunnelToken ∧ hasPublicPort typ = true ∧
      RequiresToken (access_of x t) = true ∧ AllowsIP (access_of x t) (remoteIP addr) = true ∧
      (Exhausted (remoteIP addr) now (authFailures x)).2 = false ∧ ConnectTokenALPN ∈ protos
  | Terminate cfg ServeHTTP | Terminate cfg PushWebSocket => cfg = CfgHTTP
  | RejectTLS => True
  | _ => False
  end.
Proof.
  unfold route. intros Hr. destruct ot as [t|]; [|by case_match; simplify_eq].
  destruct (negb (AllowsIP _ _) && _) eqn:Hip; [by simplify_eq|].
  assert (isHTTP typ = false → AllowsIP (access_of x t) (remoteIP addr) = true) as Hallow.
  { intros Hh. rewrite Hh, andb_true_r in Hip. by apply negb_false_iff in Hip. }
  destruct (bool_decide (typ = TUNNEL_TYPE_TLS)) eqn:Htls.
  { bool_facts. simplify_eq. split_and!; [done..|]. by apply Hallow. }
  destruct (hasPublicPort typ) eqn:Hport; cbn [andb] in Hr; [|by case_match; simplify_eq].
  specialize (Hallow ltac:(by destruct typ)).
  destruct (RequiresToken (access_of x t)) eqn:Htok; [|simplify_eq; by split_and!].
  unfold serveTokenTunnel in Hr. destruct (Exhausted _ _ _) as [l []]; [by simplify_eq|].
  destruct (offers protos [ConnectTokenALPN]) eqn:Ho; cbn [negb] in Hr; simplify_eq; [|done].
  split_and!; try done. by apply offers_one.
Qed.

(** C18: what a connection to the relay's TLS port can reach. A client's stream
is passed to a tunnel only if the server name leads to that tunnel, the
client was within its connection rate, and the tunnel's address lists allow
it; the raw stream only for a TLS tunnel, the decrypted one only for a TCP or
SSH tunnel without an access token; a tunnel with an access token only gets a
client that can send one, from an address with failed attempts to spare. Only
the control name with the agent protocol reaches the agent service. *)
Theorem serveConn_safe addr hello tlvs reached now x x' act :
  serveConn s addr hello tlvs reached now x = (x', act) →
  let to t typ := ∃ h name, hello = Some h ∧ resolveHost s x (normal_host (ServerName h)) = (Some t, typ, name) ∧
    (Allow (remoteIP addr) now (connLimit x)).2 = true ∧ AllowsIP (access_of x t) (remoteIP addr) = true in
  match act with
  | Passthrough t => to t TUNNEL_TYPE_TLS
  | Terminate cfg (ForwardTo t) => cfg = CfgTunnel ∧ RequiresToken (access_of x t) = false ∧
      ∃ typ, hasPublicPort typ = true ∧ to t typ
  | Terminate cfg (TokenAuth t) => cfg = CfgTunnelToken ∧ RequiresToken (access_of x t) = true ∧
      (Exhausted (remoteIP addr) now (authFailures x)).2 = false ∧
      (∃ h, hello = Some h ∧ ConnectTokenALPN ∈ SupportedProtos h) ∧
      ∃ typ, hasPublicPort typ = true ∧ to t typ
  | Terminate cfg ServeAgent => cfg = CfgAgent ∧
      ∃ h, hello = Some h ∧ normal_host (ServerName h) = ControlSNI (rules s) ∧ ALPN ∈ SupportedProtos h
  | ToOwner owner => FindTLV tlvs TLVAuth = None ∧
      ∃ c h, Cluster s = Some c ∧ hello = Some h ∧ OwnerOf c (normal_host (ServerName h)) = Some owner
  | _ => True
  end.
Proof.
  intros Hs to. unfold serveConn in Hs. destruct (admit_ addr None now x) as [x1 ok] eqn:Ha.
  pose proof (admit_frame addr None now x) as (Hr & Ho & Hf & Hok). rewrite Ha in Hr, Ho, Hf, Hok. cbn in Hr, Ho, Hf, Hok.
  destruct ok; cbn [negb] in Hs; [|by simplify_eq]. specialize (Hok eq_refl) as [Hrate _].
  destruct hello as [h|]; [|by simplify_eq].
  destruct (String.eqb_spec (normal_host (ServerName h)) (ControlSNI (rules s))) as [Hc|Hc].
  { destruct (offers (SupportedProtos h) [ALPN]) eqn:Hal; cbn [negb andb] in Hs;
      [simplify_eq; split; [done|]; exists h; eauto using offers_one|].
    destruct (offers _ ["http/1.1"]); by simplify_eq. }
  destruct (match Login s with Some _ => _ | None => _ end); [by simplify_eq|].
  rewrite (resolveHost_frame x x1) in Hs by done.
  assert (∀ t, access_of x1 t = access_of x t) as Hacc by (intros t; unfold access_of; by rewrite Ho).
  destruct (resolveHost s x (normal_host (ServerName h))) as [[t typ] name] eqn:Hres.
  destruct (match t with Some _ => None | None => _ end) as [owner|] eqn:Hown.
  { destruct t; [done|]. simplify_eq. unfold forwardToOwner in Hown. destruct (Cluster s) as [c|]; [|done].
    destruct (bool_decide _) eqn:Hfw; [done|]. bool_facts. apply eq_None_not_Some in Hfw. split; [done|]. exists c, h.
    destruct (OwnerOf c _) eqn:Hof; [|done]. destruct (negb _); by simplify_eq. }
  apply route_safe in Hs. rewrite Hf in Hs. destruct act as [| |t'|cfg []|]; try done; rewrite ?Hacc in Hs.
  - destruct Hs as (-> & -> & ?). by exists h, name.
  - destruct Hs as (-> & ? & ? & ? & ?). split_and!; [done..|]. exists typ. split; [done|]. by exists h, name.
  - destruct Hs as (-> & ? & ? & ? & ? & ? & ?). split_and!; [done..|by exists h|].
    exists typ. split; [done|]. by exists h, name.
Qed.

(** ** The gateway *)

(** who may reach a tunnel through the SSH gateway. A forward is allowed
only to the tunnel the host names, with a key that is still in the store and
grants that tunnel; a tunnel with an access token needs its exact name among
the key's grants, not a pattern. A local tunnel must be a connected TCP or SSH
tunnel whose address lists allow the client, asked for on port 22 or its
public port. *)
Theorem gatewayTarget_authorized keys addr req x x' target :
  gatewayTarget s keys addr req x = (x', target) →
  let name := TunnelName (rules s) (gateway_host s (dHost req)) in
  match target with
  | Refused _ => True
  | LocalTunnel t => ∃ key typ, keys = Ok (Some key) ∧ name ≠ "" ∧
      lookup name (registry x) = (Some t, typ, true) ∧ hasPublicPort typ = true ∧
      KeyAllows key name (RequiresToken (access_of x t)) = true ∧
      (RequiresToken (access_of x t) = true → name ∈ Tunnels key) ∧
      AllowsIP (access_of x t) (remoteIP addr) = true ∧
      (dPort req = 22%Z ∨ dPort req = public_port_of x t)
  | RemoteRelay a => ∃ key c tok typ found, keys = Ok (Some key) ∧ name ≠ "" ∧ Cluster s = Some c ∧
      lookup name (registry x) = (None, typ, found) ∧ StreamOwnerOf c name = Some (a, tok) ∧
      KeyAllows key name tok = true ∧ (tok = true → name ∈ Tunnels key)
  end.
Proof.
  assert (∀ key n b, KeyAllows key n b = true → b = true → n ∈ Tunnels key) as Hgrant.
  { intros key n b Hk ->. unfold KeyAllows in Hk. apply existsb_exists in Hk as (p & Hp & Heq).
    apply String.eqb_eq in Heq as ->. by apply list_elem_of_In. }
  intros Hg name. unfold gatewayTarget in Hg. fold name in Hg.
  destruct (String.eqb_spec name "") as [|Hne]; [by simplify_eq|].
  destruct keys as [[key|]|]; [|by simplify_eq..].
  destruct (lookup name (registry x)) as [[t typ] found] eqn:Hl.
  destruct t as [t|].
  - destruct (hasPublicPort typ) eqn:Hp; cbn [negb] in Hg; [|by simplify_eq].
    destruct (negb (dPort req =? 22)%Z && _) eqn:Hport; [by simplify_eq|].
    destruct (KeyAllows key name _) eqn:Hk; cbn [negb] in Hg; [|by simplify_eq].
    destruct (AllowsIP _ _) eqn:Hip; cbn [negb] in Hg; [|by simplify_eq]. simplify_eq.
    assert (found = true) as ->.
    { unfold lookup in Hl. by destruct (names (registry x') !! name ≫= _); simplify_eq. }
    exists key, typ. split_and!; try done; [by apply Hgrant|].
    apply andb_false_iff in Hport as [Hport|Hport]; bool_facts; [by left|by right].
  - destruct (Cluster s) as [c|]; [|by simplify_eq].
    destruct (StreamOwnerOf c name) as [[a tok]|] eqn:Hso; [|by simplify_eq].
    destruct (KeyAllows key name tok) eqn:Hk; cbn [negb] in Hg; simplify_eq; [|done].
    exists key, c, tok, typ, found. split_and!; try done. by apply Hgrant.
Qed.

(** ** Guessing an access token *)

(** Connections of many clients at a time. A connection is served up to the
handshake ([Open]: the failures are looked at here); if the relay then waits for
an access token, the token may arrive later ([Send]: it is compared, answered if
[written], and a wrong one is charged), or the client gives up ([Quit]). *)
Inductive guess_event :=
| Open (addr : netAddr) (hello : option ClientHello) (tlvs : list TLV) (reached : string → bool) (now : Z)
| Send (i : nat) (tok : string) (written : bool) (now : Z)
| Quit (i : nat) (now : Z).
Definition event_time (e : guess_event) : Z := match e with Open _ _ _ _ now | Send _ _ _ now | Quit _ now => now end.

(** The relay, and the connections that wait for their token. *)
Abbreviation waiting := (list (netAddr * tunnel_id)).

(** The result lists the address of a wrong token that was answered. *)
Definition guess_step (e : guess_event) (st : relay * waiting) : relay * waiting * list Addr :=
  let '(x, w) := st in
  match e with
  | Open addr hello tlvs reached now =>
      let '(x, act) := serveConn s addr hello tlvs reached now x in
      (x, match act with Terminate CfgTunnelToken (TokenAuth t) => w ++ [(addr, t)] | _ => w end, [])
  | Send i tok written now =>
      match w !! i with
      | None => (x, w, [])
      | Some (addr, t) =>
          ((serveToken addr t (Some tok) written now x).1, delete i w,
           if written && negb (CheckToken (access_of x t) tok) then [remoteIP addr] else [])
      end
  | Quit i now => (x, delete i w, [])
  end.

Fixpoint guess_run (es : list guess_event) (st : relay * waiting) : list Addr :=
  match es with
  | [] => []
  | e :: es => let '(x, w, ws) := guess_step e st in ws ++ guess_run es (x, w)
  end.

Definition guesses (ip : Addr) (ws : list Addr) : Z := Z.of_nat (length (filter (ip =.) ws)).

(** How many connections of the address wait at most at a time. *)
Definition waits_for (ip : Addr) (w : waiting) : nat := length (filter (λ c, ip = remoteIP c.1) w).
Fixpoint crowd (ip : Addr) (es : list guess_event) (st : relay * waiting) : nat :=
  match es with
  | [] => waits_for ip st.2
  | e :: es => Nat.max (waits_for ip st.2) (crowd ip es (guess_step e st).1)
  end.

Lemma Unmap_idemp ip : Unmap (Unmap ip) = Unmap ip.
Proof. destruct ip as [| |a z]; cbn; [done..|]. destruct (N.shiftr a 32 =? 65535)%N eqn:Ha; cbn; [done|by rewrite Ha]. Qed.

Lemma remoteIP_unmapped addr : Unmap (remoteIP addr) = remoteIP addr.
Proof. unfold remoteIP. destruct (tcpIP addr); [apply Unmap_idemp|]. destruct (textIP addr); [apply Unmap_idemp|done]. Qed.

(** What serving a connection does to the budget of failed attempts. *)
Lemma serveConn_budget addr hello tlvs reached now x x' act :
  serveConn s addr hello tlvs reached now x = (x', act) →
  let e := Exhausted (remoteIP addr) now (authFailures x) in
  (authFailures x' = authFailures x ∧ (∀ cfg t, act ≠ Terminate cfg (TokenAuth t))) ∨
  (authFailures x' = e.1 ∧ (∀ cfg t, act = Terminate cfg (TokenAuth t) → e.2 = false)).
Proof.
  intros Hs e. unfold serveConn in Hs. destruct (admit_ addr None now x) as [x1 ok] eqn:Ha.
  pose proof (admit_frame addr None now x) as (_ & _ & Hf & _). rewrite Ha in Hf. cbn in Hf.
  destruct ok; cbn [negb] in Hs; [|simplify_eq; by left]. destruct hello as [h|]; [|simplify_eq; by left].
  destruct (String.eqb _ (ControlSNI _)); [repeat case_match; simplify_eq; by left|].
  destruct (match Login s with Some _ => _ | None => _ end); [simplify_eq; by left|].
  destruct (resolveHost s x1 _) as [[t typ] name].
  destruct (match t with Some _ => None | None => _ end); [simplify_eq; by left|].
  unfold route in Hs. destruct t as [t|]; [|case_match; simplify_eq; by left].
  destruct (negb (AllowsIP _ _) && _); [simplify_eq; by left|].
  destruct (bool_decide _); [simplify_eq; by left|].
  destruct (hasPublicPort typ && _); [|repeat case_match; simplify_eq; by left].
  right. unfold serveTokenTunnel in Hs. subst e. rewrite Hf in Hs. destruct (Exhausted _ _ _) as [l ex]. cbn.
  destruct ex; [by simplify_eq|]. destruct (negb _); by simplify_eq.
Qed.

Lemma guesses_one ip w : guesses ip [w] = (if decide (ip = w) then 1 else 0)%Z.
Proof. unfold guesses. rewrite filter_cons. by destruct (decide (ip = w)). Qed.

Lemma guesses_app ip ws1 ws2 : guesses ip (ws1 ++ ws2) = (guesses ip ws1 + guesses ip ws2)%Z.
Proof. unfold guesses. rewrite filter_app, length_app. lia. Qed.

Lemma level_now_mono l l1 ip t0 now :
  well_formed l t0 → (t0 ≤ now)%Z → (level l1 ip now <= level l ip now)%Q →
  (level l1 ip now <= level l ip t0 + Seconds (now - t0) * rate l)%Q.
Proof. intros Hw Ht Hl. pose proof (level_mono l ip t0 now (wf_rate _ _ Hw) Ht). lra. Qed.

Lemma waits_delete ip w i c : w !! i = Some c →
  waits_for ip w = ((if decide (ip = remoteIP c.1) then 1 else 0) + waits_for ip (delete i w))%nat.
Proof.
  intros Hi. unfold waits_for. rewrite (delete_take_drop w i). rewrite <-(take_drop_middle w i c Hi) at 1.
  rewrite !filter_app, filter_cons, !length_app. destruct (decide _); cbn; lia.
Qed.
Lemma waits_delete_le ip w i : (waits_for ip (delete i w) ≤ waits_for ip w)%nat.
Proof.
  destruct (w !! i) as [c|] eqn:Hi; [rewrite (waits_delete ip w i c Hi); lia|].
  unfold waits_for. apply lookup_ge_None in Hi. by rewrite (delete_take_drop w i), take_ge, drop_ge, app_nil_r by lia.
Qed.
Lemma waits_snoc ip w addr t : waits_for ip (w ++ [(addr, t)]) = (waits_for ip w + if decide (ip = remoteIP addr) then 1 else 0)%nat.
Proof. unfold waits_for. rewrite filter_app, filter_cons, length_app. cbn. by destruct (decide _). Qed.

(** [c] failures of the address were charged and [u] wrong tokens were answered
uncharged: there was no budget left when they came. Every charge leaves at most
[k - 1] connections waiting that can go uncharged. *)
Record budget (ip : Addr) (k : nat) (t0 t : Z) (l0 : IPLimiter) (st : relay * waiting) (c u : Z) : Prop := {
  bu_wf : well_formed (authFailures st.1) t;
  bu_rate : rate (authFailures st.1) = rate l0;
  bu_charged : (inject_Z c + level (authFailures st.1) ip t <= level l0 ip t0 + Seconds (t - t0) * rate l0)%Q;
  bu_free : (u + (if Qlt_bool (level (authFailures st.1) ip t) 1 then Z.of_nat (waits_for ip st.2) else 0) ≤ (Z.of_nat k - 1) * c)%Z;
  bu_count : (0 ≤ c)%Z;
}.

Lemma budget_later ip k t0 t t' l0 st c u : (t ≤ t')%Z → budget ip k t0 t l0 st c u → budget ip k t0 t' l0 st c u.
Proof.
  intros Ht [Hw Hr Hc Hu Hpos]. split; [by eapply wf_later|done| | |done].
  - pose proof (level_mono _ ip t t' (wf_rate _ _ Hw) Ht) as Hm. rewrite Hr in Hm.
    pose proof (gain_split l0 (t - t0) (t' - t)) as Hg. replace (t - t0 + (t' - t))%Z with (t' - t0)%Z in Hg by lia. lra.
  - pose proof (level_rises _ ip t t' (wf_rate _ _ Hw) Ht) as Hm.
    destruct (Qlt_bool (level (authFailures st.1) ip t) 1) eqn:E1, (Qlt_bool (level (authFailures st.1) ip t') 1) eqn:E2; try lia.
    exfalso. apply not_true_iff_false in E1. apply E1. apply Qlt_bool_iff in E2. apply Qlt_bool_iff. lra.
Qed.

(** Only the level counts. *)
Lemma budget_same ip k t0 t l0 st st' c u :
  budget ip k t0 t l0 st c u → well_formed (authFailures st'.1) t → rate (authFailures st'.1) = rate (authFailures st.1) →
  (level (authFailures st'.1) ip t == level (authFailures st.1) ip t)%Q →
  ((waits_for ip st'.2 ≤ waits_for ip st.2)%nat ∨ (1 <= level (authFailures st.1) ip t)%Q) →
  budget ip k t0 t l0 st' c u.
Proof.
  intros [Hw Hr Hc Hu Hpos] Hw' Hr' Hl Hwt. split; [done|congruence|lra| |done].
  destruct (Qlt_bool (level (authFailures st'.1) ip t) 1) eqn:E'; destruct (Qlt_bool (level (authFailures st.1) ip t) 1) eqn:E; try lia.
  - destruct Hwt as [?|Hone]; [lia|]. apply Qlt_bool_iff in E. lra.
  - exfalso. apply not_true_iff_false in E. apply E. apply Qlt_bool_iff in E'. apply Qlt_bool_iff. lra.
Qed.

Lemma open_budget ip k t0 t l0 x w c u addr hello tlvs reached :
  budget ip k t0 t l0 (x, w) c u →
  budget ip k t0 t l0 (guess_step (Open addr hello tlvs reached t) (x, w)).1 c u.
Proof.
  intros Hb. cbn. destruct (serveConn s addr hello tlvs reached t x) as [x1 act] eqn:Hs. apply serveConn_budget in Hs. cbn.
  pose proof (bu_wf _ _ _ _ _ _ _ _ Hb) as Hw. cbn in Hw.
  assert (∀ w', (w' = w ∨ ∃ tt, w' = w ++ [(addr, tt)] ∧ ∃ cfg t', act = Terminate cfg (TokenAuth t')) → budget ip k t0 t l0 (x1, w') c u) as Hall.
  { intros w' Hw'. destruct Hs as [[Hf Hact]|[Hf Hact]].
    - apply (budget_same _ _ _ _ _ (x, w)); cbn [fst snd]; rewrite ?Hf; try done. left.
      destruct Hw' as [->|(tt & _ & cfg & t' & Ha)]; [done|by destruct (Hact cfg t')].
    - destruct (Exhausted (remoteIP addr) t (authFailures x)) as [l1 ex] eqn:He. cbn in Hf, Hact.
      destruct (Exhausted_level _ _ _ _ _ _ Hw (Z.le_refl t) He) as (Hex & Hw1 & Hr1 & _).
      pose proof (Exhausted_same (remoteIP addr) t (authFailures x) t ip Hw (Z.le_refl t)) as Hsame. rewrite He in Hsame. cbn in Hsame.
      apply (budget_same _ _ _ _ _ (x, w)); cbn [fst snd]; rewrite ?Hf; try done.
      destruct Hw' as [->|(tt & -> & cfg & t' & Ha)]; [by left|]. rewrite waits_snoc.
      destruct (decide (ip = remoteIP addr)) as [->|]; [right|left; lia].
      rewrite remoteIP_unmapped in Hex. apply Hex. by eapply Hact. }
  destruct act as [| | |[] []|]; try (apply Hall; by left). apply Hall. right. eauto.
Qed.

Lemma send_budget ip k t0 t l0 x w c u i tok written :
  (waits_for ip w ≤ k)%nat → budget ip k t0 t l0 (x, w) c u →
  let '(st', ws) := guess_step (Send i tok written t) (x, w) in
  ∃ c' u', budget ip k t0 t l0 st' c' u' ∧ (c' + u' = c + u + guesses ip ws)%Z.
Proof.
  intros Hk Hb. cbn [guess_step]. destruct (w !! i) as [[addr tt]|] eqn:Hi; [|exists c, u; split; [done|]; unfold guesses; cbn; lia].
  pose proof (bu_wf _ _ _ _ _ _ _ _ Hb) as Hw. cbn in Hw. pose proof (waits_delete ip w i _ Hi) as Hwd. cbn in Hwd.
  assert (∀ x', authFailures x' = authFailures x → budget ip k t0 t l0 (x', delete i w) c u) as Hsame.
  { intros x' Hx. apply (budget_same _ _ _ _ _ (x, w)); cbn [fst snd]; rewrite ?Hx; try done. left. apply waits_delete_le. }
  unfold serveToken. destruct written; cbn [negb andb]; [|exists c, u; split; [by apply Hsame|unfold guesses; cbn; lia]].
  destruct (CheckToken (access_of x tt) tok); cbn [negb fst]; [exists c, u; split; [by apply Hsame|unfold guesses; cbn; lia]|].
  destruct (Allow (remoteIP addr) t (authFailures x)) as [l2 ok] eqn:Ha. cbn [fst].
  destruct (Allow_level _ _ _ _ _ _ Hw (Z.le_refl _) Ha) as (Hok & Hw2 & Hr2 & _ & Ho & Hself).
  rewrite remoteIP_unmapped in Hok, Ho, Hself. specialize (Hself t). rewrite Z.sub_diag in Hself.
  change (Seconds 0) with (0 # 1000000000) in Hself. rewrite guesses_one.
  set (x2 := bump_auth _). assert (authFailures x2 = l2) as Hx2 by done. clearbody x2.
  destruct (decide (ip = remoteIP addr)) as [->|Hne].
  2:{ exists c, u. split; [|lia]. apply (budget_same _ _ _ _ _ (x, w)); cbn [fst snd]; rewrite ?Hx2; try done.
      - apply Ho; [done|lia].
      - left. apply waits_delete_le. }
  pose proof (level_burst (authFailures x) (remoteIP addr) t) as Hlb.
  destruct Hb as [_ Hr Hc Hu Hpos]. cbn [fst snd] in *. destruct ok.
  - assert (1 <= level (authFailures x) (remoteIP addr) t)%Q as Hone by by apply Hok.
    assert (level l2 (remoteIP addr) t == level (authFailures x) (remoteIP addr) t - 1)%Q as Hl2.
    { rewrite Hself. rewrite Qminmax.Q.min_r; lra. }
    exists (c + 1)%Z, u. split; [|lia]. split; cbn [fst snd]; rewrite ?Hx2; [done|congruence| | |lia].
    + rewrite inject_Z_plus. change (inject_Z 1) with 1%Q. lra.
    + assert (Qlt_bool (level (authFailures x) (remoteIP addr) t) 1 = false) as E.
      { apply not_true_iff_false. rewrite Qlt_bool_iff. lra. }
      rewrite E in Hu. destruct (Qlt_bool (level l2 _ t) 1); lia.
  - assert (level (authFailures x) (remoteIP addr) t < 1)%Q as Hone.
    { apply Qnot_le_lt. intros Hone. apply Hok in Hone. done. }
    assert (level l2 (remoteIP addr) t == level (authFailures x) (remoteIP addr) t)%Q as Hl2.
    { rewrite Hself. rewrite Qminmax.Q.min_r; lra. }
    exists c, (u + 1)%Z. split; [|lia]. split; cbn [fst snd]; rewrite ?Hx2; [done|congruence|lra| |lia].
    apply Qlt_bool_iff in Hone as E. rewrite E in Hu. destruct (Qlt_bool (level l2 _ t) 1); lia.
Qed.

(** The events come in the order of the clock, between [t0] and [t1]. *)
Fixpoint events_in (t0 t1 : Z) (es : list guess_event) : Prop :=
  match es with
  | [] => (t0 ≤ t1)%Z
  | e :: es => (t0 ≤ event_time e)%Z ∧ events_in (event_time e) t1 es
  end.

(** C19: access tokens cannot be guessed faster than the failure budget. Over any
interleaving of connections to any tunnels, the relay gives at most
[k * (burst + rate * seconds)] negative answers to one address, when at most [k]
connections of that address wait for their token at a time: the budget is looked
at when a connection begins and charged when a wrong token was answered, so each
charge can let [k - 1] further ones through. Attempts one after another are the
case [k = 1]. An attempt whose answer cannot be written tells the client nothing
and is not counted. *)
Theorem token_guesses_bounded ip k t0 t1 es x :
  well_formed (authFailures x) t0 → events_in t0 t1 es → (crowd ip es (x, []) ≤ k)%nat →
  (inject_Z (guesses ip (guess_run es (x, [])))
   <= inject_Z (Z.of_nat k) * (burst (authFailures x) + Seconds (t1 - t0) * rate (authFailures x)))%Q.
Proof.
  intros Hw Hes Hk.
  assert (∀ es t st c u, budget ip k t0 t (authFailures x) st c u → events_in t t1 es → (crowd ip es st ≤ k)%nat →
    (0 ≤ u + c)%Z → ∃ c' u' st', budget ip k t0 t1 (authFailures x) st' c' u' ∧
      (c' + u' = c + u + guesses ip (guess_run es st))%Z) as Hrun.
  { clear Hes Hk es. induction es as [|e es IH]; intros t [x1 w] c u Hb Hes Hk Hcu; cbn [events_in crowd guess_run] in *.
    { exists c, u, (x1, w). split; [by eapply budget_later|]. unfold guesses. cbn. lia. }
    destruct Hes as [Ht Hes]. apply (budget_later _ _ _ _ _ _ _ _ _ Ht) in Hb.
    assert (let '(st', ws) := guess_step e (x1, w) in ∃ c' u', budget ip k t0 (event_time e) (authFailures x) st' c' u' ∧
      (c' + u' = c + u + guesses ip ws)%Z) as Hstep.
    { destruct e as [addr hello tlvs reached now|i tok written now|i now]; cbn [event_time] in *.
      - pose proof (open_budget _ _ _ _ _ _ _ _ _ addr hello tlvs reached Hb) as Ho. cbn in *.
        destruct (serveConn _ _ _ _ _ _ _) as [x2 act]. exists c, u. split; [done|]. unfold guesses. cbn. lia.
      - apply send_budget; [cbn [snd] in Hk; lia|done].
      - cbn [guess_step]. exists c, u. split; [|unfold guesses; cbn; lia]. destruct Hb as [? ? ? Hu ?]. split; try done. cbn [fst snd] in *.
        pose proof (waits_delete_le ip w i). destruct (Qlt_bool _ _); lia. }
    destruct (guess_step e (x1, w)) as [[x2 w2] ws] eqn:He. destruct Hstep as (c1 & u1 & Hb1 & Heq).
    destruct (IH (event_time e) (x2, w2) c1 u1 Hb1 Hes) as (c2 & u2 & st2 & Hb2 & Heq2).
    - cbn [fst snd] in Hk. lia.
    - unfold guesses in Heq. lia.
    - exists c2, u2, st2. split; [done|]. rewrite guesses_app. lia. }
  assert (budget ip k t0 t0 (authFailures x) (x, []) 0 0) as Hb0.
  { split; cbn; [done|done| | |lia].
    - rewrite Z.sub_diag. change (Seconds 0) with (0 # 1000000000). change (inject_Z 0) with 0%Q. lra.
    - destruct (Qlt_bool _ _); lia. }
  destruct (Hrun es t0 (x, []) 0%Z 0%Z Hb0 Hes Hk ltac:(lia)) as (c & u & st & [Hwf Hr Hc Hu Hpos] & Heq).
  pose proof (level_burst (authFailures x) ip t0) as Hlb. pose proof (level_nonneg _ _ ip Hwf) as Hln.
  assert (inject_Z c <= burst (authFailures x) + Seconds (t1 - t0) * rate (authFailures x))%Q as Hcb by lra.
  assert (guesses ip (guess_run es (x, [])) ≤ Z.of_nat k * c)%Z as Hg by (destruct (Qlt_bool _ _); lia).
  rewrite Zle_Qle, inject_Z_mult in Hg. eapply Qle_trans; [exact Hg|]. rewrite !(Qmult_comm (inject_Z (Z.of_nat k))).
  apply Qmult_le_compat_r; [done|]. rewrite <-(Zle_Qle 0). lia.
Qed.

(** ** Revoking a token *)

Lemma releaseToken_live tok r :
  inv r →
  inv (releaseToken tok r).1 ∧
  ∀ l res, live (releaseToken tok r).1 l res ↔ live r l res ∧ tokenID res ≠ tok.
Proof.
  intros Hi. unfold releaseToken.
  assert (∀ L acc, inv acc.1 → let acc' := foldl (λ '(r, sessions) '(_, l),
           match heap r !! l with
           | Some res =>
               if String.eqb (tokenID res) tok
               then (deleteLocked l r, sessions ++ match session res with Some s => [s] | None => [] end)
               else (r, sessions)
           | None => (r, sessions)
           end) acc L in
     inv acc'.1 ∧ ∀ l res, live acc'.1 l res ↔ live acc.1 l res ∧ (tokenID res = tok → l ∉ (L : list (string * loc)).*2))
    as Hloop.
  { induction L as [|[n l0] L IH]; intros [r1 ss] Hi1; cbn [foldl].
    { split; [done|]. intros l res. cbn. split; [|tauto]. intros ?. split; [done|]. intros _. apply not_elem_of_nil. }
    destruct (heap r1 !! l0) as [res0|] eqn:Hl0; [destruct (String.eqb_spec (tokenID res0) tok) as [Ht|Ht]|].
    - destruct (IH (deleteLocked l0 r1, ss ++ match session res0 with Some s => [s] | None => [] end) (inv_delete _ _ Hi1)) as [Hi' Hl].
      split; [done|]. intros l res. rewrite Hl. cbn. rewrite live_deleteLocked, not_elem_of_cons by done. split; [tauto|].
      intros [Hlive Hn]. split; [|intros Heq; by apply Hn]. split; [|done]. intros ->.
      assert (res = res0) as -> by (destruct Hlive; congruence). naive_solver.
    - destruct (IH (r1, ss) Hi1) as [Hi' Hl]. split; [done|]. intros l res. rewrite Hl. cbn. rewrite not_elem_of_cons.
      split; [|tauto]. intros [Hlive Hn]. split; [done|]. intros Heq. split; [|by apply Hn]. intros ->.
      destruct Hlive. congruence.
    - destruct (IH (r1, ss) Hi1) as [Hi' Hl]. split; [done|]. intros l res. rewrite Hl. cbn. rewrite not_elem_of_cons.
      split; [|tauto]. intros [Hlive Hn]. split; [done|]. intros Heq. split; [|by apply Hn]. intros ->.
      destruct Hlive. congruence. }
  destruct (Hloop (range (names r)) (r, []) Hi) as [Hi' Hl]. split; [done|]. intros l res. rewrite Hl. cbn.
  split; [|tauto]. intros [Hlive Hn]. split; [done|]. intros Heq. apply (Hn Heq).
  apply list_elem_of_fmap. exists (name res, l). split; [done|]. apply elem_of_range, Hlive.
Qed.

Lemma close_all_sessions why L x i :
  NoDup L →
  sessions (foldl (λ x i, close_session why i x) x L) !! i =
    (if decide (i ∈ L) then close_tracked why <$> sessions x !! i else sessions x !! i) ∧
  registry (foldl (λ x i, close_session why i x) x L) = registry x.
Proof.
  revert x. induction L as [|j L IH]; intros x Hnd; cbn [foldl].
  { split; [|done]. rewrite decide_False; [done|]. apply not_elem_of_nil. }
  apply NoDup_cons in Hnd as [Hj Hnd]. destruct (IH (close_session why j x) Hnd) as [-> ->]. split; [|done].
  unfold close_session, set_session. cbn. destruct (decide (i = j)) as [->|Hne].
  - rewrite decide_False by done. rewrite lookup_alter_eq, decide_True; [done|left].
  - rewrite lookup_alter_ne by done. destruct (decide (i ∈ L)).
    + rewrite decide_True; [done|by right].
    + rewrite decide_False; [done|]. rewrite not_elem_of_cons. done.
Qed.

(** revoking a token is complete and touches nothing else. Afterwards no
name, domain or port is held for the token, every session that authenticated
with it is closed, and the reservations of every other token are as they
were. *)
Theorem DisconnectToken_complete revoked x x' n :
  inv (registry x) → DisconnectToken revoked x = (x', n) →
  inv (registry x') ∧
  (∀ l res, live (registry x') l res ↔ live (registry x) l res ∧ tokenID res ≠ revoked) ∧
  (∀ i t se, sessions x' !! i = Some t → sess t = Some se → ID (token se) = revoked → muxClosed t = true) ∧
  (∀ i, is_Some (sessions x' !! i) ↔ is_Some (sessions x !! i)).
Proof.
  intros Hi Hd. unfold DisconnectToken in Hd. destruct (releaseToken_live revoked (registry x) Hi) as [Hi' Hl].
  destruct (releaseToken revoked (registry x)) as [r released] eqn:Hr. cbn [fst] in Hi', Hl.
  set (x1 := x <| registry := r |>) in *.
  set (own := omap _ (sessionList x1)) in *. set (all := list_to_set (released ++ own) : gset session_id) in *.
  injection Hd as <- <-.
  assert (∀ i, _) as Hs by exact (λ i, close_all_sessions ReasonTokenRevoked (elements all) x1 i (NoDup_elements all)).
  split_and!.
  - by rewrite (proj2 (Hs 1%positive)).
  - rewrite (proj2 (Hs 1%positive)). exact Hl.
  - intros i t se. rewrite (proj1 (Hs i)). case_decide as Hin; [|intros Hi0 Hse Ht; exfalso; apply Hin].
    + intros (t0 & _ & ->)%fmap_Some _ _. done.
    + apply elem_of_elements. subst all. apply elem_of_list_to_set, elem_of_app. right. subst own.
      apply list_elem_of_omap. exists (i, t). split; [by apply elem_of_range|]. by rewrite Hse, Ht, String.eqb_refl.
  - intros i. rewrite (proj1 (Hs i)). case_decide; [|done]. change (sessions x1) with (sessions x).
    by rewrite fmap_is_Some.
Qed.

(** ** From registration to routing *)

Lemma app_dot_end a b r : b ≠ "" → a +:+ b = r +:+ "." → ∃ b', b = b' +:+ ".".
Proof.
  intros Hb. revert r. induction a as [|c a IH]; intros r; [by exists r|].
  destruct r as [|c' r]; rewrite ?str_app_cons; intros [= -> Heq]; [by destruct a, b|]. by apply (IH r).
Qed.

Lemma tunnel_host_lower n base :
  valid_host base → ValidName n = true → ToLower (n +:+ "." +:+ base) = n +:+ "." +:+ base.
Proof.
  intros Hb Hn.
  apply ToLower_id. rewrite !str_forall_app. apply andb_true_iff. split; [|apply andb_true_iff; split; [done|]].
  - eapply str_forall_impl; [|apply dns_label_chars, Hn]. intros c; byte_cases c.
  - eapply str_forall_impl; [|apply valid_host_chars, Hb]. intros c; byte_cases c.
Qed.

Lemma tunnel_host_normal n base :
  valid_host base → ValidName n = true → normal_host (n +:+ "." +:+ base) = n +:+ "." +:+ base.
Proof.
  intros Hb Hn. unfold normal_host.
  assert (TrimSuffix "." (n +:+ "." +:+ base) = n +:+ "." +:+ base) as ->.
  { unfold TrimSuffix. destruct (CutSuffix "." _) as [r|] eqn:Hc; [exfalso|done]. apply CutSuffix_Some in Hc.
    rewrite str_app_assoc in Hc. apply app_dot_end in Hc as [b' ->].
    - pose proof (valid_host_no_dot _ Hb) as Ht. unfold TrimSuffix in Ht.
      rewrite (proj2 (CutSuffix_Some "." (b' +:+ ".") b')) in Ht by done. simpl in Ht.
      apply (f_equal String.length) in Ht. rewrite str_length_app in Ht. simpl in Ht. lia.
    - intros ->. destruct Hb as (_ & Hlen & _). cbn in Hlen. lia. }
  by apply tunnel_host_lower.
Qed.

Lemma add_objects_lookup (L : list tunnel_t) (m : gmap tunnel_id tunnel_t) t :
  NoDup (tid <$> L) → t ∈ L → foldl (λ m t, <[tid t := t]> m) m L !! tid t = Some t.
Proof.
  revert m. induction L as [|t0 L IH]; intros m Hnd Hin; [by apply elem_of_nil in Hin|]. cbn [foldl].
  rewrite fmap_cons in Hnd. apply NoDup_cons in Hnd as [Hnin Hnd]. apply elem_of_cons in Hin as [->|Hin]; [|by apply IH].
  assert (∀ m' : gmap tunnel_id tunnel_t, m' !! tid t0 = Some t0 → foldl (λ m t, <[tid t := t]> m) m' L !! tid t0 = Some t0) as Hkeep.
  { clear -Hnin. induction L as [|t1 L IH]; intros m' Hm; [done|]. cbn [foldl]. rewrite fmap_cons, not_elem_of_cons in Hnin.
    apply IH; [tauto|]. rewrite lookup_insert_ne; [done|]. intros Heq. apply (proj1 Hnin). done. }
  apply Hkeep, lookup_insert_eq.
Qed.

Lemma reserved_host n : IsReserved (rules s) n = false →
  n +:+ "." +:+ BaseDomain (rules s) ≠ ControlSNI (rules s) ∧
  (n +:+ "." +:+ BaseDomain (rules s) = AuthHost (rules s) → AuthHost (rules s) = "").
Proof.
  unfold IsReserved. destruct (_ || _) eqn:Hb; [done|]. intros _. bool_facts. split; [by apply String.eqb_neq|].
  intros Heq. destruct (String.eqb_spec (AuthHost (rules s)) ""); [done|]. exfalso.
  match goal with H : negb _ && _ = false |- _ => cbn in H; by rewrite Heq, String.eqb_refl in H end.
Qed.

Lemma registered_reachable can_bind i se specs now x x' se' fx es :
  (1 ≤ PortMin (rules s))%Z → valid_host (BaseDomain (rules s)) →
  (∀ lg, Login s = Some lg → AuthHost (rules s) = ToLower (LoginAuthHost lg)) →
  inv (registry x) → ports_ok ∅ (registry x) → NoDup ((λ p, new_tid p.1) <$> specs) →
  control_step s can_bind i se (MsgRegister specs) now x = (x', se', fx, Some (Reply (Registered es))) →
  ∀ t, t ∈ drop (length (tunnels se)) (tunnels se') →
  let host := Hostname (endpoint t) in let typ := EType (endpoint t) in
  objects x' !! tid t = Some t ∧
  resolveHost s x' host = (Some (tid t), typ, EName (endpoint t)) ∧
  (isHTTP typ = true → lookupHTTP s x' host = (Some (tid t), StateActive, EName (endpoint t))) ∧
  ∀ addr protos tlvs reached now',
    (admit_ addr None now' x').2 = true → AllowsIP (access t) (remoteIP addr) = true → RequiresToken (access t) = false →
    (serveConn s addr (Some (mkClientHello host protos)) tlvs reached now' x').2 =
    if isHTTP typ then Terminate CfgHTTP ServeHTTP
    else if bool_decide (typ = TUNNEL_TYPE_TLS) then Passthrough (tid t)
    else Terminate CfgTunnel (ForwardTo (tid t)).
Proof.
  intros Hmin Hbase Hlogin Hi Hports Hnd Hstep t Ht host typ. unfold control_step in Hstep.
  set (x0 := set_session i _ x) in Hstep.
  pose proof (register_grew can_bind s Hmin now se specs (registry x0) Hi Hports) as Hg.
  destruct (register can_bind s now se specs (registry x0)) as [[[r se1] fx1] rep].
  destruct Hg as (opened & _ & -> & Hop & Hrep). destruct rep; try by simplify_eq. destruct Hrep as [_ Htids].
  assert (drop (length (tunnels se)) (tunnels (se <| tunnels := tunnels se ++ opened |>)) = opened) as Hdrop
    by apply drop_app_length.
  simplify_eq. rewrite Hdrop in Ht. rewrite <-Htids in Hnd.
  destruct (Hop t Ht) as (res & [Hheap Hname] & (Hval & Hresv & Hhost & _ & Htun & Hn & Hty & Hunsp & _ & _)).
  set (x' := add_objects _ _ _). assert (registry x' = r) as Hreg by done.
  assert (objects x' !! tid t = Some t) as Hobj.
  { subst x'. unfold add_objects. rewrite Hdrop. by apply add_objects_lookup. }
  assert (lookup (EName (endpoint t)) r = (Some (tid t), typ, true)) as Hlk.
  { unfold lookup. rewrite <-Hn, Hname. simpl. rewrite Hheap. by rewrite Htun, Hty. }
  assert (normal_host host = host) as Hnorm by (subst host; rewrite Hhost; by apply tunnel_host_normal).
  assert (EName (endpoint t) ≠ "") as Hne by (by apply ValidName_nonempty).
  assert (resolveHost s x' host = (Some (tid t), typ, EName (endpoint t))) as Hrsv.
  { unfold resolveHost. rewrite Hnorm. subst host. rewrite Hhost, TunnelName_host by done.
    rewrite (proj2 (String.eqb_neq _ _) Hne). cbn [negb]. by rewrite Hreg, Hlk. }
  split; [done|]. split; [done|]. split.
  - intros Hh. unfold lookupHTTP. rewrite Hrsv, Hreg, Hlk. by rewrite (proj2 (String.eqb_neq _ _) Hne), Hh.
  - intros addr protos tlvs reached now' Hadm Hip Htok. unfold serveConn.
    pose proof (admit_frame addr None now' x') as (Hr1 & Ho1 & _). destruct (admit_ addr None now' x') as [x1 ok].
    cbn [fst snd] in Hr1, Ho1, Hadm.
    subst ok. cbn [negb ServerName SupportedProtos]. rewrite Hnorm.
    destruct (reserved_host _ Hresv) as [Hctl Hauth]. rewrite <-Hhost in Hctl, Hauth. fold host in Hctl.
    rewrite (proj2 (String.eqb_neq _ _) Hctl).
    assert ((if Login s is Some l then String.eqb host (LoginAuthHost l) else false) = false) as ->.
    { destruct (Login s) as [lg|]; [|done]. apply String.eqb_neq. intros Heq. specialize (Hlogin lg eq_refl).
      rewrite <-Heq in Hlogin. subst host. rewrite Hhost, tunnel_host_lower in Hlogin by done.
      rewrite Hhost in Hauth. specialize (Hauth (eq_sym Hlogin)). rewrite Hlogin in Hauth.
      by destruct (EName (endpoint t)). }
    rewrite (resolveHost_frame x' x1), Hrsv by done. unfold route.
    assert (access_of x1 (tid t) = access t) as -> by (unfold access_of; by rewrite Ho1, Hobj).
    rewrite Hip, Htok, (proj2 (String.eqb_neq _ _) Hne). cbn [negb andb].
    clear -Hunsp Hty. fold typ in Hunsp. by destruct typ.
Qed.

(** a registered tunnel is reachable under the host name the agent was
told. After a registration that succeeded, the host name of every new tunnel
leads to that tunnel, and a client the relay admits and the tunnel's address
lists allow is given to it: raw for a TLS tunnel, decrypted for a TCP or SSH
tunnel (without an access token), through the HTTP proxy, which finds the
tunnel active, for an HTTP tunnel. *)
Theorem registered_tunnel_reachable can_bind i se specs now x x' se' fx es :
  (1 ≤ PortMin (rules s))%Z → valid_host (BaseDomain (rules s)) →
  (∀ lg, Login s = Some lg → AuthHost (rules s) = ToLower (LoginAuthHost lg)) →
  inv (registry x) → ports_ok ∅ (registry x) → NoDup ((λ p, new_tid p.1) <$> specs) →
  control_step s can_bind i se (MsgRegister specs) now x = (x', se', fx, Some (Reply (Registered es))) →
  ∀ t, t ∈ drop (length (tunnels se)) (tunnels se') →
  let host := Hostname (endpoint t) in let typ := EType (endpoint t) in
  resolveHost s x' host = (Some (tid t), typ, EName (endpoint t)) ∧
  (isHTTP typ = true → lookupHTTP s x' host = (Some (tid t), StateActive, EName (endpoint t))) ∧
  ∀ addr protos tlvs reached now',
    (admit_ addr None now' x').2 = true → AllowsIP (access t) (remoteIP addr) = true → RequiresToken (access t) = false →
    (serveConn s addr (Some (mkClientHello host protos)) tlvs reached now' x').2 =
    if isHTTP typ then Terminate CfgHTTP ServeHTTP
    else if bool_decide (typ = TUNNEL_TYPE_TLS) then Passthrough (tid t)
    else Terminate CfgTunnel (ForwardTo (tid t)).
Proof. intros Hmin Hb Hl Hi Hp Hn Hs t Ht. by apply (registered_reachable can_bind i se specs now x x' se' fx es). Qed.

Lemma control_step_registry can_bind i se specs now x :
  registry (control_step s can_bind i se (MsgRegister specs) now x).1.1.1 =
  (register can_bind s now se specs (registry x)).1.1.1.
Proof.
  unfold control_step. change (registry (set_session i _ x)) with (registry x).
  by destruct (register can_bind s now se specs (registry x)) as [[[r se'] fx] rep].
Qed.
End relay.

(** ** A sample relay *)

#[local] Existing Instance plain_crypto.
#[local] Existing Instance ascii_only.

Module ServeSample.
Import RelaySample.
Definition addr : netAddr := mkNetAddr (Some (V4 7)) None.
Definition limits : IPLimiter := NewIPLimiter (5 # 60) 5 0.
Definition x0 : relay :=
  mkRelay r0 ∅ (NewIPLimiter 20 100 0) limits (mkCounters 0 0 0 0 0)
    {[1%positive := mkTracked (Some sess) ReasonAgentClosed false 0 0]} false false.
Definition tls : ids * TunnelSpec := (mkIds 13%positive "id4" "r4", mkSpec "raw" TUNNEL_TYPE_TLS 0 noPolicy [] 0).
(* the sample digest of an access token is the token *)
Definition db : ids * TunnelSpec :=
  (mkIds 14%positive "id5" "r5", mkSpec "db" TUNNEL_TYPE_TCP 0 (mkAccess [] [] [] "0123456789abcdef0123456789abcdef" None) [] 0).
Definition step (x : relay) := control_step s can_bind 1%positive sess (MsgRegister [ssh; tls; db]) 0 x.
Definition x1 : relay := (step x0).1.1.1.
Definition key : GatewayKey := mkKey "k" "" "" ["ssh"; "d*"].
Definition hello (host : string) (protos : list string) : ClientHello := mkClientHello host protos.
(** Two connections at a time guess, ten times. *)
Definition guess (now : Z) : list guess_event :=
  let open := Open addr (Some (hello "db.t.example" [ConnectTokenALPN])) [] (λ _, false) now in
  [open; open; Send 0 "wrong" true now; Send 0 "guess" true now].
Definition guessing : list guess_event := [1; 2; 3; 4; 5; 6; 7; 8; 9; 10]%Z ≫= guess.
End ServeSample.
Import ServeSample.

Lemma serveConn_safe_witness :
  (serveConn RelaySample.s addr (Some (hello "Raw.t.example." [])) [] (λ _, false) 1 x1).2 = Passthrough 13%positive ∧
  AllowsIP (access_of x1 13%positive) (remoteIP addr) = true.
Proof.
  destruct (serveConn RelaySample.s addr (Some (hello "Raw.t.example." [])) [] (λ _, false) 1 x1) as [x act] eqn:Hs.
  assert (act = Passthrough 13%positive) as -> by (vm_compute in Hs; congruence).
  split; [reflexivity|]. destruct (serveConn_safe _ _ _ _ _ _ _ _ _ Hs) as (h & name & _ & _ & _ & Hip). exact Hip.
Defined.

Lemma gatewayTarget_authorized_witness :
  (gatewayTarget RelaySample.s (Ok (Some key)) addr (mkDirect "ssh" 22) x1).2 = LocalTunnel 10%positive ∧
  (gatewayTarget RelaySample.s (Ok (Some key)) addr (mkDirect "db" 22) x1).2 = Refused NotGranted ∧
  AllowsIP (access_of x1 10%positive) (remoteIP addr) = true.
Proof.
  destruct (gatewayTarget RelaySample.s (Ok (Some key)) addr (mkDirect "ssh" 22) x1) as [x t] eqn:Hg.
  assert (t = LocalTunnel 10%positive) as -> by (vm_compute in Hg; congruence).
  split; [reflexivity|]. split; [vm_compute; reflexivity|].
  destruct (gatewayTarget_authorized _ _ _ _ _ _ _ Hg) as (k & typ & _ & _ & _ & _ & _ & _ & Hip & _). exact Hip.
Defined.

Lemma token_guesses_bounded_witness :
  guesses (V4 7) (guess_run RelaySample.s guessing (x1, [])) = 6%Z ∧
  (inject_Z (guesses (V4 7) (guess_run RelaySample.s guessing (x1, [])))
   <= 2 * (burst (authFailures x1) + Seconds 10 * rate (authFailures x1)))%Q.
Proof.
  split; [vm_compute; reflexivity|]. apply (token_guesses_bounded RelaySample.s (V4 7) 2 0 10).
  - split; [vm_compute; discriminate|vm_compute; discriminate|]. intros ip b Hb. vm_compute in Hb. discriminate Hb.
  - cbn. lia.
  - apply Nat.leb_le. vm_compute. reflexivity.
Defined.

(** Eight connections begin before the first token arrives: eight wrong tokens are
answered at once, although the budget is five. *)
Lemma guesses_in_parallel :
  let open := Open addr (Some (hello "db.t.example" [ConnectTokenALPN])) [] (λ _, false) 1%Z in
  guesses (V4 7) (guess_run RelaySample.s (replicate 8 open ++ replicate 8 (Send 0 "wrong" true 1%Z)) (x1, [])) = 8%Z ∧
  burst (authFailures x1) = 5%Q.
Proof. vm_compute. split; reflexivity. Qed.

Lemma registry_x1_inv : inv (registry x1).
Proof.
  unfold x1, step. rewrite control_step_registry.
  pose proof (register_grew RelaySample.can_bind RelaySample.s RelaySample.min_ok 0 RelaySample.sess
    [RelaySample.ssh; tls; db] RelaySample.r0 RelaySample.r0_inv RelaySample.r0_ports) as Hg.
  cbn [registry x0]. destruct (register _ _ _ _ _ _) as [[[r se] fx] rep].
  destruct Hg as (opened & Hg & _). exact (gr_inv _ _ _ _ _ Hg).
Defined.

Lemma DisconnectToken_complete_witness :
  let '(x, n) := DisconnectToken "tok" x1 in
  n = 1%Z ∧ bool_decide (muxClosed <$> sessions x !! 1%positive = Some true) = true ∧ inv (registry x).
Proof.
  destruct (DisconnectToken "tok" x1) as [x n] eqn:Hd.
  pose proof (DisconnectToken_complete "tok" x1 x n registry_x1_inv Hd) as (Hi & _).
  split; [|split; [|exact Hi]]; vm_compute in Hd; injection Hd as <- <-; reflexivity.
Defined.

Lemma registered_tunnel_reachable_witness :
  ∃ t, tid t = 13%positive ∧
    (serveConn RelaySample.s addr (Some (mkClientHello "raw.t.example" [])) [] (λ _, false) 1 x1).2 = Passthrough (tid t).
Proof.
  pose proof (eq_refl : x1 = (step x0).1.1.1) as Hx. destruct (step x0) as [[[x' se'] fx] rep] eqn:Hst.
  cbv beta iota delta [fst] in Hx.
  assert (∃ es, rep = Some (Reply (Registered es))) as [es ->].
  { vm_compute in Hst. injection Hst as _ _ _ <-. eexists. reflexivity. }
  rewrite Hx. clear Hx.
  assert (∃ t, drop 0 (tunnels se') !! 1 = Some t ∧ tid t = 13%positive ∧ Hostname (endpoint t) = "raw.t.example" ∧
    EType (endpoint t) = TUNNEL_TYPE_TLS ∧ AllowsIP (access t) (remoteIP addr) = true ∧ RequiresToken (access t) = false
    ∧ (admit_ addr None 1 x').2 = true)
    as (t & Ht & Hid & Hh & Hty & Hip & Htok & Hadm).
  { vm_compute in Hst. injection Hst as <- <- _ _. eexists. split_and!; vm_compute; reflexivity. }
  exists t. split; [exact Hid|].
  destruct (registered_tunnel_reachable RelaySample.s RelaySample.can_bind 1%positive RelaySample.sess
    [RelaySample.ssh; tls; db] 0 x0 x' se' fx es RelaySample.min_ok) with (t := t) as (_ & _ & Hserve); [..|].
  - apply (NormalizeDomain_valid "t.example"). vm_compute. reflexivity.
  - discriminate.
  - exact RelaySample.r0_inv.
  - exact RelaySample.r0_ports.
  - apply (bool_decide_eq_true_1 _). vm_compute. reflexivity.
  - exact Hst.
  - by eapply list_elem_of_lookup_2.
  - specialize (Hserve addr [] [] (λ _, false) 1%Z Hadm Hip Htok). rewrite Hh, Hty in Hserve. exact Hserve.
Defined.
