(* ===== verification/Gateway.v ===== *)
(** * The SSH gateway across relays (go/tunnel/relay/gateway.go)

A client of the gateway opens direct-tcpip channels; the relay that has the
client's connection joins each with a tunnel of its own, or carries it to the
stream port of the relay that serves the tunnel, with a signed header. This file
models a channel on both sides and compares what the cluster does with what the
serving relay's own gateway would do. SSH, dialing and copying are arguments
([channel_io]) or the ends of the story ([channel_end]). *)

From Stdlib Require Import QArith.
From S2P Require Import Prelude GoStrings Protocol Policy NetIP Limiter Transport Access NameRegistry RelayTunnels.
From S2P Require Import RelayTunnelsSpec RelayServe RelayServeSpec.
From stdpp Require Import options.
#[local] Open Scope l8_scope.
Import Rules Auth.

(** What happens around a channel: its request can be read, the agent's stream
opens, the other relay can be dialed and takes the header, the client takes the
channel. *)
Record channel_io := mkChannelIO { readable : bool; opens : bool; dials : bool; takes_header : bool; accepts : bool }.

Inductive channel_end :=
| ChNotForwarding                                    (* not a direct-tcpip channel *)
| ChMalformed
| ChProhibited (why : gateway_refusal)
| ChAgentUnreachable
| ChRelayUnreachable
| ChClientGone                                       (* accepting the channel failed *)
| ChTunnel (t : tunnel_id)                           (* joined with a stream of the tunnel *)
| ChRelay (addr name : string) (tlvs : list TLV).    (* joined with the relay's stream port, after this header *)

Section gateway.
Context `{GoUnicode, Crypto, MapRange, HMAC} (s : Server).

(** [PublicKeyCallback]: the extensions of a login. *)
Definition gateway_login (keys : string → result unit (option GatewayKey)) (fp : string) : option (string * string) :=
  match keys fp with Ok (Some k) => Some (fp, KName k) | _ => None end.

(** [client] is the text of the client's address. *)
Definition gatewayRemote (io : channel_io) (client : string) (req : directTCPIP) (addr : string) (now : Z) : channel_end :=
  let name := TunnelName (rules s) (gateway_host s (dHost req)) in
  if negb (dials io) then ChRelayUnreachable
  else
    let key := match Cluster s with Some c => ForwardKey c | None => "" end in
    let tlvs := SignedTLVs key name client now in
    if negb (takes_header io) then ChRelayUnreachable
    else if negb (accepts io) then ChClientGone
    else ChRelay addr name tlvs.

Definition gatewayChannel (io : channel_io) (keys : result unit (option GatewayKey)) (addr : netAddr) (client : string)
    (req : directTCPIP) (now : Z) (x : relay) : relay * channel_end :=
  if negb (readable io) then (x, ChMalformed)
  else
    match gatewayTarget s keys addr req x with
    | (x, RemoteRelay a) => (x, gatewayRemote io client req a now)
    | (x, Refused why) => (x, ChProhibited why)
    | (x, LocalTunnel t) =>
        (x, if negb (opens io) then ChAgentUnreachable else if negb (accepts io) then ChClientGone else ChTunnel t)
    end.

(** The loop of [serveGateway] over the connection's channels. *)
Definition gateway_dispatch (channelType : string) (io : channel_io) (keys : result unit (option GatewayKey)) (addr : netAddr)
    (client : string) (req : directTCPIP) (now : Z) (x : relay) : relay * channel_end :=
  if negb (String.eqb channelType "direct-tcpip") then (x, ChNotForwarding)
  else gatewayChannel io keys addr client req now x.
End gateway.

Definition all_well : channel_io := mkChannelIO true true true true true.

(** ** Two relays *)

Section two_relays.
Context `{GoUnicode, Crypto, MapRange, HMAC} (sA sB : Server) (cA cB : ClusterLink).
(** They are of one cluster: the same rules and the same secret. *)
Context (same_rules : rules sA = rules sB) (inA : Cluster sA = Some cA) (inB : Cluster sB = Some cB)
        (same_key : ForwardKey cA = ForwardKey cB).

(** The tunnel that a channel of a client of relay A reaches at relay B. *)
Definition reaches (keys : result unit (option GatewayKey)) (addr : netAddr) (client : string) (req : directTCPIP)
    (nowA nowB : Z) (xA xB : relay) : option tunnel_id :=
  match (gatewayChannel sA all_well keys addr client req nowA xA).2 with
  | ChRelay _ _ tlvs => (serveStream sB addr client tlvs nowB xB).2
  | _ => None
  end.

Lemma gateway_host_same host : gateway_host sA host = gateway_host sB host.
Proof using same_rules. unfold gateway_host. by rewrite same_rules. Qed.

(** What relay B does with a stream relay A signed. *)
Lemma signed_stream_served name addr client nowA nowB xB t typ b :
  is_int64 (unix nowA) → is_int64 (unix nowB) → (- 60 ≤ unix nowB - unix nowA ≤ 60)%Z →
  lookup name (registry xB) = (Some t, typ, b) →
  (serveStream sB addr client (SignedTLVs (ForwardKey cA) name client nowA) nowB xB).2 =
    if (Allow (remoteIP addr) nowB (connLimit xB)).2 && AllowsIP (access_of xB t) (remoteIP addr) then Some t else None.
Proof using inB same_key.
  intros HA HB Hw Hl. unfold serveStream. rewrite inB, same_key, signed_roundtrip, Hl by done. unfold admit_.
  destruct (Allow _ _ _) as [l ok]. cbn. destruct ok; cbn; [|done]. by destruct (AllowsIP _ _).
Qed.

End two_relays.

(** ** A sample cluster *)

#[local] Existing Instance plain_crypto.
#[local] Existing Instance ascii_only.
#[local] Existing Instance SignSample.toy.

Module GatewaySample.
Definition link (owner : string → option (string * bool)) : ClusterLink := mkCluster (λ _, Err ErrClusterUnavailable) (λ _, None) owner "secret".
Definition other (name : string) : option (string * bool) := Some ("10.0.0.2:7000", String.eqb name "db").
Definition cluster_member (c : ClusterLink) : Server :=
  mkServer (rules RelaySample.s) (PublicHost RelaySample.s) (publicHTTPSPort RelaySample.s) (CanServeHost RelaySample.s) None (Some c).
Definition cA : ClusterLink := link other.
Definition cB : ClusterLink := link (λ _, None).
Definition sA : Server := cluster_member cA.
Definition sB : Server := cluster_member cB.
Definition xA : relay := ServeSample.x0.
Definition xB : relay := ServeSample.x1.
Definition t0 : Z := SignSample.t0.
Definition key : GatewayKey := mkKey "k" "" "" ["*"].
(** A web application behind a password. *)
Definition web : ids * TunnelSpec := (mkIds 21%positive "id7" "r7", mkSpec "web" TUNNEL_TYPE_HTTP 0 basic_policy [] 0).
Definition xW : relay := (control_step RelaySample.s RelaySample.can_bind 1%positive RelaySample.sess (MsgRegister [web]) 0 ServeSample.x0).1.1.1.
End GatewaySample.
Import GatewaySample.


(** The theorem needs the tunnel's type: relay A does not ask for it, and relay B
forwards any stream a relay signed. A web application behind a password (or a
login) is refused by its own relay's gateway, but reached through another
relay's by a key with a pattern grant: the raw stream goes to the application. *)
Lemma gateway_skips_http_login :
  RequiresBasic (access_of xW 21%positive) = true ∧
  (gatewayTarget sB (Ok (Some key)) ServeSample.addr (mkDirect "web" 22) xW).2 = Refused NoTunnel ∧
  reaches sA sB (Ok (Some key)) ServeSample.addr "0.0.0.7:9" (mkDirect "web" 22) t0 t0 xA xW = Some 21%positive.
Proof. vm_compute. split_and!; reflexivity. Qed.
