(* ===== verification/Connect.v ===== *)
(** * "l8tunnel connect" and the relay (go/tunnel/client/connect.go,
transport/tls.go, relay/router.go newRouteConfigs)

The client of a TCP or SSH tunnel reaches it through the relay's TLS port by the
tunnel's host name; a tunnel may ask for an access token first. [connect] runs
the client against the relay's handlers: its ClientHello is routed by
[serveConn], both sides agree on a protocol as crypto/tls does ([negotiateALPN]),
and the token goes over the connection only if its protocol was agreed on. Dialing,
certificates and copying are not modelled: the handshake succeeds when the
protocols do. *)

From Stdlib Require Import QArith.
From S2P Require Import Prelude GoStrings Base64 Protocol Policy NetIP Limiter Transport Access NameRegistry RelayTunnels.
From S2P Require Import RelayTunnelsSpec RelayServe RelayServeSpec.
From stdpp Require Import options.
#[local] Open Scope l8_scope.
Import Rules Auth.

(** ** TLS configurations *)

Definition VersionTLS12 : Z := 0x0303.
Definition VersionTLS13 : Z := 0x0304.

Record route_config := mkRoute { NextProtos : list string; MinVersion : Z; AskCert : bool }.

(** [newRouteConfigs]; [agentCA] says whether there is a CA for agents. *)
Definition newRouteConfigs (agentCA : bool) (cfg : tls_config) : route_config :=
  match cfg with
  | CfgAgent => mkRoute [ALPN] VersionTLS13 agentCA
  | CfgAgentWS => mkRoute ["http/1.1"] VersionTLS13 agentCA
  | CfgTunnel => mkRoute [] VersionTLS13 false
  | CfgTunnelToken => mkRoute [ConnectTokenALPN] VersionTLS13 false
  | CfgHTTP => mkRoute ["h2"; "http/1.1"] VersionTLS12 false
  end.

(** crypto/tls: the protocol of a connection ("" for none), or an alert. *)
Definition negotiateALPN (server client : list string) : option string :=
  if bool_decide (server = []) || bool_decide (client = []) then Some ""
  else match List.find (λ p, existsb (String.eqb p) client) server with
       | Some p => Some p
       | None => if existsb (String.eqb "h2") server && existsb (String.eqb "http/1.1") client then Some "" else None
       end.

(** ** The client *)

Record ConnectConfig := mkConnect { ccHost : string; ccRelayAddr : string; ccAccessToken : string }.

Section connect.
Context `{GoUnicode, Crypto, MapRange} (s : Server) (agentCA : bool).

Definition connect_host (c : ConnectConfig) : string := normal_host (ccHost c).
Definition connect_addr (c : ConnectConfig) : string :=
  if String.eqb (ccRelayAddr c) "" then JoinHostPort (connect_host c) "443" else ccRelayAddr c.
Definition connect_protos (c : ConnectConfig) : list string :=
  if String.eqb (ccAccessToken c) "" then [ConnectALPN] else [ConnectTokenALPN; ConnectALPN].

Inductive connect_end :=
| CxNoHost                                           (* a host name is required *)
| CxClosed                                           (* the relay closed the connection *)
| CxAlert                                            (* the handshake failed with an alert *)
| CxTokenRejected (t : tunnel_id)                    (* the token was sent, and refused *)
| CxTunnel (t : tunnel_id) (sent : option string)    (* joined with the tunnel, having sent a token *)
| CxService (t : tunnel_id)                          (* TLS is up to the tunnel's own service *)
| CxOwner (addr : string).                           (* passed on to another relay *)

(** What follows the handshake. *)
Definition after_handshake (c : ConnectConfig) (addr : netAddr) (cfg : tls_config) (next : next_step) (now : Z) (x : relay)
    : relay * connect_end :=
  match negotiateALPN (NextProtos (newRouteConfigs agentCA cfg)) (connect_protos c) with
  | None => (x, CxAlert)
  | Some p =>
      match next with
      | ForwardTo t => (x, CxTunnel t None)
      | TokenAuth t =>
          if String.eqb p ConnectTokenALPN then
            let '(x, got) := serveToken addr t (Some (ccAccessToken c)) true now x in
            (x, match got with Some t => CxTunnel t (Some (ccAccessToken c)) | None => CxTokenRejected t end)
          else (x, CxClosed)
      | PushWebSocket | ServeAgent | ServeHTTP => (x, CxClosed)
      end
  end.

Definition Connect (c : ConnectConfig) (addr : netAddr) (tlvs : list TLV) (reached : string → bool) (now : Z) (x : relay)
    : relay * connect_end :=
  if String.eqb (connect_host c) "" then (x, CxNoHost)
  else
    match serveConn s addr (Some (mkClientHello (connect_host c) (connect_protos c))) tlvs reached now x with
    | (x, CloseConn) => (x, CxClosed)
    | (x, RejectTLS) => (x, CxAlert)
    | (x, Passthrough t) => (x, CxService t)
    | (x, ToOwner a) => (x, CxOwner a)
    | (x, Terminate cfg next) => after_handshake c addr cfg next now x
    end.

(** ** What the client reaches *)

Lemma negotiated_token c : ccAccessToken c ≠ "" → negotiateALPN [ConnectTokenALPN] (connect_protos c) = Some ConnectTokenALPN.
Proof using Type. intros Ht. unfold connect_protos. destruct (String.eqb_spec (ccAccessToken c) ""); done. Qed.
Lemma not_http c : negotiateALPN ["h2"; "http/1.1"] (connect_protos c) = None.
Proof using Type. unfold connect_protos. by destruct (String.eqb (ccAccessToken c) ""). Qed.
Lemma offers_token c : offers (connect_protos c) [ConnectTokenALPN] = negb (String.eqb (ccAccessToken c) "").
Proof using Type. unfold connect_protos. by destruct (String.eqb (ccAccessToken c) ""). Qed.

(** Who is connected, and who learns the token. For a client of a connected
TCP or SSH tunnel whose host name is not one of the relay's own: within the rate
limit for connections and with an allowed address it is joined with exactly this
tunnel if the tunnel asks for no token, and then the client's token is not sent;
a tunnel that asks for one is reached exactly with the right token, and no token
is accepted from an address that has used up its failures. Everybody else gets
an alert or a closed connection. *)
Theorem connect_reaches c addr tlvs reached now x t typ name :
  connect_host c ≠ "" → connect_host c ≠ ControlSNI (rules s) →
  normal_host (connect_host c) = connect_host c →
  (∀ l, Login s = Some l → connect_host c ≠ LoginAuthHost l) →
  resolveHost s x (connect_host c) = (Some t, typ, name) → hasPublicPort typ = true →
  (Connect c addr tlvs reached now x).2 =
    if negb (Allow (remoteIP addr) now (connLimit x)).2 then CxClosed
    else if negb (AllowsIP (access_of x t) (remoteIP addr)) then CxAlert
    else if negb (RequiresToken (access_of x t)) then CxTunnel t None
    else if (Exhausted (remoteIP addr) now (authFailures x)).2 || String.eqb (ccAccessToken c) "" then CxAlert
    else if CheckToken (access_of x t) (ccAccessToken c) then CxTunnel t (Some (ccAccessToken c))
    else CxTokenRejected t.
Proof using Type.
  intros Hh Hc Hn Hl Hr Hp. unfold Connect. destruct (String.eqb_spec (connect_host c) ""); [done|]. unfold serveConn, admit_.
  destruct (Allow (remoteIP addr) now (connLimit x)) as [lim ok]. cbn [snd negb]. destruct ok; cbn [negb]; [|done].
  cbn [ServerName SupportedProtos]. rewrite Hn. destruct (String.eqb_spec (connect_host c) (ControlSNI (rules s))); [done|].
  set (b := match Login s with Some l => _ | None => false end).
  assert (b = false) as ->.
  { subst b. destruct (Login s) as [l|]; [|done]. destruct (String.eqb_spec (connect_host c) (LoginAuthHost l)) as [E|]; [|done].
    by destruct (Hl l eq_refl). }
  set (x1 := x <| connLimit := lim |>). change (resolveHost s x1 (connect_host c)) with (resolveHost s x (connect_host c)). rewrite Hr.
  unfold RelayServe.route. rewrite Hp. change (access_of x1 t) with (access_of x t).
  assert (isHTTP typ = false ∧ bool_decide (typ = TUNNEL_TYPE_TLS) = false) as [-> ->] by (by destruct typ). cbn [negb andb].
  destruct (AllowsIP (access_of x t) (remoteIP addr)); cbn [negb andb]; [|done].
  destruct (RequiresToken (access_of x t)) eqn:Htok; cbn [andb negb]; [|done].
  unfold serveTokenTunnel. change (authFailures x1) with (authFailures x). destruct (Exhausted _ _ _) as [l ex]. cbn [snd].
  destruct ex; cbn [orb]; [done|]. rewrite offers_token, negb_involutive.
  destruct (String.eqb_spec (ccAccessToken c) "") as [|Hne]; [done|].
  unfold after_handshake. cbn [NextProtos newRouteConfigs]. rewrite negotiated_token by done. rewrite String.eqb_refl.
  unfold serveToken. change (access_of (x1 <| authFailures := l |>) t) with (access_of x t). by destruct (CheckToken _ _).
Qed.

(** A token is sent only to a tunnel that asks for one, whatever host the client
names: not to the relay's own services, to HTTP tunnels or to open ones. *)
Lemma token_kept c addr tlvs reached now x :
  match (Connect c addr tlvs reached now x).2 with
  | CxTunnel t (Some tok) => tok = ccAccessToken c ∧ RequiresToken (access_of x t) = true ∧ CheckToken (access_of x t) tok = true
  | CxTokenRejected t => RequiresToken (access_of x t) = true
  | _ => True
  end.
Proof using Type.
  unfold Connect. destruct (String.eqb _ ""); [done|].
  destruct (serveConn s addr _ tlvs reached now x) as [x1 act] eqn:Hs.
  assert (∀ cfg t, act = Terminate cfg (TokenAuth t) → access_of x1 = access_of x ∧ RequiresToken (access_of x t) = true) as Hact.
  { intros cfg t ->. unfold serveConn, admit_ in Hs. destruct (Allow _ _ _) as [lim ok]. destruct ok; cbn [negb] in Hs; [|done].
    cbn [ServerName SupportedProtos] in Hs.
    destruct (String.eqb (normal_host (connect_host c)) (ControlSNI (rules s))); [by repeat case_match; simplify_eq|].
    destruct (match Login s with Some l => _ | None => false end); [by simplify_eq|].
    destruct (resolveHost _ _ _) as [[ot typ] name].
    destruct (match ot with Some _ => None | None => _ end); [by simplify_eq|]. unfold RelayServe.route in Hs.
    destruct ot as [u|]; [|by repeat case_match; simplify_eq].
    destruct (negb (AllowsIP _ _) && _); [by simplify_eq|]. destruct (bool_decide _); [by simplify_eq|].
    destruct (hasPublicPort typ && RequiresToken _) eqn:Hr; [|by repeat case_match; simplify_eq].
    apply andb_true_iff in Hr as [_ Hr]. unfold serveTokenTunnel in Hs. destruct (Exhausted _ _ _) as [l ex].
    destruct ex; [by simplify_eq|]. destruct (negb _); [by simplify_eq|]. injection Hs as <- _ <-. done. }
  destruct act as [| |t|cfg next|a]; try done. unfold after_handshake. destruct (negotiateALPN _ _) as [p|]; [|done].
  destruct next as [| | |t|t]; try done. destruct (Hact cfg t eq_refl) as [Hx Hr]. destruct (String.eqb p _); [|done].
  unfold serveToken. rewrite Hx. by destruct (CheckToken (access_of x t) (ccAccessToken c)) eqn:Hc.
Qed.

(** Nor does it speak with the relay's web server: a handshake for an HTTP tunnel
or an error page fails. *)
Lemma connect_not_http c addr next now x : after_handshake c addr CfgHTTP next now x = (x, CxAlert).
Proof using Type. unfold after_handshake. cbn [NextProtos newRouteConfigs]. by rewrite not_http. Qed.
End connect.

(** ** A sample *)

#[local] Existing Instance plain_crypto.
#[local] Existing Instance ascii_only.

Module ConnectSample.
Definition token : string := "0123456789abcdef0123456789abcdef".
Definition at_host (host token : string) : ConnectConfig := mkConnect host "" token.
Definition run (c : ConnectConfig) : connect_end := (Connect RelaySample.s true c ServeSample.addr [] (λ _, false) 1 ServeSample.x1).2.
End ConnectSample.
Import ConnectSample.

Lemma connect_reaches_witness :
  run (at_host "DB.t.example." token) = CxTunnel 14%positive (Some token) ∧
  run (at_host "db.t.example" "guess") = CxTokenRejected 14%positive ∧
  run (at_host "ssh.t.example" token) = CxTunnel 10%positive None.
Proof.
  unfold run. split_and!.
  - rewrite (connect_reaches RelaySample.s true (at_host "DB.t.example." token) ServeSample.addr [] (λ _, false) 1 ServeSample.x1
      14%positive TUNNEL_TYPE_TCP "db"); [vm_compute; reflexivity|done|done|vm_compute; reflexivity|done|vm_compute; reflexivity|done].
  - rewrite (connect_reaches RelaySample.s true (at_host "db.t.example" "guess") ServeSample.addr [] (λ _, false) 1 ServeSample.x1
      14%positive TUNNEL_TYPE_TCP "db"); [vm_compute; reflexivity|done|done|vm_compute; reflexivity|done|vm_compute; reflexivity|done].
  - rewrite (connect_reaches RelaySample.s true (at_host "ssh.t.example" token) ServeSample.addr [] (λ _, false) 1 ServeSample.x1
      10%positive TUNNEL_TYPE_TCP "ssh"); [vm_compute; reflexivity|done|done|vm_compute; reflexivity|done|vm_compute; reflexivity|done].
Defined.
