(* ===== verification/Pipe.v ===== *)
(** * Joining two connections (go/tunnel/pipe/pipe.go, transport/mux.go Stream)

Every tunnel type ends in [pipe.Join], which copies between two connections in
two goroutines. A run is a list of labels: [Arrive] and [Ends] are what the two
peers do, [Run x] lets the goroutine that copies from side [x] do its next
action (a read, a write, the half-close, a step of [fail]), [Finish] is the rest of
Join after [wg.Wait]. The labels carry what the system decides: how many bytes a
read returns, and whether and how far a write succeeds. A write takes finitely
long: waiting for a peer that does not read is not modelled.

[closeEndsReads] tells connections apart: closing a TCP or TLS connection ends
the reads on it, closing a multiplexed [Stream] is the same as its CloseWrite. *)

From S2P Require Import Prelude.
From stdpp Require Import functions options.
From Stdlib Require Import Init.Byte.
#[local] Open Scope l8_scope.
#[local] Open Scope Z_scope.

Inductive side := A | B.
#[export] Instance side_eq_dec : EqDecision side.
Proof. solve_decision. Defined.
Definition other (x : side) : side := if x is A then B else A.

Inductive peer_end := EOF | Broken.
Inductive copy_error := ReadError | WriteError | CloseWriteError.
#[export] Instance peer_end_eq_dec : EqDecision peer_end.
Proof. solve_decision. Defined.

(** A connection: what its peer sends and gets. *)
Record conn := mkConn {
  closeEndsReads : bool;
  sent : list byte;              (* all the peer has sent *)
  inbox : list byte;             (* the part of it that was not read yet *)
  ending : option peer_end;      (* how the peer's side ended *)
  got : list byte;               (* all the peer was sent *)
  halfClosed : bool;             (* the peer sees the end of what it is sent *)
  closed : bool;
}.
#[export] Instance eta_conn : Eta conn := λ c,
  mkConn (closeEndsReads c) (sent c) (inbox c) (ending c) (got c) (halfClosed c) (closed c).

Definition tcp_conn : conn := mkConn true [] [] None [] false false.
Definition mux_stream : conn := mkConn false [] [] None [] false false.

(** Where a goroutine in [copyHalf] is. *)
Inductive half_at :=
| Reading                        (* io.Copy reads *)
| Holding (bs : list byte)       (* io.Copy writes what it read *)
| CopyDone                       (* io.Copy ended without an error *)
| Failing (e : copy_error)       (* calls fail *)
| ClosingA                       (* in the body of once.Do *)
| ClosingB
| HalfDone.

Inductive once_state := NotRun | Running | Ran.
#[export] Instance once_state_eq_dec : EqDecision once_state.
Proof. solve_decision. Defined.

Record join := mkJoin {
  conns : side → conn;
  halves : side → half_at;
  copied : side → Z;
  once : once_state;
  resErr : option copy_error;
  finished : bool;
}.
#[export] Instance eta_join : Eta join := λ s,
  mkJoin (conns s) (halves s) (copied s) (once s) (resErr s) (finished s).

Definition join_start (a b : conn) : join :=
  mkJoin (λ x, if x is A then a else b) (λ _, Reading) (λ _, 0) NotRun None false.

(** The [Result] of a Join that has returned. *)
Record Result := mkResult { AtoB : Z; BtoA : Z; ResErr : option copy_error }.
Definition join_result (s : join) : option Result :=
  if finished s then Some (mkResult (copied s A) (copied s B) (resErr s)) else None.

Definition go_half (x : side) (h : half_at) (s : join) : join := s <| halves := <[x := h]> (halves s) |>.
Definition set_conn (x : side) (c : conn) (s : join) : join := s <| conns := <[x := c]> (conns s) |>.
Definition close_conn (x : side) (s : join) : join := set_conn x (conns s x <| closed := true |>) s.

(** [src.Read]; [None] while there is nothing to read. *)
Definition conn_read (x : side) (k : nat) (s : join) : option join :=
  let c := conns s x in
  if closed c && closeEndsReads c then Some (go_half x (Failing ReadError) s)
  else if inbox c is [] then
    match ending c with
    | Some EOF => Some (go_half x CopyDone s)
    | Some Broken => Some (go_half x (Failing ReadError) s)
    | None => None
    end
  else Some (go_half x (Holding (take (S k) (inbox c))) (set_conn x (c <| inbox := drop (S k) (inbox c) |>) s)).

(** [dst.Write]: all of [bs], or [k] bytes of it and an error. *)
Definition conn_write (x : side) (bs : list byte) (k : nat) (ok : bool) (s : join) : join :=
  let c := conns s (other x) in
  if closed c then go_half x (Failing WriteError) s
  else
    let w := if ok then bs else take k bs in
    let s := set_conn (other x) (c <| got := got c ++ w |>) s in
    let s := s <| copied := <[x := copied s x + Z.of_nat (length w)]> (copied s) |> in
    go_half x (if ok then Reading else Failing WriteError) s.

(** One action of the goroutine that runs [copyHalf(other x, x, fail)]. *)
Definition copyHalf (x : side) (k : nat) (ok : bool) (s : join) : option join :=
  match halves s x with
  | Reading => conn_read x k s
  | Holding bs => Some (conn_write x bs k ok s)
  | CopyDone =>
      if ok then Some (go_half x HalfDone (set_conn (other x) (conns s (other x) <| halfClosed := true |>) s))
      else Some (go_half x (Failing CloseWriteError) s)
  | Failing e =>
      match once s with
      | NotRun => Some (go_half x ClosingA (s <| once := Running |> <| resErr := Some e |>))
      | Running => None
      | Ran => Some (go_half x HalfDone s)
      end
  | ClosingA => Some (go_half x ClosingB (close_conn A s))
  | ClosingB => Some (go_half x HalfDone (close_conn B s <| once := Ran |>))
  | HalfDone => None
  end.

Inductive label :=
| Arrive (x : side) (bs : list byte)
| Ends (x : side) (e : peer_end)
| Run (x : side) (k : nat) (ok : bool)
| Finish.

Definition exec (l : label) (s : join) : option join :=
  match l with
  | Arrive x bs =>
      let c := conns s x in
      if ending c is Some _ then None
      else Some (set_conn x (c <| sent := sent c ++ bs |> <| inbox := inbox c ++ bs |>) s)
  | Ends x e =>
      let c := conns s x in
      if ending c is Some _ then None else Some (set_conn x (c <| ending := Some e |>) s)
  | Run x k ok => if finished s then None else copyHalf x k ok s
  | Finish =>
      match finished s, halves s A, halves s B with
      | false, HalfDone, HalfDone => Some (close_conn B (close_conn A s) <| finished := true |>)
      | _, _, _ => None
      end
  end.

Fixpoint Join (ls : list label) (s : join) : option join :=
  match ls with [] => Some s | l :: ls => s ← exec l s; Join ls s end.

(** The actions of Join, not of its peers. *)
Definition own (l : label) : bool := match l with Run _ _ _ | Finish => true | _ => false end.

(** ** Invariant *)

Definition held (h : half_at) : list byte := if h is Holding bs then bs else [].
Definition closing (h : half_at) : bool := match h with ClosingA | ClosingB => true | _ => false end.

(** A goroutine whose copying failed, or may have. *)
Definition gave_up (o : once_state) (h : half_at) : bool :=
  match h with
  | Failing _ | ClosingA | ClosingB => true
  | HalfDone => if o is NotRun then false else true
  | _ => false
  end.

(** What a peer gets is a prefix of what the other one sent; nothing of it is lost
before the copying fails. *)
Definition stream_ok (s : join) (x : side) : Prop :=
  ∃ lost, sent (conns s x) = got (conns s (other x)) ++ lost ++ inbox (conns s x) ∧
    (lost = held (halves s x) ∨ gave_up (once s) (halves s x) = true).
Definition half_ok (s : join) (x : side) : Prop :=
  copied s x = Z.of_nat (length (got (conns s (other x)))) ∧
  (halves s x = CopyDone ∨ halves s x = HalfDone ∧ once s = NotRun →
   inbox (conns s x) = [] ∧ ending (conns s x) = Some EOF) ∧
  (halves s x = HalfDone → once s = NotRun → halfClosed (conns s (other x)) = true).
Definition once_ok (s : join) : Prop :=
  match once s with
  | NotRun => resErr s = None ∧ (∀ x, closing (halves s x) = false) ∧ (finished s = false → ∀ x, closed (conns s x) = false)
  | Running => is_Some (resErr s) ∧ ∃ x, closing (halves s x) = true ∧ closing (halves s (other x)) = false ∧
      (halves s x = ClosingB → closed (conns s A) = true)
  | Ran => is_Some (resErr s) ∧ (∀ x, closing (halves s x) = false) ∧ ∀ x, closed (conns s x) = true
  end.
Record Inv (s : join) : Prop := {
  inv_stream x : stream_ok s x;
  inv_half x : half_ok s x;
  inv_once : once_ok s;
  inv_end x : finished s = true → halves s x = HalfDone ∧ closed (conns s x) = true;
}.

Lemma other_other x : other (other x) = x.
Proof. by destruct x. Qed.
Lemma side_ins {T} (f : side → T) x v : <[x := v]> f x = v.
Proof. by destruct x. Qed.
Lemma side_ins_other {T} (f : side → T) x v : <[x := v]> f (other x) = f (other x).
Proof. by destruct x. Qed.
Lemma side_ins_other' {T} (f : side → T) x v : <[other x := v]> f x = f x.
Proof. by destruct x. Qed.
Create Rewrite HintDb pipe.
#[export] Hint Rewrite other_other @side_ins @side_ins_other @side_ins_other' : pipe.

Lemma join_start_inv a b : sent a = inbox a → sent b = inbox b → got a = [] → got b = [] → closed a = false → closed b = false →
  Inv (join_start a b).
Proof.
  intros Ha Hb Ga Gb Ca Cb. split.
  - intros x. exists []. destruct x; simpl; rewrite ?Ha, ?Hb, ?Ga, ?Gb; auto.
  - intros x. split_and!; [by destruct x; simpl; rewrite ?Ga, ?Gb|by intros [|[]]|done].
  - split_and!; [done..|]. by intros _ [].
  - done.
Qed.

(** Case analysis on the other goroutines and connections a step leaves alone. *)
Lemma side_cases (P : side → Prop) x : P x → P (other x) → ∀ y, P y.
Proof. by destruct x; intros ? ? []. Qed.
Ltac on_sides x := refine (side_cases _ x _ _).
Ltac pipe_simpl := repeat progress (cbn -[take drop length app insert] in *; autorewrite with pipe in *).

(** A step that changes one goroutine and neither [once] nor what is closed. *)
Lemma step_inv x s s' : Inv s → finished s = false →
  (finished s', once s', resErr s') = (false, once s, resErr s) →
  (∀ y, closed (conns s' y) = closed (conns s y)) →
  halves s' (other x) = halves s (other x) → closing (halves s x) = false → closing (halves s' x) = false →
  stream_ok s' x → half_ok s' x →
  (stream_ok s (other x) → stream_ok s' (other x)) → (half_ok s (other x) → half_ok s' (other x)) → Inv s'.
Proof.
  intros [Hs Hh Ho He] Hf [= Hf' Hon Hre] Hcl Hoth Hc Hc' Hsx Hhx Hso Hho. split; [..|by intros y Hy; rewrite Hf' in Hy].
  - on_sides x; auto.
  - on_sides x; auto.
  - unfold once_ok in *. rewrite Hon, Hre. destruct (once s).
    + destruct Ho as (? & Hcs & Hnc). split_and!; [done| |by intros _ y; rewrite Hcl; apply Hnc]. on_sides x; congruence.
    + destruct Ho as (? & y & Hy & Hy' & Hb). split; [done|]. exists y. revert y Hy Hy' Hb.
      on_sides x; intros Hy Hy' Hb; [congruence|]. rewrite other_other in *. rewrite Hoth, Hcl. by split_and!.
    + destruct Ho as (? & Hcs & Hc2). split_and!; [done| |by intros y; rewrite Hcl]. on_sides x; congruence.
Qed.

Lemma go_half_inv x h s : Inv s → finished s = false →
  (stream_ok s x → stream_ok (go_half x h s) x) →
  (half_ok s x → half_ok (go_half x h s) x) → closing h = false → closing (halves s x) = false → Inv (go_half x h s).
Proof.
  intros Hi Hf Hsx Hhx Hc Hcx. apply (step_inv x s); pipe_simpl; auto using inv_stream, inv_half.
  - by rewrite Hf.
  - intros (l & E & Hl). exists l. by pipe_simpl.
  - unfold half_ok. by pipe_simpl.
Qed.

(** A goroutine may turn to [fail] at any time. *)
Lemma to_failing_inv x e s : Inv s → finished s = false → closing (halves s x) = false → Inv (go_half x (Failing e) s).
Proof.
  intros Hi Hf Hc. apply go_half_inv; [done|done| | |done|done].
  - intros (l & E & _). exists l. pipe_simpl. eauto.
  - intros (Hn & _ & _). split_and!; [done| |]; pipe_simpl; [by intros [|[]]|done].
Qed.

Lemma conn_read_inv x k s s' : Inv s → finished s = false → halves s x = Reading → conn_read x k s = Some s' → Inv s'.
Proof.
  intros Hi Hf Hh Hr. unfold conn_read in Hr.
  destruct (closed (conns s x) && closeEndsReads (conns s x)); simplify_eq; [apply to_failing_inv; [done|done|by rewrite Hh]|].
  destruct (inbox (conns s x)) as [|b bs] eqn:Hb.
  - destruct (ending (conns s x)) as [[]|] eqn:He; simplify_eq; [|apply to_failing_inv; [done|done|by rewrite Hh]].
    apply go_half_inv; [done|done| | |done|by rewrite Hh].
    + intros (l & E & Hl). exists l. pipe_simpl. rewrite Hh in Hl. split; [done|]. destruct Hl as [-> |]; [auto|done].
    + intros (Hn & _ & _). split_and!; [done| |]; pipe_simpl; done.
  - simplify_eq. apply (step_inv x s); pipe_simpl; auto; [by rewrite Hf|..].
    + on_sides x; by pipe_simpl.
    + by rewrite Hh.
    + destruct (inv_stream s Hi x) as (l & E & Hl). rewrite Hh in Hl. exists (l ++ take (S k) (b :: bs)). pipe_simpl.
      rewrite E, Hb, <- (app_assoc l), take_drop. split; [done|].
      destruct Hl as [-> |]; [by left|done].
    + destruct (inv_half s Hi x) as (Hn & _ & _). split_and!; pipe_simpl; [done|by intros [|[]]|done].
    + intros (l & E & Hl). exists l. by pipe_simpl.
    + unfold half_ok. by pipe_simpl.
Qed.

Lemma conn_write_inv x bs k ok s : Inv s → finished s = false → halves s x = Holding bs → Inv (conn_write x bs k ok s).
Proof.
  intros Hi Hf Hh. unfold conn_write. destruct (closed (conns s (other x))); [apply to_failing_inv; [done|done|by rewrite Hh]|].
  apply (step_inv x s); pipe_simpl; auto; [by rewrite Hf|..].
  - on_sides x; by pipe_simpl.
  - by rewrite Hh.
  - by destruct ok.
  - destruct (inv_stream s Hi x) as (l & E & Hl). rewrite Hh in Hl. simpl in Hl. unfold stream_ok. pipe_simpl. destruct ok.
    + destruct Hl as [-> |]; [|done]. exists []. rewrite E, <- app_assoc. auto.
    + destruct Hl as [-> |]; [|done]. exists (drop k bs). rewrite E. split; [|auto].
      by rewrite <- (take_drop k bs) at 1; rewrite <- !app_assoc.
  - destruct (inv_half s Hi x) as (Hn & _ & _). split_and!; pipe_simpl; [rewrite length_app; lia|..]; destruct ok; try done; by intros [|[]].
  - intros (l & E & Hl). exists l. by pipe_simpl.
  - unfold half_ok. by pipe_simpl.
Qed.

Lemma half_close_inv x s : Inv s → finished s = false → halves s x = CopyDone →
  Inv (go_half x HalfDone (set_conn (other x) (conns s (other x) <| halfClosed := true |>) s)).
Proof.
  intros Hi Hf Hh. apply (step_inv x s); pipe_simpl; auto; [by rewrite Hf|..].
  - on_sides x; by pipe_simpl.
  - by rewrite Hh.
  - destruct (inv_stream s Hi x) as (l & E & Hl). rewrite Hh in Hl. exists l. pipe_simpl. split; [done|].
    destruct Hl as [-> |]; [auto|done].
  - destruct (inv_half s Hi x) as (Hn & Hd & _). split_and!; pipe_simpl; auto.
  - intros (l & E & Hl). exists l. by pipe_simpl.
  - unfold half_ok. by pipe_simpl.
Qed.

(** The body of [once.Do], which one goroutine runs. *)
Lemma fail_inv x e s : Inv s → finished s = false → halves s x = Failing e → once s = NotRun →
  Inv (go_half x ClosingA (s <| once := Running |> <| resErr := Some e |>)).
Proof.
  intros [Hs Hh Ho He] Hf Hx Hon. unfold once_ok in Ho. rewrite Hon in Ho. destruct Ho as (_ & Hc & _). split.
  - on_sides x; pose proof (Hs x) as (l & E & Hl); pose proof (Hs (other x)) as (l2 & E2 & Hl2); [exists l|exists l2]; pipe_simpl; auto.
    rewrite Hon in Hl2. split; [done|]. destruct Hl2 as [|Hl2]; [auto|]. right. by destruct (halves s (other x)).
  - on_sides x; [destruct (Hh x) as (Hn & _ & _)|destruct (Hh (other x)) as (Hn & Hd & _)]; split_and!; pipe_simpl; try done.
    + by intros [|[]].
    + intros [Hd'|[_ ?]]; [|done]. apply Hd. by left.
  - split; [done|]. exists x. pipe_simpl. by rewrite Hc.
  - intros y Hy. pipe_simpl. congruence.
Qed.

(** Closing changes no stream. *)
Lemma close_conn_same z s y : let c := conns s y in let c' := conns (close_conn z s) y in
  (sent c', inbox c', ending c', got c', halfClosed c') = (sent c, inbox c, ending c, got c, halfClosed c).
Proof. by destruct z, y. Qed.
Lemma close_conn_closed z s y : closed (conns s y) = true ∨ y = z → closed (conns (close_conn z s) y) = true.
Proof. by intros [H | ->]; destruct z; try destruct y. Qed.

Lemma closing_frame x h z o s s' : Inv s → o ≠ NotRun → gave_up o h = true →
  (conns s', halves s', copied s', once s') = (conns (close_conn z s), <[x := h]> (halves s), copied s, o) →
  ∀ y, stream_ok s' y ∧ half_ok s' y.
Proof.
  intros Hi Ho Hg [= Ec Eh Ep Eo] y. pose proof (close_conn_same z s y) as [= E1 E2 E3 E4 E5].
  pose proof (close_conn_same z s (other y)) as [= F1 F2 F3 F4 F5].
  destruct (inv_stream s Hi y) as (l & E & Hl). destruct (inv_half s Hi y) as (Hn & Hd & _).
  unfold stream_ok, half_ok. rewrite Ec, Eh, Ep, Eo, E1, E2, E3, F4. split.
  - exists l. split; [done|]. clear E1 E2 E3 E4 E5 F1 F2 F3 F4 F5 E Hn Hd. revert y Hl. on_sides x; intros Hl; pipe_simpl; [auto|].
    destruct Hl as [-> |Hl]; [auto|]. right. by destruct (halves s (other x)), o.
  - split_and!; [done| |done]. intros [Hd'|[_ ?]]; [|done]. apply Hd. left. clear E1 E2 E3 E4 E5 F1 F2 F3 F4 F5 E Hl Hn Hd. revert y Hd'.
    on_sides x; pipe_simpl; [by intros ->|done].
Qed.

Lemma closing_inv x s : Inv s → finished s = false → closing (halves s x) = true →
  Inv (if halves s x is ClosingA then go_half x ClosingB (close_conn A s) else go_half x HalfDone (close_conn B s <| once := Ran |>)).
Proof.
  intros Hi Hf Hx. pose proof (inv_once s Hi) as Ho. unfold once_ok in Ho. destruct (once s) eqn:Hon;
    [destruct Ho as (_ & Hc & _); by rewrite Hc in Hx| |destruct Ho as (_ & Hc & _); by rewrite Hc in Hx].
  destruct Ho as (Hr & y & Hy & Hy' & Hb).
  assert (y = x) as -> by (revert y Hy Hy' Hb; on_sides x; [done|]; rewrite other_other; congruence).
  assert (∀ s', finished s' = false → (∀ y, stream_ok s' y ∧ half_ok s' y) → once_ok s' → Inv s') as Hmk.
  { intros s' Hf' Hy1 Ho. split; [apply Hy1..|done|congruence]. }
  destruct (halves s x) eqn:E; try done; (apply Hmk; [done|eapply closing_frame; [done| | |by pipe_simpl]|]).
  - by rewrite Hon.
  - by pipe_simpl.
  - unfold once_ok. pipe_simpl. rewrite Hon. split; [done|]. exists x. pipe_simpl. split_and!; [done|done|]. by intros _.
  - done.
  - done.
  - unfold once_ok. pipe_simpl. split_and!; [done| |].
    + on_sides x; by pipe_simpl.
    + intros y. apply close_conn_closed. destruct y; [left|by right]. by apply Hb.
Qed.

Lemma peer_inv x s c : Inv s → ending (conns s x) = None →
  (∃ bs, sent c = sent (conns s x) ++ bs ∧ inbox c = inbox (conns s x) ++ bs) →
  (got c, halfClosed c, closed c) = (got (conns s x), halfClosed (conns s x), closed (conns s x)) → Inv (set_conn x c s).
Proof.
  intros [Hs Hh Ho He] Hn (bs & Es & Ei) [= Eg Eh Ec]. split.
  - on_sides x; pipe_simpl.
    + destruct (Hs x) as (l & E & Hl). exists l. pipe_simpl. by rewrite Es, Ei, E, <- !app_assoc.
    + destruct (Hs (other x)) as (l & E & Hl). exists l. pipe_simpl. by rewrite Eg.
  - on_sides x; [destruct (Hh x) as (H1 & H2 & H3)|destruct (Hh (other x)) as (H1 & H2 & H3)]; unfold half_ok; pipe_simpl; rewrite ?Eg, ?Eh.
    + split_and!; [done| |done]. intros H. destruct (H2 H). congruence.
    + done.
  - assert (∀ y, closed (conns (set_conn x c s) y) = closed (conns s y)) as Hcl by (on_sides x; by pipe_simpl).
    unfold once_ok in *. cbn [once resErr halves finished set_conn set_field]. destruct (once s).
    + destruct Ho as (? & ? & Hc). split_and!; [done..|]. intros Hf y. rewrite Hcl. by apply Hc.
    + destruct Ho as (? & y & ? & ? & Hc). split; [done|]. exists y. rewrite Hcl. done.
    + destruct Ho as (? & ? & Hc). split_and!; [done..|]. intros y. by rewrite Hcl.
  - intros y Hf. destruct (He y Hf) as [Hd Hc]. split; [done|]. clear Hd. revert y Hc. on_sides x; pipe_simpl; [by rewrite Ec|done].
Qed.

Lemma copyHalf_inv x k ok s s' : Inv s → finished s = false → copyHalf x k ok s = Some s' → Inv s'.
Proof.
  intros Hi Hf Hs. unfold copyHalf in Hs. destruct (halves s x) as [|bs| |e| | |] eqn:Hx; try done.
  - by eapply conn_read_inv.
  - simplify_eq. by apply conn_write_inv.
  - destruct ok; simplify_eq; [by apply half_close_inv|]. apply to_failing_inv; [done|done|by rewrite Hx].
  - destruct (once s) eqn:Hon; simplify_eq; [by apply fail_inv|]. apply go_half_inv; [done|done| | |done|by rewrite Hx].
    + intros (l & E & _). exists l. pipe_simpl. rewrite Hon. auto.
    + intros (Hn & _ & _). split_and!; pipe_simpl; [done|intros [|[_ ?]]; congruence|congruence].
  - simplify_eq. pose proof (closing_inv x s Hi Hf) as H. rewrite Hx in H. auto.
  - simplify_eq. pose proof (closing_inv x s Hi Hf) as H. rewrite Hx in H. auto.
Qed.

Lemma finish_inv s : Inv s → halves s A = HalfDone → halves s B = HalfDone →
  Inv (close_conn B (close_conn A s) <| finished := true |>).
Proof.
  intros [Hs Hh Ho He] Ha Hb. set (s' := close_conn B (close_conn A s) <| finished := true |>).
  assert (∀ y, sent (conns s' y) = sent (conns s y) ∧ inbox (conns s' y) = inbox (conns s y) ∧
    ending (conns s' y) = ending (conns s y) ∧ got (conns s' y) = got (conns s y) ∧
    halfClosed (conns s' y) = halfClosed (conns s y)) as Hsame by by intros [].
  assert (∀ y, halves s y = HalfDone) as Hd by by intros [].
  assert (∀ y, closed (conns s' y) = true) as Hc by by intros [].
  split; [intros y; specialize (Hs y)|intros y; specialize (Hh y)|..|by intros y _; split; [apply Hd|apply Hc]].
  1, 2: destruct (Hsame y) as (E1 & E2 & E3 & E4 & E5); destruct (Hsame (other y)) as (F1 & F2 & F3 & F4 & F5).
  - unfold stream_ok in *. by rewrite E1, E2, F4.
  - unfold half_ok in *. by rewrite E2, E3, F4, F5.
  - unfold once_ok in *. cbn [once resErr halves finished s' set_conn close_conn set_field]. destruct (once s).
    + by destruct Ho as (? & ? & _).
    + destruct Ho as (_ & y & Hy & _). by rewrite Hd in Hy.
    + by destruct Ho as (? & ? & _).
Qed.

Lemma exec_inv l s s' : Inv s → exec l s = Some s' → Inv s'.
Proof.
  intros Hi. destruct l as [x bs|x e|x k ok|]; simpl.
  - destruct (ending (conns s x)) eqn:He; [done|]. intros [= <-]. by apply peer_inv; eauto.
  - destruct (ending (conns s x)) eqn:He; [done|]. intros [= <-]. apply peer_inv; [done|done| |done]. exists []. by rewrite !app_nil_r.
  - destruct (finished s) eqn:Hf; [done|]. by apply copyHalf_inv.
  - destruct (finished s); [done|]. destruct (halves s A) eqn:Ha; try done. destruct (halves s B) eqn:Hb; try done.
    intros [= <-]. by apply finish_inv.
Qed.

Lemma Join_inv ls s s' : Inv s → Join ls s = Some s' → Inv s'.
Proof.
  revert s. induction ls as [|l ls IH]; intros s Hi; simpl; [by intros [= ->]|].
  destruct (exec l s) as [s1|] eqn:E; [|done]. simpl. apply IH. by eapply exec_inv.
Qed.

(** ** No waiting without a reason *)

(** How many actions are left at most, if no more bytes arrive. *)
Definition half_work (s : join) (x : side) : nat :=
  match halves s x with
  | Reading => 3 * length (inbox (conns s x)) + 6
  | Holding bs => 3 * length (inbox (conns s x)) + length bs + 7
  | CopyDone => 5
  | Failing _ => 4
  | ClosingA => 3
  | ClosingB => 2
  | HalfDone => 0
  end.
Definition join_work (s : join) : nat :=
  half_work s A + half_work s B + (if finished s then 0 else 1).

(** The goroutine that copies from [x] waits for [x]'s peer. *)
Definition waits (s : join) (x : side) : Prop :=
  halves s x = Reading ∧ inbox (conns s x) = [] ∧ ending (conns s x) = None ∧
  closed (conns s x) && closeEndsReads (conns s x) = false.

Lemma join_work_side x s : join_work s = (half_work s x + half_work s (other x) + (if finished s then 0 else 1))%nat.
Proof. unfold join_work. destruct x; simpl; lia. Qed.

Lemma copyHalf_work x k ok s s' : copyHalf x k ok s = Some s' →
  (half_work s' x < half_work s x)%nat ∧ half_work s' (other x) = half_work s (other x) ∧ finished s' = finished s.
Proof.
  unfold copyHalf, conn_read, conn_write, half_work. intros H.
  destruct (halves s x) as [|bs| |e| | |] eqn:Hx; try done.
  - destruct (_ && _); simplify_eq; [pipe_simpl; split_and!; lia || done|]. destruct (inbox (conns s x)) as [|b bs] eqn:Hb.
    + destruct (ending (conns s x)) as [[]|]; simplify_eq; pipe_simpl; split_and!; lia || done.
    + simplify_eq. pipe_simpl. rewrite length_take, length_drop. cbn [length]. split_and!; lia || done.
  - simplify_eq. destruct (closed _), ok; pipe_simpl; split_and!; lia || done.
  - destruct ok; simplify_eq; pipe_simpl; split_and!; lia || done.
  - destruct (once s); simplify_eq; pipe_simpl; split_and!; lia || done.
  - simplify_eq. unfold close_conn. destruct x; pipe_simpl; split_and!; lia || done.
  - simplify_eq. unfold close_conn. destruct x; pipe_simpl; split_and!; lia || done.
Qed.

Lemma own_work l s s' : own l = true → exec l s = Some s' → (join_work s' < join_work s)%nat.
Proof.
  destruct l as [| |x k ok|]; try done; intros _; simpl.
  - destruct (finished s) eqn:Hf; [done|]. intros (H1 & H2 & H3)%copyHalf_work. rewrite !(join_work_side x), H2, H3, Hf. lia.
  - destruct (finished s) eqn:Hf; [done|]. destruct (halves s A) eqn:Ha; try done. destruct (halves s B) eqn:Hb; try done.
    intros [= <-]. unfold join_work, half_work. cbn [halves finished set_field close_conn set_conn]. rewrite Ha, Hb, Hf. lia.
Qed.

(** A Join that cannot go on waits for a peer that has not ended its side. *)
Lemma join_progress s : Inv s → finished s = false →
  (∃ l, own l = true ∧ is_Some (exec l s)) ∨
  (∃ x, waits s x) ∧ once s ≠ Running ∧ ∀ x, halves s x = HalfDone ∨ waits s x.
Proof.
  intros Hi Hf. assert (∀ x, (is_Some (copyHalf x 0 true s)) ∨ halves s x = HalfDone ∨ waits s x ∨ once s = Running) as Hx.
  { intros x. unfold copyHalf, conn_read, waits. destruct (halves s x); eauto.
    - destruct (_ && _) eqn:E; [eauto|]. destruct (inbox _), (ending _) as [[]|]; eauto 8.
    - destruct (once s); eauto. }
  assert (∀ x, is_Some (copyHalf x 0 true s) → ∃ l, own l = true ∧ is_Some (exec l s)) as Hrun.
  { intros x H. exists (Run x 0 true). split; [done|]. simpl. by rewrite Hf. }
  destruct (decide (once s = Running)) as [Hr|Hr].
  { left. pose proof (inv_once s Hi) as Ho. unfold once_ok in Ho. rewrite Hr in Ho. destruct Ho as (_ & x & Hc & _).
    apply (Hrun x). unfold copyHalf. by destruct (halves s x). }
  destruct (Hx A) as [?|HA]; [by left; eapply Hrun|]. destruct (Hx B) as [?|HB]; [by left; eapply Hrun|].
  destruct HA as [HA|[HA|]], HB as [HB|[HB|]]; try done.
  - left. exists Finish. split; [done|]. simpl. by rewrite Hf, HA, HB.
  - right. split_and!; [by exists B|done|]. intros []; auto.
  - right. split_and!; [by exists A|done|]. intros []; auto.
  - right. split_and!; [by exists A|done|]. intros []; auto.
Qed.

(** Nothing more is to be waited for on side [x]: its peer has ended its side, or
the copying failed and closing the connection ends the reads. *)
Definition stopped (s : join) (x : side) : Prop :=
  is_Some (ending (conns s x)) ∨ is_Some (resErr s) ∧ closeEndsReads (conns s x) = true.

Lemma copyHalf_keeps x k ok s s' : copyHalf x k ok s = Some s' →
  (is_Some (resErr s) → is_Some (resErr s')) ∧
  ∀ y, ending (conns s' y) = ending (conns s y) ∧ closeEndsReads (conns s' y) = closeEndsReads (conns s y).
Proof.
  unfold copyHalf, conn_read, conn_write. intros H.
  assert (∀ z c (t : join) , conns t = <[z := c]> (conns s) → ending c = ending (conns s z) → closeEndsReads c = closeEndsReads (conns s z) →
    ∀ y, ending (conns t y) = ending (conns s y) ∧ closeEndsReads (conns t y) = closeEndsReads (conns s y)) as Hset.
  { intros z c t -> E1 E2. on_sides z; by pipe_simpl. }
  destruct (halves s x) as [|bs| |e| | |]; try done.
  - destruct (_ && _); [by simplify_eq|]. destruct (inbox (conns s x)); [by destruct (ending _) as [[]|]; simplify_eq|].
    simplify_eq. split; [done|]. by eapply Hset.
  - simplify_eq. destruct (closed _); (split; [done|]); [done|]. by eapply Hset.
  - destruct ok; simplify_eq; (split; [done|]); [by eapply Hset|done].
  - destruct (once s); simplify_eq; by split.
  - simplify_eq. split; [done|]. by eapply Hset.
  - simplify_eq. split; [done|]. by eapply Hset.
Qed.

Lemma stopped_own l s s' x : own l = true → exec l s = Some s' → stopped s x → stopped s' x.
Proof.
  intros Hl He Hs. assert ((is_Some (resErr s) → is_Some (resErr s')) ∧ ending (conns s' x) = ending (conns s x) ∧
    closeEndsReads (conns s' x) = closeEndsReads (conns s x)) as (H1 & H2 & H3).
  { destruct l as [| |y k ok|]; try done; simpl in He.
    - destruct (finished s); [done|]. apply copyHalf_keeps in He as [? H]. split; [done|]. apply H.
    - repeat case_match; simplify_eq. split; [done|]. by destruct x. }
  unfold stopped in *. rewrite H2, H3. destruct Hs as [?|[? ?]]; auto.
Qed.

Lemma not_stuck s : Inv s → (∀ x, stopped s x) → finished s = true ∨ ∃ l, own l = true ∧ is_Some (exec l s).
Proof.
  intros Hi Hs. destruct (finished s) eqn:Hf; [by left|]. right.
  destruct (join_progress s Hi Hf) as [?|((x & Hx) & Hr & _)]; [done|]. exfalso. destruct Hx as (_ & _ & He & Hc).
  destruct (Hs x) as [[? ?]|[[e Hre] Hcl]]; [congruence|]. rewrite Hcl, andb_true_r in Hc.
  pose proof (inv_once s Hi) as Ho. unfold once_ok in Ho. destruct (once s); [destruct Ho; congruence|done|].
  destruct Ho as (_ & _ & Ho). by rewrite Ho in Hc.
Qed.

(** ** Theorems *)

(** A connection no one has used yet. *)
Definition fresh_conn (c : conn) : Prop := sent c = inbox c ∧ got c = [] ∧ closed c = false.

(** C8: joining two connections, whatever their peers do and however the two
goroutines interleave. Each peer gets a prefix of what the other one sent, and
the counts are the bytes it got. When Join returns both connections are closed,
and without an error each peer got everything the other one sent, up to its end,
and sees that end. Once both peers have ended their sides (or the copying has
failed and closing both connections ends reads), Join returns: it has no more than
[join_work] actions left, and is never stuck before it has returned. *)
Theorem join_delivers a b ls s : fresh_conn a → fresh_conn b → Join ls (join_start a b) = Some s →
  (∀ x, got (conns s (other x)) `prefix_of` sent (conns s x) ∧ copied s x = Z.of_nat (length (got (conns s (other x))))) ∧
  (∀ r, join_result s = Some r → AtoB r = copied s A ∧ BtoA r = copied s B ∧
    ∀ x, closed (conns s x) = true ∧
      (ResErr r = None → got (conns s (other x)) = sent (conns s x) ∧ ending (conns s x) = Some EOF ∧ halfClosed (conns s (other x)) = true)) ∧
  ((∀ x, stopped s x) → ∀ acts s', forallb own acts = true → Join acts s = Some s' →
    (length acts ≤ join_work s)%nat ∧ (is_Some (join_result s') ∨ ∃ l, own l = true ∧ is_Some (exec l s'))).
Proof.
  intros (A1 & A2 & A3) (B1 & B2 & B3) Hj. assert (Inv s) as Hi by (eapply Join_inv, Hj; by apply join_start_inv). split_and!.
  - intros x. destruct (inv_stream s Hi x) as (l & E & _). destruct (inv_half s Hi x) as (Hn & _). split; [|done].
    rewrite E. by eexists.
  - intros r. unfold join_result. destruct (finished s) eqn:Hf; [|done]. intros [= <-]. split_and!; [done|done|].
    intros x. destruct (inv_end s Hi x Hf) as [Hd Hc]. split; [done|]. cbn [ResErr]. intros Hr.
    pose proof (inv_once s Hi) as Ho. unfold once_ok in Ho.
    destruct (once s) eqn:Hon; [|by destruct Ho as [[? ?] ?]; congruence..].
    destruct (inv_half s Hi x) as (_ & H1 & H2). destruct (inv_stream s Hi x) as (l & E & Hl).
    destruct H1 as [Hb He]; [auto|]. rewrite Hd, Hon in Hl. destruct Hl as [-> |]; [|done].
    rewrite E, Hb. simpl. rewrite app_nil_r. auto.
  - intros Hs acts. clear Hj. revert s Hi Hs. induction acts as [|l acts IH]; simpl; intros s Hi Hs s' Hown.
    + intros [= <-]. split; [lia|]. unfold join_result. destruct (not_stuck s Hi Hs) as [-> |]; [left; eauto|auto].
    + apply andb_true_iff in Hown as [Hl Hown]. destruct (exec l s) as [s1|] eqn:E; [|done]. simpl. intros Hj.
      pose proof (own_work l s s1 Hl E). destruct (IH s1) with (s' := s') as [Hw ?]; [by eapply exec_inv| |done|done|split; [lia|done]].
      intros x. by eapply stopped_own.
Qed.

(** ** A sample, and a failing copy *)

(** Both sides send and end; the goroutines take turns. *)
Definition calm : list label :=
  [Arrive A [x01; x02; x03]; Run A 1 true; Run A 0 true; Arrive B [xff]; Run B 9 true; Ends A EOF; Run A 0 true; Run A 0 true;
   Run B 0 true; Run A 0 true; Ends B EOF].
Definition calm_end : list label := [Run B 0 true; Run A 0 true; Run B 0 true; Finish].

Definition joined (ls : list label) : join := default (join_start tcp_conn mux_stream) (Join ls (join_start tcp_conn mux_stream)).

Lemma join_delivers_witness :
  (∀ acts s, forallb own acts = true → Join acts (joined calm) = Some s → (length acts ≤ 12)%nat) ∧
  join_result (joined (calm ++ calm_end)) = Some (mkResult 3 1 None) ∧
  got (conns (joined (calm ++ calm_end)) B) = sent (conns (joined (calm ++ calm_end)) A).
Proof.
  assert (fresh_conn tcp_conn ∧ fresh_conn mux_stream) as [Ha Hb] by done.
  assert (Join calm (join_start tcp_conn mux_stream) = Some (joined calm)) as Hc by (vm_compute; reflexivity).
  assert (Join (calm ++ calm_end) (join_start tcp_conn mux_stream) = Some (joined (calm ++ calm_end))) as He by (vm_compute; reflexivity).
  assert (join_result (joined (calm ++ calm_end)) = Some (mkResult 3 1 None)) as Hr by (vm_compute; reflexivity).
  assert (join_work (joined calm) = 12%nat) as Hw by (vm_compute; reflexivity).
  assert (is_Some (ending (conns (joined calm) A)) ∧ is_Some (ending (conns (joined calm) B))) as [HA HB]
    by (split; eexists; vm_compute; reflexivity).
  split_and!; [|exact Hr|].
  - intros acts s Hown Hj. destruct (join_delivers tcp_conn mux_stream calm (joined calm) Ha Hb Hc) as (_ & _ & H).
    rewrite Hw in H. destruct (H (λ x, match x with A => or_introl HA | B => or_introl HB end) acts s Hown Hj) as [Hl _]. exact Hl.
  - destruct (join_delivers tcp_conn mux_stream (calm ++ calm_end) _ Ha Hb He) as (_ & H & _).
    destruct (H _ Hr) as (_ & _ & Hx). destruct (Hx A) as [_ Hg]. destruct (Hg eq_refl) as [Hg' _]. exact Hg'.
Defined.

(** Join's promise that a failed copy does not leave the other direction hanging
does not hold for a multiplexed stream, whose Close only ends its own direction:
a client of a tunnel breaks off, both connections are closed, and Join waits on for
the target behind the stream, for as long as the target sends nothing and does
not end its side. With two TCP connections Join would return. *)
Definition broken_off : list label :=
  [Ends A Broken; Run A 0 true; Run A 0 true; Run A 0 true; Run A 0 true].

Lemma stream_outlives_failure : ∃ s, Join broken_off (join_start tcp_conn mux_stream) = Some s ∧
  is_Some (resErr s) ∧ closed (conns s A) = true ∧ closed (conns s B) = true ∧
  join_result s = None ∧ ∀ l, own l = true → exec l s = None.
Proof.
  eexists. split_and!; [reflexivity|by eexists|reflexivity|reflexivity|reflexivity|].
  intros [| |[] k ok|]; try done; by destruct ok.
Qed.
