(* ===== verification/EdgeConf.v ===== *)
(** * The rules for the edge's configuration (go/tunnel/edgeconf)

An edge domain is a name with its aliases and its port forwards. The
management backend validates a domain against every stored one before it
stores it, and the edge routes by what is stored. Error texts are left out:
an error says which check failed. Ports and weights are the int32 values of
the messages. *)

From S2P Require Import Prelude GoStrings Protocol NetIP Access.
From stdpp Require Import options.
From Stdlib Require Import Ascii.
#[local] Open Scope l8_scope.

Inductive EdgeDomainKind := EDGE_DOMAIN_KIND_UNSPECIFIED | EDGE_DOMAIN_KIND_SITE | EDGE_DOMAIN_KIND_TUNNEL_BASE.
Inductive EdgeCertStatus :=
| EDGE_CERT_STATUS_UNSPECIFIED | EDGE_CERT_STATUS_VALID | EDGE_CERT_STATUS_EXPIRING
| EDGE_CERT_STATUS_EXPIRED | EDGE_CERT_STATUS_MISMATCH | EDGE_CERT_STATUS_MISSING.
Inductive EdgeProtocol := EDGE_PROTOCOL_UNSPECIFIED | EDGE_PROTOCOL_TLS | EDGE_PROTOCOL_HTTP | EDGE_PROTOCOL_TCP.
Inductive EdgeForwardMode :=
| EDGE_FORWARD_MODE_UNSPECIFIED | EDGE_FORWARD_MODE_TERMINATE | EDGE_FORWARD_MODE_PASSTHROUGH | EDGE_FORWARD_MODE_RELAY.
Inductive EdgeTargetKind :=
| EDGE_TARGET_KIND_UNSPECIFIED | EDGE_TARGET_KIND_TARGETS | EDGE_TARGET_KIND_DNS
| EDGE_TARGET_KIND_NODE_LOCAL | EDGE_TARGET_KIND_RELAYS.
Inductive EdgeLbAlgorithm :=
| EDGE_LB_ALGORITHM_UNSPECIFIED | EDGE_LB_ALGORITHM_ROUND_ROBIN | EDGE_LB_ALGORITHM_LEAST_CONN
| EDGE_LB_ALGORITHM_SOURCE_HASH | EDGE_LB_ALGORITHM_RANDOM.
Inductive EdgeHealthType :=
| EDGE_HEALTH_TYPE_UNSPECIFIED | EDGE_HEALTH_TYPE_NONE | EDGE_HEALTH_TYPE_TCP
| EDGE_HEALTH_TYPE_HTTP | EDGE_HEALTH_TYPE_HTTPS.
Inductive EdgeBackendScheme :=
| EDGE_BACKEND_SCHEME_UNSPECIFIED | EDGE_BACKEND_SCHEME_HTTPS | EDGE_BACKEND_SCHEME_HTTP.
#[export] Instance kind_eq_dec : EqDecision EdgeDomainKind. Proof. solve_decision. Defined.
#[export] Instance cert_eq_dec : EqDecision EdgeCertStatus. Proof. solve_decision. Defined.
#[export] Instance proto_eq_dec : EqDecision EdgeProtocol. Proof. solve_decision. Defined.
#[export] Instance mode_eq_dec : EqDecision EdgeForwardMode. Proof. solve_decision. Defined.
#[export] Instance target_kind_eq_dec : EqDecision EdgeTargetKind. Proof. solve_decision. Defined.
#[export] Instance lb_eq_dec : EqDecision EdgeLbAlgorithm. Proof. solve_decision. Defined.
#[export] Instance scheme_eq_dec : EqDecision EdgeBackendScheme. Proof. solve_decision. Defined.
#[export] Instance health_eq_dec : EqDecision EdgeHealthType. Proof. solve_decision. Defined.

Record EdgeTarget := mkTarget { THost : string; TPort : Z; TWeight : Z; TDisabled : bool }.
#[export] Instance target_eq_dec : EqDecision EdgeTarget. Proof. solve_decision. Defined.

Record EdgePortForward := mkForward {
  ForwardId : string;
  ListenPort : Z;
  ListenPortEnd : Z;
  FProtocol : EdgeProtocol;
  Mode : EdgeForwardMode;
  TargetKind : EdgeTargetKind;
  Targets : list (option EdgeTarget);   (* nil pointers included *)
  TargetDns : string;
  TargetPort : Z;
  BackendScheme : EdgeBackendScheme;
  SkipVerify : bool;
  ProxyProtocol : bool;
  Lb : EdgeLbAlgorithm;
  HealthType : EdgeHealthType;
  HealthPath : string;
  HealthInterval : Z;
  FEnabled : bool;
  Note : string;
}.
#[export] Instance forward_eq_dec : EqDecision EdgePortForward. Proof. solve_decision. Defined.

Record EdgeDomain := mkDomain {
  DomainId : string;
  Domain : string;
  Aliases : list string;
  Kind : EdgeDomainKind;
  Enabled : bool;
  DAllowIps : list string;
  DDenyIps : list string;
  CertStatus : EdgeCertStatus;
  PortForwards : list EdgePortForward;
}.
#[export] Instance eta_domain : Eta EdgeDomain := λ d,
  mkDomain (DomainId d) (Domain d) (Aliases d) (Kind d) (Enabled d) (DAllowIps d) (DDenyIps d) (CertStatus d) (PortForwards d).

(** ** Targets *)

Definition MaxWeight : Z := 100.

Inductive target_err := TargetEmpty | TargetHost | TargetPortRange | TargetWeight | TargetTwice | NoEnabledTarget
| TargetDNS | TargetNotBase | TargetKindRequired.

Definition Weight (t : EdgeTarget) : Z := if (TWeight t <? 1)%Z then 1 else TWeight t.

Definition Address (t : EdgeTarget) : string := JoinHostPort (THost t) (Itoa (TPort t)).

Definition CheckTarget (t : option EdgeTarget) : result target_err EdgeTarget :=
  match t with
  | None => Err TargetEmpty
  | Some t =>
      refuse! String.eqb (THost t) ""
              || ((str_mem " "%char (THost t) || str_mem "/"%char (THost t) || str_mem ":"%char (THost t))
                  && negb (is_IP (THost t)))
      with TargetHost ;;
      refuse! (TPort t <? 1)%Z || (65535 <? TPort t)%Z with TargetPortRange ;;
      refuse! (TWeight t <? 0)%Z || (MaxWeight <? TWeight t)%Z with TargetWeight ;;
      Ok t
  end.

(** ** Names *)

Section conf.
Context `{GoUnicode}.

Definition NormalizeName (s : string) : result name_err string :=
  match CutPrefix "*." (TrimSpace s) with
  | Some rest => match NormalizeDomain rest with Err e => Err e | Ok d => Ok ("*." +:+ d) end
  | None => NormalizeDomain (TrimSpace s)
  end.

Definition Names (d : EdgeDomain) : list string := Domain d :: Aliases d.

Inductive conf_err :=
| WildcardDomain | BadName (e : name_err) | BaseDomainMustBe | KindRequired | BadIPList
| ListedTwice | SecondBase | BelongsTo (other : string) | BadForward (i : nat) (e : forward_err)
| Overlap | OtherProtocol (other : string) | SharedTCP (other : string)
with forward_err :=
| ListenPortRange | RangeEnd | ProtocolRequired | TerminateNotTLS | NeedsCertificate
| RelayNotBase | ModeRequired | RangeNotTCP | BadTarget (e : target_err) | NeedsHealthPath | HealthIntervalRange.

(** The aliases are normalized one by one; one that is refused is left empty
and the rest as they were. *)
Fixpoint normalize_aliases (l : list string) : list string * result conf_err unit :=
  match l with
  | [] => ([], Ok tt)
  | a :: l =>
      match NormalizeName a with
      | Err e => ("" :: l, Err (BadName e))
      | Ok n => let '(l', r) := normalize_aliases l in (n :: l', r)
      end
  end.

Definition NormalizeNames (d : EdgeDomain) : EdgeDomain * result conf_err unit :=
  if HasPrefix "*." (TrimSpace (Domain d)) then (d, Err WildcardDomain)
  else match NormalizeName (Domain d) with
  | Err e => (d, Err (BadName e))
  | Ok n =>
      let d := d <| Domain := n |> in
      let '(l, r) := normalize_aliases (Aliases d) in (d <| Aliases := l |>, r)
  end.

Definition checkIPLists (d : EdgeDomain) : result conf_err unit :=
  if forallb (λ v, bool_decide (is_Some (ParsePrefix v))) (DAllowIps d ++ DDenyIps d) then Ok tt else Err BadIPList.

(** ** Port forwards *)

Definition checkTarget (pf : EdgePortForward) (base : bool) : result target_err unit :=
  match TargetKind pf with
  | EDGE_TARGET_KIND_TARGETS =>
      match foldM (λ '(enabled, seen) t,
                     match CheckTarget t with
                     | Err e => Err e
                     | Ok t =>
                         refuse! bool_decide (Address t ∈ (seen : gset string)) with TargetTwice ;;
                         Ok (if TDisabled t then enabled else enabled + 1, {[Address t]} ∪ seen)
                     end) (0, ∅) (Targets pf) with
      | Err e => Err e
      | Ok (enabled, _) => refuse! Nat.eqb enabled 0 with NoEnabledTarget ;; Ok tt
      end
  | EDGE_TARGET_KIND_DNS =>
      refuse! negb (is_ok (NormalizeDomain (TargetDns pf))) && negb (StrContains ".svc" (TargetDns pf)) with TargetDNS ;;
      refuse! (TargetPort pf <? 1)%Z || (65535 <? TargetPort pf)%Z with TargetPortRange ;; Ok tt
  | EDGE_TARGET_KIND_NODE_LOCAL =>
      refuse! (TargetPort pf <? 1)%Z || (65535 <? TargetPort pf)%Z with TargetPortRange ;; Ok tt
  | EDGE_TARGET_KIND_RELAYS => refuse! negb base with TargetNotBase ;; Ok tt
  | EDGE_TARGET_KIND_UNSPECIFIED => Err TargetKindRequired
  end.

Definition checkForward (d : EdgeDomain) (pf : EdgePortForward) : result forward_err unit :=
  let base := bool_decide (Kind d = EDGE_DOMAIN_KIND_TUNNEL_BASE) in
  refuse! (ListenPort pf <? 1)%Z || (65535 <? ListenPort pf)%Z with ListenPortRange ;;
  refuse! negb (ListenPortEnd pf =? 0)%Z && ((ListenPortEnd pf <=? ListenPort pf)%Z || (65535 <? ListenPortEnd pf)%Z)
  with RangeEnd ;;
  refuse! bool_decide (FProtocol pf = EDGE_PROTOCOL_UNSPECIFIED) with ProtocolRequired ;;
  match (match Mode pf with
         | EDGE_FORWARD_MODE_TERMINATE =>
             refuse! negb (bool_decide (FProtocol pf = EDGE_PROTOCOL_TLS)) with TerminateNotTLS ;;
             refuse! negb (bool_decide (CertStatus d = EDGE_CERT_STATUS_VALID))
                     && negb (bool_decide (CertStatus d = EDGE_CERT_STATUS_EXPIRING)) with NeedsCertificate ;;
             Ok tt
         | EDGE_FORWARD_MODE_PASSTHROUGH => Ok tt
         | EDGE_FORWARD_MODE_RELAY => refuse! negb base with RelayNotBase ;; Ok tt
         | EDGE_FORWARD_MODE_UNSPECIFIED => Err ModeRequired
         end) with
  | Err e => Err e
  | Ok _ =>
  refuse! negb (ListenPortEnd pf =? 0)%Z && negb (bool_decide (FProtocol pf = EDGE_PROTOCOL_TCP)) with RangeNotTCP ;;
  match checkTarget pf base with
  | Err e => Err (BadTarget e)
  | Ok _ =>
  refuse! (match HealthType pf with
           | EDGE_HEALTH_TYPE_HTTP | EDGE_HEALTH_TYPE_HTTPS => negb (HasPrefix "/" (HealthPath pf))
           | _ => false
           end) with NeedsHealthPath ;;
  refuse! (HealthInterval pf <? 0)%Z || (3600 <? HealthInterval pf)%Z with HealthIntervalRange ;;
  Ok tt
  end end.

(** The last port a forward listens on. *)
Definition last_port (a : EdgePortForward) : Z := if (ListenPortEnd a =? 0)%Z then ListenPort a else ListenPortEnd a.

Definition overlap (a b : EdgePortForward) : bool :=
  (ListenPort a <=? last_port b)%Z && (ListenPort b <=? last_port a)%Z.

(** [for i, a := range l { for _, b := range l[i+1:] { ... } }] *)
Fixpoint self_overlap (l : list EdgePortForward) : bool :=
  match l with
  | [] => false
  | a :: l => existsb (overlap a) l || self_overlap l
  end.

Definition pair_conflict (other : string) (a b : EdgePortForward) : result conf_err unit :=
  if negb (overlap a b) then Ok tt
  else if negb (bool_decide (FProtocol a = FProtocol b)) then Err (OtherProtocol other)
  else if bool_decide (FProtocol a = EDGE_PROTOCOL_TCP) then Err (SharedTCP other)
  else Ok tt.

Definition checkPortConflicts (d : EdgeDomain) (others : list EdgeDomain) : result conf_err unit :=
  refuse! self_overlap (PortForwards d) with Overlap ;;
  foldM (λ _ o,
    if String.eqb (DomainId o) (DomainId d) then Ok tt
    else foldM (λ _ a, foldM (λ _ b, pair_conflict (Domain o) a b) tt (PortForwards o)) tt (PortForwards d))
    tt others.

Definition checkOther (d o : EdgeDomain) : result conf_err unit :=
  if String.eqb (DomainId o) (DomainId d) then Ok tt
  else
    refuse! bool_decide (Kind d = EDGE_DOMAIN_KIND_TUNNEL_BASE) && bool_decide (Kind o = Kind d) with SecondBase ;;
    refuse! existsb (λ n, bool_decide (ToLower n ∈ Names d)) (Names o) with BelongsTo (Domain o) ;;
    Ok tt.

Fixpoint check_forwards (d : EdgeDomain) (i : nat) (l : list EdgePortForward) : result conf_err unit :=
  match l with
  | [] => Ok tt
  | pf :: l => match checkForward d pf with Err e => Err (BadForward i e) | Ok _ => check_forwards d (i + 1) l end
  end.

Definition ValidateDomain (d : EdgeDomain) (others : list EdgeDomain) (baseDomain : string)
    : EdgeDomain * result conf_err unit :=
  let '(d, r) := NormalizeNames d in
  match r with
  | Err e => (d, Err e)
  | Ok _ =>
  (d,
   match (match Kind d with
          | EDGE_DOMAIN_KIND_SITE => Ok tt
          | EDGE_DOMAIN_KIND_TUNNEL_BASE => refuse! negb (String.eqb (Domain d) baseDomain) with BaseDomainMustBe ;; Ok tt
          | EDGE_DOMAIN_KIND_UNSPECIFIED => Err KindRequired
          end) with
   | Err e => Err e
   | Ok _ =>
   match checkIPLists d with
   | Err e => Err e
   | Ok _ =>
   refuse! negb (bool_decide (NoDup (Names d))) with ListedTwice ;;
   match foldM (λ _ o, checkOther d o) tt others with
   | Err e => Err e
   | Ok _ =>
   match check_forwards d 1 (PortForwards d) with
   | Err e => Err e
   | Ok _ => checkPortConflicts d others
   end end end end)
  end.
End conf.
