(* ===== verification/EdgeConfSpec.v ===== *)
(** * The edge's configuration: theorems

What a validated domain is, and that a store changed only through validation
never holds two domains that conflict. *)

From S2P Require Import Prelude GoStrings Protocol NetIP Access EdgeConf.
From stdpp Require Import options.
#[local] Open Scope l8_scope.

(** The forward listens on port [p]. *)
Definition listens (a : EdgePortForward) (p : Z) : Prop := (ListenPort a ≤ p ≤ last_port a)%Z.

Lemma overlap_spec a b :
  (ListenPort a ≤ last_port a)%Z → (ListenPort b ≤ last_port b)%Z →
  overlap a b = true ↔ ∃ p, listens a p ∧ listens b p.
Proof.
  intros Ha Hb. unfold overlap, listens. rewrite andb_true_iff, !Z.leb_le. split.
  - intros [? ?]. exists (Z.max (ListenPort a) (ListenPort b)). lia.
  - intros (p & ? & ?). lia.
Qed.

Section conf.
Context `{GoUnicode}.

(** ** Names *)

Lemma NormalizeName_shape s n :
  NormalizeName s = Ok n → valid_host n ∨ ∃ d, n = "*." +:+ d ∧ valid_host d.
Proof.
  unfold NormalizeName. destruct (CutPrefix "*." _) as [rest|]; [|intros Hn; left; eauto with l8].
  destruct (NormalizeDomain rest) as [d|] eqn:Hd; [|done]. intros [= <-]. right. exists d. eauto with l8.
Qed.

Lemma normal_name_lower s n : NormalizeName s = Ok n → ToLower n = n.
Proof.
  intros [Hv|(d & -> & Hv)]%NormalizeName_shape; [by apply valid_host_lower|].
  apply ToLower_id. rewrite str_forall_app. apply andb_true_iff. split; [done|].
  eapply str_forall_impl; [|apply valid_host_chars, Hv]. intros c; byte_cases c.
Qed.

(** Every name is in its normal form. *)
Definition normal_names (d : EdgeDomain) : Prop := ∀ n, n ∈ Names d → ∃ s, NormalizeName s = Ok n.

Lemma normalize_aliases_ok l l' :
  normalize_aliases l = (l', Ok tt) → ∀ n, n ∈ l' → ∃ s, NormalizeName s = Ok n.
Proof.
  revert l'. induction l as [|a l IH]; intros l'; cbn; [by intros [= <-] n ?%elem_of_nil|].
  destruct (NormalizeName a) as [n0|] eqn:Hn; [|done]. destruct (normalize_aliases l) as [l1 r].
  intros [= <- ->] n [->|Hin]%elem_of_cons; [by exists a|by eapply IH].
Qed.

Lemma NormalizeNames_ok d d' :
  NormalizeNames d = (d', Ok tt) →
  normal_names d' ∧ DomainId d' = DomainId d ∧ PortForwards d' = PortForwards d ∧ Kind d' = Kind d.
Proof.
  unfold NormalizeNames. destruct (HasPrefix _ _); [done|]. destruct (NormalizeName (Domain d)) as [n|] eqn:Hn; [|done].
  cbn [Aliases]. destruct (normalize_aliases _) as [l r] eqn:Hl. intros [= <- ->]. split; [|done].
  intros m [->|Hm]%elem_of_cons; [by exists (Domain d)|by eapply normalize_aliases_ok].
Qed.

(** ** Checks *)

Lemma foldM_unit {E A} (f : A → result E unit) l :
  foldM (λ _ x, f x) tt l = Ok tt ↔ ∀ x, x ∈ l → f x = Ok tt.
Proof.
  induction l as [|x l IH]; cbn; [split; [by intros _ y ?%elem_of_nil|done]|].
  split.
  - destruct (f x) as [[]|] eqn:Hx; [|done]. intros Hl y [->|Hy]%elem_of_cons; [done|by apply IH].
  - intros Hall. rewrite (Hall x) by left. apply IH. intros y Hy. apply Hall. by right.
Qed.

Definition forward_ok (pf : EdgePortForward) : Prop :=
  (1 ≤ ListenPort pf)%Z ∧ (ListenPort pf ≤ last_port pf)%Z ∧ (last_port pf ≤ 65535)%Z ∧
  FProtocol pf ≠ EDGE_PROTOCOL_UNSPECIFIED ∧ (ListenPortEnd pf ≠ 0%Z → FProtocol pf = EDGE_PROTOCOL_TCP) ∧
  (Mode pf = EDGE_FORWARD_MODE_TERMINATE → FProtocol pf = EDGE_PROTOCOL_TLS).

Lemma checkForward_ok d pf : checkForward d pf = Ok tt → forward_ok pf ∧
  (Mode pf = EDGE_FORWARD_MODE_RELAY ∨ TargetKind pf = EDGE_TARGET_KIND_RELAYS → Kind d = EDGE_DOMAIN_KIND_TUNNEL_BASE).
Proof.
  unfold checkForward. destruct (_ || _) eqn:H1; [done|]. destruct (negb (ListenPortEnd pf =? 0)%Z && _) eqn:H2; [done|].
  destruct (bool_decide (FProtocol pf = _)) eqn:H3; [done|].
  destruct (match Mode pf with EDGE_FORWARD_MODE_UNSPECIFIED => _ | _ => _ end) as [[]|] eqn:Hm; [|done].
  destruct (negb (ListenPortEnd pf =? 0)%Z && negb (bool_decide (FProtocol pf = EDGE_PROTOCOL_TCP))) eqn:H4; [done|].
  destruct (checkTarget pf (bool_decide (Kind d = EDGE_DOMAIN_KIND_TUNNEL_BASE))) as [[]|e] eqn:Ht; [|by intros ?].
  intros _. bool_facts.
  assert (ListenPort pf ≤ last_port pf ∧ last_port pf ≤ 65535)%Z.
  { unfold last_port. destruct (Z.eqb_spec (ListenPortEnd pf) 0); [lia|].
    cbn [negb andb] in H2. bool_facts. lia. }
  split; [split_and!; try lia; try done|].
  - intros He. rewrite (proj2 (Z.eqb_neq _ _) He) in H4. cbn in H4. by bool_facts.
  - intros Hmode. rewrite Hmode in Hm. destruct (bool_decide (FProtocol pf = EDGE_PROTOCOL_TLS)) eqn:Hp; [by bool_facts|done].
  - intros [Hmode|Hk].
    + rewrite Hmode in Hm. destruct (bool_decide (Kind d = _)) eqn:Hb; [by bool_facts|done].
    + unfold checkTarget in Ht. rewrite Hk in Ht. destruct (bool_decide (Kind d = _)) eqn:Hb; [by bool_facts|done].
Qed.

Lemma check_forwards_ok d i l : check_forwards d i l = Ok tt → ∀ pf, pf ∈ l → checkForward d pf = Ok tt.
Proof.
  revert i. induction l as [|a l IH]; intros i; cbn; [by intros _ pf ?%elem_of_nil|].
  destruct (checkForward d a) as [[]|] eqn:Ha; [|done]. intros Hl pf [->|Hin]%elem_of_cons; [done|by eapply IH].
Qed.

(** No two forwards of the list listen on one port. *)
Definition ports_once (l : list EdgePortForward) : Prop :=
  ∀ i j a b p, l !! i = Some a → l !! j = Some b → listens a p → listens b p → i = j.

Lemma self_overlap_ok l :
  (∀ a, a ∈ l → (ListenPort a ≤ last_port a)%Z) → self_overlap l = false → ports_once l.
Proof.
  induction l as [|a0 l IH]; intros Hl Hs; [by intros i|]. cbn in Hs. apply orb_false_iff in Hs as [Hs1 Hs2].
  assert (∀ j b p, l !! j = Some b → listens a0 p → listens b p → False) as Hhead.
  { intros j b p Hj Ha Hb. apply not_true_iff_false in Hs1. apply Hs1. apply existsb_exists. exists b.
    split; [apply list_elem_of_In; by eapply list_elem_of_lookup_2|].
    apply overlap_spec; [apply Hl; left|apply Hl; right; by eapply list_elem_of_lookup_2|by exists p]. }
  intros [|i] [|j] a b p; cbn; intros Hi Hj Ha Hb; simplify_eq; [done|exfalso; eauto..|].
  f_equal. eapply IH; eauto. intros c Hc. apply Hl. by right.
Qed.

(** The two domains can be stored side by side. *)
Definition compatible (d o : EdgeDomain) : Prop :=
  (∀ n, n ∈ Names d → n ∉ Names o) ∧
  ¬ (Kind d = EDGE_DOMAIN_KIND_TUNNEL_BASE ∧ Kind o = EDGE_DOMAIN_KIND_TUNNEL_BASE) ∧
  (∀ a b p, a ∈ PortForwards d → b ∈ PortForwards o → listens a p → listens b p →
     FProtocol a = FProtocol b ∧ FProtocol a ≠ EDGE_PROTOCOL_TCP).

Record domain_ok (baseDomain : string) (d : EdgeDomain) : Prop := {
  dk_names : normal_names d;
  dk_nodup : NoDup (Names d);
  dk_kind : Kind d ≠ EDGE_DOMAIN_KIND_UNSPECIFIED ∧ (Kind d = EDGE_DOMAIN_KIND_TUNNEL_BASE → Domain d = baseDomain);
  dk_forwards pf : pf ∈ PortForwards d → forward_ok pf ∧
    (Mode pf = EDGE_FORWARD_MODE_RELAY ∨ TargetKind pf = EDGE_TARGET_KIND_RELAYS → Kind d = EDGE_DOMAIN_KIND_TUNNEL_BASE);
  dk_ports : ports_once (PortForwards d);
}.

Lemma pair_conflict_ok other a b :
  forward_ok a → forward_ok b → pair_conflict other a b = Ok tt →
  ∀ p, listens a p → listens b p → FProtocol a = FProtocol b ∧ FProtocol a ≠ EDGE_PROTOCOL_TCP.
Proof.
  intros (? & ? & _) (? & ? & _). unfold pair_conflict. intros Hc p Ha Hb.
  assert (overlap a b = true) as Ho by (apply overlap_spec; [done..|by exists p]). rewrite Ho in Hc. cbn [negb] in Hc.
  destruct (bool_decide (FProtocol a = FProtocol b)) eqn:Hp; cbn [negb] in Hc; [|done].
  destruct (bool_decide (FProtocol a = EDGE_PROTOCOL_TCP)) eqn:Ht; [done|]. by bool_facts.
Qed.

(** What validation establishes. *)
Lemma ValidateDomain_ok d others base d' :
  ValidateDomain d others base = (d', Ok tt) →
  DomainId d' = DomainId d ∧ domain_ok base d' ∧
  ∀ o, o ∈ others → DomainId o ≠ DomainId d → domain_ok base o → compatible d' o.
Proof.
  unfold ValidateDomain. destruct (NormalizeNames d) as [d1 [[]|]] eqn:Hn; [|done]. intros [= -> Hv].
  destruct (NormalizeNames_ok _ _ Hn) as (Hnames & Hid & _ & _). rewrite <-Hid. split; [done|].
  destruct (match Kind d' with EDGE_DOMAIN_KIND_UNSPECIFIED => _ | _ => _ end) as [[]|] eqn:Hk; [|done].
  destruct (checkIPLists d') as [[]|]; [|done]. destruct (bool_decide (NoDup (Names d'))) eqn:Hnd; cbn [negb] in Hv; [|done].
  destruct (foldM (λ _ o, checkOther d' o) tt others) as [[]|] eqn:Hoth; [|done].
  destruct (check_forwards d' 1 _) as [[]|] eqn:Hf; [|done]. unfold checkPortConflicts in Hv.
  destruct (self_overlap (PortForwards d')) eqn:Hso; [done|]. bool_facts.
  rewrite foldM_unit in Hoth, Hv. pose proof (check_forwards_ok _ _ _ Hf) as Hfw.
  assert (∀ pf, pf ∈ PortForwards d' → forward_ok pf) as Hfok by (intros pf Hin; by apply (checkForward_ok d'), Hfw).
  split.
  - split; [done|done| |intros pf Hin; by apply checkForward_ok, Hfw|].
    + destruct (Kind d'); [done|by split|]. split; [done|]. intros _.
      destruct (String.eqb_spec (Domain d') base); [done|by cbn in Hk].
    + apply self_overlap_ok; [intros a Ha; by apply Hfok|done].
  - intros o Ho Hne Hok. specialize (Hoth o Ho). specialize (Hv o Ho). unfold checkOther in Hoth.
    rewrite (proj2 (String.eqb_neq _ _) Hne) in Hoth, Hv. rewrite foldM_unit in Hv.
    destruct (_ && _) eqn:Hb; [done|]. destruct (existsb _ _) eqn:He; [done|]. split_and!.
    + intros n Hn1 Hn2. apply not_true_iff_false in He. apply He. apply existsb_exists. exists n.
      split; [by apply list_elem_of_In|]. apply bool_decide_eq_true_2.
      destruct (dk_names _ _ Hok n Hn2) as [s Hs]. by rewrite (normal_name_lower s).
    + intros [Hd Ho']. rewrite Hd, Ho' in Hb. done.
    + intros a b p Ha Hbin. specialize (Hv a Ha). rewrite foldM_unit in Hv.
      apply (pair_conflict_ok (Domain o)); [by apply Hfok|by apply (dk_forwards _ _ Hok)|by apply Hv].
Qed.

(** A forward that terminates TLS is one of a domain with a usable certificate. *)
Lemma ValidateDomain_terminate d others base d' pf :
  ValidateDomain d others base = (d', Ok tt) → pf ∈ PortForwards d' → Mode pf = EDGE_FORWARD_MODE_TERMINATE →
  CertStatus d' = EDGE_CERT_STATUS_VALID ∨ CertStatus d' = EDGE_CERT_STATUS_EXPIRING.
Proof.
  unfold ValidateDomain. destruct (NormalizeNames d) as [d1 [[]|]]; [|done]. intros [= -> Hv] Hin Hm.
  destruct (match Kind d' with EDGE_DOMAIN_KIND_UNSPECIFIED => _ | _ => _ end) as [[]|]; [|done].
  destruct (checkIPLists d') as [[]|]; [|done]. case_if_in Hv; [done|]. destruct (foldM _ _ _) as [[]|]; [|done].
  destruct (check_forwards d' 1 _) as [[]|] eqn:Hf; [|done]. apply (check_forwards_ok _ _ _ Hf) in Hin.
  unfold checkForward in Hin. rewrite Hm in Hin. do 3 (case_if_in Hin; [done|]).
  destruct (bool_decide (FProtocol pf = EDGE_PROTOCOL_TLS)); [|done]. cbn [negb] in Hin.
  destruct (bool_decide (CertStatus d' = EDGE_CERT_STATUS_VALID)) eqn:H1; [left; by bool_facts|].
  destruct (bool_decide (CertStatus d' = EDGE_CERT_STATUS_EXPIRING)) eqn:H2; [right; by bool_facts|]. done.
Qed.

(** ** The store of domains *)

Context `{MapRange}.

(** A domain is stored (new, or replacing the one with its ID) after it was
validated against all stored domains, or removed. *)
Inductive store_step (base : string) (m : gmap string EdgeDomain) : gmap string EdgeDomain → Prop :=
| store_put d d' : ValidateDomain d (range m).*2 base = (d', Ok tt) → store_step base m (<[DomainId d' := d']> m)
| store_delete id : store_step base m (delete id m).

Record consistent (base : string) (m : gmap string EdgeDomain) : Prop := {
  co_domain id d : m !! id = Some d → DomainId d = id ∧ domain_ok base d;
  co_pair id1 id2 d1 d2 : m !! id1 = Some d1 → m !! id2 = Some d2 → id1 ≠ id2 → compatible d1 d2;
}.

Lemma compatible_sym d o : compatible d o → compatible o d.
Proof.
  intros (Hn & Hb & Hp). split_and!; [intros n H1 H2; by apply (Hn n)|tauto|].
  intros a b p Ha Hb' Hla Hlb. destruct (Hp b a p) as [Heq Ht]; [done..|]. by rewrite <-Heq.
Qed.

Lemma consistent_put base m d others d' :
  consistent base m → (∀ id o, m !! id = Some o → o ∈ others) → ValidateDomain d others base = (d', Ok tt) →
  consistent base (<[DomainId d' := d']> m).
Proof.
  intros Hc Hall Hv. destruct (ValidateDomain_ok _ _ _ _ Hv) as (Hid & Hok & Hcomp).
  assert (∀ id o, m !! id = Some o → DomainId d' ≠ id → compatible d' o) as Hnew.
  { intros id o Ho Hne. destruct (co_domain _ _ Hc id o Ho) as [Hido Hoko]. apply Hcomp; [by eapply Hall|congruence|done]. }
  split.
  - intros id o. rewrite lookup_insert_Some. intros [[<- <-]|[_ Ho]]; [done|by apply (co_domain _ _ Hc)].
  - intros id1 id2 d1 d2. rewrite !lookup_insert_Some. intros [[<- <-]|[Hne1 Hd1]] [[<- <-]|[Hne2 Hd2]] Hne.
    + done.
    + by eapply Hnew.
    + apply compatible_sym. by eapply Hnew.
    + by eapply (co_pair _ _ Hc).
Qed.

Lemma consistent_delete base m id : consistent base m → consistent base (delete id m).
Proof.
  intros Hc. split.
  - intros id' d [_ Hd]%lookup_delete_Some. by apply (co_domain _ _ Hc).
  - intros id1 id2 d1 d2 [_ Hd1]%lookup_delete_Some [_ Hd2]%lookup_delete_Some. by eapply (co_pair _ _ Hc).
Qed.

Lemma store_step_consistent base m m' : store_step base m m' → consistent base m → consistent base m'.
Proof.
  intros [d d' Hv|id] Hc; [|by apply consistent_delete]. apply (consistent_put base m d (range m).*2); [done| |done].
  intros id o Ho. apply list_elem_of_fmap. exists (id, o). by rewrite elem_of_range.
Qed.

Lemma reachable_consistent base m : rtc (store_step base) ∅ m → consistent base m.
Proof.
  intros Hr. assert (consistent base ∅) as Hc by (by split; intros *; rewrite lookup_empty).
  revert Hc. induction Hr as [|m1 m2 m3 Hs _ IH]; [done|]. intros Hc. by apply IH, (store_step_consistent _ m1).
Qed.

(** What consistency means for names and ports. *)
Lemma consistent_facts base m :
  consistent base m →
  (∀ id1 id2 d1 d2 n, m !! id1 = Some d1 → m !! id2 = Some d2 → n ∈ Names d1 → n ∈ Names d2 → id1 = id2) ∧
  (∀ id1 id2 d1 d2, m !! id1 = Some d1 → m !! id2 = Some d2 →
     Kind d1 = EDGE_DOMAIN_KIND_TUNNEL_BASE → Kind d2 = EDGE_DOMAIN_KIND_TUNNEL_BASE → id1 = id2) ∧
  (∀ id1 id2 d1 d2 i j a b p, m !! id1 = Some d1 → m !! id2 = Some d2 →
     PortForwards d1 !! i = Some a → PortForwards d2 !! j = Some b → listens a p → listens b p →
     (1 ≤ p ≤ 65535)%Z ∧ FProtocol a = FProtocol b ∧
     (id1 = id2 ∧ i = j ∨ id1 ≠ id2 ∧ (FProtocol a = EDGE_PROTOCOL_TLS ∨ FProtocol a = EDGE_PROTOCOL_HTTP))).
Proof.
  intros Hc. split_and!.
  - intros id1 id2 d1 d2 n H1 H2 Hn1 Hn2. destruct (decide (id1 = id2)) as [|Hne]; [done|exfalso].
    by destruct (co_pair _ _ Hc _ _ _ _ H1 H2 Hne) as [Hn _]; apply (Hn n).
  - intros id1 id2 d1 d2 H1 H2 Hk1 Hk2. destruct (decide (id1 = id2)) as [|Hne]; [done|exfalso].
    by destruct (co_pair _ _ Hc _ _ _ _ H1 H2 Hne) as (_ & Hb & _); apply Hb.
  - intros id1 id2 d1 d2 i j a b p H1 H2 Ha Hb Hla Hlb.
    destruct (co_domain _ _ Hc _ _ H1) as [_ Hok].
    destruct (dk_forwards _ _ Hok a (list_elem_of_lookup_2 _ _ _ Ha)) as [(? & ? & ? & Hproto & _) _].
    split; [unfold listens in Hla; lia|]. destruct (decide (id1 = id2)) as [->|Hne].
    + simplify_eq. assert (i = j) as -> by (by eapply (dk_ports _ _ Hok)). simplify_eq. auto.
    + destruct (co_pair _ _ Hc _ _ _ _ H1 H2 Hne) as (_ & _ & Hp).
      destruct (Hp a b p) as [Heq Ht]; [by eapply list_elem_of_lookup_2..|done|done|]. split; [done|]. right.
      split; [done|]. destruct (FProtocol a); tauto.
Qed.

(** the stored edge configuration never has a conflict. Over every
sequence of validated changes and removals: a name belongs to one domain, at
most one domain is the tunnel base, every forward listens on valid ports, no
domain listens twice on a port, two domains share a port only if both route by
name there with the same protocol, so a TCP port belongs to one forward. *)
Theorem edge_store_consistent base m :
  rtc (store_step base) ∅ m →
  (∀ id1 id2 d1 d2 n, m !! id1 = Some d1 → m !! id2 = Some d2 → n ∈ Names d1 → n ∈ Names d2 → id1 = id2) ∧
  (∀ id1 id2 d1 d2, m !! id1 = Some d1 → m !! id2 = Some d2 →
     Kind d1 = EDGE_DOMAIN_KIND_TUNNEL_BASE → Kind d2 = EDGE_DOMAIN_KIND_TUNNEL_BASE → id1 = id2) ∧
  (∀ id1 id2 d1 d2 i j a b p, m !! id1 = Some d1 → m !! id2 = Some d2 →
     PortForwards d1 !! i = Some a → PortForwards d2 !! j = Some b → listens a p → listens b p →
     (1 ≤ p ≤ 65535)%Z ∧ FProtocol a = FProtocol b ∧
     (id1 = id2 ∧ i = j ∨ id1 ≠ id2 ∧ (FProtocol a = EDGE_PROTOCOL_TLS ∨ FProtocol a = EDGE_PROTOCOL_HTTP))).
Proof. intros Hr. by apply (consistent_facts base), reachable_consistent. Qed.
End conf.

(** ** A sample store *)

Module ConfSample.
Definition fwd (p : Z) (proto : EdgeProtocol) : EdgePortForward :=
  mkForward "" p 0 proto EDGE_FORWARD_MODE_PASSTHROUGH EDGE_TARGET_KIND_NODE_LOCAL [] "" 8443 EDGE_BACKEND_SCHEME_HTTPS false false
    EDGE_LB_ALGORITHM_ROUND_ROBIN EDGE_HEALTH_TYPE_NONE "" 0 true "".
Definition site (id name : string) (l : list EdgePortForward) : EdgeDomain :=
  mkDomain id name [] EDGE_DOMAIN_KIND_SITE true [] [] EDGE_CERT_STATUS_MISSING l.
Definition a : EdgeDomain := site "a" "Shop.example" [fwd 443 EDGE_PROTOCOL_TLS].
Definition a' : EdgeDomain := site "a" "shop.example" [fwd 443 EDGE_PROTOCOL_TLS].
Definition b : EdgeDomain := site "b" "db.example" [fwd 443 EDGE_PROTOCOL_TLS; fwd 5432 EDGE_PROTOCOL_TCP].
Definition m0 : gmap string EdgeDomain := ∅.
Definition m1 : gmap string EdgeDomain := <["a" := a']> m0.
Definition m : gmap string EdgeDomain := <["b" := b]> m1.
End ConfSample.
Import ConfSample.

Lemma edge_store_consistent_witness :
  ValidateDomain (site "c" "x.example" [fwd 5432 EDGE_PROTOCOL_TCP]) (range m).*2 "t.example"
    = (site "c" "x.example" [fwd 5432 EDGE_PROTOCOL_TCP], Err (SharedTCP "db.example")) ∧
  FProtocol (fwd 443 EDGE_PROTOCOL_TLS) = FProtocol (fwd 443 EDGE_PROTOCOL_TLS).
Proof.
  split; [vm_compute; reflexivity|].
  assert (rtc (store_step "t.example") ∅ m) as Hr.
  { apply (rtc_l _ _ m1); [refine (store_put "t.example" m0 a a' _); vm_compute; reflexivity|].
    apply rtc_once. refine (store_put "t.example" m1 b b _). vm_compute. reflexivity. }
  refine (proj1 (proj2 (proj2 (proj2 (edge_store_consistent "t.example" m Hr)) "a" "b" a' b 0 0 _ _ 443%Z _ _ _ _ _ _)));
    try (vm_compute; reflexivity); unfold listens; cbn; lia.
Defined.
