(* ===== verification/EdgePool.v ===== *)
(** * The edge's load balancing (go/tunnel/edge: pool.go, health.go)

A pool holds the backends of one port forward. Its members are shared by
pointer between the pool's list and the connections to them, so the model has
a heap of members and the list holds locations. The network is a parameter:
which dials and health checks succeed, what DNS answers, and which random
indices [rand.IntN] returns. [now] is the clock reading of a call. *)

From S2P Require Import Prelude GoStrings NetIP EdgeConf.
From stdpp Require Import options.
From Stdlib Require Import Ascii.
#[local] Open Scope l8_scope.
#[local] Open Scope Z_scope.

Definition unhealthyAfter : Z := 3.
Definition healthyAfter : Z := 2.
Definition defaultHealthEvery : Z := 10 * second.

Definition mid := positive.

Record member := mkMember {
  addr : string;
  mhost : string;
  weight : Z;
  disabled : bool;
  healthy : bool;
  active : Z;
  fails : Z;
  passes : Z;
  lastErr : string;
  lastCheck : Z;
  current : Z;   (* smooth weighted round robin *)
}.
#[export] Instance eta_member : Eta member := λ m,
  mkMember (addr m) (mhost m) (weight m) (disabled m) (healthy m) (active m) (fails m) (passes m)
    (lastErr m) (lastCheck m) (current m).

Record pool := mkPool {
  id : string;
  fwd : EdgePortForward;
  nodeIP : string;
  mheap : gmap mid member;
  members : list mid;
  done : bool;
}.
#[export] Instance eta_pool : Eta pool := λ p,
  mkPool (id p) (fwd p) (nodeIP p) (mheap p) (members p) (done p).

(** Writes through a member's pointer. *)
Definition update (i : mid) (f : member → member) (p : pool) : pool := p <| mheap := alter f i (mheap p) |>.

(** ** Members *)

(** The member with address [a] in the old list; of several, the last. *)
Definition kept (heap : gmap mid member) (old : list mid) (a : string) : option mid :=
  foldl (λ found i, match heap !! i with
                    | Some m => if String.eqb (addr m) a then Some i else found
                    | None => found
                    end) None old.

Definition add_member (old : list mid) (host : string) (port w : Z) (dis : bool) (acc : gmap mid member * list mid)
    : gmap mid member * list mid :=
  let '(heap, out) := acc in
  let a := JoinHostPort host (Itoa port) in
  match kept heap old a with
  | Some i => (alter (λ m, m <| weight := w |> <| disabled := dis |>) i heap, out ++ [i])
  | None =>
      let i := fresh (dom heap) in
      (<[i := mkMember a host w dis true 0 0 0 "" zeroTime 0]> heap, out ++ [i])
  end.

(** [LookupHost] is [net.LookupHost]. The targets are validated when stored
([EdgeConf.CheckTarget] refuses a nil one, which the loop would dereference). *)
Definition resolveMembers (LookupHost : string → option (list string)) (old : list mid) (p : pool) : pool :=
  match TargetKind (fwd p) with
  | EDGE_TARGET_KIND_TARGETS =>
      let '(heap, out) := foldl (λ acc t, match t with
                                          | Some t => add_member old (THost t) (TPort t) (Weight t) (TDisabled t) acc
                                          | None => acc
                                          end) (mheap p, []) (Targets (fwd p)) in
      p <| mheap := heap |> <| members := out |>
  | EDGE_TARGET_KIND_DNS =>
      match LookupHost (TargetDns (fwd p)) with
      | None => p <| members := old |>
      | Some ips =>
          let '(heap, out) := foldl (λ acc ip, add_member old ip (TargetPort (fwd p)) 1 false acc) (mheap p, []) ips in
          p <| mheap := heap |> <| members := out |>
      end
  | EDGE_TARGET_KIND_NODE_LOCAL =>
      let '(heap, out) := add_member old (nodeIP p) (TargetPort (fwd p)) 1 false (mheap p, []) in
      p <| mheap := heap |> <| members := out |>
  | _ => p <| members := [] |>
  end.

Definition newPool (LookupHost : string → option (list string)) (i : string) (f : EdgePortForward) (node : string) : pool :=
  let p := mkPool i f node ∅ [] false in
  if bool_decide (TargetKind f = EDGE_TARGET_KIND_RELAYS) then p else resolveMembers LookupHost [] p.

Definition stop (p : pool) : pool := p <| done := true |>.

(** ** Choosing a member *)

(** FNV-1a, 64 bits. *)
Definition fnv64a (bytes : list ascii) : Z :=
  foldl (λ h c, uint64 (Z.lxor h (Z.of_N (code c)) * 1099511628211)) 14695981039346656037 bytes.

(** [client.AsSlice()]: the bytes of an address, most significant first. *)
Definition AsSlice (a : Addr) : list ascii :=
  match a with AddrZero => [] | V4 x => be_bytes 4 x | V6 x _ => be_bytes 16 x end.

Definition score (client : Addr) (m : member) : Z :=
  uint64 (fnv64a (AsSlice client ++ String.list_ascii_of_string (addr m)) / 2 ^ 20 * uint64 (weight m)).

(** What the choice reads of a member. *)
Definition at_ (p : pool) (i : mid) : member := default (mkMember "" "" 0 true false 0 0 0 "" zeroTime 0) (mheap p !! i).

Definition eligible (tried : gset mid) (p : pool) (i : mid) : bool :=
  negb (disabled (at_ p i)) && healthy (at_ p i) && negb (bool_decide (i ∈ tried)).
Definition candidates (tried : gset mid) (p : pool) : list mid := List.filter (eligible tried p) (members p).

(** [best := l[0]; for m in l[1:] { if better(m, best) { best = m } }] *)
Definition choose {A} (better : A → A → bool) (l : list A) : option A :=
  match l with
  | [] => None
  | a :: l => Some (foldl (λ best m, if better m best then m else best) a l)
  end.

Definition fewer (p : pool) (i best : mid) : bool :=
  int64 (active (at_ p i) * weight (at_ p best)) <? int64 (active (at_ p best) * weight (at_ p i)).

Definition scores_more (p : pool) (client : Addr) (i best : mid) : bool :=
  score client (at_ p best) <? score client (at_ p i).

(** nginx's smooth weighted round robin: one turn of the loop, and the whole. *)
Definition rr_turn (acc : pool * Z * option mid) (i : mid) : pool * Z * option mid :=
  let '(p, total, best) := acc in
  let p := update i (λ m, m <| current := current m + weight m |>) p in
  (p, total + weight (at_ p i),
   match best with
   | None => Some i
   | Some b => if current (at_ p b) <? current (at_ p i) then Some i else best
   end).

Definition smoothRoundRobin (cands : list mid) (p : pool) : pool * option mid :=
  let '(p, total, best) := foldl rr_turn (p, 0, None) cands in
  match best with
  | None => (p, None)
  | Some b => (update b (λ m, m <| current := current m - total |>) p, Some b)
  end.

(** [ra] and [rb] are the two random numbers; [rand.IntN(n)] is below [n]. *)
Definition pick (client : Addr) (tried : gset mid) (ra rb : nat) (p : pool) : pool * option mid :=
  let cands := candidates tried p in
  match cands with
  | [] => (p, None)
  | c0 :: _ =>
      match Lb (fwd p) with
      | EDGE_LB_ALGORITHM_LEAST_CONN => (p, choose (fewer p) cands)
      | EDGE_LB_ALGORITHM_SOURCE_HASH => (p, choose (scores_more p client) cands)
      | EDGE_LB_ALGORITHM_RANDOM =>
          let a := nth (ra mod length cands) cands c0 in
          let b := nth (rb mod length cands) cands c0 in
          (p, Some (if active (at_ p b) <? active (at_ p a) then b else a))
      | _ => smoothRoundRobin cands p
      end
  end.

(** ** Health *)

Definition failed (why : string) (now : Z) (m : member) : member :=
  let m := m <| fails := fails m + 1 |> <| passes := 0 |> <| lastErr := why |> <| lastCheck := now |> in
  if unhealthyAfter <=? fails m then m <| healthy := false |> else m.

Definition passed (now : Z) (m : member) : member :=
  let m := m <| passes := passes m + 1 |> <| lastCheck := now |> in
  if (healthyAfter <=? passes m) || healthy m then m <| fails := 0 |> <| lastErr := "" |> <| healthy := true |> else m.

(** [check] is the outcome of a health check of an address. *)
Definition checkAll (check : string → option string) (now : Z) (p : pool) : pool :=
  match HealthType (fwd p) with
  | EDGE_HEALTH_TYPE_UNSPECIFIED | EDGE_HEALTH_TYPE_NONE =>
      foldl (λ p i, if negb (healthy (at_ p i)) && (defaultHealthEvery <? now - lastCheck (at_ p i))
                    then update i (passed now) p else p) p (members p)
  | _ =>
      foldl (λ p i, if disabled (at_ p i) then p
                    else match check (addr (at_ p i)) with
                         | Some why => update i (failed why now) p
                         | None => update i (passed now) p
                         end) p (members p)
  end.

(** A DNS refresh. *)
Definition refresh (LookupHost : string → option (list string)) (p : pool) : pool :=
  if bool_decide (TargetKind (fwd p) = EDGE_TARGET_KIND_DNS) then resolveMembers LookupHost (members p) p else p.

(** ** Dialing *)

(** [dial] is the outcome of dialing an address; [rnd k] the random numbers of
the [k]-th pick. [None] is running out of fuel; [Some None] is
[ErrNoHealthyMember]. *)
Fixpoint dialFrom (fuel : nat) (dial : string → option string) (rnd : nat → nat * nat) (client : Addr) (now : Z)
    (first : option mid) (tried : gset mid) (p : pool) : pool * option (option mid) :=
  match fuel with
  | O => (p, None)
  | S fuel =>
      let '(p, m) := match first with
                     | Some m => (p, Some m)
                     | None => pick client tried (rnd fuel).1 (rnd fuel).2 p
                     end in
      match m with
      | None => (p, Some None)
      | Some i =>
          let tried := {[i]} ∪ tried in
          match dial (addr (at_ p i)) with
          | Some why => dialFrom fuel dial rnd client now None tried (update i (failed why now) p)
          | None => (update i (λ m, m <| active := active m + 1 |>) p, Some (Some i))
          end
      end
  end.

(** One dial for each member, one for [first] and the pick that finds nobody. *)
Definition dial_fuel (p : pool) : nat := length (members p) + 2.

Definition dial (net : string → option string) (rnd : nat → nat * nat) (client : Addr) (now : Z) (p : pool)
    : pool * option (option mid) :=
  dialFrom (dial_fuel p) net rnd client now None ∅ p.

Definition dialAddr (net : string → option string) (rnd : nat → nat * nat) (a : string) (now : Z) (p : pool)
    : pool * option (option mid) :=
  dialFrom (dial_fuel p) net rnd AddrZero now (List.find (λ i, String.eqb (addr (at_ p i)) a) (members p)) ∅ p.

(** Closing a connection (the first time) to member [i]. *)
Definition closeConn (i : mid) (p : pool) : pool := update i (λ m, m <| active := active m - 1 |>) p.
