(* ===== verification/EdgePoolSpec.v ===== *)
(** * The edge's load balancing: theorems

Every algorithm picks a usable member; round robin is exactly proportional to
the weights, least-connections picks a least loaded member, source hashing
moves no client it need not move; a dial gives up only when every usable
member refused; and when members go down and come back. *)

From S2P Require Import Prelude GoStrings NetIP EdgeConf EdgePool.
From stdpp Require Import options.
#[local] Open Scope l8_scope.
#[local] Open Scope Z_scope.

(** ** Sums over lists *)

Fixpoint zsum {A} (f : A → Z) (l : list A) : Z :=
  match l with [] => 0 | x :: l => f x + zsum f l end.

Lemma zsum_ext {A} (f g : A → Z) l : (∀ x, x ∈ l → f x = g x) → zsum f l = zsum g l.
Proof.
  induction l as [|x l IH]; intros Hl; [reflexivity|]. cbn. rewrite (Hl x) by left. f_equal. apply IH.
  intros y Hy. apply Hl. by right.
Qed.

Lemma zsum_add {A} (f g : A → Z) l : zsum (λ x, f x + g x) l = zsum f l + zsum g l.
Proof. induction l; cbn; lia. Qed.

Lemma zsum_pos {A} (f : A → Z) l : 0 < zsum f l → ∃ x, x ∈ l ∧ 0 < f x.
Proof.
  induction l as [|x l IH]; cbn; [lia|]. intros Hs. destruct (decide (0 < f x)) as [|Hx]; [exists x; split; [left|done]|].
  destruct IH as (y & ? & ?); [lia|]. exists y. split; [by right|done].
Qed.

Lemma zsum_nonneg {A} (f : A → Z) l : (∀ x, x ∈ l → 0 ≤ f x) → 0 ≤ zsum f l.
Proof.
  induction l as [|x l IH]; cbn; [lia|]. intros Hf. pose proof (Hf x ltac:(left)).
  assert (0 ≤ zsum f l); [|lia]. apply IH. intros y Hy. apply Hf. by right.
Qed.

Lemma zsum_zero {A} (f : A → Z) l : zsum f l = 0 → (∀ x, x ∈ l → 0 ≤ f x) → ∀ x, x ∈ l → f x = 0.
Proof.
  induction l as [|y l IH]; cbn; intros Hs Hf x; [by intros ?%elem_of_nil|].
  assert (0 ≤ zsum f l) by (apply zsum_nonneg; intros z Hz; apply Hf; by right).
  pose proof (Hf y ltac:(left)). intros [->|Hx]%elem_of_cons; [lia|]. apply IH; [lia| |done].
  intros z Hz. apply Hf. by right.
Qed.

Lemma zsum_single {A} `{EqDecision A} (y : A) c l :
  NoDup l → zsum (λ x, if decide (x = y) then c else 0) l = if decide (y ∈ l) then c else 0.
Proof.
  induction l as [|x l IH]; intros Hnd; [cbn; rewrite decide_False; [done|apply not_elem_of_nil]|].
  apply NoDup_cons in Hnd as [Hx Hnd]. cbn. rewrite IH by done.
  destruct (decide (x = y)) as [->|Hne].
  - rewrite decide_False by done. rewrite decide_True by left. lia.
  - destruct (decide (y ∈ l)); [rewrite decide_True by (by right)|rewrite decide_False by set_solver]; lia.
Qed.

(** How often [i] is in the list. *)
Definition times {A} `{EqDecision A} (i : A) (l : list A) : Z := Z.of_nat (length (filter (i =.) l)).

Lemma times_app {A} `{EqDecision A} (i : A) l1 l2 : times i (l1 ++ l2) = times i l1 + times i l2.
Proof. unfold times. rewrite filter_app, length_app. lia. Qed.
Lemma times_one {A} `{EqDecision A} (i j : A) : times i [j] = if decide (i = j) then 1 else 0.
Proof. unfold times. rewrite filter_cons. by destruct (decide (i = j)). Qed.

Lemma zsum_times {A} `{EqDecision A} (l picks : list A) :
  NoDup l → (∀ i, i ∈ picks → i ∈ l) → zsum (λ i, times i picks) l = Z.of_nat (length picks).
Proof.
  intros Hnd. induction picks as [|j picks IH]; intros Hp.
  { transitivity (zsum (λ _ : A, 0) l); [by apply zsum_ext|]. clear. by induction l. }
  rewrite (zsum_ext _ (λ i, (if decide (i = j) then 1 else 0) + times i picks)).
  2:{ intros i _. change (j :: picks) with ([j] ++ picks). by rewrite times_app, times_one. }
  rewrite zsum_add, IH by (intros i Hi; apply Hp; by right). rewrite zsum_single, decide_True by (done || apply Hp; left).
  cbn [length]. lia.
Qed.

(** ** Members *)

Lemma at_update i f p j :
  is_Some (mheap p !! i) → at_ (update i f p) j = if decide (j = i) then f (at_ p i) else at_ p j.
Proof.
  intros [m Hm]. unfold at_, update. cbn. destruct (decide (j = i)) as [->|Hne].
  - by rewrite lookup_alter_eq, Hm.
  - by rewrite lookup_alter_ne.
Qed.

Lemma in_update i f p j : is_Some (mheap (update i f p) !! j) ↔ is_Some (mheap p !! j).
Proof. unfold update. cbn. by rewrite lookup_alter_is_Some. Qed.

(** The pool's members are in the heap, each once. *)
Record pool_ok (p : pool) : Prop := {
  pk_heap i : i ∈ members p → is_Some (mheap p !! i);
  pk_nodup : NoDup (members p);
}.

(** A new pool lists distinct members of its heap. *)
Lemma add_member_ok host port w dis heap out :
  (∀ i, i ∈ out → is_Some (heap !! i)) → NoDup out →
  let '(heap', out') := add_member [] host port w dis (heap, out) in
  (∀ i, i ∈ out' → is_Some (heap' !! i)) ∧ NoDup out'.
Proof.
  intros Hh Hnd. unfold add_member, kept. cbn [foldl]. set (i := fresh (dom heap)).
  assert (heap !! i = None) as Hi by (apply not_elem_of_dom, is_fresh). split.
  - intros j. rewrite elem_of_app, list_elem_of_singleton. intros [Hj| ->]; [|by rewrite lookup_insert_eq].
    rewrite lookup_insert_ne; [by apply Hh|]. intros ->. destruct (Hh _ Hj). congruence.
  - apply NoDup_app. split_and!; [done| |apply NoDup_singleton]. intros j Hj ->%list_elem_of_singleton.
    destruct (Hh _ Hj). congruence.
Qed.

Lemma newPool_ok LookupHost i f node : pool_ok (newPool LookupHost i f node).
Proof.
  assert (∀ (A : Type) (g : gmap mid member * list mid → A → gmap mid member * list mid) (l : list A),
    (∀ acc a, (∀ i, i ∈ acc.2 → is_Some (acc.1 !! i)) ∧ NoDup acc.2 → (∀ i, i ∈ (g acc a).2 → is_Some ((g acc a).1 !! i)) ∧ NoDup (g acc a).2) →
    (∀ i, i ∈ (foldl g (∅, []) l).2 → is_Some ((foldl g (∅, []) l).1 !! i)) ∧ NoDup (foldl g (∅, []) l).2) as Hloop.
  { intros A g l Hg. apply (foldl_inv (λ acc, (∀ i, i ∈ acc.2 → is_Some (acc.1 !! i)) ∧ NoDup acc.2)).
    - split; [by intros ? ?%elem_of_nil|apply NoDup_nil_2].
    - intros acc a _. apply Hg. }
  assert (∀ i f node, pool_ok (mkPool i f node ∅ [] false)) as Hempty
    by (intros; split; [by intros ? ?%elem_of_nil|apply NoDup_nil_2]).
  unfold newPool. destruct (bool_decide _); [apply Hempty|]. unfold resolveMembers. cbn [fwd mheap nodeIP].
  assert (∀ h pt w dis acc, (∀ i, i ∈ acc.2 → is_Some (acc.1 !! i)) ∧ NoDup acc.2 →
    (∀ i, i ∈ (add_member [] h pt w dis acc).2 → is_Some ((add_member [] h pt w dis acc).1 !! i)) ∧
    NoDup (add_member [] h pt w dis acc).2) as Hadd.
  { intros h pt w dis [hp out] [H1 H2]. pose proof (add_member_ok h pt w dis hp out H1 H2) as Hok.
    by destruct (add_member _ _ _ _ _ _). }
  destruct (TargetKind f); [apply Hempty| | | |apply Hempty].
  - set (g := λ acc t, _). specialize (Hloop _ g (Targets f)). destruct (foldl g _ _) as [hp out].
    destruct Hloop as [H1 H2]; [|by split]. intros acc [t|] Ha; [by apply Hadd|done].
  - destruct (LookupHost _) as [ips|]; [|apply Hempty]. set (g := λ acc ip, _). specialize (Hloop _ g ips).
    destruct (foldl g _ _) as [hp out]. destruct Hloop as [H1 H2]; [|by split]. intros acc ip Ha. by apply Hadd.
  - specialize (Hadd node (TargetPort f) 1 false (∅, [])). destruct (add_member _ _ _ _ _ _) as [hp out].
    destruct Hadd as [H1 H2]; [|by split]. split; [by intros ? ?%elem_of_nil|apply NoDup_nil_2].
Qed.

Lemma candidates_in tried p i : i ∈ candidates tried p ↔ i ∈ members p ∧ eligible tried p i = true.
Proof. unfold candidates. rewrite !list_elem_of_In. apply List.filter_In. Qed.

Lemma candidates_nodup tried p : pool_ok p → NoDup (candidates tried p).
Proof.
  intros Hk. unfold candidates. pose proof (pk_nodup _ Hk) as Hnd. apply NoDup_ListNoDup in Hnd.
  apply NoDup_ListNoDup. by apply List.NoDup_filter.
Qed.

(** ** Choosing *)

Lemma choose_some {A} (better : A → A → bool) l : l ≠ [] → ∃ x, choose better l = Some x ∧ x ∈ l.
Proof.
  destruct l as [|a l]; [done|]. intros _. cbn. eexists. split; [done|].
  assert (∀ l b, foldl (λ best m, if better m best then m else best) b l ∈ b :: l) as Hin; [|apply Hin].
  clear. induction l as [|m l IH]; intros b; cbn; [left|]. destruct (better m b).
  - right. apply IH.
  - specialize (IH b). apply elem_of_cons in IH as [->|?]; [left|by right; right].
Qed.

(** Choosing by a score takes the first of the best. *)
Lemma choose_first {A} (s : A → Z) l y :
  choose (λ i best, s best <? s i) l = Some y ↔
  ∃ l1 l2, l = l1 ++ y :: l2 ∧ (∀ x, x ∈ l1 → s x < s y) ∧ (∀ x, x ∈ l2 → s x ≤ s y).
Proof.
  destruct l as [|a l]; [split; [done|]; intros ([|] & ? & ? & _); done|]. cbn [choose].
  assert (∀ l b pre, (∀ x, x ∈ pre → s x < s b) → ∃ l1 l2,
    pre ++ b :: l = l1 ++ foldl (λ best m, if s best <? s m then m else best) b l :: l2 ∧
    (∀ x, x ∈ l1 → s x < s (foldl (λ best m, if s best <? s m then m else best) b l)) ∧
    (∀ x, x ∈ l2 → s x ≤ s (foldl (λ best m, if s best <? s m then m else best) b l))) as Hfold.
  { clear. intros l. induction l as [|m l IH] using rev_ind; intros b pre Hpre.
    - exists pre, []. split_and!; [done|done|by intros x ?%elem_of_nil].
    - destruct (IH b pre Hpre) as (l1 & l2 & Heq & H1 & H2). rewrite foldl_app. cbn [foldl].
      set (z := foldl _ b l) in *. destruct (Z.ltb_spec (s z) (s m)) as [Hlt|Hge].
      + exists (pre ++ b :: l), []. split_and!; [by rewrite <-app_assoc| |by intros x ?%elem_of_nil].
        rewrite Heq. intros x [Hx|[->|Hx]%elem_of_cons]%elem_of_app; [specialize (H1 x Hx); lia|done|specialize (H2 x Hx); lia].
      + exists l1, (l2 ++ [m]). split_and!; [|done|].
        * change (b :: l ++ [m]) with ((b :: l) ++ [m]). by rewrite app_assoc, Heq, <-app_assoc.
        * intros x [Hx|Hx%list_elem_of_singleton]%elem_of_app; [by apply H2|by subst]. }
  destruct (Hfold l a []) as (l1 & l2 & Heq & H1 & H2); [by intros x ?%elem_of_nil|]. cbn in Heq. split.
  - intros [= <-]. by exists l1, l2.
  - intros (l1' & l2' & Heq' & H1' & H2'). f_equal. set (z := foldl _ a l) in *. rewrite Heq' in Heq.
    assert (y ∈ l1 ++ z :: l2) as Hy by (rewrite <-Heq; apply elem_of_app; right; left).
    assert (z ∈ l1' ++ y :: l2') as Hz by (rewrite Heq; apply elem_of_app; right; left).
    destruct (decide (length l1' < length l1)%nat) as [Hlt|Hge]; [|destruct (decide (length l1 < length l1')%nat) as [Hlt|Hge']].
    + assert (y ∈ l1) as Hin%H1.
      { assert ((l1 ++ z :: l2) !! length l1' = Some y) as Hl by (by rewrite <-Heq, list_lookup_middle).
        rewrite lookup_app_l in Hl by done. by eapply list_elem_of_lookup_2. }
      apply elem_of_app in Hz as [Hz%H1'|[->|Hz%H2']%elem_of_cons]; [lia|done|lia].
    + assert (z ∈ l1') as Hin%H1'.
      { assert ((l1' ++ y :: l2') !! length l1 = Some z) as Hl by (by rewrite Heq, list_lookup_middle).
        rewrite lookup_app_l in Hl by done. by eapply list_elem_of_lookup_2. }
      apply elem_of_app in Hy as [Hy%H1|[->|Hy%H2]%elem_of_cons]; [lia|done|lia].
    + assert (length l1 = length l1') as Hlen by lia. apply app_inj_1 in Heq as [_ Heq]; [congruence|done].
Qed.

(** ** Round robin *)

(** Only the round-robin counters changed. *)
Definition same_but_current (a b : member) : Prop := a = b <| current := current a |>.

Definition raised (m : member) : member := m <| current := current m + weight m |>.

(** The loop of the round robin over the rest [l] of the candidates. *)
Lemma rr_loop l p total best p' total' best' :
  NoDup l → (∀ i, i ∈ l → is_Some (mheap p !! i)) → (∀ b, best = Some b → b ∉ l) →
  foldl rr_turn (p, total, best) l = (p', total', best') →
  (∀ i, at_ p' i = if decide (i ∈ l) then raised (at_ p i) else at_ p i) ∧
  (∀ i, is_Some (mheap p' !! i) ↔ is_Some (mheap p !! i)) ∧
  members p' = members p ∧ fwd p' = fwd p ∧
  total' = total + zsum (λ i, weight (at_ p i)) l ∧
  match best' with
  | None => best = None ∧ l = []
  | Some y => (y ∈ l ∨ best = Some y) ∧ (∀ i, i ∈ l ∨ best = Some i → current (at_ p' i) ≤ current (at_ p' y))
  end.
Proof.
  revert p total best. induction l as [|i l IH]; intros p total best Hnd Hin Hb; cbn [foldl].
  { intros [= <- <- <-]. split_and!; [|done|done|done|cbn; lia|].
    - intros i. rewrite decide_False; [done|apply not_elem_of_nil].
    - destruct best as [y|]; [|done]. split; [by right|]. intros i [?%elem_of_nil|[= <-]]; [done|lia]. }
  apply NoDup_cons in Hnd as [Hi Hnd]. assert (is_Some (mheap p !! i)) as Hii by (apply Hin; left).
  unfold rr_turn at 2. set (p1 := update i raised p).
  assert (∀ j, at_ p1 j = if decide (j = i) then raised (at_ p i) else at_ p j) as Hat by (intros j; by apply at_update).
  assert (weight (at_ p1 i) = weight (at_ p i)) as Hw by (by rewrite Hat, decide_True).
  change (λ m, m <| current := current m + weight m |>) with raised. fold p1. intros Hf.
  apply IH in Hf; [|done|by intros j Hj; apply in_update, Hin; right|].
  2:{ intros b. destruct best as [b0|]; [|by intros [= <-]].
      destruct (_ <? _); intros [= <-]; [done|]. specialize (Hb b0 eq_refl). set_solver. }
  destruct Hf as (Hat' & Hheap & Hm & Hfw & Ht & Hbest). split_and!.
  - intros j. rewrite Hat', Hat. destruct (decide (j = i)) as [->|Hne].
    + rewrite decide_False by done. rewrite decide_True by left. done.
    + destruct (decide (j ∈ l)); [rewrite decide_True by (by right)|rewrite decide_False by set_solver]; done.
  - intros j. rewrite Hheap. apply in_update.
  - done.
  - done.
  - rewrite Ht, Hw. cbn. rewrite (zsum_ext _ (λ j, weight (at_ p j)) l); [lia|].
    intros j Hj. rewrite Hat. by rewrite decide_False by (by intros ->).
  - (* the winner of the rest against the current best *)
    assert (∀ j, j ∉ l → at_ p' j = at_ p1 j) as Hrest by (intros j Hj; by rewrite Hat', decide_False).
    destruct best' as [y|]; [|by destruct best as [b0|]; [destruct (_ <? _)|]; destruct Hbest].
    destruct best as [b0|].
    + specialize (Hb b0 eq_refl). apply not_elem_of_cons in Hb as [Hb0 Hb0l].
      destruct (Z.ltb_spec (current (at_ p1 b0)) (current (at_ p1 i))) as [Hlt|Hge]; destruct Hbest as [Hy Hall].
      * split; [destruct Hy as [?|[= <-]]; [left; by right|left; left]|].
        intros j [[->|Hj]%elem_of_cons|[= <-]]; [apply Hall; by right|apply Hall; by left|].
        rewrite (Hrest b0 Hb0l). specialize (Hall i ltac:(by right)). rewrite (Hrest i Hi) in Hall. lia.
      * split; [destruct Hy as [?|?]; [left; by right|by right]|].
        intros j [[->|Hj]%elem_of_cons|?]; [|apply Hall; by left|apply Hall; by right].
        rewrite (Hrest i Hi). specialize (Hall b0 ltac:(by right)). rewrite (Hrest b0 Hb0l) in Hall. lia.
    + destruct Hbest as [Hy Hall]. split; [destruct Hy as [?|[= <-]]; left; [by right|left]|].
      intros j [[->|Hj]%elem_of_cons|?]; [apply Hall; by right|apply Hall; by left|done].
Qed.

(** One round robin: every candidate gains its weight, the one with the most
is picked and pays the total. *)
Lemma smoothRoundRobin_spec l p p' r :
  NoDup l → (∀ i, i ∈ l → is_Some (mheap p !! i)) → l ≠ [] →
  smoothRoundRobin l p = (p', r) →
  let W := zsum (λ i, weight (at_ p i)) l in
  ∃ b, r = Some b ∧ b ∈ l ∧ members p' = members p ∧ fwd p' = fwd p ∧
  (∀ i, is_Some (mheap p' !! i) ↔ is_Some (mheap p !! i)) ∧
  (∀ i, same_but_current (at_ p' i) (at_ p i)) ∧
  (∀ i, i ∈ l → current (at_ p' i) = current (at_ p i) + weight (at_ p i) - (if decide (i = b) then W else 0)) ∧
  (∀ i, i ∈ l → current (at_ p i) + weight (at_ p i) ≤ current (at_ p b) + weight (at_ p b)).
Proof.
  intros Hnd Hin Hne Hs W. unfold smoothRoundRobin in Hs.
  destruct (foldl rr_turn (p, 0, None) l) as [[p1 total] best] eqn:Hf.
  apply rr_loop in Hf as (Hat & Hheap & Hm & Hfw & Ht & Hbest); [|done|done|done].
  destruct best as [b|]; [|by destruct Hbest]. destruct Hbest as [[Hb|?] Hmax]; [|done]. injection Hs as <- <-.
  assert (is_Some (mheap p1 !! b)) as Hbh by (by apply Hheap, Hin).
  assert (∀ i, i ∈ l → current (at_ p1 i) = current (at_ p i) + weight (at_ p i)) as Hcur.
  { intros i Hi. by rewrite Hat, decide_True. }
  exists b. split_and!; [done|done|done|done|intros i; rewrite in_update; apply Hheap|..].
  - intros i. rewrite at_update by done. unfold same_but_current. destruct (decide (i = b)) as [->|?].
    + rewrite Hat, decide_True by done. done.
    + rewrite Hat. destruct (decide (i ∈ l)); [done|]. by destruct (at_ p i).
  - intros i Hi. rewrite at_update by done. destruct (decide (i = b)) as [->|?].
    + cbn. rewrite Hcur, Ht by done. subst W. lia.
    + rewrite Hcur by done. lia.
  - intros i Hi. rewrite <-!Hcur by done. apply Hmax. by left.
Qed.

(** A pool that balances by round robin, with its candidates and weights. *)
Record rr_pool (p : pool) (l : list mid) (w : mid → Z) : Prop := {
  rp_ok : pool_ok p;
  rp_lb : Lb (fwd p) = EDGE_LB_ALGORITHM_ROUND_ROBIN ∨ Lb (fwd p) = EDGE_LB_ALGORITHM_UNSPECIFIED;
  rp_cands : candidates ∅ p = l;
  rp_some : l ≠ [];
  rp_weight i : i ∈ l → weight (at_ p i) = w i ∧ 1 ≤ w i;
}.

Lemma rr_total p l w : rr_pool p l w → 0 < zsum w l.
Proof.
  intros Hp. destruct l as [|c l]; [by destruct (rp_some _ _ _ Hp)|]. cbn.
  pose proof (proj2 (rp_weight _ _ _ Hp c ltac:(left))). assert (0 ≤ zsum w l); [|lia].
  apply zsum_nonneg. intros i Hi. pose proof (proj2 (rp_weight _ _ _ Hp i ltac:(by right))). lia.
Qed.

Lemma rr_pick p l w client tried ra rb p' r :
  rr_pool p l w → tried = ∅ → pick client tried ra rb p = (p', r) →
  rr_pool p' l w ∧ ∃ b, r = Some b ∧ b ∈ l ∧
  (∀ i, i ∈ l → current (at_ p' i) = current (at_ p i) + w i - (if decide (i = b) then zsum w l else 0)) ∧
  (∀ i, i ∈ l → current (at_ p i) + w i ≤ current (at_ p b) + w b).
Proof.
  intros Hp -> Hpick. assert (smoothRoundRobin l p = (p', r)) as Hs.
  { unfold pick in Hpick. rewrite (rp_cands _ _ _ Hp) in Hpick. destruct l as [|c l]; [by destruct (rp_some _ _ _ Hp)|].
    by destruct (rp_lb _ _ _ Hp) as [Hlb|Hlb]; rewrite Hlb in Hpick. }
  assert (∀ i, i ∈ l → i ∈ members p) as Hmem by (intros i Hi; rewrite <-(rp_cands _ _ _ Hp), candidates_in in Hi; tauto).
  apply smoothRoundRobin_spec in Hs as (b & -> & Hb & Hm & Hfw & Hheap & Hsame & Hcur & Hmax).
  2:{ rewrite <-(rp_cands _ _ _ Hp). apply candidates_nodup, Hp. }
  2:{ intros i Hi. by apply (pk_heap _ (rp_ok _ _ _ Hp)), Hmem. }
  2:{ apply Hp. }
  assert (∀ i, disabled (at_ p' i) = disabled (at_ p i) ∧ healthy (at_ p' i) = healthy (at_ p i) ∧
               weight (at_ p' i) = weight (at_ p i)) as Hfields by (intros i; by rewrite (Hsame i)).
  assert (zsum (λ i, weight (at_ p i)) l = zsum w l) as HW by (apply zsum_ext; intros i Hi; by apply Hp).
  split; [split|].
  - split; [intros i Hi; rewrite Hm in Hi; apply Hheap, (pk_heap _ (rp_ok _ _ _ Hp)), Hi|rewrite Hm; apply Hp].
  - rewrite Hfw. apply Hp.
  - rewrite <-(rp_cands _ _ _ Hp). unfold candidates. rewrite Hm. apply List.filter_ext. intros i.
    unfold eligible. by destruct (Hfields i) as (-> & -> & _).
  - apply Hp.
  - intros i Hi. destruct (Hfields i) as (_ & _ & ->). by apply Hp.
  - exists b. split_and!; [done|done| |].
    + intros i Hi. rewrite Hcur by done. rewrite HW. by rewrite (proj1 (rp_weight _ _ _ Hp i Hi)).
    + intros i Hi. rewrite <-(proj1 (rp_weight _ _ _ Hp i Hi)), <-(proj1 (rp_weight _ _ _ Hp b Hb)). by apply Hmax.
Qed.

(** [n] picks in a row. *)
Fixpoint picks (n : nat) (client : Addr) (p : pool) : pool * list mid :=
  match n with
  | O => (p, [])
  | S n =>
      let '(p, r) := pick client ∅ 0 0 p in
      let '(p, l) := picks n client p in (p, option_list r ++ l)
  end.

Lemma rr_picks n client p l w p' ps :
  rr_pool p l w → zsum (λ i, current (at_ p i)) l = 0 → (∀ i, i ∈ l → - zsum w l < current (at_ p i)) →
  picks n client p = (p', ps) →
  rr_pool p' l w ∧ length ps = n ∧ (∀ i, i ∈ ps → i ∈ l) ∧
  (∀ i, i ∈ l → - zsum w l < current (at_ p' i)) ∧
  (∀ i, i ∈ l → current (at_ p' i) = current (at_ p i) + Z.of_nat n * w i - zsum w l * times i ps).
Proof.
  revert p p' ps. induction n as [|n IH]; intros p p' ps Hp Hsum Hlow; cbn [picks].
  { intros [= <- <-]. split_and!; [done|done|by intros i ?%elem_of_nil|done|]. intros i _. unfold times. cbn. lia. }
  destruct (pick client ∅ 0 0 p) as [p1 r] eqn:Hpick.
  destruct (rr_pick _ _ _ _ _ _ _ _ _ Hp eq_refl Hpick) as (Hp1 & b & -> & Hb & Hcur & Hmax).
  assert (NoDup l) as Hnd by (rewrite <-(rp_cands _ _ _ Hp); apply candidates_nodup, Hp).
  assert (0 < current (at_ p b) + w b) as Hpos.
  { destruct (zsum_pos (λ i, current (at_ p i) + w i) l) as (i & Hi & Hgt).
    - rewrite zsum_add, Hsum. by apply (rr_total p).
    - specialize (Hmax i Hi). lia. }
  destruct (picks n client p1) as [p2 ps1] eqn:Hps. intros [= <- <-].
  assert (zsum (λ i, current (at_ p1 i)) l = 0) as Hsum1.
  { rewrite (zsum_ext _ (λ i, (current (at_ p i) + w i) + (if decide (i = b) then - zsum w l else 0))).
    - rewrite zsum_add, zsum_add, zsum_single, decide_True by done. rewrite Hsum. lia.
    - intros i Hi. rewrite Hcur by done. destruct (decide (i = b)); lia. }
  destruct (IH p1 p2 ps1 Hp1 Hsum1) as (Hp2 & Hlen & Hin & Hlow2 & Hcur2).
  { intros i Hi. rewrite Hcur by done. specialize (Hlow i Hi). pose proof (proj2 (rp_weight _ _ _ Hp i Hi)).
    destruct (decide (i = b)) as [->|]; lia. }
  { done. }
  split_and!; [done|cbn; lia|intros i [->|?]%elem_of_cons; [done|by apply Hin]|done|].
  intros i Hi. rewrite Hcur2, Hcur by done. 
  assert (times i (b :: ps1) = (if decide (i = b) then 1 else 0) + times i ps1) as ->
    by (by rewrite <-times_one, <-times_app). destruct (decide (i = b)); lia.
Qed.

(** round robin is exactly proportional. While the usable members and
their weights stay the same, any cycle of as many picks as the weights add up
to gives each member exactly as many picks as its weight, and ends where it
began, so the next cycle does the same; only usable members are picked. *)
Theorem round_robin_fair client p l w p' ps :
  rr_pool p l w → (∀ i, i ∈ l → current (at_ p i) = 0) →
  picks (Z.to_nat (zsum w l)) client p = (p', ps) →
  (∀ i, i ∈ l → times i ps = w i) ∧ (∀ i, i ∈ ps → i ∈ l) ∧
  rr_pool p' l w ∧ (∀ i, i ∈ l → current (at_ p' i) = 0).
Proof.
  intros Hp Hzero Hps.
  pose proof (rr_total _ _ _ Hp) as HW.
  assert (zsum (λ i, current (at_ p i)) l = 0) as Hsum.
  { rewrite (zsum_ext _ (λ _, 0)) by done. clear. by induction l. }
  destruct (rr_picks _ _ _ _ _ _ _ Hp Hsum ltac:(intros i Hi; rewrite Hzero by done; lia) Hps)
    as (Hp' & Hlen & Hin & Hlow & Hcur).
  assert (NoDup l) as Hnd by (rewrite <-(rp_cands _ _ _ Hp); apply candidates_nodup, Hp).
  assert (∀ i, i ∈ l → w i - times i ps = 0) as Heq.
  { apply zsum_zero.
    - rewrite (zsum_ext _ (λ i, w i + - times i ps)) by (intros; lia). rewrite zsum_add.
      assert (zsum (λ i, - times i ps) l = - zsum (λ i, times i ps) l) as -> by (clear; induction l; cbn; lia).
      rewrite zsum_times, Hlen by done. lia.
    - intros i Hi. specialize (Hlow i Hi). rewrite Hcur, Hzero in Hlow by done. nia. }
  split_and!; [intros i Hi; specialize (Heq i Hi); lia|done|done|].
  intros i Hi. rewrite Hcur, Hzero by done. specialize (Heq i Hi). nia.
Qed.

(** ** Picking in general *)

Lemma nth_in {A} (l : list A) k d : l ≠ [] → nth (k mod length l) l d ∈ l.
Proof.
  intros Hl. apply list_elem_of_In, nth_In. apply Nat.mod_upper_bound. by destruct l.
Qed.

Lemma pick_in client tried ra rb p p' r :
  pool_ok p → pick client tried ra rb p = (p', r) →
  match r with
  | None => candidates tried p = [] ∧ p' = p
  | Some i => i ∈ candidates tried p
  end ∧ members p' = members p ∧ fwd p' = fwd p ∧ (∀ i, is_Some (mheap p' !! i) ↔ is_Some (mheap p !! i)) ∧
  (∀ i, same_but_current (at_ p' i) (at_ p i)).
Proof.
  intros Hk Hp. unfold pick in Hp. destruct (candidates tried p) as [|c0 cs] eqn:Hc.
  { injection Hp as <- <-. split_and!; try done. intros i. unfold same_but_current. by destruct (at_ p i). }
  assert (∀ better, choose better (c0 :: cs) = r → ∃ i, r = Some i ∧ i ∈ c0 :: cs) as Hchoose.
  { intros better <-. by destruct (choose_some better (c0 :: cs)) as (x & ? & ?); [|exists x]. }
  assert (smoothRoundRobin (c0 :: cs) p = (p', r) ∨ (p' = p ∧ ∃ i, r = Some i ∧ i ∈ c0 :: cs)) as [Hs|(-> & i & -> & Hi)].
  { destruct (Lb (fwd p)); [by left|by left|right|right|right]; pose proof (f_equal snd Hp) as Hr;
      apply (f_equal fst) in Hp; cbn [fst snd] in Hp, Hr; (split; [done|]).
    - by eapply Hchoose.
    - by eapply Hchoose.
    - eexists. split; [done|]. destruct (_ <? _); by apply nth_in. }
  - apply smoothRoundRobin_spec in Hs as (b & -> & Hb & Hm & Hfw & Hh & Hsame & _); [by split_and!|..|done].
    + rewrite <-Hc. by apply candidates_nodup.
    + intros i Hi. rewrite <-Hc, candidates_in in Hi. apply (pk_heap _ Hk). tauto.
  - split_and!; try done. intros j. unfold same_but_current. by destruct (at_ p j).
Qed.

(** least connections picks a least loaded member: no usable member has
fewer connections per unit of weight (the products stay within 64 bits). *)
Theorem least_conn_minimal client tried ra rb p p' b :
  pool_ok p → Lb (fwd p) = EDGE_LB_ALGORITHM_LEAST_CONN →
  (∀ i, i ∈ candidates tried p → 1 ≤ weight (at_ p i) ≤ MaxWeight ∧ 0 ≤ active (at_ p i) < 2 ^ 56) →
  pick client tried ra rb p = (p', Some b) →
  ∀ i, i ∈ candidates tried p → active (at_ p b) * weight (at_ p i) ≤ active (at_ p i) * weight (at_ p b).
Proof.
  intros Hk Hlb Hw Hp. unfold pick in Hp. rewrite Hlb in Hp. destruct (candidates tried p) as [|c0 cs]; [done|].
  injection Hp as _ <-.
  set (le b i := active (at_ p b) * weight (at_ p i) ≤ active (at_ p i) * weight (at_ p b)).
  assert (∀ i j, i ∈ c0 :: cs → j ∈ c0 :: cs → fewer p i j = true ↔ ¬ le j i) as Hfewer.
  { intros i j Hi Hj. destruct (Hw i Hi) as [[? ?] [? ?]], (Hw j Hj) as [[? ?] [? ?]]. unfold fewer, le, MaxWeight in *.
    assert (∀ a b, 0 ≤ a < 2 ^ 56 → 1 ≤ b ≤ 100 → int64 (a * b) = a * b) as Hid.
    { intros a b Ha Hb. unfold int64. rewrite Z.mod_small; [lia|]. nia. }
    rewrite !Hid by done. rewrite Z.ltb_lt. lia. }
  assert (∀ l prev b, (∀ x, x ∈ l → x ∈ c0 :: cs) → (∀ x, x ∈ prev → x ∈ c0 :: cs) → b ∈ prev → (∀ x, x ∈ prev → le b x) →
    ∀ x, x ∈ l ++ prev → le (foldl (λ best m, if fewer p m best then m else best) b l) x) as Hloop.
  { induction l as [|m l IH]; intros prev b Hl Hd Hb Hle; cbn [foldl]; [done|].
    assert (m ∈ c0 :: cs) as Hm by (apply Hl; left).
    destruct (fewer p m b) eqn:Hf.
    - apply Hfewer in Hf; [|done|by apply Hd]. intros x Hx. apply (IH (m :: prev) m); [by intros; apply Hl; right| |left| |].
      + intros y [->|?]%elem_of_cons; [done|by apply Hd].
      + intros y [->|Hy]%elem_of_cons; [unfold le; lia|]. specialize (Hle y Hy). unfold le in *.
        destruct (Hw m Hm) as [[? ?] _], (Hw b (Hd b Hb)) as [[? ?] _], (Hw y (Hd y Hy)) as [[? ?] _]. nia.
      + revert Hx. cbn. rewrite elem_of_cons, !elem_of_app, elem_of_cons. tauto.
    - intros x Hx. apply (IH (m :: prev) b); [by intros; apply Hl; right| |by right| |].
      + intros y [->|?]%elem_of_cons; [done|by apply Hd].
      + intros y [->|Hy]%elem_of_cons; [|by apply Hle]. apply not_true_iff_false in Hf. rewrite (Hfewer m b Hm (Hd b Hb)) in Hf.
        unfold le in *. lia.
      + revert Hx. cbn. rewrite elem_of_cons, !elem_of_app, elem_of_cons. tauto. }
  intros i Hi. apply (Hloop cs [c0] c0).
  - intros x Hx. by right.
  - intros x ->%list_elem_of_singleton. left.
  - left.
  - intros x ->%list_elem_of_singleton. unfold le. lia.
  - revert Hi. rewrite elem_of_cons, elem_of_app, list_elem_of_singleton. tauto.
Qed.

(** ** Source hashing *)

Lemma score_exact client m :
  1 ≤ weight m ≤ MaxWeight →
  score client m = fnv64a (AsSlice client ++ String.list_ascii_of_string (addr m)) / 2 ^ 20 * weight m ∧
  0 ≤ score client m < 2 ^ 64.
Proof.
  intros Hw. unfold score, MaxWeight in *. set (h := fnv64a _).
  assert (0 ≤ h < 2 ^ 64) as Hh.
  { subst h. unfold fnv64a. generalize (AsSlice client ++ String.list_ascii_of_string (addr m)). intros l.
    destruct l as [|c l] using rev_ind; [cbn; lia|]. rewrite foldl_app. cbn [foldl]. unfold uint64. apply Z.mod_pos_bound. lia. }
  assert (0 ≤ h / 2 ^ 20 < 2 ^ 44).
  { split; [apply Z.div_pos; lia|]. apply Z.div_lt_upper_bound; lia. }
  assert (uint64 (weight m) = weight m) as -> by (unfold uint64; rewrite Z.mod_small; lia).
  unfold uint64. rewrite Z.mod_small by nia. split; [done|]. nia.
Qed.

(** source hashing moves only the clients it must. When a member is added
anywhere to the usable members (or, read backwards, removed), a client either
goes to that member or stays with the member it had; and a client's member
depends only on the client's address and the members' addresses and weights. *)
Theorem source_hash_stable client tried tried' ra rb ra' rb' p p' l1 i l2 :
  Lb (fwd p) = EDGE_LB_ALGORITHM_SOURCE_HASH → Lb (fwd p') = EDGE_LB_ALGORITHM_SOURCE_HASH →
  candidates tried p = l1 ++ l2 → candidates tried' p' = l1 ++ i :: l2 →
  (∀ j, j ∈ l1 ++ l2 → addr (at_ p' j) = addr (at_ p j) ∧ weight (at_ p' j) = weight (at_ p j)) →
  (pick client tried' ra' rb' p').2 = Some i ∨
  (pick client tried' ra' rb' p').2 = (pick client tried ra rb p).2.
Proof.
  intros Hlb Hlb' Hc Hc' Hsame.
  assert (∀ p tried ra rb, Lb (fwd p) = EDGE_LB_ALGORITHM_SOURCE_HASH →
    (pick client tried ra rb p).2 = choose (scores_more p client) (candidates tried p)) as Hpick.
  { intros q t a b Hq. unfold pick. destruct (candidates t q); [done|]. by rewrite Hq. }
  rewrite !Hpick, Hc, Hc' by done. clear Hpick.
  assert (∀ j, j ∈ l1 ++ l2 → score client (at_ p' j) = score client (at_ p j)) as Hscore.
  { intros j Hj. unfold score. by destruct (Hsame j Hj) as [-> ->]. }
  destruct (choose_some (scores_more p' client) (l1 ++ i :: l2)) as (y & Hy & _); [by destruct l1|].
  rewrite Hy. destruct (decide (y = i)) as [->|Hne]; [by left|right]. symmetry. unfold scores_more in *.
  apply (choose_first (λ j, score client (at_ p j))).
  apply (choose_first (λ j, score client (at_ p' j))) in Hy as (k1 & k2 & Heq & H1 & H2).
  assert (∃ k1' k2', l1 ++ l2 = k1' ++ y :: k2' ∧ (∀ x, x ∈ k1' → x ∈ k1) ∧ (∀ x, x ∈ k2' → x ∈ k2)) as (k1' & k2' & Heq' & Hs1 & Hs2).
  { apply app_eq_inv in Heq as [(k & -> & Hk)|(k & -> & Hk)].
    - destruct k as [|z k]; cbn in Hk; [by simplify_eq|]. injection Hk as <- ->.
      exists (k1), (k ++ l2). split; [by rewrite <-app_assoc|]. split; [done|]. intros x. rewrite !elem_of_app, elem_of_cons. tauto.
    - destruct k as [|z k]; cbn in Hk; [by simplify_eq|]. injection Hk as <- ->.
      exists (l1 ++ k), k2. split; [by rewrite <-app_assoc|]. split; [|done]. intros x. rewrite !elem_of_app, elem_of_cons. tauto. }
  exists k1', k2'. split; [done|]. split; intros x Hx.
  - rewrite <-!Hscore by (rewrite Heq'; apply elem_of_app; (by left) || (right; left)). by apply H1, Hs1.
  - rewrite <-!Hscore by (rewrite Heq'; apply elem_of_app; right; (by right) || left). by apply H2, Hs2.
Qed.

(** ** Dialing *)

Definition usable (p : pool) (i : mid) : Prop := i ∈ members p ∧ disabled (at_ p i) = false ∧ healthy (at_ p i) = true.

(** The members that were not tried yet. *)
Definition untried (tried : gset mid) (p : pool) : nat := length (filter (.∉ tried) (members p)).

Lemma untried_add tried p i :
  i ∈ members p → i ∉ tried → (untried ({[i]} ∪ tried) p < untried tried p)%nat.
Proof.
  intros Hi Ht. unfold untried. set (l := members p) in *. clearbody l. induction l as [|j l IH]; [by apply elem_of_nil in Hi|].
  rewrite !filter_cons. destruct (decide (j ∉ tried)) as [Hj|Hj].
  - destruct (decide (j ∉ {[i]} ∪ tried)) as [Hj'|Hj']; cbn [length].
    + apply elem_of_cons in Hi as [->|Hi]; [set_solver|]. specialize (IH Hi). lia.
    + assert (length (filter (.∉ {[i]} ∪ tried) l) ≤ length (filter (.∉ tried) l))%nat; [|lia].
      clear. induction l as [|k l IH]; [done|]. rewrite !filter_cons.
      destruct (decide (k ∉ tried)), (decide (k ∉ {[i]} ∪ tried)); cbn; set_solver || lia.
  - rewrite decide_False by set_solver. apply IH. apply elem_of_cons in Hi as [->|Hi]; [done|done].
Qed.

Lemma pool_ok_same p p' :
  members p' = members p → (∀ i, is_Some (mheap p' !! i) ↔ is_Some (mheap p !! i)) → pool_ok p → pool_ok p'.
Proof. intros Hm Hh [Hin Hnd]. split; rewrite Hm; [intros i Hi; by apply Hh, Hin|done]. Qed.

Lemma failed_fields why now m :
  addr (failed why now m) = addr m ∧ disabled (failed why now m) = disabled m ∧ active (failed why now m) = active m.
Proof. unfold failed. by case_match. Qed.

(** The member the loop tries next: the given one, or a picked one. *)
Lemma next_member_spec client tried r1 r2 first p :
  pool_ok p → (∀ i, first = Some i → is_Some (mheap p !! i)) →
  ∃ p1 r, match first with Some m => (p, Some m) | None => pick client tried r1 r2 p end = (p1, r) ∧
  members p1 = members p ∧ (∀ i, is_Some (mheap p1 !! i) ↔ is_Some (mheap p !! i)) ∧
  (∀ i, same_but_current (at_ p1 i) (at_ p i)) ∧
  match r with
  | None => candidates tried p = []
  | Some i => is_Some (mheap p !! i) ∧ (first = Some i ∨ first = None ∧ usable p i ∧ i ∉ tried)
  end.
Proof.
  intros Hk Hfirst. destruct first as [i|].
  - exists p, (Some i). split_and!; try done; [intros j; unfold same_but_current; by destruct (at_ p j)|by apply Hfirst|by left].
  - destruct (pick _ _ _ _ p) as [p1 r] eqn:Hp. apply pick_in in Hp as (Hr & Hm & _ & Hh & Hs); [|done].
    exists p1, r. split_and!; try done. destruct r as [i|]; [|tauto].
    apply candidates_in in Hr as [Hi He]. unfold eligible in He. bool_facts.
    split; [by apply (pk_heap _ Hk)|right]. done.
Qed.

(** What dialing does from any point of the loop. *)
Lemma dialFrom_spec fuel net rnd client now first tried p :
  pool_ok p → (∀ i, first = Some i → is_Some (mheap p !! i)) →
  (untried tried p + (if first is Some _ then 1 else 0) < fuel)%nat →
  ∃ p' r, dialFrom fuel net rnd client now first tried p = (p', Some r) ∧ members p' = members p ∧
  match r with
  | None => ∀ i, usable p i → i ∉ tried → net (addr (at_ p i)) ≠ None
  | Some i => net (addr (at_ p i)) = None ∧ (first = Some i ∨ usable p i ∧ i ∉ tried) ∧
              active (at_ p' i) = active (at_ p i) + 1
  end.
Proof.
  revert first tried p. induction fuel as [|fuel IH]; intros first tried p Hk Hfirst Hfuel; [lia|].
  cbn [dialFrom]. set (q := match first with Some m => (p, Some m) | None => pick client tried (rnd fuel).1 (rnd fuel).2 p end).
  destruct (next_member_spec client tried (rnd fuel).1 (rnd fuel).2 first p Hk Hfirst) as (p1 & r1 & Hq & Hm & Hh & Hsame & Hr1).
  fold q in Hq.
  rewrite Hq. clear q Hq. destruct r1 as [j|].
  2:{ exists p1, None. split_and!; [done|done|]. intros i (Hi & Hd & He) Ht. exfalso.
      assert (i ∈ candidates tried p) as Hin; [|by rewrite Hr1 in Hin; apply elem_of_nil in Hin].
      apply candidates_in. split; [done|]. unfold eligible. by rewrite Hd, He, bool_decide_false. }
  destruct Hr1 as [Hj Hr1]. assert (is_Some (mheap p1 !! j)) as Hj1 by (by apply Hh).
  assert (∀ i, addr (at_ p1 i) = addr (at_ p i) ∧ disabled (at_ p1 i) = disabled (at_ p i) ∧
    healthy (at_ p1 i) = healthy (at_ p i) ∧ active (at_ p1 i) = active (at_ p i)) as Hf by (intros i; by rewrite (Hsame i)).
  destruct (Hf j) as (Hja & _ & _ & Hjact). rewrite Hja. destruct (net (addr (at_ p j))) as [why|] eqn:Hnet.
  2:{ eexists _, (Some j). split_and!; [done|done|done|tauto|]. rewrite at_update, decide_True by done. cbn. by rewrite Hjact. }
  set (p2 := update j (failed why now) p1).
  destruct (IH None ({[j]} ∪ tried) p2) as (p' & r & Hd & Hm' & Hr).
  - apply (pool_ok_same p1); [done|intros i; apply in_update|]. by apply (pool_ok_same p).
  - done.
  - assert (∀ t, untried t p2 = untried t p) as Hun by (intros t; unfold untried; by rewrite <-Hm).
    rewrite Hun. destruct first as [i|].
    + assert (untried ({[j]} ∪ tried) p ≤ untried tried p)%nat; [|lia]. unfold untried. clear.
      induction (members p) as [|k l IHl]; [done|]. rewrite !filter_cons.
      destruct (decide (k ∉ tried)), (decide (k ∉ {[j]} ∪ tried)); cbn; set_solver || lia.
    + destruct Hr1 as [|(_ & [Hjm _] & Hjt)]; [done|]. pose proof (untried_add tried p j Hjm Hjt). lia.
  - exists p', r. split; [done|]. split; [by rewrite Hm', <-Hm|].
    assert (∀ i, i ≠ j → at_ p2 i = at_ p1 i) as Hne by (intros i Hij; unfold p2; by rewrite at_update, decide_False).
    assert (∀ i, i ≠ j → usable p2 i ↔ usable p i) as Hus.
    { intros i Hij. unfold usable. rewrite (Hne i Hij). destruct (Hf i) as (_ & -> & -> & _). by rewrite <-Hm. }
    destruct r as [i|].
    + destruct Hr as (Hn & [?|[Hu Ht]] & Hact); [done|]. apply not_elem_of_union in Ht as [Hij Ht].
      apply not_elem_of_singleton in Hij. rewrite (Hne i Hij) in Hn, Hact. destruct (Hf i) as (Ha & _ & _ & Hac).
      rewrite Ha in Hn. rewrite Hac in Hact. split_and!; [done|right; split; [by apply Hus|done]|done].
    + intros i Hu Ht. destruct (decide (i = j)) as [->|Hij]; [by rewrite Hnet|].
      destruct (Hf i) as (Ha & _). rewrite <-Ha, <-(Hne i Hij). apply Hr; [by apply Hus|set_solver].
Qed.

(** What a dial with fallback promises; [extra] members may be used too. *)
Definition dial_promise (net : string → option string) (extra : mid → Prop) (p : pool) (res : pool * option (option mid)) : Prop :=
  ∃ p' r, res = (p', Some r) ∧ members p' = members p ∧
  match r with
  | Some i => (usable p i ∨ extra i) ∧ net (addr (at_ p i)) = None ∧ active (at_ p' i) = active (at_ p i) + 1
  | None => ∀ i, usable p i → net (addr (at_ p i)) ≠ None
  end.

Lemma dial_spec net rnd client now p : pool_ok p → dial_promise net (λ _, False) p (dial net rnd client now p).
Proof.
  intros Hk. destruct (dialFrom_spec (dial_fuel p) net rnd client now None ∅ p) as (p' & r & Hd & Hm & Hr).
  - done.
  - done.
  - assert (untried ∅ p ≤ length (members p))%nat by apply length_filter. unfold dial_fuel. lia.
  - exists p', r. split_and!; [done|done|]. destruct r as [i|].
    + destruct Hr as (? & [?|[? _]] & ?); [done|]. split_and!; [by left|done|done].
    + intros i Hi. apply Hr; [done|set_solver].
Qed.

(** C21: a dial always ends, and gives up only when nobody answers. It returns
a connection to a usable member that answered, counted as one more active
connection of it, or the no-backend error after every usable member (enabled
and healthy) refused; whatever the balancing algorithm picks. A dial that
starts with a chosen address tries the member with that address first, usable
or not, and then the others. *)
Theorem dial_complete net rnd client now p :
  pool_ok p →
  dial_promise net (λ _, False) p (dial net rnd client now p) ∧
  ∀ a, dial_promise net (λ i, i ∈ members p ∧ addr (at_ p i) = a) p (dialAddr net rnd a now p).
Proof.
  intros Hk. split; [by apply dial_spec|]. intros a. unfold dialAddr.
  set (first := List.find _ _). assert (∀ i, first = Some i → i ∈ members p ∧ addr (at_ p i) = a) as Hfirst.
  { intros i [Hi Ha]%List.find_some. split; [by apply list_elem_of_In|by apply String.eqb_eq]. }
  destruct (dialFrom_spec (dial_fuel p) net rnd AddrZero now first ∅ p) as (p' & r & Hd & Hm & Hr).
  - done.
  - intros i Hi. apply (pk_heap _ Hk). by apply Hfirst.
  - assert (untried ∅ p ≤ length (members p))%nat by apply length_filter. unfold dial_fuel. destruct first; lia.
  - exists p', r. split_and!; [done|done|]. destruct r as [i|].
    + destruct Hr as (? & [?|[? _]] & ?); (split_and!; [auto|done|done]).
    + intros i Hi. apply Hr; [done|set_solver].
Qed.

(** ** Health *)

(** A member is up, with some failures in a row, or down, with some passed
checks in a row. *)
Inductive health := Up (fails_in_a_row : Z) | Down (passes_in_a_row : Z).

Definition health_step (ok : bool) (h : health) : health :=
  match h, ok with
  | Up _, true => Up 0
  | Up k, false => if unhealthyAfter <=? k + 1 then Down 0 else Up (k + 1)
  | Down k, true => if healthyAfter <=? k + 1 then Up 0 else Down (k + 1)
  | Down _, false => Down 0
  end.

Definition health_of (m : member) : health := if healthy m then Up (fails m) else Down (passes m).

Definition observe (now : Z) (m : member) (o : option string) : member :=
  match o with None => passed now m | Some why => failed why now m end.

(** Outcomes of checks and dials, with their times, oldest first. *)
Definition observe_all (l : list (Z * option string)) (m : member) : member :=
  foldl (λ m '(now, o), observe now m o) m l.

(** a member's health is the three-strikes automaton. A new member is up;
it goes down after exactly three failures with no success between them, and
comes back after exactly two successful checks with no failure between them,
whatever mix of checks and dials is observed. *)
Theorem health_automaton l m :
  healthy m = true → fails m = 0 →
  health_of (observe_all l m) =
  foldl (λ h '(_, o), health_step (bool_decide (o = None)) h) (Up 0) (l : list (Z * option string)).
Proof.
  intros Hh Hf. set (ok m := (healthy m = true ∧ 0 ≤ fails m < 3) ∨ (healthy m = false ∧ 3 ≤ fails m ∧ 0 ≤ passes m < 2)).
  assert (∀ now m o, ok m → ok (observe now m o) ∧ health_of (observe now m o) = health_step (bool_decide (o = None)) (health_of m)) as Hstep.
  { clear. intros now m o Hok. destruct o as [why|]; cbn [observe].
    - unfold failed, health_of, health_step, unhealthyAfter, ok in *. cbn. destruct (Z.leb_spec 3 (fails m + 1)); cbn.
      + destruct Hok as [[-> ?]|(-> & ? & ?)]; split; try (right; split_and!; (done || lia)); [|done].
        destruct (Z.leb_spec 3 (fails m + 1)); [done|lia].
      + destruct Hok as [[-> ?]|(-> & ? & ?)]; [|lia]. split; [left; split; [done|lia]|].
        destruct (Z.leb_spec 3 (fails m + 1)); [lia|done].
    - unfold passed, health_of, health_step, healthyAfter, ok in *.
      destruct Hok as [[Hm ?]|(Hm & ? & ?)]; cbn; rewrite Hm.
      + rewrite orb_true_r. cbn. split; [left; split; [done|lia]|done].
      + rewrite orb_false_r. cbn. destruct (Z.leb_spec 2 (passes m + 1)); cbn; rewrite ?Hm.
        * split; [left; split; [done|lia]|done].
        * split; [right|done]. split_and!; (done || lia). }
  assert (∀ l m, ok m → health_of (observe_all l m) =
    foldl (λ h '(_, o), health_step (bool_decide (o = None)) h) (health_of m) l) as Hall.
  { clear -Hstep. induction l as [|[now o] l IH]; intros m Hok; [done|]. cbn [observe_all foldl].
    destruct (Hstep now m o Hok) as [Hok' <-]. by apply IH. }
  rewrite Hall; [unfold health_of; by rewrite Hh, Hf|]. left. split; [done|lia].
Qed.

(** ** A sample pool *)

Module PoolSample.
Definition target (h : string) (w : Z) : option EdgeTarget := Some (mkTarget h 80 w false).
Definition forward (lb : EdgeLbAlgorithm) (l : list (option EdgeTarget)) : EdgePortForward :=
  mkForward "f" 443 0 EDGE_PROTOCOL_TLS EDGE_FORWARD_MODE_PASSTHROUGH EDGE_TARGET_KIND_TARGETS l "" 0 EDGE_BACKEND_SCHEME_HTTP false false
    lb EDGE_HEALTH_TYPE_TCP "" 0 true "".
Definition two : list (option EdgeTarget) := [target "a" 2; target "b" 1].
Definition mk (lb : EdgeLbAlgorithm) (l : list (option EdgeTarget)) : pool := newPool (λ _, None) "d/f" (forward lb l) "10.0.0.1".
Definition rr : pool := mk EDGE_LB_ALGORITHM_ROUND_ROBIN two.
Definition lc : pool := (dial (λ _, None) (λ _, (0, 0)%nat) (V4 1) 0 (mk EDGE_LB_ALGORITHM_LEAST_CONN two)).1.
Definition sh2 : pool := mk EDGE_LB_ALGORITHM_SOURCE_HASH two.
Definition sh3 : pool := mk EDGE_LB_ALGORITHM_SOURCE_HASH (two ++ [target "c" 3]).
Definition net (a : string) : option string := if String.eqb a "a:80" then Some "refused" else None.
Definition a : mid := 1%positive.
Definition b : mid := 2%positive.
Definition c : mid := 3%positive.

Lemma sample_ok p : members p = [a; b] → is_Some (mheap p !! a) → is_Some (mheap p !! b) → pool_ok p.
Proof.
  intros Hm Ha Hb. split; rewrite Hm; [|apply (bool_decide_eq_true_1 _); vm_compute; reflexivity].
  intros i [->|[->|?%elem_of_nil]%elem_of_cons]%elem_of_cons; done.
Qed.
Lemma rr_ok : pool_ok rr.
Proof. apply sample_ok; vm_compute; eauto. Qed.
Lemma lc_ok : pool_ok lc.
Proof. apply sample_ok; vm_compute; eauto. Qed.
End PoolSample.
Import PoolSample.

Lemma round_robin_fair_witness :
  let ps := (picks 3 (V4 1) rr).2 in ps = [a; b; a] ∧ times a ps = 2 ∧ times b ps = 1.
Proof.
  assert (rr_pool rr [a; b] (λ i, if Pos.eqb i a then 2 else 1)) as Hp.
  { split; [exact rr_ok|left; reflexivity|vm_compute; reflexivity|discriminate|].
    intros i [->|[->|?%elem_of_nil]%elem_of_cons]%elem_of_cons; [vm_compute; split; [reflexivity|discriminate]..|done]. }
  destruct (picks 3 (V4 1) rr) as [p' ps] eqn:Hps.
  destruct (round_robin_fair (V4 1) rr [a; b] _ p' ps Hp) as (Ht & _); [|exact Hps|].
  - intros i [->|[->|?%elem_of_nil]%elem_of_cons]%elem_of_cons; [vm_compute; reflexivity..|done].
  - split; [vm_compute in Hps; injection Hps as <- <-; reflexivity|]. split; apply Ht; [left|right; left].
Defined.

Lemma least_conn_minimal_witness :
  active (at_ lc a) = 1 ∧ (pick (V4 1) ∅ 0 0 lc).2 = Some b ∧
  active (at_ lc b) * weight (at_ lc a) ≤ active (at_ lc a) * weight (at_ lc b).
Proof.
  split; [vm_compute; reflexivity|]. split; [vm_compute; reflexivity|].
  apply (least_conn_minimal (V4 1) ∅ 0 0 lc lc b lc_ok).
  - vm_compute. reflexivity.
  - assert (candidates ∅ lc = [a; b]) as -> by (vm_compute; reflexivity).
    intros i [->|[->|?%elem_of_nil]%elem_of_cons]%elem_of_cons; [vm_compute; repeat split; discriminate..|done].
  - vm_compute. reflexivity.
  - assert (candidates ∅ lc = [a; b]) as -> by (vm_compute; reflexivity). left.
Defined.

Lemma source_hash_stable_witness :
  (pick (V4 1) ∅ 0 0 sh3).2 = Some c ∨ (pick (V4 1) ∅ 0 0 sh3).2 = (pick (V4 1) ∅ 0 0 sh2).2.
Proof.
  apply (source_hash_stable (V4 1) ∅ ∅ 0 0 0 0 sh2 sh3 [a; b] c []); [reflexivity..| | |].
  - vm_compute. reflexivity.
  - vm_compute. reflexivity.
  - intros j [->|[->|?%elem_of_nil]%elem_of_cons]%elem_of_cons; [vm_compute; split; reflexivity..|done].
Defined.

Lemma dial_complete_witness :
  ∃ p, dial net (λ _, (0, 0)%nat) (V4 1) 0 rr = (p, Some (Some b)) ∧ active (at_ p b) = 1 ∧ fails (at_ p a) = 1.
Proof.
  destruct (dial_complete net (λ _, (0, 0)%nat) (V4 1) 0 rr rr_ok) as [(p & r & Hd & _ & Hr) _].
  exists p. assert (r = Some b) as -> by (vm_compute in Hd; injection Hd as _ <-; reflexivity).
  split; [exact Hd|]. split; [apply Hr|]. vm_compute in Hd. injection Hd as <-. reflexivity.
Defined.

Lemma health_automaton_witness :
  health_of (observe_all [(1, Some "x"); (2, Some "x"); (3, None); (4, Some "x"); (5, Some "x"); (6, Some "x"); (7, None)] (at_ rr a))
  = Down 1.
Proof. rewrite health_automaton; vm_compute; reflexivity. Defined.
