(* ===== verification/Edge.v ===== *)
(** * The edge: the proxy in front of the relays (go/tunnel/edge: edge.go,
route.go, listener.go, tunnel.go, status.go)

The edge's listeners and pools are made from the stored edge domains; each
connection is routed by its server name, HTTP host or port to a site's pool or
to a relay. Pools are shared by pointer between the edge's table and the
routes, so the edge has a heap of pools. What the registry knows of relays and
tunnels ([Live]), the network, and what a client sends are arguments. *)

From S2P Require Import Prelude GoStrings NetIP Limiter Transport Access EdgeConf EdgePool.
From Stdlib Require Import Ascii QArith.
From stdpp Require Import options.
#[local] Open Scope l8_scope.
#[local] Open Scope Z_scope.

(** ** Data *)

Record RelayTarget := mkRelayTarget { RelayID : string; IP : string; Sessions : Z; Draining : bool }.
Definition zeroRelay : RelayTarget := mkRelayTarget "" "" 0 false.

(** What the live tables answer when they are asked. *)
Record Live := mkLive {
  Relays : list RelayTarget;
  OwnerOfHost : string → option RelayTarget;
  OwnerOfPort : Z → option (RelayTarget * string);
}.

Record EdgeConfig := mkEdgeConfig {
  BaseDomain : string;
  ControlSNI : string;
  NodeIP : string;
  BindHost : string;
  EForwardKey : string;
  ConnectionsPerSecond : Q;
  ConnectionsBurst : Z;
}.
#[export] Instance eta_edge_config : Eta EdgeConfig := λ c,
  mkEdgeConfig (BaseDomain c) (ControlSNI c) (NodeIP c) (BindHost c) (EForwardKey c) (ConnectionsPerSecond c) (ConnectionsBurst c).

(** The location of a pool. *)
Definition pid := positive.

(** A TERMINATE forward as the HTTP proxy sees it. *)
Record poolTunnel := mkPoolTunnel { ptID : string; ptPool : pid; ptFwd : EdgePortForward; ptAccess : Access }.

Record route := mkRoute {
  rdomain : EdgeDomain;
  rfwd : EdgePortForward;
  rpool : pid;
  raccess : Access;
  rtunnel : option poolTunnel;   (* TERMINATE only *)
}.

Record routeSet := mkRouteSet {
  byName : gmap string route;
  wildcards : gmap string route;   (* ".example.com" -> route *)
  base : option route;
  single : option route;
}.
#[export] Instance eta_routeSet : Eta routeSet := λ r, mkRouteSet (byName r) (wildcards r) (base r) (single r).

(** A public port; [lerr] is the error of a failed bind, [routes] is nil until
they are set. *)
Record listener := mkListener { lport : Z; lproto : EdgeProtocol; lerr : option string; routes : option routeSet }.
#[export] Instance eta_listener : Eta listener := λ l, mkListener (lport l) (lproto l) (lerr l) (routes l).

Record edge_counters := mkEdgeCounters { accepted : Z; rejectedRate : Z; rejectedIP : Z; noRoute : Z; dialFailures : Z }.
#[export] Instance eta_edge_counters : Eta edge_counters := λ c,
  mkEdgeCounters (accepted c) (rejectedRate c) (rejectedIP c) (noRoute c) (dialFailures c).

Record edge := mkEdge {
  cfg : EdgeConfig;
  limiter : IPLimiter;
  listeners : gmap Z listener;
  pools : gmap string pid;          (* by domain ID + forward ID *)
  version : Z;
  closed : bool;
  ecount : edge_counters;
  rr : Z;                           (* round robin over relays, uint64 *)
  pheap : gmap pid pool;
}.
#[export] Instance eta_edge : Eta edge := λ e,
  mkEdge (cfg e) (limiter e) (listeners e) (pools e) (version e) (closed e) (ecount e) (rr e) (pheap e).

Definition bump (f : edge_counters → edge_counters) (e : edge) : edge := e <| ecount := f (ecount e) |>.
Definition bump_accepted := bump (λ c, c <| accepted := accepted c + 1 |>).
Definition bump_rate := bump (λ c, c <| rejectedRate := rejectedRate c + 1 |>).
Definition bump_ip := bump (λ c, c <| rejectedIP := rejectedIP c + 1 |>).
Definition bump_noRoute := bump (λ c, c <| noRoute := noRoute c + 1 |>).
Definition bump_dial := bump (λ c, c <| dialFailures := dialFailures c + 1 |>).

Inductive edge_err := MissingConfig | ShortForwardKey.

(** [live] and [certs] say that the two are given. *)
Definition New (c : EdgeConfig) (live certs : bool) (now : Z) : result edge_err edge :=
  refuse! String.eqb (BaseDomain c) "" || negb live || negb certs with MissingConfig ;;
  refuse! (String.length (EForwardKey c) <? 32)%nat with ShortForwardKey ;;
  let c := if String.eqb (ControlSNI c) "" then c <| ControlSNI := "connect." +:+ BaseDomain c |> else c in
  let c := if Qeq_bool (ConnectionsPerSecond c) 0
           then c <| ConnectionsPerSecond := 20%Q |> <| ConnectionsBurst := 100 |> else c in
  Ok (mkEdge c (NewIPLimiter (ConnectionsPerSecond c) (ConnectionsBurst c) now) ∅ ∅ 0 false
        (mkEdgeCounters 0 0 0 0 0) 0 ∅).

Definition forwardKey (f : EdgePortForward) (i : nat) : string :=
  if negb (String.eqb (ForwardId f) "") then ForwardId f else "#" +:+ Itoa (Z.of_nat i).

Definition isRelay (r : route) : bool := bool_decide (Mode (rfwd r) = EDGE_FORWARD_MODE_RELAY).

Definition accessPolicy (d : EdgeDomain) : AccessPolicy := mkAccess (DAllowIps d) (DDenyIps d) [] "" None.

Definition clientIP (text : option Addr) : Addr := match text with None => AddrZero | Some a => Unmap a end.

(** ** Routes of a port *)

Section edge.
Context `{GoUnicode, Crypto, MapRange}.

Definition add_name (r : route) (rs : routeSet) (n : string) : routeSet :=
  let n := ToLower n in
  match CutPrefix "*" n with
  | Some rest => rs <| wildcards := <[rest := r]> (wildcards rs) |>
  | None => rs <| byName := <[n := r]> (byName rs) |>
  end.

Definition add_route (rs : routeSet) (r : route) : routeSet :=
  let rs := if bool_decide (FProtocol (rfwd r) = EDGE_PROTOCOL_TCP) then rs <| single := Some r |> else rs in
  if bool_decide (Kind (rdomain r) = EDGE_DOMAIN_KIND_TUNNEL_BASE) then rs <| base := Some r |>
  else foldl (add_name r) rs (Domain (rdomain r) :: Aliases (rdomain r)).

Definition newRouteSet (l : list route) : routeSet := foldl add_route (mkRouteSet ∅ ∅ None None) l.

(** ** Applying the domains *)

(** [LookupHost] is [net.LookupHost]; [Listen] the error of binding a port. *)
Context (LookupHost : string → option (list string)) (Listen : Z → option string).

Definition listen (port : Z) (proto : EdgeProtocol) : listener := mkListener port proto (Listen port) None.
Definition setRoutes (rs : routeSet) (l : listener) : listener := l <| routes := Some rs |>.

(** What the loop over the domains builds: the heap with the new pools, the
new table of pools and the routes of each port. *)
Record building := mkBuilding { bheap : gmap pid pool; bpools : gmap string pid; byPort : gmap Z (list route) }.

(** The pool of a forward: the old one if its forward is unchanged. *)
Definition pool_for (e : edge) (key : string) (f : EdgePortForward) (heap : gmap pid pool) : gmap pid pool * pid :=
  match (p ← pools e !! key; po ← heap !! p; if bool_decide (fwd po = f) then Some p else None) with
  | Some p => (heap, p)
  | None => let p := fresh (dom heap) in (<[p := newPool LookupHost key f (NodeIP (cfg e))]> heap, p)
  end.

Definition ports_of (f : EdgePortForward) : list Z := seqZ (ListenPort f) (last_port f - ListenPort f + 1).

Definition add_to_port (r : route) (m : gmap Z (list route)) (port : Z) : gmap Z (list route) :=
  <[port := default [] (m !! port) ++ [r]]> m.

Definition apply_forward (e : edge) (d : EdgeDomain) (a : Access) (b : building) (i : nat) (f : EdgePortForward) : building :=
  if negb (FEnabled f) then b
  else
    let key := DomainId d +:+ "/" +:+ forwardKey f i in
    let '(heap, p) := pool_for e key f (bheap b) in
    let r := mkRoute d f p a
      (if bool_decide (Mode f = EDGE_FORWARD_MODE_TERMINATE) then Some (mkPoolTunnel key p f a) else None) in
    mkBuilding heap (<[key := p]> (bpools b)) (foldl (add_to_port r) (byPort b) (ports_of f)).

Fixpoint apply_forwards (e : edge) (d : EdgeDomain) (a : Access) (b : building) (i : nat) (l : list EdgePortForward) : building :=
  match l with
  | [] => b
  | f :: l => apply_forwards e d a (apply_forward e d a b i f) (i + 1) l
  end.

Definition apply_domain (e : edge) (b : building) (d : EdgeDomain) : building :=
  if negb (Enabled d) then b
  else match ParseAccess (accessPolicy d) with
       | Err _ => b
       | Ok a => apply_forwards e d a b 0 (PortForwards d)
       end.

Definition first_proto (l : list route) : EdgeProtocol :=
  match l with r :: _ => FProtocol (rfwd r) | [] => EDGE_PROTOCOL_UNSPECIFIED end.

Definition stop_unused (new : gmap string pid) (heap : gmap pid pool) (kp : string * pid) : gmap pid pool :=
  if bool_decide (new !! kp.1 = Some kp.2) then heap else alter stop kp.2 heap.

Definition close_unused (ports : gmap Z (list route)) (ls : gmap Z listener) (pl : Z * listener) : gmap Z listener :=
  match ports !! pl.1 with
  | Some l => if bool_decide (first_proto l = lproto pl.2) then ls else delete pl.1 ls
  | None => delete pl.1 ls
  end.

Definition open_port (ls : gmap Z listener) (pr : Z * list route) : gmap Z listener :=
  let l := match ls !! pr.1 with Some l => l | None => listen pr.1 (first_proto pr.2) end in
  <[pr.1 := setRoutes (newRouteSet pr.2) l]> ls.

Definition Apply (domains : list EdgeDomain) (v : Z) (e : edge) : edge :=
  if closed e then e
  else
    let b := foldl (apply_domain e) (mkBuilding (pheap e) ∅ ∅) domains in
    let heap := foldl (stop_unused (bpools b)) (bheap b) (range (pools e)) in
    let ls := foldl (close_unused (byPort b)) (listeners e) (range (listeners e)) in
    let ls := foldl open_port ls (range (byPort b)) in
    e <| pheap := heap |> <| pools := bpools b |> <| listeners := ls |> <| version := v |>.

(** Closes every listener (they stay in the table) and pool. *)
Definition Close (e : edge) : edge :=
  e <| closed := true |> <| pheap := foldl (λ h kp, alter stop kp.2 h) (pheap e) (range (pools e)) |>.
End edge.

(** ** Choosing a relay *)

(** [sort.Slice] by identifier. *)
Definition id_le (a b : RelayTarget) : Prop := String.leb (RelayID a) (RelayID b) = true.
#[export] Instance id_le_dec : RelDecision id_le. Proof. intros a b. unfold id_le. apply _. Defined.

Definition ready_relays (live : Live) : list RelayTarget :=
  match List.filter (λ r, negb (Draining r)) (Relays live) with [] => Relays live | l => l end.

Definition relayPick (live : Live) (leastLoaded : bool) (e : edge) : edge * option RelayTarget :=
  match merge_sort id_le (ready_relays live) with
  | [] => (e, None)
  | l =>
      if leastLoaded then (e, choose (λ r best, Sessions r <? Sessions best) l)
      else let e := e <| rr := uint64 (rr e + 1) |> in (e, l !! Z.to_nat (rr e mod Z.of_nat (length l)))
  end.

(** ** Routing a name *)

Record target := mkTargetTo { troute : option route; trelay : RelayTarget; tok : bool }.

Definition relay_target (r : route) (relay : option RelayTarget) : target :=
  mkTargetTo (Some r) (default zeroRelay relay) (bool_decide (is_Some relay)).

Section serve.
Context `{GoUnicode}.

Definition resolve (live : Live) (rs : routeSet) (host : string) (e : edge) : edge * target :=
  let host := ToLower (TrimSuffix "." host) in
  match byName rs !! host with
  | Some r => (e, mkTargetTo (Some r) zeroRelay true)
  | None =>
  let owned :=
    match base rs with
    | Some b =>
        if String.eqb host "" then None
        else if String.eqb host (ControlSNI (cfg e))
        then let '(e, relay) := relayPick live true e in Some (e, relay_target b relay)
        else match OwnerOfHost live host with
             | Some relay => Some (e, mkTargetTo (Some b) relay true)
             | None => None
             end
    | None => None
    end in
  match owned with
  | Some r => r
  | None =>
  let wild :=
    match CutByte "." host with
    | Some (label, rest) => if String.eqb label "" then None else wildcards rs !! ("." +:+ rest)
    | None => None
    end in
  match wild with
  | Some r => (e, mkTargetTo (Some r) zeroRelay true)
  | None =>
  match base rs with
  | Some b => let '(e, relay) := relayPick live false e in (e, relay_target b relay)
  | None => (e, mkTargetTo None zeroRelay false)
  end end end end.

(** ** Serving a connection *)

(** A client's address: its text and the address [netip.ParseAddrPort] reads
in it. *)
Record peer := mkPeer { ptext : string; pip : option Addr }.

(** The far end of a stream. *)
Inductive upstream := ToRelay (addr : string) | ToMember (p : pid) (m : mid).

(** What becomes of a connection; a joined stream starts with a PROXY header
with the given TLVs, or with none. *)
Inductive outcome :=
| Closed | RejectedTLS | NotFound | Terminated
| Joined (up : upstream) (header : option (list TLV))
| Panic.

(** The network: dialing an address ([None]: connected), writing the PROXY
header, the random numbers of the [k]-th pick, and the time. *)
Record network := mkNetwork {
  dials : string → option string;
  writes : bool;
  random : nat → nat * nat;
  clock : Z;
}.

Definition admitted (t : target) (client : peer) (e : edge) : edge * bool :=
  match troute t with
  | Some r =>
      if negb (tok t) then (bump_noRoute e, false)
      else if negb (AllowsIP (raccess r) (clientIP (pip client))) then (bump_ip e, false)
      else (e, true)
  | None => (bump_noRoute e, false)
  end.

(** Dials a member of the pool at [p]. *)
Definition dial_pool (net : network) (client : Addr) (p : pid) (e : edge) : edge * option mid :=
  match pheap e !! p with
  | None => (e, None)
  | Some po =>
      let '(po, r) := dial (dials net) (random net) client (clock net) po in
      (e <| pheap := <[p := po]> (pheap e) |>, default None r)
  end.

Definition relay_addr (relay : RelayTarget) (r : route) : string := JoinHostPort (IP relay) (Itoa (TargetPort (rfwd r))).

Definition forward (net : network) (client : peer) (t : target) (e : edge) : edge * outcome :=
  match troute t with
  | None => (e, Panic)
  | Some r =>
      if isRelay r then
        let a := relay_addr (trelay t) r in
        match dials net a with
        | Some _ => (bump_dial e, Closed)
        | None => (e, if writes net then Joined (ToRelay a) (Some []) else Closed)
        end
      else
        let '(e, m) := dial_pool net (clientIP (pip client)) (rpool r) e in
        match m with
        | None => (bump_dial e, Closed)
        | Some m =>
            if ProxyProtocol (rfwd r) then
              if writes net then (e, Joined (ToMember (rpool r) m) (Some []))
              else (e <| pheap := alter (closeConn m) (rpool r) (pheap e) |>, Closed)
            else (e, Joined (ToMember (rpool r) m) None)
        end
  end.

Definition stream `{HMAC} (live : Live) (net : network) (client : peer) (port : Z) (r : route) (e : edge) : edge * outcome :=
  match OwnerOfPort live port with
  | None => (bump_noRoute e, Closed)
  | Some (relay, name) =>
      if negb (AllowsIP (raccess r) (clientIP (pip client))) then (bump_noRoute e, Closed)
      else
        let a := relay_addr relay r in
        match dials net a with
        | Some _ => (bump_dial e, Closed)
        | None =>
            (e, if writes net
                then Joined (ToRelay a) (Some (SignedTLVs (EForwardKey (cfg e)) name (ptext client) (clock net)))
                else Closed)
        end
  end.

(** [hello] is the server name of the peeked ClientHello; [None]: none came. *)
Definition serveTLS (live : Live) (net : network) (client : peer) (hello : option string) (rs : routeSet) (e : edge)
    : edge * outcome :=
  match hello with
  | None => (e, Closed)
  | Some name =>
      let '(e, t) := resolve live rs name e in
      let '(e, ok) := admitted t client e in
      if negb ok then (e, RejectedTLS)
      else match troute t with
           | Some r => if bool_decide (Mode (rfwd r) = EDGE_FORWARD_MODE_TERMINATE) then (e, Terminated)
                       else forward net client t e
           | None => (e, Panic)
           end
  end.

Definition serveHTTP (live : Live) (net : network) (client : peer) (host : option string) (rs : routeSet) (e : edge)
    : edge * outcome :=
  match host with
  | None => (e, Closed)
  | Some host =>
      let '(e, t) := resolve live rs host e in
      let '(e, ok) := admitted t client e in
      if negb ok then (e, NotFound) else forward net client t e
  end.

Definition serveTCP `{HMAC} (live : Live) (net : network) (client : peer) (port : Z) (rs : routeSet) (e : edge)
    : edge * outcome :=
  match single rs with
  | None => (e, Closed)
  | Some r =>
      if isRelay r && negb (ListenPortEnd (rfwd r) =? 0) then stream live net client port r e
      else
        let '(e, t) := if isRelay r
                       then let '(e, relay) := relayPick live false e in (e, relay_target r relay)
                       else (e, mkTargetTo (Some r) zeroRelay true) in
        let '(e, ok) := admitted t client e in
        if negb ok then (e, Closed) else forward net client t e
  end.

(** [peeked] is what the client sent first: a server name or an HTTP host.
Without routes the goroutine dereferences nil. *)
Definition serve `{HMAC} (live : Live) (net : network) (client : peer) (peeked : option string) (l : listener) (e : edge)
    : edge * outcome :=
  match lproto l, routes l with
  | EDGE_PROTOCOL_TLS, Some rs => serveTLS live net client peeked rs e
  | EDGE_PROTOCOL_HTTP, Some rs => serveHTTP live net client peeked rs e
  | EDGE_PROTOCOL_TLS, None | EDGE_PROTOCOL_HTTP, None =>
      match peeked with None => (e, Closed) | Some _ => (e, Panic) end
  | _, Some rs => serveTCP live net client (lport l) rs e
  | _, None => (e, Panic)
  end.

(** One accepted connection. *)
Definition accept `{HMAC} (live : Live) (net : network) (client : peer) (peeked : option string) (l : listener) (e : edge)
    : edge * outcome :=
  let '(lim, ok) := Allow (clientIP (pip client)) (clock net) (limiter e) in
  let e := e <| limiter := lim |> in
  if negb ok then (bump_rate e, Closed)
  else serve live net client peeked l (bump_accepted e).

(** ** TERMINATE forwards *)

Inductive HState := HStateUnknown | HStateActive.

Definition lookupHTTP (live : Live) (l : listener) (host : string) (e : edge) : edge * option (poolTunnel * HState * string) :=
  match routes l with
  | None => (e, None)
  | Some rs =>
      let '(e, t) := resolve live rs host e in
      (e, if negb (tok t) then None
          else r ← troute t; pt ← rtunnel r; Some (pt, HStateActive, Domain (rdomain r)))
  end.
End serve.

(** [Pick]: the address of a member; [None]: no backend is available. *)
Definition Pick (net : network) (client : peer) (t : poolTunnel) (e : edge) : edge * option string :=
  match pheap e !! ptPool t with
  | None => (e, None)
  | Some po =>
      let '(po, m) := pick (clientIP (pip client)) ∅ (random net 0).1 (random net 0).2 po in
      (e <| pheap := <[ptPool t := po]> (pheap e) |>, m ← m; Some (addr (at_ po m)))
  end.

(** A dialed member's connection, secured unless the backend speaks plain
HTTP; [tls] is the outcome of the handshake with an address. A failed
handshake closes the connection and counts against the member. *)
Definition secure (net : network) (tls : string → option string) (t : poolTunnel) (m : option mid) (e : edge) : edge * option mid :=
  match m with
  | None => (e, None)
  | Some m =>
      if bool_decide (BackendScheme (ptFwd t) = EDGE_BACKEND_SCHEME_HTTP) then (e, Some m)
      else match pheap e !! ptPool t with
           | None => (e, None)
           | Some po =>
               match tls (addr (at_ po m)) with
               | None => (e, Some m)
               | Some err =>
                   let po := update m (failed ("TLS: " +:+ err) (clock net)) (closeConn m po) in
                   (e <| pheap := <[ptPool t := po]> (pheap e) |>, None)
               end
           end
  end.

Definition OpenStream (net : network) (tls : string → option string) (client : peer) (t : poolTunnel) (e : edge) : edge * option mid :=
  let '(e, m) := dial_pool net (clientIP (pip client)) (ptPool t) e in secure net tls t m e.

Definition OpenStreamTo (net : network) (tls : string → option string) (backend : string) (t : poolTunnel) (e : edge) : edge * option mid :=
  match pheap e !! ptPool t with
  | None => (e, None)
  | Some po =>
      let '(po, r) := dialAddr (dials net) (random net) backend (clock net) po in
      secure net tls t (default None r) (e <| pheap := <[ptPool t := po]> (pheap e) |>)
  end.

(** ** Status *)


Record EdgeListenerStatus := mkListenerStatus {
  SPort : Z; SPortEnd : Z; SProtocol : EdgeProtocol; SBound : bool; SError : string; SDomains : list string;
}.
#[export] Instance eta_listener_status : Eta EdgeListenerStatus := λ s,
  mkListenerStatus (SPort s) (SPortEnd s) (SProtocol s) (SBound s) (SError s) (SDomains s).

Record EdgeBackendStatus := mkBackendStatus {
  BDomain : string; BListenPort : Z; BTarget : string; BHealthy : bool; BActiveConns : Z; BLastError : string; BLastCheck : Z;
}.

Record EdgeStatus := mkStatus {
  StVersion : Z; StListeners : list EdgeListenerStatus; StBackends : list EdgeBackendStatus; StAccepted : Z;
}.

Section status.
Context `{MapRange}.

Definition routeDomains (rs : option routeSet) : list string :=
  match rs with
  | None => []
  | Some rs =>
      let rts := option_list (base rs) ++ option_list (single rs) ++ (range (byName rs)).*2 ++ (range (wildcards rs)).*2 in
      merge_sort str_le
        (foldl (λ out r, if bool_decide (Domain (rdomain r) ∈ out) then out else out ++ [Domain (rdomain r)]) [] rts)
  end.

Definition listener_status (p : Z) (l : listener) : EdgeListenerStatus :=
  mkListenerStatus (int32 p) 0 (lproto l) (bool_decide (lerr l = None)) (default "" (lerr l)) (routeDomains (routes l)).

Definition last_reported (s : EdgeListenerStatus) : Z := if SPortEnd s =? 0 then SPort s else SPortEnd s.

(** The port continues the last listener reported. *)
Definition extends (prev ls : EdgeListenerStatus) : bool :=
  (last_reported prev =? int32 (SPort ls - 1)) && bool_decide (SProtocol prev = SProtocol ls) && SBound prev && SBound ls
  && String.eqb (JoinByte "," (SDomains prev)) (JoinByte "," (SDomains ls)).

(** The report is built with the last entry first, and turned around. *)
Definition report (acc : list EdgeListenerStatus) (ls : EdgeListenerStatus) : list EdgeListenerStatus :=
  match acc with
  | prev :: acc' => if extends prev ls then (prev <| SPortEnd := SPort ls |>) :: acc' else ls :: acc
  | [] => [ls]
  end.

Definition backend_status (k : string) (po : pool) (m : member) : EdgeBackendStatus :=
  mkBackendStatus k (ListenPort (fwd po)) (addr m) (healthy m && negb (disabled m)) (active m) (lastErr m) (unix (lastCheck m)).

Definition Status (e : edge) : EdgeStatus :=
  let ports := merge_sort Z.le (range (listeners e)).*1 in
  let keys := merge_sort str_le (range (pools e)).*1 in
  mkStatus (version e)
    (rev (foldl (λ acc p, match listeners e !! p with Some l => report acc (listener_status p l) | None => acc end) [] ports))
    (k ← keys; match (p ← pools e !! k; pheap e !! p) with
               | Some po => (λ m, backend_status k po (at_ po m)) <$> members po
               | None => []
               end)
    (accepted (ecount e)).
End status.
