(* ===== verification/EdgeSpec.v ===== *)
(** * The edge: theorems about its configuration

What [Apply] makes of the stored domains: the listeners, the routes on them
and the pools behind them. *)

From S2P Require Import Prelude GoStrings Protocol NetIP Limiter Transport Access EdgeConf EdgeConfSpec EdgePool EdgePoolSpec Edge.
From Stdlib Require Import Ascii.
From stdpp Require Import options.
#[local] Open Scope l8_scope.
#[local] Open Scope Z_scope.

(** ** The forwards that are served *)

Record item := mkItem { i_dom : EdgeDomain; i_acc : Access; i_idx : nat; i_fwd : EdgePortForward }.

Definition key_of (x : item) : string := DomainId (i_dom x) +:+ "/" +:+ forwardKey (i_fwd x) (i_idx x).

(** The route made for a served forward with its pool. *)
Definition route_of (x : item * pid) : route :=
  mkRoute (i_dom x.1) (i_fwd x.1) x.2 (i_acc x.1)
    (if bool_decide (Mode (i_fwd x.1) = EDGE_FORWARD_MODE_TERMINATE)
     then Some (mkPoolTunnel (key_of x.1) x.2 (i_fwd x.1) (i_acc x.1)) else None).

Section items.
Context `{GoUnicode, Crypto}.

Fixpoint forward_items (d : EdgeDomain) (a : Access) (i : nat) (l : list EdgePortForward) : list item :=
  match l with
  | [] => []
  | f :: l => (if FEnabled f then [mkItem d a i f] else []) ++ forward_items d a (i + 1) l
  end.

Definition domain_items (d : EdgeDomain) : list item :=
  if Enabled d then match ParseAccess (accessPolicy d) with Ok a => forward_items d a 0 (PortForwards d) | Err _ => [] end
  else [].

Definition items (l : list EdgeDomain) : list item := l ≫= domain_items.

(** Forward [i] of domain [d] is to be served. *)
Definition served (l : list EdgeDomain) (x : item) : Prop :=
  i_dom x ∈ l ∧ Enabled (i_dom x) = true ∧ ParseAccess (accessPolicy (i_dom x)) = Ok (i_acc x) ∧
  PortForwards (i_dom x) !! i_idx x = Some (i_fwd x) ∧ FEnabled (i_fwd x) = true.

Lemma elem_of_forward_items d a i l x :
  x ∈ forward_items d a i l ↔
  i_dom x = d ∧ i_acc x = a ∧ FEnabled (i_fwd x) = true ∧ ∃ j, i_idx x = (i + j)%nat ∧ l !! j = Some (i_fwd x).
Proof.
  revert i. induction l as [|f l IH]; intros i; cbn [forward_items].
  { split; [by intros ?%elem_of_nil|]. by intros (_ & _ & _ & j & _ & ?). }
  rewrite elem_of_app, IH. split.
  - intros [Hin|(-> & -> & ? & j & -> & ?)].
    + destruct (FEnabled f) eqn:Hf; [|by apply elem_of_nil in Hin]. apply list_elem_of_singleton in Hin as ->.
      split_and!; [done..|]. exists 0%nat. split; [cbn; lia|done].
    + split_and!; [done..|]. exists (S j). split; [lia|done].
  - intros (<- & <- & Hf & [|j] & Hi & Hj); cbn in Hj.
    + left. injection Hj as ->. rewrite Hf. apply list_elem_of_singleton. destruct x; cbn in *. f_equal. lia.
    + right. split_and!; [done..|]. exists j. split; [lia|done].
Qed.

Lemma elem_of_items l x : x ∈ items l ↔ served l x.
Proof.
  unfold items, served. rewrite list_elem_of_bind. unfold domain_items. split.
  - intros (d & Hx & Hd). destruct (Enabled d) eqn:He; [|by apply elem_of_nil in Hx].
    destruct (ParseAccess (accessPolicy d)) as [a|] eqn:Ha; [|by apply elem_of_nil in Hx].
    apply elem_of_forward_items in Hx as (-> & -> & ? & j & -> & ?). done.
  - intros (Hd & He & Ha & Hj & Hf). exists (i_dom x). rewrite He, Ha. split; [|done].
    apply elem_of_forward_items. split_and!; [done..|]. by exists (i_idx x).
Qed.

Lemma NoDup_forward_items d a i l : NoDup (forward_items d a i l).
Proof.
  revert i. induction l as [|f l IH]; intros i; cbn [forward_items]; [apply NoDup_nil_2|].
  apply NoDup_app. split_and!; [destruct (FEnabled f); [apply NoDup_singleton|apply NoDup_nil_2]| |apply IH].
  intros x Hx (_ & _ & _ & j & Hj & _)%elem_of_forward_items.
  destruct (FEnabled f); [|by apply elem_of_nil in Hx]. apply list_elem_of_singleton in Hx as ->. cbn in Hj. lia.
Qed.

Lemma NoDup_items l : NoDup l → NoDup (items l).
Proof.
  induction l as [|d l IH]; intros Hnd; [apply NoDup_nil_2|]. apply NoDup_cons in Hnd as [Hd Hnd].
  change (items (d :: l)) with (domain_items d ++ items l). apply NoDup_app. split_and!; [| |by apply IH].
  - unfold domain_items. destruct (Enabled d); [|apply NoDup_nil_2].
    destruct (ParseAccess _); [apply NoDup_forward_items|apply NoDup_nil_2].
  - intros x Hx (Hdom & _)%elem_of_items. apply Hd. unfold domain_items in Hx.
    destruct (Enabled d); [|by apply elem_of_nil in Hx].
    destruct (ParseAccess _); [|by apply elem_of_nil in Hx]. apply elem_of_forward_items in Hx as [<- _]. done.
Qed.
End items.

(** ** What the loop over the domains builds *)

Section build.
Context `{GoUnicode, Crypto} (LookupHost : string → option (list string)) (e : edge).

Definition build_item (b : building) (x : item) : building :=
  let '(heap, p) := pool_for LookupHost e (key_of x) (i_fwd x) (bheap b) in
  mkBuilding heap (<[key_of x := p]> (bpools b)) (foldl (add_to_port (route_of (x, p))) (byPort b) (ports_of (i_fwd x))).

Lemma apply_forwards_items d a b i l :
  apply_forwards LookupHost e d a b i l = foldl build_item b (forward_items d a i l).
Proof.
  revert b i. induction l as [|f l IH]; intros b i; [done|]. cbn [apply_forwards forward_items].
  rewrite foldl_app, <-IH. f_equal. unfold apply_forward. destruct (FEnabled f); [|done]. cbn [negb foldl].
  unfold build_item, key_of, route_of. cbn [i_dom i_fwd i_idx i_acc fst snd]. by destruct (pool_for _ _ _ _ _).
Qed.

Lemma apply_domains_items b l : foldl (apply_domain LookupHost e) b l = foldl build_item b (items l).
Proof.
  revert b. induction l as [|d l IH]; intros b; [done|]. change (items (d :: l)) with (domain_items d ++ items l).
  rewrite foldl_app. cbn [foldl]. rewrite <-IH. f_equal. unfold apply_domain, domain_items.
  destruct (Enabled d); [|done]. destruct (ParseAccess _); [|done]. cbn [negb]. apply apply_forwards_items.
Qed.

(** The pool a forward is given: the old pool of its key, when it was made for
the same forward, or a new one. *)
Definition assigned (heap : gmap pid pool) (x : item) (p : pid) : Prop :=
  ∃ po, heap !! p = Some po ∧ fwd po = i_fwd x ∧
    (pools e !! key_of x = Some p ∧ pheap e !! p = Some po ∨
     pheap e !! p = None ∧ done po = false ∧
     ∀ p0 po0, pools e !! key_of x = Some p0 → pheap e !! p0 = Some po0 → fwd po0 ≠ i_fwd x).

Record built (l : list item) (ps : list pid) (b : building) : Prop := {
  bt_len : length ps = length l;
  bt_ports q : default [] (byPort b !! q) = route_of <$> filter (λ x, listens (i_fwd x.1) q) (zip l ps);
  bt_some q rl : byPort b !! q = Some rl → rl ≠ [];
  bt_old : pheap e ⊆ bheap b;
  bt_pool x p : (x, p) ∈ zip l ps → assigned (bheap b) x p;
  bt_new p : is_Some (bheap b !! p) → pheap e !! p = None → p ∈ ps;
  bt_once j k p : ps !! j = Some p → ps !! k = Some p → pheap e !! p = None → j = k;
  bt_pools : bpools b = list_to_map (reverse (zip (key_of <$> l) ps));
  bt_fine : (∀ p po, pheap e !! p = Some po → pool_ok po) → ∀ p po, bheap b !! p = Some po → pool_ok po;
}.

Lemma newPool_fwd i f node : fwd (newPool LookupHost i f node) = f ∧ done (newPool LookupHost i f node) = false.
Proof.
  unfold newPool. destruct (bool_decide _); [done|]. unfold resolveMembers. cbn [fwd].
  destruct (TargetKind f); try done.
  - by destruct (foldl _ _ _).
  - destruct (LookupHost _); [by destruct (foldl _ _ _)|done].
Qed.

Lemma assigned_mono heap heap' x p : heap ⊆ heap' → assigned heap x p → assigned heap' x p.
Proof. intros Hsub (po & Hp & ?). exists po. split; [by eapply lookup_weaken|done]. Qed.

Lemma pool_for_spec x heap heap' p :
  pheap e ⊆ heap → (∀ p po, pools e !! key_of x = Some p → heap !! p = Some po → pheap e !! p = Some po) →
  pool_for LookupHost e (key_of x) (i_fwd x) heap = (heap', p) →
  heap ⊆ heap' ∧ assigned heap' x p ∧
  (heap' = heap ∧ is_Some (pheap e !! p) ∨
   heap !! p = None ∧ (∀ q, q ≠ p → heap' !! q = heap !! q) ∧ ∀ po, heap' !! p = Some po → pool_ok po).
Proof.
  intros Hsub Hold Hpf. unfold pool_for in Hpf.
  destruct (pools e !! key_of x ≫= _) as [p0|] eqn:Hb.
  - injection Hpf as <- <-. apply bind_Some in Hb as (p1 & Hk & Hb). apply bind_Some in Hb as (po & Hpo & Hb).
    destruct (bool_decide _) eqn:Hf; [|done]. injection Hb as ->. bool_facts.
    assert (pheap e !! p0 = Some po) as He by (by apply Hold). split_and!; [done| |left; split; [done|by exists po]].
    exists po. split_and!; [done..|]. by left.
  - injection Hpf as <- <-. set (p := fresh (dom heap)). assert (heap !! p = None) as Hp
      by (apply not_elem_of_dom, is_fresh).
    destruct (newPool_fwd (key_of x) (i_fwd x) (NodeIP (cfg e))) as [Hf Hd].
    split_and!; [by apply insert_subseteq| |right; split_and!; [done|intros q Hq; by apply lookup_insert_ne|]].
    2:{ intros po. rewrite lookup_insert_eq. intros [= <-]. apply newPool_ok. }
    eexists. rewrite lookup_insert_eq. split_and!; [done|done|]. right.
    split_and!; [by eapply lookup_weaken_None|done|]. intros p0 po0 Hk Hpo0 Heq. rewrite Hk in Hb. cbn in Hb.
    rewrite (lookup_weaken _ _ _ _ Hpo0 Hsub) in Hb. cbn in Hb. rewrite bool_decide_eq_true_2 in Hb by done. done.
Qed.

Lemma ports_of_listens f q : q ∈ ports_of f ↔ listens f q.
Proof. unfold ports_of, listens. rewrite elem_of_seqZ. lia. Qed.

Lemma add_to_ports r m l q :
  NoDup l → default [] (foldl (add_to_port r) m l !! q) = default [] (m !! q) ++ (if decide (q ∈ l) then [r] else []) ∧
  (m !! q ≠ Some [] → foldl (add_to_port r) m l !! q ≠ Some []).
Proof.
  revert m. induction l as [|p l IH]; intros m Hnd.
  { rewrite decide_False by apply not_elem_of_nil. rewrite app_nil_r. done. }
  apply NoDup_cons in Hnd as [Hp Hnd]. cbn [foldl]. destruct (IH (add_to_port r m p) Hnd) as [IH1 IH2].
  unfold add_to_port in *. destruct (decide (q = p)) as [->|Hne].
  - rewrite IH1, lookup_insert_eq in *. rewrite decide_False, decide_True, app_nil_r by (done || left). split; [done|].
    intros _. apply IH2. cbn. intros [= Hx]. by apply app_eq_nil in Hx as [_ ?].
  - rewrite IH1, lookup_insert_ne in * by done. split; [|done]. f_equal.
    destruct (decide (q ∈ l)); [rewrite decide_True by (by right)|rewrite decide_False by set_solver]; done.
Qed.

Lemma built_start : built [] [] (mkBuilding (pheap e) ∅ ∅).
Proof.
  split; cbn; [done|done|by intros q rl|done| | |done|done|done].
  - by intros x p ?%elem_of_nil.
  - intros p [po Hp] Hn. by rewrite Hn in Hp.
Qed.

Hypothesis table_valid : ∀ k p, pools e !! k = Some p → is_Some (pheap e !! p).

Lemma built_step l ps b x :
  built l ps b → ∃ p, built (l ++ [x]) (ps ++ [p]) (build_item b x).
Proof using table_valid.
  intros Hb. unfold build_item. destruct (pool_for _ _ _ _ _) as [heap p] eqn:Hpf.
  apply pool_for_spec in Hpf as (Hsub & Hass & Hnew); [|apply Hb|].
  2:{ intros p0 po Hk Hpo. destruct (table_valid _ _ Hk) as [po' Hpo']. rewrite Hpo'.
      pose proof (lookup_weaken _ _ _ _ Hpo' (bt_old _ _ _ Hb)). congruence. }
  exists p. pose proof (bt_len _ _ _ Hb) as Hlen.
  assert (zip (l ++ [x]) (ps ++ [p]) = zip l ps ++ [(x, p)]) as Hzip by (by rewrite zip_with_app by done).
  split; cbn [byPort bheap bpools].
  - rewrite !length_app, Hlen. done.
  - intros q. destruct (add_to_ports (route_of (x, p)) (byPort b) (ports_of (i_fwd x)) q) as [-> _]; [apply NoDup_seqZ|].
    rewrite Hzip, filter_app, fmap_app, (bt_ports _ _ _ Hb). f_equal. rewrite filter_cons, filter_nil. cbn [fst].
    destruct (decide (q ∈ ports_of (i_fwd x))) as [Hq|Hq]; rewrite ports_of_listens in Hq;
      [by rewrite decide_True by done|by rewrite decide_False by done].
  - intros q rl Hrl ->. revert Hrl. apply add_to_ports; [apply NoDup_seqZ|]. intros Hq. by eapply bt_some.
  - etransitivity; [apply Hb|done].
  - intros y q. rewrite Hzip, elem_of_app, list_elem_of_singleton. intros [Hy|[= -> ->]]; [|done].
    eapply assigned_mono; [done|by apply Hb].
  - intros q Hq Hn. rewrite elem_of_app, list_elem_of_singleton. destruct (decide (q = p)) as [|Hne]; [by right|left].
    apply (bt_new _ _ _ Hb); [|done]. destruct Hnew as [[-> _]|(_ & Hnew & _)]; [done|]. by rewrite <-Hnew.
  - assert (∀ q, q ∈ ps → pheap e !! q = None → q ≠ p) as Hps.
    { intros q Hq Hn ->. destruct Hnew as [[_ [? ?]]|(Hnone & _)]; [congruence|].
      apply list_elem_of_lookup in Hq as [j Hj]. destruct (lookup_lt_is_Some_2 l j) as [y Hy];
        [rewrite <-Hlen; by eapply lookup_lt_Some|].
      destruct (bt_pool _ _ _ Hb y p) as (po & Hpo & _); [|congruence].
      apply (list_elem_of_lookup_2 _ j). by rewrite lookup_zip_with, Hy, Hj. }
    intros j k q Hj Hk Hn. rewrite !lookup_app_Some in *.
    destruct Hj as [Hj|[Hj1 Hj]], Hk as [Hk|[Hk1 Hk]].
    + by eapply (bt_once _ _ _ Hb).
    + apply list_lookup_singleton_Some in Hk as [_ <-]. by destruct (Hps p (list_elem_of_lookup_2 _ _ _ Hj) Hn).
    + apply list_lookup_singleton_Some in Hj as [_ <-]. by destruct (Hps p (list_elem_of_lookup_2 _ _ _ Hk) Hn).
    + apply list_lookup_singleton_Some in Hj as [? _], Hk as [? _]. lia.
  - rewrite (bt_pools _ _ _ Hb), fmap_app, zip_with_app by (by rewrite length_fmap). cbn. by rewrite reverse_snoc.
  - intros Hfine q po Hq. destruct Hnew as [[-> _]|(_ & Hne & Hp)]; [by eapply (bt_fine _ _ _ Hb)|].
    destruct (decide (q = p)) as [->|Hqp]; [by apply Hp|]. rewrite Hne in Hq by done. by eapply (bt_fine _ _ _ Hb).
Qed.

Lemma built_items l : ∃ ps, built l ps (foldl build_item (mkBuilding (pheap e) ∅ ∅) l).
Proof using table_valid.
  induction l as [|x l [ps IH]] using rev_ind; [exists []; apply built_start|].
  rewrite foldl_app. destruct (built_step _ _ _ x IH) as [p Hp]. by exists (ps ++ [p]).
Qed.
End build.

(** ** Stopping pools, closing and opening ports *)

Lemma stop_loop new l heap p :
  (∀ k, (k, p) ∈ l → new !! k = Some p) → foldl (stop_unused new) heap l !! p = heap !! p.
Proof.
  revert heap. induction l as [|[k q] l IH]; intros heap Hl; [done|]. cbn [foldl].
  rewrite IH by (intros k' ?; apply Hl; by right). unfold stop_unused. cbn [fst snd].
  destruct (bool_decide _) eqn:Hb; [done|]. bool_facts. apply lookup_alter_ne. intros ->. apply Hb, Hl. left.
Qed.

Lemma stop_idem po : stop (stop po) = stop po.
Proof. done. Qed.

Lemma stop_loop_out new l heap p k :
  (k, p) ∈ l → new !! k ≠ Some p → foldl (stop_unused new) heap l !! p = stop <$> heap !! p.
Proof.
  intros Hin Hk.
  assert (∀ l heap, foldl (stop_unused new) heap l !! p = heap !! p ∨ foldl (stop_unused new) heap l !! p = stop <$> heap !! p) as Hor.
  { clear. induction l as [|[k q] l IH]; intros heap; [by left|]. cbn [foldl]. unfold stop_unused at 2 4. cbn [fst snd].
    destruct (bool_decide _); [apply IH|]. destruct (decide (q = p)) as [->|Hne].
    - right. destruct (IH (alter stop p heap)) as [-> | ->]; rewrite lookup_alter_eq; [done|]. by destruct (heap !! p).
    - destruct (IH (alter stop q heap)) as [-> | ->]; rewrite lookup_alter_ne by done; [by left|by right]. }
  revert heap. induction l as [|[k' q] l IH]; intros heap; [by apply elem_of_nil in Hin|]. cbn [foldl].
  apply elem_of_cons in Hin as [[= <- <-]|Hin].
  - unfold stop_unused at 2. cbn [fst snd]. rewrite bool_decide_eq_false_2 by done.
    destruct (Hor l (alter stop p heap)) as [-> | ->]; rewrite lookup_alter_eq; [done|]. by destruct (heap !! p).
  - rewrite IH by done. unfold stop_unused. cbn [fst snd]. destruct (bool_decide _); [done|].
    destruct (decide (q = p)) as [->|Hne]; [rewrite lookup_alter_eq; by destruct (heap !! p)|by rewrite lookup_alter_ne].
Qed.

Section apply.
Context `{GoUnicode, Crypto, MapRange} (LookupHost : string → option (list string)) (Listen : Z → option string).

(** A port's listener after [Apply]: the old one if it has the protocol of the
port's routes, else a new one; always with the new routes. *)
Definition port_after (old : option listener) (p : Z) (rl : list route) : listener :=
  setRoutes (newRouteSet rl)
    match old with
    | Some l => if bool_decide (first_proto rl = lproto l) then l else listen Listen p (first_proto rl)
    | None => listen Listen p (first_proto rl)
    end.

Lemma ports_after (ports : gmap Z (list route)) (ls : gmap Z listener) p :
  foldl (open_port Listen) (foldl (close_unused ports) ls (range ls)) (range ports) !! p =
  port_after (ls !! p) p <$> ports !! p.
Proof.
  set (ls1 := foldl _ ls _).
  assert (ls1 !! p = rl ← ports !! p; l ← ls !! p; if bool_decide (first_proto rl = lproto l) then Some l else None) as Hls1.
  { destruct (foldl_pointwise (λ (ls : gmap Z listener) k, ls !! k) (close_unused ports)
      (λ k l w, rl ← ports !! k; if bool_decide (first_proto rl = lproto l) then w else None) (range ls) ls) as [Hin Hout].
    - intros s k v. unfold close_unused. cbn [fst snd]. destruct (ports !! k) as [rl|]; cbn; [|by rewrite lookup_delete_eq].
      destruct (bool_decide _); [done|by rewrite lookup_delete_eq].
    - intros s k v k' Hk. unfold close_unused. cbn [fst snd]. destruct (ports !! k); [destruct (bool_decide _); [done|]|];
        by rewrite lookup_delete_ne.
    - apply NoDup_range.
    - unfold ls1. destruct (ls !! p) as [l|] eqn:Hl; cbn.
      + rewrite (Hin p l) by (by apply elem_of_range). by rewrite Hl.
      + rewrite Hout; [rewrite Hl; by destruct (ports !! p)|]. rewrite elem_of_range_keys, Hl. by intros [? ?]. }
  destruct (foldl_pointwise (λ (ls : gmap Z listener) k, ls !! k) (open_port Listen)
    (λ k rl w, Some (setRoutes (newRouteSet rl) (match w with Some l => l | None => listen Listen k (first_proto rl) end)))
    (range ports) ls1) as [Hin Hout].
  - intros s k v. unfold open_port. cbn [fst snd]. by rewrite lookup_insert_eq.
  - intros s k v k' Hk. unfold open_port. cbn [fst snd]. by rewrite lookup_insert_ne.
  - apply NoDup_range.
  - destruct (ports !! p) as [rl|] eqn:Hp; cbn.
    + rewrite (Hin p rl) by (by apply elem_of_range). rewrite Hls1. unfold port_after. cbn.
      destruct (ls !! p) as [l|]; cbn; [by destruct (bool_decide _)|done].
    + rewrite Hout by (rewrite elem_of_range_keys, Hp; by intros [? ?]). by rewrite Hls1.
Qed.

(** ** Pools *)

(** The table holds exactly the pools that run, each under one key. *)
Record pools_ok (e : edge) : Prop := {
  po_valid k p : pools e !! k = Some p → ∃ po, pheap e !! p = Some po ∧ done po = false;
  po_running p po : pheap e !! p = Some po → done po = false → ∃ k, pools e !! k = Some p;
  po_inj k k' p : pools e !! k = Some p → pools e !! k' = Some p → k = k';
}.

Lemma Apply_state e domains v :
  closed e = false → (∀ k p, pools e !! k = Some p → is_Some (pheap e !! p)) →
  ∃ ps b, built e (items domains) ps b ∧
    pools (Apply LookupHost Listen domains v e) = bpools b ∧
    pheap (Apply LookupHost Listen domains v e) = foldl (stop_unused (bpools b)) (bheap b) (range (pools e)) ∧
    (∀ p, listeners (Apply LookupHost Listen domains v e) !! p = port_after (listeners e !! p) p <$> byPort b !! p).
Proof.
  intros Hc Hv. unfold Apply. rewrite Hc. rewrite apply_domains_items.
  destruct (built_items LookupHost e Hv (items domains)) as [ps Hb]. exists ps. eexists. split; [exact Hb|].
  split_and!; [done|done|]. intros p. cbn [listeners set_field]. apply ports_after.
Qed.

Lemma zip_key (l : list item) (ps : list pid) k p :
  (k, p) ∈ zip (key_of <$> l) ps → ∃ x, (x, p) ∈ zip l ps ∧ key_of x = k.
Proof.
  revert ps. induction l as [|x l IH]; intros [|q ps]; cbn; try by intros ?%elem_of_nil.
  intros [[= -> ->]|Hin]%elem_of_cons; [exists x; split; [left|done]|].
  destruct (IH ps Hin) as (y & ? & ?). exists y. split; [by right|done].
Qed.

Lemma key_zip (l : list item) (ps : list pid) x p : (x, p) ∈ zip l ps → (key_of x, p) ∈ zip (key_of <$> l) ps.
Proof.
  revert ps. induction l as [|y l IH]; intros [|q ps]; cbn; try by intros ?%elem_of_nil.
  intros [[= -> ->]|Hin]%elem_of_cons; [left|right; by apply IH].
Qed.

Lemma built_table e l ps b :
  built e l ps b → (∀ k p, bpools b !! k = Some p → ∃ x, (x, p) ∈ zip l ps ∧ key_of x = k) ∧
  (NoDup (key_of <$> l) → ∀ x p, (x, p) ∈ zip l ps → bpools b !! key_of x = Some p).
Proof.
  intros Hb. rewrite (bt_pools _ _ _ _ Hb). split.
  - intros k p Hk%elem_of_list_to_map_2. rewrite elem_of_reverse in Hk. by apply zip_key.
  - intros Hnd x p Hx. apply elem_of_list_to_map_1; [|by apply elem_of_reverse, key_zip].
    rewrite fmap_reverse, fst_zip by (rewrite length_fmap; rewrite (bt_len _ _ _ _ Hb); done). by rewrite reverse_Permutation.
Qed.

(** Keys of served forwards are pools of the heap. *)
Lemma zip_total {A B} (l : list A) (l' : list B) x : length l' = length l → x ∈ l → ∃ y, (x, y) ∈ zip l l'.
Proof.
  revert l'. induction l as [|a l IH]; intros [|b l'] Hl; try done; [by intros ?%elem_of_nil|].
  intros [->|Hx]%elem_of_cons; [exists b; left|]. destruct (IH l') as [y Hy]; [by injection Hl|done|]. exists y. by right.
Qed.

(** After a change of the configuration, a pool is as it was if its forward
is unchanged, and stopped if it is no longer in the table. *)
Lemma Apply_heap e domains ps b :
  pools_ok e → built e (items domains) ps b → NoDup (key_of <$> items domains) →
  let heap := foldl (stop_unused (bpools b)) (bheap b) (range (pools e)) in
  (∀ k p, bpools b !! k = Some p → heap !! p = bheap b !! p) ∧
  (∀ p po, heap !! p = Some po → done po = false → ∃ k, bpools b !! k = Some p).
Proof.
  intros Hok Hb Hnd heap. destruct (built_table _ _ _ _ Hb) as [Htab Hin].
  assert (∀ x p, (x, p) ∈ zip (items domains) ps → is_Some (pheap e !! p) → pools e !! key_of x = Some p) as Hold.
  { intros x p Hx [po Hpo]. destruct (bt_pool _ _ _ _ Hb x p Hx) as (? & _ & _ & [[? _]|[? _]]); [done|congruence]. }
  split.
  - intros k p Hk. apply stop_loop. intros k' Hk'%elem_of_range.
    destruct (Htab k p Hk) as (x & Hx & <-). destruct (po_valid _ Hok _ _ Hk') as (po & Hpo & _).
    by rewrite (po_inj _ Hok k' (key_of x) p Hk' (Hold x p Hx ltac:(by exists po))).
  - intros p po Hpo Hrun. destruct (pheap e !! p) as [po0|] eqn:He.
    + assert (bheap b !! p = Some po0) as Hb0 by (eapply lookup_weaken; [done|apply Hb]). destruct (done po0) eqn:Hd.
      * unfold heap in Hpo. rewrite stop_loop in Hpo by (intros k ?%elem_of_range;
          destruct (po_valid _ Hok k p) as (? & ? & ?); [done|congruence]). congruence.
      * destruct (po_running _ Hok p po0 He Hd) as [k Hk]. destruct (decide (bpools b !! k = Some p)) as [|Hne]; [by exists k|].
        unfold heap in Hpo. rewrite (stop_loop_out _ _ _ p k) in Hpo by (by rewrite ?elem_of_range).
        by apply fmap_Some in Hpo as (? & _ & ->).
    + assert (is_Some (bheap b !! p)) as Hs.
      { unfold heap in Hpo. rewrite stop_loop in Hpo; [by exists po|]. intros k Hk%elem_of_range.
        destruct (po_valid _ Hok k p Hk) as (? & ? & _). congruence. }
      apply (bt_new _ _ _ _ Hb) in Hs; [|done]. apply list_elem_of_lookup in Hs as [j Hj].
      destruct (lookup_lt_is_Some_2 (items domains) j) as [x Hx];
        [rewrite <-(bt_len _ _ _ _ Hb); by eapply lookup_lt_Some|].
      exists (key_of x). apply Hin; [done|]. apply (list_elem_of_lookup_2 _ j). by rewrite lookup_zip_with, Hx, Hj.
Qed.

(** Different forwards have different pools. *)
Lemma built_inj e its ps b x x' p :
  pools_ok e → built e its ps b → (x, p) ∈ zip its ps → (x', p) ∈ zip its ps → key_of x = key_of x'.
Proof.
  intros Hok Hb Hx Hx'. destruct (bt_pool _ _ _ _ Hb x p Hx) as (po & _ & _ & Hor).
  destruct (bt_pool _ _ _ _ Hb x' p Hx') as (po' & _ & _ & Hor').
  destruct (pheap e !! p) as [po0|] eqn:He.
  - destruct Hor as [[? _]|[? _]]; [|done]. destruct Hor' as [[? _]|[? _]]; [|done]. by eapply (po_inj _ Hok).
  - apply list_elem_of_lookup in Hx as [i Hi], Hx' as [j Hj]. rewrite lookup_zip_with in Hi, Hj.
    destruct (its !! i) eqn:Hi1, (ps !! i) eqn:Hi2; try done.
    destruct (its !! j) eqn:Hj1, (ps !! j) eqn:Hj2; try done. cbn in Hi, Hj. simplify_eq.
    rewrite (bt_once _ _ _ _ Hb i j p Hi2 Hj2 He) in Hi1. congruence.
Qed.

(** what a change of the configuration does to the load balancing pools.
When the served forwards have different keys, the table afterwards holds one
running pool for each of them and nothing else runs: pools of removed or
changed forwards are stopped. The pool of an unchanged forward is the same
object with its members' health and counts as they were. *)
Theorem Apply_pools e domains v :
  pools_ok e → closed e = false → NoDup (key_of <$> items domains) →
  let e' := Apply LookupHost Listen domains v e in
  pools_ok e' ∧
  (∀ k, is_Some (pools e' !! k) ↔ ∃ x, served domains x ∧ key_of x = k) ∧
  (∀ x, served domains x → ∃ p po, pools e' !! key_of x = Some p ∧ pheap e' !! p = Some po ∧ fwd po = i_fwd x ∧
     ∀ p0 po0, pools e !! key_of x = Some p0 → pheap e !! p0 = Some po0 → fwd po0 = i_fwd x → p = p0 ∧ po = po0).
Proof.
  intros Hok Hc Hnd e'.
  destruct (Apply_state e domains v Hc) as (ps & b & Hb & Hpools & Hheap & _).
  { intros k p Hk. destruct (po_valid _ Hok k p Hk) as (po & ? & _). by exists po. }
  fold e' in Hpools, Hheap. destruct (built_table _ _ _ _ Hb) as [Htab Hin].
  destruct (Apply_heap e domains ps b Hok Hb Hnd) as [Hkeep Hstop]. rewrite <-Hheap in Hkeep, Hstop.
  assert (∀ k p, pools e' !! k = Some p → ∃ x po, served domains x ∧ key_of x = k ∧ (x, p) ∈ zip (items domains) ps ∧
    pheap e' !! p = Some po ∧ assigned e (bheap b) x p ∧ bheap b !! p = Some po) as Htable.
  { rewrite Hpools. intros k p Hk. destruct (Htab k p Hk) as (x & Hx & <-).
    pose proof (bt_pool _ _ _ _ Hb x p Hx) as Hass. destruct Hass as (po & Hpo & Hrest). exists x, po.
    split_and!; [|done|done|rewrite (Hkeep _ _ Hk); done|by exists po|done].
    apply elem_of_items. by apply elem_of_zip_l in Hx. }
  split_and!.
  - split.
    + intros k p Hk. destruct (Htable k p Hk) as (x & po & _ & <- & _ & Hpo & (po' & Hpo' & _ & Hor) & Hb'). exists po. split; [done|].
      destruct Hor as [[Ho1 Ho2]|(_ & ? & _)]; [|congruence]. destruct (po_valid _ Hok _ _ Ho1) as (? & ? & ?). congruence.
    + rewrite Hpools. apply Hstop.
    + intros k k' p Hk Hk'. destruct (Htable _ _ Hk) as (x & _ & _ & <- & Hx & _).
      destruct (Htable _ _ Hk') as (x' & _ & _ & <- & Hx' & _). by eapply built_inj.
  - intros k. split.
    + intros [p Hk]. destruct (Htable k p Hk) as (x & _ & ? & ? & _). by exists x.
    + intros (x & Hx%elem_of_items & <-). destruct (zip_total (items domains) ps x (bt_len _ _ _ _ Hb) Hx) as [p Hp].
      rewrite Hpools, (Hin Hnd x p Hp). done.
  - intros x Hx%elem_of_items. destruct (zip_total (items domains) ps x (bt_len _ _ _ _ Hb) Hx) as [p Hp].
    destruct (bt_pool _ _ _ _ Hb x p Hp) as (po & Hpo & Hf & Hor). exists p, po. rewrite Hpools.
    split_and!; [by apply Hin|rewrite (Hkeep (key_of x)); [done|by apply Hin]|done|].
    intros p0 po0 Hk0 Hp0 Hf0. destruct Hor as [[? ?]|(_ & _ & Hno)]; [|by destruct (Hno p0 po0)]. by simplify_eq.
Qed.
End apply.

(** ** Routes of a port *)

Section routes.
Context `{GoUnicode}.

(** The route serves the exact name [n] of a site, or the wildcard ["*" ++ n]. *)
Definition has_name (n : string) (r : route) : Prop :=
  Kind (rdomain r) ≠ EDGE_DOMAIN_KIND_TUNNEL_BASE ∧ CutPrefix "*" n = None ∧ n ∈ ToLower <$> Names (rdomain r).
Definition has_wildcard (n : string) (r : route) : Prop :=
  Kind (rdomain r) ≠ EDGE_DOMAIN_KIND_TUNNEL_BASE ∧ "*" +:+ n ∈ ToLower <$> Names (rdomain r).
#[local] Instance has_name_dec n r : Decision (has_name n r). Proof. unfold has_name. apply _. Defined.
#[local] Instance has_wildcard_dec n r : Decision (has_wildcard n r). Proof. unfold has_wildcard. apply _. Defined.

Lemma CutPrefix_star n rest : CutPrefix "*" n = Some rest ↔ n = "*" +:+ rest.
Proof.
  destruct n as [|c n]; cbn [CutPrefix]; [done|]. destruct (Ascii.eqb_spec "*"%char c) as [<-|Hc].
  - split; [by intros [= ->]|by intros [= ->]].
  - split; [done|]. intros [= Heq _]. congruence.
Qed.

Lemma add_name_other r rs n m : ToLower m ≠ n → byName (add_name r rs m) !! n = byName rs !! n.
Proof. intros Hm. unfold add_name. destruct (CutPrefix "*" _); [done|]. cbn. by rewrite lookup_insert_ne. Qed.

Lemma add_name_wild_other r rs n m : ToLower m ≠ "*" +:+ n → wildcards (add_name r rs m) !! n = wildcards rs !! n.
Proof.
  intros Hm. unfold add_name. destruct (CutPrefix "*" _) as [rest|] eqn:Hc; [|done]. apply CutPrefix_star in Hc.
  cbn. rewrite lookup_insert_ne; [done|]. intros ->. done.
Qed.

Lemma add_name_rest r rs m : base (add_name r rs m) = base rs ∧ single (add_name r rs m) = single rs.
Proof. unfold add_name. by destruct (CutPrefix "*" _). Qed.

Lemma byName_set n r l :
  (∀ r', r' ∈ l → has_name n r' → r' = r) → r ∈ l → has_name n r → byName (newRouteSet l) !! n = Some r.
Proof.
  intros Huniq Hin Hr. unfold newRouteSet.
  apply (foldl_set (λ rs, byName rs !! n) add_route (has_name n)); [| |left; by exists r].
  - intros rs a Ha Hn. rewrite (Huniq a Ha Hn). destruct Hr as (Hk & Hw & Hnames). unfold add_route.
    rewrite (bool_decide_eq_false_2 (Kind _ = _)) by done. match goal with |- context [foldl _ ?s _] => generalize s; intros rs1 end.
    apply list_elem_of_fmap in Hnames as (m & -> & Hm). apply (foldl_set (λ rs, byName rs !! ToLower m) (add_name r) (λ m', ToLower m' = ToLower m));
      [|by intros; apply add_name_other|left; by exists m].
    intros s m' _ Hm'. unfold add_name. rewrite Hm', Hw. cbn. by rewrite lookup_insert_eq.
  - intros rs a _ Hn. unfold add_route. set (rs1 := if bool_decide (FProtocol _ = _) then _ else rs).
    assert (byName rs1 !! n = byName rs !! n) as <- by (unfold rs1; by destruct (bool_decide _)).
    destruct (bool_decide (Kind _ = _)) eqn:Hk; [done|]. bool_facts.
    apply (foldl_keep (λ rs, byName rs !! n)). intros s m Hm. destruct (decide (ToLower m = n)) as [Heq|]; [|by apply add_name_other].
    unfold add_name. destruct (CutPrefix "*" (ToLower m)) eqn:Hc; [done|]. destruct Hn. split_and!; [done|by rewrite <-Heq|].
    rewrite <-Heq. apply list_elem_of_fmap. by exists m.
Qed.

Lemma wildcards_set n r l :
  (∀ r', r' ∈ l → has_wildcard n r' → r' = r) → r ∈ l → has_wildcard n r → wildcards (newRouteSet l) !! n = Some r.
Proof.
  intros Huniq Hin Hr. unfold newRouteSet.
  apply (foldl_set (λ rs, wildcards rs !! n) add_route (has_wildcard n)); [| |left; by exists r].
  - intros rs a Ha Hn. rewrite (Huniq a Ha Hn). destruct Hr as (Hk & Hnames). unfold add_route.
    rewrite (bool_decide_eq_false_2 (Kind _ = _)) by done. match goal with |- context [foldl _ ?s _] => generalize s; intros rs1 end.
    apply list_elem_of_fmap in Hnames as (m & Heq & Hm).
    apply (foldl_set (λ rs, wildcards rs !! n) (add_name r) (λ m', ToLower m' = "*" +:+ n));
      [|by intros; apply add_name_wild_other|left; by exists m].
    intros s m' _ Hm'. unfold add_name. rewrite (proj2 (CutPrefix_star (ToLower m') n)) by done. cbn. by rewrite lookup_insert_eq.
  - intros rs a _ Hn. unfold add_route. set (rs1 := if bool_decide (FProtocol _ = _) then _ else rs).
    assert (wildcards rs1 !! n = wildcards rs !! n) as <- by (unfold rs1; by destruct (bool_decide _)).
    destruct (bool_decide (Kind _ = _)) eqn:Hk; [done|]. bool_facts.
    apply (foldl_keep (λ rs, wildcards rs !! n)). intros s m Hm. apply add_name_wild_other. intros Heq. destruct Hn.
    split; [done|]. rewrite <-Heq. apply list_elem_of_fmap. by exists m.
Qed.

Lemma add_route_fields rs r :
  single (add_route rs r) = (if bool_decide (FProtocol (rfwd r) = EDGE_PROTOCOL_TCP) then Some r else single rs) ∧
  base (add_route rs r) = (if bool_decide (Kind (rdomain r) = EDGE_DOMAIN_KIND_TUNNEL_BASE) then Some r else base rs).
Proof.
  unfold add_route. set (rs1 := if bool_decide (FProtocol _ = _) then _ else rs).
  assert (single rs1 = if bool_decide (FProtocol (rfwd r) = EDGE_PROTOCOL_TCP) then Some r else single rs) as Hs
    by (unfold rs1; by destruct (bool_decide _)).
  assert (base rs1 = base rs) as Hb by (unfold rs1; by destruct (bool_decide (FProtocol _ = _))).
  destruct (bool_decide (Kind _ = _)); [by split|].
  split; [rewrite <-Hs; apply (foldl_keep single)|rewrite <-Hb; apply (foldl_keep base)]; intros; apply add_name_rest.
Qed.

Lemma single_set r l :
  (∀ r', r' ∈ l → FProtocol (rfwd r') = EDGE_PROTOCOL_TCP → r' = r) → r ∈ l → FProtocol (rfwd r) = EDGE_PROTOCOL_TCP →
  single (newRouteSet l) = Some r.
Proof.
  intros Huniq Hin Hr. apply (foldl_set single add_route (λ r, FProtocol (rfwd r) = EDGE_PROTOCOL_TCP)); [| |left; by exists r].
  - intros s a Ha HP. destruct (add_route_fields s a) as [-> _]. rewrite bool_decide_eq_true_2 by done. f_equal. by apply Huniq.
  - intros s a Ha HP. destruct (add_route_fields s a) as [-> _]. by rewrite bool_decide_eq_false_2.
Qed.

Lemma base_set r l :
  (∀ r', r' ∈ l → Kind (rdomain r') = EDGE_DOMAIN_KIND_TUNNEL_BASE → r' = r) → r ∈ l →
  Kind (rdomain r) = EDGE_DOMAIN_KIND_TUNNEL_BASE → base (newRouteSet l) = Some r.
Proof.
  intros Huniq Hin Hr. apply (foldl_set base add_route (λ r, Kind (rdomain r) = EDGE_DOMAIN_KIND_TUNNEL_BASE)); [| |left; by exists r].
  - intros s a Ha HP. destruct (add_route_fields s a) as [_ ->]. rewrite bool_decide_eq_true_2 by done. f_equal. by apply Huniq.
  - intros s a Ha HP. destruct (add_route_fields s a) as [_ ->]. by rewrite bool_decide_eq_false_2.
Qed.

(** The routes of sites are not relay routes. *)
Definition sites_local (rs : routeSet) : Prop :=
  ∀ r, ((∃ n, byName rs !! n = Some r) ∨ ∃ n, wildcards rs !! n = Some r) → isRelay r = false.

Lemma newRouteSet_local l :
  (∀ r, r ∈ l → isRelay r = true → Kind (rdomain r) = EDGE_DOMAIN_KIND_TUNNEL_BASE) → sites_local (newRouteSet l).
Proof.
  intros Hl. unfold newRouteSet. apply (foldl_inv sites_local).
  - intros r [[n Hn]|[n Hn]]; cbn in Hn; by rewrite lookup_empty in Hn.
  - intros rs a Ha Hrs. unfold add_route. set (rs1 := if bool_decide (FProtocol _ = _) then _ else rs).
    assert (sites_local rs1) as Hrs1 by (unfold rs1; by destruct (bool_decide _)). clearbody rs1.
    destruct (bool_decide (Kind _ = _)) eqn:Hk; [done|]. bool_facts.
    assert (isRelay a = false) as Hir by (destruct (isRelay a) eqn:Hi; [by destruct Hk; apply Hl|done]).
    apply (foldl_inv sites_local); [done|]. intros s m _ Hs. unfold add_name.
    destruct (CutPrefix "*" _); intros r [[n Hn]|[n Hn]]; cbn in Hn; try (apply lookup_insert_Some in Hn as [[_ <-]|[_ Hn]]; [done|]);
      apply Hs; eauto.
Qed.
End routes.

(** ** Serving a consistent store *)

Lemma zip_fun {A B} (l : list A) (l' : list B) x y y' :
  NoDup l → (x, y) ∈ zip l l' → (x, y') ∈ zip l l' → y = y'.
Proof.
  revert l'. induction l as [|a l IH]; intros [|b l'] Hnd; cbn; try by intros ?%elem_of_nil.
  apply NoDup_cons in Hnd as [Ha Hnd].
  intros [Heq|Hin]%elem_of_cons [Heq'|Hin']%elem_of_cons; [congruence| | |by eapply IH].
  - apply elem_of_zip_l in Hin'. congruence.
  - apply elem_of_zip_l in Hin. congruence.
Qed.

Lemma stop_loop_fwd new l heap p po :
  heap !! p = Some po → ∃ po', foldl (stop_unused new) heap l !! p = Some po' ∧ fwd po' = fwd po.
Proof.
  revert heap po. induction l as [|[k q] l IH]; intros heap po Hp; [by exists po|]. cbn [foldl].
  unfold stop_unused at 2. cbn [fst snd]. destruct (bool_decide _); [by apply IH|].
  destruct (decide (q = p)) as [->|Hne].
  - destruct (IH (alter stop p heap) (stop po)) as (po' & ? & ?); [by rewrite lookup_alter_eq, Hp|]. by exists po'.
  - apply IH. by rewrite lookup_alter_ne.
Qed.

Lemma stop_loop_inv new l heap p po' :
  foldl (stop_unused new) heap l !! p = Some po' → ∃ po, heap !! p = Some po ∧ (po' = po ∨ po' = stop po).
Proof.
  revert heap. induction l as [|[k q] l IH]; intros heap Hp; [by exists po'; auto|]. cbn [foldl] in Hp.
  apply IH in Hp as (po & Hp & Hor). unfold stop_unused in Hp. cbn [fst snd] in Hp.
  destruct (bool_decide _); [by exists po|]. destruct (decide (q = p)) as [->|Hne].
  - rewrite lookup_alter_eq in Hp. apply fmap_Some in Hp as (po0 & -> & ->). exists po0. split; [done|].
    right. by destruct Hor as [->| ->].
  - rewrite lookup_alter_ne in Hp by done. by exists po.
Qed.

Lemma pool_ok_members po po' : members po' = members po → mheap po' = mheap po → pool_ok po → pool_ok po'.
Proof. intros Hm Hh [H1 H2]. split; [|by rewrite Hm]. intros i. rewrite Hm, Hh. apply H1. Qed.

Section store.
Context `{GoUnicode, Crypto, MapRange} (LookupHost : string → option (list string)) (Listen : Z → option string).
Context (basedom : string) (m : gmap string EdgeDomain).
Hypothesis store_consistent : consistent basedom m.
#[local] Abbreviation domains := (range m).*2.

Lemma stored_domain d : d ∈ domains → m !! DomainId d = Some d ∧ domain_ok basedom d.
Proof using store_consistent.
  intros Hd. apply list_elem_of_fmap in Hd as ([k d'] & -> & Hk%elem_of_range). cbn.
  destruct (co_domain _ _ store_consistent k d' Hk) as [-> ?]. done.
Qed.

Lemma NoDup_domains : NoDup domains.
Proof using store_consistent.
  apply (NoDup_fmap_1 DomainId). replace (DomainId <$> domains) with (range m).*1; [apply NoDup_range|].
  rewrite <-list_fmap_compose. apply list_fmap_ext. intros i [k d] Hi. cbn.
  apply list_elem_of_lookup_2, elem_of_range in Hi. by destruct (co_domain _ _ store_consistent k d Hi).
Qed.

Lemma same_domain x y p :
  served domains x → served domains y → listens (i_fwd x) p → listens (i_fwd y) p → i_dom x = i_dom y → x = y.
Proof using store_consistent.
  intros (Hx & _ & Hax & Hxf & _) (_ & _ & Hay & Hyf & _) Hlx Hly Heq. destruct (stored_domain _ Hx) as [_ Hok].
  rewrite <-Heq in Hyf, Hay. pose proof (dk_ports _ _ Hok _ _ _ _ p Hxf Hyf Hlx Hly) as Hi.
  destruct x, y; cbn in *. rewrite Hi in Hxf. congruence.
Qed.

Lemma same_port x y p :
  served domains x → served domains y → listens (i_fwd x) p → listens (i_fwd y) p →
  FProtocol (i_fwd x) = FProtocol (i_fwd y) ∧
  (x = y ∨ i_dom x ≠ i_dom y ∧ compatible (i_dom x) (i_dom y) ∧ FProtocol (i_fwd x) ≠ EDGE_PROTOCOL_TCP).
Proof using store_consistent.
  intros Hx Hy Hlx Hly. destruct (decide (DomainId (i_dom x) = DomainId (i_dom y))) as [Hid|Hid].
  - assert (i_dom x = i_dom y) as Heq.
    { destruct (stored_domain _ (proj1 Hx)) as [H1' _], (stored_domain _ (proj1 Hy)) as [H2' _]. congruence. }
    assert (x = y) as -> by (by eapply same_domain). auto.
  - destruct (stored_domain _ (proj1 Hx)) as [Hmx _], (stored_domain _ (proj1 Hy)) as [Hmy _].
    pose proof (co_pair _ _ store_consistent _ _ _ _ Hmx Hmy Hid) as Hc. destruct Hx as (_ & _ & _ & Hfx & _), Hy as (_ & _ & _ & Hfy & _).
    destruct Hc as (Hn & Hb & Hp). destruct (Hp (i_fwd x) (i_fwd y) p) as [? ?]; [by eapply list_elem_of_lookup_2..|done|done|].
    split; [done|right]. split_and!; [congruence|by split_and!|done].
Qed.

Lemma normal_lower d : d ∈ domains → ToLower <$> Names d = Names d.
Proof using store_consistent.
  intros Hd. destruct (stored_domain _ Hd) as [_ Hok]. rewrite <-list_fmap_id. apply list_fmap_ext.
  intros i n Hi. destruct (dk_names _ _ Hok n (list_elem_of_lookup_2 _ _ _ Hi)) as [s Hs]. by eapply normal_name_lower.
Qed.

(** The routes of a port: of all served forwards on it, one each. *)
Lemma port_routes e ps b p :
  built e (items domains) ps b →
  let l := filter (λ x, listens (i_fwd x.1) p) (zip (items domains) ps) in
  default [] (byPort b !! p) = route_of <$> l ∧
  (∀ x q, (x, q) ∈ l → served domains x ∧ listens (i_fwd x) p) ∧
  (∀ x, served domains x → listens (i_fwd x) p → ∃ q, (x, q) ∈ l) ∧
  (∀ x q q', (x, q) ∈ l → (x, q') ∈ l → q = q').
Proof using store_consistent.
  intros Hb l. split_and!; [apply (bt_ports _ _ _ _ Hb)|..].
  - intros x q [? Hx]%list_elem_of_filter. split; [apply elem_of_items; by apply elem_of_zip_l in Hx|done].
  - intros x Hx%elem_of_items Hl. destruct (zip_total (items domains) ps x (bt_len _ _ _ _ Hb) Hx) as [q Hq].
    exists q. by apply list_elem_of_filter.
  - intros x q q' [_ Hq]%list_elem_of_filter [_ Hq']%list_elem_of_filter.
    eapply zip_fun; [apply NoDup_items, NoDup_domains|done..].
Qed.

(** A port's routes, one for each served forward on it, serve the item [x]. *)
Lemma set_serves p l x q :
  (∀ y q', (y, q') ∈ l → served domains y ∧ listens (i_fwd y) p) → (∀ y q1 q2, (y, q1) ∈ l → (y, q2) ∈ l → q1 = q2) →
  served domains x → listens (i_fwd x) p → (x, q) ∈ l →
  let rs := newRouteSet (route_of <$> l) in let r := route_of (x, q) in
  first_proto (route_of <$> l) = FProtocol (i_fwd x) ∧ sites_local rs ∧
  (FProtocol (i_fwd x) = EDGE_PROTOCOL_TCP → single rs = Some r) ∧
  (Kind (i_dom x) = EDGE_DOMAIN_KIND_TUNNEL_BASE → base rs = Some r) ∧
  (Kind (i_dom x) = EDGE_DOMAIN_KIND_SITE → ∀ n, n ∈ Names (i_dom x) →
     match CutPrefix "*" n with
     | Some rest => wildcards rs !! rest = Some r
     | None => ∀ live host e1, ToLower (TrimSuffix "." host) = n →
         resolve live rs host e1 = (e1, mkTargetTo (Some r) zeroRelay true)
     end).
Proof using store_consistent.
  intros Hin Huniq Hx Hl Hq rs r.
  assert (∀ P : route → Prop, (∀ y q', (y, q') ∈ l → P (route_of (y, q')) → y = x) →
    ∀ r', r' ∈ route_of <$> l → P r' → r' = r) as Hone.
  { intros P HP r' Hr' HPr. apply list_elem_of_fmap in Hr' as ([y q'] & -> & Hy).
    rewrite (HP y q' Hy HPr) in Hy |- *. by rewrite (Huniq x q' q Hy Hq). }
  assert (r ∈ route_of <$> l) as Hr by (apply list_elem_of_fmap; by eexists).
  assert (∀ y q', (y, q') ∈ l → y = x ∨ i_dom x ≠ i_dom y ∧ compatible (i_dom x) (i_dom y) ∧
    FProtocol (i_fwd x) ≠ EDGE_PROTOCOL_TCP) as Hother.
  { intros y q' Hy. destruct (Hin y q' Hy) as [Hsy Hly]. destruct (same_port x y p) as [_ [->|?]]; auto. }
  split_and!.
  - destruct l as [|[y q'] l']; [by apply elem_of_nil in Hq|]. cbn. destruct (Hin y q') as [? ?]; [left|].
    by destruct (same_port y x p).
  - apply newRouteSet_local. intros r' Hr' Hir. apply list_elem_of_fmap in Hr' as ([y q'] & -> & Hy). cbn.
    destruct (Hin y q' Hy) as [(Hd & _ & _ & Hf & _) _]. destruct (stored_domain _ Hd) as [_ Hok].
    apply (dk_forwards _ _ Hok (i_fwd y)); [by eapply list_elem_of_lookup_2|]. left. unfold isRelay in Hir. by bool_facts.
  - intros Ht. apply single_set; [|done|done]. apply Hone. intros y q' Hy _.
    destruct (Hother y q' Hy) as [|(_ & _ & ?)]; done.
  - intros Hk. apply base_set; [|done|done]. apply Hone. intros y q' Hy Hky.
    destruct (Hother y q' Hy) as [|(_ & (_ & Hb2 & _) & _)]; [done|]. by destruct Hb2.
  - intros Hk n Hn.
    assert (∀ y q' n', (y, q') ∈ l → n' ∈ Names (i_dom x) → n' ∈ ToLower <$> Names (i_dom y) → y = x) as Hnames.
    { intros y q' n' Hy Hn1 Hn2. destruct (Hother y q' Hy) as [|(_ & (Hno & _) & _)]; [done|exfalso].
      rewrite normal_lower in Hn2 by (by destruct (Hin y q' Hy) as [[? _] _]). by apply (Hno n'). }
    assert (n ∈ ToLower <$> Names (i_dom x)) as Hlow by (rewrite normal_lower; [done|apply Hx]).
    destruct (CutPrefix "*" n) as [rest|] eqn:Hcut.
    + apply CutPrefix_star in Hcut. apply wildcards_set; [|done|split; [cbn; by rewrite Hk|by rewrite <-Hcut]].
      apply Hone. intros y q' Hy [_ Hw]. apply (Hnames y q' n Hy Hn). by rewrite Hcut.
    + intros live host e1 Hhost. unfold resolve, rs. rewrite Hhost, (byName_set n r); [done| |done|by split_and!; [cbn; rewrite Hk|..]].
      apply Hone. intros y q' Hy (_ & _ & Hw). by apply (Hnames y q' n).
Qed.

(** C22: the edge serves the stored configuration. After [Apply] of a
consistent store the edge listens on exactly the ports of the enabled forwards
of enabled domains. On each, a connection is handled by the forward's
protocol; on a TCP port it takes the one forward of the port; under a site's
name (in any case, with or without the final dot) it takes the site's forward,
and no tunnel, wildcard or other domain can take the name; a wildcard alias
and the tunnel base are entered for their forwards. Each route leads to a pool
made for its forward and carries the domain's address lists. *)
Theorem Apply_serves e v :
  closed e = false → (∀ k p, pools e !! k = Some p → is_Some (pheap e !! p)) →
  (∀ p po, pheap e !! p = Some po → pool_ok po) →
  let e' := Apply LookupHost Listen domains v e in
  (∀ p po, pheap e' !! p = Some po → pool_ok po) ∧
  (∀ p, is_Some (listeners e' !! p) ↔ ∃ x, served domains x ∧ listens (i_fwd x) p) ∧
  ∀ x p, served domains x → listens (i_fwd x) p →
    ∃ l rs r po, listeners e' !! p = Some l ∧ routes l = Some rs ∧ lproto l = FProtocol (i_fwd x) ∧ sites_local rs ∧
      rdomain r = i_dom x ∧ rfwd r = i_fwd x ∧ raccess r = i_acc x ∧
      pheap e' !! rpool r = Some po ∧ fwd po = i_fwd x ∧
      (FProtocol (i_fwd x) = EDGE_PROTOCOL_TCP → single rs = Some r) ∧
      (Kind (i_dom x) = EDGE_DOMAIN_KIND_TUNNEL_BASE → base rs = Some r) ∧
      (Kind (i_dom x) = EDGE_DOMAIN_KIND_SITE → ∀ n, n ∈ Names (i_dom x) →
         match CutPrefix "*" n with
         | Some rest => wildcards rs !! rest = Some r
         | None => ∀ live host e1, ToLower (TrimSuffix "." host) = n →
             resolve live rs host e1 = (e1, mkTargetTo (Some r) zeroRelay true)
         end).
Proof using store_consistent.
  intros Hc Hv Hpk e'. destruct (Apply_state LookupHost Listen e domains v Hc Hv) as (ps & b & Hb & _ & Hheap & Hls).
  fold e' in Hheap, Hls. split_and!.
  - rewrite Hheap. intros p po Hpo. apply stop_loop_inv in Hpo as (po0 & Hpo0 & Hsame).
    apply (pool_ok_members po0); [by destruct Hsame as [->| ->]..|]. by apply (bt_fine _ _ _ _ Hb Hpk p).
  - intros p. rewrite Hls, fmap_is_Some. destruct (port_routes e ps b p Hb) as (Hrl & Hin & Hall & _). split.
    + intros [rl Hp]. rewrite Hp in Hrl. cbn in Hrl. pose proof (bt_some _ _ _ _ Hb _ _ Hp) as Hne.
      destruct (filter _ _) as [|[x q] l]; [by rewrite Hrl in Hne|]. destruct (Hin x q) as [? ?]; [left|]. by exists x.
    + intros (x & Hx & Hl). destruct (Hall x Hx Hl) as [q Hq]. destruct (byPort b !! p) as [rl|]; [done|].
      cbn in Hrl. destruct (filter _ _); [by apply elem_of_nil in Hq|done].
  - intros x p Hx Hl. destruct (port_routes e ps b p Hb) as (Hrl & Hin & Hall & Huniq). rewrite Hls.
    set (l := filter _ _) in *. destruct (Hall x Hx Hl) as [q Hq].
    destruct (byPort b !! p) as [rl|]; cbn in Hrl; [|by destruct l; [apply elem_of_nil in Hq|]]. subst rl.
    destruct (set_serves p l x q Hin Huniq Hx Hl Hq) as (Hproto & ? & ? & ? & ?).
    assert (assigned e (bheap b) x q) as (po0 & Hpo0 & Hfwd0 & _)
      by (apply (bt_pool _ _ _ _ Hb); by apply list_elem_of_filter in Hq as [_ ?]).
    destruct (stop_loop_fwd (bpools b) (range (pools e)) _ _ _ Hpo0) as (po & Hpo & Hfwd). rewrite <-Hheap in Hpo.
    exists (port_after Listen (listeners e !! p) p (route_of <$> l)), (newRouteSet (route_of <$> l)), (route_of (x, q)), po.
    split_and!; [done|done| |done|done|done|done|done|by rewrite Hfwd, Hfwd0|done..].
    unfold port_after, listen. destruct (listeners e !! p) as [l0|]; [|done]. cbn. rewrite Hproto.
    destruct (bool_decide _) eqn:Hd; cbn; [by bool_facts|done].
Qed.
End store.
