(* ===== verification/EdgeServeSpec.v ===== *)
(** * The edge: theorems about connections

Which relay a connection goes to, who is let through, and that a stream sent
to a relay reaches the tunnel it was meant for. *)

From S2P Require Import Prelude GoStrings Protocol NetIP Limiter Transport Access NameRegistry NameRegistryInv RelayTunnels RelayTunnelsSpec RelayServe RelayServeSpec.
From S2P Require Import EdgeConf EdgeConfSpec EdgePool EdgePoolSpec Edge EdgeSpec.
From Stdlib Require Import Ascii.
From stdpp Require Import options.
#[local] Open Scope l8_scope.
#[local] Open Scope Z_scope.

(** ** Relays *)

#[local] Instance id_le_total : Total id_le.
Proof. intros a b. unfold id_le. destruct (String.leb_total (RelayID a) (RelayID b)); auto. Qed.

Lemma sorted_relays live : merge_sort id_le (ready_relays live) ≡ₚ ready_relays live.
Proof. apply merge_sort_Permutation. Qed.

(** A relay that may be chosen: one that is up, and draining only if all are. *)
Definition choosable (live : Live) (r : RelayTarget) : Prop :=
  r ∈ Relays live ∧ (Draining r = true → ∀ r', r' ∈ Relays live → Draining r' = true).

Lemma ready_choosable live r : r ∈ ready_relays live → choosable live r.
Proof.
  unfold ready_relays, choosable. destruct (List.filter _ _) as [|a l] eqn:Hf.
  - intros Hr. split; [done|]. intros _ r' Hr'. destruct (Draining r') eqn:Hd; [done|].
    assert (r' ∈ List.filter (λ r, negb (Draining r)) (Relays live)) as Hin.
    { apply list_elem_of_In, List.filter_In. rewrite Hd. split; [by apply list_elem_of_In|done]. }
    rewrite Hf in Hin. by apply elem_of_nil in Hin.
  - rewrite <-Hf. intros [Hr Hd]%list_elem_of_In%List.filter_In. split; [by apply list_elem_of_In|].
    intros Ht. by rewrite Ht in Hd.
Qed.

Lemma ready_nonempty live : Relays live ≠ [] → ready_relays live ≠ [].
Proof. unfold ready_relays. by destruct (List.filter _ _). Qed.

(** [best := l[0]; ...] ends with a least element. *)
Lemma choose_least (f : RelayTarget → Z) l :
  l ≠ [] → ∃ r, choose (λ r best, f r <? f best) l = Some r ∧ r ∈ l ∧ ∀ r', r' ∈ l → f r ≤ f r'.
Proof.
  destruct l as [|a l]; [done|]. intros _. cbn [choose]. eexists. split; [done|].
  assert (∀ l a, foldl (λ best r, if f r <? f best then r else best) a l ∈ a :: l ∧
    ∀ r', r' ∈ a :: l → f (foldl (λ best r, if f r <? f best then r else best) a l) ≤ f r') as Hl; [|apply Hl].
  clear. induction l as [|b l IH]; intros a; cbn [foldl].
  - split; [left|]. intros r' ->%list_elem_of_singleton. done.
  - destruct (f b <? f a) eqn:Hb; bool_facts.
    + destruct (IH b) as [Hin Hle]. split; [by right|]. intros r' [->|Hr']%elem_of_cons; [|by apply Hle].
      specialize (Hle b ltac:(left)). lia.
    + destruct (IH a) as [Hin Hle]. split.
      * apply elem_of_cons in Hin as [->|Hin]; [left|right; by right].
      * intros r' [->|[->|Hr']%elem_of_cons]%elem_of_cons; [apply Hle; left| |apply Hle; by right].
        specialize (Hle a ltac:(left)). lia.
Qed.

Lemma relayPick_some live ll e :
  Relays live ≠ [] → ∃ e' r, relayPick live ll e = (e', Some r) ∧ r ∈ ready_relays live ∧
    (ll = true → e' = e ∧ ∀ r', r' ∈ ready_relays live → Sessions r ≤ Sessions r').
Proof.
  intros Hne. apply ready_nonempty in Hne. unfold relayPick.
  destruct (merge_sort id_le (ready_relays live)) as [|a l] eqn:Hs.
  { pose proof (sorted_relays live) as Hp. rewrite Hs in Hp. by apply Permutation_nil_l in Hp. }
  pose proof (sorted_relays live) as Hp. rewrite Hs in Hp. destruct ll.
  - destruct (choose_least Sessions (a :: l)) as (r & -> & Hin & Hle); [done|]. exists e, r. rewrite <-Hp.
    split_and!; [done|done|]. intros _. split; [done|]. intros r'. rewrite <-Hp. apply Hle.
  - eexists. destruct (lookup_lt_is_Some_2 (a :: l) (Z.to_nat (rr (e <| rr := uint64 (rr e + 1) |>) mod Z.of_nat (length (a :: l))))) as [r Hr].
    { pose proof (Z.mod_pos_bound (rr (e <| rr := uint64 (rr e + 1) |>)) (Z.of_nat (length (a :: l))) ltac:(cbn; lia)). lia. }
    exists r. rewrite Hr. split_and!; [done|rewrite <-Hp; by eapply list_elem_of_lookup_2|done].
Qed.

(** [n] connections for relays, one after the other. *)
Fixpoint relay_picks (n : nat) (live : Live) (e : edge) : edge * list (option RelayTarget) :=
  match n with
  | O => (e, [])
  | S n => let '(e, r) := relayPick live false e in let '(e, l) := relay_picks n live e in (e, r :: l)
  end.

(** The list from its [k]-th element on, around to the start. *)
Lemma rotation_permutation {A} (l : list A) c n :
  n = length l → (λ i, l !! ((c + i) mod n)%nat) <$> seq 0 n ≡ₚ Some <$> l.
Proof.
  intros ->. destruct (decide (l = [])) as [->|Hne]; [done|].
  assert (length l ≠ 0)%nat by (by destruct l).
  replace ((λ i, l !! ((c + i) mod length l)%nat) <$> seq 0 (length l)) with (Some <$> rotate c l).
  { unfold rotate. rewrite fmap_app, Permutation_app_comm, <-fmap_app, take_drop. done. }
  apply list_eq. intros i. rewrite !list_lookup_fmap. destruct (decide (i < length l)%nat) as [Hi|Hi].
  - rewrite lookup_rotate_r by done. rewrite lookup_seq_lt by done. cbn. unfold rotate_nat_add. f_equal.
    destruct (lookup_lt_is_Some_2 l (Z.to_nat ((Z.of_nat c + Z.of_nat i) mod Z.of_nat (length l)))) as [x Hx].
    { pose proof (Z.mod_pos_bound (Z.of_nat c + Z.of_nat i) (Z.of_nat (length l)) ltac:(lia)). lia. }
    replace ((c + i) mod length l)%nat with (Z.to_nat ((Z.of_nat c + Z.of_nat i) mod Z.of_nat (length l))); [by rewrite Hx|].
    rewrite <-Nat2Z.inj_add, <-Nat2Z.inj_mod. lia.
  - rewrite (lookup_ge_None_2 (rotate c l)) by (rewrite length_rotate; lia).
    rewrite (lookup_ge_None_2 (seq _ _)) by (rewrite length_seq; lia). done.
Qed.

Lemma relay_picks_list n live e :
  Relays live ≠ [] → 0 ≤ rr e → rr e + Z.of_nat n < 2 ^ 64 →
  let l := merge_sort id_le (ready_relays live) in
  (relay_picks n live e).2 = (λ i, l !! ((Z.to_nat (rr e) + 1 + i) mod length l)%nat) <$> seq 0 n.
Proof.
  intros Hne Hr Hn l. assert (l ≠ []) as Hl.
  { intros Hl. pose proof (sorted_relays live) as Hp. fold l in Hp. rewrite Hl in Hp. apply Permutation_nil_l in Hp.
    by destruct (ready_nonempty live Hne). }
  revert e Hr Hn. induction n as [|n IH]; intros e Hr Hn; [done|]. cbn [relay_picks].
  assert (relayPick live false e = (e <| rr := rr e + 1 |>, l !! ((Z.to_nat (rr e) + 1) mod length l)%nat)) as ->.
  { unfold relayPick. fold l. assert (0 < Z.of_nat (length l)) by (destruct l; [done|cbn; lia]). destruct l as [|a l'] eqn:Hll; [done|].
    rewrite <-Hll in *. assert (uint64 (rr e + 1) = rr e + 1) as -> by (unfold uint64; apply Z.mod_small; lia).
    f_equal. cbn [rr set_field]. f_equal. rewrite Z2Nat.inj_mod by lia. rewrite Z2Nat.inj_add, Nat2Z.id by lia. done. }
  specialize (IH (e <| rr := rr e + 1 |>)). destruct (relay_picks n live _) as [e' l1]. cbn [snd rr set_field] in *.
  rewrite IH by lia. cbn [seq fmap list_fmap]. f_equal; [f_equal; f_equal; lia|]. rewrite <-fmap_S_seq, <-list_fmap_compose.
  apply list_fmap_ext. intros i x _. cbn. f_equal. f_equal. lia.
Qed.

(** how connections are shared among the relays. An agent goes to a relay
with the fewest sessions; other connections go to each relay in turn: as many
picks as there are relays name every one of them once. Draining relays get
something only when no other relay is up. (The counter is 64 bits wide.) *)
Theorem relayPick_fair live e :
  Relays live ≠ [] → 0 ≤ rr e → rr e + Z.of_nat (length (ready_relays live)) < 2 ^ 64 →
  (∃ r, relayPick live true e = (e, Some r) ∧ choosable live r ∧
     ∀ r', r' ∈ ready_relays live → Sessions r ≤ Sessions r') ∧
  (relay_picks (length (ready_relays live)) live e).2 ≡ₚ Some <$> ready_relays live ∧
  (∀ r, r ∈ ready_relays live → choosable live r).
Proof.
  intros Hne Hr Hn. split_and!.
  - destruct (relayPick_some live true e Hne) as (e' & r & Hp & Hin & Hle). destruct (Hle eq_refl) as [-> ?].
    exists r. split_and!; [done|by apply ready_choosable|done].
  - rewrite relay_picks_list by done. transitivity (Some <$> merge_sort id_le (ready_relays live)); [|by rewrite sorted_relays].
    rewrite <-(Permutation_length (sorted_relays live)) at 1. by apply rotation_permutation.
  - apply ready_choosable.
Qed.

(** ** Names of tunnels *)

Section serve.
Context `{GoUnicode}.

(** where the name of a tunnel leads on a port of the tunnel base. Unless
a site has exactly this name, the control name leads agents to a least loaded
relay; the host name or custom domain of a live tunnel leads to the relay that
serves the tunnel, even where a site has a wildcard for it; any other name that
no wildcard covers leads to some relay. If a relay is up, a route is found. *)
Theorem resolve_relays live rs b host e :
  let n := ToLower (TrimSuffix "." host) in
  base rs = Some b → byName rs !! n = None → n ≠ "" → Relays live ≠ [] →
  (n = ControlSNI (cfg e) →
     ∃ r, resolve live rs host e = (e, mkTargetTo (Some b) r true) ∧ choosable live r ∧
       ∀ r', r' ∈ ready_relays live → Sessions r ≤ Sessions r') ∧
  (∀ owner, n ≠ ControlSNI (cfg e) → OwnerOfHost live n = Some owner →
     resolve live rs host e = (e, mkTargetTo (Some b) owner true)) ∧
  (n ≠ ControlSNI (cfg e) → OwnerOfHost live n = None →
     (∀ label rest, n = label +:+ "." +:+ rest → wildcards rs !! ("." +:+ rest) = None) →
     ∃ e' r, resolve live rs host e = (e', mkTargetTo (Some b) r true) ∧ choosable live r).
Proof.
  intros n Hb Hn Hne Hr. unfold resolve. fold n. rewrite Hn, Hb.
  destruct (String.eqb_spec n "") as [|_]; [done|]. split_and!.
  - intros ->. rewrite String.eqb_refl. destruct (relayPick_some live true e Hr) as (e' & r & -> & Hin & Hle).
    destruct (Hle eq_refl) as [-> ?]. exists r. split_and!; [done|by apply ready_choosable|done].
  - intros owner Hc Ho. destruct (String.eqb_spec n (ControlSNI (cfg e))); [done|]. by rewrite Ho.
  - intros Hc Ho Hw. destruct (String.eqb_spec n (ControlSNI (cfg e))); [done|]. rewrite Ho.
    destruct (relayPick_some live false e Hr) as (e' & r & Hp & Hin & _). exists e', r.
    split; [|by apply ready_choosable]. rewrite Hp. destruct (CutByte "." n) as [[label rest]|] eqn:Hcut; [|done].
    destruct (String.eqb label ""); [done|]. rewrite (Hw label rest); [done|]. by apply CutByte_spec in Hcut.
Qed.

(** ** Who is let through *)

(** A route of the port. *)
Definition in_set (rs : routeSet) (r : route) : Prop :=
  (∃ n, byName rs !! n = Some r) ∨ (∃ n, wildcards rs !! n = Some r) ∨ base rs = Some r ∨ single rs = Some r.

(** A relay the live tables name. *)
Definition known (live : Live) (x : RelayTarget) : Prop :=
  x ∈ Relays live ∨ (∃ n, OwnerOfHost live n = Some x) ∨ ∃ p n, OwnerOfPort live p = Some (x, n).

Lemma relayPick_frame live ll e : pheap (relayPick live ll e).1 = pheap e.
Proof. unfold relayPick. destruct (merge_sort _ _); [done|]. by destruct ll. Qed.

Lemma relayPick_known live ll e e' r : relayPick live ll e = (e', Some r) → known live r.
Proof.
  intros Hp. assert (Relays live ≠ []) as Hne.
  { intros Hn. unfold relayPick, ready_relays in Hp. rewrite Hn in Hp. cbn in Hp. done. }
  destruct (relayPick_some live ll e Hne) as (e1 & r1 & Hp' & Hin & _). rewrite Hp' in Hp. injection Hp as -> ->.
  left. by apply ready_choosable.
Qed.

Lemma resolve_aimed live rs host e e' t :
  resolve live rs host e = (e', t) → sites_local rs →
  pheap e' = pheap e ∧ ∀ r, troute t = Some r → tok t = true → in_set rs r ∧ (isRelay r = true → known live (trelay t)).
Proof.
  intros Hr Hs. unfold resolve in Hr. set (n := ToLower _) in Hr.
  assert (∀ b ll e1 e2 relay, base rs = Some b → pheap e1 = pheap e → relayPick live ll e1 = (e2, relay) →
    pheap e2 = pheap e ∧ ∀ r, troute (relay_target b relay) = Some r → tok (relay_target b relay) = true →
    in_set rs r ∧ (isRelay r = true → known live (trelay (relay_target b relay)))) as Hpick.
  { intros b ll e1 e2 relay Hb He Hp. split; [rewrite <-He, <-(relayPick_frame live ll e1), Hp; done|].
    intros r [= <-] Hok. split; [by right; right; left|]. destruct relay as [relay|]; [|done]. intros _. by eapply relayPick_known. }
  destruct (byName rs !! n) as [r0|] eqn:Hn.
  { injection Hr as <- <-. split; [done|]. intros r [= <-] _. split; [left; by exists n|]. rewrite (Hs r0); [done|left; by exists n]. }
  destruct (match base rs with Some _ => _ | None => None end) as [et|] eqn:Ho.
  - subst et. destruct (base rs) as [b|] eqn:Hb; [|done]. destruct (String.eqb n ""); [done|].
    destruct (String.eqb n _).
    + destruct (relayPick live true e) as [e2 relay] eqn:Hp. injection Ho as <- <-. by eapply Hpick.
    + destruct (OwnerOfHost live n) as [o|] eqn:Hof; [|done]. injection Ho as <- <-. split; [done|].
      intros r [= <-] _. split; [by right; right; left|]. intros _. right. left. by exists n.
  - clear Ho. destruct (match CutByte "." n with Some _ => _ | None => None end) as [w|] eqn:Hw.
    + injection Hr as <- <-. destruct (CutByte "." n) as [[label rest]|]; [|done]. destruct (String.eqb label ""); [done|].
      split; [done|]. intros r [= <-] _. split; [right; left; eauto|]. rewrite (Hs w); [done|right; eauto].
    + destruct (base rs) as [b|] eqn:Hb; [|by injection Hr as <- <-].
      destruct (relayPick live false e) as [e2 relay] eqn:Hp. injection Hr as <- <-. by eapply Hpick.
Qed.

Lemma admitted_spec t client e e' ok :
  admitted t client e = (e', ok) → pheap e' = pheap e ∧
  (ok = true → ∃ r, troute t = Some r ∧ tok t = true ∧ AllowsIP (raccess r) (clientIP (pip client)) = true).
Proof.
  unfold admitted. destruct (troute t) as [r|]; [|by intros [= <- <-]]. destruct (tok t); cbn [negb]; [|by intros [= <- <-]].
  destruct (AllowsIP _ _) eqn:Ha; cbn [negb]; intros [= <- <-]; [|done]. split; [done|]. intros _. by exists r.
Qed.

(** What may become of a connection that was let in over route [r]. *)
Definition delivered (live : Live) (net : network) (r : route) (client : peer) (e : edge) (out : outcome) : Prop :=
  match out with
  | Joined (ToRelay a) hdr =>
      isRelay r = true ∧ is_Some hdr ∧ ∃ x, known live x ∧ a = relay_addr x r ∧ dials net a = None
  | Joined (ToMember p m) hdr =>
      isRelay r = false ∧ p = rpool r ∧ (ProxyProtocol (rfwd r) = true ↔ is_Some hdr) ∧
      ∃ po, pheap e !! p = Some po ∧ usable po m ∧ dials net (addr (at_ po m)) = None
  | Terminated => Mode (rfwd r) = EDGE_FORWARD_MODE_TERMINATE
  | Panic => False
  | _ => True
  end.

Lemma forward_spec live net client t r e e' out :
  troute t = Some r → (isRelay r = true → known live (trelay t)) → (∀ p po, pheap e !! p = Some po → pool_ok po) →
  forward net client t e = (e', out) → delivered live net r client e out.
Proof.
  intros Hr Hk Hok Hf. unfold forward in Hf. rewrite Hr in Hf. destruct (isRelay r) eqn:Hir.
  - destruct (dials net _) eqn:Hd; [by injection Hf as <- <-|]. destruct (writes net); injection Hf as <- <-; [|done].
    split_and!; [done|done|]. exists (trelay t). split_and!; [by apply Hk|done|done].
  - unfold dial_pool in Hf. destruct (pheap e !! rpool r) as [po|] eqn:Hpo; [|by injection Hf as <- <-].
    destruct (dial_spec (dials net) (random net) (clientIP (pip client)) (clock net) po (Hok _ _ Hpo)) as (po' & m & Hd & _ & Hm).
    rewrite Hd in Hf. cbn [default from_option] in Hf. destruct m as [m|]; [|by injection Hf as <- <-].
    destruct Hm as ([Hu|[]] & Hdial & _). destruct (ProxyProtocol (rfwd r)) eqn:Hpp.
    + destruct (writes net); injection Hf as <- <-; [|done]. split_and!; [done|done|by split|]. by exists po.
    + injection Hf as <- <-. split_and!; [done|done|split; [congruence|by intros [? ?]]|]. by exists po.
Qed.

Lemma stream_spec `{HMAC} live net client port r e e' out :
  isRelay r = true → stream live net client port r e = (e', out) →
  delivered live net r client e out ∧
  (∀ up hdr, out = Joined up hdr → AllowsIP (raccess r) (clientIP (pip client)) = true) ∧ out ≠ Terminated.
Proof.
  intros Hr Hs. unfold stream in Hs. destruct (OwnerOfPort live port) as [[x name]|] eqn:Ho; [|by injection Hs as <- <-].
  destruct (AllowsIP _ _) eqn:Ha; cbn [negb] in Hs; [|by injection Hs as <- <-].
  destruct (dials net _) eqn:Hd; [by injection Hs as <- <-|]. destruct (writes net); injection Hs as <- <-; [|done].
  split; [|done]. split_and!; [done|done|]. exists x. split_and!; [right; right; by exists port, name|done|done].
Qed.

(** A stream that goes on went over a route of the port that admits the
client. *)
Definition safe_outcome (live : Live) (net : network) (rs : routeSet) (client : peer) (e : edge) (out : outcome) : Prop :=
  match out with
  | Joined _ _ | Terminated =>
      ∃ r, in_set rs r ∧ AllowsIP (raccess r) (clientIP (pip client)) = true ∧ delivered live net r client e out
  | Panic => False
  | Closed | RejectedTLS | NotFound => True
  end.

Section safe.
Context `{HMAC} (live : Live) (net : network) (rs : routeSet) (client : peer) (e : edge).
Hypothesis local_sites : sites_local rs.
Hypothesis pools_fine : ∀ p po, pheap e !! p = Some po → pool_ok po.

Definition aimed (t : target) : Prop :=
  ∀ r, troute t = Some r → tok t = true → in_set rs r ∧ (isRelay r = true → known live (trelay t)).

Lemma delivered_heap r e1 out : pheap e1 = pheap e → delivered live net r client e1 out → delivered live net r client e out.
Proof. intros He Hd. unfold delivered in *. by rewrite <-He. Qed.

Lemma admitted_aimed t e1 e2 ok :
  aimed t → pheap e1 = pheap e → admitted t client e1 = (e2, ok) → pheap e2 = pheap e ∧
  (ok = true → ∃ r, troute t = Some r ∧ in_set rs r ∧ (isRelay r = true → known live (trelay t)) ∧
     AllowsIP (raccess r) (clientIP (pip client)) = true).
Proof.
  intros Ht He Ha. apply admitted_spec in Ha as [-> Ha]. split; [done|]. intros ->.
  destruct (Ha eq_refl) as (r & Hr & Htok & Hip). destruct (Ht r Hr Htok). by exists r.
Qed.

(** The end of every handler: a client that is admitted is passed on. *)
Lemma admit_forward_safe t e1 e2 ok no e3 out :
  aimed t → pheap e1 = pheap e → safe_outcome live net rs client e no → admitted t client e1 = (e2, ok) →
  (if negb ok then (e2, no) else forward net client t e2) = (e3, out) → safe_outcome live net rs client e out.
Proof using pools_fine.
  intros Ht He Hno Ha Hf. destruct (admitted_aimed t e1 e2 ok Ht He Ha) as [He2 Hr].
  destruct ok; cbn [negb] in Hf; [|by injection Hf as <- <-]. destruct (Hr eq_refl) as (r & Htr & Hin & Hk & Hip).
  apply (forward_spec live _ _ _ r) in Hf; [|done|done|by rewrite He2]. apply delivered_heap in Hf; [|done].
  destruct out; try done; by exists r.
Qed.

Lemma serveTCP_safe port e' out :
  serveTCP live net client port rs e = (e', out) → safe_outcome live net rs client e out.
Proof using pools_fine.
  intros Hs. unfold serveTCP in Hs. destruct (single rs) as [r|] eqn:Hsin; [|by injection Hs as <- <-].
  destruct (isRelay r && _) eqn:Hst.
  - apply andb_true_iff in Hst as [Hir _]. apply stream_spec in Hs as (Hd & Hip & Hnt); [|done].
    destruct out; try done. exists r. split_and!; [by right; right; right|by eapply Hip|done].
  - clear Hst. set (et := if isRelay r then _ else _) in Hs. assert (pheap et.1 = pheap e ∧ aimed et.2) as [He' Ht].
    { unfold et. destruct (isRelay r) eqn:Hir.
      - destruct (relayPick live false e) as [e3 relay] eqn:Hp. cbn [fst snd].
        split; [by rewrite <-(relayPick_frame live false e), Hp|].
        intros r' [= <-] Hk. split; [by right; right; right|]. destruct relay as [relay|]; [|done]. intros _. by eapply relayPick_known.
      - cbn [fst snd]. split; [done|]. intros r' [= <-] _. split; [by right; right; right|congruence]. }
    destruct et as [e3 t]. cbn [fst snd] in *. destruct (admitted t client e3) as [e4 ok] eqn:Ha.
    by eapply (admit_forward_safe t e3 e4 ok Closed).
Qed.

Lemma serveTLS_safe hello e' out :
  serveTLS live net client hello rs e = (e', out) → safe_outcome live net rs client e out.
Proof using pools_fine local_sites.
  intros Hs. unfold serveTLS in Hs. destruct hello as [name|]; [|by injection Hs as <- <-].
  destruct (resolve live rs name e) as [e1 t] eqn:Hres. apply resolve_aimed in Hres as [He1 Ht]; [|done].
  change (aimed t) in Ht. destruct (admitted t client e1) as [e2 ok] eqn:Ha. destruct (troute t) as [r|] eqn:Htr.
  - destruct (bool_decide (Mode (rfwd r) = EDGE_FORWARD_MODE_TERMINATE)) eqn:Hm.
    2:{ by apply (admit_forward_safe t e1 e2 ok RejectedTLS e'). }
    bool_facts.
    destruct (admitted_aimed t e1 e2 ok Ht He1 Ha) as [_ Hr]. destruct ok; injection Hs as <- <-; [|done].
    destruct (Hr eq_refl) as (r' & ? & ? & ? & ?). exists r. by simplify_eq.
  - unfold admitted in Ha. rewrite Htr in Ha. injection Ha as <- <-. by injection Hs as <- <-.
Qed.

Lemma serveHTTP_safe host e' out :
  serveHTTP live net client host rs e = (e', out) → safe_outcome live net rs client e out.
Proof using pools_fine local_sites.
  intros Hs. unfold serveHTTP in Hs. destruct host as [name|]; [|by injection Hs as <- <-].
  destruct (resolve live rs name e) as [e1 t] eqn:Hres. apply resolve_aimed in Hres as [He1 Ht]; [|done].
  destruct (admitted t client e1) as [e2 ok] eqn:Ha. by eapply (admit_forward_safe t e1 e2 ok NotFound).
Qed.
End safe.

(** C23: the edge lets nobody past a domain's address lists and never crashes on
a connection once its routes are set. A stream joined to a relay or a backend,
or terminated, went over a route of the port whose lists allow the client's
address; only relay forwards lead to relays, which the live tables name, always
with a PROXY header; other forwards lead to a healthy, enabled member of their
own pool that accepted the dial, with a header exactly when configured. *)
Theorem serve_safe `{HMAC} live net client peeked l rs e e' out :
  routes l = Some rs → sites_local rs → (∀ p po, pheap e !! p = Some po → pool_ok po) →
  serve live net client peeked l e = (e', out) → safe_outcome live net rs client e out.
Proof.
  intros Hrs Hloc Hok Hs. unfold serve in Hs. rewrite Hrs in Hs.
  destruct (lproto l); eauto using serveTCP_safe, serveTLS_safe, serveHTTP_safe.
Qed.
End serve.

(** ** From a public port to the tunnel *)

(** The tunnel a relay serves under a name. *)
Lemma served_under n r t :
  inv r → (∃ l res, NameRegistryInv.live r l res ∧ NameRegistry.name res = n ∧ tunnel res = Some t) ↔
  (NameRegistry.lookup n r).1.1 = Some t.
Proof.
  intros Hi. unfold NameRegistry.lookup. split.
  - intros (l & res & [Hh Hn] & <- & Ht). rewrite Hn. cbn. by rewrite Hh.
  - destruct (names r !! n) as [l|] eqn:Hn; cbn; [|done]. destruct (inv_name r Hi _ _ Hn) as (res & Hh & Hname).
    rewrite Hh. cbn. intros Ht. exists l, res. split; [|done]. split; [done|by rewrite Hname].
Qed.

(** C24: where a connection to a public port ends up. When the edge joins such a
stream to a relay, it is the relay that the live tables have for the port, and
what the edge sends ahead makes a relay of the cluster (one with the same
secret) that reads it within a minute, by their clocks, give the stream to
exactly the tunnel it serves under the name the tables have for the port: when
it serves one, its connection rate for the address is not used up, and the
tunnel's own lists allow the address. Read at any other time it is refused, and
the relay does not change. *)
Theorem stream_reaches_tunnel `{GoUnicode, Crypto, HMAC} (s : Server) c live net client port r e e' up tlvs owner name :
  stream live net client port r e = (e', Joined up (Some tlvs)) → OwnerOfPort live port = Some (owner, name) →
  Cluster s = Some c → ForwardKey c = EForwardKey (cfg e) → 0 ≤ unix (clock net) < 2 ^ 62 →
  up = ToRelay (relay_addr owner r) ∧
  ∀ x from now, inv (registry x) → 0 ≤ unix now < 2 ^ 62 →
    (-60 ≤ unix now - unix (clock net) ≤ 60 → ∀ t,
       (serveStream s from (ptext client) tlvs now x).2 = Some t ↔
       (∃ l res, NameRegistryInv.live (registry x) l res ∧ NameRegistry.name res = name ∧ tunnel res = Some t) ∧
       (Allow (remoteIP from) now (connLimit x)).2 = true ∧ AllowsIP (access_of x t) (remoteIP from) = true) ∧
    (¬ (-60 ≤ unix now - unix (clock net) ≤ 60) → serveStream s from (ptext client) tlvs now x = (x, None)).
Proof.
  intros Hs Ho Hc Hkey Hn. unfold stream in Hs. rewrite Ho in Hs.
  destruct (AllowsIP _ _); [|done]. destruct (dials net _); [done|]. destruct (writes net); [|done].
  injection Hs as <- <- <-. split; [done|]. intros x from now Hi Hn'. split.
  - intros Hw t. unfold serveStream. rewrite Hc, Hkey, signed_roundtrip by (unfold is_int64; lia).
    rewrite (served_under name (registry x) t Hi).
    destruct (NameRegistry.lookup name (registry x)) as [[[t'|] typ] found]; cbn [fst]; [|naive_solver].
    unfold admit_. destruct (Allow _ _ _) as [lim []]; cbn [snd negb]; [|naive_solver].
    change (access_of (x <| connLimit := lim |>) t') with (access_of x t').
    destruct (AllowsIP (access_of x t') (remoteIP from)) eqn:Ha; cbn [negb snd]; split; try done.
    + intros [= <-]. done.
    + by intros ([= <-] & _).
    + intros ([= <-] & _ & Ha'). congruence.
  - intros Hw. unfold serveStream. by rewrite Hc, Hkey, signed_outside by done.
Qed.

(** ** The window before the routes are set *)

(** The listener accepts connections from the moment it is bound, but [Apply]
sets its routes only afterwards: a connection in between crashes the edge. *)
Lemma unrouted_listener_panics `{GoUnicode, HMAC} Listen live net client name port e :
  serve live net client (Some name) (listen Listen port EDGE_PROTOCOL_TLS) e = (e, Panic) ∧
  serve live net client None (listen Listen port EDGE_PROTOCOL_TCP) e = (e, Panic).
Proof. done. Qed.

(** ** A sample edge *)

#[local] Existing Instance plain_crypto.
#[local] Existing Instance ascii_only.
#[local] Existing Instance SignSample.toy.

Module EdgeSample.
Import ConfSample.
Definition key : string := "0123456789abcdef0123456789abcdef".
Definition conf : EdgeConfig := mkEdgeConfig "t.example" "connect.t.example" "10.0.0.1" "" key (QArith_base.inject_Z 20) 100.
Definition e0 : edge :=
  mkEdge conf (NewIPLimiter (QArith_base.inject_Z 20) 100 0) ∅ ∅ 0 false (mkEdgeCounters 0 0 0 0 0) 0 ∅.
(** The tunnel base: TLS by name, and a range of TCP ports. *)
Definition relay_fwd (id : string) (p q : Z) (proto : EdgeProtocol) : EdgePortForward :=
  mkForward id p q proto EDGE_FORWARD_MODE_RELAY EDGE_TARGET_KIND_RELAYS [] "" 7443 EDGE_BACKEND_SCHEME_HTTPS false false
    EDGE_LB_ALGORITHM_ROUND_ROBIN EDGE_HEALTH_TYPE_NONE "" 0 true "".
Definition tunnels : EdgeDomain :=
  mkDomain "t" "t.example" [] EDGE_DOMAIN_KIND_TUNNEL_BASE true [] [] EDGE_CERT_STATUS_MISSING
    [relay_fwd "tls" 443 0 EDGE_PROTOCOL_TLS; relay_fwd "tcp" 2000 2010 EDGE_PROTOCOL_TCP].
Definition store : gmap string EdgeDomain := <["t" := tunnels]> m.
Definition no_dns (_ : string) : option (list string) := None.
Definition binds (p : Z) : option string := if p =? 5432 then Some "address in use" else None.
Definition e1 : edge := Apply no_dns binds (range store).*2 7 e0.
Definition ra : RelayTarget := mkRelayTarget "a" "10.1.0.1" 3 false.
Definition rb : RelayTarget := mkRelayTarget "b" "10.1.0.2" 1 false.
Definition rc : RelayTarget := mkRelayTarget "c" "10.1.0.3" 0 true.
Definition live : Live :=
  mkLive [rb; rc; ra] (λ h, if String.eqb h "ssh.t.example" then Some ra else None)
    (λ p, if p =? 2001 then Some (ra, "ssh") else None).
Definition net : network := mkNetwork (λ _, None) true (λ _, (0, 0)%nat) (1700000000 * second).
Definition client : peer := mkPeer "1.2.3.4:9" (Some (V4 16909060)).
Definition tcp : listener := default (mkListener 0 EDGE_PROTOCOL_UNSPECIFIED None None) (listeners e1 !! 2001).
Definition tls443 : listener := default (mkListener 0 EDGE_PROTOCOL_UNSPECIFIED None None) (listeners e1 !! 443).
Definition rs443 : routeSet := default (mkRouteSet ∅ ∅ None None) (routes tls443).

Lemma store_consistent : consistent "t.example" store.
Proof.
  apply reachable_consistent. apply (rtc_l _ _ m1); [refine (store_put "t.example" m0 a a' _); vm_compute; reflexivity|].
  apply (rtc_l _ _ m); [refine (store_put "t.example" m1 b b _); vm_compute; reflexivity|].
  apply rtc_once. refine (store_put "t.example" m tunnels tunnels _). vm_compute. reflexivity.
Qed.
End EdgeSample.
Import EdgeSample.

Lemma e0_pools : pools_ok e0.
Proof. split; cbn; intros *; by rewrite lookup_empty. Qed.
Lemma e0_fine p po : pheap e0 !! p = Some po → pool_ok po.
Proof. cbn. by rewrite lookup_empty. Qed.
Lemma e0_valid k p : pools e0 !! k = Some p → is_Some (pheap e0 !! p).
Proof. cbn. by rewrite lookup_empty. Qed.

(** The served forward of the sample's shop. *)
Definition shop : item := mkItem ConfSample.a' (mkParsed [] [] ∅ "" None ∅) 0 (ConfSample.fwd 443 EDGE_PROTOCOL_TLS).
Lemma shop_served : served (range store).*2 shop.
Proof.
  split_and!; [|reflexivity..]. apply list_elem_of_fmap. exists ("a", ConfSample.a'). split; [reflexivity|].
  apply elem_of_range. vm_compute. reflexivity.
Qed.

Lemma Apply_serves_witness :
  is_Some (listeners e1 !! 443) ∧ listeners e1 !! 80 = None ∧
  (∃ r po, rdomain r = ConfSample.a' ∧ fwd po = ConfSample.fwd 443 EDGE_PROTOCOL_TLS ∧
     resolve live rs443 "SHOP.example." e1 = (e1, mkTargetTo (Some r) zeroRelay true)).
Proof.
  destruct (Apply_serves no_dns binds "t.example" store store_consistent e0 7 eq_refl e0_valid e0_fine) as (_ & Hiff & Hroute).
  fold e1 in Hiff, Hroute.
  assert (listens (i_fwd shop) 443) as Hl by (unfold listens; cbn; lia). split_and!.
  - apply Hiff. exists shop. split; [exact shop_served|exact Hl].
  - vm_compute. reflexivity.
  - destruct (Hroute shop 443 shop_served Hl) as (l & rs & r & po & Hls & Hrs & _ & _ & Hd & _ & _ & _ & Hf & _ & _ & Hsite).
    exists r, po. split; [exact Hd|]. split; [exact Hf|].
    specialize (Hsite eq_refl "shop.example" ltac:(left)). cbn [CutPrefix] in Hsite.
    assert (rs443 = rs) as -> by (unfold rs443, tls443; rewrite Hls; change (default _ (Some l)) with l; by rewrite Hrs).
    apply Hsite. vm_compute. reflexivity.
Defined.

Lemma Apply_pools_witness :
  ∃ p, pools e1 !! "b/#1" = Some p ∧ pools (Apply no_dns binds [ConfSample.b] 8 e1) !! "b/#1" = Some p ∧
  pools (Apply no_dns binds [ConfSample.b] 8 e1) !! "a/#0" = None.
Proof.
  assert (pools_ok e1) as Hok1.
  { unfold e1. apply (Apply_pools no_dns binds e0 (range store).*2 7 e0_pools eq_refl).
    apply (bool_decide_eq_true_1 _). vm_compute. reflexivity. }
  destruct (Apply_pools no_dns binds e1 [ConfSample.b] 8 Hok1) as (_ & Hkeys & Hkeep);
    [reflexivity|apply (bool_decide_eq_true_1 _); vm_compute; reflexivity|].
  set (db := mkItem ConfSample.b (mkParsed [] [] ∅ "" None ∅) 1 (ConfSample.fwd 5432 EDGE_PROTOCOL_TCP)).
  destruct (Hkeep db) as (p & po & Hp & _ & _ & Hsame); [split_and!; [left|reflexivity..]|].
  change (key_of db) with "b/#1" in Hp, Hsame.
  destruct (pools e1 !! "b/#1") as [p0|] eqn:Hp0; [|vm_compute in Hp0; discriminate Hp0].
  destruct (po_valid _ Hok1 _ _ Hp0) as (po0 & Hpo0 & _).
  destruct (Hsame p0 po0 eq_refl Hpo0) as [-> _].
  { vm_compute in Hp0. injection Hp0 as <-. vm_compute in Hpo0. injection Hpo0 as <-. reflexivity. }
  exists p0. split; [reflexivity|]. split; [exact Hp|]. vm_compute. reflexivity.
Defined.

Lemma relayPick_fair_witness :
  (relayPick live true e1).2 = Some rb ∧ (relay_picks 2 live e1).2 = [Some rb; Some ra] ∧
  (relay_picks 2 live e1).2 ≡ₚ [Some rb; Some ra].
Proof.
  split; [vm_compute; reflexivity|]. split; [vm_compute; reflexivity|].
  destruct (relayPick_fair live e1) as (_ & Hp & _); [discriminate|vm_compute; congruence|vm_compute; reflexivity|exact Hp].
Defined.

Lemma resolve_relays_witness :
  (resolve live rs443 "connect.t.example" e1).2 = mkTargetTo (base rs443) rb true ∧
  resolve live rs443 "SSH.t.example" e1 = (e1, mkTargetTo (base rs443) ra true).
Proof.
  split; [vm_compute; reflexivity|]. destruct (base rs443) as [b|] eqn:Hb; [|vm_compute in Hb; discriminate Hb].
  apply (resolve_relays live rs443 b "SSH.t.example" e1); [exact Hb|vm_compute; reflexivity|discriminate|discriminate|discriminate|reflexivity].
Defined.

Lemma serve_safe_witness :
  safe_outcome live net rs443 client e1 (serve live net client (Some "ssh.t.example") tls443 e1).2 ∧
  (serve live net client (Some "ssh.t.example") tls443 e1).2 = Joined (ToRelay "10.1.0.1:7443") (Some []).
Proof.
  split; [|vm_compute; reflexivity].
  destruct (Apply_serves no_dns binds "t.example" store store_consistent e0 7 eq_refl e0_valid e0_fine) as (Hfine & _ & Hroute).
  fold e1 in Hfine, Hroute.
  destruct (Hroute shop 443 shop_served ltac:(unfold listens; cbn; lia)) as (l & rs & r & po & Hls & Hrs & _ & Hloc & _).
  assert (tls443 = l) as -> by (unfold tls443; by rewrite Hls).
  assert (rs443 = rs) as -> by (unfold rs443, tls443; rewrite Hls; change (default _ (Some l)) with l; by rewrite Hrs).
  destruct (serve live net client (Some "ssh.t.example") l e1) as [e' out] eqn:Hs.
  exact (serve_safe live net client _ l rs e1 e' out Hrs Hloc Hfine Hs).
Defined.

Module StreamSample.
Definition c : ClusterLink := mkCluster (λ _, Err ErrClusterUnavailable) (λ _, None) (λ _, None) key.
Definition s : Server :=
  mkServer (rules RelaySample.s) "relay.example" 443 (λ _, true) None (Some c).
Definition r2001 : route := default (mkRoute tunnels (relay_fwd "" 0 0 EDGE_PROTOCOL_TCP) 1%positive (mkParsed [] [] ∅ "" None ∅) None)
  (rs ← routes tcp; single rs).
End StreamSample.

Lemma stream_reaches_tunnel_witness :
  match stream live net client 2001 StreamSample.r2001 e1 with
  | (_, Joined up (Some tlvs)) =>
      up = ToRelay "10.1.0.1:7443" ∧
      (serveStream StreamSample.s ServeSample.addr "1.2.3.4:9" tlvs (1700000030 * second) ServeSample.x1).2 = Some 10%positive ∧
      serveStream StreamSample.s ServeSample.addr "1.2.3.4:9" tlvs (1700000061 * second) ServeSample.x1 = (ServeSample.x1, None)
  | _ => False
  end.
Proof.
  assert (∃ e' up tlvs, stream live net client 2001 StreamSample.r2001 e1 = (e', Joined up (Some tlvs))) as (e' & up & tlvs & Hs).
  { vm_compute. do 3 eexists. reflexivity. }
  rewrite Hs. change "10.1.0.1:7443" with (relay_addr ra StreamSample.r2001). change "1.2.3.4:9" with (ptext client).
  destruct (stream_reaches_tunnel StreamSample.s StreamSample.c live net client 2001 StreamSample.r2001 e1 e' up tlvs ra "ssh" Hs)
    as [Hup Hserve]; [reflexivity|reflexivity|reflexivity|split; vm_compute; congruence|].
  split; [exact Hup|]. split.
  - apply (Hserve ServeSample.x1 ServeSample.addr (1700000030 * second));
      [exact registry_x1_inv|split; vm_compute; congruence|split; vm_compute; congruence|].
    split; [|split; vm_compute; reflexivity]. apply served_under; [exact registry_x1_inv|]. vm_compute. reflexivity.
  - apply (Hserve ServeSample.x1 ServeSample.addr (1700000061 * second));
      [exact registry_x1_inv|split; vm_compute; congruence|]. intros [_ Hle]. vm_compute in Hle. by apply Hle.
Defined.
