(* ===== verification/EdgeStatusSpec.v ===== *)
(** * The edge's status report: theorems *)

From S2P Require Import Prelude GoStrings NetIP Limiter Access EdgeConf EdgePool Edge.
From stdpp Require Import options.
#[local] Open Scope l8_scope.
#[local] Open Scope Z_scope.

(** The entry reports port [p]. *)
Definition reports (s : EdgeListenerStatus) (p : Z) : Prop := SPort s ≤ p ≤ last_reported s.

(** Entries with the newest first: each lies above the ones reported before. *)
Definition above (s s' : EdgeListenerStatus) : Prop := last_reported s' < SPort s.

Section status.
Context `{MapRange} (ls : gmap Z listener).

Definition add_port (acc : list EdgeListenerStatus) (p : Z) : list EdgeListenerStatus :=
  match ls !! p with Some l => report acc (listener_status p l) | None => acc end.

(** The entries say what the listeners on their ports are. *)
Definition truthful (s : EdgeListenerStatus) : Prop :=
  ∀ p l, reports s p → ls !! p = Some l → SProtocol s = lproto l ∧ SBound s = bool_decide (lerr l = None).

Record reported (seen : list Z) (acc : list EdgeListenerStatus) : Prop := {
  re_cover p : p ∈ seen ↔ ∃ s, s ∈ acc ∧ reports s p;
  re_sorted : StronglySorted above acc;
  re_entry s : s ∈ acc → SPort s ≤ last_reported s ∧ 1 ≤ SPort s ∧ truthful s;
}.

Lemma port_alone p l :
  1 ≤ p ≤ 65535 → let s := listener_status p l in
  SPort s = p ∧ last_reported s = p ∧ SProtocol s = lproto l ∧ SBound s = bool_decide (lerr l = None).
Proof.
  intros Hp. cbn. unfold last_reported. cbn. rewrite int32_id by (unfold is_int32; lia). done.
Qed.

Lemma last_extended s p : p ≠ 0 → SPort (s <| SPortEnd := p |>) = SPort s ∧ last_reported (s <| SPortEnd := p |>) = p.
Proof. intros Hp. unfold last_reported. cbn. split; [done|]. by rewrite (proj2 (Z.eqb_neq p 0)). Qed.

Lemma add_port_ok seen acc p l :
  1 ≤ p ≤ 65535 → ls !! p = Some l → (∀ q, q ∈ seen → q < p) → reported seen acc → reported (seen ++ [p]) (add_port acc p).
Proof.
  intros Hp Hl Hlt Hr. unfold add_port. rewrite Hl. destruct (port_alone p l Hp) as (Hsp & Hla & Hpr & Hbo).
  set (s := listener_status p l) in *.
  assert (∀ s', s' ∈ acc → last_reported s' < p) as Hbelow.
  { intros s' Hs'. destruct (re_entry _ _ Hr s' Hs') as (? & ? & _). apply Hlt, (re_cover _ _ Hr). exists s'. split; [done|]. unfold reports. lia. }
  assert (reported (seen ++ [p]) (s :: acc)) as Hnew.
  { split.
    - intros q. rewrite elem_of_app, list_elem_of_singleton, (re_cover _ _ Hr). split.
      + intros [(s' & ? & ?)| ->]; [exists s'; split; [by right|done]|exists s; split; [left|unfold reports; lia]].
      + intros (s' & [->|Hs']%elem_of_cons & Hq); [right; unfold reports in Hq; lia|left; by exists s'].
    - constructor; [apply Hr|]. apply Forall_forall. intros s' Hs'. unfold above. rewrite Hsp. by apply Hbelow.
    - intros s' [->|Hs']%elem_of_cons; [|by apply Hr]. split_and!; [lia|lia|]. intros q l' Hq Hl'. unfold reports in Hq.
      assert (q = p) as -> by lia. by simplify_eq. }
  unfold report. destruct acc as [|prev acc]; [done|]. destruct (extends prev s) eqn:Hext; [|done].
  unfold extends in Hext. bool_facts. rewrite Hsp in *.
  match goal with H : last_reported prev = _ |- _ => rename H into Hlast end.
  rewrite int32_id in Hlast by (unfold is_int32; lia).
  destruct (last_extended prev p ltac:(lia)) as [Hsp' Hla']. set (prev' := prev <| SPortEnd := p |>) in *.
  pose proof (re_sorted _ _ Hr) as Hsort. apply StronglySorted_inv in Hsort as [Hsort Hall].
  destruct (re_entry _ _ Hr prev ltac:(left)) as (Hle & Hpos & Htr). split.
  - intros q. rewrite elem_of_app, list_elem_of_singleton, (re_cover _ _ Hr). split.
    + intros [(s' & [->|Hs']%elem_of_cons & Hq)| ->]; [exists prev'|exists s'|exists prev'].
      * split; [left|]. unfold reports in *. lia.
      * split; [by right|done].
      * split; [left|]. unfold reports. lia.
    + intros (s' & [->|Hs']%elem_of_cons & Hq); [|left; exists s'; split; [by right|done]].
      unfold reports in Hq. destruct (decide (q = p)) as [|Hne]; [by right|left]. exists prev. split; [left|]. unfold reports. lia.
  - constructor; [done|]. eapply Forall_impl; [exact Hall|]. intros s'. unfold above. by rewrite Hsp'.
  - intros s' [->|Hs']%elem_of_cons; [|apply Hr; by right]. split_and!; [lia|lia|]. intros q l' Hq Hl'.
    unfold reports in Hq. destruct (decide (q = p)) as [->|Hne].
    + simplify_eq. change (SProtocol prev') with (SProtocol prev). change (SBound prev') with (SBound prev).
      split; [congruence|]. rewrite <-Hbo. congruence.
    + apply (Htr q l'); [unfold reports; lia|done].
Qed.

Lemma add_ports_ok l seen acc :
  (∀ p, p ∈ l → 1 ≤ p ≤ 65535 ∧ is_Some (ls !! p)) → StronglySorted Z.lt l → (∀ q p, q ∈ seen → p ∈ l → q < p) →
  reported seen acc → reported (seen ++ l) (foldl add_port acc l).
Proof.
  revert seen acc. induction l as [|p l IH]; intros seen acc Hl Hs Hlt Hr; [by rewrite app_nil_r|].
  apply StronglySorted_inv in Hs as [Hs Hall]. destruct (Hl p ltac:(left)) as [Hp [x Hx]]. cbn [foldl].
  change (p :: l) with ([p] ++ l). rewrite app_assoc. apply IH.
  - intros q Hq. apply Hl. by right.
  - done.
  - intros q q' [Hq|Hq%list_elem_of_singleton]%elem_of_app Hq'; [apply Hlt; [done|by right]|subst].
    by eapply (proj1 (Forall_forall _ _)) in Hall.
  - by apply (add_port_ok _ _ _ x); [| |intros q Hq; apply Hlt; [done|left]|].
Qed.
End status.

(** the status report covers every port once and truthfully. With valid
port numbers, a port is in an entry of the report exactly if the edge has a
listener for it, in one entry only, in ascending order, and the entry has the
listener's protocol and says whether it is bound. *)
Theorem Status_ports `{MapRange} e :
  (∀ p, is_Some (listeners e !! p) → 1 ≤ p ≤ 65535) →
  let l := StListeners (Status e) in
  (∀ p, is_Some (listeners e !! p) ↔ ∃ s, s ∈ l ∧ reports s p) ∧
  (∀ i j s s', l !! i = Some s → l !! j = Some s' → (i < j)%nat → last_reported s < SPort s') ∧
  (∀ s p x, s ∈ l → reports s p → listeners e !! p = Some x →
     SProtocol s = lproto x ∧ SBound s = bool_decide (lerr x = None)).
Proof.
  intros Hv l. set (ports := merge_sort Z.le (range (listeners e)).*1).
  assert (∀ p, p ∈ ports ↔ is_Some (listeners e !! p)) as Hports
    by (intros p; unfold ports; rewrite merge_sort_Permutation; apply elem_of_range_keys).
  assert (StronglySorted Z.lt ports) as Hsort.
  { assert (StronglySorted Z.le ports) as Hle by (apply (StronglySorted_merge_sort Z.le)).
    assert (NoDup ports) as Hnd by (unfold ports; rewrite merge_sort_Permutation; apply NoDup_range).
    clearbody ports. clear -Hle Hnd. induction Hle as [|p ports Hs IH Hall]; [constructor|].
    apply NoDup_cons in Hnd as [Hp Hnd]. constructor; [by apply IH|]. apply Forall_forall. intros q Hq.
    rewrite Forall_forall in Hall. specialize (Hall q Hq). assert (q ≠ p) by (by intros ->). lia. }
  assert (reported (listeners e) ports (rev l)) as Hr.
  { unfold l, Status. cbn [StListeners]. rewrite rev_involutive. change ports with ([] ++ ports) at 1.
    apply add_ports_ok; [intros p Hp%Hports; split; [by apply Hv|done]|done|by intros q p ?%elem_of_nil|].
    split; [intros p; split; [by intros ?%elem_of_nil|by intros (s & ?%elem_of_nil & _)]|constructor|by intros s ?%elem_of_nil]. }
  assert (∀ s, s ∈ rev l ↔ s ∈ l) as Hrev by (intros s; rewrite !list_elem_of_In; apply iff_sym, in_rev). split_and!.
  - intros p. rewrite <-Hports, (re_cover _ _ _ Hr). by setoid_rewrite Hrev.
  - intros i j s s' Hi Hj Hij. pose proof (re_sorted _ _ _ Hr) as Hss. clear -Hss Hi Hj Hij.
    assert (∀ l : list EdgeListenerStatus, StronglySorted above (rev l) → ∀ i j s s', l !! i = Some s → l !! j = Some s' → (i < j)%nat → above s' s) as Hall.
    { clear. induction l as [|a l IH]; intros Hss i j s s' Hi Hj Hij; [done|]. cbn in Hss.
      destruct j as [|j]; [lia|]. destruct i as [|i]; cbn in Hi, Hj.
      - simplify_eq. eapply StronglySorted_app_1_elem_of; [exact Hss| |left].
        rewrite list_elem_of_In, <-in_rev, <-list_elem_of_In. by eapply list_elem_of_lookup_2.
      - apply (IH (StronglySorted_app_1_l _ _ _ Hss) i j); [done|done|lia]. }
    by eapply (Hall l).
  - intros s p x Hs. apply Hrev in Hs. by apply (re_entry _ _ _ Hr s Hs).
Qed.

Module StatusSample.
Definition on (p : Z) (proto : EdgeProtocol) (err : option string) : listener := mkListener p proto err None.
Definition e : edge :=
  mkEdge (mkEdgeConfig "" "" "" "" "" (QArith_base.inject_Z 1) 1) (NewIPLimiter (QArith_base.inject_Z 1) 1 0)
    {[443 := on 443 EDGE_PROTOCOL_TLS None; 2000 := on 2000 EDGE_PROTOCOL_TCP None; 2001 := on 2001 EDGE_PROTOCOL_TCP None;
      2002 := on 2002 EDGE_PROTOCOL_TCP (Some "in use")]} ∅ 0 false (mkEdgeCounters 0 0 0 0 0) 0 ∅.
End StatusSample.

Lemma Status_ports_witness :
  (λ s, (SPort s, SPortEnd s)) <$> StListeners (Status StatusSample.e) = [(443, 0); (2000, 2001); (2002, 0)] ∧
  ∃ s, s ∈ StListeners (Status StatusSample.e) ∧ reports s 2001.
Proof.
  split; [vm_compute; reflexivity|].
  refine (proj1 (proj1 (Status_ports StatusSample.e _) 2001) _); [|vm_compute; by eexists].
  intros p [l Hl]. unfold StatusSample.e in Hl. cbn [listeners] in Hl.
  repeat (apply lookup_insert_Some in Hl as [[<- _]|[_ Hl]]; [lia|]). apply lookup_singleton_Some in Hl as [<- _]. lia.
Defined.
