(* ===== verification/LiveView.v ===== *)
(** * The cached live tables (go/tun/common/liveview.go), and what relays and
edges ask of them (go/tun/relaynode/link.go, go/tun/edgenode/live.go)

Relays and edges route by a cached copy of the registry's live tables. The
copy is read again in the background; a lookup that misses waits for the read.
The answers of the registry are arguments: [answer] is what a fetch that runs
returns before the copy is looked at, if it ends by then. *)

From S2P Require Import Prelude GoStrings Protocol Policy Claims.
From S2P Require Import NameRegistry RelayTunnels EdgeConf EdgePool Edge.
From stdpp Require Import options.
#[local] Open Scope l8_scope.
#[local] Open Scope Z_scope.
Import Rules.

Definition liveRefetchMin : Z := second.
Definition liveMissWait : Z := 2 * second.

Record LiveView := mkLiveView {
  ttl : Z;
  lvByName : gmap string TunLiveTunnel;   (* active tunnels by name and custom domain *)
  lvByPort : gmap Z TunLiveTunnel;
  lvRelays : gmap string TunRelay;
  fetched : Z;
  tried : Z;
  fetching : bool;
}.
#[export] Instance eta_liveview : Eta LiveView := λ v,
  mkLiveView (ttl v) (lvByName v) (lvByPort v) (lvRelays v) (fetched v) (tried v) (fetching v).

Definition NewLiveView (ttl : Z) : LiveView := mkLiveView ttl ∅ ∅ ∅ zeroTime zeroTime false.

Definition Invalidate (v : LiveView) : LiveView := v <| fetched := zeroTime |> <| tried := zeroTime |>.

(** The tables a fetch reads: of tunnels and of relays. *)
Definition live_read : Type := list TunLiveTunnel * list TunRelay.

Definition routable (t : TunLiveTunnel) : bool :=
  negb (String.eqb (tName t) "") && negb (tSimulated t) && bool_decide (tState t = TUN_LIVE_STATE_ACTIVE).

Definition by_name (l : list TunLiveTunnel) : gmap string TunLiveTunnel :=
  foldl (λ m t, if routable t then foldl (λ m d, <[d := t]> m) (<[tName t := t]> m) (tDomains t) else m) ∅ l.

Definition by_port (l : list TunLiveTunnel) : gmap Z TunLiveTunnel :=
  foldl (λ m t, if routable t && negb (tPublicPort t =? 0) then <[tPublicPort t := t]> m else m) ∅ l.

Definition by_relay (l : list TunRelay) : gmap string TunRelay :=
  foldl (λ m r, if negb (String.eqb (rRelayId r) "") && negb (rSimulated r) then <[rRelayId r := r]> m else m) ∅ l.

(** The end of a fetch; [None] is an error. *)
Definition fetch (answer : option live_read) (now : Z) (v : LiveView) : LiveView :=
  let v := v <| fetching := false |> in
  match answer with
  | None => v
  | Some (ts, rs) =>
      v <| lvByName := by_name ts |> <| lvByPort := by_port ts |> <| lvRelays := by_relay rs |> <| fetched := now |>
  end.

(** The view with a fetch started if one is due, and whether the caller waits
for it. *)
Definition ensure (age : Z) (miss : bool) (now : Z) (v : LiveView) : LiveView * bool :=
  if now - fetched v <? age then (v, false)
  else
    let v := if negb (fetching v) && (liveRefetchMin <=? now - tried v) then v <| fetching := true |> <| tried := now |> else v in
    let empty := fetched v =? zeroTime in
    (v, fetching v && (miss || empty)).

(** A fetch that runs may end before the next look at the copy. *)
Definition settle (answer : option (option live_read)) (now : Z) (v : LiveView) : LiveView :=
  match answer with
  | Some a => if fetching v then fetch a now v else v
  | None => v
  end.

Definition owner (v : LiveView) (t : option TunLiveTunnel) : option (TunLiveTunnel * TunRelay) :=
  t ← t; r ← lvRelays v !! tRelayId t;
  if bool_decide (rState r = TUN_RELAY_STATE_DOWN) || String.eqb (rPodIp r) "" then None else Some (t, r).

Section view.
Context `{GoUnicode} (rules : Rules.Rules).

Definition host_key (host : string) : string :=
  let host := ToLower host in
  let name := TunnelName rules host in if negb (String.eqb name "") then name else host.

Definition lookup_host (v : LiveView) (key : string) : option (TunLiveTunnel * TunRelay) :=
  owner v (foldl (λ t w, match t with Some _ => t | None => lvByName v !! w end) (lvByName v !! key) (WildcardsOf key)).

(** [a1] and [a2] are what fetches that end meanwhile return. *)
Definition Tunnel (host stale : string) (a1 a2 : option (option live_read)) (now : Z) (v : LiveView)
    : LiveView * option (TunLiveTunnel * TunRelay) :=
  let key := host_key host in
  let v := settle a1 now (ensure (ttl v) false now v).1 in
  let r := lookup_host v key in
  if (match r with
      | None => true
      | Some (t, _) => negb (String.eqb stale "") && String.eqb (tRelayId t) stale
      end)
  then let v := settle a2 now (ensure liveRefetchMin true now v).1 in (v, lookup_host v key)
  else (v, r).

Definition TunnelByPort (port : Z) (a1 a2 : option (option live_read)) (now : Z) (v : LiveView)
    : LiveView * option (TunLiveTunnel * TunRelay) :=
  let v := settle a1 now (ensure (ttl v) false now v).1 in
  match owner v (lvByPort v !! port) with
  | None => let v := settle a2 now (ensure liveRefetchMin true now v).1 in (v, owner v (lvByPort v !! port))
  | r => (v, r)
  end.

Definition ViewRelays `{MapRange} (a1 : option (option live_read)) (now : Z) (v : LiveView) : LiveView * list TunRelay :=
  let v := settle a1 now (ensure (ttl v) false now v).1 in
  (v, List.filter (λ r, negb (bool_decide (rState r = TUN_RELAY_STATE_DOWN))) (range (lvRelays v)).*2).

(** ** What the edge asks (edgenode/live.go) *)

Definition relay_target_of (r : TunRelay) : RelayTarget :=
  mkRelayTarget (rRelayId r) (rPodIp r) (rSessions r) (bool_decide (rState r = TUN_RELAY_STATE_DRAINING)).

Definition EdgeRelays `{MapRange} (a1 : option (option live_read)) (now : Z) (v : LiveView) : LiveView * list RelayTarget :=
  let '(v, l) := ViewRelays a1 now v in
  (v, relay_target_of <$> List.filter (λ r, negb (String.eqb (rPodIp r) "")) l).

Definition EdgeOwnerOfHost (host : string) (a1 a2 : option (option live_read)) (now : Z) (v : LiveView)
    : LiveView * option RelayTarget :=
  let '(v, r) := Tunnel host "" a1 a2 now v in (v, '(_, r) ← r; Some (relay_target_of r)).

Definition EdgeOwnerOfPort (port : Z) (a1 a2 : option (option live_read)) (now : Z) (v : LiveView)
    : LiveView * option (RelayTarget * string) :=
  let '(v, r) := TunnelByPort (int32 port) a1 a2 now v in (v, '(t, r) ← r; Some (relay_target_of r, tName t)).

(** ** What a relay asks (relaynode/link.go) *)

Definition link_owner (relayID host : string) (a1 a2 : option (option live_read)) (now : Z) (v : LiveView)
    : LiveView * option (TunLiveTunnel * TunRelay) :=
  let '(v, r) := Tunnel host relayID a1 a2 now v in
  (v, '(t, r) ← r; if String.eqb (tRelayId t) relayID then None else Some (t, r)).

Definition LinkOwnerOf (relayID host : string) (a1 a2 : option (option live_read)) (now : Z) (v : LiveView)
    : LiveView * option string :=
  let '(v, r) := link_owner relayID host a1 a2 now v in
  (v, '(_, r) ← r; Some (JoinHostPort (rPodIp r) (Itoa (rTlsPort r)))).

Definition LinkStreamOwnerOf (relayID name : string) (a1 a2 : option (option live_read)) (now : Z) (v : LiveView)
    : LiveView * option (string * bool) :=
  let '(v, r) := link_owner relayID (name +:+ "." +:+ Rules.BaseDomain rules) a1 a2 now v in
  (v, '(t, r) ← r; Some (JoinHostPort (rPodIp r) (Itoa (rStreamPort r)), tAccessToken t)).
End view.

(** ** Claims (relaynode/link.go) *)

Definition wireCode (e : TunClaimError) : ErrorCode :=
  match e with
  | TUN_CLAIM_ERROR_NAME_TAKEN => ERROR_CODE_NAME_TAKEN
  | TUN_CLAIM_ERROR_MAX_TUNNELS | TUN_CLAIM_ERROR_FORBIDDEN => ERROR_CODE_FORBIDDEN
  | TUN_CLAIM_ERROR_PORT_UNAVAILABLE => ERROR_CODE_PORT_UNAVAILABLE
  | TUN_CLAIM_ERROR_PORT_NOT_ALLOWED => ERROR_CODE_PORT_NOT_ALLOWED
  | TUN_CLAIM_ERROR_UNSPECIFIED | TUN_CLAIM_ERROR_INVALID => ERROR_CODE_INVALID_REQUEST
  end.

Definition disconnectReason (r : DisconnectReason) : TunDisconnectReason :=
  match r with
  | ReasonHeartbeat => TUN_DISCONNECT_REASON_HEARTBEAT_TIMEOUT
  | ReasonTokenRevoked => TUN_DISCONNECT_REASON_TOKEN_REVOKED
  | ReasonDrained => TUN_DISCONNECT_REASON_RELAY_DRAINED
  | ReasonTakeover => TUN_DISCONNECT_REASON_TAKEOVER
  | ReasonOperator => TUN_DISCONNECT_REASON_OPERATOR
  | ReasonAgentClosed => TUN_DISCONNECT_REASON_AGENT_CLOSED
  end.

Inductive link_err := LinkRemote (code : ErrorCode) | LinkUnavailable | LinkOther.

Definition claimRetry : Z := 10 * second.

(** [TunnelTypeOf(TunnelTypeName(t))]: the unspecified type has no name. *)
Definition tun_type (t : TunnelType) : option TunTunnelType :=
  match t with
  | TUNNEL_TYPE_UNSPECIFIED => None
  | TUNNEL_TYPE_TCP => Some TUN_TUNNEL_TYPE_TCP
  | TUNNEL_TYPE_SSH => Some TUN_TUNNEL_TYPE_SSH
  | TUNNEL_TYPE_HTTP => Some TUN_TUNNEL_TYPE_HTTP
  | TUNNEL_TYPE_TLS => Some TUN_TUNNEL_TYPE_TLS
  end.

(** The request; [show] is the text of a session's identifier. *)
Definition claim_request (show : session_id → string) (relayID : string) (typ : TunTunnelType) (c : ClaimRequest) : TunClaimRequest :=
  mkRequest TUN_CLAIM_KIND_CLAIM relayID (show (crSessionID c)) (crAgentID c) (crTokenID c) (int32 (crMaxTunnels c))
    (int32 (crPortMin c)) (int32 (crPortMax c))
    [mkTunnel (crTunnelID c) (crName c) typ (crHostname c) (crDomains c) (int32 (crPublicPort c)) "" "" ""
       TUN_LIVE_STATE_UNSPECIFIED 0 0 0 0 0 0 false "" (crAccessToken c) (int32 (crPreviousPort c))]
    [] 0 None [] None TUN_DISCONNECT_REASON_UNSPECIFIED.

Definition claim_reply (resp : TunClaimResponse) : result link_err Z :=
  match pError resp with
  | TUN_CLAIM_ERROR_UNSPECIFIED => match pTunnels resp with [t] => Ok (tPublicPort t) | _ => Err LinkOther end
  | err => Err (LinkRemote (wireCode err))
  end.

(** The attempts from the [k]-th on; [ask k] is the registry's answer to it
([None]: it could not be asked), [clock k] the time after it. [None] is running
out of fuel. *)
Fixpoint claim_loop (fuel : nat) (ask : nat → option TunClaimResponse) (clock : nat → Z) (deadline : Z) (k : nat)
    : option (result link_err Z) :=
  match fuel with
  | O => None
  | S fuel =>
      match ask k with
      | Some resp => Some (claim_reply resp)
      | None => if deadline <? clock k then Some (Err LinkUnavailable) else claim_loop fuel ask clock deadline (S k)
      end
  end.

(** The clock moves on by at least the second between attempts: twelve are
enough to pass the deadline. *)
Definition claim_fuel : nat := 12.

(** A granted claim drops the relay's copy of the tables. *)
Definition LinkClaimTunnel (ask : nat → option TunClaimResponse) (clock : nat → Z) (start : Z) (c : ClaimRequest) (v : LiveView)
    : LiveView * option (result link_err Z) :=
  let r := match tun_type (crType c) with
           | None => Some (Err LinkOther)
           | Some _ => claim_loop claim_fuel ask clock (start + claimRetry) 0
           end in
  (match r with Some (Ok _) => Invalidate v | _ => v end, r).
