(* ===== verification/LiveViewSpec.v ===== *)
(** * The cached live tables: theorems

A copy of an engine's tables routes every host name and public port to the
tunnel that holds it; a claim the engine granted is routed once the tables are
read; and how often the tables are read. *)

From S2P Require Import Prelude GoStrings Protocol Policy.
From S2P Require Import NameRegistry RelayTunnels EdgeConf EdgePool Edge LiveView.
From S2P Require Import Claims ClaimsInv ClaimsSpec ClaimsLife.
From stdpp Require Import options.
#[local] Open Scope l8_scope.
#[local] Open Scope Z_scope.
Import Rules.

(** ** Indexes *)

(** A table built by inserting, for each element, some of its keys. *)
Lemma index_spec {K A} `{Countable K} (keys : A → list K) (l : list A) (m : gmap K A) k :
  let ins m a := foldl (λ m k, <[k := a]> m) m (keys a) in
  (∀ a b, a ∈ l → b ∈ l → k ∈ keys a → k ∈ keys b → a = b) →
  (∀ a, a ∈ l → k ∈ keys a → foldl ins m l !! k = Some a) ∧
  ((∀ a, a ∈ l → k ∉ keys a) → foldl ins m l !! k = m !! k).
Proof.
  intros ins Huniq.
  assert (∀ (m : gmap K A) a ks, k ∈ ks → foldl (λ m k, <[k := a]> m) m ks !! k = Some a) as Hset.
  { intros m' a ks Hk. apply (foldl_set (λ m : gmap K A, m !! k) (λ m k, <[k := a]> m) (λ k', k' = k)); [| |left; by exists k].
    - intros s ? _ ->. by rewrite lookup_insert_eq.
    - intros s k' _ Hne. by rewrite lookup_insert_ne. }
  assert (∀ (m : gmap K A) a ks, k ∉ ks → foldl (λ m k, <[k := a]> m) m ks !! k = m !! k) as Hkeep.
  { intros m' a ks Hk. apply (foldl_keep (λ m : gmap K A, m !! k) (λ m k, <[k := a]> m)). intros s k' Hk'.
    rewrite lookup_insert_ne; [done|]. by intros ->. }
  split.
  - intros a Ha Hk. apply (foldl_set (λ m : gmap K A, m !! k) ins (λ b, k ∈ keys b)); [| |left; by exists a].
    + intros s b Hb Hkb. unfold ins. rewrite (Huniq b a) by done. by apply Hset.
    + intros s b _ Hkb. by apply Hkeep.
  - intros Hno. apply (foldl_keep (λ m : gmap K A, m !! k) ins). intros s b Hb. by apply Hkeep, Hno.
Qed.

Definition name_keys (t : TunLiveTunnel) : list string := if routable t then tName t :: tDomains t else [].
Definition port_keys (t : TunLiveTunnel) : list Z := if routable t && negb (tPublicPort t =? 0) then [tPublicPort t] else [].
Definition relay_keys (r : TunRelay) : list string :=
  if negb (String.eqb (rRelayId r) "") && negb (rSimulated r) then [rRelayId r] else [].

Lemma foldl_ext_eq {A B} (f g : B → A → B) l b : (∀ b a, f b a = g b a) → foldl f b l = foldl g b l.
Proof. intros Hfg. revert b. induction l as [|a l IH]; intros b; [done|]. cbn. by rewrite Hfg. Qed.

Lemma by_name_keys l : by_name l = foldl (λ m t, foldl (λ m k, <[k := t]> m) m (name_keys t)) ∅ l.
Proof. apply foldl_ext_eq. intros m t. unfold name_keys. by destruct (routable t). Qed.
Lemma by_port_keys l : by_port l = foldl (λ m t, foldl (λ m k, <[k := t]> m) m (port_keys t)) ∅ l.
Proof. apply foldl_ext_eq. intros m t. unfold port_keys. by destruct (_ && _). Qed.
Lemma by_relay_keys l : by_relay l = foldl (λ m r, foldl (λ m k, <[k := r]> m) m (relay_keys r)) ∅ l.
Proof. apply foldl_ext_eq. intros m r. unfold relay_keys. by destruct (_ && _). Qed.

(** With unique keys, the index holds exactly the elements under their keys. *)
Lemma index_iff {K A} `{Countable K} (keys : A → list K) (l : list A) k a :
  (∀ a b, a ∈ l → b ∈ l → k ∈ keys a → k ∈ keys b → a = b) →
  foldl (λ (m : gmap K A) a, foldl (λ m k, <[k := a]> m) m (keys a)) ∅ l !! k = Some a ↔ a ∈ l ∧ k ∈ keys a.
Proof.
  intros Huniq. destruct (index_spec keys l ∅ k Huniq) as [Hin Hout]. split; [|intros [? ?]; by apply Hin].
  destruct (decide (Exists (λ a, k ∈ keys a) l)) as [(b & Hb & Hk)%Exists_exists|Hno].
  - rewrite (Hin b) by done. by intros [= <-].
  - rewrite Hout; [by rewrite lookup_empty|]. intros b Hb Hk. apply Hno, Exists_exists. by exists b.
Qed.

(** ** A copy of the engine's tables *)

(** The tunnel can be reached through the relay. *)
Record serving (e : Engine) (t : TunLiveTunnel) (r : TunRelay) : Prop := {
  sv_tunnel : tunnels e !! tName t = Some t;
  sv_routable : routable t = true;
  sv_relay : relays e !! tRelayId t = Some r;
  sv_real : tRelayId t ≠ "" ∧ rSimulated r = false;
  sv_up : rState r ≠ TUN_RELAY_STATE_DOWN ∧ rPodIp r ≠ "";
}.

(** Tunnel names and custom domains are different things: names have no dot. *)
Definition names_apart (e : Engine) : Prop :=
  ∀ n t d, tunnels e !! n = Some t → d ∈ tDomains t → tunnels e !! d = None.

(** What a read of the tables returns, once they show the engine's state. *)
Definition live_tables `{MapRange} (e : Engine) : live_read := let '(ts, _, rs) := Snapshot e in (ts, rs).

Lemma elem_of_values `{MapRange} {A} (m : gmap string A) a : a ∈ (range m).*2 ↔ ∃ k, m !! k = Some a.
Proof.
  rewrite list_elem_of_fmap. split.
  - intros ([k b] & -> & Hk%elem_of_range). by exists k.
  - intros [k Hk]. exists (k, a). by rewrite elem_of_range.
Qed.

Section copy.
Context `{MapRange} (e : Engine).
Hypothesis engine_wf : wf e.
Hypothesis engine_exclusive : exclusive e.
Hypothesis engine_apart : names_apart e.

Lemma stored_tunnel t : t ∈ (range (tunnels e)).*2 ↔ tunnels e !! tName t = Some t.
Proof using engine_wf.
  rewrite elem_of_values. split; [|intros; by eexists]. intros [n Hn]. by rewrite (wf_name _ engine_wf _ _ Hn).
Qed.

Lemma name_unique k t1 t2 :
  tunnels e !! tName t1 = Some t1 → tunnels e !! tName t2 = Some t2 → k ∈ name_keys t1 → k ∈ name_keys t2 → t1 = t2.
Proof using engine_exclusive engine_apart.
  intros H1 H2. unfold name_keys. destruct (routable t1), (routable t2); try (by intros ?%elem_of_nil); try (by intros _ ?%elem_of_nil).
  intros [->|Hd1]%elem_of_cons [Heq|Hd2]%elem_of_cons.
  - rewrite Heq in H1. congruence.
  - pose proof (engine_apart _ _ _ H2 Hd2). congruence.
  - subst. pose proof (engine_apart _ _ _ H1 Hd1). congruence.
  - pose proof (ex_domain _ engine_exclusive _ _ _ H1 Hd1) as He1.
    rewrite (ex_domain _ engine_exclusive _ _ _ H2 Hd2) in He1. injection He1 as Heq. rewrite Heq in H2. congruence.
Qed.

Lemma port_unique p t1 t2 :
  tunnels e !! tName t1 = Some t1 → tunnels e !! tName t2 = Some t2 → p ∈ port_keys t1 → p ∈ port_keys t2 → t1 = t2.
Proof using engine_exclusive.
  intros H1 H2. unfold port_keys. destruct (routable t1 && _) eqn:Hk1; [|by intros ?%elem_of_nil].
  destruct (routable t2 && _) eqn:Hk2; [|by intros _ ?%elem_of_nil].
  intros ->%list_elem_of_singleton Hp%list_elem_of_singleton. bool_facts.
  pose proof (ex_port _ engine_exclusive _ _ H1 ltac:(done)) as He1. rewrite Hp in He1.
  rewrite (ex_port _ engine_exclusive _ _ H2 ltac:(done)) in He1. injection He1 as Heq. rewrite Heq in H2. congruence.
Qed.

Lemma by_name_iff k t : by_name (live_tables e).1 !! k = Some t ↔ tunnels e !! tName t = Some t ∧ k ∈ name_keys t.
Proof using engine_wf engine_exclusive engine_apart.
  rewrite by_name_keys, index_iff by (intros a b ?%stored_tunnel ?%stored_tunnel; by apply name_unique).
  by rewrite stored_tunnel.
Qed.

Lemma by_port_iff p t : by_port (live_tables e).1 !! p = Some t ↔ tunnels e !! tName t = Some t ∧ p ∈ port_keys t.
Proof using engine_wf engine_exclusive.
  rewrite by_port_keys, index_iff by (intros a b ?%stored_tunnel ?%stored_tunnel; by apply port_unique).
  by rewrite stored_tunnel.
Qed.

Lemma by_relay_iff k r : by_relay (live_tables e).2 !! k = Some r ↔ relays e !! k = Some r ∧ k ≠ "" ∧ rSimulated r = false.
Proof using engine_wf.
  assert (∀ r, r ∈ (range (relays e)).*2 ↔ relays e !! rRelayId r = Some r) as Hin.
  { intros x. rewrite elem_of_values. split; [|intros; by eexists]. intros [n Hn]. by rewrite (wf_relay _ engine_wf _ _ Hn). }
  assert (∀ k r, k ∈ relay_keys r ↔ k = rRelayId r ∧ k ≠ "" ∧ rSimulated r = false) as Hkeys.
  { intros k' x. unfold relay_keys. destruct (String.eqb_spec (rRelayId x) "") as [Hx|Hx]; cbn [negb andb].
    { split; [by intros ?%elem_of_nil|]. intros (-> & ? & _). done. }
    destruct (rSimulated x); cbn [negb]; [split; [by intros ?%elem_of_nil|by intros (_ & _ & ?)]|].
    rewrite list_elem_of_singleton. split; [by intros ->|by intros (-> & _)]. }
  rewrite by_relay_keys, index_iff.
  - rewrite Hin, Hkeys. split; [by intros (? & -> & ?)|]. intros (Hr & ?). by rewrite (wf_relay _ engine_wf _ _ Hr).
  - intros a b Ha%Hin Hb%Hin (-> & _)%Hkeys (Heq & _)%Hkeys. rewrite Heq in Ha. congruence.
Qed.

(** What a copy answers is what the engine's tables say. *)
Lemma owner_iff v t x :
  lvRelays v = by_relay (live_tables e).2 →
  (∀ t', x = Some t' → tunnels e !! tName t' = Some t' ∧ routable t' = true) →
  ∀ r, owner v x = Some (t, r) ↔ x = Some t ∧ serving e t r.
Proof using engine_wf.
  intros Hv Hx r. unfold owner. split.
  - intros (t' & -> & (r' & Hr' & Hif)%bind_Some)%bind_Some. rewrite Hv in Hr'. apply by_relay_iff in Hr' as (Hr' & ? & ?).
    destruct (_ || _) eqn:Hb; [done|]. injection Hif as -> ->. bool_facts.
    destruct (Hx t eq_refl). split; [done|]. split; [done|done|done|done|].
    split; [done|]. by apply String.eqb_neq.
  - intros [-> Hs]. cbn. rewrite Hv. rewrite (proj2 (by_relay_iff (tRelayId t) r)) by (split; [apply Hs|apply Hs]). cbn.
    destruct Hs as [_ _ _ _ [Hup Hpod]]. rewrite bool_decide_eq_false_2 by done.
    by rewrite (proj2 (String.eqb_neq _ _) Hpod).
Qed.
End copy.

(** A copy read from an engine. *)
Definition copy_of `{MapRange} (e : Engine) (now : Z) (v : LiveView) : LiveView := fetch (Some (live_tables e)) now v.

(** Without a read in between, a copy stays as it was. *)
Lemma ensure_copy age miss now v :
  let v' := (ensure age miss now v).1 in
  lvByName v' = lvByName v ∧ lvByPort v' = lvByPort v ∧ lvRelays v' = lvRelays v.
Proof. unfold ensure. cbv zeta. destruct (_ <? _); [done|]. by destruct (_ && _). Qed.

Lemma owner_copy v v' t : lvRelays v = lvRelays v' → owner v t = owner v' t.
Proof. unfold owner. by intros ->. Qed.

Lemma TunnelByPort_copy p now v : (TunnelByPort p None None now v).2 = owner v (lvByPort v !! p).
Proof.
  unfold TunnelByPort, settle. destruct (ensure_copy (ttl v) false now v) as (_ & Hp & Hr).
  set (v1 := (ensure (ttl v) false now v).1) in *. rewrite Hp, (owner_copy v1 v) by done.
  destruct (owner v (lvByPort v !! p)) eqn:Ho; [done|]. cbn [snd].
  destruct (ensure_copy liveRefetchMin true now v1) as (_ & -> & Hr'). by rewrite Hp, (owner_copy _ v) by congruence.
Qed.

Lemma lookup_host_copy v v' key : lvByName v = lvByName v' → lvRelays v = lvRelays v' → lookup_host v key = lookup_host v' key.
Proof. intros Hn Hr. unfold lookup_host. rewrite Hn. by apply owner_copy. Qed.

Lemma Tunnel_copy `{GoUnicode} rules host stale now v :
  (Tunnel rules host stale None None now v).2 = lookup_host v (host_key rules host).
Proof.
  unfold Tunnel, settle. destruct (ensure_copy (ttl v) false now v) as (Hn & _ & Hr).
  set (v1 := (ensure (ttl v) false now v).1) in *. rewrite (lookup_host_copy v1 v) by done.
  destruct (match lookup_host v _ with None => true | _ => _ end); [|done]. cbn [snd].
  destruct (ensure_copy liveRefetchMin true now v1) as (Hn' & _ & Hr'). by rewrite (lookup_host_copy _ v) by congruence.
Qed.

(** The first of [key] and its wildcards that a connected tunnel holds. *)
Lemma first_match {A} (f : string → option A) l x t :
  foldl (λ t w, match t with Some _ => t | None => f w end) x l = Some t ↔
  x = Some t ∨ x = None ∧ ∃ pre k post, l = pre ++ k :: post ∧ f k = Some t ∧ ∀ k', k' ∈ pre → f k' = None.
Proof.
  revert x. induction l as [|w l IH]; intros x; cbn [foldl].
  { split; [by left|]. intros [?|(_ & pre & k & post & ? & _)]; [done|by destruct pre]. }
  rewrite IH. destruct x as [y|]; [naive_solver|]. split.
  - intros [Hw|(Hw & pre & k & post & -> & Hk & Hpre)]; right; split; try done.
    + exists [], w, l. split_and!; [done|done|by intros ? ?%elem_of_nil].
    + exists (w :: pre), k, post. split_and!; [done|done|]. by intros k' [->|?%Hpre]%elem_of_cons.
  - intros [?|(_ & pre & k & post & Heq & Hk & Hpre)]; [done|].
    destruct pre as [|w' pre]; injection Heq as -> ->; [by left|]. right. split; [apply Hpre; left|].
    exists pre, k, post. split_and!; [done|done|]. intros k' ?. apply Hpre. by right.
Qed.

Lemma in_name_keys k t : k ∈ name_keys t ↔ routable t = true ∧ k ∈ tName t :: tDomains t.
Proof. unfold name_keys. destruct (routable t); [naive_solver|]. split; [by intros ?%elem_of_nil|by intros [? _]]. Qed.
Lemma in_port_keys p t : p ∈ port_keys t ↔ routable t = true ∧ tPublicPort t = p ∧ p ≠ 0.
Proof.
  unfold port_keys. destruct (routable t); cbn [andb]; [|split; [by intros ?%elem_of_nil|by intros [? _]]].
  destruct (Z.eqb_spec (tPublicPort t) 0); cbn [negb].
  - split; [by intros ?%elem_of_nil|]. intros (_ & <- & ?). done.
  - rewrite list_elem_of_singleton. naive_solver.
Qed.

(** [t] holds the first of the keys that a connected tunnel of the engine holds. *)
Definition first_holder (e : Engine) (keys : list string) (t : TunLiveTunnel) : Prop :=
  tunnels e !! tName t = Some t ∧ routable t = true ∧
  ∃ pre k post, keys = pre ++ k :: post ∧ k ∈ tName t :: tDomains t ∧
    ∀ k' t', k' ∈ pre → tunnels e !! tName t' = Some t' → routable t' = true → k' ∉ tName t' :: tDomains t'.

Lemma first_name `{MapRange} e keys t :
  wf e → exclusive e → names_apart e →
  foldl (λ t w, match t with Some _ => t | None => by_name (live_tables e).1 !! w end) None keys = Some t ↔
  first_holder e keys t.
Proof.
  intros Hwf Hex Hap. rewrite first_match. split.
  - intros [?|(_ & pre & k & post & -> & (Ht & [Hr Hk]%in_name_keys)%by_name_iff & Hpre)]; try done.
    split_and!; [done|done|]. exists pre, k, post. split_and!; [done|done|].
    intros k' t' Hk' Ht' Hr' Hin. specialize (Hpre k' Hk').
    rewrite (proj2 (by_name_iff e Hwf Hex Hap k' t')) in Hpre; [done|]. by rewrite in_name_keys.
  - intros (Ht & Hr & pre & k & post & -> & Hk & Hpre). right. split; [done|]. exists pre, k, post.
    split_and!; [done|apply by_name_iff; [done..|]; by rewrite in_name_keys|].
    intros k' Hk'. apply eq_None_ne_Some. intros t' (Ht' & [Hr' Hin]%in_name_keys)%by_name_iff; [|done..].
    by eapply Hpre.
Qed.

Lemma copy_port `{MapRange} e read now v p t r :
  wf e → exclusive e →
  (TunnelByPort p None None now (copy_of e read v)).2 = Some (t, r) ↔ serving e t r ∧ tPublicPort t = p ∧ p ≠ 0.
Proof.
  intros Hwf Hex. rewrite TunnelByPort_copy, (owner_iff e) by
    (try done; intros t' (? & (? & _)%in_port_keys)%by_port_iff; done).
  change (lvByPort _) with (by_port (live_tables e).1). rewrite by_port_iff, in_port_keys by done.
  split; [naive_solver|]. intros (Hs & ?). split; [|done]. split; [apply Hs|]. split; [apply Hs|done].
Qed.

Lemma copy_host `{MapRange, GoUnicode} e rules read now v host stale t r :
  wf e → exclusive e → names_apart e →
  (Tunnel rules host stale None None now (copy_of e read v)).2 = Some (t, r) ↔
  serving e t r ∧ first_holder e (host_key rules host :: WildcardsOf (host_key rules host)) t.
Proof.
  intros Hwf Hex Hap. rewrite Tunnel_copy. set (key := host_key rules host).
  change (lookup_host (copy_of e read v) key) with (owner (copy_of e read v) (foldl (λ t w, match t with Some _ => t
    | None => by_name (live_tables e).1 !! w end) None (key :: WildcardsOf key))).
  rewrite (owner_iff e) by (try done; intros t' (? & ? & _)%first_name; done).
  rewrite first_name by done. naive_solver.
Qed.

(** ** Theorems *)

(** a relay or an edge whose copy of the live tables shows the registry's
state sends a public port to the tunnel that holds it and a host name to the
tunnel that holds it, or else its closest wildcard, as a name or a custom
domain; a tunnel that is parked, simulated, or on a relay that is down or has
no address is not served, and nothing else is. *)
Theorem copy_routes `{MapRange, GoUnicode} e rules read now v :
  wf e → exclusive e → names_apart e →
  (∀ p t r, (TunnelByPort p None None now (copy_of e read v)).2 = Some (t, r) ↔
     serving e t r ∧ tPublicPort t = p ∧ p ≠ 0) ∧
  (∀ host stale t r, (Tunnel rules host stale None None now (copy_of e read v)).2 = Some (t, r) ↔
     serving e t r ∧ first_holder e (host_key rules host :: WildcardsOf (host_key rules host)) t).
Proof. intros Hwf Hex Hap. split; intros; [by apply copy_port|by apply copy_host]. Qed.

(** What the relay sees of a granted claim. *)
Lemma claim_reply_single `{MapRange} dir now req e e' resp p :
  claim dir now req e = (e', resp) → claim_reply resp = Ok p →
  ∃ t spec, tunnels e' !! tName t = Some t ∧ relays e' = relays e ∧ spec ∈ qTunnels req ∧ tPublicPort t = p ∧
    t = claimed now req spec <| tPublicPort := tPublicPort t |> ∧ ValidName (tName spec) = true.
Proof.
  intros Hc Hr. pose proof (claim_result_of dir now req e) as Hres. rewrite Hc in Hres.
  inversion Hres as [code msg Hreal Heq|s Hne Ha Ht Hs Hf Heq].
  { subst. unfold claim_reply in Hr. by destruct code. }
  subst e' resp. apply staging_result_of in Hf.
  unfold claim_reply in Hr. cbn [pError pTunnels] in Hr. destruct (claim_recs _ _) as [|t []] eqn:Hrecs; try done.
  injection Hr as <-. exists t.
  destruct (claim_recs_stored _ _ _ _ _ t Hf) as [Hst (spec & Hin & Ht')]; [rewrite Hrecs; left|]. exists spec.
  destruct (commands_frame taken_over (takeovers s) (foldl (λ e r, setTunnel r e) e [t])) as (Htun & _ & Hrel & _).
  rewrite Hrecs in *. rewrite Htun, Hrel, (proj2 (foldl_set_frame [t] e)).
  destruct (sr_granted _ _ _ _ _ _ Hf _ Hin) as (? & ? & ? & ? & Hg & _).
  pose proof (granted_name _ _ _ _ _ _ _ _ _ Hg) as [Hname _]%CheckName_ok. done.
Qed.

Lemma claim_reply_granted `{MapRange} dir now show relay typ c e e' resp p :
  Handle dir now (claim_request show relay typ c) e = (e', resp) → claim_reply resp = Ok p →
  ∃ t, tunnels e' !! tName t = Some t ∧ routable t = true ∧ relays e' = relays e ∧
       tName t = crName c ∧ tRelayId t = relay ∧ tPublicPort t = p ∧ tAccessToken t = crAccessToken c ∧
       ValidName (crName c) = true ∧ relay ≠ "".
Proof.
  unfold Handle. cbn [qRelayId claim_request qKind]. destruct (String.eqb_spec relay "") as [->|Hrelay]; [by intros [= <- <-]|].
  intros Hc Hr. destruct (claim_reply_single _ _ _ _ _ _ _ Hc Hr) as (t & spec & Ht & Hrel & ->%list_elem_of_singleton & Hp & Ht' & Hname).
  exists t. split_and!; try done; try (by rewrite Ht'). rewrite Ht'. unfold routable. cbn in *.
  destruct (String.eqb_spec (crName c) "") as [Hn|]; [by rewrite Hn in Hname|done].
Qed.

(** C26: once the registry has granted a relay's claim of a tunnel and an edge
or another relay has read the live tables, the tunnel's public port leads edges
to the claiming relay with the tunnel's name, its host name leads them to the
relay, and other relays to the relay's address for streams, with its
access-token mark; as long as the relay is up. *)
Theorem granted_claim_is_routed `{MapRange, GoUnicode} cfg dir now show relay typ c e e' resp p r rules read now' v :
  orderly cfg e → Handle dir now (claim_request show relay typ c) e = (e', resp) → claim_reply resp = Ok p →
  names_apart e' → relays e !! relay = Some r → rSimulated r = false → rState r ≠ TUN_RELAY_STATE_DOWN → rPodIp r ≠ "" →
  (p ≠ 0 → int32 p = p →
     (EdgeOwnerOfPort p None None now' (copy_of e' read v)).2 = Some (relay_target_of r, crName c)) ∧
  (∀ host, ToLower host = crName c +:+ "." +:+ BaseDomain rules →
     (EdgeOwnerOfHost rules host None None now' (copy_of e' read v)).2 = Some (relay_target_of r)) ∧
  (∀ other, other ≠ relay → ToLower (crName c +:+ "." +:+ BaseDomain rules) = crName c +:+ "." +:+ BaseDomain rules →
     (LinkStreamOwnerOf rules other (crName c) None None now' (copy_of e' read v)).2 =
     Some (JoinHostPort (rPodIp r) (Itoa (rStreamPort r)), crAccessToken c)).
Proof.
  intros Ho Hh Hr Hap Hrel Hsim Hup Hpod.
  destruct (claim_reply_granted _ _ _ _ _ _ _ _ _ _ Hh Hr) as (t & Ht & Hrt & Hrels & Hname & Hid & Hp & Hat & Hvalid & Hne).
  destruct (orderly_exclusive cfg e') as [Hwf Hex].
  { eapply rtc_r; [exact Ho|]. rewrite <-(f_equal fst Hh : _ = e'). by apply orderly_handle. }
  assert (serving e' t r) as Hs by (split; [done|done|by rewrite Hid, Hrels|by rewrite Hid|done]).
  assert (∀ host stale, ToLower host = crName c +:+ "." +:+ BaseDomain rules →
    (Tunnel rules host stale None None now' (copy_of e' read v)).2 = Some (t, r)) as Hhost.
  { intros host stale Hl. apply copy_host; [done..|]. split; [done|]. split_and!; [done|done|].
    unfold host_key. rewrite Hl, (TunnelName_host rules (crName c) Hvalid).
    destruct (String.eqb_spec (crName c) "") as [Hn|_]; [by rewrite Hn in Hvalid|]. cbn [negb].
    eexists [], _, _. split; [done|]. split; [rewrite Hname; left|by intros ? ? ?%elem_of_nil]. }
  split_and!.
  - intros Hp0 Hp32. unfold EdgeOwnerOfPort. rewrite Hp32.
    pose proof (proj2 (copy_port e' read now' v p t r Hwf Hex) (conj Hs (conj Hp Hp0))) as Hport.
    destruct (TunnelByPort _ _ _ _ _) as [v' x]. cbn in Hport |- *. subst x. cbn. by rewrite Hname.
  - intros host Hl. unfold EdgeOwnerOfHost. specialize (Hhost host "" Hl).
    destruct (Tunnel _ _ _ _ _ _ _) as [v' x]. cbn in Hhost |- *. by subst x.
  - intros other Hother Hl. unfold LinkStreamOwnerOf, link_owner. specialize (Hhost _ other Hl).
    destruct (Tunnel _ _ _ _ _ _ _) as [v' x]. cbn in Hhost |- *. subst x. cbn.
    rewrite Hid. destruct (String.eqb_spec relay other); [congruence|]. cbn. by rewrite Hat.
Qed.

(** How the attempts from the [k]-th on end. *)
Inductive attempts_end (ask : nat → option TunClaimResponse) (clock : nat → Z) (deadline : Z) (k : nat) : result link_err Z → Prop :=
| attempt_answered n resp :
    (k ≤ n)%nat → ask n = Some resp → (∀ j, k ≤ j < n → ask j = None ∧ (clock j ≤ deadline)%Z)%nat →
    attempts_end ask clock deadline k (claim_reply resp)
| attempts_expired n :
    (k ≤ n)%nat → deadline < clock n → (∀ j, k ≤ j ≤ n → ask j = None)%nat → (∀ j, k ≤ j < n → (clock j ≤ deadline)%Z)%nat →
    attempts_end ask clock deadline k (Err LinkUnavailable).

Lemma attempts_step ask clock deadline k r :
  ask k = None → clock k ≤ deadline → attempts_end ask clock deadline (S k) r → attempts_end ask clock deadline k r.
Proof.
  intros Ha Hc [n resp Hk Hn Hj|n Hk Hn Hj Hc'].
  - apply attempt_answered with n; [lia|done|]. intros j Hjn. destruct (decide (j = k)) as [->|]; [done|apply Hj; lia].
  - apply attempts_expired with n; [lia|done| |].
    + intros j Hjn. destruct (decide (j = k)) as [->|]; [done|apply Hj; lia].
    + intros j Hjn. destruct (decide (j = k)) as [->|]; [done|apply Hc'; lia].
Qed.

Lemma claim_loop_ends fuel ask clock deadline k :
  (∀ j, clock j + second ≤ clock (S j)) → deadline < clock k + Z.of_nat fuel * second →
  ∃ r, claim_loop (S fuel) ask clock deadline k = Some r ∧ attempts_end ask clock deadline k r.
Proof.
  intros Hclock. revert k. induction fuel as [|fuel IH]; intros k Hk; cbn [claim_loop].
  all: destruct (ask k) as [resp|] eqn:Ha;
    [eexists; split; [done|]; apply attempt_answered with k; [done|done|intros; lia]|].
  all: destruct (Z.ltb_spec deadline (clock k)) as [Hd|Hd];
    [eexists; split; [done|]; apply attempts_expired with k; [done|done| |intros; lia];
     intros j Hj; by replace j with k by lia|].
  - lia.
  - destruct (IH (S k)) as (r & Hr & He); [specialize (Hclock k); lia|]. exists r. split; [done|]. by apply attempts_step.
Qed.

(** a relay's claim of a tunnel always ends: with the reply to the first
request the registry answers, or, when none is answered, with "unavailable" at
the first failure after ten seconds (twelve attempts are enough); the relay's
copy of the live tables is dropped exactly when the claim is granted. *)
Theorem LinkClaimTunnel_ends ask clock start c v :
  (∀ j, clock j + second ≤ clock (S j)) → start ≤ clock 0%nat → tun_type (crType c) ≠ None →
  ∃ r, attempts_end ask clock (start + claimRetry) 0 r ∧
    LinkClaimTunnel ask clock start c v = (match r with Ok _ => Invalidate v | Err _ => v end, Some r).
Proof.
  intros Hclock Hstart Htype. unfold LinkClaimTunnel, claim_fuel. destruct (tun_type _); [|done].
  destruct (claim_loop_ends 11 ask clock (start + claimRetry) 0) as (r & -> & Hr);
    [done|unfold claimRetry, second in *; lia|].
  exists r. split; [done|]. by destruct r.
Qed.

(** ** Witnesses *)

Module CopySample.
Import ClaimsLife.Sample.

(** Relay-a reports its address, claims two tunnels, and claims one more as a
relay's link does. *)
Definition up : TunRelay := zeroRelay <| rRelayId := "relay-a" |> <| rPodIp := "10.0.0.7" |> <| rStreamPort := 7000 |>.
Definition hello : TunClaimRequest :=
  mkRequest TUN_CLAIM_KIND_HEARTBEAT "relay-a" "" "" "" 0 0 0 [] [] 0 None [] (Some up) TUN_DISCONNECT_REASON_UNSPECIFIED.
Definition c0 : Engine := (Handle dir now hello (New config)).1.
Definition c1 : Engine := (Handle dir now claim_req c0).1.
Definition ssh : ClaimRequest :=
  mkClaim 7%positive "agent-1" "tok" 5 0 0 "id-ssh" "ssh" "ssh.t.example" TUNNEL_TYPE_SSH [] 0 0 false.
Definition asked : Engine * TunClaimResponse :=
  Handle dir now (claim_request (λ _, "s2") "relay-a" TUN_TUNNEL_TYPE_SSH ssh) c1.
Definition c2 : Engine := asked.1.
Definition relay_a : TunRelay := default zeroRelay (relays c2 !! "relay-a").

Lemma c1_orderly : orderly config c1.
Proof.
  apply (rtc_l _ _ c0); [apply (orderly_handle dir now hello (New config)); discriminate|].
  apply rtc_once. apply (orderly_handle dir now claim_req c0). discriminate.
Defined.
Lemma c2_orderly : orderly config c2.
Proof. eapply rtc_r; [exact c1_orderly|]. apply (orderly_handle dir now _ c1). discriminate. Defined.
Lemma c2_apart : names_apart c2.
Proof.
  intros n t d Ht Hd. cut (map_Forall (λ _ t, Forall (λ d, tunnels c2 !! d = None) (tDomains t)) (tunnels c2)).
  { intros Hf. specialize (Hf n t Ht). cbn in Hf. rewrite Forall_forall in Hf. by apply Hf. }
  apply (bool_decide_unpack _). vm_compute. exact I.
Defined.
End CopySample.
Import CopySample.

Lemma copy_routes_witness :
  (TunnelByPort 20000 None None ClaimsLife.Sample.now (copy_of c2 ClaimsLife.Sample.now (NewLiveView second))).2 =
  Some (default ClaimsLife.Sample.web (tunnels c2 !! "web"), relay_a).
Proof.
  destruct (orderly_exclusive _ _ c2_orderly) as [Hwf Hex].
  destruct (copy_routes c2 ClaimsLife.Sample.rules ClaimsLife.Sample.now ClaimsLife.Sample.now (NewLiveView second) Hwf Hex c2_apart)
    as [Hport _]. apply (proj2 (Hport _ _ _)).
  split; [|by vm_compute]. split; by vm_compute.
Defined.

Lemma granted_claim_is_routed_witness :
  (EdgeOwnerOfPort 20002 None None ClaimsLife.Sample.now (copy_of c2 ClaimsLife.Sample.now (NewLiveView second))).2 =
  Some (relay_target_of relay_a, "ssh").
Proof.
  apply (granted_claim_is_routed ClaimsLife.Sample.config ClaimsLife.Sample.dir ClaimsLife.Sample.now (λ _, "s2") "relay-a"
    TUN_TUNNEL_TYPE_SSH ssh c1 c2 asked.2 20002 relay_a ClaimsLife.Sample.rules);
    [exact c1_orderly|apply surjective_pairing|by vm_compute|exact c2_apart|by vm_compute..].
Defined.

Lemma LinkClaimTunnel_ends_witness :
  LinkClaimTunnel (λ _, None) (λ k, Z.of_nat k * second) 0 ssh (NewLiveView second) =
  (NewLiveView second, Some (Err LinkUnavailable)).
Proof.
  destruct (LinkClaimTunnel_ends (λ _, None) (λ k, Z.of_nat k * second) 0 ssh (NewLiveView second)) as (r & Hr & ->);
    [intros; unfold second; lia|done|done|]. by destruct Hr.
Defined.
