(* ===== verification/Store.v ===== *)
(** * The relay's database (go/tunnel/store) and its admin API (go/tunnel/admin)

A standalone relay keeps tokens, permanent reservations, its agent CA and the
SSH gateway keys in buckets of an embedded database. A value is the JSON of a
record: [Json r] is text that decodes to [r], [Bad] text that does not decode.
An update is one transaction: a function that fails leaves the database as it
was. Keys of the wrong size are refused; the size of a value (at most 2 GB) and
failures of the file are left out. The handlers of the admin API change the database and the running relay. *)

From S2P Require Import Prelude GoStrings Protocol Policy Access NameRegistry RelayTunnels RelayServe.
From stdpp Require Import options.
#[local] Open Scope l8_scope.
Import Rules.

Inductive datum (A : Type) := Json (a : A) | Bad.
Arguments Json {_} _.
Arguments Bad {_}.
#[local] Abbreviation bucket A := (gmap string (datum A)).

Record Reservation := mkStored { rvName : string; rvTokenID : string; rvPort : Z }.

Record Store := mkStore {
  bucketTokens : bucket TokenRecord;
  bucketReservations : bucket Reservation;
  bucketCA : gmap string string;
  bucketGatewayKeys : option (bucket GatewayKey);
}.
#[export] Instance eta_store : Eta Store := λ s,
  mkStore (bucketTokens s) (bucketReservations s) (bucketCA s) (bucketGatewayKeys s).
#[export] Instance eta_token : Eta TokenRecord := λ r,
  mkToken (ID r) (TName r) (Hash r) (TPolicy r) (CertSerials r).

Inductive store_err :=
| ErrNotFound | ErrDecode | ErrIDExists | ErrNameExists | ErrKeyExists | ErrDays | ErrCA | ErrRandom
| ErrKeyRequired | ErrKeyTooLarge.
#[export] Instance store_err_eq_dec : EqDecision store_err.
Proof. solve_decision. Defined.

(** [Open] on a new file. *)
Definition Open : Store := mkStore ∅ ∅ ∅ None.

(** [db.Update]: a transaction that fails is rolled back. *)
Definition Update {A} (tx : Store → result store_err (Store * A)) (s : Store) : Store * result store_err A :=
  match tx s with Ok (s', a) => (s', Ok a) | Err e => (s, Err e) end.

(** [Bucket.Put]: the database has no empty keys and none of more than 32 KB. *)
Definition MaxKeySize : Z := 32768.
Definition put_error (k : string) : option store_err :=
  if String.eqb k "" then Some ErrKeyRequired
  else if (MaxKeySize <? Z.of_nat (String.length k))%Z then Some ErrKeyTooLarge else None.
Definition Put {A} (k : string) (d : datum A) (b : bucket A) : result store_err (bucket A) :=
  match put_error k with Some e => Err e | None => Ok (<[k := d]> b) end.

Section store.
Context `{MapRange}.

(** [ForEach] over a bucket, decoding each value. *)
Definition decode {A} (d : datum A) : result store_err A := match d with Json a => Ok a | Bad => Err ErrDecode end.
Definition forEach {A} (b : bucket A) : result store_err (list A) := mapR (λ '(_, d), decode d) (range b).

(** [sort.Slice] by name *)
Definition name_le {A} (name : A → string) (a b : A) : Prop := String.leb (name a) (name b) = true.
#[export] Instance name_le_dec {A} (name : A → string) : RelDecision (name_le name).
Proof. intros a b. unfold name_le. apply _. Defined.

Definition listed_by {A} (name : A → string) (b : bucket A) : result store_err (list A) :=
  merge_sort (name_le name) <$> forEach b.

(** ** Tokens *)

Definition AddToken (rec : TokenRecord) : Store → Store * result store_err unit :=
  Update (λ s,
    let b := bucketTokens s in
    refuse! bool_decide (is_Some (b !! ID rec)) with ErrIDExists ;;
    tokens ← forEach b;
    refuse! existsb (λ r, String.eqb (TName r) (TName rec)) tokens with ErrNameExists ;;
    b ← Put (ID rec) (Json rec) b;
    Ok (s <| bucketTokens := b |>, tt)).

Definition TokenByID (s : Store) (id : string) : result store_err (option TokenRecord) :=
  match bucketTokens s !! id with
  | None => Ok None
  | Some d => Some <$> decode d
  end.

Definition Tokens (s : Store) : result store_err (list TokenRecord) := listed_by TName (bucketTokens s).

Definition TokenByName (s : Store) (name : string) : result store_err TokenRecord :=
  tokens ← Tokens s;
  match List.find (λ t, String.eqb (TName t) name) tokens with
  | Some t => Ok t
  | None => Err ErrNotFound
  end.

Definition DeleteToken (id : string) : Store → Store * result store_err unit :=
  Update (λ s,
    refuse! bool_decide (bucketTokens s !! id = None) with ErrNotFound ;;
    let s := s <| bucketTokens := delete id (bucketTokens s) |> in
    names ← mapR (λ '(k, d), r ← decode d; Ok (k, r)) (range (bucketReservations s));
    let names := (List.filter (λ '(_, r), String.eqb (rvTokenID r) id) names).*1 in
    Ok (s <| bucketReservations := foldl (λ b k, delete k b) (bucketReservations s) names |>, tt)).

(** ** Reservations *)

Definition PutReservation (r : Reservation) : Store → Store * result store_err unit :=
  Update (λ s,
    refuse! bool_decide (bucketTokens s !! rvTokenID r = None) with ErrNotFound ;;
    b ← Put (rvName r) (Json r) (bucketReservations s);
    Ok (s <| bucketReservations := b |>, tt)).

Definition Reservations (s : Store) : result store_err (list Reservation) := listed_by rvName (bucketReservations s).

Definition DeleteReservation (name : string) : Store → Store * result store_err unit :=
  Update (λ s,
    refuse! bool_decide (bucketReservations s !! name = None) with ErrNotFound ;;
    Ok (s <| bucketReservations := delete name (bucketReservations s) |>, tt)).

(** ** The agent CA

[LoadAgentCA] and [PEM] are go/tunnel/auth's reading and writing of PEM text
over crypto/x509, [fresh] a new key pair (it may fail). *)

Section ca.
Context {CA : Type} (LoadAgentCA : string → string → option CA) (PEM : CA → option (string * string)).

Definition AgentCA (fresh : option CA) : Store → Store * result store_err CA :=
  Update (λ s,
    let b := bucketCA s in
    match b !! "cert", b !! "key" with
    | Some cert, Some key => match LoadAgentCA cert key with Some ca => Ok (s, ca) | None => Err ErrCA end
    | _, _ =>
        match fresh with
        | None => Err ErrCA
        | Some ca =>
            match PEM ca with
            | None => Err ErrCA
            | Some (cert, key) => Ok (s <| bucketCA := <["key" := key]> (<["cert" := cert]> b) |>, ca)
            end
        end
    end).

(** A certificate with the CA that signed it, as x509 made it. *)
Record IssuedCert := mkIssued { icCert : Certificate; icIssuer : CA; icDays : Z }.

Definition tokenURIPrefix : string := "l8tunnel:token:".

(** [serial] is the random serial number; [None] is a failure of crypto. *)
Definition Issue (ca : CA) (tok : TokenRecord) (days : Z) (serial : option string) : result store_err IssuedCert :=
  refuse! (days <? 1)%Z || (3650 <? days)%Z with ErrDays ;;
  match serial with
  | None => Err ErrRandom
  | Some serial => Ok (mkIssued (mkCert [tokenURIPrefix +:+ ID tok] serial) ca days)
  end.

(** The last token of the name, as the loop finds it. *)
Definition last_named (name : string) (tokens : list TokenRecord) : option TokenRecord :=
  foldl (λ rec r, if String.eqb (TName r) name then Some r else rec) None tokens.

Definition IssueCert (tokenName : string) (days : Z) (fresh : option CA) (serial : option string) (s : Store)
    : Store * result store_err (IssuedCert * TokenRecord) :=
  let '(s, ca) := AgentCA fresh s in
  match ca with
  | Err e => (s, Err e)
  | Ok ca =>
      Update (λ s,
        let b := bucketTokens s in
        tokens ← forEach b;
        match last_named tokenName tokens with
        | None => Err ErrNotFound
        | Some rec =>
            issued ← Issue ca rec days serial;
            let rec := rec <| CertSerials := CertSerials rec ++ [Serial (icCert issued)] |> in
            b ← Put (ID rec) (Json rec) b;
            Ok (s <| bucketTokens := b |>, (issued, rec))
        end) s
  end.
End ca.

(** The key that signs login states and cookies: [fresh] is 32 random bytes. *)
Definition SessionKey (fresh : option string) : Store → Store * result store_err string :=
  Update (λ s,
    let create := match fresh with
                  | None => Err ErrRandom
                  | Some key => Ok (s <| bucketCA := <["session-key" := key]> (bucketCA s) |>, key)
                  end in
    match bucketCA s !! "session-key" with
    | Some k => if (String.length k =? 32)%nat then Ok (s, k) else create
    | None => create
    end).

(** ** Gateway keys *)

Definition AddGatewayKey (k : GatewayKey) : Store → Store * result store_err unit :=
  Update (λ s,
    let b := default ∅ (bucketGatewayKeys s) in
    refuse! bool_decide (is_Some (b !! Fingerprint k)) with ErrKeyExists ;;
    keys ← forEach b;
    refuse! existsb (λ other, String.eqb (KName other) (KName k)) keys with ErrNameExists ;;
    b ← Put (Fingerprint k) (Json k) b;
    Ok (s <| bucketGatewayKeys := Some b |>, tt)).

Definition GatewayKeyByFingerprint (s : Store) (fp : string) : result store_err (option GatewayKey) :=
  match (b ← bucketGatewayKeys s; b !! fp) with
  | None => Ok None
  | Some d => Some <$> decode d
  end.

Definition GatewayKeys (s : Store) : result store_err (list GatewayKey) :=
  match bucketGatewayKeys s with None => Ok [] | Some b => listed_by KName b end.

Definition DeleteGatewayKey (name : string) (s : Store) : Store * result store_err unit :=
  match GatewayKeys s with
  | Err e => (s, Err e)
  | Ok keys =>
      match List.find (λ k, String.eqb (KName k) name) keys with
      | Some k => Update (λ s, Ok (s <| bucketGatewayKeys := delete (Fingerprint k) <$> bucketGatewayKeys s |>, tt)) s
      | None => (s, Err ErrNotFound)
      end
  end.

(** ** Export *)

Definition ExportVersion : Z := 1.
Record Export := mkExport {
  exVersion : Z; exTokens : list TokenRecord; exReservations : list Reservation; exGatewayKeys : list GatewayKey;
}.

Definition export (s : Store) : result store_err Export :=
  tokens ← Tokens s; reservations ← Reservations s; keys ← GatewayKeys s;
  Ok (mkExport ExportVersion tokens reservations keys).

(** [parsed] is what [json.Unmarshal] made of the text. *)
Definition ParseExport (parsed : option Export) : result store_err Export :=
  match parsed with
  | None => Err ErrDecode
  | Some e => refuse! negb (exVersion e =? ExportVersion)%Z with ErrDecode ;; Ok e
  end.

(** ** The admin API (admin/api.go)

A reply is its status; the bodies the clients read are the arguments. *)

Inductive status := OK | Created | NoContent | BadRequest | NotFound | Conflict | InternalError.
#[export] Instance status_eq_dec : EqDecision status.
Proof. solve_decision. Defined.

Definition statusFor (e : store_err) : status := match e with ErrNotFound => NotFound | _ => InternalError end.

(** The body of POST /reservations, with the token's name. *)
Record ReservationRequest := mkReservationRequest { rqName : string; rqToken : string; rqPort : Z }.

Record relayAPI := mkAPI { srv : relay; st : Store }.
#[export] Instance eta_api : Eta relayAPI := λ a, mkAPI (srv a) (st a).

Section api.
Context `{GoUnicode, Crypto} (s : Server) {CA : Type} (LoadAgentCA : string → string → option CA)
  (PEM : CA → option (string * string)).

(** [auth.NewTokenRecord] for the token [NewToken] made up; [hash] is bcrypt's
hash of its secret. *)
Definition NewTokenRecord (name token : string) (policy : Auth.Policy) (hash : option string) : option TokenRecord :=
  if negb (ValidateTokenName name) then None
  else match Auth.Validate policy with
  | Err _ => None
  | Ok _ =>
      match ParseToken token, hash with
      | Some (id, _), Some h => Some (mkToken id name h policy [])
      | _, _ => None
      end
  end.

Definition createToken (req : option (string * Auth.Policy)) (token : string) (hash : option string) (a : relayAPI)
    : relayAPI * status :=
  match req with
  | None => (a, BadRequest)
  | Some (name, policy) =>
      match NewTokenRecord name token policy hash with
      | None => (a, BadRequest)
      | Some rec =>
          let '(st', r) := AddToken rec (st a) in
          (a <| st := st' |>, match r with Ok _ => Created | Err _ => Conflict end)
      end
  end.

Definition revokeToken (name : string) (a : relayAPI) : relayAPI * result status Z :=
  match TokenByName (st a) name with
  | Err e => (a, Err (statusFor e))
  | Ok rec =>
      let '(st', r) := DeleteToken (ID rec) (st a) in
      let a := a <| st := st' |> in
      match r with
      | Err e => (a, Err (statusFor e))
      | Ok _ => let '(x, n) := DisconnectToken (ID rec) (srv a) in (a <| srv := x |>, Ok n)
      end
  end.

Definition issueCert (name : string) (days : option Z) (fresh : option CA) (serial : option string) (a : relayAPI)
    : relayAPI * result status (IssuedCert (CA := CA)) :=
  match days with
  | None => (a, Err BadRequest)
  | Some days =>
      let '(st', r) := IssueCert LoadAgentCA PEM name days fresh serial (st a) in
      (a <| st := st' |>,
       match r with
       | Ok (issued, _) => Ok issued
       | Err e => Err (if bool_decide (statusFor e = InternalError) then BadRequest else statusFor e)
       end)
  end.

Definition addReservation (req : option ReservationRequest) (a : relayAPI) : relayAPI * status :=
  match req with
  | None => (a, BadRequest)
  | Some req =>
      match TokenByName (st a) (rqToken req) with
      | Err e => (a, statusFor e)
      | Ok rec =>
          let '(x, r) := Reserve s (rqName req) (ID rec) (rqPort req) (srv a) in
          let a := a <| srv := x |> in
          match r with
          | Err _ => (a, Conflict)
          | Ok _ =>
              let '(st', r) := PutReservation (mkStored (rqName req) (ID rec) (rqPort req)) (st a) in
              let a := a <| st := st' |> in
              match r with
              | Err e => (a <| srv := Unreserve (rqName req) (srv a) |>, statusFor e)
              | Ok _ => (a, Created)
              end
          end
      end
  end.

Definition removeReservation (name : string) (a : relayAPI) : relayAPI * status :=
  let '(st', r) := DeleteReservation name (st a) in
  let a := a <| st := st' |> in
  match r with
  | Err e => (a, statusFor e)
  | Ok _ => (a <| srv := Unreserve name (srv a) |>, NoContent)
  end.

(** [key] is what [auth.NewGatewayKey] made of the request. *)
Definition addGatewayKey (key : option GatewayKey) (a : relayAPI) : relayAPI * status :=
  match key with
  | None => (a, BadRequest)
  | Some k =>
      let '(st', r) := AddGatewayKey k (st a) in
      (a <| st := st' |>, match r with Ok _ => Created | Err _ => Conflict end)
  end.

Definition removeGatewayKey (name : string) (a : relayAPI) : relayAPI * status :=
  let '(st', r) := DeleteGatewayKey name (st a) in
  (a <| st := st' |>, match r with Ok _ => NoContent | Err e => statusFor e end).

(** What the relay reads of the database: [relay.New] loads the reservations
([None]: it refuses to start). *)
Definition load_reservations (l : list Reservation) (x : relay) : option relay :=
  foldl (λ x r, x ← x; match Reserve s (rvName r) (rvTokenID r) (rvPort r) x with (x, Ok _) => Some x | _ => None end)
        (Some x) l.

Definition token_store (st : Store) : TokenStore :=
  λ id, match TokenByID st id with Ok r => Ok r | Err _ => Err tt end.
End api.
End store.
