(* ===== verification/StoreSpec.v ===== *)
(** * The relay's database and admin API: theorems

The database stays well-formed under every operation; certificates are good
until their token is revoked; a revoked token is gone from the database and
the running relay; the permanent reservations of the relay are those of the
database. *)

From S2P Require Import Prelude GoStrings Protocol Policy Access NameRegistry NameRegistryInv NameRegistrySpec.
From S2P Require Import RelayTunnels RelayServe RelayServeSpec Store.
From stdpp Require Import options.
#[local] Open Scope l8_scope.
Import Rules.

(** ** Buckets *)

#[local] Abbreviation bucket A := (gmap string (datum A)).

(** Every value decodes to a record under its own key, and names are unique. *)
Record keyed {A} (key name : A → string) (b : bucket A) : Prop := {
  kd_key k d : b !! k = Some d → ∃ a, d = Json a ∧ key a = k;
  kd_name a1 a2 : b !! key a1 = Some (Json a1) → b !! key a2 = Some (Json a2) → name a1 = name a2 → a1 = a2;
  kd_put k d : b !! k = Some d → put_error k = None;
}.

Lemma keyed_lookup {A} (key name : A → string) b k a : keyed key name b → b !! k = Some (Json a) → key a = k.
Proof. intros Hb Hk. by destruct (kd_key _ _ _ Hb _ _ Hk) as (? & [= <-] & ?). Qed.

Lemma keyed_empty {A} (key name : A → string) : keyed key name ∅.
Proof. split; intros *; by rewrite lookup_empty. Qed.

Lemma keyed_insert {A} (key name : A → string) b a :
  keyed key name b → (∀ a', b !! key a' = Some (Json a') → name a' = name a → key a' = key a) → put_error (key a) = None →
  keyed key name (<[key a := Json a]> b).
Proof.
  intros Hb Hnew Hput. split.
  - intros k d. rewrite lookup_insert_Some. intros [[<- <-]|[_ Hk]]; [by exists a|by apply Hb].
  - intros a1 a2. rewrite !lookup_insert_Some. intros [[Hk1 [= <-]]|[Hk1 H1]] [[Hk2 [= <-]]|[Hk2 H2]] Hn; try done.
    + destruct Hk2. symmetry. by apply Hnew.
    + destruct Hk1. symmetry. by apply Hnew.
    + by apply (kd_name _ _ _ Hb).
  - intros k d. rewrite lookup_insert_Some. intros [[<- _]|[_ Hk]]; [done|by apply (kd_put _ _ _ Hb k d)].
Qed.

Lemma keyed_delete {A} (key name : A → string) b k : keyed key name b → keyed key name (delete k b).
Proof.
  intros Hb. split.
  - intros k' d [_ Hk]%lookup_delete_Some. by apply Hb.
  - intros a1 a2 [_ H1]%lookup_delete_Some [_ H2]%lookup_delete_Some. by apply (kd_name _ _ _ Hb).
  - intros k' d [_ Hk]%lookup_delete_Some. by apply (kd_put _ _ _ Hb k' d).
Qed.

Lemma mapR_all {E A B} (f : A → result E B) (g : A → B) l : (∀ x, x ∈ l → f x = Ok (g x)) → mapR f l = Ok (g <$> l).
Proof.
  induction l as [|x l IH]; intros Hl; [done|]. cbn. rewrite Hl by left. rewrite IH; [done|]. intros; apply Hl. by right.
Qed.

#[local] Instance name_le_total {A} (name : A → string) : Total (name_le name).
Proof. intros a b. unfold name_le. apply String.leb_total. Qed.

Section buckets.
Context `{MapRange} {A : Type} (key name : A → string) (b : bucket A).
Hypothesis bucket_ok : keyed key name b.

Lemma forEach_ok : ∃ l, forEach b = Ok l ∧ NoDup (key <$> l) ∧ ∀ a, a ∈ l ↔ b !! key a = Some (Json a).
Proof using bucket_ok.
  destruct (map_to_list b) as [|[k0 d0] l0] eqn:Hm.
  { exists []. apply map_to_list_empty_iff in Hm as ->. assert (range (∅ : bucket A) = []) as Hr.
    { apply Permutation_nil. symmetry. by rewrite range_perm, map_to_list_empty. }
    unfold forEach. rewrite Hr. split_and!; [done|constructor|]. intros a. rewrite lookup_empty.
    split; [by intros ?%elem_of_nil|done]. }
  assert (b !! k0 = Some d0) as (a0 & _)%(kd_key _ _ _ bucket_ok) by (apply elem_of_map_to_list; rewrite Hm; left).
  set (get := λ p : string * datum A, match p.2 with Json a => a | Bad => a0 end).
  assert (∀ p, p ∈ range b → ∃ a, p = (key a, Json a)) as Hp.
  { intros [k d] Hin%elem_of_range. destruct (kd_key _ _ _ bucket_ok _ _ Hin) as (a & -> & <-). by exists a. }
  exists (get <$> range b). split_and!.
  - apply mapR_all. intros p Hin. by destruct (Hp p Hin) as [a ->].
  - rewrite <-list_fmap_compose. erewrite list_fmap_ext; [apply (NoDup_range b)|].
    intros i p Hi. destruct (Hp p) as [a ->]; [by eapply list_elem_of_lookup_2|done].
  - intros a. rewrite list_elem_of_fmap. split.
    + intros (p & -> & Hin). destruct (Hp p Hin) as [a' ->]. by apply elem_of_range in Hin.
    + intros Ha. exists (key a, Json a). by rewrite elem_of_range.
Qed.

Lemma listed_ok :
  ∃ l, listed_by name b = Ok l ∧ NoDup (name <$> l) ∧ Sorted (name_le name) l ∧ ∀ a, a ∈ l ↔ b !! key a = Some (Json a).
Proof using bucket_ok.
  destruct forEach_ok as (l & Hl & Hnd & Hin). unfold listed_by. rewrite Hl. cbn.
  exists (merge_sort (name_le name) l). split_and!; [done| |apply (Sorted_merge_sort _)|].
  - rewrite merge_sort_Permutation. apply NoDup_fmap_1 in Hnd.
    apply NoDup_fmap_2_strong; [|done]. intros x y Hx Hy Heq. by apply (kd_name _ _ _ bucket_ok); [apply Hin..|].
  - intros a. rewrite merge_sort_Permutation. apply Hin.
Qed.
End buckets.

(** ** The database *)

Record store_ok (s : Store) : Prop := {
  so_tokens : keyed ID TName (bucketTokens s);
  so_reservations : keyed rvName rvName (bucketReservations s);
  so_holder n r : bucketReservations s !! n = Some (Json r) → is_Some (bucketTokens s !! rvTokenID r);
  so_keys : keyed Fingerprint KName (default ∅ (bucketGatewayKeys s));
}.

(** The operations that change the database. *)
Inductive db_op {CA : Type} :=
| OpAddToken (rec : TokenRecord)
| OpDeleteToken (id : string)
| OpPutReservation (r : Reservation)
| OpDeleteReservation (name : string)
| OpAgentCA (fresh : option CA)
| OpIssueCert (tokenName : string) (days : Z) (fresh : option CA) (serial : option string)
| OpSessionKey (fresh : option string)
| OpAddGatewayKey (k : GatewayKey)
| OpDeleteGatewayKey (name : string).
Arguments db_op : clear implicits.

Section database.
Context `{MapRange} {CA : Type} (LoadAgentCA : string → string → option CA) (PEM : CA → option (string * string)).

Definition run_op (s : Store) (op : db_op CA) : Store :=
  match op with
  | OpAddToken rec => (AddToken rec s).1
  | OpDeleteToken id => (DeleteToken id s).1
  | OpPutReservation r => (PutReservation r s).1
  | OpDeleteReservation name => (DeleteReservation name s).1
  | OpAgentCA fresh => (AgentCA LoadAgentCA PEM fresh s).1
  | OpIssueCert n days fresh serial => (IssueCert LoadAgentCA PEM n days fresh serial s).1
  | OpSessionKey fresh => (SessionKey fresh s).1
  | OpAddGatewayKey k => (AddGatewayKey k s).1
  | OpDeleteGatewayKey name => (DeleteGatewayKey name s).1
  end.

(** What each operation does to the buckets. *)

Lemma AddToken_cases rec s :
  store_ok s →
  (∃ e, AddToken rec s = (s, Err e)) ∨
  bucketTokens s !! ID rec = None ∧ (∀ r, bucketTokens s !! ID r = Some (Json r) → TName r ≠ TName rec) ∧
  put_error (ID rec) = None ∧ AddToken rec s = (s <| bucketTokens := <[ID rec := Json rec]> (bucketTokens s) |>, Ok tt).
Proof.
  intros Hs. unfold AddToken, Update. destruct (bucketTokens s !! ID rec) as [d|] eqn:Hid.
  { left. exists ErrIDExists. by rewrite bool_decide_eq_true_2 by eauto. }
  rewrite bool_decide_eq_false_2 by (by intros [? ?]).
  destruct (forEach_ok _ _ _ (so_tokens s Hs)) as (l & -> & _ & Hl). cbn.
  destruct (existsb _ l) eqn:Hex; [left; by exists ErrNameExists|]. unfold Put.
  destruct (put_error (ID rec)) as [e|]; [left; by exists e|right]. split_and!; [done| |done..].
  intros r Hr%Hl Hn. rewrite existsb_false in Hex. specialize (Hex r Hr). cbn in Hex. by rewrite Hn, String.eqb_refl in Hex.
Qed.

Lemma PutReservation_cases r s :
  (∃ e, PutReservation r s = (s, Err e) ∧
     (e = ErrNotFound ∧ bucketTokens s !! rvTokenID r = None ∨ bucketTokens s !! rvTokenID r ≠ None ∧ put_error (rvName r) = Some e)) ∨
  bucketTokens s !! rvTokenID r ≠ None ∧ put_error (rvName r) = None ∧
  PutReservation r s = (s <| bucketReservations := <[rvName r := Json r]> (bucketReservations s) |>, Ok tt).
Proof.
  unfold PutReservation, Update. case_bool_decide as Hn; [left; eauto|]. cbn. unfold Put.
  destruct (put_error _) as [e|]; [left; eauto|right; eauto].
Qed.

Lemma delete_all {A} (ks : list string) (b : bucket A) k :
  foldl (λ b k, delete k b) b ks !! k = if decide (k ∈ ks) then None else b !! k.
Proof.
  revert b. induction ks as [|k' ks IH]; intros b; cbn [foldl].
  { rewrite decide_False; [done|apply not_elem_of_nil]. }
  rewrite IH. destruct (decide (k ∈ ks)) as [Hk|Hk].
  - rewrite decide_True; [done|by right].
  - destruct (decide (k = k')) as [->|Hne].
    + rewrite decide_True by left. apply lookup_delete_eq.
    + rewrite decide_False by (rewrite not_elem_of_cons; done). by apply lookup_delete_ne.
Qed.

Lemma DeleteToken_cases id s :
  store_ok s →
  (bucketTokens s !! id = None ∧ DeleteToken id s = (s, Err ErrNotFound)) ∨
  ∃ b, DeleteToken id s = (s <| bucketTokens := delete id (bucketTokens s) |> <| bucketReservations := b |>, Ok tt) ∧
    is_Some (bucketTokens s !! id) ∧
    ∀ n d, b !! n = Some d ↔ bucketReservations s !! n = Some d ∧ (∀ r, d = Json r → rvTokenID r ≠ id).
Proof.
  intros Hs. unfold DeleteToken, Update. destruct (bucketTokens s !! id) as [d|] eqn:Hid; [right|left].
  2: { split; [done|]. by rewrite bool_decide_eq_true_2. }
  rewrite bool_decide_eq_false_2 by done. cbn [bucketReservations set_field].
  set (get := λ p : string * datum Reservation, (p.1, match p.2 with Json r => r | Bad => mkStored "" "" 0 end)).
  assert (∀ k d, (k, d) ∈ range (bucketReservations s) → ∃ r, d = Json r) as Hd.
  { intros k x Hx%elem_of_range. destruct (kd_key _ _ _ (so_reservations s Hs) _ _ Hx) as (r & -> & _). by exists r. }
  rewrite (mapR_all _ get) by (intros [k x] Hx; by destruct (Hd k x Hx) as [r ->]). cbn.
  eexists. split; [done|]. split; [eauto|]. intros n x. rewrite delete_all.
  assert (n ∈ (List.filter (λ '(_, r), String.eqb (rvTokenID r) id) (get <$> range (bucketReservations s))).*1 ↔
          ∃ r, bucketReservations s !! n = Some (Json r) ∧ rvTokenID r = id) as Hin.
  { rewrite list_elem_of_fmap. split.
    - intros ([k r] & -> & [(p & Heq & Hp)%list_elem_of_fmap Hr]%elem_of_filterb). exists r. cbn in Hr |- *.
      destruct p as [k' d']. destruct (Hd _ _ Hp) as [r' ->]. injection Heq as -> ->. split; [by apply elem_of_range|by apply String.eqb_eq].
    - intros (r & Hr & Ht). exists (n, r). split; [done|]. apply elem_of_filterb. split; [|by rewrite Ht, String.eqb_refl].
      apply list_elem_of_fmap. exists (n, Json r). split; [done|]. by apply elem_of_range. }
  case_decide as Hk.
  - apply Hin in Hk as (r & Hr & Ht). split; [done|]. intros [Hx Hno]. rewrite Hr in Hx. injection Hx as <-. by destruct (Hno r).
  - split; [|by intros [? _]]. intros Hx. split; [done|]. intros r -> Ht. apply Hk, Hin. by exists r.
Qed.
Lemma AgentCA_frame fresh s :
  let s' := (AgentCA LoadAgentCA PEM fresh s).1 in
  bucketTokens s' = bucketTokens s ∧ bucketReservations s' = bucketReservations s ∧ bucketGatewayKeys s' = bucketGatewayKeys s.
Proof.
  unfold AgentCA, Update. destruct (bucketCA s !! "cert") as [c|], (bucketCA s !! "key") as [k|];
    try (by destruct (LoadAgentCA c k)); (destruct fresh as [ca|]; [|done]); by destruct (PEM ca) as [[]|].
Qed.

Lemma SessionKey_frame fresh s :
  let s' := (SessionKey fresh s).1 in
  bucketTokens s' = bucketTokens s ∧ bucketReservations s' = bucketReservations s ∧ bucketGatewayKeys s' = bucketGatewayKeys s.
Proof.
  unfold SessionKey, Update. destruct (bucketCA s !! "session-key") as [k|]; [destruct (_ =? _)%nat; [done|]|]; by destruct fresh.
Qed.

Lemma last_named_spec name l :
  match last_named name l with
  | Some r => r ∈ l ∧ TName r = name
  | None => ∀ r, r ∈ l → TName r ≠ name
  end.
Proof.
  unfold last_named. induction l as [|r l IH] using rev_ind; [by intros r ?%elem_of_nil|]. rewrite foldl_snoc.
  destruct (String.eqb_spec (TName r) name) as [Hn|Hn].
  - split; [|done]. apply elem_of_app. right. left.
  - destruct (foldl _ None l) as [r'|]; [destruct IH; split; [apply elem_of_app; by left|done]|].
    intros x [Hx| ->%list_elem_of_singleton]%elem_of_app; [by apply IH|done].
Qed.

Lemma IssueCert_cases n days fresh serial s :
  store_ok s →
  let s1 := (AgentCA LoadAgentCA PEM fresh s).1 in
  let '(s', r) := IssueCert LoadAgentCA PEM n days fresh serial s in
  (s' = s1 ∧ ∃ e, r = Err e) ∨
  ∃ rec sn issued, bucketTokens s !! ID rec = Some (Json rec) ∧ TName rec = n ∧ (1 ≤ days ≤ 3650)%Z ∧ serial = Some sn ∧
    icCert issued = mkCert [tokenURIPrefix +:+ ID rec] sn ∧ icDays issued = days ∧
    let rec' := rec <| CertSerials := CertSerials rec ++ [sn] |> in
    r = Ok (issued, rec') ∧ s' = s1 <| bucketTokens := <[ID rec := Json rec']> (bucketTokens s) |>.
Proof.
  intros Hs. unfold IssueCert. destruct (AgentCA_frame fresh s) as (Ht & _ & _).
  destruct (AgentCA _ _ _ s) as [s1 [ca|e]]; cbn [fst] in *; [|left; eauto].
  unfold Update. rewrite Ht. destruct (forEach_ok _ _ _ (so_tokens s Hs)) as (l & -> & _ & Hl). cbn.
  pose proof (last_named_spec n l) as Hlast. destruct (last_named n l) as [rec|]; [|left; eauto].
  unfold Issue. destruct (Z.ltb_spec days 1); cbn; [left; eauto|]. destruct (Z.ltb_spec 3650 days); cbn; [left; eauto|].
  destruct serial as [sn|]; cbn; [|left; eauto]. destruct Hlast as [Hin Hn]. unfold Put. cbn [ID set_field].
  rewrite (kd_put _ _ _ (so_tokens s Hs) _ _ (proj1 (Hl rec) Hin)). right.
  exists rec, sn, (mkIssued (mkCert [tokenURIPrefix +:+ ID rec] sn) ca days).
  split_and!; [by apply Hl|done|lia|lia|done..].
Qed.

Lemma AddGatewayKey_cases k s :
  store_ok s →
  let b := default ∅ (bucketGatewayKeys s) in
  (∃ e, AddGatewayKey k s = (s, Err e)) ∨
  (∀ k', b !! Fingerprint k' = Some (Json k') → KName k' ≠ KName k) ∧ put_error (Fingerprint k) = None ∧
  AddGatewayKey k s = (s <| bucketGatewayKeys := Some (<[Fingerprint k := Json k]> b) |>, Ok tt).
Proof.
  intros Hs b. unfold AddGatewayKey, Update. fold b. destruct (bool_decide _); [left; eauto|].
  destruct (forEach_ok _ _ _ (so_keys s Hs)) as (l & Hfe & _ & Hl). fold b in Hfe, Hl. rewrite Hfe. cbn.
  destruct (existsb _ l) eqn:Hex; [left; eauto|]. unfold Put. destruct (put_error _) as [e|]; [left; by exists e|right].
  split; [|done]. intros r Hr%Hl Hn. rewrite existsb_false in Hex. specialize (Hex r Hr). cbn in Hex. by rewrite Hn, String.eqb_refl in Hex.
Qed.

Lemma DeleteGatewayKey_cases name s :
  (∃ e, DeleteGatewayKey name s = (s, Err e)) ∨
  ∃ k, DeleteGatewayKey name s = (s <| bucketGatewayKeys := delete (Fingerprint k) <$> bucketGatewayKeys s |>, Ok tt).
Proof. unfold DeleteGatewayKey. repeat case_match; eauto. Qed.

(** The token record keeps its identity, and its certificates. *)
Definition extends (rec rec' : TokenRecord) : Prop :=
  ID rec' = ID rec ∧ TName rec' = TName rec ∧ Hash rec' = Hash rec ∧ TPolicy rec' = TPolicy rec ∧
  CertSerials rec ⊆ CertSerials rec'.

Definition deletes (id : string) (op : db_op CA) : Prop := op = OpDeleteToken id.

Lemma run_op_token s op k rec :
  store_ok s → bucketTokens s !! k = Some (Json rec) → ¬ deletes k op →
  ∃ rec', bucketTokens (run_op s op) !! k = Some (Json rec') ∧ extends rec rec'.
Proof.
  intros Hs Hk Hop. assert (extends rec rec) as Hrefl by done.
  destruct op; cbn [run_op].
  - destruct (AddToken_cases rec0 s Hs) as [[e ->]|(Hnew & _ & _ & ->)]; [eauto|]. exists rec. split; [|done].
    cbn. rewrite lookup_insert_ne; [done|]. intros <-. congruence.
  - destruct (DeleteToken_cases id s Hs) as [[_ ->]|(b & -> & _)]; [eauto|]. exists rec. split; [|done].
    cbn. rewrite lookup_delete_ne; [done|]. intros <-. by apply Hop.
  - destruct (PutReservation_cases r s) as [(e & -> & _)|(_ & _ & ->)]; eauto.
  - unfold DeleteReservation, Update. destruct (bool_decide _); eauto.
  - rewrite (proj1 (AgentCA_frame fresh s)). eauto.
  - pose proof (IssueCert_cases tokenName days fresh serial s Hs) as Hc. cbv zeta in Hc.
    destruct (IssueCert _ _ _ _ _ _ s) as [s' r]. cbn [fst].
    destruct Hc as [[-> _]|(rec0 & sn & issued & Hr0 & _ & _ & _ & _ & _ & _ & ->)].
    { rewrite (proj1 (AgentCA_frame fresh s)). eauto. }
    cbn. destruct (decide (k = ID rec0)) as [->|Hne].
    + rewrite lookup_insert_eq. rewrite Hr0 in Hk. injection Hk as ->. eexists. split; [done|].
      split_and!; [done..|]. cbn. intros x Hx. apply elem_of_app. by left.
    + rewrite lookup_insert_ne by done. eauto.
  - rewrite (proj1 (SessionKey_frame fresh s)). eauto.
  - destruct (AddGatewayKey_cases k0 s Hs) as [[e ->]|(_ & _ & ->)]; eauto.
  - destruct (DeleteGatewayKey_cases name s) as [[e ->]|[k0 ->]]; eauto.
Qed.
Lemma store_ok_frame s s' :
  bucketTokens s' = bucketTokens s → bucketReservations s' = bucketReservations s →
  bucketGatewayKeys s' = bucketGatewayKeys s → store_ok s → store_ok s'.
Proof. intros Ht Hr Hk [H1 H2 H3 H4]. split; by rewrite ?Ht, ?Hr, ?Hk. Qed.

Lemma store_ok_tokens s b :
  store_ok s → keyed ID TName b → (∀ k, is_Some (bucketTokens s !! k) → is_Some (b !! k)) →
  store_ok (s <| bucketTokens := b |>).
Proof. intros [H1 H2 H3 H4] Hb Hk. split; [done|done| |done]. intros n r Hr. cbn. eapply Hk, H3, Hr. Qed.

Lemma is_Some_insert {A} (b : bucket A) k d k' : is_Some (b !! k') → is_Some (<[k := d]> b !! k').
Proof. rewrite lookup_insert_is_Some'. by right. Qed.

Lemma run_op_ok s op : store_ok s → store_ok (run_op s op).
Proof.
  intros Hs. destruct op; cbn [run_op].
  - destruct (AddToken_cases rec s Hs) as [[e ->]|(Hnew & Hname & Hput & ->)]; [done|].
    apply store_ok_tokens; [done| |by intros; apply is_Some_insert].
    apply keyed_insert; [apply Hs| |done]. intros r Hr Hn. by destruct (Hname r Hr).
  - destruct (DeleteToken_cases id s Hs) as [[_ ->]|(b & -> & _ & Hb)]; [done|]. split.
    + apply keyed_delete, Hs.
    + split.
      { intros k d [Hk _]%Hb. by apply (so_reservations s Hs). }
      { intros a1 a2 [H1 _]%Hb [H2 _]%Hb. by apply (kd_name _ _ _ (so_reservations s Hs)). }
      intros k d [Hk _]%Hb. by apply (kd_put _ _ _ (so_reservations s Hs) k d).
    + intros n r [Hr Hne]%Hb. cbn. rewrite lookup_delete_ne; [by eapply so_holder|]. intros ->. by apply (Hne r).
    + apply Hs.
  - destruct (PutReservation_cases r s) as [(e & -> & _)|(Hn & Hput & ->)]; [done|]. split; [apply Hs| | |apply Hs].
    + by apply keyed_insert; [apply Hs|..].
    + intros n r'. cbn. rewrite lookup_insert_Some. intros [[_ [= <-]]|[_ Hr]]; [by apply not_eq_None_Some|by eapply so_holder].
  - unfold DeleteReservation, Update. destruct (bool_decide _); [done|]. split; [apply Hs|apply keyed_delete, Hs| |apply Hs].
    intros n r. cbn. intros [_ Hr]%lookup_delete_Some. by eapply so_holder.
  - by eapply store_ok_frame; [apply AgentCA_frame..|].
  - pose proof (IssueCert_cases tokenName days fresh serial s Hs) as Hc. cbv zeta in Hc.
    assert (store_ok (AgentCA LoadAgentCA PEM fresh s).1) as Hs1 by (by eapply store_ok_frame; [apply AgentCA_frame..|]).
    destruct (IssueCert _ _ _ _ _ _ s) as [s' r]. cbn [fst].
    destruct Hc as [[-> _]|(rec & sn & issued & Hrec & _ & _ & _ & _ & _ & _ & ->)]; [done|].
    apply store_ok_tokens; [done| |].
    + set (rec' := rec <| CertSerials := CertSerials rec ++ [sn] |>). change (ID rec) with (ID rec').
      apply keyed_insert; [apply Hs| |exact (kd_put _ _ _ (so_tokens s Hs) _ _ Hrec)].
      intros r' Hr' Hn. cbn in *. f_equal. by apply (kd_name _ _ _ (so_tokens s Hs)).
    + intros k. rewrite (proj1 (AgentCA_frame fresh s)). apply is_Some_insert.
  - by eapply store_ok_frame; [apply SessionKey_frame..|].
  - destruct (AddGatewayKey_cases k s Hs) as [[e ->]|(Hname & Hput & ->)]; [done|]. split; [apply Hs..|]. cbn.
    apply keyed_insert; [apply Hs| |done]. intros k' Hk' Hn. by destruct (Hname k' Hk').
  - destruct (DeleteGatewayKey_cases name s) as [[e ->]|[k0 ->]]; [done|]. split; [apply Hs..|]. cbn.
    pose proof (so_keys s Hs) as Hk. destruct (bucketGatewayKeys s); [by apply keyed_delete|done].
Qed.

Lemma Open_ok : store_ok Open.
Proof. split; [apply keyed_empty..| |apply keyed_empty]. intros n r. cbn. by rewrite lookup_empty. Qed.

Lemma run_ops_ok s ops : store_ok s → store_ok (foldl run_op s ops).
Proof. intros Hs. apply foldl_inv; [done|]. intros. by apply run_op_ok. Qed.

End database.

Lemma TokenByID_Some s id rec : store_ok s → TokenByID s id = Ok (Some rec) ↔ bucketTokens s !! id = Some (Json rec).
Proof.
  intros Hs. unfold TokenByID. destruct (bucketTokens s !! id) as [d|] eqn:Hd; [|done].
  destruct (kd_key _ _ _ (so_tokens s Hs) _ _ Hd) as (r & -> & _). cbn. naive_solver.
Qed.

Lemma TokenByID_None s id : store_ok s → TokenByID s id = Ok None ↔ bucketTokens s !! id = None.
Proof.
  intros Hs. unfold TokenByID. destruct (bucketTokens s !! id) as [d|] eqn:Hd; [|done].
  destruct (kd_key _ _ _ (so_tokens s Hs) _ _ Hd) as (r & -> & _). done.
Qed.

Lemma TokenByName_Ok `{MapRange} s name rec :
  store_ok s → TokenByName s name = Ok rec ↔ bucketTokens s !! ID rec = Some (Json rec) ∧ TName rec = name.
Proof.
  intros Hs. destruct (listed_ok _ _ _ (so_tokens s Hs)) as (l & Hl & _ & _ & Hin). unfold TokenByName, Tokens. rewrite Hl. cbn.
  destruct (List.find _ l) as [r|] eqn:Hf.
  - apply List.find_some in Hf as [Hr%list_elem_of_In%Hin Hn]. apply String.eqb_eq in Hn. split; [by intros [= <-]|].
    intros [Hrec Hn']. f_equal. apply (kd_name _ _ _ (so_tokens s Hs)); [done|done|congruence].
  - split; [done|]. intros [Hrec%Hin Hn]. pose proof (find_none _ _ Hf rec Hrec) as Hx. cbn in Hx. by rewrite Hn, String.eqb_refl in Hx.
Qed.

Lemma GatewayKey_Ok s fp k :
  store_ok s → GatewayKeyByFingerprint s fp = Ok (Some k) ↔ default ∅ (bucketGatewayKeys s) !! fp = Some (Json k).
Proof.
  intros Hs. unfold GatewayKeyByFingerprint. pose proof (so_keys s Hs) as Hk.
  destruct (bucketGatewayKeys s) as [b|]; cbn in *; [|by rewrite lookup_empty].
  destruct (b !! fp) as [d|] eqn:Hd; [|done]. destruct (kd_key _ _ _ Hk _ _ Hd) as (r & -> & _). cbn. naive_solver.
Qed.

Lemma GatewayKeys_ok `{MapRange} s :
  store_ok s →
  ∃ l, GatewayKeys s = Ok l ∧ NoDup (KName <$> l) ∧ ∀ k, k ∈ l ↔ default ∅ (bucketGatewayKeys s) !! Fingerprint k = Some (Json k).
Proof.
  intros Hs. unfold GatewayKeys. pose proof (so_keys s Hs) as Hk. destruct (bucketGatewayKeys s) as [b|]; cbn in *.
  - destruct (listed_ok _ _ _ Hk) as (l & ? & ? & _ & ?). by exists l.
  - exists []. split_and!; [done|constructor|]. intros k. rewrite lookup_empty. split; [by intros ?%elem_of_nil|done].
Qed.

(** Keys the database takes, and why it refuses others. *)
Definition key_fits (k : string) : Prop := k ≠ "" ∧ (Z.of_nat (String.length k) ≤ 32768)%Z.
Definition bad_key (e : store_err) (k : string) : Prop :=
  e = ErrKeyRequired ∧ k = "" ∨ e = ErrKeyTooLarge ∧ (32768 < Z.of_nat (String.length k))%Z.

Lemma put_error_spec k : match put_error k with None => key_fits k | Some e => bad_key e k end.
Proof.
  unfold put_error, key_fits, bad_key. destruct (String.eqb_spec k "") as [->|]; [by left|].
  destruct (Z.ltb_spec MaxKeySize (Z.of_nat (String.length k))) as [Hl|Hl]; unfold MaxKeySize in Hl; [right|split]; split_and?; try done; lia.
Qed.

Lemma AddToken_error `{MapRange} rec s :
  store_ok s →
  match (AddToken rec s).2 with
  | Ok _ => key_fits (ID rec)
  | Err e => e = ErrIDExists ∧ bucketTokens s !! ID rec ≠ None ∨
             e = ErrNameExists ∧ (∃ t, TokenByName s (TName rec) = Ok t) ∨ bad_key e (ID rec)
  end.
Proof.
  intros Hs. unfold AddToken, Update. case_bool_decide as Hid; [left; split; [done|by apply not_eq_None_Some]|].
  destruct (forEach_ok _ _ _ (so_tokens s Hs)) as (l & -> & _ & Hl). cbn.
  pose proof (put_error_spec (ID rec)) as Hput. unfold Put.
  destruct (existsb _ l) eqn:Hex; cbn; [|destruct (put_error (ID rec)); cbn; auto]. right. left. split; [done|].
  apply existsb_exists in Hex as (t & Ht%list_elem_of_In & Hn%String.eqb_eq). exists t. apply TokenByName_Ok; [done|].
  by rewrite <-Hl.
Qed.

Lemma AddGatewayKey_error `{MapRange} k s ks :
  store_ok s → GatewayKeys s = Ok ks →
  match (AddGatewayKey k s).2 with
  | Ok _ => key_fits (Fingerprint k)
  | Err e => e = ErrKeyExists ∧ (∃ k', GatewayKeyByFingerprint s (Fingerprint k) = Ok (Some k')) ∨
             e = ErrNameExists ∧ (∃ k', k' ∈ ks ∧ KName k' = KName k) ∨ bad_key e (Fingerprint k)
  end.
Proof.
  intros Hs Hks. destruct (GatewayKeys_ok s Hs) as (ks' & Hks' & _ & Hin). rewrite Hks in Hks'. injection Hks' as <-.
  unfold AddGatewayKey, Update. case_bool_decide as Hid.
  { left. split; [done|]. destruct Hid as [d Hd]. destruct (kd_key _ _ _ (so_keys s Hs) _ _ Hd) as (k' & -> & _).
    exists k'. by apply GatewayKey_Ok. }
  destruct (forEach_ok _ _ _ (so_keys s Hs)) as (l & -> & _ & Hl). cbn.
  pose proof (put_error_spec (Fingerprint k)) as Hput. unfold Put.
  destruct (existsb _ l) eqn:Hex; cbn; [|destruct (put_error (Fingerprint k)); cbn; auto]. right. left. split; [done|].
  apply existsb_exists in Hex as (k' & Hk'%list_elem_of_In & Hn%String.eqb_eq). exists k'. rewrite Hin. by rewrite <-Hl.
Qed.

(** A record is in a bucket under a key iff it is listed and has that key. *)
Lemma keyed_listed {A} (key name : A → string) (b : bucket A) (l : list A) k a :
  keyed key name b → (∀ a, a ∈ l ↔ b !! key a = Some (Json a)) → b !! k = Some (Json a) ↔ a ∈ l ∧ key a = k.
Proof.
  intros Hb Hl. split; [|by intros [? <-]; apply Hl]. intros Hk. pose proof (keyed_lookup _ _ _ _ _ Hb Hk) as <-. by rewrite Hl.
Qed.

Lemma authenticate_stored `{Crypto} store tok peer rec :
  authenticate store tok peer = Ok rec → ∃ id, store id = Ok (Some rec).
Proof.
  unfold authenticate, verifyToken. intros Ha.
  repeat (case_match; try done); simplify_eq; eauto.
Qed.

Lemma deleted_token_rejected `{MapRange, Crypto} s id tok peer r :
  store_ok s → authenticate (token_store (DeleteToken id s).1) tok peer = Ok r → ID r ≠ id.
Proof.
  intros Hs [k Hk]%authenticate_stored.
  assert (store_ok (DeleteToken id s).1) as Hs' by (exact (run_op_ok (CA := unit) (λ _ _, None) (λ _, None) s (OpDeleteToken id) Hs)).
  assert (bucketTokens (DeleteToken id s).1 !! k = Some (Json r)) as Hr.
  { apply TokenByID_Some; [done|]. unfold token_store in Hk. case_match; naive_solver. }
  pose proof (keyed_lookup _ _ _ _ _ (so_tokens _ Hs') Hr) as <-. intros <-.
  destruct (DeleteToken_cases (ID r) s Hs) as [[Hnone Heq]|(b & Heq & _)]; rewrite Heq in Hr; cbn in Hr; [congruence|].
  by rewrite lookup_delete_eq in Hr.
Qed.

(** ** Theorems *)

Section theorems.
Context `{MapRange} {CA : Type} (LoadAgentCA : string → string → option CA) (PEM : CA → option (string * string)).

(** C28: whatever is done to the database, reading it never fails: tokens and
gateway keys have unique names, every reservation belongs to a stored token,
the lookups by ID, name and fingerprint find exactly the listed records, and
the export holds them all. *)
Theorem database_wellformed (ops : list (db_op CA)) :
  let s := foldl (run_op LoadAgentCA PEM) Open ops in
  ∃ ts rs ks, export s = Ok (mkExport ExportVersion ts rs ks) ∧ ParseExport (Some (mkExport ExportVersion ts rs ks)) = export s ∧
    NoDup (TName <$> ts) ∧ NoDup (rvName <$> rs) ∧ NoDup (KName <$> ks) ∧
    (∀ id t, TokenByID s id = Ok (Some t) ↔ t ∈ ts ∧ ID t = id) ∧
    (∀ n t, TokenByName s n = Ok t ↔ t ∈ ts ∧ TName t = n) ∧
    (∀ r, r ∈ rs → ∃ t, t ∈ ts ∧ ID t = rvTokenID r) ∧
    (∀ fp k, GatewayKeyByFingerprint s fp = Ok (Some k) ↔ k ∈ ks ∧ Fingerprint k = fp).
Proof.
  intros s. assert (store_ok s) as Hs by apply run_ops_ok, Open_ok.
  destruct (listed_ok _ _ _ (so_tokens s Hs)) as (ts & Hts & Hnt & _ & Ht).
  destruct (listed_ok _ _ _ (so_reservations s Hs)) as (rs & Hrs & Hnr & _ & Hr).
  destruct (GatewayKeys_ok s Hs) as (ks & Hks & Hnk & Hk).
  assert (export s = Ok (mkExport ExportVersion ts rs ks)) as He.
  { unfold export, Tokens, Reservations. by rewrite Hts, Hrs, Hks. }
  exists ts, rs, ks. rewrite He. split_and!; [done..| | | |].
  - intros id t. rewrite TokenByID_Some by done. by apply (keyed_listed _ _ _ _ _ _ (so_tokens s Hs)).
  - intros n t. rewrite TokenByName_Ok by done. by rewrite Ht.
  - intros r Hin%Hr. destruct (so_holder s Hs _ _ Hin) as [d Hd].
    destruct (kd_key _ _ _ (so_tokens s Hs) _ _ Hd) as (t & -> & Hid). exists t. by rewrite Ht, Hid.
  - intros fp k. rewrite GatewayKey_Ok by done. by apply (keyed_listed _ _ _ _ _ _ (so_keys s Hs)).
Qed.

Lemma run_ops_token s ops k rec :
  store_ok s → bucketTokens s !! k = Some (Json rec) → OpDeleteToken k ∉ ops →
  ∃ rec', bucketTokens (foldl (run_op LoadAgentCA PEM) s ops) !! k = Some (Json rec') ∧ extends rec rec'.
Proof.
  revert s rec. induction ops as [|op ops IH]; intros s rec Hs Hk Hops; cbn [foldl]; [by exists rec|].
  apply not_elem_of_cons in Hops as [Hop Hops].
  destruct (run_op_token LoadAgentCA PEM s op k rec Hs Hk) as (rec1 & Hk1 & (Hi1 & Hn1 & Hh1 & Hp1 & Hc1)); [by intros ->|].
  destruct (IH (run_op LoadAgentCA PEM s op) rec1) as (rec2 & Hk2 & (Hi2 & Hn2 & Hh2 & Hp2 & Hc2)); [by apply run_op_ok|done|done|].
  exists rec2. split; [done|]. split_and!; [congruence..|]. by trans (CertSerials rec1).
Qed.

Lemma authenticate_cert `{Crypto} s id serial rec :
  store_ok s → bucketTokens s !! id = Some (Json rec) → serial ∈ CertSerials rec →
  authenticate (token_store s) "" (Some (mkCert [tokenURIPrefix +:+ id] serial)) = Ok rec.
Proof.
  intros Hs Hk Hser. unfold authenticate.
  assert (CertIdentity (mkCert [tokenURIPrefix +:+ id] serial) = Some (id, serial)) as ->.
  { unfold CertIdentity. cbn [URIs omap list_omap]. by rewrite (proj2 (CutPrefix_Some "l8tunnel:token:" _ id)). }
  unfold token_store. rewrite (proj2 (TokenByID_Some s id rec Hs)) by done.
  assert (HasCertSerial rec serial = true) as ->; [|done].
  unfold HasCertSerial. apply existsb_exists. exists serial. by rewrite String.eqb_refl, <-list_elem_of_In.
Qed.

(** a certificate issued for a token authenticates its holder as that
token, with the token's secret hash and policy, whatever is done to the
database afterwards short of deleting the token; once the token is deleted, no
certificate and no secret authenticates as it. *)
Theorem issued_certificate `{Crypto} s name days fresh serial s' issued rec ops :
  store_ok s → IssueCert LoadAgentCA PEM name days fresh serial s = (s', Ok (issued, rec)) → OpDeleteToken (ID rec) ∉ ops →
  let s2 := foldl (run_op LoadAgentCA PEM) s' ops in
  TName rec = name ∧ (1 ≤ days ≤ 3650)%Z ∧
  (∃ rec', authenticate (token_store s2) "" (Some (icCert issued)) = Ok rec' ∧ extends rec rec') ∧
  (∀ tok peer r, authenticate (token_store (DeleteToken (ID rec) s2).1) tok peer = Ok r → ID r ≠ ID rec).
Proof.
  intros Hs Hissue Hops s2. assert (store_ok s') as Hs'.
  { pose proof (run_op_ok LoadAgentCA PEM s (OpIssueCert name days fresh serial) Hs) as Hok. cbn in Hok. by rewrite Hissue in Hok. }
  pose proof (IssueCert_cases LoadAgentCA PEM name days fresh serial s Hs) as Hc. rewrite Hissue in Hc.
  destruct Hc as [[_ [e ?]]|(rec0 & sn & issued0 & Hr0 & Hn & Hd & _ & Hcert & _ & [= -> Hrec] & Hs1)]; [done|].
  assert (bucketTokens s' !! ID rec = Some (Json rec)) as Hrec'.
  { rewrite Hs1, Hrec. cbn. apply lookup_insert_eq. }
  destruct (run_ops_token s' ops (ID rec) rec Hs' Hrec' Hops) as (rec2 & Hrec2 & Hext).
  assert (store_ok s2) as Hs2 by (by apply run_ops_ok).
  split; [by rewrite Hrec|]. split; [done|]. split.
  - exists rec2. split; [|done]. rewrite Hcert. replace (ID rec0) with (ID rec) by (by rewrite Hrec).
    apply authenticate_cert; [done|done|]. apply Hext. rewrite Hrec. cbn. apply elem_of_app. right. left.
  - intros tok peer r Ha Hid. eapply deleted_token_rejected; [exact Hs2|exact Ha|done].
Qed.

(** C29: requests the database refuses change nothing, and each is refused for
its own reason only: a token whose ID or name is taken, a gateway key whose
fingerprint or name is, a token or reservation that is not there, and what
would be stored under an empty key or one of more than 32 KB. What it accepts
can be looked up afterwards. *)
Theorem database_errors s :
  store_ok s →
  (∀ rec, match AddToken rec s with
          | (s', Ok _) => TokenByID s (ID rec) = Ok None ∧ (∀ t, TokenByName s (TName rec) ≠ Ok t) ∧ key_fits (ID rec) ∧
                          TokenByID s' (ID rec) = Ok (Some rec) ∧ TokenByName s' (TName rec) = Ok rec
          | (s', Err e) => s' = s ∧ (e = ErrIDExists ∧ TokenByID s (ID rec) ≠ Ok None ∨
                                     e = ErrNameExists ∧ (∃ t, TokenByName s (TName rec) = Ok t) ∨ bad_key e (ID rec))
          end) ∧
  (∀ id, match DeleteToken id s with
         | (s', Ok _) => TokenByID s id ≠ Ok None ∧ TokenByID s' id = Ok None
         | (s', Err e) => s' = s ∧ e = ErrNotFound ∧ TokenByID s id = Ok None
         end) ∧
  (∀ r, match PutReservation r s with
        | (s', Ok _) => TokenByID s (rvTokenID r) ≠ Ok None ∧ key_fits (rvName r) ∧
                        bucketReservations s' !! rvName r = Some (Json r)
        | (s', Err e) => s' = s ∧ (e = ErrNotFound ∧ TokenByID s (rvTokenID r) = Ok None ∨ bad_key e (rvName r))
        end) ∧
  (∀ n, match DeleteReservation n s with
        | (s', Ok _) => is_Some (bucketReservations s !! n) ∧ bucketReservations s' !! n = None
        | (s', Err e) => s' = s ∧ e = ErrNotFound ∧ bucketReservations s !! n = None
        end) ∧
  (∀ k ks, GatewayKeys s = Ok ks →
     match AddGatewayKey k s with
     | (s', Ok _) => key_fits (Fingerprint k) ∧ GatewayKeyByFingerprint s' (Fingerprint k) = Ok (Some k)
     | (s', Err e) => s' = s ∧ (e = ErrKeyExists ∧ (∃ k', GatewayKeyByFingerprint s (Fingerprint k) = Ok (Some k')) ∨
                                e = ErrNameExists ∧ (∃ k', k' ∈ ks ∧ KName k' = KName k) ∨ bad_key e (Fingerprint k))
     end).
Proof.
  intros Hs. pose proof (λ id, TokenByID_None s id Hs) as Hnone. split_and!.
  - intros rec. pose proof (run_op_ok (CA := unit) (λ _ _, None) (λ _, None) s (OpAddToken rec) Hs) as Hs'. cbn in Hs'.
    pose proof (AddToken_error rec s Hs) as Herr.
    destruct (AddToken_cases rec s Hs) as [[e Heq]|(Hnew & Hname & _ & Heq)]; rewrite Heq in *; cbn [fst snd] in *.
    { split; [done|]. rewrite Hnone. done. }
    rewrite Hnone, TokenByID_Some, TokenByName_Ok by done. cbn. rewrite lookup_insert_eq. split_and!; try done; try apply Herr.
    intros t [Ht Hn]%TokenByName_Ok; [|done]. by apply (Hname t).
  - intros id. pose proof (run_op_ok (CA := unit) (λ _ _, None) (λ _, None) s (OpDeleteToken id) Hs) as Hs'. cbn in Hs'.
    destruct (DeleteToken_cases id s Hs) as [[Hid Heq]|(b & Heq & [d Hid] & _)]; rewrite Heq in *; cbn [fst] in *.
    { by rewrite Hnone. }
    rewrite Hnone, (TokenByID_None _ id Hs'). cbn. rewrite lookup_delete_eq. split; [congruence|done].
  - intros r. pose proof (put_error_spec (rvName r)) as Hput.
    destruct (PutReservation_cases r s) as [(e & -> & He)|(Hn & Hp & ->)]; rewrite Hnone.
    + split; [done|]. destruct He as [?|[_ He]]; [by left|right]. by rewrite He in Hput.
    + rewrite Hp in Hput. cbn. by rewrite lookup_insert_eq.
  - intros n. unfold DeleteReservation, Update. destruct (decide (bucketReservations s !! n = None)) as [Hn|Hn].
    + by rewrite bool_decide_eq_true_2 by done.
    + rewrite bool_decide_eq_false_2 by done. cbn. rewrite lookup_delete_eq. by rewrite <-not_eq_None_Some.
  - intros k ks Hks. pose proof (AddGatewayKey_error k s ks Hs Hks) as Herr.
    destruct (AddGatewayKey_cases k s Hs) as [[e Heq]|(_ & _ & Heq)]; rewrite Heq in *; cbn [snd] in Herr; [done|].
    split; [done|]. unfold GatewayKeyByFingerprint. cbn. by rewrite lookup_insert_eq.
Qed.
End theorems.
