(* ===== verification/AdminSpec.v ===== *)
(** * The admin API: the database and the running relay stay in step

Operators change the database through the running relay. The theorems follow
requests of operators and calls of agents' sessions in any order. *)

From Stdlib Require Import QArith.
From S2P Require Import Prelude GoStrings Protocol Policy Access NameRegistry NameRegistryInv NameRegistrySpec.
From S2P Require Import Limiter RelayTunnels RelayTunnelsSpec RelayServe RelayServeSpec Store StoreSpec.
From stdpp Require Import options.
#[local] Open Scope l8_scope.
Import Rules.

(** ** Permanent names *)

(** The relay holds the name for the token until an operator says otherwise. *)
Definition permanently (r : nameRegistry) (n tok : string) : Prop :=
  ∃ l res, live r l res ∧ name res = n ∧ permanent res = true ∧ tokenID res = tok.

Lemma permanently_frame r r' n tok : heap r' = heap r → names r' = names r → permanently r' n tok ↔ permanently r n tok.
Proof. intros Hh Hn. unfold permanently, live. by rewrite Hh, Hn. Qed.

Lemma permanently_update l f r n tok :
  (∀ res, name (f res) = name res) → (∀ res, permanent (f res) = permanent res) → (∀ res, tokenID (f res) = tokenID res) →
  permanently (update l f r) n tok ↔ permanently r n tok.
Proof.
  intros Hn Hp Ht. unfold permanently. setoid_rewrite live_update; [|done]. split.
  - intros (l' & ? & (res & Hl & ->) & ? & ? & ?). exists l', res. case_decide; [|done]. by rewrite Hn, Hp, Ht in *.
  - intros (l' & res & Hl & ? & ? & ?). eexists l', _. split; [by exists res|]. case_decide; [|done]. by rewrite Hn, Hp, Ht.
Qed.

Lemma permanently_delete l r n tok :
  inv r → (∀ res, live r l res → permanent res = false) → permanently (deleteLocked l r) n tok ↔ permanently r n tok.
Proof.
  intros Hi Hl. unfold permanently. setoid_rewrite live_deleteLocked; [|done]. split; [naive_solver|].
  intros (l' & res & Hr & Hn & Hp & Ht). exists l', res. split_and!; [|done..]. intros ->. specialize (Hl _ Hr). congruence.
Qed.

Lemma permanently_add res r n tok :
  names r !! name res = None → permanent res = false → permanently (add_reservation res r) n tok ↔ permanently r n tok.
Proof.
  intros Hnew Hp. unfold permanently. setoid_rewrite live_add; [|done]. split.
  - intros (l & res' & [[-> ->]|[_ Hl]] & ? & ? & ?); [congruence|]. by exists l, res'.
  - intros (l & res' & Hl & ? & ? & ?). exists l, res'. split; [|done]. right. split; [|done].
    intros ->. destruct Hl as [Hl _]. by rewrite fresh_loc_None in Hl.
Qed.

(** The calls of sessions and timers. A claim is not rolled back as new after an operator made
its name permanent. *)
Inductive session_call `{MapRange} (r : nameRegistry) : nameRegistry → Prop :=
| sc_claim n ty tok agent sess mx : session_call r (claim n ty tok agent sess mx r).1
| sc_activate l t : session_call r (activate l t r)
| sc_park now l sess : session_call r (park now l sess r)
| sc_rollback now l sess existed :
    (∀ res, live r l res → permanent res = true → existed = true) → session_call r (rollback now l sess existed r)
| sc_expire l : session_call r (expire l r)
| sc_setDomains l ds : is_Some (heap r !! l) → session_call r (setDomains l ds r).1
| sc_reservePort p : session_call r (reservePort p r).1
| sc_releasePort p : session_call r (releasePort p r)
| sc_setPort l p : session_call r (setPort l p r).

Lemma session_call_inv `{MapRange} r r' : session_call r r' → inv r → inv r'.
Proof. intros [] Hi; by eapply call_inv; [constructor|]. Qed.

Lemma permanently_park now l sess r n tok : inv r → permanently (park now l sess r) n tok ↔ permanently r n tok.
Proof.
  intros Hi. unfold park. destruct (heap r !! l) as [res|] eqn:Hl; [|done]. destruct (negb (bool_decide _)); [done|].
  set (r1 := update l unbind r). assert (permanently r1 n tok ↔ permanently r n tok) as <- by (by apply permanently_update).
  assert (inv r1) as Hi1 by (by apply inv_update). destruct (negb (bool_decide _)); [done|].
  destruct (permanent res) eqn:Hp; cbn [negb]; rewrite ?andb_false_r, ?andb_true_r; [done|]. destruct (closed r1 || clustered r1).
  - apply permanently_delete; [done|]. intros res' (res0 & Hl0 & ->)%live_update_eq; [|done].
    cbn. destruct Hl0. congruence.
  - by apply permanently_update.
Qed.

Lemma session_call_permanently `{MapRange} r r' n tok :
  session_call r r' → inv r → permanently r' n tok ↔ permanently r n tok.
Proof.
  intros [n0 ty t agent sess mx|l t|now l sess|now l sess existed Hex|l|l ds _|p|p|l p] Hi.
  - destruct (claim_cases_of n0 ty t agent sess mx r Hi) as [|Hn _|l res st]; cbn [fst]; [done|by apply permanently_add|].
    rewrite permanently_update; [by apply permanently_frame|intros x; unfold rebind; cbn; apply (stop_timer_frame x)..].
  - by apply permanently_update.
  - by apply permanently_park.
  - unfold rollback. destruct existed; [by apply permanently_park|]. destruct (heap r !! l) eqn:Hl; [|done].
    destruct (bool_decide _); [|done]. apply permanently_delete; [done|]. intros res Hres.
    destruct (permanent res) eqn:Hp; [|done]. by specialize (Hex res Hres Hp).
  - unfold expire. destruct (heap r !! l) as [res|] eqn:Hl; [|done]. destruct (_ && _) eqn:Hb; [|done]. bool_facts.
    apply permanently_delete; [done|]. intros res' [Hl' _]. congruence.
  - unfold setDomains. destruct (domain_holder l ds r); [done|]. cbn [fst].
    rewrite (permanently_frame (update l (λ res, res <| domains := ds |>) r)) by done. by apply permanently_update.
  - unfold reservePort. destruct (bool_decide _); [done|]. by apply permanently_frame.
  - by apply permanently_frame.
  - unfold setPort. rewrite permanently_update by done. destruct (_ && _); [|done]. by apply permanently_frame.
Qed.

(** ** What operators do to the names *)

(** A live reservation is the only one of its name. *)
Lemma live_unique r l res l' res' : live r l res → live r l' res' → name res = name res' → l = l' ∧ res = res'.
Proof. intros [Hh Hn] [Hh' Hn'] Heq. rewrite Heq in Hn. assert (l = l') as -> by congruence. split; congruence. Qed.

Lemma permanently_make l r res n tok :
  live r l res →
  permanently (update l make_permanent r) n tok ↔
  (n = name res ∧ tok = tokenID res) ∨ (n ≠ name res ∧ permanently r n tok).
Proof.
  intros Hl. assert (∀ x, name (make_permanent x) = name x) as Hname by (intros x; apply (make_permanent_frame x)).
  assert (∀ x, permanent (make_permanent x) = true ∧ tokenID (make_permanent x) = tokenID x) as Hperm.
  { intros x. unfold make_permanent. destruct (stop_timer_frame (x <| permanent := true |>)) as (_ & _ & _ & -> & _ & ->). done. }
  split.
  - intros (l' & ? & (x & Hx & ->)%live_update & Hn & Hp & Ht); [|done]. destruct (decide (l' = l)) as [->|Hne].
    + destruct Hx, Hl. left. rewrite Hname in Hn. rewrite (proj2 (Hperm _)) in Ht. split; congruence.
    + right. split; [|by exists l', x]. intros ->. by destruct (live_unique _ _ _ _ _ Hx Hl Hn).
  - intros [[-> ->]|[Hne (l' & x & Hx & Hn & Hp & Ht)]].
    + exists l, (make_permanent res). rewrite Hname, !(proj2 (Hperm _)), (proj1 (Hperm _)). split; [|done]. by apply live_update_same.
    + exists l', x. split; [|done]. apply live_update; [done|]. exists x. split; [done|]. case_decide as Heq; [|done].
      subst l'. destruct Hx, Hl. congruence.
Qed.

Lemma reserve_permanently n tok p r r' n' tok' :
  inv r → reserve n tok p r = (r', Ok tt) →
  permanently r' n' tok' ↔ (n' = n ∧ tok' = tok) ∨ (n' ≠ n ∧ permanently r n' tok').
Proof.
  intros Hi Hr. destruct (reserve_cases n tok p r Hi) as [[e He]|(r1 & l & res & Hr1 & Hl & Hn & Ht & Hp & Heq)]; [congruence|].
  rewrite Heq, (reserve_found _ _ _ _ l res) in Hr by done. injection Hr as <-.
  assert (permanently r1 n' tok' ↔ permanently r n' tok') as <-.
  { destruct Hr1 as [->|[Hnew ->]]; [done|]. by apply permanently_add. }
  destruct (negb (p =? 0)%Z && _).
  - assert (live (setPort l p (reservePort p r1).1) l (res <| port := p |>)) as Hl2.
    { apply (live_update_same l (λ res, res <| port := p |>)); [done|]. unfold reservePort.
      destruct (bool_decide (p ∈ _)); cbn; destruct (_ && _); done. }
    rewrite (permanently_make l _ _ _ _ Hl2). cbn [name tokenID set_field]. rewrite Hn, Ht.
    assert (permanently (setPort l p (reservePort p r1).1) n' tok' ↔ permanently r1 n' tok') as ->; [|done].
    unfold setPort. rewrite permanently_update by done. unfold reservePort.
    destruct (bool_decide (p ∈ _)); cbn; destruct (_ && _); done.
  - rewrite (permanently_make l r1 res) by done. by rewrite Hn, Ht.
Qed.

Lemma permanently_name_only r n tok tok' : permanently r n tok → permanently r n tok' → tok = tok'.
Proof. intros (l & res & Hl & Hn & _ & <-) (l' & res' & Hl' & Hn' & _ & <-). by destruct (live_unique _ _ _ _ _ Hl Hl') as [_ ->]; [congruence|]. Qed.

Lemma unreserve_permanently n r n' tok :
  inv r → permanently (unreserve n r) n' tok ↔ n' ≠ n ∧ permanently r n' tok.
Proof.
  intros Hi. unfold unreserve. destruct (names r !! n) as [l|] eqn:Hn; cbn.
  2: { split; [|by intros [_ ?]]. intros Hp. split; [|done]. intros ->. destruct Hp as (l & res & [_ Hl] & <- & _). congruence. }
  destruct (inv_name r Hi _ _ Hn) as (res & Hl & Hname). rewrite Hl. cbn.
  assert (live r l res) as Hlive by (by split; [|rewrite Hname]).
  destruct (permanent res) eqn:Hp; cbn [negb].
  - set (r1 := update l (λ res, res <| permanent := false |>) r).
    assert (inv r1) as Hi1 by (by apply inv_update).
    assert (permanently r1 n' tok ↔ n' ≠ n ∧ permanently r n' tok) as Hr1.
    { unfold permanently, r1. setoid_rewrite live_update; [|done]. split.
      - intros (l' & ? & (x & Hx & ->) & Hx' & Hp' & Ht'). case_decide as Heq; [done|]. split; [|by exists l', x].
        intros ->. destruct (live_unique _ _ _ _ _ Hx Hlive) as [? _]; [congruence|done].
      - intros (Hne & l' & x & Hx & Hx' & Hp' & Ht'). exists l', x. split; [|done]. exists x. split; [done|].
        case_decide as Heq; [|done]. subst l'. destruct Hx, Hlive. congruence. }
    destruct (bool_decide _); [|done]. rewrite permanently_delete; [done|done|].
    intros res' (x & _ & ->)%live_update_eq; done.
  - split; [|by intros [_ ?]]. intros Hx. split; [|done]. intros ->. destruct Hx as (l' & x & Hx & Hx' & Hp' & _).
    destruct (live_unique _ _ _ _ _ Hx Hlive) as [_ ->]; congruence.
Qed.

Lemma releaseToken_permanently `{MapRange} revoked r n tok :
  inv r → permanently (releaseToken revoked r).1 n tok ↔ permanently r n tok ∧ tok ≠ revoked.
Proof.
  intros Hi. destruct (releaseToken_live revoked r Hi) as [_ Hl]. unfold permanently. setoid_rewrite Hl. naive_solver.
Qed.

(** ** Requests *)

Section requests.
Context `{MapRange, GoUnicode, Crypto} (s : Server) {CA : Type} (LoadAgentCA : string → string → option CA)
  (PEM : CA → option (string * string)).

(** One request of an operator, one call of a session, or anything of the relay that leaves its
names alone. *)
Inductive api_step (a : relayAPI) : relayAPI → Prop :=
| as_create req token hash : api_step a (createToken req token hash a).1
| as_revoke name : api_step a (revokeToken name a).1
| as_issue name days fresh serial : api_step a (issueCert LoadAgentCA PEM name days fresh serial a).1
| as_reserve req : api_step a (addReservation s req a).1
| as_unreserve name : api_step a (removeReservation name a).1
| as_addKey key : api_step a (addGatewayKey key a).1
| as_removeKey name : api_step a (removeGatewayKey name a).1
| as_session x : session_call (registry (srv a)) (registry x) → api_step a (a <| srv := x |>)
| as_other x : registry x = registry (srv a) → api_step a (a <| srv := x |>).

(** The relay's permanent names are the database's reservations. *)
Definition in_step (a : relayAPI) : Prop :=
  ∀ n tok, permanently (registry (srv a)) n tok ↔ ∃ r, bucketReservations (st a) !! n = Some (Json r) ∧ rvTokenID r = tok.

Record api_ok (a : relayAPI) : Prop := {
  ao_store : store_ok (st a);
  ao_inv : inv (registry (srv a));
  ao_step : in_step a;
}.

Lemma DisconnectToken_registry id x : registry (DisconnectToken id x).1 = (releaseToken id (registry x)).1.
Proof.
  unfold DisconnectToken. destruct (releaseToken id (registry x)) as [r released]. cbn [fst].
  set (L := elements _). by rewrite (proj2 (close_all_sessions ReasonTokenRevoked L (x <| registry := r |>) 1%positive (NoDup_elements _))).
Qed.

(** A change of the database that leaves tokens' reservations alone. *)
Lemma api_ok_store a st' :
  api_ok a → store_ok st' → bucketReservations st' = bucketReservations (st a) → api_ok (a <| st := st' |>).
Proof. intros [Hs Hi Hn] Hs' Hr. split; [done|done|]. intros n tok. cbn. rewrite Hr. apply Hn. Qed.

Lemma revoke_ok name a : api_ok a → api_ok (revokeToken name a).1.
Proof using H LoadAgentCA PEM.
  intros Ha. destruct Ha as [Hs Hi Hn]. unfold revokeToken. destruct (TokenByName (st a) name) as [rec|e]; [|done].
  pose proof (run_op_ok LoadAgentCA PEM (st a) (OpDeleteToken (ID rec)) Hs) as Hs'. cbn in Hs'.
  destruct (DeleteToken_cases (ID rec) (st a) Hs) as [[_ Heq]|(b & Heq & _ & Hb)]; rewrite Heq in *; cbn [fst] in *; [by split|].
  destruct (DisconnectToken (ID rec) _) as [x n] eqn:Hd.
  assert (registry x = (releaseToken (ID rec) (registry (srv a))).1) as Hx.
  { rewrite <-(DisconnectToken_registry (ID rec) (srv a)). change (srv a) with (srv (a <| st := st a <| bucketTokens :=
      delete (ID rec) (bucketTokens (st a)) |> <| bucketReservations := b |> |>)). by rewrite Hd. }
  split; [done| |].
  - cbn. rewrite Hx. by apply releaseToken_live.
  - intros m tok. cbn. rewrite Hx, releaseToken_permanently, (Hn m tok) by done. setoid_rewrite Hb. naive_solver.
Qed.

(** A name that may be reserved is a key the database takes. *)
Lemma checked_name_fits r n p : CheckReservation r n p = Ok tt → put_error n = None.
Proof using Type.
  unfold CheckReservation. destruct (CheckName r n) as [[]|] eqn:Hn; [|done]. intros _. apply CheckName_ok in Hn as [Hv _].
  unfold put_error. rewrite (proj2 (String.eqb_neq _ _) (ValidName_nonempty n Hv)).
  apply IsDNSLabel_spec in Hv as [Hlen _]. destruct (Z.ltb_spec MaxKeySize (Z.of_nat (String.length n))) as [Hl|]; [|done].
  unfold MaxKeySize in Hl. lia.
Qed.

Lemma reserve_request_ok req a : api_ok a → api_ok (addReservation s req a).1.
Proof using H LoadAgentCA PEM.
  intros [Hs Hi Hn]. unfold addReservation. destruct req as [req|]; [|done].
  destruct (TokenByName (st a) (rqToken req)) as [rec|e] eqn:Ht; [|done]. apply TokenByName_Ok in Ht as [Ht _]; [|done].
  unfold Reserve. destruct (CheckReservation _ _ _) as [[]|e] eqn:Hck; [|done]. apply checked_name_fits in Hck.
  pose proof (inv_reserve (rqName req) (ID rec) (rqPort req) _ Hi) as Hi'.
  destruct (reserve (rqName req) (ID rec) (rqPort req) (registry (srv a))) as [r [[]|e]] eqn:Hr; cbn [fst] in Hi'.
  2: { destruct (reserve_cases (rqName req) (ID rec) (rqPort req) _ Hi) as [[e' He']|(r1 & l & res & _ & Hl & ? & ? & ? & Heq)].
       - rewrite He' in Hr. injection Hr as <- _. by split.
       - rewrite Heq, (reserve_found _ _ _ _ l res) in Hr by done. done. }
  set (rv := mkStored (rqName req) (ID rec) (rqPort req)).
  pose proof (run_op_ok LoadAgentCA PEM (st a) (OpPutReservation rv) Hs) as Hs'. cbn in Hs'.
  assert (PutReservation rv (st a) =
    (st a <| bucketReservations := <[rqName req := Json rv]> (bucketReservations (st a)) |>, Ok tt)) as Hput.
  { destruct (PutReservation_cases rv (st a)) as [(e & _ & [[_ Hno]|[_ He]])|(_ & _ & ->)]; [|by cbn in He; congruence|done].
    cbn in Hno. by rewrite Ht in Hno. }
  change (st (a <| srv := _ |>)) with (st a). rewrite Hput in *. split; [done|done|].
  intros n tok. cbn. rewrite (reserve_permanently _ _ _ _ _ _ _ Hi Hr), (Hn n tok). setoid_rewrite lookup_insert_Some.
  split; [|naive_solver]. intros [[-> ->]|[? (x & ? & ?)]]; [|exists x; naive_solver]. exists rv. naive_solver.
Qed.

Lemma unreserve_request_ok name a : api_ok a → api_ok (removeReservation name a).1.
Proof using H LoadAgentCA PEM.
  intros [Hs Hi Hn]. unfold removeReservation.
  pose proof (run_op_ok LoadAgentCA PEM (st a) (OpDeleteReservation name) Hs) as Hs'. cbn in Hs'.
  unfold DeleteReservation, Update in *. destruct (bool_decide _); cbn [fst] in *; [by split|].
  split; [done|by apply inv_unreserve|]. intros n tok. cbn. rewrite unreserve_permanently, (Hn n tok) by done.
  setoid_rewrite lookup_delete_Some. naive_solver.
Qed.

Lemma api_step_ok a a' : api_step a a' → api_ok a → api_ok a'.
Proof using H LoadAgentCA PEM.
  intros Hstep Ha. pose proof (ao_store _ Ha) as Hs. destruct Hstep.
  - unfold createToken. destruct req as [[name policy]|]; [|done]. destruct (NewTokenRecord _ _ _ _) as [rec|]; [|done].
    pose proof (run_op_ok LoadAgentCA PEM (st a) (OpAddToken rec) Hs) as Hs'. cbn in Hs'.
    destruct (AddToken_cases rec (st a) Hs) as [[e Heq]|(_ & _ & _ & Heq)]; rewrite Heq in *; by apply api_ok_store.
  - by apply revoke_ok.
  - unfold issueCert. destruct days as [days|]; [|done].
    pose proof (run_op_ok LoadAgentCA PEM (st a) (OpIssueCert name days fresh serial) Hs) as Hs'. cbn in Hs'.
    pose proof (IssueCert_cases LoadAgentCA PEM name days fresh serial (st a) Hs) as Hc. cbv zeta in Hc.
    destruct (IssueCert _ _ _ _ _ _ _) as [st' r]. cbn [fst] in *. apply api_ok_store; [done|done|].
    destruct (AgentCA_frame LoadAgentCA PEM fresh (st a)) as (_ & Hr & _).
    destruct Hc as [[-> _]|(? & ? & ? & _ & _ & _ & _ & _ & _ & _ & ->)]; [done|]. done.
  - by apply reserve_request_ok.
  - by apply unreserve_request_ok.
  - unfold addGatewayKey. destruct key as [k|]; [|done].
    pose proof (run_op_ok LoadAgentCA PEM (st a) (OpAddGatewayKey k) Hs) as Hs'. cbn in Hs'.
    destruct (AddGatewayKey_cases k (st a) Hs) as [[e Heq]|(_ & _ & Heq)]; rewrite Heq in *; by apply api_ok_store.
  - unfold removeGatewayKey. pose proof (run_op_ok LoadAgentCA PEM (st a) (OpDeleteGatewayKey name) Hs) as Hs'. cbn in Hs'.
    destruct (DeleteGatewayKey_cases name (st a)) as [[e Heq]|[k Heq]]; rewrite Heq in *; by apply api_ok_store.
  - destruct Ha as [_ Hi Hn]. split; [done|by eapply session_call_inv|]. intros n tok. cbn.
    rewrite (session_call_permanently _ _ n tok H2 Hi). apply Hn.
  - destruct Ha as [_ Hi Hn]. split; [done|cbn; by rewrite H2|]. intros n tok. cbn. rewrite H2. apply Hn.
Qed.

(** A relay that starts with an empty database. *)
Definition started (x : relay) : relayAPI := mkAPI x Open.

Lemma started_ok x g : registry x = newNameRegistry g → api_ok (started x).
Proof using H.
  intros Hx. split; [apply Open_ok|cbn; rewrite Hx; apply (calls_inv g), rtc_refl|]. intros n tok. cbn. rewrite Hx. split.
  - intros (l & res & [Hl _] & _). cbn in Hl. by rewrite lookup_empty in Hl.
  - intros (r & Hr & _). by rewrite lookup_empty in Hr.
Qed.

Lemma api_reachable_ok x g a : registry x = newNameRegistry g → rtc api_step (started x) a → api_ok a.
Proof using H LoadAgentCA PEM.
  intros Hx Hr. pose proof (started_ok x g Hx) as H0'. revert H0'. induction Hr; [done|]. intros. by eauto using api_step_ok.
Qed.

(** the permanent names of the running relay are exactly the reservations
of its database, name by name with the token they are for, after any requests
of operators and calls of agents' sessions, and the listing of reservations
never fails. *)
Theorem reservations_in_step x g a :
  registry x = newNameRegistry g → rtc api_step (started x) a →
  ∃ rs, Reservations (st a) = Ok rs ∧
    ∀ n tok, permanently (registry (srv a)) n tok ↔ ∃ r, r ∈ rs ∧ rvName r = n ∧ rvTokenID r = tok.
Proof using H LoadAgentCA PEM.
  intros Hx Hr. destruct (api_reachable_ok x g a Hx Hr) as [Hs Hi Hn].
  destruct (listed_ok _ _ _ (so_reservations _ Hs)) as (rs & Hl & _ & _ & Hin). exists rs. split; [done|].
  intros n tok. rewrite (Hn n tok). split; intros (r & Hr' & Ht); exists r.
  - by apply (keyed_listed _ _ _ _ _ _ (so_reservations _ Hs) Hin) in Hr' as [? ?].
  - destruct Ht as [<- ?]. by rewrite <-Hin.
Qed.

(** C27: revoking a token ends it everywhere at once: afterwards no secret and
no certificate authenticates as it, the relay holds no name for it and the
database no reservation, and every session that used it is closed; other
tokens and what is held for them stay as they were. *)
Theorem revoked_everywhere x g a name a' n :
  registry x = newNameRegistry g → rtc api_step (started x) a → revokeToken name a = (a', Ok n) →
  ∃ rec, TokenByName (st a) name = Ok rec ∧
    (∀ tok peer r, authenticate (token_store (st a')) tok peer = Ok r → ID r ≠ ID rec) ∧
    (∀ l res, live (registry (srv a')) l res ↔ live (registry (srv a)) l res ∧ tokenID res ≠ ID rec) ∧
    (∀ i t se, sessions (srv a') !! i = Some t → sess t = Some se → ID (token se) = ID rec → muxClosed t = true) ∧
    (∀ k r, bucketReservations (st a') !! k = Some (Json r) ↔
            bucketReservations (st a) !! k = Some (Json r) ∧ rvTokenID r ≠ ID rec) ∧
    (∀ id, id ≠ ID rec → TokenByID (st a') id = TokenByID (st a) id).
Proof using H LoadAgentCA PEM.
  intros Hx Hr Hrev. destruct (api_reachable_ok x g a Hx Hr) as [Hs Hi Hn]. unfold revokeToken in Hrev.
  destruct (TokenByName (st a) name) as [rec|e] eqn:Ht; [|done]. exists rec. split; [done|].
  pose proof (deleted_token_rejected (st a) (ID rec)) as Hrej.
  destruct (DeleteToken_cases (ID rec) (st a) Hs) as [[_ Heq]|(b & Heq & _ & Hb)]; rewrite Heq in *; cbn [fst] in *; [done|].
  change (srv (a <| st := _ |>)) with (srv a) in Hrev.
  destruct (DisconnectToken (ID rec) (srv a)) as [x' n'] eqn:Hd. injection Hrev as <- <-. cbn.
  destruct (DisconnectToken_complete (ID rec) (srv a) x' n' Hi Hd) as (_ & Hl & Hclosed & _).
  split_and!; [by intros tok peer r; apply Hrej|done|done| |].
  - intros k r. rewrite Hb. naive_solver.
  - intros id Hid. unfold TokenByID. cbn. by rewrite lookup_delete_ne.
Qed.
End requests.

(** ** A sample relay with its operators *)

#[local] Existing Instance plain_crypto.
#[local] Existing Instance ascii_only.

Module AdminSample.
Definition s : Server := RelayTunnelsSpec.RelaySample.s.
Definition x0 : relay :=
  mkRelay (newNameRegistry (5 * minute)%Z) ∅ (NewIPLimiter 20%Q 100 0) (NewIPLimiter 1%Q 5 0) (mkCounters 0 0 0 0 0) ∅ false false.
Definition secret : string := "0123456789012345678901234567890123456789abc".
Definition tokenA : string := "l8t_aaaaaaaa_" +:+ secret.
Definition tokenB : string := "l8t_bbbbbbbb_" +:+ secret.
Definition policy : Auth.Policy := Auth.mkPolicy [] [] 0 "" false [].
Definition load (_ _ : string) : option unit := Some tt.
Definition pem (_ : unit) : option (string * string) := Some ("cert", "key").

Definition a1 : relayAPI := (createToken (Some ("alice", policy)) tokenA (Some secret) (started x0)).1.
Definition a2 : relayAPI := (createToken (Some ("bob", policy)) tokenB (Some secret) a1).1.
Definition a3 : relayAPI := (addReservation s (Some (mkReservationRequest "web" "alice" 2001)) a2).1.

Lemma a3_reachable : rtc (api_step s load pem) (started x0) a3.
Proof.
  apply (rtc_l _ _ a1); [exact (as_create s load pem (started x0) _ tokenA _)|].
  apply (rtc_l _ _ a2); [exact (as_create s load pem a1 _ tokenB _)|].
  apply rtc_once. exact (as_reserve s load pem a2 _).
Defined.
End AdminSample.
Import AdminSample.

Lemma reservations_in_step_witness : permanently (registry (srv a3)) "web" "aaaaaaaa".
Proof.
  destruct (reservations_in_step s load pem x0 (5 * minute)%Z a3 eq_refl a3_reachable) as (rs & Hrs & Hn).
  apply Hn. exists (mkStored "web" "aaaaaaaa" 2001). split; [|split; reflexivity].
  vm_compute in Hrs. injection Hrs as <-. left.
Defined.

Lemma revoked_everywhere_witness :
  let '(a', r) := revokeToken "alice" a3 in
  r = Ok 0%Z ∧ bucketReservations (st a') !! "web" = None ∧ ¬ ∃ l res, live (registry (srv a')) l res ∧ tokenID res = "aaaaaaaa".
Proof.
  destruct (revokeToken "alice" a3) as [a' r] eqn:Hrev.
  assert (r = Ok 0%Z) as -> by (vm_compute in Hrev; congruence).
  destruct (revoked_everywhere s load pem x0 (5 * minute)%Z a3 "alice" a' 0%Z eq_refl a3_reachable Hrev)
    as (rec & Hrec & _ & Hl & _). vm_compute in Hrec. injection Hrec as <-.
  split; [reflexivity|]. split; [vm_compute in Hrev; injection Hrev as <-; reflexivity|].
  clear Hrev. intros (l & res & Hres & Ht). by apply Hl in Hres as [_ ?].
Defined.

Lemma issued_certificate_witness :
  let '(s1, r) := IssueCert load pem "alice" 30 (Some tt) (Some "7f") (st a3) in
  match r with
  | Ok (issued, rec) => ∃ rec', authenticate (token_store s1) "" (Some (icCert issued)) = Ok rec' ∧ ID rec' = "aaaaaaaa"
  | Err _ => False
  end.
Proof.
  destruct (IssueCert load pem "alice" 30 (Some tt) (Some "7f") (st a3)) as [s1 [[issued rec]|e]] eqn:Hi;
    [|vm_compute in Hi; discriminate].
  pose proof (ao_store _ (api_reachable_ok s load pem x0 (5 * minute)%Z a3 eq_refl a3_reachable)) as Hs.
  destruct (issued_certificate load pem (st a3) "alice" 30 (Some tt) (Some "7f") s1 issued rec [] Hs Hi)
    as (_ & _ & (rec' & Ha & Hid & _) & _); [by intros ?%elem_of_nil|].
  exists rec'. split; [exact Ha|]. rewrite Hid. vm_compute in Hi. injection Hi as _ _ <-. reflexivity.
Defined.

Lemma database_errors_witness :
  ((DeleteToken "cccccccc" (st a3)).2 = Err ErrNotFound ∧ TokenByID (st a3) "cccccccc" = Ok None) ∧
  ((PutReservation (mkStored "" "aaaaaaaa" 0) (st a3)).2 = Err ErrKeyRequired ∧ bad_key ErrKeyRequired "").
Proof.
  pose proof (ao_store _ (api_reachable_ok s load pem x0 (5 * minute)%Z a3 eq_refl a3_reachable)) as Hs.
  destruct (database_errors (st a3) Hs) as (_ & Hdel & Hput & _). split.
  - specialize (Hdel "cccccccc").
    assert ((DeleteToken "cccccccc" (st a3)).2 = Err ErrNotFound) as He by (vm_compute; reflexivity).
    destruct (DeleteToken "cccccccc" (st a3)) as [s' r]. cbn [snd] in He. subst r.
    destruct Hdel as (_ & _ & Hnone). split; [reflexivity|exact Hnone].
  - specialize (Hput (mkStored "" "aaaaaaaa" 0)).
    assert ((PutReservation (mkStored "" "aaaaaaaa" 0) (st a3)).2 = Err ErrKeyRequired) as He by (vm_compute; reflexivity).
    destruct (PutReservation (mkStored "" "aaaaaaaa" 0) (st a3)) as [s' r]. cbn [snd] in He. subst r.
    destruct Hput as (_ & [[He _]|Hbad]); [discriminate He|]. split; [reflexivity|exact Hbad].
Defined.

(** ** Where they part *)

Module Parting.
(** Alice's agent serves "web" on another port; its reserved port goes to Bob. *)
Definition r3 : nameRegistry := registry (srv a3).
Definition r4 : nameRegistry := (claim "web" TUNNEL_TYPE_TCP "aaaaaaaa" "agent" 1%positive 0 r3).1.
Definition web : loc := default 1%positive (names r4 !! "web").
Definition r5 : nameRegistry := setPort web 2002 (reservePort 2002 r4).1.
Definition a5 : relayAPI := a3 <| srv := srv a3 <| registry := r5 |> |>.
Definition a6 : relayAPI := (addReservation s (Some (mkReservationRequest "db" "bob" 2001)) a5).1.
(** A new name is claimed, an operator reserves it, and opening its tunnel fails. *)
Definition r7 : nameRegistry := (claim "ssh" TUNNEL_TYPE_TCP "aaaaaaaa" "agent" 1%positive 0 r3).1.
Definition ssh : loc := default 1%positive (names r7 !! "ssh").
Definition a8 : relayAPI :=
  (addReservation s (Some (mkReservationRequest "ssh" "alice" 0)) (a3 <| srv := srv a3 <| registry := r7 |> |>)).1.
End Parting.
Import Parting.

(** When an agent moves a reserved name to another port, the reserved port can
be reserved for a second name; both reservations are stored, and the relay
does not start any more. *)
Lemma moved_port_stops_restart :
  (addReservation s (Some (mkReservationRequest "db" "bob" 2001)) a5).2 = Created ∧
  Reservations (st a6) = Ok [mkStored "db" "bbbbbbbb" 2001; mkStored "web" "aaaaaaaa" 2001] ∧
  load_reservations s [mkStored "db" "bbbbbbbb" 2001; mkStored "web" "aaaaaaaa" 2001] x0 = None.
Proof. split_and!; vm_compute; reflexivity. Qed.

(** A claim that is rolled back as new takes a reservation an operator made of
it meanwhile with it: the database has it, the relay does not. *)
Lemma rollback_drops_reservation :
  bucketReservations (st a8) !! "ssh" = Some (Json (mkStored "ssh" "aaaaaaaa" 0)) ∧
  names (rollback 0 ssh 1%positive false (registry (srv a8))) !! "ssh" = None.
Proof. split; vm_compute; reflexivity. Qed.
