(* ===== verification/Oidc.v ===== *)
(** * The login service (go/tunnel/oidc)

Visitors of a protected tunnel log in at a provider through the relay's login
host. What is passed through the browser - where a login started, the login at
the provider, the login code, the session cookie - is signed JSON. A request
is its host, path, cookies and query; a response is an [outcome]. JSON, the
HMAC and the provider's answers are arguments; the clock is read where the
code reads it ([later] is the second reading of a request). *)

From S2P Require Import Prelude GoStrings Base64 NetIP Transport Protocol Policy Access.
From stdpp Require Import options.
From Stdlib Require Import Ascii.
#[local] Open Scope l8_scope.

(** ** Signed payloads (signed.go) *)

(** [json.Marshal] and [json.Unmarshal] on a payload; [texts_ok] says that its
texts are valid UTF-8, which JSON keeps. *)
Class Payload (A : Type) := {
  marshal : A → string;
  unmarshal : string → option A;
  texts_ok : A → Prop;
  json_inverse a : texts_ok a → unmarshal (marshal a) = Some a;
}.

Definition purposeLogin : string := "login-state".
Definition purposeFlow : string := "flow-cookie".
Definition purposeCode : string := "login-code".
Definition purposeSession : string := "session-cookie".

Record loginState := mkLogin { lHost : string; lPath : string; lExp : Z }.
Record flowCookie := mkFlow { fNonce : string; fVerifier : string; fProvider : string; fLogin : loginState; fExp : Z }.
Record loginCode := mkCode { cEmail : string; cHost : string; cPath : string; cID : string; cExp : Z }.
Record session := mkSession { sEmail : string; sHost : string; sExp : Z }.

(** What is authenticated: the purpose, a NUL and the body. *)
Definition mac_message (purpose body : string) : string := purpose +:+ String "000" body.

Section signer.
Context `{HMAC} (key : string).

Definition mac (purpose body : string) : string := hmac_sha256 key (mac_message purpose body).

Definition body_of {A} `{Payload A} (v : A) : string := EncodeToString (marshal v).
Definition sign {A} `{Payload A} (purpose : string) (v : A) : string :=
  body_of v +:+ "." +:+ EncodeToString (mac purpose (body_of v)).

Definition verify {A} `{Payload A} (purpose token : string) : option A :=
  '(body, sig) ← CutByte "." token;
  got ← DecodeString sig;
  if negb (String.eqb got (mac purpose body)) then None
  else data ← DecodeString body; unmarshal data.
End signer.

Definition expired (exp now : Z) : bool := (exp <? unix now)%Z.

(** ** The service (service.go) *)

Definition AuthPath : string := "/.l8tunnel/auth".
Definition UserHeader : string := "X-L8tunnel-User".
Definition sessionCookie : string := "l8tunnel_session".
Definition flowCookieKey : string := "l8tunnel_oidc_flow".
Definition loginTTL : Z := (10 * minute)%Z.
Definition codeTTL : Z := minute.

Record Config := mkOidcConfig {
  AuthHost : string;
  Providers : gset string;
  SessionTTL : Z;
  Key : string;
}.

Record Service := mkService { usedCodes : gmap string Z }.
#[export] Instance eta_service : Eta Service := λ s, mkService (usedCodes s).
Definition NewService : Service := mkService ∅.

Record Request := mkRequest {
  Host : string;
  Path : string;        (* URL.Path *)
  RequestURI : string;
  Method : string;
  Cookies : list (string * string);
  Query : string → string;   (* URL.Query().Get *)
}.
#[export] Instance eta_request : Eta Request := λ r,
  mkRequest (Host r) (Path r) (RequestURI r) (Method r) (Cookies r) (Query r).

Definition Cookie (name : string) (r : Request) : option string :=
  snd <$> List.find (λ c, String.eqb c.1 name) (Cookies r).

Definition stripCookie (name : string) (r : Request) : Request :=
  r <| Cookies := List.filter (λ c, negb (String.eqb c.1 name)) (Cookies r) |>.

Definition normalizeHost `{GoUnicode} (host : string) : string :=
  ToLower (TrimSuffix "." (match SplitHostPort host with Some (h, _) => h | None => host end)).

Definition safePath (p : string) : string :=
  if negb (HasPrefix "/" p) || HasPrefix "//" p || HasPrefix "/\" p then "/" else p.

(** The pages a request can end with. *)
Inductive page :=
| LoginInvalid | LoginRequired | NotAllowed | LoginRefused | LoginFailed | AgentOffline | ProviderUnavailable.

Inductive outcome :=
| Page (p : page)
| Proceed (user : string) (r : Request)           (* the request goes on as this user *)
| ToLogin (state : string)                        (* to the login host *)
| ToProvider (cookie provider nonce : string)     (* the flow cookie is set *)
| ToTunnel (host code : string)                   (* to https://host/.l8tunnel/auth *)
| LoggedIn (cookie path : string).                (* the session cookie is set *)

(** What a provider answers when a code is exchanged: whether it could be
reached, whether it gave a valid identity token, with its nonce, and the
claims of the token: the email and whether it is verified. *)
Inductive answer :=
| Unreachable
| ExchangeRefused
| TokenInvalid
| Identity (nonce : string) (claims : option (string * option bool)).

Section service.
Context `{GoUnicode, HMAC, Payload loginState, Payload flowCookie, Payload loginCode, Payload session}.
Context (cfg : Config).

(** Marks a login code as used; false if it already was. *)
Definition useCode (id : string) (exp now : Z) (s : Service) : Service * bool :=
  let s := s <| usedCodes := filter (λ '(_, e), ¬ (e < unix now)%Z) (usedCodes s) |> in
  if bool_decide (is_Some (usedCodes s !! id)) || String.eqb id "" then (s, false)
  else (s <| usedCodes := <[id := exp]> (usedCodes s) |>, true).

Definition new_session (code : loginCode) (host : string) (now : Z) : session :=
  mkSession (cEmail code) host (unix (now + SessionTTL cfg)).

Definition finishLogin (rule : OIDCRule) (r : Request) (host : string) (now later : Z) (s : Service) : Service * outcome :=
  match verify (Key cfg) purposeCode (Query r "code") with
  | None => (s, Page LoginInvalid)
  | Some code =>
      if expired (cExp code) now || negb (String.eqb (normalizeHost (cHost code)) host) then (s, Page LoginInvalid)
      else
        let '(s, ok) := useCode (cID code) (cExp code) later s in
        if negb ok then (s, Page LoginInvalid)
        else if negb (Allows rule (cEmail code)) then (s, Page NotAllowed)
        else (s, LoggedIn (sign (Key cfg) purposeSession (new_session code host later)) (safePath (cPath code)))
  end.

(** The session of a request's cookie, if it is good for the host. *)
Definition session_of (r : Request) (host : string) (now : Z) : option session :=
  c ← Cookie sessionCookie r;
  sess ← verify (Key cfg) purposeSession c;
  if expired (sExp sess) now || negb (String.eqb (sHost sess) host) then None else Some sess.

Definition new_login (r : Request) (now : Z) : loginState := mkLogin (Host r) (RequestURI r) (unix (now + loginTTL)).

Definition Authorize (rule : OIDCRule) (r : Request) (now later : Z) (s : Service) : Service * outcome :=
  let host := normalizeHost (Host r) in
  if String.eqb (Path r) AuthPath then finishLogin rule r host now later s
  else match session_of r host now with
  | Some sess =>
      (s, if negb (Allows rule (sEmail sess)) then Page NotAllowed else Proceed (sEmail sess) (stripCookie sessionCookie r))
  | None =>
      (s, if negb (String.eqb (Method r) "GET") && negb (String.eqb (Method r) "HEAD") then Page LoginRequired
          else ToLogin (sign (Key cfg) purposeLogin (new_login r now)))
  end.

(** The binding to the relay: the rule of the tunnel at a host. *)
Context (RuleFor : string → option OIDCRule).
Definition ruleFor (host : string) : option OIDCRule := RuleFor (normalizeHost host).

(** [discovered] says whether a configured provider could be discovered. *)
Definition oauthConfig (discovered : string → bool) (provider : string) : bool :=
  bool_decide (provider ∈ Providers cfg) && discovered provider.

(** [nonce] and [verifier] are random. *)
Definition login (discovered : string → bool) (nonce verifier : string) (r : Request) (now : Z) : outcome :=
  match verify (Key cfg) purposeLogin (Query r "state") with
  | None => Page LoginInvalid
  | Some st =>
      if expired (lExp st) now then Page LoginInvalid
      else match ruleFor (lHost st) with
      | None => Page LoginInvalid
      | Some rule =>
          if negb (oauthConfig discovered (Provider rule)) then Page ProviderUnavailable
          else ToProvider (sign (Key cfg) purposeFlow (mkFlow nonce verifier (Provider rule) st (unix (now + loginTTL))))
                 (Provider rule) nonce
      end
  end.

Definition new_code (flow : flowCookie) (email id : string) (now : Z) : loginCode :=
  mkCode (ToLower email) (lHost (fLogin flow)) (lPath (fLogin flow)) id (unix (now + codeTTL)).

(** [exchange provider code verifier] is the provider's answer, [id] random. *)
Definition callback (discovered : string → bool) (exchange : string → string → string → answer) (id : string)
    (r : Request) (now : Z) : outcome :=
  match (c ← Cookie flowCookieKey r; verify (Key cfg) purposeFlow c) with
  | None => Page LoginInvalid
  | Some flow =>
      if expired (fExp flow) now then Page LoginInvalid
      else if negb (String.eqb (Query r "state") (fNonce flow)) then Page LoginInvalid
      else if negb (String.eqb (Query r "error") "") then Page LoginRefused
      else if negb (oauthConfig discovered (fProvider flow)) then Page ProviderUnavailable
      else match exchange (fProvider flow) (Query r "code") (fVerifier flow) with
      | Unreachable | ExchangeRefused | TokenInvalid => Page LoginFailed
      | Identity nonce claims =>
          if negb (String.eqb nonce (fNonce flow)) then Page LoginFailed
          else match claims with
          | None => Page LoginFailed
          | Some (email, verified) =>
              if String.eqb email "" || (if verified is Some v then negb v else false) then Page LoginFailed
              else match ruleFor (lHost (fLogin flow)) with
              | None => Page AgentOffline
              | Some _ => ToTunnel (lHost (fLogin flow)) (sign (Key cfg) purposeCode (new_code flow email id now))
              end
          end
      end
  end.
End service.
