(* ===== verification/OidcSpec.v ===== *)
(** * The login service: theorems

Every request let through to a protected tunnel is a login at the tunnel's
provider, each of its steps within its time, provided nobody forges the HMAC; a
login code is good once; a browser that keeps to the times gets in. *)

From S2P Require Import Prelude GoStrings Base64 NetIP Transport Protocol Policy Access Oidc.
From stdpp Require Import options.
From Stdlib Require Import Ascii.
#[local] Open Scope l8_scope.

Section spec.
Context `{GoUnicode, HMAC, !Payload loginState, !Payload flowCookie, !Payload loginCode, !Payload session}.
Context (cfg : Config).

(** ** Signatures *)

(** The text of a token before its dot. *)
Definition token_body (token : string) : string := match CutByte "." token with Some (b, _) => b | None => "" end.

Lemma verify_sign {A} `{!Payload A} purpose (v : A) : texts_ok v → verify (Key cfg) purpose (sign (Key cfg) purpose v) = Some v.
Proof.
  intros Hv. unfold verify, sign. change ("." +:+ ?x) with (String "." x).
  rewrite CutByte_app by apply EncodeToString_no_dot. cbn [mbind option_bind].
  rewrite DecodeString_EncodeToString. cbn [mbind option_bind]. rewrite String.eqb_refl. cbn [negb].
  unfold body_of. rewrite DecodeString_EncodeToString. cbn [mbind option_bind]. by apply json_inverse.
Qed.

Lemma verify_body {A} `{!Payload A} purpose token (v : A) :
  verify (Key cfg) purpose token = Some v → ∃ data, DecodeString (token_body token) = Some data ∧ unmarshal data = Some v.
Proof.
  unfold verify, token_body. intros ([body sig] & -> & (got & _ & Hif)%bind_Some)%bind_Some.
  destruct (negb _); [done|]. apply bind_Some in Hif as (data & Hd & Hu). by exists data.
Qed.

(** ** The service's history *)

(** What the service signed, and why. *)
Inductive minted :=
| MLogin (st : loginState)
| MFlow (flow : flowCookie)
| MCode (code : loginCode)
| MSession (sess : session).

Definition message_of (m : minted) : string :=
  match m with
  | MLogin st => mac_message purposeLogin (body_of st)
  | MFlow flow => mac_message purposeFlow (body_of flow)
  | MCode code => mac_message purposeCode (body_of code)
  | MSession sess => mac_message purposeSession (body_of sess)
  end.
Definition minted_ok (m : minted) : Prop :=
  match m with MLogin v => texts_ok v | MFlow v => texts_ok v | MCode v => texts_ok v | MSession v => texts_ok v end.

(** No forgery: a token that verifies authenticates a message the service signed. *)
Definition unforged {A} `{!Payload A} (log : list minted) (purpose token : string) : Prop :=
  is_Some (verify (A := A) (Key cfg) purpose token) → mac_message purpose (token_body token) ∈ message_of <$> log.

(** Which payload a token that verifies stands for. *)
Ltac minted_by Hok Hu Hv :=
  let m := fresh "m" in let Heq := fresh "Heq" in let Hm := fresh "Hm" in
  destruct (proj1 (list_elem_of_fmap _ _ _) (Hu ltac:(rewrite Hv; eauto))) as (m & Heq & Hm);
  destruct m; cbn [message_of] in Heq;
  (apply sep_inj in Heq as [? Heq]; [|reflexivity|reflexivity]); try discriminate;
  let data := fresh "data" in let Hd := fresh "Hd" in let Hun := fresh "Hun" in
  destruct (verify_body _ _ _ Hv) as (data & Hd & Hun);
  rewrite Heq in Hd; unfold body_of in Hd; rewrite DecodeString_EncodeToString in Hd; injection Hd as <-;
  rewrite Forall_forall in Hok; specialize (Hok _ Hm);
  rewrite json_inverse in Hun by exact Hok; injection Hun as <-; exact Hm.

Section verified.
Context (log : list minted) (token : string).
Hypothesis log_ok : Forall minted_ok log.

Lemma verified_login st :
  unforged (A := loginState) log purposeLogin token → verify (Key cfg) purposeLogin token = Some st → MLogin st ∈ log.
Proof using log_ok. intros Hu Hv. minted_by log_ok Hu Hv. Qed.
Lemma verified_flow flow :
  unforged (A := flowCookie) log purposeFlow token → verify (Key cfg) purposeFlow token = Some flow → MFlow flow ∈ log.
Proof using log_ok. intros Hu Hv. minted_by log_ok Hu Hv. Qed.
Lemma verified_code code :
  unforged (A := loginCode) log purposeCode token → verify (Key cfg) purposeCode token = Some code → MCode code ∈ log.
Proof using log_ok. intros Hu Hv. minted_by log_ok Hu Hv. Qed.
Lemma verified_session sess :
  unforged (A := session) log purposeSession token → verify (Key cfg) purposeSession token = Some sess → MSession sess ∈ log.
Proof using log_ok. intros Hu Hv. minted_by log_ok Hu Hv. Qed.
End verified.

(** What happened, when. [EvVisited]: a visit to the host without a session was
sent to the login host. [EvAsked]: the login host sent the browser of such a
visit to a provider; the rule is that of the tunnel at the host. [EvVouched]:
the provider answered with an email (and says whether it is verified) for that
browser. [EvFinished]: the tunnel host took a login code (the clock was read
twice). *)
Inductive event :=
| EvVisited (host : string) (at_ : Z)
| EvAsked (host : string) (rule : OIDCRule) (at_ : Z)
| EvVouched (provider host email : string) (verified : option bool) (at_ : Z)
| EvFinished (host : string) (at_ later : Z).

Record world := mkWorld { svc : Service; log : list minted; history : list event }.

(** A request at a tunnel host, at the login host, and back from the provider. *)
Definition authorize_mints (rule : OIDCRule) (r : Request) (now later : Z) (s : Service) : list minted :=
  match (Authorize cfg rule r now later s).2 with
  | ToLogin _ => [MLogin (new_login r now)]
  | LoggedIn _ _ =>
      match verify (Key cfg) purposeCode (Query r "code") with
      | Some code => [MSession (new_session cfg code (normalizeHost (Host r)) later)]
      | None => []
      end
  | _ => []
  end.
Definition authorize_events (rule : OIDCRule) (r : Request) (now later : Z) (s : Service) : list event :=
  match (Authorize cfg rule r now later s).2 with
  | ToLogin _ => [EvVisited (Host r) now]
  | LoggedIn _ _ => [EvFinished (normalizeHost (Host r)) now later]
  | _ => []
  end.
Definition login_mints RuleFor discovered nonce verifier (r : Request) (now : Z) : list (flowCookie * event) :=
  match login cfg RuleFor discovered nonce verifier r now, verify (Key cfg) purposeLogin (Query r "state") with
  | ToProvider _ provider _, Some st =>
      match RuleFor (normalizeHost (lHost st)) with
      | Some rule => [(mkFlow nonce verifier provider st (unix (now + loginTTL)), EvAsked (lHost st) rule now)]
      | None => []
      end
  | _, _ => []
  end.
Definition callback_mints RuleFor discovered exchange id (r : Request) (now : Z) : list (loginCode * event) :=
  match callback cfg RuleFor discovered exchange id r now, c ← Cookie flowCookieKey r; verify (Key cfg) purposeFlow c with
  | ToTunnel _ _, Some flow =>
      match exchange (fProvider flow) (Query r "code") (fVerifier flow) with
      | Identity _ (Some (email, verified)) =>
          [(new_code flow email id now, EvVouched (fProvider flow) (lHost (fLogin flow)) email verified now)]
      | _ => []
      end
  | _, _ => []
  end.

Inductive web_step (w : world) : world → Prop :=
| web_authorize rule r now later :
    (now ≤ later)%Z → unforged (A := loginCode) (log w) purposeCode (Query r "code") →
    (∀ c, Cookie sessionCookie r = Some c → unforged (A := session) (log w) purposeSession c) →
    Forall minted_ok (authorize_mints rule r now later (svc w)) →
    web_step w (mkWorld (Authorize cfg rule r now later (svc w)).1 (authorize_mints rule r now later (svc w) ++ log w)
                 (authorize_events rule r now later (svc w) ++ history w))
| web_login RuleFor discovered nonce verifier r now :
    unforged (A := loginState) (log w) purposeLogin (Query r "state") →
    Forall (λ m, texts_ok m.1) (login_mints RuleFor discovered nonce verifier r now) →
    web_step w (mkWorld (svc w) ((MFlow <$> (login_mints RuleFor discovered nonce verifier r now).*1) ++ log w)
                 ((login_mints RuleFor discovered nonce verifier r now).*2 ++ history w))
| web_callback RuleFor discovered exchange id r now :
    (∀ c, Cookie flowCookieKey r = Some c → unforged (A := flowCookie) (log w) purposeFlow c) →
    Forall (λ m, texts_ok m.1) (callback_mints RuleFor discovered exchange id r now) →
    web_step w (mkWorld (svc w) ((MCode <$> (callback_mints RuleFor discovered exchange id r now).*1) ++ log w)
                 ((callback_mints RuleFor discovered exchange id r now).*2 ++ history w)).

(** [t] is in time for something that happened at [t0] and is good for [ttl];
the code compares whole seconds. *)
Definition in_time (t t0 ttl : Z) : Prop := (unix t ≤ unix (t0 + ttl))%Z.

(** The browser of a visit to the host was sent to the provider of the host's
tunnel, at [t], within ten minutes of the visit. *)
Definition sent (h : list event) (host : string) (rule : OIDCRule) (t : Z) : Prop :=
  ∃ t0, EvVisited host t0 ∈ h ∧ EvAsked host rule t ∈ h ∧ in_time t t0 (10 * minute).

(** That provider vouched for the user, at [t], within ten minutes of that. *)
Definition vouched (h : list event) (host user : string) (t : Z) : Prop :=
  ∃ rule t0 email verified, sent h host rule t0 ∧ EvVouched (Provider rule) host email verified t ∈ h ∧
    in_time t t0 (10 * minute) ∧ user = ToLower email ∧ email ≠ "" ∧ verified ≠ Some false.

(** The user has a session at a host: the login was finished within a minute of
that, and the session made then has not run out. *)
Definition login_done (h : list event) (user host : string) (exp : Z) : Prop :=
  ∃ login_host t t1 t2, vouched h login_host user t ∧ normalizeHost login_host = host ∧
    EvFinished host t1 t2 ∈ h ∧ in_time t1 t minute ∧ (t1 ≤ t2)%Z ∧ exp = unix (t2 + SessionTTL cfg).

Lemma sent_mono h h' host rule t : h ⊆ h' → sent h host rule t → sent h' host rule t.
Proof. intros Hh (t0 & ? & ? & ?). exists t0. by split_and!; [apply Hh..|]. Qed.
Lemma vouched_mono h h' host user t : h ⊆ h' → vouched h host user t → vouched h' host user t.
Proof.
  intros Hh (rule & t0 & email & v & Hs & Hv & Hrest). exists rule, t0, email, v.
  split; [by eapply sent_mono|]. by split; [apply Hh|].
Qed.
Lemma login_done_mono h h' user host exp : h ⊆ h' → login_done h user host exp → login_done h' user host exp.
Proof.
  intros Hh (lh & t & t1 & t2 & Hv & Hn & Hf & Hrest). exists lh, t, t1, t2.
  split; [by eapply vouched_mono|]. split; [done|]. by split; [apply Hh|].
Qed.

(** Where states, flows, codes and sessions come from. *)
Record traced (w : world) : Prop := {
  tr_ok : Forall minted_ok (log w);
  tr_login st : MLogin st ∈ log w → ∃ t, EvVisited (lHost st) t ∈ history w ∧ lExp st = unix (t + 10 * minute);
  tr_flow flow : MFlow flow ∈ log w → ∃ rule t, sent (history w) (lHost (fLogin flow)) rule t ∧
    fProvider flow = Provider rule ∧ fExp flow = unix (t + 10 * minute);
  tr_code code : MCode code ∈ log w → ∃ t, vouched (history w) (cHost code) (cEmail code) t ∧ cExp code = unix (t + minute);
  tr_session sess : MSession sess ∈ log w → login_done (history w) (sEmail sess) (sHost sess) (sExp sess);
}.

(** ** The handlers' outcomes *)

Lemma LoggedIn_inv rule r now later s s' cookie path :
  Authorize cfg rule r now later s = (s', LoggedIn cookie path) →
  ∃ code, verify (Key cfg) purposeCode (Query r "code") = Some code ∧ (unix now ≤ cExp code)%Z ∧
    normalizeHost (cHost code) = normalizeHost (Host r) ∧ Allows rule (cEmail code) = true ∧
    useCode (cID code) (cExp code) later s = (s', true).
Proof.
  unfold Authorize, finishLogin. destruct (String.eqb (Path r) AuthPath).
  - destruct (verify _ _ _) as [code|]; [|done]. unfold expired. destruct (Z.ltb_spec (cExp code) (unix now)); cbn [orb]; [done|].
    destruct (String.eqb_spec (normalizeHost (cHost code)) (normalizeHost (Host r))); cbn [negb]; [|done].
    destruct (useCode _ _ _ _) as [s1 []] eqn:Hu; cbn [negb]; [|done]. destruct (Allows rule (cEmail code)) eqn:Ha; cbn [negb]; [|done].
    intros [= <- _ _]. by exists code.
  - destruct (session_of _ _ _ _); [by destruct (negb _)|]. by destruct (_ && _).
Qed.

Lemma Proceed_inv rule r now later s s' user r' :
  Authorize cfg rule r now later s = (s', Proceed user r') →
  s' = s ∧ r' = stripCookie sessionCookie r ∧ Allows rule user = true ∧
  ∃ c sess, Cookie sessionCookie r = Some c ∧ verify (Key cfg) purposeSession c = Some sess ∧
    sEmail sess = user ∧ sHost sess = normalizeHost (Host r) ∧ (unix now ≤ sExp sess)%Z.
Proof.
  unfold Authorize, finishLogin. destruct (String.eqb (Path r) AuthPath).
  - destruct (verify _ _ _) as [code|]; [|done]. destruct (_ || _); [done|]. destruct (useCode _ _ _ _) as [s1 []]; cbn [negb]; [|done].
    by destruct (negb _).
  - unfold session_of. destruct (Cookie sessionCookie r) as [c|]; cbn [mbind option_bind]; [|by destruct (_ && _)].
    destruct (verify _ _ c) as [sess|] eqn:Hv; cbn [mbind option_bind]; [|by destruct (_ && _)]. unfold expired.
    destruct (Z.ltb_spec (sExp sess) (unix now)); cbn [orb]; [by destruct (_ && _)|].
    destruct (String.eqb_spec (sHost sess) (normalizeHost (Host r))); cbn [negb]; [|by destruct (_ && _)].
    destruct (Allows rule (sEmail sess)) eqn:Ha; cbn [negb]; [|done]. intros [= <- <- <-]. split_and!; [done..|]. by exists c, sess.
Qed.

Lemma login_mints_inv RuleFor discovered nonce verifier r now flow ev :
  (flow, ev) ∈ login_mints RuleFor discovered nonce verifier r now →
  ∃ st rule, verify (Key cfg) purposeLogin (Query r "state") = Some st ∧ (unix now ≤ lExp st)%Z ∧
    flow = mkFlow nonce verifier (Provider rule) st (unix (now + 10 * minute)) ∧ ev = EvAsked (lHost st) rule now.
Proof.
  unfold login_mints, login, expired, ruleFor. destruct (verify _ _ _) as [st|]; [|by intros ?%elem_of_nil].
  destruct (Z.ltb_spec (lExp st) (unix now)); [by intros ?%elem_of_nil|].
  destruct (RuleFor _) as [rule|] eqn:Hr; [|by intros ?%elem_of_nil].
  destruct (negb _); [by intros ?%elem_of_nil|]. intros [= -> ->]%list_elem_of_singleton. by exists st, rule.
Qed.

Lemma callback_mints_inv RuleFor discovered exchange id r now code ev :
  (code, ev) ∈ callback_mints RuleFor discovered exchange id r now →
  ∃ c flow email v, Cookie flowCookieKey r = Some c ∧ verify (Key cfg) purposeFlow c = Some flow ∧ (unix now ≤ fExp flow)%Z ∧
    email ≠ "" ∧ v ≠ Some false ∧
    code = mkCode (ToLower email) (lHost (fLogin flow)) (lPath (fLogin flow)) id (unix (now + minute)) ∧
    ev = EvVouched (fProvider flow) (lHost (fLogin flow)) email v now.
Proof.
  unfold callback_mints, callback, expired. destruct (Cookie flowCookieKey r) as [c|]; cbn [mbind option_bind]; [|by intros ?%elem_of_nil].
  destruct (verify _ _ c) as [flow|] eqn:Hv; [|by intros ?%elem_of_nil].
  destruct (Z.ltb_spec (fExp flow) (unix now)); [by intros ?%elem_of_nil|].
  do 3 (destruct (negb _); [by intros ?%elem_of_nil|]).
  destruct (exchange _ _ _) as [| | |nonce [[email v]|]]; try by intros ?%elem_of_nil.
  2:{ destruct (negb _); by intros ?%elem_of_nil. }
  destruct (negb (String.eqb nonce _)); [by intros ?%elem_of_nil|].
  destruct (String.eqb email "" || _) eqn:He; [by intros ?%elem_of_nil|].
  apply orb_false_iff in He as [He%String.eqb_neq Hver].
  destruct (ruleFor _ _); [|by intros ?%elem_of_nil].
  intros [= -> ->]%list_elem_of_singleton. exists c, flow, email, v. split_and!; try done. by destruct v as [[]|].
Qed.

Lemma authorize_mints_inv rule r now later s m :
  m ∈ authorize_mints rule r now later s →
  (m = MLogin (mkLogin (Host r) (RequestURI r) (unix (now + 10 * minute))) ∧
   EvVisited (Host r) now ∈ authorize_events rule r now later s) ∨
  ∃ code, verify (Key cfg) purposeCode (Query r "code") = Some code ∧ (unix now ≤ cExp code)%Z ∧
    normalizeHost (cHost code) = normalizeHost (Host r) ∧
    m = MSession (mkSession (cEmail code) (normalizeHost (Host r)) (unix (later + SessionTTL cfg))) ∧
    EvFinished (normalizeHost (Host r)) now later ∈ authorize_events rule r now later s.
Proof.
  unfold authorize_mints, authorize_events. destruct (Authorize _ _ _ _ _ _) as [s' o] eqn:Ha. cbn [snd].
  destruct o; try by intros ?%elem_of_nil.
  - intros ->%list_elem_of_singleton. left. split; [done|by left].
  - apply LoggedIn_inv in Ha as (code & Hv & He & Hh & _). rewrite Hv. intros ->%list_elem_of_singleton. right. exists code.
    split_and!; try done. by left.
Qed.

(** More is signed, for a reason. *)
Lemma traced_extend w s new newh :
  traced w → Forall minted_ok new →
  let h := newh ++ history w in
  (∀ st, MLogin st ∈ new → ∃ t, EvVisited (lHost st) t ∈ h ∧ lExp st = unix (t + 10 * minute)) →
  (∀ flow, MFlow flow ∈ new → ∃ rule t, sent h (lHost (fLogin flow)) rule t ∧
     fProvider flow = Provider rule ∧ fExp flow = unix (t + 10 * minute)) →
  (∀ code, MCode code ∈ new → ∃ t, vouched h (cHost code) (cEmail code) t ∧ cExp code = unix (t + minute)) →
  (∀ sess, MSession sess ∈ new → login_done h (sEmail sess) (sHost sess) (sExp sess)) →
  traced (mkWorld s (new ++ log w) h).
Proof.
  intros [Hok Hlogin Hflow Hcode Hsess] Hnew h Hnl Hnf Hnc Hns.
  assert (history w ⊆ h) as Hh by (intros x ?; apply elem_of_app; by right).
  split; cbn [log history].
  - by apply Forall_app.
  - intros st [?|(t & ? & ?)%Hlogin]%elem_of_app; [by apply Hnl|]. exists t. split; [by apply Hh|done].
  - intros flow [?|(rule & t & Hs & ? & ?)%Hflow]%elem_of_app; [by apply Hnf|]. exists rule, t. by split; [eapply sent_mono|].
  - intros code [?|(t & Hv & ?)%Hcode]%elem_of_app; [by apply Hnc|]. exists t. by split; [eapply vouched_mono|].
  - intros sess [?|Hd%Hsess]%elem_of_app; [by apply Hns|]. by eapply login_done_mono.
Qed.

Lemma step_authorize_traced w rule r now later :
  (now ≤ later)%Z → unforged (A := loginCode) (log w) purposeCode (Query r "code") →
  Forall minted_ok (authorize_mints rule r now later (svc w)) → traced w →
  traced (mkWorld (Authorize cfg rule r now later (svc w)).1 (authorize_mints rule r now later (svc w) ++ log w)
            (authorize_events rule r now later (svc w) ++ history w)).
Proof.
  intros Hle Huc Hm Htr. apply traced_extend; [done|done|..].
  - intros st Hin. apply authorize_mints_inv in Hin as [[[= ->] He]|(? & _ & _ & _ & ? & _)]; [|done].
    exists now. split; [apply elem_of_app; by left|done].
  - intros flow Hin. by apply authorize_mints_inv in Hin as [[? _]|(? & _ & _ & _ & ? & _)].
  - intros code Hin. by apply authorize_mints_inv in Hin as [[? _]|(? & _ & _ & _ & ? & _)].
  - intros sess Hin. apply authorize_mints_inv in Hin as [[? _]|(code & Hv & He & Hh & [= ->] & Hev)]; [done|].
    destruct (tr_code _ Htr code) as (t & Hvo & Hexp); [by eapply verified_code; [apply Htr|..]|].
    exists (cHost code), t, now, later. cbn [sEmail sHost sExp]. rewrite Hexp in He.
    split_and!; [|done|apply elem_of_app; by left|done..]. eapply vouched_mono; [|exact Hvo]. intros x ?. apply elem_of_app. by right.
Qed.

Lemma web_step_traced w w' : web_step w w' → traced w → traced w'.
Proof.
  intros Hstep Htr. pose proof (tr_ok _ Htr) as Hok.
  destruct Hstep as [rule r now later Hle Huc Hus Hm|RuleFor discovered nonce verifier r now Hu Hm|RuleFor discovered exchange id r now Hu Hm].
  - by apply step_authorize_traced.
  - apply traced_extend; [done|by apply Forall_fmap, Forall_fmap|by intros ? (? & ? & _)%list_elem_of_fmap|
      |by intros ? (? & ? & _)%list_elem_of_fmap..].
    intros flow (f & [= <-] & ([f' ev] & -> & Hin)%list_elem_of_fmap)%list_elem_of_fmap. cbn [fst].
    destruct (login_mints_inv _ _ _ _ _ _ _ _ Hin) as (st & rule & Hv & Hexp & -> & ->). exists rule, now. split; [|done].
    destruct (tr_login _ Htr st) as (t0 & Hvis & He0); [by eapply verified_login|]. exists t0. rewrite He0 in Hexp.
    split_and!; [apply elem_of_app; by right| |done]. apply elem_of_app. left. apply list_elem_of_fmap. by eexists (_, _).
  - apply traced_extend; [done|by apply Forall_fmap, Forall_fmap|by intros ? (? & ? & _)%list_elem_of_fmap..| |
      by intros ? (? & ? & _)%list_elem_of_fmap].
    intros code (c & [= <-] & ([c' ev] & -> & Hin)%list_elem_of_fmap)%list_elem_of_fmap. cbn [fst].
    destruct (callback_mints_inv _ _ _ _ _ _ _ _ Hin) as (ck & flow & email & v & Hck & Hv & Hexp & Hne & Hver & -> & ->).
    exists now. split; [|done]. cbn [cHost cEmail].
    destruct (tr_flow _ Htr flow) as (rule & t0 & Hs & Hp & He0); [by eapply verified_flow; [done|by apply Hu|]|].
    rewrite He0 in Hexp. exists rule, t0, email, v. split_and!; try done.
    + eapply sent_mono; [|exact Hs]. intros x ?. apply elem_of_app. by right.
    + rewrite <-Hp. apply elem_of_app. left. apply list_elem_of_fmap. by eexists (_, _).
Qed.

Definition start : world := mkWorld NewService [] [].

Lemma reachable_traced w : rtc web_step start w → traced w.
Proof.
  intros Hr. assert (traced start) as Hs by (split; cbn; [constructor|by intros ? ?%elem_of_nil..]).
  revert Hs. induction Hr; eauto using web_step_traced.
Qed.

(** The user has a session at a host that has not run out. *)
Definition logged_in (w : world) (user host : string) (now : Z) : Prop :=
  ∃ exp, login_done (history w) user host exp ∧ (unix now ≤ exp)%Z.

Lemma proceed_logged_in w rule r now later s' user r' :
  rtc web_step start w → (∀ c, Cookie sessionCookie r = Some c → unforged (A := session) (log w) purposeSession c) →
  Authorize cfg rule r now later (svc w) = (s', Proceed user r') →
  Allows rule user = true ∧ r' = stripCookie sessionCookie r ∧ logged_in w user (normalizeHost (Host r)) now.
Proof.
  intros Hw Hu Ha. apply Proceed_inv in Ha as (_ & -> & Hallow & c & sess & Hc & Hv & He & Hh & Hexp).
  destruct (reachable_traced w Hw) as [Hok _ _ _ Hsess]. split; [done|]. split; [done|].
  exists (sExp sess). rewrite <-He, <-Hh. split; [|done]. apply Hsess. by eapply verified_session; [done|by apply Hu|].
Qed.

Lemma strip_Cookie name r : Cookie name (stripCookie name r) = None.
Proof.
  unfold Cookie, stripCookie. cbn. destruct (List.find _ _) as [p|] eqn:Hf; [|done].
  apply List.find_some in Hf as [[_ Hn]%list_elem_of_In%elem_of_filterb Hp]. by rewrite Hp in Hn.
Qed.

(** C31: who passes the login. With no forged signature, a request let through
to a protected tunnel carries the session of an email that the tunnel's rule
allows, and this is how it came about: a visit to that very host was sent to
the login host; at most ten minutes later the browser was sent to the provider
that the rule of the host's tunnel named then; at most ten minutes later that
provider vouched for the email (not one it says is unverified); at most a
minute later the host took the login code; and the session made then has not
run out. The session cookie is not passed on to the tunnel's service. *)
Theorem proceed_is_a_login w rule r now later s' user r' :
  rtc web_step start w → (∀ c, Cookie sessionCookie r = Some c → unforged (A := session) (log w) purposeSession c) →
  Authorize cfg rule r now later (svc w) = (s', Proceed user r') →
  Allows rule user = true ∧ Cookie sessionCookie r' = None ∧ logged_in w user (normalizeHost (Host r)) now.
Proof.
  intros Hw Hu Ha. destruct (proceed_logged_in _ _ _ _ _ _ _ _ Hw Hu Ha) as (? & -> & ?).
  split_and!; [done|apply strip_Cookie|done].
Qed.

(** ** Login codes *)

Record use := mkUse { uID : string; uExp : Z; uTime : Z }.
Definition run_use (s : Service) (u : use) : Service := (useCode (uID u) (uExp u) (uTime u) s).1.

Lemma useCode_keeps id exp u t s :
  usedCodes s !! id = Some exp → (unix t ≤ exp)%Z → (uTime u ≤ t)%Z →
  usedCodes (run_use s u) !! id = Some exp ∧ (id = uID u → (useCode (uID u) (uExp u) (uTime u) s).2 = false).
Proof.
  intros Hid Hexp Hle. pose proof (unix_mono _ _ Hle) as Hu. unfold run_use, useCode. cbn [usedCodes].
  set (m := filter _ (usedCodes s)). assert (m !! id = Some exp) as Hm.
  { apply map_lookup_filter_Some. split; [done|lia]. }
  change (usedCodes (s <| usedCodes := m |>)) with m.
  destruct (bool_decide (is_Some (m !! uID u)) || String.eqb (uID u) "") eqn:Hb; cbn [fst snd]; [done|].
  apply orb_false_iff in Hb as [Hb%bool_decide_eq_false_1 _]. assert (id ≠ uID u) by (intros Heq; apply Hb; rewrite <-Heq; eauto).
  split; [|done]. cbn. by rewrite lookup_insert_ne.
Qed.

(** a login code is good once. After it was accepted, it is refused at
every time up to its expiry, whatever other codes are used in between; so no
second session comes of it. *)
Theorem code_good_once id exp t1 t2 exp' s s1 between :
  useCode id exp t1 s = (s1, true) → Forall (λ u, uTime u ≤ t2)%Z between → (unix t2 ≤ exp)%Z →
  (useCode id exp' t2 (foldl run_use s1 between)).2 = false.
Proof.
  intros Hu Hb Hexp. assert (usedCodes s1 !! id = Some exp) as H1.
  { unfold useCode in Hu. destruct (_ || _); [done|]. injection Hu as <-. cbn. apply lookup_insert_eq. }
  assert (usedCodes (foldl run_use s1 between) !! id = Some exp) as H2.
  { rewrite Forall_forall in Hb. apply foldl_inv; [done|]. intros s2 u Hin Hs2.
    exact (proj1 (useCode_keeps id exp u t2 s2 Hs2 Hexp (Hb u Hin))). }
  exact (proj2 (useCode_keeps id exp (mkUse id exp' t2) t2 _ H2 Hexp (Z.le_refl _)) eq_refl).
Qed.

(** ** A login from start to end *)

Definition with_cookie (name value : string) (r : Request) : Request := r <| Cookies := (name, value) :: Cookies r |>.

Section login.
Context (RuleFor : string → option OIDCRule) (rule : OIDCRule) (visit : Request) (nonce verifier id email : string).
Context (discovered : string → bool) (exchange : string → string → string → answer) (verified : option bool).
#[local] Abbreviation host := (normalizeHost (Host visit)).

(** When the visit is made, the login host is reached, the provider has answered
and the login is finished (the clock is read twice). *)
Context (t0 t1 t2 t3 t4 : Z).
Hypothesis reached : (t1 ≤ t0 + 10 * minute)%Z.
Hypothesis vouched_for : (t2 ≤ t1 + 10 * minute)%Z.
Hypothesis finished : (t3 ≤ t2 + minute)%Z.

Hypothesis rule_of_host : RuleFor host = Some rule.
Hypothesis provider_up : oauthConfig cfg discovered (Provider rule) = true.
Hypothesis allowed : Allows rule (ToLower email) = true.
Hypothesis email_verified : email ≠ "" ∧ verified ≠ Some false.
Hypothesis id_given : id ≠ "".
Hypothesis answered : ∀ code, exchange (Provider rule) code verifier = Identity nonce (Some (email, verified)).

(** The browser is sent to the login host, to the provider, back to the login
host, to the tunnel host with a code, gets its session and is let through. *)
Definition login_payload_of : loginState := mkLogin (Host visit) (RequestURI visit) (unix (t0 + loginTTL)).
Definition flow_payload_of : flowCookie := mkFlow nonce verifier (Provider rule) login_payload_of (unix (t1 + loginTTL)).
Definition code_payload_of : loginCode := mkCode (ToLower email) (Host visit) (RequestURI visit) id (unix (t2 + codeTTL)).
Definition session_payload_of : session := mkSession (ToLower email) host (unix (t4 + SessionTTL cfg)).
Definition state_token : string := sign (Key cfg) purposeLogin login_payload_of.
Definition flow_token : string := sign (Key cfg) purposeFlow flow_payload_of.
Definition code_token : string := sign (Key cfg) purposeCode code_payload_of.
Definition session_token : string := sign (Key cfg) purposeSession session_payload_of.

Hypothesis texts :
  texts_ok login_payload_of ∧ texts_ok flow_payload_of ∧ texts_ok code_payload_of ∧ texts_ok session_payload_of.

Lemma not_expired a b ttl : (b ≤ a + ttl)%Z → expired (unix (a + ttl)) b = false.
Proof using Type. intros Hle. unfold expired. by apply Z.ltb_ge, unix_mono. Qed.

(** C32: logging in works. A browser without a session follows the redirects:
to the login host, within ten minutes, to the provider, which within ten
minutes vouches for an email the rule allows, to the login host again and,
within a minute, to the tunnel host. It gets a session cookie with which its
requests to that host pass as that email until the session's end, and lands on
the page it asked for (when that is a path of the host). *)
Theorem login_succeeds s s1 :
  Path visit ≠ AuthPath → Method visit = "GET" → session_of cfg visit host t0 = None →
  Authorize cfg rule visit t0 t0 s = (s, ToLogin state_token) ∧
  (∀ r, Query r "state" = state_token →
     login cfg RuleFor discovered nonce verifier r t1 = ToProvider flow_token (Provider rule) nonce) ∧
  (∀ r, Cookie flowCookieKey r = Some flow_token → Query r "state" = nonce → Query r "error" = "" →
     callback cfg RuleFor discovered exchange id r t2 = ToTunnel (Host visit) code_token) ∧
  (∀ r, Host r = Host visit → Path r = AuthPath → Query r "code" = code_token → usedCodes s1 !! id = None →
     (Authorize cfg rule r t3 t4 s1).2 = LoggedIn session_token (safePath (RequestURI visit))) ∧
  (∀ r now later s2, Host r = Host visit → Path r ≠ AuthPath → Cookie sessionCookie r = Some session_token →
     (now ≤ t4 + SessionTTL cfg)%Z →
     Authorize cfg rule r now later s2 = (s2, Proceed (ToLower email) (stripCookie sessionCookie r))).
Proof using All.
  intros Hpath Hget Hnone. destruct texts as (Ht1 & Ht2 & Ht3 & Ht4). split_and!.
  - unfold Authorize. rewrite (proj2 (String.eqb_neq _ _) Hpath), Hnone, Hget. done.
  - intros r Hq. unfold login. rewrite Hq. unfold state_token. rewrite verify_sign by done. cbn [lExp lHost login_payload_of].
    rewrite (not_expired t0 t1 loginTTL) by done. unfold ruleFor. rewrite rule_of_host, provider_up. done.
  - intros r Hc Hq He. unfold callback. rewrite Hc. cbn [mbind option_bind]. unfold flow_token.
    rewrite verify_sign by done. cbn [fExp fNonce fProvider fVerifier fLogin lHost lPath flow_payload_of login_payload_of].
    rewrite (not_expired t1 t2 loginTTL), Hq, He, String.eqb_refl, provider_up by done. cbn [negb String.eqb].
    rewrite answered, String.eqb_refl. cbn [negb].
    destruct email_verified as [Hne Hver]. rewrite (proj2 (String.eqb_neq _ _) Hne). cbn [orb].
    destruct verified as [[]|]; [|done|]; cbn [negb]; unfold ruleFor; rewrite rule_of_host; done.
  - intros r Hh Hp Hq Hunused. unfold Authorize, finishLogin. rewrite Hp, String.eqb_refl, Hq. unfold code_token.
    rewrite verify_sign by done. cbn [cExp cHost cEmail cID cPath code_payload_of].
    rewrite (not_expired t2 t3 codeTTL), Hh, String.eqb_refl by done. cbn [negb orb].
    unfold useCode. cbn [usedCodes set_field]. rewrite bool_decide_eq_false_2.
    2: { intros [x [Hx _]%map_lookup_filter_Some]. congruence. }
    rewrite (proj2 (String.eqb_neq _ _) id_given). cbn [orb negb snd]. rewrite allowed. done.
  - intros r now later s2 Hh Hp Hc Hnow. unfold Authorize. rewrite (proj2 (String.eqb_neq _ _) Hp). unfold session_of. rewrite Hc.
    cbn [mbind option_bind]. unfold session_token. rewrite verify_sign by done.
    cbn [mbind option_bind sExp sHost sEmail session_payload_of].
    rewrite (not_expired t4 now), Hh, String.eqb_refl by done. cbn [negb orb sEmail session_payload_of]. by rewrite allowed.
Qed.
End login.
End spec.

(** ** Witnesses *)

(** A digest of 32 bytes and payload texts that can be read back. *)
Fixpoint bits (p : positive) : string :=
  match p with xH => "" | xO p => String "0" (bits p) | xI p => String "1" (bits p) end.
Fixpoint unbits (s : string) : positive :=
  match s with "" => xH | String c s => if Ascii.eqb c "0" then xO (unbits s) else xI (unbits s) end.
Lemma unbits_bits p : unbits (bits p) = p.
Proof. induction p as [p IH|p IH|]; cbn; by rewrite ?IH. Qed.

Program Definition bits_payload (A : Type) `{Countable A} : Payload A := {|
  marshal a := bits (encode a); unmarshal s := decode (unbits s); texts_ok _ := True
|}.
Next Obligation. intros A ? ? a _. cbv beta. by rewrite unbits_bits, decode_encode. Qed.

#[local] Instance login_eq_dec : EqDecision loginState. Proof. solve_decision. Defined.
#[local] Instance flow_eq_dec : EqDecision flowCookie. Proof. solve_decision. Defined.
#[local] Instance code_eq_dec : EqDecision loginCode. Proof. solve_decision. Defined.
#[local] Instance session_eq_dec : EqDecision session. Proof. solve_decision. Defined.
#[local] Program Instance login_countable : Countable loginState :=
  inj_countable' (λ v, (lHost v, lPath v, lExp v)) (λ '(a, b, c), mkLogin a b c) _.
Next Obligation. by intros []. Qed.
#[local] Program Instance flow_countable : Countable flowCookie :=
  inj_countable' (λ v, (fNonce v, fVerifier v, fProvider v, fLogin v, fExp v)) (λ '(a, b, c, d, e), mkFlow a b c d e) _.
Next Obligation. by intros []. Qed.
#[local] Program Instance code_countable : Countable loginCode :=
  inj_countable' (λ v, (cEmail v, cHost v, cPath v, cID v, cExp v)) (λ '(a, b, c, d, e), mkCode a b c d e) _.
Next Obligation. by intros []. Qed.
#[local] Program Instance session_countable : Countable session :=
  inj_countable' (λ v, (sEmail v, sHost v, sExp v)) (λ '(a, b, c), mkSession a b c) _.
Next Obligation. by intros []. Qed.
Definition login_payload : Payload loginState := bits_payload loginState.
Definition flow_payload : Payload flowCookie := bits_payload flowCookie.
Definition code_payload : Payload loginCode := bits_payload loginCode.
Definition session_payload : Payload session := bits_payload session.
#[local] Existing Instances login_payload flow_payload code_payload session_payload.
#[local] Existing Instance SignSample.toy.
#[local] Existing Instance ascii_only.

Module LoginSample.
Definition cfg : Config := mkOidcConfig "auth.t" {["idp"]} (60 * minute) "k".
Definition rule : OIDCRule := mkRule "idp" {["a@b"]} ∅.
Definition RuleFor (h : string) : option OIDCRule := if String.eqb h "w.t" then Some rule else None.
Definition exchange (p c v : string) : answer := Identity "n" (Some ("A@b", Some true)).
(* a visit, at the login host four minutes later, back from the provider after
eight more, at the tunnel host half a minute later *)
Definition t0 : Z := (1000 * second)%Z.
Definition t1 : Z := (t0 + 4 * minute)%Z.
Definition t2 : Z := (t1 + 8 * minute)%Z.
Definition t3 : Z := (t2 + 30 * second)%Z.
Definition t4 : Z := (t3 + 1)%Z.
Definition get (path : string) (cookies : list (string * string)) (key value : string) : Request :=
  mkRequest "W.t" path "/x" "GET" cookies (λ k, if String.eqb k key then value else "").

Definition visit : Request := get "/x" [] "" "".
Definition w1 : world := mkWorld (Authorize cfg rule visit t0 t0 NewService).1
  (authorize_mints cfg rule visit t0 t0 NewService ++ []) (authorize_events cfg rule visit t0 t0 NewService ++ []).
Definition at_login : Request := get "/login" [] "state" (state_token cfg visit t0).
Definition m2 := login_mints cfg RuleFor (λ _, true) "n" "v" at_login t1.
Definition w2 : world := mkWorld (svc w1) ((MFlow <$> m2.*1) ++ log w1) (m2.*2 ++ history w1).
Definition back : Request :=
  get "/callback" [(flowCookieKey, flow_token cfg rule visit "n" "v" t0 t1)] "state" "n".
Definition m3 := callback_mints cfg RuleFor (λ _, true) exchange "i" back t2.
Definition w3 : world := mkWorld (svc w2) ((MCode <$> m3.*1) ++ log w2) (m3.*2 ++ history w2).
Definition finish : Request := get AuthPath [] "code" (code_token cfg visit "i" "A@b" t2).
Definition w4 : world :=
  mkWorld (Authorize cfg rule finish t3 t4 (svc w3)).1 (authorize_mints cfg rule finish t3 t4 (svc w3) ++ log w3)
    (authorize_events cfg rule finish t3 t4 (svc w3) ++ history w3).
Definition again : Request := get "/x" [(sessionCookie, session_token cfg visit "A@b" t4)] "" "".
Definition now : Z := (t4 + 59 * minute)%Z.

Ltac genuine := intros _; apply (bool_decide_unpack _); vm_compute; exact I.

Lemma w4_reachable : rtc (web_step cfg) start w4.
Proof.
  apply (rtc_l _ _ w1).
  { apply (web_authorize cfg start rule visit t0 t0); [done|by intros [? ?]|done|]. vm_compute. by repeat constructor. }
  apply (rtc_l _ _ w2).
  { apply (web_login cfg w1 RuleFor (λ _, true) "n" "v" at_login t1); [genuine|]. vm_compute. by repeat constructor. }
  apply (rtc_l _ _ w3).
  { apply (web_callback cfg w2 RuleFor (λ _, true) exchange "i" back t2); [|vm_compute; by repeat constructor].
    intros c [= <-]. genuine. }
  apply rtc_once. apply (web_authorize cfg w3 rule finish t3 t4); [done|genuine|done|]. vm_compute. by repeat constructor.
Defined.
End LoginSample.
Import LoginSample.

Lemma proceed_is_a_login_witness :
  (Authorize cfg rule again now now (svc w4)).2 = Proceed "a@b" (stripCookie sessionCookie again) ∧
  logged_in cfg w4 "a@b" "w.t" now.
Proof.
  destruct (Authorize cfg rule again now now (svc w4)) as [s' o] eqn:Ha.
  assert (o = Proceed "a@b" (stripCookie sessionCookie again)) as -> by (vm_compute in Ha; by injection Ha as _ <-).
  split; [reflexivity|].
  destruct (proceed_is_a_login cfg w4 rule again now now s' "a@b" (stripCookie sessionCookie again) w4_reachable)
    as (_ & _ & Hlog); [intros c [= <-]; genuine|exact Ha|exact Hlog].
Defined.

Lemma code_good_once_witness :
  let s1 := (useCode "i" 100 (50 * second) NewService).1 in
  (useCode "i" 100 (99 * second) (foldl run_use s1 [mkUse "j" 60 (70 * second)])).2 = false.
Proof.
  apply (code_good_once "i" 100 (50 * second) (99 * second) 100 NewService _ [mkUse "j" 60 (70 * second)]);
    [vm_compute; reflexivity|repeat constructor; vm_compute; discriminate|vm_compute; discriminate].
Defined.

Lemma login_succeeds_witness :
  (Authorize cfg rule finish t3 t4 NewService).2 = LoggedIn (session_token cfg visit "A@b" t4) "/x".
Proof.
  unshelve epose proof (login_succeeds cfg RuleFor rule visit "n" "v" "i" "A@b" (λ _, true) exchange (Some true) t0 t1 t2 t3 t4
    _ _ _ _ _ _ _ _ _ _ NewService NewService _ _ _) as (_ & _ & _ & Hfin & _); [..|by apply Hfin].
  all: try done; vm_compute; try reflexivity; congruence.
Defined.

(** The clock is read again when a used code is looked up: at the turn of the
second it expires in, a code that was used is accepted again. *)
Lemma code_replayed_at_expiry :
  let s1 := (useCode "i" 100 (50 * second) NewService).1 in
  expired 100 (100 * second + 999999999) = false ∧ (useCode "i" 100 (101 * second) s1).2 = true.
Proof. split; vm_compute; reflexivity. Qed.
