(* ===== verification/HttpProxy.v ===== *)
(** * The HTTP proxy (go/tunnel/httpproxy/proxy.go)

Termination mode: each request of a connection whose TLS the relay (or the
edge) terminated is routed by its Host header. The proxy knows its tunnels
through the class [HTTPHost], which the relay implements; requests are passed
on by net/http's reverse proxy, so [Proxied] is the end of the story here. *)

From Stdlib Require Import QArith.
From S2P Require Import Prelude GoStrings Base64 NetIP Transport Protocol Policy Access Limiter NameRegistry RelayTunnels.
From S2P Require Import RelayServe RelayServeSpec Oidc OidcSpec.
From stdpp Require Import options.
#[local] Open Scope l8_scope.

(** What the proxy asks of the program it is part of: [LookupFunc] and the
interfaces [Tunnel] and [Balancer]. [PutAccess] is the effect of a check on
the policy's cache; [PickBackend] is [None] for a tunnel that is no balancer. *)
Class HTTPHost (S T : Type) := {
  Lookup : S → string → option T * State * string;
  AccessOf : S → T → Access;
  PutAccess : T → Access → S → S;
  PickBackend : T → Addr → S → option (S * option string);
  lookup_active s h t st n : Lookup s h = (t, st, n) → is_Some t ↔ st = StateActive;
}.

(** A request, as net/http parsed it: the client's address ([None]: it did not
parse), the TLS server name, and the headers the proxy looks at. *)
Record HTTPRequest := mkHTTP {
  web : Request;
  RemoteAddr : option Addr;
  SNI : option string;
  UserHdr : option string;
  Authorization : option string;
}.
#[export] Instance eta_http : Eta HTTPRequest := λ r,
  mkHTTP (web r) (RemoteAddr r) (SNI r) (UserHdr r) (Authorization r).

Inductive herr :=
| errMisdirected | errUnknownHost | errUnknownTunnel | errIPDenied | errUnauthorized | errNoLogin | errUnavailable | errAgentOffline.

Inductive response {T : Type} :=
| HError (e : herr)
| HLogin (o : outcome)                                   (* the login service answered *)
| HAuthHost                                              (* a request for the login host itself *)
| HProxied (t : T) (backend : option string) (r : HTTPRequest).
Arguments response : clear implicits.

Section proxy.
Context `{GoUnicode, Crypto, HMAC, !Payload loginState, !Payload flowCookie, !Payload loginCode, !Payload session}.
Context {S T : Type} `{!HTTPHost S T}.
(** [BasicAuth] is net/http's reading of an Authorization header. *)
Context (Login : option Config) (BasicAuth : string → option (string * string)).

(** The state: the tunnels' program and the login service. *)
Definition authorize (t : T) (r : HTTPRequest) (now later : Z) (s : S) (l : Service) : S * Service * (HTTPRequest + response T) :=
  let access := AccessOf s t in
  let r := r <| UserHdr := None |> in
  if negb (if RemoteAddr r is Some ip then AllowsIP access ip else false) then (s, l, inr (HError errIPDenied))
  else
    let '(s, basic) :=
      if RequiresBasic access then
        match Authorization r ≫= BasicAuth with
        | None => (s, None)
        | Some (user, password) =>
            let '(access, ok) := CheckBasic now user password access in
            (PutAccess t access s, if ok then Some (r <| Authorization := None |>) else None)
        end
      else (s, Some r) in
    match basic with
    | None => (s, l, inr (HError errUnauthorized))
    | Some r =>
        match oidc access with
        | None => (s, l, inl r)
        | Some rule =>
            match Login with
            | None => (s, l, inr (HError errNoLogin))
            | Some cfg =>
                let '(l, o) := Authorize cfg rule (web r) now later l in
                (s, l, match o with
                       | Proceed user w => inl (r <| web := w |> <| UserHdr := Some user |>)
                       | o => inr (HLogin o)
                       end)
            end
        end
    end.

Definition ServeHTTP (r : HTTPRequest) (now later : Z) (s : S) (l : Service) : S * Service * response T :=
  let host := normalizeHost (Host (web r)) in
  if (if Login is Some cfg then String.eqb host (AuthHost cfg) else false) then
    (s, l, if (if SNI r is Some n then negb (String.eqb (normalizeHost n) host) else false)
           then HError errMisdirected else HAuthHost)
  else
    let '(tun, state, name) := Lookup s host in
    if String.eqb name "" then (s, l, HError errUnknownHost)
    else if (if SNI r is Some n then let '(_, _, sniName) := Lookup s (normalizeHost n) in negb (String.eqb sniName name) else false)
    then (s, l, HError errMisdirected)
    else match state, tun with
    | StateActive, Some t =>
        let '(s, l, out) := authorize t r now later s l in
        match out with
        | inr resp => (s, l, resp)
        | inl r' =>
            match (ip ← RemoteAddr r; PickBackend t ip s) with
            | None => (s, l, HProxied t None r')
            | Some (s, None) => (s, l, HError errUnavailable)
            | Some (s, Some b) => (s, l, HProxied t (Some b) r')
            end
        end
    | StateOffline, _ => (s, l, HError errAgentOffline)
    | _, _ => (s, l, HError errUnknownTunnel)
    end.
End proxy.

(** ** Theorems *)

Section spec.
Context `{GoUnicode, Crypto, HMAC, !Payload loginState, !Payload flowCookie, !Payload loginCode, !Payload session}.
Context {S T : Type} `{!HTTPHost S T}.
Context (Login : option Config) (BasicAuth : string → option (string * string)).

(** What a request that passes the policy of a tunnel went through, and what
is passed on. *)
Record passed (a : Access) (r r' : HTTPRequest) (now later : Z) (l : Service) : Prop := {
  pa_ip : ∃ ip, RemoteAddr r = Some ip ∧ AllowsIP a ip = true;
  pa_basic : RequiresBasic a = true → Authorization r' = None ∧
    ∃ user password, (Authorization r ≫= BasicAuth) = Some (user, password) ∧ (CheckBasic now user password a).2 = true;
  pa_login : match oidc a with
             | None => UserHdr r' = None ∧ web r' = web r
             | Some rule => ∃ cfg user l', Login = Some cfg ∧ UserHdr r' = Some user ∧
                 Authorize cfg rule (web r) now later l = (l', Proceed user (web r'))
             end;
}.

Lemma authorize_passed t r now later s l s' l' r' :
  authorize Login BasicAuth t r now later s l = (s', l', inl r') → passed (AccessOf s t) r r' now later l.
Proof.
  unfold authorize. set (a := AccessOf s t). cbn [RemoteAddr set_field].
  destruct (RemoteAddr r) as [ip|] eqn:Hip; [|done]. destruct (AllowsIP a ip) eqn:Hallow; cbn [negb]; [|done].
  destruct (RequiresBasic a) eqn:Hreq.
  - cbn [Authorization set_field]. destruct (Authorization r ≫= BasicAuth) as [[user password]|] eqn:Hb; [|done].
    destruct (CheckBasic now user password a) as [a' []] eqn:Hc; [|done].
    destruct (oidc a) as [rule|] eqn:Ho.
    + destruct Login as [cfg|] eqn:Hl; [|done]. cbn [web set_field].
      destruct (Authorize cfg rule (web r) now later l) as [l1 o] eqn:Ha. destruct o; try done. intros [= <- <- <-].
      split; [eauto|intros _; split; [done|by exists user, password; rewrite Hc]|rewrite Ho; eauto 10].
    + intros [= <- <- <-]. split; [eauto|intros _; split; [done|by exists user, password; rewrite Hc]|by rewrite Ho].
  - destruct (oidc a) as [rule|] eqn:Ho.
    + destruct Login as [cfg|] eqn:Hl; [|done]. cbn [web set_field].
      destruct (Authorize cfg rule (web r) now later l) as [l1 o] eqn:Ha. destruct o; try done. intros [= <- <- <-].
      split; [eauto|congruence|rewrite Ho; eauto 10].
    + intros [= <- <- <-]. split; [eauto|congruence|by rewrite Ho].
Qed.

Lemma ServeHTTP_proxied r now later s l s' l' t b r' :
  ServeHTTP Login BasicAuth r now later s l = (s', l', HProxied t b r') →
  ∃ name, name ≠ "" ∧ Lookup s (normalizeHost (Host (web r))) = (Some t, StateActive, name) ∧
    (∀ n, SNI r = Some n → (Lookup s (normalizeHost n)).2 = name) ∧
    (∀ cfg, Login = Some cfg → normalizeHost (Host (web r)) ≠ AuthHost cfg) ∧
    passed (AccessOf s t) r r' now later l.
Proof.
  unfold ServeHTTP. set (host := normalizeHost (Host (web r))). intros Hs.
  destruct (match Login with Some cfg => _ | None => false end) eqn:Hauth.
  { by destruct (match SNI r with Some n => _ | None => false end). }
  destruct (Lookup s host) as [[tun state] name] eqn:Hl. destruct (String.eqb_spec name "") as [|Hne]; [done|].
  destruct (match SNI r with Some n => _ | None => false end) eqn:Hsni; [done|].
  destruct state; [by destruct tun..|]. destruct tun as [t0|]; [|done].
  destruct (authorize _ _ _ _ _ _ _ _) as [[s1 l1] [r1|resp]] eqn:Ha.
  2: { injection Hs as <- <- ->. exfalso. unfold authorize in Ha.
       repeat (case_match; simplify_eq; try done). }
  apply authorize_passed in Ha. exists name.
  assert (t0 = t ∧ r1 = r') as [-> ->] by (destruct (RemoteAddr r) as [ip|]; cbn in Hs; [|by simplify_eq];
    destruct (PickBackend t0 ip s1) as [[s2 [b'|]]|]; by simplify_eq).
  split_and!; [done|done| | |done].
  - intros n Hn. rewrite Hn in Hsni. destruct (Lookup s (normalizeHost n)) as [[? ?] sn].
    apply negb_false_iff, String.eqb_eq in Hsni. done.
  - intros cfg ->. by apply String.eqb_neq.
Qed.
End spec.

(** ** The relay's tunnels *)

#[export] Instance eta_tunnel_t : Eta tunnel_t := λ t,
  mkTunnelT (tid t) (tres t) (existed t) (endpoint t) (listener t) (access t).

Section relay.
Context `{GoUnicode, Crypto, HMAC, !Payload loginState, !Payload flowCookie, !Payload loginCode, !Payload session}.
Context (srv : Server).

#[export] Program Instance relay_host : HTTPHost relay tunnel_id := {|
  Lookup x h := lookupHTTP srv x h;
  AccessOf := access_of;
  PutAccess t a x := x <| objects := alter (λ o, o <| access := a |>) t (objects x) |>;
  PickBackend _ _ _ := None;
|}.
Next Obligation.
  intros x h t st n. unfold lookupHTTP. destruct (resolveHost srv x h) as [[t' typ] name].
  destruct (lookup name (registry x)) as [[? ?] found]. destruct (String.eqb name ""); [intros [= <- <- _]|].
  { split; [by intros [? ?]|done]. }
  destruct (_ || _); [intros [= <- <- _]; split; [by intros [? ?]|done]|].
  destruct t'; intros [= <- <- _]; split; try done; by intros [? ?].
Qed.

(** C30: what reaches a tunnel over HTTP. A request the relay passes on to a
tunnel is for the host of that tunnel, on a connection whose server name
belongs to the same tunnel; its client's address is allowed; where the policy
has users, it carried a user and password that pass, and these are not passed
on; where the policy asks for a login, its user is an email the rule allows
and a provider vouched for, and the service is told exactly this user; without
a login rule, no user header is passed on at all. *)
Theorem http_requests_authorized login BasicAuth cfg w r now later x x' l' t b r' :
  ServeHTTP login BasicAuth r now later x (svc w) = (x', l', HProxied t b r') →
  (∀ c, login = Some c → c = cfg) → rtc (web_step cfg) start w →
  (∀ c, Cookie sessionCookie (web r) = Some c → unforged cfg (A := session) (log w) purposeSession c) →
  let host := normalizeHost (Host (web r)) in
  let a := access_of x t in
  ∃ name, resolveHost srv x host = (Some t, TUNNEL_TYPE_HTTP, name) ∧ name ≠ "" ∧
    (∀ n, SNI r = Some n → (resolveHost srv x (normalizeHost n)).2 = name) ∧
    (∃ ip, RemoteAddr r = Some ip ∧ AllowsIP a ip = true) ∧
    (RequiresBasic a = true → Authorization r' = None ∧
       ∃ user password, (Authorization r ≫= BasicAuth) = Some (user, password) ∧ (CheckBasic now user password a).2 = true) ∧
    match oidc a with
    | None => UserHdr r' = None
    | Some rule => ∃ user, UserHdr r' = Some user ∧ Allows rule user = true ∧ logged_in cfg w user host now ∧
                           Cookie sessionCookie (web r') = None
    end.
Proof.
  intros Hs Hcfg Hw Hu host a. apply ServeHTTP_proxied in Hs as (name & Hne & Hl & Hsni & _ & Hp).
  cbn [Lookup relay_host AccessOf] in Hl, Hsni, Hp. exists name. fold host in Hl. fold a in Hp.
  assert (∀ h, (lookupHTTP srv x h).2 ≠ "" → (resolveHost srv x h).2 = (lookupHTTP srv x h).2) as Hname.
  { intros h. unfold lookupHTTP. destruct (resolveHost srv x h) as [[t' typ] n]. destruct (lookup n (registry x)) as [[? ?] found].
    destruct (String.eqb n ""); [done|]. destruct (_ || _); [done|]. by destruct t'. }
  split_and!; [|done| |apply Hp|apply Hp|].
  - unfold lookupHTTP in Hl. destruct (resolveHost srv x host) as [[t' typ] n]. destruct (lookup n (registry x)) as [[? ?] found].
    destruct (String.eqb n ""); [done|]. destruct found, (isHTTP typ) eqn:Hty; cbn in Hl; try done.
    destruct t'; [|done]. injection Hl as -> ->. by destruct typ.
  - intros n Hn. specialize (Hsni n Hn). rewrite <-Hsni. apply Hname. by rewrite Hsni.
  - pose proof (pa_login _ _ _ _ _ _ _ _ Hp) as Hlog. destruct (oidc a) as [rule|]; [|by destruct Hlog].
    destruct Hlog as (c & user & l1 & Hc & Huser & Ha). rewrite (Hcfg c Hc) in Ha.
    destruct (proceed_logged_in cfg w rule (web r) now later l1 user (web r') Hw Hu Ha) as (Hallow & Hweb & Hlog).
    exists user. split_and!; [done|done|done|]. rewrite Hweb. apply strip_Cookie.
Qed.
End relay.

(** ** Witness *)

#[local] Existing Instance SignSample.toy.
#[local] Existing Instance ascii_only.
#[local] Existing Instance plain_crypto.
#[local] Existing Instances login_payload flow_payload code_payload session_payload.

Module ProxySample.
Import LoginSample.
Definition srv : Server := mkServer (Rules.mkRules "t" "c.t" "" [] 2000 2010) "relay.example" 443 (λ _, true) None None.
Definition r1 := (claim "w" TUNNEL_TYPE_HTTP "tok" "agent" 1%positive 0 (newNameRegistry minute)).1.
Definition r2 : nameRegistry := activate (default 1%positive (names r1 !! "w")) 9%positive r1.
(** The tunnel w.t lets user joe with password pw in, after a login. *)
Definition acc : Access := mkParsed [] [] {["joe" := "pw"]} "" (Some rule) ∅.
Definition obj : tunnel_t := mkTunnelT 9%positive 1%positive false (mkEndpoint "id" "w" TUNNEL_TYPE_HTTP "https://w.t" 0 "w.t" []) false acc.
Definition x : relay :=
  mkRelay r2 {[9%positive := obj]} (NewIPLimiter 1%Q 5 0) (NewIPLimiter 1%Q 5 0) (mkCounters 0 0 0 0 0) ∅ false false.
Definition basic (h : string) : option (string * string) := if String.eqb h "joe:pw" then Some ("joe", "pw") else None.
Definition req : HTTPRequest := mkHTTP again (Some (V4 7)) (Some "w.t") (Some "mallory@evil") (Some "joe:pw").
End ProxySample.
Import ProxySample.
#[local] Instance sample_host : HTTPHost relay tunnel_id := relay_host srv.

Lemma http_requests_authorized_witness :
  match (ServeHTTP (Some LoginSample.cfg) basic req LoginSample.now LoginSample.now x (svc LoginSample.w4)).2 with
  | HProxied t _ r' => t = 9%positive ∧ UserHdr r' = Some "a@b" ∧ Authorization r' = None ∧
      Cookie sessionCookie (web r') = None
  | _ => False
  end.
Proof.
  destruct (ServeHTTP (Some LoginSample.cfg) basic req LoginSample.now LoginSample.now x (svc LoginSample.w4)) as [[x' l'] resp] eqn:Hs.
  assert (∃ r', resp = HProxied 9%positive None r' ∧ UserHdr r' = Some "a@b") as (r' & -> & Huser).
  { vm_compute in Hs. injection Hs as _ _ <-. eexists. split; reflexivity. }
  destruct (http_requests_authorized srv (Some LoginSample.cfg) basic LoginSample.cfg LoginSample.w4 req LoginSample.now LoginSample.now
    x x' l' 9%positive None r' Hs) as (name & _ & _ & _ & _ & Hbasic & Hlogin).
  - congruence.
  - exact LoginSample.w4_reachable.
  - intros c [= <-] _. apply (bool_decide_unpack _). vm_compute. exact I.
  - cbn [snd]. split_and!; [reflexivity|exact Huser|apply Hbasic; vm_compute; reflexivity|].
    destruct Hlogin as (user & _ & _ & _ & Hc). exact Hc.
Defined.
