(* ===== verification/Agent.v ===== *)
(** * The agent (go/tunnel/agent)

The agent keeps a session with the relay: it connects, registers its tunnels,
serves the relay's streams by dialing its own targets, and reconnects with a
growing delay when the session drops. Connections, dials, local addresses and
random numbers are inputs: the relay is a function from its state and a
message to a reply, a session is the sequence of what its goroutines see, in
the order their effects take place. [math/rand] and float64 are rationals, as
in the limiter. Log lines and the bytes of streams are not modelled. *)

From Stdlib Require Import QArith Ascii.
From S2P Require Import Prelude GoStrings Base64 Protocol Policy NetIP Access NameRegistry RelayTunnels RelayServe.
From stdpp Require Import options.
#[local] Open Scope l8_scope.
Import Auth.

Definition TransportTLS : string := "tls".
Definition TransportWebSocket : string := "wss".
Definition ProxyNone : string := "none".
Definition DefaultSSHTarget : string := "127.0.0.1:22".
Definition DefaultReconnectMin : Z := second.
Definition DefaultReconnectMax : Z := minute.
Definition DefaultNetworkCheckInterval : Z := (5 * second)%Z.

(** ** Configuration *)

Record OIDCConfig := mkOIDCConfig { ocProvider : string; ocAllowEmails : list string; ocAllowDomains : list string }.

Record TunnelConfig := mkTunnelConfig {
  cName : string;
  cType : TunnelType;
  Target : string;
  TargetTLS : bool;
  InsecureSkipVerify : bool;
  cPublicPort : N;
  cAllowIPs : list string;
  cDenyIPs : list string;
  cBasicUsers : list BasicUser;
  cOIDC : option OIDCConfig;
  cDomains : list string;
  cAccessToken : string;
}.
#[export] Instance eta_tunnel_config : Eta TunnelConfig := λ t,
  mkTunnelConfig (cName t) (cType t) (Target t) (TargetTLS t) (InsecureSkipVerify t) (cPublicPort t) (cAllowIPs t)
    (cDenyIPs t) (cBasicUsers t) (cOIDC t) (cDomains t) (cAccessToken t).

Definition accessPolicy `{Crypto} (t : TunnelConfig) : AccessPolicy :=
  mkAccess (cAllowIPs t) (cDenyIPs t) ((λ u, mkUser (Username u) (BcryptHash u)) <$> cBasicUsers t)
    (if negb (String.eqb (cAccessToken t) "") then HashAccessToken (cAccessToken t) else "")
    ((λ o, mkOIDC (ocProvider o) (ocAllowEmails o) (ocAllowDomains o)) <$> cOIDC t).

Definition targetString (t : TunnelConfig) : string :=
  if TargetTLS t then "https://" +:+ Target t else Target t.

(** What the agent looks at of a [tls.Config]. *)
Record tlsConfig := mkTLS { tlsServerName : string; tlsCertificates : nat }.

(** A machine address: the IP of a [*net.IPNet], or another address' text. *)
Inductive local_addr := IPNet (ip : string) | OtherAddr (text : string).

Record Config := mkConfig {
  RelayAddr : string;
  TLS : option tlsConfig;
  Token : string;
  AgentID : string;
  cVersion : string;
  Tunnels : list TunnelConfig;
  Transport : string;
  Proxy : string;
  Recorder : bool;               (* the inspector is on *)
  ReconnectMin : Z;
  ReconnectMax : Z;
  NetworkCheckInterval : Z;
}.
#[export] Instance eta_config : Eta Config := λ c,
  mkConfig (RelayAddr c) (TLS c) (Token c) (AgentID c) (cVersion c) (Tunnels c) (Transport c) (Proxy c) (Recorder c)
    (ReconnectMin c) (ReconnectMax c) (NetworkCheckInterval c).

Inductive tunnel_config_err :=
| InvalidType | HTTPSOnlyHTTP | InsecureNeedsHTTPS | BadAccess (e : access_err) | DomainsOnlyHTTPTLS
| BadDomain | WildcardNeedsTLS | TargetNotHostPort | DuplicateName.

Inductive config_err :=
| RelayNotHostPort | NoServerName | NoCredentials | BadTransport | BadProxy | NoTunnels
| BadTunnel (tunnel : string) (e : tunnel_config_err) | BadCheckInterval | BadBackoff.

(** What [url.Parse] makes of a proxy URL. *)
Record URL := mkURL { Scheme : string; UHost : string }.

Section validate.
Context (url_Parse : string → option URL) `{GoUnicode, Crypto}.

Definition parseProxyURL (s : string) : option URL :=
  u ← url_Parse s;
  if negb (String.eqb (Scheme u) "http") || String.eqb (UHost u) "" then None else Some u.

Definition ParseProxy (s : string) : bool :=
  String.eqb s "" || String.eqb s ProxyNone || bool_decide (is_Some (parseProxyURL s)).

Definition checkConfigDomain (typ : TunnelType) (d : string) : result tunnel_config_err unit :=
  match NormalizeTunnelDomain d with
  | Err _ => Err BadDomain
  | Ok _ =>
      refuse! IsWildcardDomain d && negb (bool_decide (typ = TUNNEL_TYPE_TLS)) with WildcardNeedsTLS ;;
      Ok tt
  end.

(** One tunnel of [validate]'s loop; [seen] are the names before it. *)
Definition validateTunnel (seen : gset string) (t : TunnelConfig) : result tunnel_config_err (gset string * TunnelConfig) :=
  let typ := cType t in
  refuse! bool_decide (typ = TUNNEL_TYPE_UNSPECIFIED) with InvalidType ;;
  let t := if bool_decide (typ = TUNNEL_TYPE_SSH) && String.eqb (Target t) ""
           then t <| Target := DefaultSSHTarget |> else t in
  refuse! TargetTLS t && negb (isHTTP typ) with HTTPSOnlyHTTP ;;
  refuse! InsecureSkipVerify t && negb (TargetTLS t) with InsecureNeedsHTTPS ;;
  match ValidateSpecAccess typ (cPublicPort t) (accessPolicy t) with
  | Err e => Err (BadAccess e)
  | Ok _ =>
  refuse! negb (bool_decide (cDomains t = [])) && negb (isHTTP typ) && negb (bool_decide (typ = TUNNEL_TYPE_TLS))
  with DomainsOnlyHTTPTLS ;;
  match foldM (λ _ d, checkConfigDomain typ d) tt (cDomains t) with
  | Err e => Err e
  | Ok _ =>
  refuse! negb (bool_decide (is_Some (SplitHostPort (Target t)))) with TargetNotHostPort ;;
  if negb (String.eqb (cName t) "") then
    refuse! bool_decide (cName t ∈ seen) with DuplicateName ;;
    Ok ({[cName t]} ∪ seen, t)
  else Ok (seen, t)
  end end.

(** [seen] and the tunnels with their defaults filled in. *)
Definition validateTunnels (ts : list TunnelConfig) : result config_err (gset string * list TunnelConfig) :=
  foldM (λ '(seen, out) t,
           match validateTunnel seen t with
           | Err e => Err (BadTunnel (cName t) e)
           | Ok (seen, t) => Ok (seen, out ++ [t])
           end) (∅, []) ts.

Definition or_default (d v : Z) : Z := if (v =? 0)%Z then d else v.

(** [validate] also fills in defaults; [LocalAddrs] and [Logger] are not data. *)
Definition validate (c : Config) : result config_err Config :=
  refuse! negb (bool_decide (is_Some (SplitHostPort (RelayAddr c)))) with RelayNotHostPort ;;
  match TLS c with
  | None => Err NoServerName
  | Some tc =>
  refuse! String.eqb (tlsServerName tc) "" with NoServerName ;;
  refuse! String.eqb (Token c) "" && (tlsCertificates tc =? 0)%nat with NoCredentials ;;
  let c := if String.eqb (Transport c) "" then c <| Transport := TransportTLS |> else c in
  refuse! negb (String.eqb (Transport c) TransportTLS) && negb (String.eqb (Transport c) TransportWebSocket)
  with BadTransport ;;
  refuse! negb (ParseProxy (Proxy c)) with BadProxy ;;
  refuse! bool_decide (Tunnels c = []) with NoTunnels ;;
  match validateTunnels (Tunnels c) with
  | Err e => Err e
  | Ok (_, ts) =>
  let c := c <| Tunnels := ts |>
             <| ReconnectMin := or_default DefaultReconnectMin (ReconnectMin c) |>
             <| ReconnectMax := or_default DefaultReconnectMax (ReconnectMax c) |>
             <| NetworkCheckInterval := or_default DefaultNetworkCheckInterval (NetworkCheckInterval c) |> in
  refuse! (NetworkCheckInterval c <? 0)%Z with BadCheckInterval ;;
  refuse! (ReconnectMin c <? 0)%Z || (ReconnectMax c <? ReconnectMin c)%Z with BadBackoff ;;
  Ok c
  end end.
End validate.

Definition ServerName (relayAddr : string) : option string := fst <$> SplitHostPort relayAddr.
Definition hostOf (addr : string) : string := match SplitHostPort addr with Some (host, _) => host | None => addr end.

(** ** State *)

Record tunnelStats := mkStats { active : Z; total : Z; bytesIn : Z; bytesOut : Z }.
#[export] Instance eta_stats : Eta tunnelStats := λ s, mkStats (active s) (total s) (bytesIn s) (bytesOut s).

(** Why a session ended, or an attempt failed. *)
Inductive agent_err :=
| ErrDial
| ErrIO (eof : bool)                (* a read or write failed; [eof]: with io.EOF *)
| ErrRemote (code : ErrorCode)      (* protocol.RemoteError *)
| ErrFatal (why : string)           (* fatalError *)
| ErrMissedHeartbeats (silent : Z)
| ErrSendHeartbeat (eof : bool)
| ErrNetworkChanged
| ErrSessionClosed
| ErrRelayClosed.

Record connState := mkConn { connected : bool; since : Z; lastError : option agent_err; reconnects : Z }.
#[export] Instance eta_conn : Eta connState := λ c, mkConn (connected c) (since c) (lastError c) (reconnects c).

Record Agent := mkAgent {
  cfg : Config;
  endpoints : list Endpoint;
  targets : gmap string nat;
  anames : list string;
  aports : list Z;
  ready : bool;                     (* the channel is closed *)
  stats : list tunnelStats;
  state : connState;
  lastRTT : Z;
}.
#[export] Instance eta_agent : Eta Agent := λ a,
  mkAgent (cfg a) (endpoints a) (targets a) (anames a) (aports a) (ready a) (stats a) (state a) (lastRTT a).

(** [random_agent_id] is what [protocol.RandomID(8)] returns. *)
Definition New (url_Parse : string → option URL) `{GoUnicode, Crypto} (random_agent_id : string) (c : Config)
    : result config_err Agent :=
  match validate url_Parse c with
  | Err e => Err e
  | Ok c =>
      let c := if String.eqb (AgentID c) "" then c <| AgentID := random_agent_id |> else c in
      Ok (mkAgent c [] ∅ (cName <$> Tunnels c) (replicate (length (Tunnels c)) 0%Z) false
            (replicate (length (Tunnels c)) (mkStats 0 0 0 0)) (mkConn false zeroTime None 0) 0)
  end.

Definition Endpoints (a : Agent) : list Endpoint := endpoints a.

(** ** Names, ports and targets *)

(** The loop of [setEndpoints] from the [i]-th endpoint on. *)
Fixpoint set_endpoint_loop (i : nat) (es : list Endpoint) (a : Agent) : Agent :=
  match es with
  | [] => a
  | e :: es =>
      set_endpoint_loop (S i) es
        (a <| targets := <[TunnelId e := i]> (targets a) |>
           <| anames := <[i := EName e]> (anames a) |>
           <| aports := <[i := PublicPort e]> (aports a) |>)
  end.

Definition setEndpoints (now : Z) (es : list Endpoint) (a : Agent) : Agent * result agent_err unit :=
  if negb (length es =? length (Tunnels (cfg a)))%nat
  then (a, Err (ErrFatal "relay returned a different number of endpoints than tunnels requested"))
  else
    let a := set_endpoint_loop 0 es (a <| endpoints := es |> <| targets := ∅ |>) in
    (a <| state := state a <| connected := true |> <| since := now |> |> <| ready := true |>, Ok tt).

(** A missing tunnel ID reads as index 0, as a Go map does; an index out of
range would panic and is [None]. *)
Definition requestedNameFor (tunnelID : string) (a : Agent) : option string :=
  anames a !! default 0%nat (targets a !! tunnelID).
Definition requestedName (i : nat) (a : Agent) : string := default "" (anames a !! i).

Definition tunnelFor (tunnelID : string) (a : Agent) : option (nat * TunnelConfig) :=
  i ← targets a !! tunnelID; t ← Tunnels (cfg a) !! i; Some (i, t).

Definition previousPort (i : nat) (a : Agent) : Z :=
  match Tunnels (cfg a) !! i with
  | Some t => if negb (cPublicPort t =? 0)%N then 0%Z else default 0%Z (aports a !! i)
  | None => 0%Z
  end.

Definition setDisconnected (err : option agent_err) (a : Agent) : Agent :=
  let st := state a in
  let st := if connected st then st <| reconnects := (reconnects st + 1)%Z |> else st in
  let st := st <| connected := false |> in
  a <| state := match err with Some _ => st <| lastError := err |> | None => st end |>.

Record TunnelStatus := mkTunnelStatus {
  tsName : string; tsType : string; tsTarget : string; tsPublicAddress : string; tsHostname : string;
  ActiveConns : Z; TotalConns : Z; tsBytesIn : Z; tsBytesOut : Z;
}.
Record Status := mkStatus {
  stAgentID : string; stRelay : string; Connected : bool; ConnectedSince : Z;
  LastError : option agent_err; Reconnects : Z; stTunnels : list TunnelStatus;
}.

Definition tunnel_status (a : Agent) (i : nat) (t : TunnelConfig) : TunnelStatus :=
  let s := default (mkStats 0 0 0 0) (stats a !! i) in
  let e := if connected (state a) then endpoints a !! i else None in
  mkTunnelStatus (default "" (anames a !! i)) (TunnelTypeName (cType t)) (targetString t)
    (default "" (PublicAddress <$> e)) (default "" (Hostname <$> e)) (active s) (total s) (bytesIn s) (bytesOut s).

Definition status_of (a : Agent) : Status :=
  mkStatus (AgentID (cfg a)) (RelayAddr (cfg a)) (connected (state a))
    (if connected (state a) then since (state a) else zeroTime) (lastError (state a)) (reconnects (state a))
    (imap (tunnel_status a) (Tunnels (cfg a))).

(** ** The handshake *)

Inductive agent_message :=
| AHello (h : Hello)
| ARegister (specs : list TunnelSpec)
| APing (nonce : N) (sent lastRttUs : Z).

(** What a relay sends on the control stream. *)
Inductive relay_message :=
| RWelcome (heartbeatMs : Z)
| RRegistered (es : list Endpoint)
| RError (code : ErrorCode)
| RPong (nonce : N) (sent : Z)
| ROther.

Definition millisecond : Z := 1000000.

Definition spec_of `{Crypto} (a : Agent) (i : nat) (t : TunnelConfig) : TunnelSpec :=
  mkSpec (requestedName i a) (cType t) (cPublicPort t) (accessPolicy t) (cDomains t) (Z.to_N (previousPort i a)).
Definition register_specs `{Crypto} (a : Agent) : list TunnelSpec := imap (spec_of a) (Tunnels (cfg a)).

(** The operating system and architecture the program was built for. *)
Record platform := mkPlatform { GOOS : string; GOARCH : string }.

Section handshake.
Context `{Crypto} (plat : platform).

(** The peer answers a message, or reading or writing fails. *)
Context {X : Type} (peer : X → agent_message → X * result agent_err relay_message).

Definition exchange (msg : agent_message) (x : X) : X * result agent_err relay_message :=
  match peer x msg with
  | (x, Ok (RError code)) => (x, Err (ErrRemote code))
  | (x, r) => (x, r)
  end.

Definition hello_of (a : Agent) : Hello :=
  mkHello Version (Token (cfg a)) (AgentID (cfg a)) (cVersion (cfg a)) (GOOS plat) (GOARCH plat).

(** [armed] and [cleared]: whether the two deadlines could be set. *)
Definition handshake (armed cleared : bool) (now : Z) (a : Agent) (x : X) : Agent * X * result agent_err Z :=
  if negb armed then (a, x, Err (ErrIO false))
  else match exchange (AHello (hello_of a)) x with
  | (x, Err e) => (a, x, Err e)
  | (x, Ok (RWelcome ms)) =>
      let interval := int64 (ms * millisecond) in
      if (interval <=? 0)%Z then (a, x, Err (ErrFatal "heartbeat interval"))
      else match exchange (ARegister (register_specs a)) x with
      | (x, Err e) => (a, x, Err e)
      | (x, Ok (RRegistered es)) =>
          match setEndpoints now es a with
          | (a, Err e) => (a, x, Err e)
          | (a, Ok _) => (a, x, if cleared then Ok interval else Err (ErrIO false))
          end
      | (x, Ok _) => (a, x, Err (ErrFatal "register: expected Registered"))
      end
  | (x, Ok _) => (a, x, Err (ErrFatal "hello: expected Welcome"))
  end.
End handshake.

(** ** A running session *)

Record sessionState := mkState {
  lastPong : Z;
  nonce : Z;
  reading : bool;                          (* readControl runs *)
  beating : bool;                          (* heartbeat runs *)
  watching : bool;                         (* watchAddress runs *)
  ended : option (option agent_err);       (* sessionEnd: None until it is set *)
}.
#[export] Instance eta_state : Eta sessionState := λ s,
  mkState (lastPong s) (nonce s) (reading s) (beating s) (watching s) (ended s).

(** [end.set(err); mux.Close()] *)
Definition end_set (e : option agent_err) (st : sessionState) : sessionState :=
  match ended st with None => st <| ended := Some e |> | Some _ => st end.

Definition ip_text (x : local_addr) : string := match x with IPNet ip => ip | OtherAddr s => s end.

(** [LocalAddrs] answers [addrs], or fails. *)
Definition addrSet (addrs : option (list local_addr)) : option string :=
  (λ l, JoinByte ","%char (merge_sort str_le (ip_text <$> l))) <$> addrs.

Definition contains (set ip : string) : bool := existsb (λ s, String.eqb s ip) (SplitByte ","%char set).

(** One check of [watchAddress]: the address is gone. *)
Definition address_gone (want : string) (addrs : option (list local_addr)) : bool :=
  match addrSet addrs with Some set => negb (contains set want) | None => false end.

Inductive session_event :=
| EvMessage (m : relay_message) (now : Z)            (* readControl read a message *)
| EvReadFails (eof : bool)                           (* it could not *)
| EvTick (now : Z) (failed : option bool)            (* a heartbeat; did sending the Ping fail, with EOF? *)
| EvMuxDone                                          (* heartbeat sees the session closed *)
| EvAddrs (addrs : option (list local_addr))         (* a check of the local addresses *)
| EvStream (header : option string) (dials : bool)   (* a stream of the relay, its tunnel ID, can the target be dialed *)
| EvBytes (i : nat) (n_in n_out : Z)                 (* bytes of a stream of tunnel i counted *)
| EvStreamDone (i : nat).                            (* a stream of tunnel i ended *)

Inductive output :=
| SendPing (nonce sent lastRttUs : Z)
| DialTarget (i : nat) (t : TunnelConfig)            (* a stream is joined with the target *)
| DialFailed (i : nat) (t : TunnelConfig)
| Inspect (i : nat) (t : TunnelConfig) (name : option string)  (* as DialTarget, through the recorder *)
| DropStream.

Definition add_stats (i : nat) (f : tunnelStats → tunnelStats) (a : Agent) : Agent :=
  a <| stats := alter f i (stats a) |>.

Definition serveStream (header : option string) (dials : bool) (a : Agent) : Agent * output :=
  match header with
  | None => (a, DropStream)
  | Some id =>
  match tunnelFor id a with
  | None => (a, DropStream)
  | Some (i, t) =>
      if negb dials then (a, DialFailed i t)
      else
        let a := add_stats i (λ s, s <| active := (active s + 1)%Z |> <| total := (total s + 1)%Z |>) a in
        if Recorder (cfg a) && isHTTP (cType t) then (a, Inspect i t (requestedNameFor id a))
        else (a, DialTarget i t)
  end end.

Definition session_step (interval : Z) (ip : string) (ev : session_event) (a : Agent) (st : sessionState)
    : Agent * sessionState * list output :=
  match ev with
  | EvMessage m now =>
      if negb (reading st) then (a, st, [])
      else match m with
      | RError code => (a, end_set (Some (ErrRemote code)) (st <| reading := false |>), [])
      | RPong _ sent => (a <| lastRTT := int64 (now - sent) |>, st <| lastPong := now |>, [])
      | _ => (a, st, [])
      end
  | EvReadFails eof =>
      if negb (reading st) then (a, st, [])
      else (a, end_set (Some (ErrIO eof)) (st <| reading := false |>), [])
  | EvTick now failed =>
      if negb (beating st) then (a, st, [])
      else
        let silent := (now - lastPong st)%Z in
        if (int64 (missedHeartbeats * interval) <? silent)%Z
        then (a, end_set (Some (ErrMissedHeartbeats silent)) (st <| beating := false |>), [])
        else
          let st := st <| nonce := uint64 (nonce st + 1) |> in
          match failed with
          | Some eof => (a, end_set (Some (ErrSendHeartbeat eof)) (st <| beating := false |>), [])
          | None => (a, st, [SendPing (nonce st) now (Z.quot (lastRTT a) 1000)])
          end
  | EvMuxDone =>
      if negb (beating st) then (a, st, []) else (a, end_set None (st <| beating := false |>), [])
  | EvAddrs addrs =>
      if negb (watching st) then (a, st, [])
      else if address_gone ip addrs
      then (a, end_set (Some ErrNetworkChanged) (st <| watching := false |>), []) else (a, st, [])
  | EvStream header dials => let '(a, out) := serveStream header dials a in (a, st, [out])
  | EvBytes i n m =>
      (add_stats i (λ s, s <| bytesIn := (bytesIn s + n)%Z |> <| bytesOut := (bytesOut s + m)%Z |>) a, st, [])
  | EvStreamDone i => (add_stats i (λ s, s <| active := (active s - 1)%Z |>) a, st, [])
  end.

Fixpoint session_run (interval : Z) (ip : string) (evs : list session_event) (a : Agent) (st : sessionState)
    : Agent * sessionState * list output :=
  match evs with
  | [] => (a, st, [])
  | ev :: evs =>
      let '(a, st, out) := session_step interval ip ev a st in
      let '(a, st, out') := session_run interval ip evs a st in (a, st, out ++ out')
  end.

(** [errors.Is(err, io.EOF)] *)
Definition is_eof (e : agent_err) : bool :=
  match e with ErrIO eof | ErrSendHeartbeat eof => eof | _ => false end.

(** What [runSession] returns once its streams ended. *)
Definition session_err (st : sessionState) : agent_err :=
  match ended st with
  | None => ErrSessionClosed
  | Some None => ErrRelayClosed
  | Some (Some e) => if is_eof e then ErrRelayClosed else e
  end.

(** The connection a session gets: whether dialing, the multiplexer and the
control stream succeed, the deadlines, the clock at [setEndpoints] and after
the handshake, the connection's local address if it is TCP, and what happens
until the session is closed. *)
Record connection := mkConnection {
  cDialed : bool; cMux : bool; cControl : bool; cArmed : bool; cCleared : bool;
  cAt : Z; cStart : Z; cLocalIP : option string; cEvents : list session_event;
}.

Definition runSession `{Crypto} (plat : platform) {X : Type}
    (peer : X → agent_message → X * result agent_err relay_message) (c : connection) (a : Agent) (x : X)
    : Agent * X * list output * (bool * agent_err) :=
  if negb (cDialed c) then (a, x, [], (false, ErrDial))
  else if negb (cMux c) then (a, x, [], (false, ErrIO false))
  else if negb (cControl c) then (a, x, [], (false, ErrIO false))
  else match handshake plat peer (cArmed c) (cCleared c) (cAt c) a x with
  | (a, x, Err e) => (a, x, [], (false, e))
  | (a, x, Ok interval) =>
      let st := mkState (cStart c) 0 true true (bool_decide (is_Some (cLocalIP c))) None in
      let '(a, st, out) := session_run interval (default "" (cLocalIP c)) (cEvents c) a st in
      (a, x, out, (true, session_err st))
  end.

(** ** Reconnecting *)

Definition isFatal (e : agent_err) : bool :=
  match e with ErrRemote _ | ErrFatal _ => true | _ => false end.

(** [time.Duration(f)] rounds toward zero. *)
Definition trunc (q : Q) : Z := Z.quot (Qnum q) (Zpos (Qden q)).

(** [u] is what [rand.Float64] returns. *)
Definition jitter (u : Q) (d : Z) : Z := (d + trunc ((u * (4 # 10) - (2 # 10)) * inject_Z d))%Z.

Inductive wait_event := WCancel | WTimer | WTick (addrs : option (list local_addr)).
Inductive run_result := Cancelled | Failed (e : agent_err).

(** The loop of [waitToReconnect], [None] while it still waits; [before] is the
last known set of addresses. *)
Fixpoint wait_loop (before : option string) (evs : list wait_event) : option (result run_result bool) :=
  match evs with
  | [] => None
  | WCancel :: _ => Some (Err Cancelled)
  | WTimer :: _ => Some (Ok false)
  | WTick addrs :: evs =>
      match addrSet addrs, before with
      | None, _ => wait_loop before evs
      | Some now, None => wait_loop (Some now) evs
      | Some now, Some b => if negb (String.eqb now b) then Some (Ok true) else wait_loop before evs
      end
  end.

Definition waitToReconnect (addrs : option (list local_addr)) (evs : list wait_event) : option (result run_result bool) :=
  wait_loop (addrSet addrs) evs.

(** One round of [Run]: the session and how it goes, whether the context is
cancelled when it ends, the random number, and what happens while waiting. *)
Record round := mkRound {
  rSession : Agent → Agent * (bool * agent_err);
  rCancelled : bool;
  rRandom : Q;
  rAddrs : option (list local_addr);
  rWait : list wait_event;
}.

(** [Run]'s loop over the rounds, from [delay]: the agent, the waits it chose,
and how it returned ([None]: it still runs). *)
Fixpoint run_loop (delay : Z) (rounds : list round) (a : Agent) : Agent * list Z * option run_result :=
  match rounds with
  | [] => (a, [], None)
  | r :: rounds =>
      let '(a, (registered, err)) := rSession r a in
      let a := setDisconnected (Some err) a in
      if rCancelled r then (a, [], Some Cancelled)
      else if isFatal err then (a, [], Some (Failed err))
      else
        let delay := if registered : bool then ReconnectMin (cfg a) else delay in
        let wait := jitter (rRandom r) delay in
        match waitToReconnect (rAddrs r) (rWait r) with
        | None => (a, [wait], None)
        | Some (Err e) => (a, [wait], Some e)
        | Some (Ok changed) =>
            let delay := if changed : bool then ReconnectMin (cfg a)
                         else Z.min (int64 (delay * 2)) (ReconnectMax (cfg a)) in
            let '(a, waits, res) := run_loop delay rounds a in (a, wait :: waits, res)
        end
  end.

Definition Run (rounds : list round) (a : Agent) : Agent * list Z * option run_result :=
  run_loop (ReconnectMin (cfg a)) rounds a.

(** [DialTarget]: the last tunnel that has the name. *)
Definition target_named (n : string) (a : Agent) : option TunnelConfig :=
  foldl (λ found '(m, t), if String.eqb m n then Some t else found) None (zip (anames a) (Tunnels (cfg a))).
