(* ===== verification/AgentSpec.v ===== *)
(** * What the agent does (theorems about Agent.v)

Its configuration is well-formed and fits what the relay checks; the delays
between reconnects; how a session ends; the targets streams reach. *)

From Stdlib Require Import QArith Ascii.
From S2P Require Import Prelude GoStrings Base64 Protocol Policy NetIP Access NameRegistry RelayTunnels RelayServe Agent.
From stdpp Require Import options.
#[local] Open Scope l8_scope.
Import Auth.

(** ** Endpoints *)

(** What the agent remembers of the relay's endpoints, once the loop of
[setEndpoints] has gone through them from index [i] on. *)
Lemma set_endpoint_loop_spec es i a :
  (i + length es ≤ length (anames a))%nat → (i + length es ≤ length (aports a))%nat →
  let a' := set_endpoint_loop i es a in
  anames a' = take i (anames a) ++ (EName <$> es) ++ drop (i + length es) (anames a) ∧
  aports a' = take i (aports a) ++ (PublicPort <$> es) ++ drop (i + length es) (aports a) ∧
  (∀ id j, targets a' !! id = Some j → targets a !! id = Some j ∨ ∃ k e, es !! k = Some e ∧ TunnelId e = id ∧ j = (i + k)%nat) ∧
  (NoDup (TunnelId <$> es) → ∀ k e, es !! k = Some e → targets a' !! TunnelId e = Some (i + k)%nat) ∧
  (∀ id, id ∉ TunnelId <$> es → targets a' !! id = targets a !! id) ∧
  cfg a' = cfg a ∧ endpoints a' = endpoints a ∧ stats a' = stats a ∧ state a' = state a ∧ ready a' = ready a.
Proof.
  revert i a. induction es as [|e es IH]; intros i a Hn Hp; cbn [set_endpoint_loop length] in *.
  { rewrite !Nat.add_0_r, !fmap_nil, !app_nil_l, !take_drop. split_and!; try done. by left. }
  set (a1 := a <| targets := _ |> <| anames := _ |> <| aports := _ |>).
  destruct (IH (S i) a1) as (H1 & H2 & H3 & H4 & H5 & H6 & H7 & H8 & H9 & H10); [unfold a1; cbn; rewrite ?length_insert; lia..|].
  rewrite !fmap_cons. split_and!.
  - rewrite H1. unfold a1. cbn.
    rewrite (take_S_r _ i (EName e)) by (apply list_lookup_insert_eq; lia).
    rewrite take_insert_ge, drop_insert_lt by lia. rewrite <-app_assoc. cbn. do 3 f_equal. f_equal. lia.
  - rewrite H2. unfold a1. cbn.
    rewrite (take_S_r _ i (PublicPort e)) by (apply list_lookup_insert_eq; lia).
    rewrite take_insert_ge, drop_insert_lt by lia. rewrite <-app_assoc. cbn. do 3 f_equal. f_equal. lia.
  - intros id j Hj. destruct (H3 id j Hj) as [Ht|(k & e' & Hk & Hid & ->)].
    + cbn in Ht. apply lookup_insert_Some in Ht as [[<- <-]|[_ ?]]; [|by left].
      right. exists 0%nat, e. split_and!; [done|done|lia].
    + right. exists (S k), e'. split_and!; [done|done|lia].
  - intros [Hnin Hnd]%NoDup_cons [|k] e' Hk; cbn in Hk.
    + injection Hk as <-. rewrite H5 by done. cbn. rewrite lookup_insert_eq. f_equal. lia.
    + rewrite (H4 Hnd k e' Hk). f_equal. lia.
  - intros id [Hne Hnin]%not_elem_of_cons. rewrite H5 by done. cbn. by rewrite lookup_insert_ne.
  - by rewrite H6.
  - by rewrite H7.
  - by rewrite H8.
  - by rewrite H9.
  - by rewrite H10.
Qed.

(** The agent's tables have one entry per configured tunnel, and its target
indices are tunnels. *)
Record agent_ok (a : Agent) : Prop := {
  ao_names : length (anames a) = length (Tunnels (cfg a));
  ao_ports : length (aports a) = length (Tunnels (cfg a));
  ao_stats : length (stats a) = length (Tunnels (cfg a));
  ao_targets id i : targets a !! id = Some i → (i < length (Tunnels (cfg a)))%nat;
}.

Lemma setEndpoints_ok now es a a' :
  agent_ok a → setEndpoints now es a = (a', Ok tt) →
  agent_ok a' ∧ cfg a' = cfg a ∧ length es = length (Tunnels (cfg a)) ∧ endpoints a' = es ∧
  anames a' = EName <$> es ∧ aports a' = PublicPort <$> es ∧ connected (state a') = true ∧ ready a' = true ∧
  (∀ id i, targets a' !! id = Some i → ∃ e, es !! i = Some e ∧ TunnelId e = id) ∧
  (NoDup (TunnelId <$> es) → ∀ i e, es !! i = Some e → targets a' !! TunnelId e = Some i).
Proof.
  intros Hok. unfold setEndpoints. destruct (length es =? _)%nat eqn:Hlen; cbn [negb]; [|done].
  apply Nat.eqb_eq in Hlen. intros [= <-].
  set (a0 := a <| endpoints := es |> <| targets := ∅ |>).
  assert (length (anames a0) = length es ∧ length (aports a0) = length es) as [Hn Hp]
    by (rewrite Hlen; split; apply Hok).
  destruct (set_endpoint_loop_spec es 0 a0) as (H1 & H2 & H3 & H4 & _ & H6 & H7 & H8 & H9 & H10); [lia..|].
  rewrite take_0, app_nil_l, drop_ge, app_nil_r in H1 by lia. rewrite take_0, app_nil_l, drop_ge, app_nil_r in H2 by lia.
  assert (∀ id i, targets (set_endpoint_loop 0 es a0) !! id = Some i → ∃ e, es !! i = Some e ∧ TunnelId e = id) as Hback.
  { intros id i [Ht|(k & e & Hk & Hid & ->)]%H3; [cbn in Ht; by rewrite lookup_empty in Ht|by exists e]. }
  split_and!; try done.
  split; cbn; rewrite ?H1, ?H2, ?H6, ?H8, ?length_fmap; try done; [apply Hok|].
  intros id i (e & Hi%lookup_lt_Some & _)%Hback. change (cfg a0) with (cfg a). by rewrite <-Hlen.
Qed.

Lemma setDisconnected_fields err a :
  cfg (setDisconnected err a) = cfg a ∧ anames (setDisconnected err a) = anames a ∧
  aports (setDisconnected err a) = aports a ∧ targets (setDisconnected err a) = targets a ∧
  stats (setDisconnected err a) = stats a.
Proof. unfold setDisconnected. by destruct (connected (state a)), err. Qed.

Lemma setDisconnected_ok err a : agent_ok a → agent_ok (setDisconnected err a).
Proof.
  destruct (setDisconnected_fields err a) as (Hc & Hn & Hp & Ht & Hs).
  intros []. split; rewrite ?Hc, ?Hn, ?Hp, ?Ht, ?Hs; done.
Qed.

Lemma add_stats_fields i f a :
  cfg (add_stats i f a) = cfg a ∧ anames (add_stats i f a) = anames a ∧ aports (add_stats i f a) = aports a ∧
  targets (add_stats i f a) = targets a ∧ endpoints (add_stats i f a) = endpoints a ∧
  length (stats (add_stats i f a)) = length (stats a).
Proof. split_and!; try done. apply length_alter. Qed.

(** ** Reconnect delays *)

Lemma quot_abs_le n d : (0 < d)%Z → (Z.abs (Z.quot n d) * d ≤ Z.abs n)%Z.
Proof.
  intros Hd. rewrite <-Z.quot_abs by lia. rewrite (Z.abs_eq d) by lia.
  pose proof (Z.mul_quot_le (Z.abs n) d ltac:(lia) ltac:(lia)). lia.
Qed.

Lemma jitter_bounds u d :
  (0 <= u)%Q → (u < 1)%Q → (0 ≤ d)%Z → (4 * d ≤ 5 * jitter u d ≤ 6 * d)%Z.
Proof.
  intros H0 H1 Hd. unfold jitter, trunc. set (x := ((u * (4 # 10) - (2 # 10)) * inject_Z d)%Q).
  assert (- (1 # 5) * inject_Z d <= x ∧ x <= (1 # 5) * inject_Z d)%Q as [Hlo Hhi].
  { assert (0 <= inject_Z d)%Q as Hq by (rewrite (Zle_Qle 0) in Hd; exact Hd).
    subst x. split; apply Qmult_le_compat_r; try done.
    - apply (Qle_trans _ (0 * (4 # 10) - (2 # 10))); [by vm_compute|].
      apply Qplus_le_compat; [apply Qmult_le_compat_r; [done|by vm_compute]|apply Qle_refl].
    - apply (Qle_trans _ (1 * (4 # 10) - (2 # 10))); [|by vm_compute].
      apply Qplus_le_compat; [apply Qmult_le_compat_r; [by apply Qlt_le_weak|by vm_compute]|apply Qle_refl]. }
  clearbody x. unfold Qle in Hlo, Hhi. cbn in Hlo, Hhi.
  pose proof (quot_abs_le (Qnum x) (Zpos (Qden x)) ltac:(lia)) as Hquot.
  assert (5 * Z.abs (Qnum x ÷ Z.pos (Qden x)) ≤ d)%Z; [|lia].
  apply (Z.mul_le_mono_pos_r _ _ (Zpos (Qden x))); [lia|]. nia.
Qed.

(** The failures in a row before each wait of [run_loop]: a session that
registered its tunnels, or a change of networks, starts over. *)
Fixpoint streaks (n : nat) (rounds : list round) (a : Agent) : list nat :=
  match rounds with
  | [] => []
  | r :: rounds =>
      let '(a, (registered, err)) := rSession r a in
      if rCancelled r || isFatal err then []
      else
        let n := if registered : bool then 0%nat else n in
        n :: match waitToReconnect (rAddrs r) (rWait r) with
             | Some (Ok changed) => streaks (if changed : bool then 0 else S n) rounds (setDisconnected (Some err) a)
             | _ => []
             end
  end.

(** The delay after [n] failures in a row. *)
Definition delay_after (c : Config) (n : nat) : Z := Z.min (ReconnectMin c * 2 ^ Z.of_nat n) (ReconnectMax c).

Lemma int64_id z : (- 2 ^ 63 ≤ z < 2 ^ 63)%Z → int64 z = z.
Proof. unfold int64. intros. rewrite Z.mod_small; lia. Qed.

Lemma delay_after_next c n :
  (0 ≤ ReconnectMin c ≤ ReconnectMax c)%Z → (ReconnectMax c < 2 ^ 62)%Z →
  Z.min (int64 (delay_after c n * 2)) (ReconnectMax c) = delay_after c (S n).
Proof.
  intros Hm Hx. unfold delay_after. rewrite int64_id by lia. rewrite Nat2Z.inj_succ, Z.pow_succ_r by lia. lia.
Qed.

(** A session leaves the configuration as it is. *)
Definition keeps_config (r : round) : Prop := ∀ a, cfg (rSession r a).1 = cfg a.

Lemma run_loop_waits n rounds a :
  (0 ≤ ReconnectMin (cfg a) ≤ ReconnectMax (cfg a))%Z → (ReconnectMax (cfg a) < 2 ^ 62)%Z → Forall keeps_config rounds →
  (run_loop (delay_after (cfg a) n) rounds a).1.2 =
  zip_with (λ r m, jitter (rRandom r) (delay_after (cfg a) m)) rounds (streaks n rounds a).
Proof.
  intros Hm Hx. revert n a Hm Hx. induction rounds as [|r rounds IH]; intros n a Hm Hx Hall; [done|].
  apply Forall_cons in Hall as [Hr Hall]. specialize (Hr a). cbn [run_loop streaks].
  destruct (rSession r a) as [a1 [reg err]]. cbn in Hr.
  destruct (rCancelled r); [done|]. destruct (isFatal err); [done|]. cbn [orb].
  destruct (setDisconnected_fields (Some err) a1) as [Hc _]. rewrite Hr in Hc.
  set (a2 := setDisconnected _ _) in *. set (m := if reg then 0%nat else n).
  assert ((if reg then ReconnectMin (cfg a2) else delay_after (cfg a) n) = delay_after (cfg a) m) as ->.
  { subst m. destruct reg; [|done]. unfold delay_after. rewrite Hc. lia. }
  destruct (waitToReconnect _ _) as [[changed|e]|]; [|by destruct rounds..].
  assert ((if changed then ReconnectMin (cfg a2) else Z.min (int64 (delay_after (cfg a) m * 2)) (ReconnectMax (cfg a2)))
    = delay_after (cfg a2) (if changed then 0 else S m)) as ->.
  { rewrite Hc. destruct changed; [unfold delay_after; lia|by apply delay_after_next]. }
  specialize (IH (if changed then 0 else S m)%nat a2). rewrite Hc in *.
  specialize (IH Hm Hx Hall). destruct (run_loop _ rounds a2) as [[a3 waits] res]. cbn [fst snd] in *.
  cbn [zip_with]. by rewrite IH.
Qed.

Lemma run_loop_result delay rounds a e :
  (run_loop delay rounds a).2 = Some (Failed e) → isFatal e = true.
Proof.
  revert delay a. induction rounds as [|r rounds IH]; intros delay a; cbn [run_loop]; [done|].
  destruct (rSession r a) as [a1 [reg err]]. destruct (rCancelled r); [done|].
  destruct (isFatal err) eqn:Hf; [by intros [= <-]|].
  destruct (waitToReconnect _ _) as [[changed|e']|] eqn:Hw; [|cbn; intros [= ->]|done].
  - specialize (IH (if changed then ReconnectMin (cfg (setDisconnected (Some err) a1)) else
      Z.min (int64 ((if reg then ReconnectMin (cfg (setDisconnected (Some err) a1)) else delay) * 2))
        (ReconnectMax (cfg (setDisconnected (Some err) a1))))%Z (setDisconnected (Some err) a1)).
    destruct (run_loop _ rounds _) as [[a3 waits] res]. cbn in *. done.
  - exfalso. clear -Hw. unfold waitToReconnect in Hw. revert Hw. generalize (addrSet (rAddrs r)).
    induction (rWait r) as [|[| |addrs] evs IH]; intros before; cbn; try done.
    destruct (addrSet addrs), before; try apply IH. destruct (negb _); [done|apply IH].
Qed.

(** the delays between an agent's reconnects. The waits [Run] chooses are
exactly the exponential backoff: after [n] failures in a row since the start,
the last session that registered its tunnels or the last change of networks,
it waits the minimum doubled [n] times, capped at the maximum, spread by at
most a fifth either way, so never less than four fifths of the minimum nor
more than six fifths of the maximum, whatever sessions, addresses and random
numbers do. It gives up only on an error of the relay or one marked fatal. *)
Theorem Run_backoff a rounds a' waits res :
  (0 ≤ ReconnectMin (cfg a) ≤ ReconnectMax (cfg a))%Z → (ReconnectMax (cfg a) < 2 ^ 62)%Z →
  Forall keeps_config rounds → Forall (λ r, 0 <= rRandom r ∧ rRandom r < 1)%Q rounds →
  Run rounds a = (a', waits, res) →
  waits = zip_with (λ r n, jitter (rRandom r) (delay_after (cfg a) n)) rounds (streaks 0 rounds a) ∧
  (∀ k n w, streaks 0 rounds a !! k = Some n → waits !! k = Some w →
     4 * delay_after (cfg a) n ≤ 5 * w ≤ 6 * delay_after (cfg a) n)%Z ∧
  Forall (λ w, 4 * ReconnectMin (cfg a) ≤ 5 * w ≤ 6 * ReconnectMax (cfg a))%Z waits ∧
  (∀ e, res = Some (Failed e) → isFatal e = true).
Proof.
  intros Hm Hx Hk Hu HR. unfold Run in HR.
  assert (ReconnectMin (cfg a) = delay_after (cfg a) 0) as H0 by (unfold delay_after; lia).
  pose proof (run_loop_waits 0 rounds a Hm Hx Hk) as Hw. rewrite <-H0, HR in Hw. cbn in Hw.
  assert (∀ k n w, streaks 0 rounds a !! k = Some n → waits !! k = Some w →
    4 * delay_after (cfg a) n ≤ 5 * w ≤ 6 * delay_after (cfg a) n)%Z as Hb.
  { intros k n w Hn Hw'. rewrite Hw, lookup_zip_with, Hn in Hw'. destruct (rounds !! k) as [r|] eqn:Hr; [|done].
    injection Hw' as <-. destruct (Forall_lookup_1 _ _ _ _ Hu Hr).
    apply jitter_bounds; [done|done|]. unfold delay_after. lia. }
  split_and!; [done|done| |intros e ->; apply (run_loop_result (ReconnectMin (cfg a)) rounds a); by rewrite HR].
  apply Forall_lookup_2. intros k w Hk'. destruct (streaks 0 rounds a !! k) as [n|] eqn:Hn.
  - specialize (Hb k n w Hn Hk').
    assert (ReconnectMin (cfg a) ≤ delay_after (cfg a) n ≤ ReconnectMax (cfg a))%Z; [|lia].
    unfold delay_after. assert (1 ≤ 2 ^ Z.of_nat n)%Z by (apply (Z.pow_le_mono_r 2 0); lia). nia.
  - rewrite Hw, lookup_zip_with, Hn in Hk'. by destruct (rounds !! k).
Qed.

(** ** How a session ends *)

Section session.
Context (interval : Z) (ip : string).

Lemma session_run_app evs1 evs2 a st :
  session_run interval ip (evs1 ++ evs2) a st =
  let '(a1, st1, out1) := session_run interval ip evs1 a st in
  let '(a2, st2, out2) := session_run interval ip evs2 a1 st1 in (a2, st2, out1 ++ out2).
Proof.
  revert a st. induction evs1 as [|ev evs1 IH]; intros a st; cbn [app session_run].
  { by destruct (session_run _ _ evs2 a st) as [[? ?] ?]. }
  destruct (session_step _ _ _ _ _) as [[a1 st1] out1]. rewrite IH.
  destruct (session_run _ _ evs1 a1 st1) as [[a2 st2] out2].
  destruct (session_run _ _ evs2 a2 st2) as [[a3 st3] out3]. by rewrite app_assoc.
Qed.

Definition ended_by (evs : list session_event) (a : Agent) (st : sessionState) : option (option agent_err) :=
  ended (session_run interval ip evs a st).1.2.

(** The end of a session as its event says it, with the last Pong at [p]. *)
Definition end_of (p : Z) (watch : bool) (ev : session_event) : option (option agent_err) :=
  match ev with
  | EvMessage (RError code) _ => Some (Some (ErrRemote code))
  | EvReadFails eof => Some (Some (ErrIO eof))
  | EvTick now failed =>
      if (int64 (missedHeartbeats * interval) <? now - p)%Z then Some (Some (ErrMissedHeartbeats (now - p)))
      else (λ eof, Some (ErrSendHeartbeat eof)) <$> failed
  | EvMuxDone => Some None
  | EvAddrs addrs => if watch && address_gone ip addrs then Some (Some ErrNetworkChanged) else None
  | _ => None
  end.

Definition pong_at (p : Z) (ev : session_event) : Z :=
  match ev with EvMessage (RPong _ _) now => now | _ => p end.

(** While nothing has ended the session, all its goroutines run. *)
Definition running (st : sessionState) : Prop := reading st = true ∧ beating st = true ∧ ended st = None.

Lemma session_step_running ev a st a' st' out :
  running st → session_step interval ip ev a st = (a', st', out) →
  ended st' = end_of (lastPong st) (watching st) ev ∧
  (ended st' = None → running st' ∧ lastPong st' = pong_at (lastPong st) ev ∧ watching st' = watching st).
Proof.
  intros (Hr & Hb & He). unfold session_step, end_set. destruct ev as [m now|eof|now failed| |addrs|h d|i n m|i]; cbn [end_of pong_at].
  - rewrite Hr. destruct m; cbn; intros [= <- <- <-]; cbn; rewrite ?He; done.
  - rewrite Hr. cbn. rewrite He. by intros [= <- <- <-].
  - rewrite Hb. cbn [negb]. destruct (_ <? _)%Z; cbn; [rewrite He; by intros [= <- <- <-]|].
    destruct failed; cbn; rewrite ?He; intros [= <- <- <-]; cbn; rewrite ?He; done.
  - rewrite Hb. cbn. rewrite He. by intros [= <- <- <-].
  - destruct (watching st) eqn:Hw; cbn [negb andb]; [|intros [= <- <- <-]; by rewrite He, Hw].
    destruct (address_gone ip addrs); cbn; rewrite ?He; intros [= <- <- <-]; cbn; rewrite ?He, ?Hw; done.
  - destruct (serveStream h d a). intros [= <- <- <-]. by rewrite He.
  - intros [= <- <- <-]. by rewrite He.
  - intros [= <- <- <-]. by rewrite He.
Qed.

Lemma end_set_keeps e st x : ended st = Some x → end_set e st = st.
Proof. unfold end_set. by intros ->. Qed.

Lemma session_step_ended ev a st a' st' out x :
  ended st = Some x → session_step interval ip ev a st = (a', st', out) → ended st' = Some x.
Proof.
  intros He. unfold session_step.
  destruct ev as [m now|eof|now failed| |addrs|h d|i n m|i]; repeat case_match; intros [= <- <- <-];
    unfold end_set; cbn; rewrite ?He; done.
Qed.

Lemma session_run_ended evs a st x : ended st = Some x → ended_by evs a st = Some x.
Proof.
  unfold ended_by. revert a st. induction evs as [|ev evs IH]; intros a st He; [done|]. cbn [session_run].
  destruct (session_step _ _ _ _ _) as [[a1 st1] out1] eqn:Hs. apply session_step_ended with (x := x) in Hs; [|done].
  specialize (IH a1 st1 Hs). by destruct (session_run _ _ evs a1 st1) as [[? ?] ?].
Qed.

(** The first event that ends a session. *)
Fixpoint first_end (p : Z) (watch : bool) (evs : list session_event) : option (option agent_err) :=
  match evs with
  | [] => None
  | ev :: evs =>
      match end_of p watch ev with
      | Some e => Some e
      | None => first_end (pong_at p ev) watch evs
      end
  end.

Lemma session_first_end evs a st :
  running st → ended_by evs a st = first_end (lastPong st) (watching st) evs.
Proof.
  revert a st. induction evs as [|ev evs IH]; intros a st Hr; [apply Hr|]. cbn [first_end].
  destruct (session_step interval ip ev a st) as [[a1 st1] out1] eqn:Hs.
  destruct (session_step_running _ _ _ _ _ _ Hr Hs) as [He Hnext].
  assert (ended_by (ev :: evs) a st = ended_by evs a1 st1) as ->.
  { unfold ended_by. cbn [session_run]. rewrite Hs. by destruct (session_run _ _ evs a1 st1) as [[? ?] ?]. }
  destruct (end_of _ _ ev) as [e|]; [by apply session_run_ended|].
  destruct (Hnext He) as (Hr1 & <- & <-). by apply IH.
Qed.

Lemma first_end_split p watch pre ev post :
  first_end p watch (pre ++ ev :: post) =
  match first_end p watch pre with
  | Some e => Some e
  | None => match end_of (foldl pong_at p pre) watch ev with
            | Some e => Some e
            | None => first_end (pong_at (foldl pong_at p pre) ev) watch post
            end
  end.
Proof.
  revert p. induction pre as [|ev' pre IH]; intros p; [done|]. cbn [app first_end foldl].
  by destruct (end_of p watch ev').
Qed.

Lemma first_end_inv p watch evs e :
  first_end p watch evs = Some e →
  ∃ pre ev post, evs = pre ++ ev :: post ∧ first_end p watch pre = None ∧ end_of (foldl pong_at p pre) watch ev = Some e.
Proof.
  revert p. induction evs as [|ev evs IH]; intros p; cbn [first_end]; [done|].
  destruct (end_of p watch ev) as [e'|] eqn:He.
  - intros [= ->]. by exists [], ev, evs.
  - intros (pre & ev' & post & -> & Hn & He')%IH. exists (ev :: pre), ev', post. cbn [first_end]. by rewrite He.
Qed.
End session.

(** heartbeats. A session is dropped for missed heartbeats only at a tick
more than three intervals after the last Pong (or the start), and nothing ended
it before; and at such a tick it is over, for that reason or an earlier one: a
relay that died does not keep an agent, and one that answers is not dropped.
[evs] are the events of a session in any order. *)
Theorem heartbeat_detects interval ip c evs a :
  (0 < interval)%Z → (missedHeartbeats * interval < 2 ^ 63)%Z →
  let st0 := mkState c 0 true true (negb (String.eqb ip "")) None in
  let st := (session_run interval ip evs a st0).1.2 in
  (∀ silent, session_err st = ErrMissedHeartbeats silent →
     ∃ pre now failed post, evs = pre ++ EvTick now failed :: post ∧
       ended_by interval ip pre a st0 = None ∧ silent = (now - foldl pong_at c pre)%Z ∧ (3 * interval < silent)%Z) ∧
  (∀ pre now failed post, evs = pre ++ EvTick now failed :: post →
     (foldl pong_at c pre + 3 * interval < now)%Z →
     ended_by interval ip (pre ++ [EvTick now failed]) a st0 ≠ None ∧ ended st ≠ None).
Proof.
  intros Hi Ho st0 st.
  assert (running st0) as Hr by done. unfold missedHeartbeats in *.
  assert (ended st = first_end interval ip c (negb (String.eqb ip "")) evs) as He
    by exact (session_first_end interval ip evs a st0 Hr).
  split.
  - intros silent Hs. unfold session_err in Hs. rewrite He in Hs.
    destruct (first_end _ _ _ _ evs) as [[e|]|] eqn:Hf; [|done..].
    destruct (is_eof e); [done|]. subst e.
    apply first_end_inv in Hf as (pre & ev & post & -> & Hn & Hev).
    destruct ev as [[]|eof|now failed| |addrs|h d|i n m|i]; try done; cbn [end_of] in Hev.
    + unfold missedHeartbeats in Hev. rewrite int64_id in Hev by lia. destruct (Z.ltb_spec (3 * interval) (now - foldl pong_at c pre)).
      * injection Hev as <-. exists pre, now, failed, post. split_and!; [done| |done|done].
        by rewrite session_first_end.
      * by destruct failed.
    + by destruct (_ && _).
  - intros pre now failed post -> Hlate.
    assert (∀ post', first_end interval ip c (negb (String.eqb ip "")) (pre ++ EvTick now failed :: post') ≠ None) as Hne.
    { intros post'. rewrite first_end_split. destruct (first_end _ _ _ _ pre); [done|]. cbn [end_of].
      unfold missedHeartbeats. rewrite int64_id by lia. destruct (Z.ltb_spec (3 * interval) (now - foldl pong_at c pre)); [done|lia]. }
    rewrite session_first_end by done. cbn [lastPong watching st0]. rewrite He. split; apply Hne.
Qed.

(** ** Configuration *)

Section config.
Context (url_Parse : string → option URL) `{GoUnicode, Crypto}.

(** A tunnel [validate] lets through. *)
Record tunnel_fits (t : TunnelConfig) : Prop := {
  tf_type : cType t ≠ TUNNEL_TYPE_UNSPECIFIED;
  tf_target : is_Some (SplitHostPort (Target t));
  tf_tls : TargetTLS t = true → isHTTP (cType t) = true;
  tf_insecure : InsecureSkipVerify t = true → TargetTLS t = true;
  tf_access : ∃ acc, ValidateSpecAccess (cType t) (cPublicPort t) (accessPolicy t) = Ok acc;
  tf_domains d : d ∈ cDomains t →
    (cType t = TUNNEL_TYPE_HTTP ∨ cType t = TUNNEL_TYPE_TLS) ∧
    ∃ n, NormalizeTunnelDomain d = Ok n ∧ (IsWildcardDomain n = true → cType t = TUNNEL_TYPE_TLS);
}.

Lemma wildcard_normal d n : NormalizeTunnelDomain d = Ok n → IsWildcardDomain n = true → IsWildcardDomain d = true.
Proof.
  unfold NormalizeTunnelDomain, IsWildcardDomain, HasPrefix. destruct (CutPrefix "*." d) as [rest|]; [done|].
  destruct (NormalizeDomain d) as [m|] eqn:Hm; [|done]. intros [= <-] Hw.
  exfalso. unfold NormalizeDomain in Hm. destruct (_ || _); [done|].
  destruct (forallb _ _) eqn:Hl; [|done]. injection Hm as <-.
  set (m := ToLower (TrimSuffix "." d)) in *. apply bool_decide_eq_true in Hw as [r Hr].
  assert (m = "*." +:+ r) as Hmr by (by apply CutPrefix_Some).
  rewrite Hmr in Hl. change ("*." +:+ r) with ("*" +:+ String "."%char r) in Hl.
  rewrite SplitByte_app_sep in Hl. cbn [SplitByte Ascii.eqb Bool.eqb app forallb] in Hl.
  apply andb_true_iff in Hl as [Hl _]. by vm_compute in Hl.
Qed.

Lemma foldM_checks {E A} (f : A → result E unit) l : foldM (λ _ x, f x) tt l = Ok tt → ∀ x, x ∈ l → f x = Ok tt.
Proof.
  induction l as [|y l IH]; cbn; [by intros _ x ?%elem_of_nil|].
  destruct (f y) as [[]|] eqn:Hy; [|done]. intros Hf x [->|Hx]%elem_of_cons; [done|by apply IH].
Qed.

Lemma validateTunnel_ok seen t seen' t' :
  validateTunnel seen t = Ok (seen', t') →
  tunnel_fits t' ∧ cName t' = cName t ∧
  seen' = (if String.eqb (cName t) "" then seen else {[cName t]} ∪ seen) ∧ (cName t ≠ "" → cName t ∉ seen).
Proof.
  unfold validateTunnel. destruct (bool_decide (cType t = _)) eqn:Hty; [done|]. apply bool_decide_eq_false in Hty.
  set (t1 := if _ && _ then _ else t).
  assert (cType t1 = cType t ∧ cName t1 = cName t ∧ cDomains t1 = cDomains t) as (Ht1 & Hn1 & Hd1) by (subst t1; by case_match).
  clearbody t1. rewrite <-Ht1 in *.
  destruct (TargetTLS t1 && negb (isHTTP (cType t1))) eqn:Htls; [done|].
  destruct (InsecureSkipVerify t1 && negb (TargetTLS t1)) eqn:Hins; [done|].
  destruct (ValidateSpecAccess _ _ _) as [acc|] eqn:Hacc; [|done].
  destruct (negb _ && negb _ && negb _) eqn:Hdom; [done|].
  destruct (foldM _ tt _) as [[]|] eqn:Hfold; [|done].
  destruct (negb (bool_decide (is_Some (SplitHostPort (Target t1))))) eqn:Htgt; [done|]. bool_facts.
  assert (tunnel_fits t1) as Hfits.
  { split; try done.
    - intros HT. rewrite HT in Htls. by destruct (isHTTP _).
    - intros HT. rewrite HT in Hins. by destruct (TargetTLS t1).
    - by exists acc.
    - intros d Hd. split.
      + rewrite bool_decide_false in Hdom by (intros Heq; rewrite Heq in Hd; by apply elem_of_nil in Hd).
        destruct (cType t1); cbn in Hdom; auto; by rewrite bool_decide_false in Hdom.
      + apply foldM_checks with (x := d) in Hfold; [|done]. unfold checkConfigDomain in Hfold.
        destruct (NormalizeTunnelDomain d) as [n|] eqn:Hn; [|done]. exists n. split; [done|]. intros Hw.
        rewrite (wildcard_normal d n) in Hfold by done. by destruct (bool_decide_reflect (cType t1 = TUNNEL_TYPE_TLS)). }
  rewrite Hn1. destruct (String.eqb_spec (cName t) "") as [Hnil|Hnn]; cbn [negb].
  - intros [= <- <-]. by split_and!.
  - destruct (bool_decide_reflect (cName t ∈ seen)); [done|]. intros [= <- <-]. by split_and!.
Qed.

Definition named (t : TunnelConfig) : bool := negb (String.eqb (cName t) "").

Lemma validateTunnels_ok ts seen' ts' :
  validateTunnels ts = Ok (seen', ts') →
  Forall tunnel_fits ts' ∧ length ts' = length ts ∧ cName <$> ts' = cName <$> ts ∧
  NoDup (cName <$> List.filter named ts').
Proof.
  unfold validateTunnels. set (f := λ '(seen, out) t, _).
  assert (∀ seen out, Forall tunnel_fits out → NoDup (cName <$> List.filter named out) →
    (∀ t, t ∈ out → cName t ≠ "" → cName t ∈ seen) →
    foldM f (seen, out) ts = Ok (seen', ts') →
    Forall tunnel_fits ts' ∧ length ts' = (length out + length ts)%nat ∧ cName <$> ts' = (cName <$> out) ++ (cName <$> ts) ∧
    NoDup (cName <$> List.filter named ts')) as Hgen.
  { induction ts as [|t ts IH]; intros seen out Hf Hnd Hseen; cbn [foldM].
    { intros [= <- <-]. rewrite fmap_nil, app_nil_r. split_and!; [done|cbn; lia|done|done]. }
    destruct (validateTunnel seen t) as [[seen1 t1]|e] eqn:Hv; unfold f at 1; rewrite Hv; [|done].
    apply validateTunnel_ok in Hv as (Hfit & Hname & Hs1 & Hfresh). intros HM.
    apply IH in HM as (H1 & H2 & H3 & H4).
    - split_and!; [done|rewrite length_app in H2; cbn in *; lia| |done].
      rewrite H3, fmap_app, <-app_assoc. cbn. by rewrite Hname.
    - apply Forall_app. split; [done|]. by apply Forall_singleton.
    - rewrite List.filter_app, fmap_app. apply NoDup_app. split_and!; [done| |cbn; destruct (named t1); [apply NoDup_singleton|constructor]].
      intros n (t2 & -> & Hin)%list_elem_of_fmap Hin1. apply elem_of_filterb in Hin as [Hin _].
      cbn in Hin1. destruct (named t1) eqn:Hnm; [|by apply elem_of_nil in Hin1].
      apply list_elem_of_singleton in Hin1. unfold named in Hnm. bool_facts. apply String.eqb_neq in Hnm.
      apply Hfresh; [congruence|]. rewrite <-Hname, <-Hin1. apply Hseen; [done|congruence].
    - intros t2 [Hin| ->%list_elem_of_singleton]%elem_of_app Hne; subst seen1; destruct (String.eqb_spec (cName t) "").
      + by apply Hseen.
      + apply elem_of_union_r. by apply Hseen.
      + congruence.
      + set_solver. }
  intros HM. apply Hgen in HM; [|done|constructor|by intros t ?%elem_of_nil].
  destruct HM as (? & ? & ? & ?). by split_and!.
Qed.

Lemma or_default_pos d v : (0 < d)%Z → (0 ≤ or_default d v)%Z → (0 < or_default d v)%Z.
Proof. unfold or_default. destruct (Z.eqb_spec v 0); lia. Qed.

(** the agents [New] makes are well-formed. There is a tunnel, the given
names are distinct, every tunnel's type, target, TLS options, access policy
and custom domains fit each other, the backoff is a range of positive delays,
and the agent's tables have an entry per tunnel. What is checked here is what
the relay checks: it accepts the access policy of every tunnel without OIDC,
and no custom domain is refused for its form. *)
Theorem New_wellformed rid c a :
  New url_Parse rid c = Ok a →
  agent_ok a ∧ Tunnels (cfg a) ≠ [] ∧ Forall tunnel_fits (Tunnels (cfg a)) ∧
  NoDup (cName <$> List.filter named (Tunnels (cfg a))) ∧
  (0 < ReconnectMin (cfg a) ≤ ReconnectMax (cfg a))%Z ∧ (0 < NetworkCheckInterval (cfg a))%Z ∧
  anames a = cName <$> Tunnels c ∧ (rid ≠ "" → AgentID (cfg a) ≠ "") ∧
  ∀ i t s, Tunnels (cfg a) !! i = Some t → cOIDC t = None → is_ok (checkAccess s (cType t) (spec_of a i t)) = true.
Proof.
  unfold New, validate. destruct (negb (bool_decide _)); [done|]. destruct (TLS c) as [tc|]; [|done].
  destruct (String.eqb (tlsServerName tc) ""); [done|]. destruct (String.eqb (Token c) "" && _); [done|].
  set (c1 := if String.eqb (Transport c) "" then _ else c).
  assert (Tunnels c1 = Tunnels c ∧ AgentID c1 = AgentID c) as [HT HA] by (subst c1; by case_match). clearbody c1.
  destruct (negb _ && negb _); [done|]. destruct (negb (ParseProxy _ _)); [done|].
  destruct (bool_decide_reflect (Tunnels c1 = [])) as [|Hne]; [done|].
  destruct (validateTunnels (Tunnels c1)) as [[seen ts]|] eqn:Hts; [|done].
  apply validateTunnels_ok in Hts as (Hfit & Hlen & Hnames & Hnd). rewrite HT in *.
  cbn.
  destruct (_ <? 0)%Z eqn:Hci; [done|]. destruct (_ || _) eqn:Hb; [done|]. bool_facts.
  match goal with |- context [mkAgent ?c _ _ _ _ _ _ _ _] => set (c3 := c) end. intros [= <-].
  assert (Tunnels c3 = ts ∧ ReconnectMin c3 = or_default DefaultReconnectMin (ReconnectMin c1) ∧
    ReconnectMax c3 = or_default DefaultReconnectMax (ReconnectMax c1) ∧
    NetworkCheckInterval c3 = or_default DefaultNetworkCheckInterval (NetworkCheckInterval c1)) as (Ht3 & Hm3 & Hx3 & Hn3)
    by (subst c3; by case_match).
  cbn [cfg anames]. rewrite Ht3, Hm3, Hx3, Hn3. split_and!; try done.
  - split; cbn; rewrite ?length_fmap, ?length_replicate; try done; subst c3; by case_match.
  - by intros ->; destruct (Tunnels c).
  - by apply or_default_pos.
  - by apply or_default_pos.
  - intros Hrid. subst c3. destruct (String.eqb _ _) eqn:He; [done|]. by apply String.eqb_neq in He.
  - intros i t s Hi Ho. destruct (Forall_lookup_1 _ _ _ _ Hfit Hi) as [_ _ _ _ [acc Hacc] _].
    unfold checkAccess. cbn [sPublicPort sAccess spec_of]. rewrite Hacc.
    assert (oidc acc = None) as ->; [|done].
    unfold ValidateSpecAccess in Hacc. destruct (_ && _); [done|].
    destruct (ParseAccess _) as [acc'|] eqn:Hp; [|done].
    assert (acc' = acc) as -> by (repeat (destruct (_ && _); [done|]); by injection Hacc).
    clear -Hp Ho. unfold ParseAccess in Hp. cbn [Oidc accessPolicy] in Hp. rewrite Ho in Hp. cbn in Hp.
    repeat (case_match; [|done]). case_match; [done|]. by injection Hp as <-.
Qed.
End config.

(** ** A sample agent *)

#[local] Existing Instance plain_crypto.
#[local] Existing Instance ascii_only.

Module AgentSample.
Definition ssh : TunnelConfig :=
  mkTunnelConfig "" TUNNEL_TYPE_SSH "" false false 0 [] [] [] None [] "".
Definition raw : TunnelConfig :=
  mkTunnelConfig "raw" TUNNEL_TYPE_TLS "127.0.0.1:8443" false false 0 [] [] [] None ["A.Shop.example."] "".
Definition conf : Config :=
  mkConfig "relay.example:443" (Some (mkTLS "relay.example" 1)) "" "agent-1" "1.0" [ssh; raw] "" "" false 0 0 0.
Definition a : Agent := match New (λ _, None) "rnd" conf with Ok a => a | Err _ => mkAgent conf [] ∅ [] [] false [] (mkConn false 0 None 0) 0 end.
Lemma a_ok : agent_ok a.
Proof. split; try reflexivity. intros id j Hj. vm_compute in Hj. destruct id; discriminate. Defined.

(** A session that could not connect, and one that registered and was cut off;
the timer runs out while the agent waits. *)
Definition fails : round := mkRound (λ a, (a, (false, ErrDial))) false (1 # 2) None [WTimer].
Definition drops : round := mkRound (λ a, (a, (true, ErrRelayClosed))) false 0 None [WTick (Some [IPNet "10.0.0.7"]); WTimer].
Definition refused : round := mkRound (λ a, (a, (false, ErrRemote ERROR_CODE_UNAUTHORIZED))) false 0 None [].
Definition beats : list session_event :=
  [EvTick second None; EvMessage (RPong 1 second) (second + 7)%Z; EvTick (4 * second) None; EvTick (5 * second)%Z None].
End AgentSample.

Lemma New_wellformed_witness :
  is_Some (SplitHostPort (Target (default AgentSample.raw (Tunnels (cfg AgentSample.a) !! 0%nat)))) ∧
  (0 < ReconnectMin (cfg AgentSample.a) ≤ ReconnectMax (cfg AgentSample.a))%Z.
Proof.
  destruct (New_wellformed (λ _, None) "rnd" AgentSample.conf AgentSample.a) as (_ & _ & Hf & _ & Hr & _); [vm_compute; reflexivity|].
  split; [|exact Hr]. refine (tf_target _ (Forall_lookup_1 _ _ 0%nat _ Hf _)). reflexivity.
Defined.

Lemma Run_backoff_witness :
  (Run [AgentSample.fails; AgentSample.fails; AgentSample.fails; AgentSample.drops; AgentSample.refused] AgentSample.a).1.2 =
    [second; 2 * second; 4 * second; 800000000]%Z ∧
  (Run [AgentSample.fails; AgentSample.fails; AgentSample.fails; AgentSample.drops; AgentSample.refused] AgentSample.a).2 =
    Some (Failed (ErrRemote ERROR_CODE_UNAUTHORIZED)).
Proof.
  destruct (Run _ AgentSample.a) as [[a' waits] res] eqn:HR.
  pose proof HR as HR'. vm_compute in HR'. injection HR' as _ _ Hres.
  apply Run_backoff in HR as (Hw & _ & _ & _).
  - split; [|symmetry; exact Hres]. cbv beta iota delta [fst snd]. rewrite Hw. vm_compute. reflexivity.
  - vm_compute. split; discriminate.
  - vm_compute. reflexivity.
  - repeat constructor.
  - repeat constructor; vm_compute; congruence.
Defined.

Lemma heartbeat_detects_witness :
  ended (session_run second "10.0.0.7" AgentSample.beats AgentSample.a (mkState 0 0 true true true None)).1.2 ≠ None.
Proof.
  destruct (heartbeat_detects second "10.0.0.7" 0 AgentSample.beats AgentSample.a) as [_ Hd]; [vm_compute; reflexivity..|].
  apply (Hd [EvTick second None; EvMessage (RPong 1 second) (second + 7)%Z; EvTick (4 * second) None] (5 * second)%Z None []);
    [reflexivity|vm_compute; reflexivity].
Defined.
