(* ===== verification/Wires.v ===== *)
(** * Connections below a session (go/tunnel/transport websocket.go, tls.go,
proxy.go; go/tunnel/sni/sni.go; agent/session.go dial)

[ByteReader] is what the code above expects of a connection that is read: some
bytes at a time, in order, then the end. A WebSocket ([wsConn]) and a connection
whose first bytes were looked at ([sniConn]) keep that promise. Then how an agent
dials: directly or through a proxy, and with both transports against the relay's
router. gorilla's websocket and crypto/tls are libraries: a message's reader
returns any number of its bytes at a time and its end with or after the last
ones, and a handshake is the choice of a protocol. *)

From Stdlib Require Import QArith.
From S2P Require Import Prelude GoStrings Base64 Protocol Policy NetIP Limiter Transport Access NameRegistry RelayTunnels Agent.
From S2P Require Import RelayTunnelsSpec RelayServe RelayServeSpec Connect.
From stdpp Require Import options.
From Stdlib Require Import Init.Byte.
#[local] Open Scope l8_scope.
Import Rules Auth.

(** ** Reading byte streams *)

Inductive read_end := ReadEOF | ReadClosed | ReadMessageType (typ : Z).

(** [read p k eof r]: [Read] with a buffer of [p] bytes; [k] and [eof] are the
library's choices. [good] are the states in which no error is ahead. *)
Class ByteReader (R : Type) := {
  read : nat → nat → bool → R → R * result read_end (list byte);
  stream : R → list byte;
  good : R → Prop;
  read_law p k eof r : (0 < p)%nat → good r →
    good (read p k eof r).1 ∧
    match (read p k eof r).2 with
    | Ok bs => bs ≠ [] ∧ stream r = bs ++ stream (read p k eof r).1
    | Err e => e = ReadEOF ∧ stream r = [] ∧ stream (read p k eof r).1 = []
    end;
}.

(** Reading until the end or an error, as io.Copy and yamux do. *)
Fixpoint read_to_end {R} `{ByteReader R} (script : list (nat * nat * bool)) (r : R) : list byte * option read_end :=
  match script with
  | [] => ([], None)
  | (p, k, eof) :: script =>
      let '(r, res) := read (S p) k eof r in
      match res with
      | Err e => ([], Some e)
      | Ok bs => let '(out, e) := read_to_end script r in (bs ++ out, e)
      end
  end.

(** Any sufficiently long sequence of reads returns the whole stream and its end. *)
Theorem read_to_end_stream {R} `{ByteReader R} script (r : R) : good r → (length (stream r) < length script)%nat →
  read_to_end script r = (stream r, Some ReadEOF).
Proof.
  revert r. induction script as [|[[p k] eof] script IH]; intros r Hg Hl; simpl in *; [lia|].
  destruct (read_law (S p) k eof r ltac:(lia) Hg) as [Hg' Hr]. destruct (read (S p) k eof r) as [r' [bs|e]]; simpl in *.
  - destruct Hr as [Hne Hs]. destruct bs as [|b bs]; [done|].
    rewrite IH; [by rewrite Hs|done|]. rewrite Hs in Hl. simpl in Hl. rewrite length_app in Hl. lia.
  - by destruct Hr as (-> & -> & _).
Qed.

(** ** WebSockets *)

Definition BinaryMessage : Z := 2.

Record wsConn := mkWS {
  reader : option (list byte);        (* of the message being read: what is left *)
  messages : list (Z * list byte);    (* the peer's next messages *)
  normal : bool;                      (* the peer closes with CloseNormalClosure after them *)
}.
#[export] Instance eta_wsConn : Eta wsConn := λ c, mkWS (reader c) (messages c) (normal c).

(** The loop of [Read]. *)
Fixpoint ws_read (p k : nat) (eof : bool) (r : option (list byte)) (msgs : list (Z * list byte)) (fin : bool)
    : wsConn * result read_end (list byte) :=
  match r with
  | Some ((_ :: _) as bs) =>
      let n := Nat.min p (S k) in
      (mkWS (if (length bs <=? n)%nat && eof then None else Some (drop n bs)) msgs fin, Ok (take n bs))
  | _ =>
      match msgs with
      | [] => (mkWS None [] fin, Err (if fin then ReadEOF else ReadClosed))
      | (typ, bs) :: msgs =>
          if negb (typ =? BinaryMessage)%Z then (mkWS None msgs fin, Err (ReadMessageType typ))
          else ws_read p k eof (Some bs) msgs fin
      end
  end.

(** [Write]: one binary message, for the peer to read. *)
Definition ws_write (p : list byte) (c : wsConn) : wsConn := c <| messages := messages c ++ [(BinaryMessage, p)] |>.
(** [Close]: a close message with CloseNormalClosure. *)
Definition ws_close (c : wsConn) : wsConn := c <| normal := true |>.

Definition ws_stream (r : option (list byte)) (msgs : list (Z * list byte)) : list byte := default [] r ++ concat msgs.*2.
Definition ws_good (msgs : list (Z * list byte)) (fin : bool) : Prop := Forall (λ m, m.1 = BinaryMessage) msgs ∧ fin = true.

Lemma ws_read_law p k eof r msgs fin : (0 < p)%nat → ws_good msgs fin →
  let '(c, res) := ws_read p k eof r msgs fin in
  ws_good (messages c) (normal c) ∧
  match res with
  | Ok bs => bs ≠ [] ∧ ws_stream r msgs = bs ++ ws_stream (reader c) (messages c)
  | Err e => e = ReadEOF ∧ ws_stream r msgs = [] ∧ ws_stream (reader c) (messages c) = []
  end.
Proof.
  intros Hp. assert (∀ b bs msgs, ws_good msgs fin →
    let n := Nat.min p (S k) in
    ws_good msgs fin ∧ take n (b :: bs) ≠ [] ∧ ws_stream (Some (b :: bs)) msgs =
      take n (b :: bs) ++ ws_stream (if (length (b :: bs) <=? n)%nat && eof then None else Some (drop n (b :: bs))) msgs) as Hhere.
  { intros b bs ms Hg n. split_and!; [done| |].
    - subst n. by destruct p; [lia|].
    - unfold ws_stream. destruct ((_ <=? n)%nat && eof) eqn:E; cbn [from_option]; unfold id.
      + apply andb_true_iff in E as [E%Nat.leb_le _]. by rewrite take_ge by lia.
      + by rewrite app_assoc, take_drop. }
  revert r. induction msgs as [|[typ bs] msgs IH]; intros r [Hb Hf]; destruct r as [[|b bs']|]; simpl;
    try (by apply Hhere; split).
  1, 2: by subst.
  all: apply Forall_cons in Hb as [Ht Hb]; simpl in Ht; subst typ; rewrite Z.eqb_refl; simpl; specialize (IH (Some bs)); by apply IH.
Qed.

#[export] Program Instance wsConn_reader : ByteReader wsConn := {|
  read p k eof c := ws_read p k eof (reader c) (messages c) (normal c);
  stream c := ws_stream (reader c) (messages c);
  good c := ws_good (messages c) (normal c);
|}.
Next Obligation.
  intros p k eof r Hp Hg. pose proof (ws_read_law p k eof (reader r) (messages r) (normal r) Hp Hg) as H.
  simpl. destruct (ws_read p k eof (reader r) (messages r) (normal r)) as [c [bs|e]]; exact H.
Qed.

(** What is written to a WebSocket that is then closed is read from the other end,
and then its end, however long the writes and the buffers of the reads are. *)
Theorem ws_roundtrip (writes : list (list byte)) script : (length (concat writes) < length script)%nat →
  read_to_end script (ws_close (foldl (λ c p, ws_write p c) (mkWS None [] false) writes)) = (concat writes, Some ReadEOF).
Proof.
  intros Hl. set (c := foldl _ _ _).
  assert (reader c = None ∧ messages c = pair BinaryMessage <$> writes) as [Hr Hm].
  { subst c. assert (∀ c0, reader (foldl (λ c p, ws_write p c) c0 writes) = reader c0 ∧
      messages (foldl (λ c p, ws_write p c) c0 writes) = messages c0 ++ (pair BinaryMessage <$> writes)) as H; [|apply H].
    clear. induction writes as [|w ws IH]; intros c; simpl; [by rewrite app_nil_r|].
    destruct (IH (ws_write w c)) as [-> ->]. split; [done|]. simpl. by rewrite <- app_assoc. }
  assert (stream (ws_close c) = concat writes) as Hs.
  { simpl. rewrite Hr, Hm. unfold ws_stream. simpl. by rewrite <- list_fmap_compose, list_fmap_id. }
  rewrite read_to_end_stream; rewrite ?Hs; [done| |done]. simpl. rewrite Hm. split; [|done].
  apply Forall_fmap, Forall_forall. done.
Qed.

(** ** Looking at the first bytes *)

(** A [Conn] of package sni: the bytes that were read for the ClientHello, then
the connection. *)
Record sniConn R := mkSni { peeked : list byte; under : R }.
Arguments mkSni {_} _ _.
Arguments peeked {_} _.
Arguments under {_} _.

Section sni.
Context {R} `{ByteReader R}.

(** [Read] of [io.MultiReader(&peeked, conn)]. *)
Definition sni_read (p k : nat) (eof : bool) (c : sniConn R) : sniConn R * result read_end (list byte) :=
  if peeked c is [] then let '(r, res) := read p k eof (under c) in (mkSni [] r, res)
  else (mkSni (drop p (peeked c)) (under c), Ok (take p (peeked c))).

#[export] Program Instance sniConn_reader : ByteReader (sniConn R) := {|
  read := sni_read;
  stream c := peeked c ++ stream (under c);
  good c := good (under c);
|}.
Next Obligation.
  intros p k eof [[|b bs] r] Hp Hg; unfold sni_read; simpl in *.
  - pose proof (read_law p k eof r Hp Hg) as Hr. by destruct (read p k eof r) as [r' [x|e]].
  - split; [done|]. split; [by destruct p; [lia|]|]. by rewrite app_assoc, take_drop.
Qed.

(** [Peek]: the TLS library reads through a tee ([script] is how) until it has a
ClientHello ([parse]) and nothing is sent; the result replays what was read. *)
Fixpoint tee_read (script : list (nat * nat * bool)) (r : R) : R * list byte :=
  match script with
  | [] => (r, [])
  | (p, k, eof) :: script =>
      let '(r, res) := read (S p) k eof r in
      if res is Ok bs then let '(r, more) := tee_read script r in (r, bs ++ more) else (r, [])
  end.
Definition Peek {Hello} (parse : list byte → option Hello) (script : list (nat * nat * bool)) (r : R) : option (Hello * sniConn R) :=
  let '(r, seen) := tee_read script r in
  hello ← parse seen;
  Some (hello, mkSni seen r).

Lemma tee_read_stream script r : good r →
  good (tee_read script r).1 ∧ stream r = (tee_read script r).2 ++ stream (tee_read script r).1.
Proof using Type.
  revert r. induction script as [|[[p k] eof] script IH]; intros r Hg; simpl; [done|].
  destruct (read_law (S p) k eof r ltac:(lia) Hg) as [Hg' Hr]. destruct (read (S p) k eof r) as [r' [bs|e]]; simpl in *.
  - destruct Hr as [_ ->]. destruct (IH r' Hg') as [? E]. destruct (tee_read script r') as [r2 more]. simpl in *.
    split; [done|]. by rewrite E, app_assoc.
  - destruct Hr as (_ & -> & ->). done.
Qed.

(** Nothing is lost for the next reader: what it reads is all that was sent. *)
Theorem Peek_replays {Hello} (parse : list byte → option Hello) script r hello c script' :
  good r → Peek parse script r = Some (hello, c) → (length (stream r) < length script')%nat →
  read_to_end script' c = (stream r, Some ReadEOF).
Proof using Type.
  intros Hg Hp Hl. destruct (tee_read_stream script r Hg) as [Hg' Hs]. unfold Peek in Hp.
  destruct (tee_read script r) as [r' seen]. destruct (parse seen); simplify_eq/=. rewrite Hs in *. exact (read_to_end_stream script' (mkSni seen r') Hg' Hl).
Qed.
End sni.

(** ** Dialing the relay *)

Section dial.
Context (url_Parse : string → option URL).
Context (url_User : URL → option (string * string)).        (* the user and password in a URL *)
Context (ProxyFromEnvironment : string → option (option URL)). (* the proxy for an address; an error *)

Inductive dial_err := DialProxy | DialTCP (addr : string) | DialConnect | DialRefused (status : Z) | DialTLS | DialALPN | DialUpgrade.

(** [proxyFor]; [Ok None] is a direct connection. *)
Definition proxyFor (proxy addr : string) : result dial_err (option URL) :=
  if String.eqb proxy ProxyNone then Ok None
  else if String.eqb proxy "" then
    match ProxyFromEnvironment addr with
    | None => Err DialProxy
    | Some None => Ok None
    | Some (Some u) => refuse! negb (String.eqb (Scheme u) "http") with DialProxy ;; Ok (Some u)
    end
  else if parseProxyURL url_Parse proxy is Some u then Ok (Some u) else Err DialProxy.

(** What a proxy is asked in [connect]. *)
Record connect_request := mkCR { crTarget : string; crHost : string; crAuthorization : option (string * string) }.
Definition connect_request_of (u : URL) (addr : string) : connect_request := mkCR addr addr (url_User u).

(** [dialTCP]: [tcp] says which addresses can be reached, [answer] what a proxy
answers ([None] if it does not). *)
Definition dialTCP (tcp : string → bool) (answer : string → connect_request → option Z) (proxy addr : string)
    : result dial_err string :=
  match proxyFor proxy addr with
  | Err e => Err e
  | Ok None => refuse! negb (tcp addr) with DialTCP addr ;; Ok addr
  | Ok (Some u) =>
      refuse! negb (tcp (UHost u)) with DialTCP (UHost u) ;;
      match answer (UHost u) (connect_request_of u addr) with
      | None => Err DialConnect
      | Some status => refuse! negb (status =? 200)%Z with DialRefused status ;; Ok addr
      end
  end.

(** A proxy that connects as asked leads to the relay, with its own credentials and
the relay's address; the settings that an agent accepts are never in the way. *)
Lemma dialTCP_reaches tcp answer proxy addr : ParseProxy url_Parse proxy = true → proxy ≠ "" →
  (∀ a, tcp a = true) → (∀ h u, answer h (mkCR addr addr u) = Some 200%Z) → dialTCP tcp answer proxy addr = Ok addr.
Proof using Type.
  intros Hp Hne Ht Ha. unfold dialTCP, proxyFor, ParseProxy in *. destruct (String.eqb_spec proxy ""); [done|].
  destruct (String.eqb proxy ProxyNone); [by rewrite Ht|]. simpl in Hp. apply bool_decide_eq_true in Hp as [u Hu].
  rewrite Hu, Ht. unfold connect_request_of. by rewrite Ha.
Qed.
End dial.

(** ** The two transports at the relay's router *)

Section router.
Context `{GoUnicode, Crypto, MapRange} (s : Server) (agentCA : bool).

(** The protocols [ClientTLSConfig] and [DialRelayWebSocket] offer. *)
Definition dial_protos (transport : string) : list string :=
  if String.eqb transport TransportWebSocket then ["http/1.1"] else [ALPN].

Inductive dialed := DialedNothing (e : dial_err) | DialedSession | DialedUpgrade | DialedOther.

(** [CheckALPN] *)
Definition CheckALPN (p : string) : bool := String.eqb p ALPN.

(** [Agent.dial] once there is a connection to the relay: the router and the
handshake, then the check of the protocol, or the WebSocket's upgrade, which the
relay serves on connections it has pushed to its WebSocket listener. *)
Definition agent_dial (transport sni : string) (addr : netAddr) (tlvs : list TLV) (reached : string → bool) (now : Z) (x : relay)
    : relay * dialed :=
  let protos := dial_protos transport in
  match serveConn s addr (Some (mkClientHello sni protos)) tlvs reached now x with
  | (x, Terminate cfg next) =>
      match negotiateALPN (NextProtos (newRouteConfigs agentCA cfg)) protos with
      | None => (x, DialedNothing DialTLS)
      | Some p =>
          if String.eqb transport TransportWebSocket then
            (x, if next is PushWebSocket then DialedUpgrade else DialedNothing DialUpgrade)
          else if negb (CheckALPN p) then (x, DialedNothing DialALPN)
          else (x, if next is ServeAgent then DialedSession else DialedOther)
      end
  | (x, (CloseConn | RejectTLS)) => (x, DialedNothing DialTLS)
  | (x, (Passthrough _ | ToOwner _)) => (x, DialedOther)
  end.

(** Both transports of an agent reach the relay's agent handlers by the control
name, as long as the client is within the rate limit for connections. *)
Theorem agent_dials transport sni addr tlvs reached now x : normal_host sni = ControlSNI (rules s) →
  (agent_dial transport sni addr tlvs reached now x).2 =
    if negb (Allow (remoteIP addr) now (connLimit x)).2 then DialedNothing DialTLS
    else if String.eqb transport TransportWebSocket then DialedUpgrade else DialedSession.
Proof using Type.
  intros Hn. unfold agent_dial, serveConn, admit_. destruct (Allow (remoteIP addr) now (connLimit x)) as [lim []]; [|done].
  cbn [ServerName SupportedProtos snd negb]. rewrite Hn, String.eqb_refl. unfold dial_protos.
  by destruct (String.eqb transport TransportWebSocket).
Qed.

(** The raw transport notices every other name: what it takes for a session with
the relay is one. *)
Theorem dial_checks sni addr tlvs reached now x : (agent_dial TransportTLS sni addr tlvs reached now x).2 = DialedSession →
  normal_host sni = ControlSNI (rules s).
Proof using Type.
  unfold agent_dial, serveConn, admit_. destruct (Allow (remoteIP addr) now (connLimit x)) as [lim []]; [|done].
  cbn [ServerName SupportedProtos negb]. destruct (String.eqb_spec (normal_host sni) (ControlSNI (rules s))); [done|].
  destruct (match Login s with Some l => _ | None => false end); [done|].
  destruct (resolveHost _ _ _) as [[ot typ] name]. destruct (match ot with Some _ => None | None => _ end); [done|].
  intros Hd. exfalso. revert Hd. unfold RelayServe.route, serveTokenTunnel.
  repeat (case_match; simplify_eq/=; try done).
Qed.
End router.
