(* ===== verification/Grace.v ===== *)
(** * The grace period (go/tunnel/relay/registry.go, tunnel.go)

What a standalone relay does to the reservations of an agent that is away.
Its session may still be open or be closed at any moment; other agents
register, reconnect and disconnect, the grace timers of other reservations end, the
operator reserves names and revokes tokens. A timer that was stopped does not
fire, and one that was not stopped fires at its time or later. *)

From S2P Require Import Prelude GoStrings Protocol Policy NetIP Access NameRegistry NameRegistryInv NameRegistrySpec RelayTunnels RelayTunnelsSpec.
From stdpp Require Import options.
Import Rules Auth.
#[local] Open Scope l8_scope.

(** ** What no operation changes *)

(** The grace period and the mode of a registry. *)
Definition mode (r : nameRegistry) : Z * bool * bool := (grace r, closed r, clustered r).

Lemma mode_claim `{MapRange} n ty tok agent i mx r : mode (claim n ty tok agent i mx r).1 = mode r.
Proof. unfold claim. by repeat case_match. Qed.
Lemma mode_setDomains l ds r : mode (setDomains l ds r).1 = mode r.
Proof. unfold setDomains. by case_match. Qed.
Lemma mode_deleteLocked l r : mode (deleteLocked l r) = mode r.
Proof. unfold deleteLocked. destruct (heap r !! l); [|done]. by destruct (bool_decide _), (negb _). Qed.
Lemma mode_park now l i r : mode (park now l i r) = mode r.
Proof. unfold park. repeat case_match; by rewrite ?mode_deleteLocked. Qed.
Lemma mode_rollback now l i ex r : mode (rollback now l i ex r) = mode r.
Proof. unfold rollback. repeat case_match; by rewrite ?mode_park, ?mode_deleteLocked. Qed.
Lemma mode_expire l r : mode (expire l r) = mode r.
Proof. unfold expire. repeat case_match; by rewrite ?mode_deleteLocked. Qed.
Lemma mode_setPort l p r : mode (setPort l p r) = mode r.
Proof. unfold setPort. by destruct (negb _ && negb _). Qed.
Lemma mode_reserve n tok p r : mode (reserve n tok p r).1 = mode r.
Proof. unfold reserve. destruct (l ← names r !! n; _) as [[l res]|]; repeat (case_match; simplify_eq/=; try done). Qed.
Lemma mode_unreserve n r : mode (unreserve n r) = mode r.
Proof. unfold unreserve. repeat case_match; by rewrite ?mode_deleteLocked. Qed.

Lemma mode_foldl {A B} (f : nameRegistry * B → A → nameRegistry * B) l acc :
  (∀ acc x, mode (f acc x).1 = mode acc.1) → mode (foldl f acc l).1 = mode acc.1.
Proof. intros Hf. revert acc. induction l as [|x l IH]; intros acc; [done|]. cbn [foldl]. by rewrite IH. Qed.

Lemma mode_releaseToken `{MapRange} tok r : mode (releaseToken tok r).1 = mode r.
Proof.
  unfold releaseToken. apply (mode_foldl _ _ (r, [])). intros [r1 ss] [n l]. cbn [fst].
  repeat case_match; cbn [fst]; by rewrite ?mode_deleteLocked.
Qed.

Lemma mode_tryListen can_bind p r : mode (tryListen can_bind p r).1 = mode r.
Proof. unfold tryListen, reservePort. repeat case_match; by simplify_eq. Qed.

Lemma mode_first_port can_bind fuel p hi r : mode (first_port can_bind fuel p hi r).1 = mode r.
Proof.
  revert p r. induction fuel as [|fuel IH]; intros p r; [done|]. cbn [first_port]. case_match; [|done].
  pose proof (mode_tryListen can_bind p r) as Ht. destruct (tryListen _ _ _) as [r1 [|]]; cbn in *; [done|]. by rewrite IH.
Qed.

Lemma mode_listen can_bind `{GoUnicode} s l req prev policy r : mode (listenTunnelPort can_bind s l req prev policy r).1 = mode r.
Proof.
  unfold listenTunnelPort. case_match; [by case_match|]. case_match.
  - pose proof (mode_tryListen can_bind req r) as Ht. destruct (CheckRequestedPort _ _ _) as [|e]; [|by destruct e].
    destruct (tryListen _ _ _) as [r1 [|]]; cbn in *; by rewrite ?mode_setPort.
  - destruct (AllocationRange _ _) as [[lo hi]|]; [|done].
    assert (∀ r1, mode r1 = mode r → mode (let '(r, got) := first_port can_bind (Z.to_nat (hi - lo + 1)) lo hi r1 in
      match got with Some p => (setPort l p r, Ok p) | None => (r, Err (RemoteErr ERROR_CODE_PORT_UNAVAILABLE)) end).1 = mode r) as Hfp.
    { intros r1 Hr1. pose proof (mode_first_port can_bind (Z.to_nat (hi - lo + 1)) lo hi r1) as Hf.
      destruct (first_port _ _ _ _ _) as [r2 [p|]]; cbn [fst] in *; by rewrite ?mode_setPort, Hf. }
    destruct ((lo <=? prev)%Z && (prev <=? hi)%Z); [|by apply Hfp]. pose proof (mode_tryListen can_bind prev r) as Ht.
    destruct (tryListen _ _ _) as [r1 [|]]; cbn [fst] in Ht; [cbn [fst]; by rewrite mode_setPort|by apply Hfp].
Qed.

Section relay.
Context `{GoUnicode, Crypto, MapRange} (s : Server).

Lemma mode_openTunnel can_bind now sess x spec r : mode (openTunnel can_bind s now sess x spec r).1 = mode r.
Proof.
  unfold openTunnel. do 2 (case_match; [done|]). destruct (checkAccess _ _ _) as [a|]; [|done].
  do 3 (case_match; [done|]). destruct (checkDomains _ _ _ _) as [ds|]; [|done].
  pose proof (mode_claim (tunnel_name x spec) (sType spec) (ID (token sess)) (sessAgentID sess) (sid sess)
    (MaxTunnels (TPolicy (token sess))) r) as Hc.
  destruct (claim _ _ _ _ _ _ _) as [r1 [[l ex]|err]]; cbn [fst] in Hc; [|by destruct err].
  pose proof (mode_setDomains l ds r1) as Hd. destruct (setDomains _ _ _) as [r2 [[]|d]]; cbn [fst] in Hd;
    [|cbn [fst]; by rewrite mode_rollback, Hd].
  destruct (Cluster s) as [c|].
  - destruct (claimInCluster _ _ _ _ _ _ _); cbn [fst]; [exact (eq_trans Hd Hc)|by rewrite mode_rollback, Hd].
  - case_match; [|case_match; exact (eq_trans Hd Hc)].
    pose proof (mode_listen can_bind s l (Z.of_N (sPublicPort spec)) (Z.of_N (sPreviousPort spec)) (TPolicy (token sess)) r2) as Hls.
    destruct (listenTunnelPort _ _ _ _ _ _ _) as [r3 [p|err]]; cbn [fst] in *; [|rewrite mode_rollback];
      exact (eq_trans Hls (eq_trans Hd Hc)).
Qed.

Lemma mode_undo now sess opened r : mode (undo s now sess opened r).1 = mode r.
Proof.
  unfold undo. pose proof (mode_foldl (λ '(r, fx) o, (rollback now (tres o) (sid sess) (existed o) r, fx ++ [StopTunnel (tid o)]))
    opened (r, [])) as Hf.
  destruct (foldl _ _ _). apply Hf. intros [r1 fx] o. apply mode_rollback.
Qed.

Lemma mode_open_all can_bind now sess specs opened r : mode (open_all can_bind s now sess specs opened r).1.1 = mode r.
Proof.
  revert opened r. induction specs as [|[x spec] specs IH]; intros opened r; [done|]. cbn [open_all].
  pose proof (mode_openTunnel can_bind now sess x spec r) as Ho. destruct (openTunnel _ _ _ _ _ _ _) as [r1 [t|e]]; cbn [fst] in *.
  - by rewrite IH.
  - by rewrite mode_undo.
Qed.

Lemma mode_register can_bind now sess specs r : mode (register can_bind s now sess specs r).1.1.1 = mode r.
Proof.
  unfold register. destruct specs as [|sp specs]; [done|]. pose proof (mode_open_all can_bind now sess (sp :: specs) [] r) as Ho.
  by destruct (open_all _ _ _ _ _ _ _) as [[r1 fx] [o|[c|]]].
Qed.

Lemma closeTunnels_registry now sess r :
  (closeTunnels s now sess r).1.1 = foldl (λ r t, park now (tres t) (sid sess) r) r (tunnels sess).
Proof.
  unfold closeTunnels. assert (∀ fx, (foldl (λ '(r, fx) t, (park now (tres t) (sid sess) r, fx ++ [StopTunnel (tid t)]))
    (r, fx) (tunnels sess)).1 = foldl (λ r t, park now (tres t) (sid sess) r) r (tunnels sess)) as Hf.
  { revert r. induction (tunnels sess) as [|t ts IH]; intros r fx; [done|]. cbn [foldl]. apply IH. }
  specialize (Hf []). by destruct (foldl _ (r, []) _).
Qed.

Lemma mode_parks now i (ts : list tunnel_t) r : mode (foldl (λ r t, park now (tres t) i r) r ts) = mode r.
Proof. revert r. induction ts as [|t ts IH]; intros r; [done|]. cbn [foldl]. by rewrite IH, mode_park. Qed.

(** A relay keeps the grace period it was started with, and stays standalone. *)
Lemma relay_step_grace r r' : relay_step s r r' → grace r' = grace r ∧ clustered r' = clustered r.
Proof.
  assert (∀ r1 r2, mode r1 = mode r2 → grace r1 = grace r2 ∧ clustered r1 = clustered r2) as Hm by (by intros r1 r2 [= -> _ ->]).
  intros [].
  - apply Hm, mode_register.
  - rewrite closeTunnels_registry. apply Hm, mode_parks.
  - apply Hm, mode_expire.
  - apply Hm, mode_reserve.
  - apply Hm, mode_unreserve.
  - apply Hm, mode_releaseToken.
  - unfold close. set (r0 := r <| closed := true |>). apply (Hm _ r0). apply (foldl_inv (λ r1, mode r1 = mode r0)); [done|].
    intros r1 [n x] _ Hr1. repeat case_match; by rewrite ?mode_deleteLocked.
Qed.

Lemma relay_steps_grace g r : rtc (relay_step s) (newNameRegistry g) r → grace r = g ∧ clustered r = false.
Proof.
  intros Hr. assert (grace r = grace (newNameRegistry g) ∧ clustered r = clustered (newNameRegistry g)) as [-> ->]; [|done].
  induction Hr as [|r1 r2 r3 [<- <-]%relay_step_grace _ IH]; [done|exact IH].
Qed.

(** ** While the agent is away *)

(** One step of the relay at time [t], for an agent that is away and has
tunnels with names [ns] under token [T]. Other sessions, with another token or
for other names, register; any session is closed, the agent's own one too; the
timer of a reservation ends; the operator reserves and frees other names (or
tries to reserve these for another token) and revokes other tokens. *)
Inductive others_step (T : string) (ns : list string) (t : Z) (r : nameRegistry) : nameRegistry → Prop :=
| others_register can_bind sess specs :
    ID (token sess) ≠ T ∨ (∀ n, n ∈ ns → n ∉ asked specs) →
    others_step T ns t r (register can_bind s t sess specs r).1.1.1
| others_close sess : others_step T ns t r (closeTunnels s t sess r).1.1
| others_expire l res :
    heap r !! l = Some res → timer res = true → (expires res ≤ t)%Z → others_step T ns t r (expire l r)
| others_reserve n tok p : tok ≠ T ∨ n ∉ ns → others_step T ns t r (reserve n tok p r).1
| others_unreserve n : n ∉ ns → others_step T ns t r (unreserve n r)
| others_release tok : tok ≠ T → others_step T ns t r (releaseToken tok r).1.

(** Such steps, at times from [from] on and before [till]. *)
Definition meanwhile (T : string) (ns : list string) (from till : Z) : nameRegistry → nameRegistry → Prop :=
  rtc (λ r r', ∃ t, (from ≤ t < till)%Z ∧ others_step T ns t r r').

Lemma others_relay T ns t r r' : others_step T ns t r r' → relay_step s r r'.
Proof. intros []; constructor. Qed.

Lemma others_mode T ns t r r' : others_step T ns t r r' → mode r' = mode r.
Proof.
  intros [].
  - apply mode_register.
  - rewrite closeTunnels_registry. apply mode_parks.
  - apply mode_expire.
  - apply mode_reserve.
  - apply mode_unreserve.
  - apply mode_releaseToken.
Qed.

(** What becomes of a reservation [res] that is waited for until [limit]: it is
still bound to its session, or is held, permanently or until [limit] at
least. *)
Definition awaits (limit : Z) (res res' : reservation) : Prop :=
  name res' = name res ∧ tokenID res' = tokenID res ∧ domains res' = domains res ∧ port res' = port res ∧
  ((session res' = None ∧ (permanent res' = false → (limit ≤ expires res')%Z)) ∨
   (session res' = session res ∧ agentID res' = agentID res)).

Definition waited (limit : Z) (r : nameRegistry) (l : loc) (res : reservation) : Prop :=
  ∃ res', live r l res' ∧ awaits limit res res'.

Lemma waited_live limit r r' l res : (∀ res', live r l res' → name res' = name res → tokenID res' = tokenID res → live r' l res') →
  waited limit r l res → waited limit r' l res.
Proof. intros Hk (res' & Hl & Ha). exists res'. split; [|done]. by apply Hk; [|apply Ha..]. Qed.

Lemma waited_park limit t i r l l' res :
  closed r = false → clustered r = false → (limit ≤ t + grace r)%Z →
  waited limit r l res → waited limit (park t l' i r) l res.
Proof.
  intros Hc Hk Hlim (res' & Hl & Ha). destruct (decide (l' = l)) as [->|Hne].
  - destruct (decide (session res' = Some i)) as [Hs|Hs].
    + destruct (park_update t r l res' i Hl Hs Hc Hk) as (f & -> & Hn & Hd & Hp & Ht & Hsn & _ & Hex & Hpm).
      exists (f res'). split; [by apply live_update_same|]. destruct Ha as (? & ? & ? & ? & _).
      split_and!; [by rewrite Hn|congruence|by rewrite Hd|by rewrite Hp|]. left. split; [done|].
      rewrite Hpm. intros Hpf. by rewrite (proj2 (Hex Hpf)).
    + exists res'. split; [|done]. unfold park. rewrite (proj1 Hl), bool_decide_false by done. done.
  - exists res'. split; [|done]. unfold park. destruct (heap r !! l') as [res1|]; [|done].
    case_match; [done|]. case_match; [by apply live_update_ne|].
    change (closed (update l' unbind r)) with (closed r). change (clustered (update l' unbind r)) with (clustered r).
    rewrite Hc, Hk. cbn [orb andb]. case_match; [|by apply live_update_ne].
    rewrite update_update. by apply live_update_ne.
Qed.

Lemma waited_expire limit t r l l' res res1 :
  inv r → heap r !! l' = Some res1 → (expires res1 ≤ t < limit)%Z → is_Some (session res) →
  waited limit r l res → waited limit (expire l' r) l res.
Proof.
  intros Hi Hh1 Ht Hsome (res' & Hl & Ha). unfold expire. rewrite Hh1. destruct (decide (l' = l)) as [->|Hne].
  - assert (res1 = res') as -> by (destruct Hl; congruence). exists res'. split; [|done].
    destruct Ha as (_ & _ & _ & _ & [[Hs Hp]|[Hs _]]).
    + destruct (permanent res'); [by rewrite andb_false_r|]. specialize (Hp eq_refl). lia.
    + rewrite (bool_decide_false (session res' = None)) by (rewrite Hs; by apply not_eq_None_Some).
      by rewrite andb_false_r.
  - exists res'. split; [|done]. case_match; [|done]. by apply live_deleteLocked.
Qed.

Lemma reserve_others n tok p r l res :
  inv r → live r l res → tok ≠ tokenID res ∨ n ≠ name res → live (reserve n tok p r).1 l res.
Proof.
  intros Hi Hl Hother.
  destruct (reserve_cases n tok p r Hi) as [[e ->]|(r1 & l1 & res1 & Hr1 & Hl1 & Hn1 & Ht1 & Hp & ->)]; [done|].
  rewrite (reserve_found _ _ _ _ l1 res1) by done. cbn [fst].
  assert (live r1 l res) as Hl'.
  { destruct Hr1 as [->|[Hnew ->]]; [done|]. apply live_add; [done|]. right. split; [|done]. intros ->.
    destruct Hl as [Hh _]. by rewrite fresh_loc_None in Hh. }
  assert (l ≠ l1) as Hne.
  { intros ->. assert (res1 = res) as -> by (destruct Hl1, Hl'; congruence). destruct Hother; congruence. }
  apply live_update_ne; [intros y; apply make_permanent_frame|done|].
  destruct (negb (p =? 0)%Z && negb (port res1 =? p)%Z); [|done]. unfold setPort.
  destruct (negb _ && negb _); apply live_update_ne; try done; unfold reservePort; by case_match.
Qed.

Lemma unreserve_others n r l res : inv r → live r l res → n ≠ name res → live (unreserve n r) l res.
Proof.
  intros Hi Hl Hn. unfold unreserve. destruct (names r !! n) as [l1|] eqn:Hn1; [|done]. cbn.
  destruct (inv_name r Hi _ _ Hn1) as (res1 & Hh1 & Hname1). rewrite Hh1. cbn.
  assert (l ≠ l1) as Hne by (intros ->; destruct Hl; congruence).
  case_match; [done|]. case_match; [|by apply live_update_ne].
  apply live_deleteLocked; [by apply inv_update|]. split; [done|]. by apply live_update_ne.
Qed.

Lemma releaseToken_others tok r l res : inv r → live r l res → tokenID res ≠ tok → live (releaseToken tok r).1 l res.
Proof.
  intros Hi Hl Ht. unfold releaseToken. pose proof (foldl_inv (λ acc : nameRegistry * list session_id, inv acc.1 ∧ live acc.1 l res)
    (λ '(r, sessions) '(_, l), match heap r !! l with
       | Some res => if String.eqb (tokenID res) tok
                     then (deleteLocked l r, sessions ++ match session res with Some s => [s] | None => [] end)
                     else (r, sessions)
       | None => (r, sessions) end) (range (names r)) (r, [])) as Hf.
  apply Hf; [done|]. intros [r1 ss] [n l1] _ [Hi1 Hl1]. cbn [fst] in *. destruct (heap r1 !! l1) as [res1|] eqn:Hh1; [|done].
  destruct (String.eqb_spec (tokenID res1) tok) as [Ht1|]; [|done]. cbn [fst]. split; [by apply inv_delete|].
  apply live_deleteLocked; [done|]. split; [|done]. intros ->. destruct Hl1. congruence.
Qed.

(** A reservation that is waited for stays, over steps before the limit. *)
Lemma others_waited T ns from t r r' l res :
  (1 ≤ PortMin (rules s))%Z → inv r → ports_ok ∅ r → closed r = false → clustered r = false →
  (from ≤ t < from + grace r)%Z → tokenID res = T → name res ∈ ns → is_Some (session res) →
  others_step T ns t r r' → waited (from + grace r) r l res → waited (from + grace r) r' l res.
Proof.
  intros Hmin Hi Ho Hc Hk Ht HT Hns Hs Hstep Hw. destruct Hstep as [can_bind sess specs Hoth|sess|l' res1 Hh1 _ Hex|n tok p Hoth|n Hn|tok Htok].
  - revert Hw. apply waited_live. intros res' Hl' Hn' Ht'. destruct Hoth as [Htok|Hask].
    + pose proof (register_grew can_bind s Hmin t sess specs r Hi Ho) as Hg.
      destruct (register _ _ _ _ _ _) as [[[r2 sess'] fx] rep]. destruct Hg as (opened & Hg & _).
      apply (gr_keep _ _ _ _ _ Hg l res' Hl'). right. congruence.
    + apply register_kept; [done..|]. rewrite Hn'. by apply Hask.
  - rewrite closeTunnels_registry. assert (∀ ts r1, mode r1 = mode r → waited (from + grace r) r1 l res →
      waited (from + grace r) (foldl (λ r t0, park t (tres t0) (sid sess) r) r1 ts) l res) as Hloop; [|by apply Hloop].
    induction ts as [|x ts IH]; intros r1 Hm Hw1; [done|]. cbn [foldl]. apply IH; [by rewrite mode_park|].
    injection Hm as Hg1 Hc1 Hk1. apply waited_park; [congruence..|lia|done].
  - eapply (waited_expire _ t); [done|done|lia|done..].
  - revert Hw. apply waited_live. intros res' Hl' Hn' Ht'. apply reserve_others; [done..|].
    destruct Hoth as [?|Hn]; [left; congruence|right]. rewrite Hn'. by intros ->.
  - revert Hw. apply waited_live. intros res' Hl' Hn' Ht'. apply unreserve_others; [done..|]. rewrite Hn'. by intros ->.
  - revert Hw. apply waited_live. intros res' Hl' Hn' Ht'. apply releaseToken_others; [done..|congruence].
Qed.

Lemma meanwhile_ok T ns from till r r' :
  (1 ≤ PortMin (rules s))%Z → inv r → ports_ok ∅ r → meanwhile T ns from till r r' → inv r' ∧ ports_ok ∅ r'.
Proof.
  intros Hmin Hi Ho Hm. induction Hm as [|ra rb rc (t & _ & Hstep) _ IH]; [done|].
  destruct (relay_step_ok s Hmin _ _ (others_relay _ _ _ _ _ Hstep) Hi Ho). by apply IH.
Qed.

(** A bound reservation is waited for through the whole time. *)
Lemma meanwhile_waited T ns from r r' l res :
  (1 ≤ PortMin (rules s))%Z → inv r → ports_ok ∅ r → closed r = false → clustered r = false →
  tokenID res = T → name res ∈ ns → is_Some (session res) → live r l res →
  meanwhile T ns from (from + grace r) r r' → waited (from + grace r) r' l res.
Proof.
  intros Hmin Hi Ho Hc Hk HT Hns Hs Hl Hm.
  assert (waited (from + grace r) r l res) as Hw by (exists res; split; [done|]; by split_and!; auto).
  clear Hl. remember (from + grace r)%Z as till eqn:Htill. revert Htill Hw.
  induction Hm as [|ra rb rc (t & Ht & Hstep) _ IH]; intros Htill Hw; [done|].
  pose proof (others_mode _ _ _ _ _ Hstep) as Hmode. injection Hmode as Hg Hc1 Hk1.
  destruct (relay_step_ok s Hmin _ _ (others_relay _ _ _ _ _ Hstep) Hi Ho) as [Hi1 Ho1].
  apply IH; [done|done|congruence..|]. subst till. by eapply others_waited.
Qed.
End relay.
