(* ===== verification/AgentRelay.v ===== *)
(** * Agent and relay together

The agent's handshake against the relay's handlers: a visitor of a tunnel's
public name ends at the target the agent has configured for it, and an agent
that reconnects within the grace period keeps its names, ports and domains,
whatever others did meanwhile (Grace.v). *)

From S2P Require Import Prelude GoStrings Base64 Protocol Policy NetIP Limiter Transport Access NameRegistry NameRegistryInv NameRegistrySpec RelayTunnels RelayTunnelsSpec Grace RelayServe RelayServeSpec Agent AgentSpec.
From stdpp Require Import options.
#[local] Open Scope l8_scope.
Import Rules Auth.

(** ** What a successful registration granted *)

Section standalone.
Context (can_bind : Z → bool) `{HU : GoUnicode, HC : Crypto, HR : MapRange}.
Context (s : Server) (Hmin : (1 ≤ PortMin (rules s))%Z).

Definition wants_port (ty : TunnelType) (a : Access) : bool := hasPublicPort ty && negb (RequiresToken a).

(** The endpoint of a tunnel on a standalone relay, [p] its public port. *)
Definition endpoint_for (id n : string) (ty : TunnelType) (ds : list string) (a : Access) (p : Z) : Endpoint :=
  let host := n +:+ "." +:+ BaseDomain (rules s) in
  let e := mkEndpoint id n ty "" 0 host ds in
  if wants_port ty a
  then e <| PublicPort := uint32 p |> <| PublicAddress := JoinHostPort (PublicHost s) (Itoa p) |>
  else if isHTTP ty then e <| PublicAddress := "https://" +:+ httpsHost s host |>
  else e <| PublicAddress := JoinHostPort host (Itoa (publicHTTPSPort s)) |>.

(** The checks of [openTunnel] that do not look at the registry. *)
Record passes (sess : agentSession) (n : string) (spec : TunnelSpec) (a : Access) (ds : list string) : Prop := {
  pa_type : sType spec ≠ TUNNEL_TYPE_UNSPECIFIED;
  pa_allowed : AllowsType (TPolicy (token sess)) (TunnelTypeName (sType spec)) = true;
  pa_access : checkAccess s (sType spec) spec = Ok a;
  pa_valid : ValidName n = true;
  pa_name : AllowsName (TPolicy (token sess)) n = true;
  pa_free : IsReserved (rules s) n = false;
  pa_domains : checkDomains s sess (sType spec) spec = Ok ds;
}.

(** A reservation of the token that session [i] of the agent may claim, with
the domains and the port of the tunnel. *)
Definition kept (tok agent : string) (i : session_id) (r : nameRegistry) (n : string) (ds : list string)
    (ty : TunnelType) (a : Access) (p : Z) : Prop :=
  ∃ l res, live r l res ∧ name res = n ∧ tokenID res = tok ∧ domains res = ds ∧ (wants_port ty a = true → port res = p) ∧
    match session res with None => True | Some j => j ≠ i ∧ agentID res = agent end.

(** The names a token has connected tunnels under. *)
Definition active_at (r : nameRegistry) (tok : string) (l : loc) : bool :=
  match heap r !! l with
  | Some res => String.eqb (tokenID res) tok && bool_decide (is_Some (session res))
  | None => false
  end.
Definition active_names (r : nameRegistry) (tok : string) : gset string :=
  dom (filter (λ p, active_at r tok p.2 = true) (names r)).

Lemma elem_of_active r tok n :
  inv r → n ∈ active_names r tok ↔
  ∃ l res, live r l res ∧ name res = n ∧ tokenID res = tok ∧ is_Some (session res).
Proof.
  intros Hi. unfold active_names. rewrite elem_of_dom. unfold is_Some at 1. setoid_rewrite map_lookup_filter_Some.
  cbn [snd]. unfold active_at. split.
  - intros (l & Hl & Ha). destruct (inv_name r Hi _ _ Hl) as (res & Hh & Hn). rewrite Hh in Ha. bool_facts.
    exists l, res. split_and!; [split; [done|by rewrite Hn]|done|by apply String.eqb_eq|done].
  - intros (l & res & [Hh Hn] & <- & <- & Hs). exists l. rewrite Hh, String.eqb_refl, bool_decide_true by done. done.
Qed.

(** The relay counts the token's connected tunnels but the one asked for. *)
Lemma activeLocked_size r tok n :
  inv r → activeLocked r tok (names r !! n) = Z.of_nat (size (active_names r tok ∖ {[n]})).
Proof.
  intros Hi. unfold activeLocked.
  set (f := λ p : string * loc, active_at r tok p.2 && negb (bool_decide (Some p.2 = names r !! n))).
  rewrite (foldl_count f).
  2:{ intros z [m l]. subst f. unfold active_at. cbn. by destruct (heap r !! l). }
  rewrite Z.add_0_l. f_equal. rewrite <-(length_fmap fst).
  assert (NoDup (List.filter f (range (names r))).*1) as Hnd.
  { eapply sublist_NoDup; [apply (NoDup_range (names r))|]. apply fmap_sublist, sublist_filterb. }
  rewrite <-(size_list_to_set (C := gset string)) by done. f_equal. apply set_eq. intros m.
  rewrite elem_of_list_to_set, list_elem_of_fmap, elem_of_difference, not_elem_of_singleton.
  unfold active_names. rewrite elem_of_dom. unfold is_Some. setoid_rewrite map_lookup_filter_Some. cbn [snd].
  subst f. split.
  - intros ([m' l] & -> & [Hin Hf]%elem_of_filterb). apply elem_of_range in Hin. cbn in *. bool_facts.
    split; [by exists l|]. intros ->. by rewrite Hin in *.
  - intros ((l & Hl & Ha) & Hne). exists (m, l). split; [done|]. apply elem_of_filterb. split; [by apply elem_of_range|].
    cbn. rewrite Ha. cbn. rewrite bool_decide_false; [done|]. intros Heq. apply Hne.
    destruct (inv_name r Hi _ _ Hl) as (res & Hh & <-). symmetry in Heq.
    destruct (inv_name r Hi _ _ Heq) as (res' & Hh' & <-). congruence.
Qed.

(** ** Opening a tunnel, and opening it again *)

Context (Halone : Cluster s = None).

Definition room (sess : agentSession) (r : nameRegistry) (n : string) : Prop :=
  (0 < MaxTunnels (TPolicy (token sess)))%Z →
  (activeLocked r (ID (token sess)) (names r !! n) < MaxTunnels (TPolicy (token sess)))%Z.

Definition port_granted (spec : TunnelSpec) (a : Access) (p : Z) : Prop :=
  wants_port (sType spec) a = true →
  can_bind p = true ∧ p ≠ 0%Z ∧ (Z.of_N (sPublicPort spec) = 0%Z ∨ Z.of_N (sPublicPort spec) = p).

(** The reservation a session holds for a tunnel. *)
Definition holds_for (sess : agentSession) (n : string) (ds : list string) (ty : TunnelType) (a : Access) (p : Z)
    (res : reservation) : Prop :=
  name res = n ∧ tokenID res = ID (token sess) ∧ agentID res = sessAgentID sess ∧ session res = Some (sid sess) ∧
  domains res = ds ∧ (wants_port ty a = true → port res = p).

Lemma stop_timer_agent res : agentID (stop_timer res) = agentID res ∧ tokenID (stop_timer res) = tokenID res.
Proof. unfold stop_timer. by destruct (timer res). Qed.

Lemma claim_held n ty tok agent i mx r r1 l ex :
  inv r → claim n ty tok agent i mx r = (r1, Ok (l, ex)) →
  ((0 < mx)%Z → (activeLocked r tok (names r !! n) < mx)%Z) ∧
  ∃ res, live r1 l res ∧ name res = n ∧ tokenID res = tok ∧ agentID res = agent ∧ session res = Some i.
Proof.
  intros Hi Hc. pose proof (claim_cases_of n ty tok agent i mx r Hi) as Hcs. rewrite Hc in Hcs.
  inversion Hcs as [|Hn Hcap|l' res st Hl Hname Hmay Hcap]; subst.
  - rewrite Hn. split; [done|]. eexists. rewrite live_add by done. split; [by left|done].
  - rewrite (proj2 Hl). split; [done|]. exists (rebind ty agent i res). split.
    + apply live_update_same; [intros x; apply (stop_timer_frame x)|done].
    + split_and!; [apply (stop_timer_frame res)| |done|done]. unfold rebind. cbn.
      rewrite (proj2 (stop_timer_agent res)). unfold holder_at, may_claim in Hmay. cbn in Hmay.
      rewrite (proj1 Hl) in Hmay. cbn in Hmay. by destruct Hmay.
Qed.

Lemma setDomains_held l ds r r' res :
  live r l res → setDomains l ds r = (r', Ok tt) → live r' l (res <| domains := ds |>).
Proof.
  intros [Hh Hn] (_ & Hheap & Hnames & _)%setDomains_ok. split; [by rewrite Hheap, lookup_alter_eq, Hh|]. cbn. by rewrite Hnames.
Qed.

Lemma listen_held l res req prev policy r r' p :
  live r l res → listenTunnelPort can_bind s l req prev policy r = (r', Ok p) →
  live r' l (res <| port := p |>) ∧ p ≠ 0%Z ∧ can_bind p = true ∧ (req = 0%Z ∨ req = p).
Proof using Hmin.
  intros Hl Hls. pose proof (listenTunnelPort_cases can_bind s l req prev policy r) as Hc. rewrite Hls in Hc. cbn in Hc.
  destruct Hc as [(-> & Hp & Hp0 & Hreq & Hb)|([_ Hb] & Hchk & Hreq & ->)].
  - split_and!; try done. unfold portOf in Hp. rewrite (proj1 Hl) in Hp. cbn in Hp. subst p. by destruct res.
  - apply CheckRequestedPort_min in Hchk. split_and!; [|lia|done|done].
    unfold setPort. destruct (_ && _); by apply live_update_same.
Qed.

Lemma openTunnel_opened now sess x spec r r' t :
  inv r → ports_ok ∅ r → openTunnel can_bind s now sess x spec r = (r', Ok t) →
  let n := tunnel_name x spec in let ds := EDomains (endpoint t) in
  ∃ p res, passes sess n spec (access t) ds ∧ room sess r n ∧ port_granted spec (access t) p ∧
    endpoint t = endpoint_for (random_id x) n (sType spec) ds (access t) p ∧
    live r' (tres t) res ∧ holds_for sess n ds (sType spec) (access t) p res.
Proof using Hmin Halone.
  intros Hi Ho. unfold openTunnel. rewrite Halone.
  destruct (bool_decide (sType spec = _)) eqn:Htype; [done|]. bool_facts.
  destruct (AllowsType _ _) eqn:Hat; cbn [negb]; [|done].
  destruct (checkAccess _ _ _) as [a|] eqn:Hca; [|done]. destruct (ValidName _) eqn:Hvalid; cbn [negb]; [|done].
  destruct (AllowsName _ _) eqn:Han; cbn [negb]; [|done]. destruct (IsReserved _ _) eqn:Hres; [done|].
  destruct (checkDomains _ _ _ _) as [ds|] eqn:Hcd; [|done].
  destruct (claim _ _ _ _ _ _ _) as [r1 [[l ex]|err]] eqn:Hc; [|by destruct err].
  pose proof (claim_holds _ _ _ _ _ _ _ _ _ _ Hi Ho Hc) as Hh.
  destruct (claim_held _ _ _ _ _ _ _ _ _ _ Hi Hc) as (Hroom & res1 & Hl1 & Hn1 & Ht1 & Ha1 & Hs1).
  apply (holds_setDomains _ _ _ _ _ _ _ ds) in Hh.
  destruct (setDomains l ds r1) as [r2 [[]|d]] eqn:Hsd; cbn [fst] in Hh; [|done].
  pose proof (setDomains_held _ _ _ _ _ Hl1 Hsd) as Hl2.
  assert (passes sess (tunnel_name x spec) spec a ds) as Hpass by (by split).
  assert (∀ r3 res3 e ln p, live r3 l res3 → holds_for sess (tunnel_name x spec) ds (sType spec) a p res3 →
    port_granted spec a p → e = endpoint_for (random_id x) (tunnel_name x spec) (sType spec) ds a p →
    let t := mkTunnelT (new_tid x) l ex e ln a in let ds := EDomains (endpoint t) in
    ∃ p res, passes sess (tunnel_name x spec) spec (access t) ds ∧ room sess r (tunnel_name x spec) ∧
      port_granted spec (access t) p ∧ endpoint t = endpoint_for (random_id x) (tunnel_name x spec) (sType spec) ds (access t) p ∧
      live (activate l (new_tid x) r3) (tres t) res ∧ holds_for sess (tunnel_name x spec) ds (sType spec) (access t) p res) as Hopen.
  { intros r3 res3 e ln p Hl Hf Hp He t0 ds0. assert (ds0 = ds) as ->.
    { subst ds0 t0 e. cbn. unfold endpoint_for. by repeat case_match. }
    exists p, (res3 <| tunnel := Some (new_tid x) |>). split_and!; try done. by apply live_update_same. }
  destruct (hasPublicPort _ && negb _) eqn:Hwp.
  - destruct (listenTunnelPort _ _ _ _ _ _ _) as [r3 [p|err]] eqn:Hls; [|done]. intros [= <- <-].
    destruct (listen_held _ _ _ _ _ _ _ _ Hl2 Hls) as (Hl3 & Hp0 & Hb & Hreq).
    by apply (Hopen r3 (res1 <| domains := ds |> <| port := p |>) _ true p); [..|unfold endpoint_for, wants_port; rewrite Hwp].
  - assert (wants_port (sType spec) a = true → False) as Hno by (unfold wants_port; by rewrite Hwp).
    destruct (isHTTP (sType spec)) eqn:Hhttp; intros [= <- <-];
      (apply (Hopen r2 (res1 <| domains := ds |>) _ false 0%Z);
       [done|split_and!; try done; by intros ?%Hno|by intros ?%Hno|unfold endpoint_for, wants_port; by rewrite Hwp, Hhttp]).
Qed.

Lemma claim_kept n ty tok agent i mx r ds a p :
  inv r → kept tok agent i r n ds ty a p → ((0 < mx)%Z → (activeLocked r tok (names r !! n) < mx)%Z) →
  ∃ r1 l res res1, claim n ty tok agent i mx r = (r1, Ok (l, true)) ∧ inv r1 ∧ live r l res ∧ name res = n ∧
    live r1 l res1 ∧ domains res1 = ds ∧ (wants_port ty a = true → port res1 = p).
Proof.
  intros Hi (l & res & Hl & <- & Htok & Hds & Hport & Hsess) Hcap.
  assert (∃ r1, claim (name res) ty tok agent i mx r = (r1, Ok (l, true)) ∧ live r1 l (rebind ty agent i res)) as (r1 & Hc & Hl1).
  { unfold claim. rewrite (proj2 Hl) in *.
    assert (Decide (holder_at r i (Some l)) tok agent (activeLocked r tok (Some l)) mx
            = Ok (decision_of (holder_at r i (Some l)))) as Hd.
    { apply Decide_ok. split_and!; [|done|done]. unfold holder_at. cbn. rewrite (proj1 Hl). cbn. rewrite Htok. split; [done|].
      cbn. intros Hcon%bool_decide_eq_true. destruct (session res) as [j|]; [|by destruct Hcon].
      destruct Hsess as [Hj ->]. split; [done|]. rewrite bool_decide_false; congruence. }
    rewrite Hd. unfold decision_of, holder_at. cbn. rewrite (proj1 Hl). cbn.
    destruct (bool_decide _); (eexists; split; [done|]);
      (apply live_update_same; [intros y; apply (stop_timer_frame y)|exact Hl]). }
  exists r1, l, res, (rebind ty agent i res). destruct (stop_timer_frame res) as (_ & Hd & Hp & _). split_and!; [done| |done..| |].
  - pose proof (inv_claim (name res) ty tok agent i mx r Hi) as Hi1. by rewrite Hc in Hi1.
  - by rewrite <-Hds.
  - intros Hw. rewrite <-Hport by done. exact Hp.
Qed.

(** A reservation sets the domains it has again. *)
Lemma setDomains_own l res r :
  inv r → live r l res → ∃ r', setDomains l (domains res) r = (r', Ok tt).
Proof.
  intros Hi Hl. unfold setDomains. assert (domain_holder l (domains res) r = None) as ->; [|by eexists].
  unfold domain_holder. destruct (List.find _ _) as [d|] eqn:Hf; [|done]. apply List.find_some in Hf as [Hin Hd].
  apply list_elem_of_In in Hin. rewrite (inv_owner r Hi _ _ _ Hl Hin) in Hd. by rewrite bool_decide_true in Hd.
Qed.

Lemma openTunnel_kept now sess x n spec a ds p r :
  inv r → passes sess n spec a ds → sName spec = n → room sess r n → port_granted spec a p →
  kept (ID (token sess)) (sessAgentID sess) (sid sess) r n ds (sType spec) a p →
  ∃ r' t, openTunnel can_bind s now sess x spec r = (r', Ok t) ∧
    endpoint t = endpoint_for (random_id x) n (sType spec) ds a p ∧ ∃ res, live r (tres t) res ∧ name res = n.
Proof using Halone.
  intros Hi Hpass Hname Hroom Hport Hkept. unfold openTunnel. rewrite Halone.
  assert (tunnel_name x spec = n) as ->.
  { unfold tunnel_name. rewrite Hname. pose proof (ValidName_nonempty n (pa_valid _ _ _ _ _ Hpass)) as Hne.
    by apply String.eqb_neq in Hne as ->. }
  destruct Hpass as [Hty Hat Hca Hv Han Hres Hcd].
  rewrite bool_decide_false, Hat, Hca, Hv, Han, Hres, Hcd by done. cbn [negb].
  destruct (claim_kept _ _ _ _ _ _ _ _ _ _ Hi Hkept Hroom) as (r1 & l & res & res1 & -> & Hi1 & Hl & Hn & Hl1 & <- & Hp1).
  destruct (setDomains_own _ _ _ Hi1 Hl1) as [r2 Hsd]. rewrite Hsd.
  pose proof (setDomains_held _ _ _ _ _ Hl1 Hsd) as Hl2.
  destruct (hasPublicPort _ && negb _) eqn:Hwp.
  - destruct (Hport Hwp) as (Hb & Hp0 & Hreq). unfold listenTunnelPort.
    assert (portOf l r2 = p) as -> by (unfold portOf; rewrite (proj1 Hl2); by apply Hp1).
    rewrite Hb. assert (negb (p =? 0)%Z && ((Z.of_N (sPublicPort spec) =? 0)%Z || (Z.of_N (sPublicPort spec) =? p)%Z) = true) as ->.
    { apply andb_true_iff. split; [apply negb_true_iff; by apply Z.eqb_neq|]. apply orb_true_iff. rewrite !Z.eqb_eq. done. }
    eexists _, _. split; [done|]. split; [|by exists res]. cbn [endpoint]. unfold endpoint_for, wants_port. by rewrite Hwp.
  - destruct (isHTTP (sType spec)) eqn:Hhttp; eexists _, _; (split; [done|]); (split; [|by exists res]); cbn [endpoint];
      unfold endpoint_for, wants_port; by rewrite Hwp, Hhttp.
Qed.

Lemma endpoint_for_fields id n ty ds a p :
  let e := endpoint_for id n ty ds a p in
  TunnelId e = id ∧ EName e = n ∧ EType e = ty ∧ EDomains e = ds ∧ Hostname e = n +:+ "." +:+ BaseDomain (rules s) ∧
  PublicPort e = (if wants_port ty a then uint32 p else 0%Z).
Proof. unfold endpoint_for. cbn. destruct (wants_port ty a), (isHTTP ty); by split_and!. Qed.

(** A tunnel asked for again: its name, the spec, and what it had. *)
Record wanted := mkWanted { wName : string; wSpec : TunnelSpec; wAccess : Access; wDomains : list string; wPort : Z }.

Record due (sess : agentSession) (r : nameRegistry) (w : wanted) : Prop := {
  du_passes : passes sess (wName w) (wSpec w) (wAccess w) (wDomains w);
  du_name : sName (wSpec w) = wName w;
  du_port : port_granted (wSpec w) (wAccess w) (wPort w);
  du_kept : kept (ID (token sess)) (sessAgentID sess) (sid sess) r (wName w) (wDomains w) (sType (wSpec w)) (wAccess w) (wPort w);
}.

Definition endpoint_of (id : string) (w : wanted) : Endpoint :=
  endpoint_for id (wName w) (sType (wSpec w)) (wDomains w) (wAccess w) (wPort w).

(** The names that may be connected: the token's limit lets them be. *)
Definition within (sess : agentSession) (r : nameRegistry) (A : gset string) : Prop :=
  active_names r (ID (token sess)) ⊆ A ∧
  ((0 < MaxTunnels (TPolicy (token sess)))%Z → (Z.of_nat (size A) ≤ MaxTunnels (TPolicy (token sess)))%Z).

Lemma within_room sess r A n : inv r → within sess r A → n ∈ A → room sess r n.
Proof.
  clear Hmin Halone. intros Hi [Hsub Hcap] Hn Hmx. specialize (Hcap Hmx). rewrite activeLocked_size by done.
  assert (size (active_names r (ID (token sess)) ∖ {[n]}) < size A)%nat; [|lia].
  apply subset_size. set_solver.
Qed.

(** Opening a tunnel that was kept leaves the others kept, and the limit
respected. *)
Lemma reopen_one now sess x w r A :
  inv r → ports_ok ∅ r → due sess r w → within sess r A → wName w ∈ A →
  ∃ r' t, openTunnel can_bind s now sess x (wSpec w) r = (r', Ok t) ∧ endpoint t = endpoint_of (random_id x) w ∧
    inv r' ∧ ports_ok ∅ r' ∧ within sess r' A ∧ ∀ w', wName w' ≠ wName w → due sess r w' → due sess r' w'.
Proof using Halone Hmin.
  intros Hi Ho [Hpass Hname Hport Hkept] Hw HA.
  destruct (openTunnel_kept now sess x _ _ _ _ _ r Hi Hpass Hname (within_room _ _ _ _ Hi Hw HA) Hport Hkept)
    as (r' & t & Hop & He & res0 & Hl0 & Hn0).
  pose proof (openTunnel_cases can_bind s Hmin now sess x (wSpec w) r Hi Ho) as Hc. rewrite Hop in Hc.
  destruct Hc as (Hh & _ & res & Hl & (_ & _ & _ & _ & _ & Hn & _)).
  rewrite He in Hn. destruct (endpoint_for_fields (random_id x) (wName w) (sType (wSpec w)) (wDomains w) (wAccess w) (wPort w))
    as (_ & Hen & _). unfold endpoint_of in Hn. rewrite Hen in Hn.
  exists r', t. split_and!; [done|done|apply Hh|apply Hh| |].
  - destruct Hw as [Hsub Hcap]. split; [|done]. intros m. rewrite elem_of_active by apply Hh.
    intros (l & res' & Hl' & <- & Ht & Hs). destruct (decide (l = tres t)) as [->|Hne].
    + assert (res' = res) as -> by (destruct Hl, Hl'; congruence). by rewrite Hn.
    + apply Hsub. rewrite elem_of_active by done. exists l, res'. split_and!; try done. by apply (ho_others _ _ _ _ _ _ _ Hh).
  - intros w' Hne [H1' H2' H3' (l & res' & Hl' & Hn' & Hrest)]. split; [done..|]. exists l, res'. split; [|done].
    apply (ho_others _ _ _ _ _ _ _ Hh); [|done]. intros ->. apply Hne. rewrite <-Hn', <-Hn0. destruct Hl', Hl0; congruence.
Qed.

Lemma reopen_all now sess xs ws opened r A :
  inv r → ports_ok ∅ r → length xs = length ws → NoDup (wName <$> ws) → Forall (due sess r) ws →
  within sess r A → Forall (λ w, wName w ∈ A) ws →
  ∃ r' fx opened', open_all can_bind s now sess (zip xs (wSpec <$> ws)) opened r = (r', fx, Ok (opened ++ opened')) ∧
    endpoint <$> opened' = zip_with (λ x w, endpoint_of (random_id x) w) xs ws.
Proof using Halone Hmin.
  revert ws opened r. induction xs as [|x xs IH]; intros [|w ws] opened r Hi Ho Hlen Hnd Hdue Hw HA; try done.
  { exists r, [], []. cbn. by rewrite app_nil_r. }
  rewrite fmap_cons in Hnd. apply NoDup_cons in Hnd as [Hnin Hnd].
  apply Forall_cons in Hdue as [Hd Hdue]. apply Forall_cons in HA as [Hwa HA]. injection Hlen as Hlen.
  destruct (reopen_one now sess x w r A Hi Ho Hd Hw Hwa) as (r1 & t & Hop & He & Hi1 & Ho1 & Hw1 & Hkeep).
  destruct (IH ws (opened ++ [t]) r1) as (r' & fx & o' & Hall & Hes); try done.
  { apply Forall_forall. intros w' Hin. rewrite Forall_forall in Hdue. apply Hkeep; [|by apply Hdue].
    intros Heq. apply Hnin. rewrite <-Heq. by apply list_elem_of_fmap_2. }
  exists r', fx, (t :: o'). cbn [zip fmap list_fmap]. cbn. rewrite Hop. split; [by rewrite Hall, <-app_assoc|].
  by rewrite He, <-Hes.
Qed.

(** ** The first registration *)

(** What opening tunnel [t] for a spec granted, as the registry has it. *)
Definition granted (sess : agentSession) (r : nameRegistry) (xs : ids * TunnelSpec) (t : tunnel_t) : Prop :=
  let n := tunnel_name xs.1 xs.2 in let ds := EDomains (endpoint t) in
  ∃ p res, passes sess n xs.2 (access t) ds ∧ port_granted xs.2 (access t) p ∧
    endpoint t = endpoint_for (random_id xs.1) n (sType xs.2) ds (access t) p ∧
    live r (tres t) res ∧ holds_for sess n ds (sType xs.2) (access t) p res.

Definition within_cap (sess : agentSession) (r : nameRegistry) : Prop :=
  within sess r (active_names r (ID (token sess))).

Lemma holds_active sess nm l ex r r' n :
  inv r → holds (sid sess) (ID (token sess)) nm l ex r r' → (∃ res, live r' l res ∧ name res = n) →
  active_names r' (ID (token sess)) ⊆ {[n]} ∪ active_names r (ID (token sess)) ∖ {[n]}.
Proof.
  clear Hmin Halone. intros Hi Hh (res & Hl & Hn) m. rewrite elem_of_active by apply Hh.
  intros (l' & res' & Hl' & Hm & Ht & Hs). rewrite elem_of_union, elem_of_singleton, elem_of_difference, elem_of_singleton.
  destruct (decide (m = n)) as [|Hne]; [by left|right]. split; [|done]. rewrite elem_of_active by done.
  exists l', res'. split_and!; try done. apply (ho_others _ _ _ _ _ _ _ Hh); [|done]. intros ->. apply Hne.
  destruct Hl, Hl'. congruence.
Qed.

Lemma openTunnel_within now sess x spec r r' t :
  inv r → ports_ok ∅ r → openTunnel can_bind s now sess x spec r = (r', Ok t) → within_cap sess r'.
Proof using Hmin Halone.
  intros Hi Ho Hop. destruct (openTunnel_opened now sess x spec r r' t Hi Ho Hop) as (p & res & _ & Hroom & _ & _ & Hl & Hf).
  pose proof (openTunnel_cases can_bind s Hmin now sess x spec r Hi Ho) as Hc. rewrite Hop in Hc. destruct Hc as (Hh & _).
  split; [done|]. intros Hmx. specialize (Hroom Hmx). rewrite activeLocked_size in Hroom by done.
  pose proof (holds_active sess _ _ _ r r' (tunnel_name x spec) Hi Hh) as Hsub.
  specialize (Hsub ltac:(exists res; split; [done|apply Hf])). apply subseteq_size in Hsub.
  rewrite size_union, size_singleton in Hsub by set_solver. lia.
Qed.

Lemma open_all_granted now sess specs r0 started opened r :
  grew (sid sess) (ID (token sess)) r0 opened r → Forall2 (granted sess r) started opened →
  (opened ≠ [] → within_cap sess r) →
  match open_all can_bind s now sess specs opened r with
  | (r', _, Ok opened') => Forall2 (granted sess r') (started ++ specs) opened' ∧ (opened' ≠ [] → within_cap sess r')
  | _ => True
  end.
Proof using Hmin Halone.
  revert started opened r. induction specs as [|[x spec] specs IH]; intros started opened r Hg Hf Hcap; cbn [open_all].
  { by rewrite app_nil_r. }
  pose proof (openTunnel_cases can_bind s Hmin now sess x spec r (gr_inv _ _ _ _ _ Hg) (gr_ports _ _ _ _ _ Hg)) as Hc.
  pose proof (openTunnel_grew can_bind s Hmin now sess x spec r0 opened r Hg) as Hgr.
  destruct (openTunnel can_bind s now sess x spec r) as [r1 [t|e]] eqn:Hop; [|by destruct (undo _ _ _ _ _)].
  destruct Hc as (Hh & _ & _), Hgr as [Hg1 _].
  specialize (IH (started ++ [(x, spec)]) (opened ++ [t]) r1). rewrite <-app_assoc in IH. cbn [app] in IH. apply IH.
  - eapply grew_perm; [apply Permutation_cons_append|done].
  - pose proof (gr_nodup _ _ _ _ _ Hg1) as Hnd. rewrite fmap_cons in Hnd. apply NoDup_cons in Hnd as [Hnin _].
    apply Forall2_app; [|constructor; [|constructor]].
    + apply Forall2_same_length_lookup_2; [by eapply Forall2_length|]. intros j xs t' Hx Ht'.
      destruct (Forall2_lookup_lr _ _ _ _ _ _ Hf Hx Ht') as (p & res & Hp1 & Hp2 & Hp3 & Hl & Hp4).
      exists p, res. split_and!; try done. apply (ho_others _ _ _ _ _ _ _ Hh); [|done].
      intros Heq. apply Hnin. rewrite <-Heq. apply list_elem_of_fmap_2. by eapply list_elem_of_lookup_2.
    + destruct (openTunnel_opened now sess x spec r r1 t (gr_inv _ _ _ _ _ Hg) (gr_ports _ _ _ _ _ Hg) Hop)
        as (p & res & Hp & _ & Hrest). exists p, res. by split.
  - intros _. by eapply (openTunnel_within now sess x spec r); [apply Hg..|].
Qed.

(** ** Reconnecting *)

(** A later session of the same agent with the same token. *)
Definition later_session (sess sess2 : agentSession) : Prop :=
  token sess2 = token sess ∧ sessAgentID sess2 = sessAgentID sess ∧ sid sess2 ≠ sid sess.

(** A spec that asks for the tunnel with name [n] again. *)
Definition asks_again (n : string) (spec spec2 : TunnelSpec) : Prop :=
  sName spec2 = n ∧ sType spec2 = sType spec ∧ sPublicPort spec2 = sPublicPort spec ∧ sAccess spec2 = sAccess spec ∧
  sDomains spec2 = sDomains spec.

Lemma passes_again sess sess2 n spec spec2 a ds :
  later_session sess sess2 → asks_again n spec spec2 → passes sess n spec a ds → passes sess2 n spec2 a ds.
Proof.
  destruct spec, spec2, sess, sess2. unfold later_session, asks_again. cbn.
  intros (-> & _) (_ & -> & -> & -> & ->) []. split; done.
Qed.

Lemma granted_wanted sess sess2 r r2 xs t spec2 :
  granted sess r xs t → (∀ res, live r (tres t) res → ∃ limit, waited limit r2 (tres t) res) → later_session sess sess2 →
  asks_again (EName (endpoint t)) xs.2 spec2 →
  ∃ w, wSpec w = spec2 ∧ wName w = EName (endpoint t) ∧ due sess2 r2 w ∧
    ∀ id, endpoint_of id w = endpoint t <| TunnelId := id |>.
Proof.
  intros (p & res & Hpass & Hport & He & Hl & (Hn & Ht & Ha & Hs & Hd & Hp)) Hst Hlater Hask.
  set (n := tunnel_name xs.1 xs.2) in *.
  destruct (endpoint_for_fields (random_id xs.1) n (sType xs.2) (EDomains (endpoint t)) (access t) p) as (_ & Hen & _).
  rewrite <-He in Hen. rewrite Hen in *. destruct (Hst _ Hl) as (limit & res2 & Hl2 & N2 & T2 & D2 & P2 & S2).
  pose proof Hask as (Hsn & Hsty & Hspp & _). pose proof Hlater as (Htok & Hagent & Hsid).
  exists (mkWanted n spec2 (access t) (EDomains (endpoint t)) p). split_and!; [done|done| |].
  - split; cbn [wName wSpec wAccess wDomains wPort]; [by eapply passes_again|done| |].
    + unfold port_granted. by rewrite Hspp, Hsty.
    + exists (tres t), res2. rewrite Htok, Hagent, Hsty, N2, T2, D2, P2. split_and!; try done.
      destruct S2 as [[-> _]|[-> ->]]; [done|]. by rewrite Hs.
  - intros id. unfold endpoint_of. cbn [wName wSpec wAccess wDomains wPort]. rewrite Hsty. clear -He.
    revert He. generalize (EDomains (endpoint t)). intros ds ->.
    unfold endpoint_for. by destruct (wants_port (sType xs.2) (access t)), (isHTTP (sType xs.2)).
Qed.

Lemma Forall2_wanted sess sess2 r r2 pairs opened specs2 :
  Forall2 (granted sess r) pairs opened →
  (∀ t res, t ∈ opened → live r (tres t) res → ∃ limit, waited limit r2 (tres t) res) → later_session sess sess2 →
  length specs2 = length opened →
  (∀ j xs t spec2, pairs !! j = Some xs → opened !! j = Some t → specs2 !! j = Some spec2 →
     asks_again (EName (endpoint t)) xs.2 spec2) →
  ∃ ws, wSpec <$> ws = specs2 ∧ wName <$> ws = (λ t, EName (endpoint t)) <$> opened ∧ Forall (due sess2 r2) ws ∧
    ∀ ids, zip_with (λ id w, endpoint_of id w) ids ws = zip_with (λ id t, endpoint t <| TunnelId := id |>) ids opened.
Proof.
  intros Hall Hst Hlater. revert specs2. induction Hall as [|xs t pairs opened Hg Hall IH]; intros specs2 Hlen Hask.
  { destruct specs2; [|done]. exists []. split_and!; try done. by intros []. }
  destruct specs2 as [|spec2 specs2]; [done|]. injection Hlen as Hlen.
  destruct (IH ltac:(intros t' res' Hin; apply Hst; by right) specs2 Hlen) as (ws & <- & Hn & Hd & He).
  { intros j. apply (Hask (S j)). }
  destruct (granted_wanted _ _ _ _ _ _ spec2 Hg (λ res, Hst t res (list_elem_of_here _ _)) Hlater) as (w & <- & Hwn & Hwd & Hwe); [by apply (Hask 0%nat)|].
  exists (w :: ws). rewrite !fmap_cons, Hn, Hwn. split_and!; [done|done|by constructor|].
  intros [|id ids]; [done|]. cbn [zip_with]. by rewrite Hwe, He.
Qed.

Lemma NoDup_fmap_via {A B C} (f : A → B) (g : A → C) l :
  NoDup (f <$> l) → (∀ x y, x ∈ l → y ∈ l → g x = g y → f x = f y) → NoDup (g <$> l).
Proof.
  induction l as [|x l IH]; [constructor|]. rewrite !fmap_cons, !NoDup_cons. intros [Hnin Hnd] Hfg. split.
  - intros (y & Heq & Hy)%list_elem_of_fmap. apply Hnin. rewrite (Hfg x y); [by apply list_elem_of_fmap_2|left|by right|done].
  - apply IH; [done|]. intros y z Hy Hz. apply Hfg; by right.
Qed.

(** What a successful registration on a standalone relay leaves. *)
Lemma register_granted now sess specs r r1 sess1 fx es :
  inv r → ports_ok ∅ r → tunnels sess = [] → register can_bind s now sess specs r = (r1, sess1, fx, Registered es) →
  ∃ opened, tunnels sess1 = opened ∧ sid sess1 = sid sess ∧ es = endpoint <$> opened ∧ opened ≠ [] ∧
    inv r1 ∧ ports_ok ∅ r1 ∧ NoDup (tres <$> opened) ∧ NoDup ((λ t, EName (endpoint t)) <$> opened) ∧
    Forall2 (granted sess r1) specs opened ∧ within_cap sess r1 ∧
    (∀ t, t ∈ opened → EName (endpoint t) ∈ active_names r1 (ID (token sess)) ∧
       ∃ res, live r1 (tres t) res ∧ session res = Some (sid sess)).
Proof using Hmin Halone.
  intros Hi Ho Htn. unfold register. destruct specs as [|sp specs]; [done|].
  pose proof (open_all_grew can_bind s Hmin now sess (sp :: specs) r [] r (grew_start _ _ _ Hi Ho)) as Hg.
  pose proof (open_all_granted now sess (sp :: specs) r [] [] r (grew_start _ _ _ Hi Ho) ltac:(constructor) ltac:(done)) as Hgr.
  destruct (open_all _ _ _ _ _ _ _) as [[r' fx'] [o|[c|]]]; [|done..]. intros [= <- <- <- <-].
  destruct Hg as [Hg Hids], Hgr as [Hall Hcap]. cbn [app] in Hall.
  assert (o ≠ []) as Hne by (intros ->; by apply Forall2_length in Hall).
  assert (∀ t, t ∈ o → ∃ res, live r' (tres t) res ∧ name res = EName (endpoint t) ∧ tokenID res = ID (token sess) ∧
    session res = Some (sid sess)) as Hlive.
  { intros t [j Hj]%list_elem_of_lookup_1. destruct (Forall2_lookup_r _ _ _ _ _ Hall Hj) as (xs & _ & p & res & _ & _ & He & Hl & Hf).
    destruct (endpoint_for_fields (random_id xs.1) (tunnel_name xs.1 xs.2) (sType xs.2) (EDomains (endpoint t)) (access t) p) as (_ & Hen & _).
    rewrite <-He in Hen. exists res. rewrite Hen. destruct Hf as (? & ? & ? & ? & _). by split_and!. }
  exists o. cbn [tunnels sid set_field]. split_and!; try done; [by cbn; rewrite Htn|apply Hg..| |by apply Hcap|].
  - eapply NoDup_fmap_via; [apply Hg|]. intros t t' Hin Hin' Heq. cbn in Heq.
    destruct (Hlive t Hin) as (res & [_ Hl] & Hn & _), (Hlive t' Hin') as (res' & [_ Hl'] & Hn' & _). congruence.
  - intros t Hin. destruct (Hlive t Hin) as (res & Hl & Hn & Ht & Hs). split; [|by exists res].
    rewrite elem_of_active by apply Hg. exists (tres t), res. by rewrite Hs.
Qed.

Lemma register_specs_lookup a i : register_specs a !! i = spec_of a i <$> Tunnels (cfg a) !! i.
Proof. apply list_lookup_imap. Qed.

(** The agent takes endpoints that only have other IDs as the ones it knows. *)
Lemma setEndpoints_renamed now xs es a :
  agent_ok a → length xs = length (Tunnels (cfg a)) → anames a = EName <$> es → aports a = PublicPort <$> es →
  ∃ a', setEndpoints now (zip_with (λ x e, e <| TunnelId := random_id x |>) xs es) a = (a', Ok tt) ∧
    anames a' = anames a ∧ aports a' = aports a.
Proof.
  clear Hmin Halone. intros Hok Hlx Hn Hp. set (es2 := zip_with _ xs es).
  assert (length es = length (Tunnels (cfg a))) as Hle by (rewrite <-(ao_names a Hok), Hn; symmetry; apply length_fmap).
  destruct (setEndpoints now es2 a) as [a2 [[]|e]] eqn:Hs2.
  2:{ unfold setEndpoints, es2 in Hs2. rewrite length_zip_with, Hlx, Hle, Nat.min_id, Nat.eqb_refl in Hs2. done. }
  destruct (setEndpoints_ok _ _ _ _ Hok Hs2) as (_ & _ & _ & _ & Hn2 & Hp2 & _).
  exists a2. split; [done|]. rewrite Hn2, Hp2, Hn, Hp. subst es2. clear -Hle Hlx.
  split; apply list_eq; intros j; rewrite !list_lookup_fmap, lookup_zip_with;
    (destruct (es !! j) as [e|] eqn:He; cbn; [|by destruct (xs !! j)]);
    (destruct (lookup_lt_is_Some_2 xs j) as [x ->]; [|done]); apply lookup_lt_Some in He; lia.
Qed.

End standalone.

Section reconnect.
Context (can_bind can_bind2 : Z → bool) `{HU : GoUnicode, HC : Crypto, HR : MapRange}.
Context (s : Server) (Hmin : (1 ≤ PortMin (rules s))%Z) (Halone : Cluster s = None).

(** What was granted can be granted again when its port can be listened on. *)
Lemma granted_bind sess r xs t :
  ports_ok ∅ r → (∀ p, p ∈ ports r → can_bind2 p = true) → granted can_bind s sess r xs t → granted can_bind2 s sess r xs t.
Proof using Type.
  intros Ho Hb (p & res & Hpass & Hport & He & Hl & Hf). exists p, res. split_and!; try done.
  intros Hw. destruct (Hport Hw) as (_ & Hp0 & Hreq). split_and!; [|done..]. apply Hb, (po_exact _ _ Ho). right.
  split; [done|]. exists (tres t), res. split; [done|]. by apply Hf.
Qed.

(** Every tunnel of the session is waited for while its agent is away. *)
Lemma away_waited dropped sess r1 r2 pairs opened :
  inv r1 → ports_ok ∅ r1 → closed r1 = false → clustered r1 = false → Forall2 (granted can_bind s sess r1) pairs opened →
  meanwhile s (ID (token sess)) (EName <$> (endpoint <$> opened)) dropped (dropped + grace r1) r1 r2 →
  ∀ t res, t ∈ opened → live r1 (tres t) res → ∃ limit, waited limit r2 (tres t) res.
Proof using Hmin.
  intros Hi Ho Hc Hk Hall Hm t res Hin Hl. exists (dropped + grace r1)%Z.
  pose proof Hin as [j Hj]%list_elem_of_lookup_1.
  destruct (Forall2_lookup_r _ _ _ _ _ Hall Hj) as (xs & _ & p & res0 & _ & _ & He & Hl0 & (Hn & Ht & _ & Hs & _)).
  assert (res0 = res) as -> by (destruct Hl, Hl0; congruence).
  eapply meanwhile_waited; [done..| | |exact Hl|exact Hm]; [|by rewrite Hs].
  destruct (endpoint_for_fields s (random_id xs.1) (tunnel_name xs.1 xs.2) (sType xs.2) (EDomains (endpoint t)) (access t) p) as (_ & Hen & _).
  rewrite <-He in Hen. rewrite Hn, <-Hen. by apply list_elem_of_fmap_2, list_elem_of_fmap_2.
Qed.

(** C34: an agent that is back within the grace period has what it had. On a
standalone relay that was started with grace period [g] and is not shutting
down, an agent's tunnels were registered; then its connection is gone at time
[dropped]. The relay notices at any moment, or not at all; up to the end of
the grace period other agents register, reconnect and disconnect (those with
the same token for other names), timers end, and the operator reserves and
frees other names and revokes other tokens. When the agent then registers again with the same
token and agent ID, its limit on tunnels leaves room for its tunnels and the
relay can listen on the ports it had given out, everything it asks for is
granted: every tunnel has the name, public port and address, host name and
domains it had before, also those whose name or port the relay had chosen. The
relay only gives the tunnels new IDs. *)
Theorem reconnect_keeps_endpoints g now1 dropped now3 t1 t2 err sess1 sess1' sess2 xs1 xs2 a a1 r r1 r2 fx es :
  agent_ok a → rtc (relay_step s) (newNameRegistry g) r → tunnels sess1 = [] →
  length xs1 = length (Tunnels (cfg a)) → length xs2 = length (Tunnels (cfg a)) →
  register can_bind s now1 sess1 (zip xs1 (register_specs a)) r = (r1, sess1', fx, Registered es) →
  setEndpoints t1 es a = (a1, Ok tt) → closed r1 = false →
  let T := ID (token sess1) in
  meanwhile s T (EName <$> es) dropped (dropped + g) r1 r2 → later_session sess1 sess2 →
  ((0 < MaxTunnels (TPolicy (token sess1)))%Z →
     (Z.of_nat (size (active_names r2 T ∪ list_to_set (EName <$> es))) ≤ MaxTunnels (TPolicy (token sess1)))%Z) →
  (∀ p, p ∈ ports r1 → can_bind2 p = true) →
  let a1 := setDisconnected err a1 in
  let es2 := zip_with (λ x e, e <| TunnelId := random_id x |>) xs2 es in
  (register can_bind2 s now3 sess2 (zip xs2 (register_specs a1)) r2).2 = Registered es2 ∧
  ∃ a2, setEndpoints t2 es2 a1 = (a2, Ok tt) ∧ anames a2 = anames a1 ∧ aports a2 = aports a1.
Proof using Hmin Halone.
  intros Hok Hr Htn Hlen1 Hlen2 Hreg Hset Hc T Hm Hlater Hroom Hb a1' es2.
  assert (inv r ∧ ports_ok ∅ r) as [Hi Ho] by (by eapply relay_steps_ok).
  assert (grace r1 = g ∧ clustered r1 = false) as [Hg Hk].
  { destruct (relay_steps_grace _ _ _ Hr). pose proof (mode_register s can_bind now1 sess1 (zip xs1 (register_specs a)) r) as Hmd.
    rewrite Hreg in Hmd. injection Hmd as -> _ ->. done. }
  destruct (register_granted can_bind s Hmin Halone _ _ _ _ _ _ _ _ Hi Ho Htn Hreg)
    as (opened & Htn1 & Hsid1 & -> & Hne & Hi1 & Ho1 & Hnd & Hndn & Hall & _ & Hact).
  destruct (setEndpoints_ok _ _ _ _ Hok Hset) as (Hok1 & Hcfg & Hlen & _ & Hnames & Hports & _).
  rewrite length_fmap in Hlen. destruct (setDisconnected_fields err a1) as (Hcfg' & Hn' & Hp' & _). fold a1' in Hcfg', Hn', Hp'.
  assert (agent_ok a1') as Hok1' by (by apply setDisconnected_ok). clearbody a1'. subst g.
  destruct (meanwhile_ok _ _ _ _ _ _ _ Hmin Hi1 Ho1 Hm) as [Hi2 Ho2].
  pose proof (away_waited _ _ _ _ _ _ Hi1 Ho1 Hc Hk Hall Hm) as Hst.
  assert (Forall2 (granted can_bind2 s sess1 r1) (zip xs1 (register_specs a)) opened) as Hall2.
  { eapply Forall2_impl; [exact Hall|]. intros xs t. by apply granted_bind. }
  destruct (Forall2_wanted can_bind2 s sess1 sess2 r1 r2 _ _ (register_specs a1') Hall2 Hst Hlater) as (ws & Hws & Hwn & Hdue & Hes).
  { unfold register_specs. rewrite length_imap, Hcfg', Hcfg. done. }
  { intros j xs t spec2 Hj Ht. rewrite register_specs_lookup, Hcfg', Hcfg.
    apply lookup_zip_with_Some in Hj as (x & spec & -> & _ & Hj). rewrite register_specs_lookup in Hj.
    destruct (Tunnels (cfg a) !! j) as [tc|]; [|done]. cbn in Hj. injection Hj as <-. intros [= <-].
    unfold asks_again, spec_of, requestedName. cbn. rewrite Hn', Hnames, !list_lookup_fmap, Ht. by cbn. }
  set (A := active_names r2 T ∪ list_to_set (EName <$> (endpoint <$> opened))) in Hroom.
  assert (within sess2 r2 A) as Hw.
  { unfold within. destruct Hlater as (-> & _). split; [|done]. unfold A. fold T. set_solver. }
  assert (length ws = length opened) as Hlw by (rewrite <-(length_fmap wName), Hwn; apply length_fmap).
  destruct (reopen_all can_bind2 s Hmin Halone now3 sess2 xs2 ws [] r2 A Hi2 Ho2) as (r3 & fx3 & o3 & Hop & Hoe);
    [congruence|by rewrite Hwn|done|done| |].
  { apply Forall_forall. intros w Hw'. assert (wName w ∈ wName <$> ws) as Hin by by apply list_elem_of_fmap_2.
    rewrite Hwn in Hin. unfold A. apply elem_of_union_r, elem_of_list_to_set. by rewrite <-list_fmap_compose. }
  rewrite Hws in Hop.
  assert (endpoint <$> o3 = es2) as Hes2.
  { rewrite Hoe. subst es2. specialize (Hes (random_id <$> xs2)). rewrite !zip_with_fmap_l in Hes. rewrite zip_with_fmap_r. exact Hes. }
  split.
  - unfold register. destruct (zip xs2 (register_specs a1')) as [|sp sps] eqn:Hz.
    { exfalso. apply Hne, nil_length_inv. rewrite Hlen, <-Hcfg, <-Hcfg'.
      apply (f_equal length) in Hz. rewrite length_zip_with, Hlen2 in Hz. unfold register_specs in Hz. rewrite length_imap in Hz.
      cbn in Hz. rewrite Hcfg', Hcfg in *. lia. }
    rewrite Hop. cbn. by rewrite Hes2.
  - by apply setEndpoints_renamed; rewrite ?Hcfg', ?Hcfg, ?Hn', ?Hp'.
Qed.
End reconnect.

(** ** The handshake of agent and relay *)

Section pair.
Context `{HU : GoUnicode, HC : Crypto, HR : MapRange} (s : Server) (can_bind : Z → bool).

(** What the relay is told of the connection, the interval it announces and
the identifiers it draws for new tunnels. *)
Context (store : TokenStore) (i : session_id) (addr : netAddr) (cert : option Certificate) (now : Z).
Context (heartbeatMs : Z) (xs : list ids).

Definition wire (r : control_reply) : relay_message :=
  match r with
  | Welcome _ => RWelcome heartbeatMs
  | Pong n sent => RPong n sent
  | Reply (Registered es) => RRegistered es
  | Reply (ErrorReply code) => RError code
  | Reply EndSession => ROther
  end.

(** The relay as the agent's peer: its handlers answer the agent's messages. *)
Definition relay_peer (st : relay * option agentSession) (msg : agent_message)
    : (relay * option agentSession) * result agent_err relay_message :=
  match msg, st with
  | AHello h, (x, _) =>
      let '(x, out, se) := serveAgent store i addr cert (Some h) true now x in
      (x, se, match out with r :: _ => Ok (wire r) | [] => Err (ErrIO true) end)
  | ARegister specs, (x, Some se) =>
      let '(x, se, _, out) := control_step s can_bind i se (MsgRegister (zip xs specs)) now x in
      (x, Some se, match out with Some r => Ok (wire r) | None => Err (ErrIO true) end)
  | APing n sent rtt, (x, Some se) =>
      let '(x, se, _, out) := control_step s can_bind i se (MsgPing n sent rtt) now x in
      (x, Some se, match out with Some r => Ok (wire r) | None => Err (ErrIO true) end)
  | _, (x, None) => (x, None, Err (ErrIO true))
  end.

Lemma openTunnel_endpoint now' sess x spec r r' t :
  openTunnel can_bind s now' sess x spec r = (r', Ok t) →
  tid t = new_tid x ∧ TunnelId (endpoint t) = random_id x ∧ EName (endpoint t) = tunnel_name x spec ∧
  EType (endpoint t) = sType spec.
Proof.
  unfold openTunnel, setEndpointAddress. intros Hop. by repeat (case_match; simplify_eq/=; try done).
Qed.

Lemma open_all_endpoints now' sess specs opened r r' fx opened' :
  open_all can_bind s now' sess specs opened r = (r', fx, Ok opened') →
  ∃ new, opened' = opened ++ new ∧
    Forall2 (λ xs t, tid t = new_tid xs.1 ∧ TunnelId (endpoint t) = random_id xs.1 ∧
      EName (endpoint t) = tunnel_name xs.1 xs.2 ∧ EType (endpoint t) = sType xs.2) specs new.
Proof.
  revert opened r. induction specs as [|[x spec] specs IH]; intros opened r; cbn [open_all].
  { intros [= <- <- <-]. exists []. by rewrite app_nil_r. }
  destruct (openTunnel _ _ _ _ _ _ _) as [r1 [t|e]] eqn:Hop; [|by destruct (undo _ _ _ _ _)].
  intros (new & -> & Hall)%IH. exists (t :: new). rewrite <-app_assoc. split; [done|].
  constructor; [by eapply openTunnel_endpoint|done].
Qed.

Lemma serveAgent_session h x x' out se :
  serveAgent store i addr cert (Some h) true now x = (x', out, Some se) →
  registry x' = registry x ∧ tunnels se = [] ∧ sid se = i.
Proof.
  unfold serveAgent. destruct (Exhausted _ _ _) as [l ex]. destruct ex; [done|]. cbn [draining set_field].
  destruct (draining _); [done|]. unfold track. destruct (srvClosed _); [done|]. cbn [negb].
  unfold RelayServe.handshake. destruct (negb _); [done|]. destruct (authenticate _ _ _); [|done].
  destruct (String.eqb _ _); [done|]. cbn [negb]. by intros [= <- _ <-].
Qed.

(** A handshake that succeeds is a registration at the relay. *)
Lemma handshake_registers plat armed cleared t a x a' x' se' interval :
  Agent.handshake plat relay_peer armed cleared t a (x, None) = (a', (x', se'), Ok interval) →
  ∃ x0 se fx es se1, registry x0 = registry x ∧ tunnels se = [] ∧ se' = Some se1 ∧
    control_step s can_bind i se (MsgRegister (zip xs (register_specs a))) now x0 = (x', se1, fx, Some (Reply (Registered es))) ∧
    setEndpoints t es a = (a', Ok tt).
Proof.
  unfold Agent.handshake. destruct (negb armed); [done|]. unfold exchange. cbn [relay_peer].
  destruct (serveAgent _ _ _ _ _ _ _ _) as [[x0 out] ose] eqn:Hsa.
  destruct out as [|[i0|n sent|[es|code|]] out]; try done. cbn [wire].
  destruct (_ <=? 0)%Z; [done|]. destruct ose as [se|]; [|done].
  apply serveAgent_session in Hsa as (Hreg & Htun & _).
  destruct (control_step _ _ _ _ _ _ _) as [[[x1 se1] fx] out1] eqn:Hcs.
  destruct out1 as [[i1|n sent|[es|code|]]|]; try done. cbn [wire].
  destruct (setEndpoints t es a) as [a1 [[]|e]] eqn:Hset; [|done]. destruct cleared; [|done].
  intros [= <- <- <- <-]. by exists x0, se, fx, es, se1.
Qed.

(** The tunnels a registration opened, in the order of the specs. *)
Lemma control_step_endpoints se specs x0 x' se1 fx es :
  tunnels se = [] →
  control_step s can_bind i se (MsgRegister specs) now x0 = (x', se1, fx, Some (Reply (Registered es))) →
  ∃ new, tunnels se1 = new ∧ es = endpoint <$> new ∧
    Forall2 (λ xs t, tid t = new_tid xs.1 ∧ TunnelId (endpoint t) = random_id xs.1 ∧
      EName (endpoint t) = tunnel_name xs.1 xs.2 ∧ EType (endpoint t) = sType xs.2) specs new.
Proof.
  intros Htun. unfold control_step. set (x1 := set_session i _ x0).
  destruct (register _ _ _ _ _ _) as [[[r1 se2] fx1] rep] eqn:Hr. intros [= <- <- <- Hrep].
  unfold register in Hr. destruct specs as [|sp specs]; [simplify_eq; by destruct rep|].
  destruct (open_all _ _ _ _ _ _ _) as [[r2 fx2] [o|[c|]]] eqn:Hop; [|simplify_eq; by destruct rep..].
  injection Hr as <- <- <- <-. injection Hrep as <-. apply open_all_endpoints in Hop as (new & -> & Hall).
  exists new. cbn. by rewrite Htun.
Qed.

(** How a client of a tunnel of type [typ] is passed on to it. *)
Definition delivered (typ : TunnelType) (t : tunnel_id) : action :=
  if isHTTP typ then Terminate CfgHTTP ServeHTTP
  else if bool_decide (typ = TUNNEL_TYPE_TLS) then Passthrough t
  else Terminate CfgTunnel (ForwardTo t).

(** What the agent does with a stream for its tunnel [k]. *)
Definition joined (a : Agent) (k : nat) (t : TunnelConfig) (n : string) : output :=
  if Recorder (cfg a) && isHTTP (cType t) then Inspect k t (Some n) else DialTarget k t.

Lemma serveStream_joined es a k t e :
  agent_ok a → anames a = EName <$> es → targets a !! TunnelId e = Some k → es !! k = Some e →
  Tunnels (cfg a) !! k = Some t →
  (Agent.serveStream (Some (TunnelId e)) true a).2 = joined a k t (EName e).
Proof.
  intros Hok Hn Ht He Hk. unfold Agent.serveStream, tunnelFor. rewrite Ht. cbn. rewrite Hk. cbn. unfold joined.
  destruct (Recorder (cfg a) && isHTTP (cType t)); [|done]. unfold requestedNameFor, add_stats. cbn.
  rewrite Ht. cbn. by rewrite Hn, list_lookup_fmap, He.
Qed.

(** C33: a visitor of a tunnel ends at the target the agent has for it. When the
handshake of agent and relay succeeds, every configured tunnel has an endpoint
of its type, under the name the agent asked for if it asked for one; the
endpoint's host name leads the relay to a tunnel that admitted, allowed
clients are passed to as its type demands; and for the stream the relay opens
with that tunnel's ID the agent dials the target configured for this very
tunnel (through the recorder for an inspected HTTP tunnel). The IDs the relay
draws at random are taken to be distinct. *)
Theorem visitor_reaches_target plat armed cleared t0 a x a' x' se' interval :
  (1 ≤ PortMin (rules s))%Z → valid_host (BaseDomain (rules s)) →
  (∀ lg, Login s = Some lg → AuthHost (rules s) = ToLower (LoginAuthHost lg)) →
  inv (registry x) → ports_ok ∅ (registry x) → agent_ok a →
  length xs = length (Tunnels (cfg a)) → NoDup (new_tid <$> xs) → NoDup (random_id <$> xs) →
  Agent.handshake plat relay_peer armed cleared t0 a (x, None) = (a', (x', se'), Ok interval) →
  ∀ k t, Tunnels (cfg a) !! k = Some t →
  ∃ o, let e := endpoint o in
    endpoints a' !! k = Some e ∧ EType e = cType t ∧ (requestedName k a ≠ "" → EName e = requestedName k a) ∧
    objects x' !! tid o = Some o ∧ resolveHost s x' (Hostname e) = (Some (tid o), cType t, EName e) ∧
    (∀ client protos tlvs reached now',
       (admit_ client None now' x').2 = true → AllowsIP (access o) (remoteIP client) = true → RequiresToken (access o) = false →
       (serveConn s client (Some (mkClientHello (Hostname e) protos)) tlvs reached now' x').2 = delivered (cType t) (tid o)) ∧
    (Agent.serveStream (Some (TunnelId e)) true a').2 = joined a' k t (EName e).
Proof.
  intros Hmin Hbase Hlogin Hi Ho Hok Hlx Hnd Hnr Hhs k t Hk.
  apply handshake_registers in Hhs as (x0 & se & fx & es & se1 & Hreg & Htun & -> & Hcs & Hset).
  rewrite <-Hreg in Hi, Ho.
  assert (length xs = length (register_specs a)) as Hlr by (unfold register_specs; by rewrite length_imap).
  assert (NoDup ((λ p, new_tid p.1) <$> zip xs (register_specs a))) as Hnd'.
  { change ((λ p, new_tid p.1) <$> zip xs (register_specs a)) with ((new_tid ∘ fst) <$> zip xs (register_specs a)).
    by rewrite list_fmap_compose, fst_zip by lia. }
  pose proof (registered_reachable s can_bind i se _ now x0 x' se1 fx es Hmin Hbase Hlogin Hi Ho Hnd' Hcs) as Hreach.
  rewrite Htun in Hreach. cbn [length] in Hreach. rewrite drop_0 in Hreach.
  destruct (setEndpoints_ok _ _ _ _ Hok Hset) as (Hok' & Hcfg & Hlen & Hes & Hnames & _ & _ & _ & _ & Htargets).
  destruct (control_step_endpoints _ _ _ _ _ _ _ Htun Hcs) as (new & Hnew & -> & Hall).
  assert (TunnelId <$> (endpoint <$> new) = random_id <$> xs) as Hids.
  { rewrite <-(fst_zip xs (register_specs a)), <-!list_fmap_compose by lia. symmetry. apply list_eq_Forall2, Forall2_fmap_2.
    eapply Forall2_impl; [exact Hall|]. cbn. by intros ? ? (_ & -> & _). }
  rewrite <-Hids in Hnr.
  rewrite length_fmap in Hlen. destruct (lookup_lt_is_Some_2 new k) as [o Ho'].
  { rewrite Hlen. by eapply lookup_lt_Some. }
  exists o. intros e. rewrite Hnew in Hreach. destruct (Hreach o) as (Hobj & Hres & _ & Hserve); [by eapply list_elem_of_lookup_2|].
  destruct (Forall2_lookup_r _ _ _ _ _ Hall Ho') as ([xk spec] & Hz & Htid & Hid & Hname & Hty).
  apply lookup_zip_with_Some in Hz as (xk' & spec' & [= <- <-] & Hxk & Hsp). rewrite register_specs_lookup, Hk in Hsp.
  injection Hsp as <-. cbn [fst snd] in *. cbn [spec_of sType sName] in Hty. fold e in Hty, Hname, Hid, Hserve, Hres.
  assert (endpoints a' !! k = Some e) as Hek by (by rewrite Hes, list_lookup_fmap, Ho').
  split_and!; [done|done| |done|by rewrite <-Hty| |].
  - intros Hne. rewrite Hname. unfold tunnel_name. cbn [spec_of sName]. by apply String.eqb_neq in Hne as ->.
  - unfold delivered. rewrite <-Hty. exact Hserve.
  - rewrite Hes in Hek. eapply (serveStream_joined (endpoint <$> new)); [done|done|by apply Htargets|done|by rewrite Hcfg].
Qed.
End pair.

(** ** A sample agent and relay *)

#[local] Existing Instance plain_crypto.
#[local] Existing Instance ascii_only.

Module PairSample.
Import AgentSample.
Definition rec : TokenRecord :=
  mkToken "tok" "t" "secret" (mkPolicy [] [] 2 "" false ["*.shop.example"]) ["7"].
Definition store : TokenStore := λ _, Ok (Some rec).
Definition cert : option Certificate := Some (mkCert ["l8tunnel:token:tok"] "7").
Definition xs : list ids := [mkIds 10%positive "id1" "r1"; mkIds 11%positive "id2" "r2"].
Definition xs2 : list ids := [mkIds 20%positive "id3" "r3"; mkIds 21%positive "id4" "r4"].
Definition plat : platform := mkPlatform "linux" "amd64".
Definition peer := relay_peer RelaySample.s RelaySample.can_bind store 1%positive ServeSample.addr cert 0 15000 xs.
Definition shake := Agent.handshake plat peer true true 0 a (ServeSample.x0, None).

(** Two sessions of the agent. *)
Definition sess1 : agentSession := mkSession 1%positive rec "agent-1" [] ReasonAgentClosed.
Definition sess2 : agentSession := mkSession 2%positive rec "agent-1" [] ReasonAgentClosed.
Definition reg := register RelaySample.can_bind RelaySample.s 0 sess1 (zip xs (register_specs a)) RelaySample.r0.
(** While the agent is away, another token's agent takes a port and a name, and
asks for the name of one of its tunnels. *)
Definition rival : agentSession :=
  mkSession 3%positive (mkToken "other" "o" "secret2" (mkPolicy [] [] 0 "" false []) []) "agent-9" [] ReasonAgentClosed.
Definition theirs : list (ids * TunnelSpec) :=
  zip [mkIds 30%positive "id5" "r5"] [mkSpec "theirs" TUNNEL_TYPE_TCP 0 noPolicy [] 0].
Definition mine : list (ids * TunnelSpec) :=
  zip [mkIds 31%positive "id6" "r6"] [mkSpec "raw" TUNNEL_TYPE_TCP 0 noPolicy [] 0].
Definition away (sess1' : agentSession) (r : nameRegistry) : nameRegistry :=
  let r := (closeTunnels RelaySample.s (1 * minute) sess1' r).1.1 in
  let r := (register RelaySample.can_bind RelaySample.s (2 * minute) rival theirs r).1.1.1 in
  (register RelaySample.can_bind RelaySample.s (3 * minute) rival mine r).1.1.1.
End PairSample.

Lemma visitor_reaches_target_witness :
  ∃ o, endpoints PairSample.shake.1.1 !! 1%nat = Some (endpoint o) ∧ EName (endpoint o) = "raw" ∧
    (Agent.serveStream (Some (TunnelId (endpoint o))) true PairSample.shake.1.1).2 = DialTarget 1 AgentSample.raw.
Proof.
  destruct PairSample.shake as [[a' [x' se']] [interval|e]] eqn:Hs; [|vm_compute in Hs; discriminate].
  destruct (visitor_reaches_target RelaySample.s RelaySample.can_bind PairSample.store 1%positive ServeSample.addr PairSample.cert
    0 15000 PairSample.xs PairSample.plat true true 0 AgentSample.a ServeSample.x0 a' x' se' interval) with (k := 1%nat) (t := AgentSample.raw)
    as (o & H1 & H2 & H3 & _ & _ & _ & H4).
  - exact RelaySample.min_ok.
  - apply (NormalizeDomain_valid "t.example"). vm_compute. reflexivity.
  - discriminate.
  - exact RelaySample.r0_inv.
  - exact RelaySample.r0_ports.
  - exact AgentSample.a_ok.
  - reflexivity.
  - apply (bool_decide_eq_true_1 _). vm_compute. reflexivity.
  - apply (bool_decide_eq_true_1 _). vm_compute. reflexivity.
  - exact Hs.
  - reflexivity.
  - exists o. split; [exact H1|]. split; [apply H3; discriminate|].
    etransitivity; [exact H4|]. unfold joined. rewrite andb_false_r. reflexivity.
Defined.

(** Four minutes later the agent is back. *)
Lemma reconnect_keeps_endpoints_witness :
  ∃ r1 sess1' fx es a1, PairSample.reg = (r1, sess1', fx, Registered es) ∧ EName <$> es = ["t-r1"; "raw"] ∧
    PublicPort <$> es = [2001; 0]%Z ∧ setEndpoints 0 es AgentSample.a = (a1, Ok tt) ∧
    (register RelaySample.can_bind RelaySample.s (4 * minute) PairSample.sess2
       (zip PairSample.xs2 (register_specs (setDisconnected None a1))) (PairSample.away sess1' r1)).2 =
    Registered (zip_with (λ x e, e <| TunnelId := random_id x |>) PairSample.xs2 es).
Proof.
  destruct PairSample.reg as [[[r1 sess1'] fx] rep] eqn:Hr.
  assert (∃ es, rep = Registered es ∧ EName <$> es = ["t-r1"; "raw"] ∧ PublicPort <$> es = [2001; 0]%Z ∧
    closed r1 = false ∧ (setEndpoints 0 es AgentSample.a).2 = Ok tt ∧
    bool_decide (size (active_names (PairSample.away sess1' r1) "tok" ∪ list_to_set (EName <$> es)) ≤ 2) = true ∧
    bool_decide (set_Forall (λ p, RelaySample.can_bind p = true) (ports r1)) = true)
    as (es & -> & Hn & Hp & Hc & Hse & Hsz & Hb).
  { vm_compute in Hr. injection Hr as <- <- _ <-. eexists. split; [reflexivity|]. split_and!; vm_compute; reflexivity. }
  destruct (setEndpoints 0 es AgentSample.a) as [a1 out] eqn:Hset. cbn in Hse. subst out.
  exists r1, sess1', fx, es, a1. split; [reflexivity|]. split; [exact Hn|]. split; [exact Hp|]. split; [exact Hset|].
  eapply (reconnect_keeps_endpoints RelaySample.can_bind RelaySample.can_bind RelaySample.s RelaySample.min_ok eq_refl (5 * minute) 0 0
    (4 * minute) 0 0 None PairSample.sess1 sess1' PairSample.sess2 PairSample.xs PairSample.xs2 AgentSample.a a1 RelaySample.r0 r1 _ fx es);
    [exact AgentSample.a_ok|apply rtc_refl|reflexivity|reflexivity|reflexivity|exact Hr|exact Hset|exact Hc| |split_and!; done| |].
  - unfold PairSample.away. eapply rtc_l; [exists (1 * minute)%Z; split; [vm_compute; split; congruence|]|].
    { exact (others_close _ _ _ _ _ sess1'). }
    eapply rtc_l; [exists (2 * minute)%Z; split; [vm_compute; split; congruence|]|].
    { apply (others_register _ _ _ _ _ RelaySample.can_bind PairSample.rival PairSample.theirs). left. discriminate. }
    eapply rtc_l; [exists (3 * minute)%Z; split; [vm_compute; split; congruence|]|apply rtc_refl].
    apply (others_register _ _ _ _ _ RelaySample.can_bind PairSample.rival PairSample.mine). left. discriminate.
  - intros _. apply bool_decide_eq_true_1 in Hsz. cbn [MaxTunnels TPolicy token PairSample.sess1 PairSample.rec].
    apply Nat2Z.inj_le in Hsz. exact Hsz.
  - apply bool_decide_eq_true_1 in Hb. exact Hb.
Defined.
