(* ===== verification/Alerts.v ===== *)
(** * Alert rules (go/tun/alerts)

The backend judges the stored alert rules against a snapshot of the live and
edge tables every thirty seconds and notifies the targets of those that hold.
The tables, the clock and whether notifications and writes succeed are inputs;
texts are left out: an item of a message is a constructor with its data, and
the items are listed in the order they are found (the code sorts the texts).
Durations are int64 nanoseconds, products of int32 settings wrap around as in
Go, and [Time.Sub] saturates. *)

From S2P Require Import Prelude GoStrings Policy Claims EdgeConf EdgePool Edge.
From stdpp Require Import options.
#[local] Open Scope l8_scope.
#[local] Open Scope Z_scope.

Definition edgeStale : Z := 2 * minute.
Definition DefaultCooldownMinutes : Z := 60.
Definition evaluateInterval : Z := 30 * second.

Inductive TunAlertCondition :=
| TUN_ALERT_CONDITION_UNSPECIFIED | TUN_ALERT_CONDITION_RELAY_LOST | TUN_ALERT_CONDITION_NO_READY_RELAY
| TUN_ALERT_CONDITION_EDGE_POOL_DOWN | TUN_ALERT_CONDITION_EDGE_LISTENER_FAILED | TUN_ALERT_CONDITION_CERT_EXPIRING
| TUN_ALERT_CONDITION_TOKEN_OFFLINE | TUN_ALERT_CONDITION_AGENT_OFFLINE.
#[export] Instance condition_eq_dec : EqDecision TunAlertCondition.
Proof. solve_decision. Defined.

(** A target: whether its channel is specified, and its endpoint. *)
Record NotifyTarget := mkTarget { Channel : option nat; NEndpoint : string }.
#[export] Instance target_eq_dec : EqDecision NotifyTarget.
Proof. solve_decision. Defined.

Record TunAlertRule := mkAlertRule {
  RuleId : string;
  RName : string;
  Condition : TunAlertCondition;
  Threshold : Z;             (* int32; minutes for *_OFFLINE, days for CERT_EXPIRING *)
  RTokenId : string;
  RAgentId : string;
  Targets : list NotifyTarget;
  CooldownMinutes : Z;       (* int32 *)
  REnabled : bool;
  LastFired : Z;             (* Unix seconds; 0 is never *)
}.
#[export] Instance eta_rule : Eta TunAlertRule := λ r,
  mkAlertRule (RuleId r) (RName r) (Condition r) (Threshold r) (RTokenId r) (RAgentId r) (Targets r) (CooldownMinutes r)
    (REnabled r) (LastFired r).

(** What the evaluator reads of an edge's report and of a stored domain. *)
Record EdgeNode := mkNode {
  EdgeId : string; nLastSeen : Z; nSimulated : bool; nListeners : list EdgeListenerStatus; nBackends : list EdgeBackendStatus;
}.
Record CertDomain := mkCertDomain { cdDomain : string; CertNotAfter : Z }.

Record Snapshot := mkSnapshot {
  Now : Z;
  LiveOK : bool;
  Relays : list TunRelay;
  Agents : list TunAgent;
  EdgeOK : bool;
  Nodes : list EdgeNode;
  Domains : list CertDomain;
}.

Inductive item :=
| ItemRelay (id : string) (lastSeen : Z)
| ItemNoneReady (known : nat)
| ItemBackend (edge domain : string) (port : Z) (target error : string)
| ItemListener (edge : string) (port portEnd : Z) (domains : list string) (error : string)
| ItemCert (domain : string) (expired : bool) (notAfter : Z)
| ItemMissing (since : Z)                                (* no agent connected since at least *)
| ItemOffline (latest : Z) (agents : list string).

Record Firing := mkFiring { FRule : TunAlertRule; Items : list item }.

Record Evaluator := mkEvaluator { missingSince : gmap string Z }.
Definition NewEvaluator : Evaluator := mkEvaluator ∅.

(** [t.Sub(u)] *)
Definition time_sub (t u : Z) : Z := Z.max (- 2 ^ 63) (Z.min (2 ^ 63 - 1) (t - u)).

Definition missingKey (r : TunAlertRule) : string :=
  match Condition r with
  | TUN_ALERT_CONDITION_TOKEN_OFFLINE => "token/" +:+ RTokenId r
  | TUN_ALERT_CONDITION_AGENT_OFFLINE => "agent/" +:+ RAgentId r
  | _ => ""
  end.

Definition liveNodes (s : Snapshot) : list EdgeNode :=
  List.filter (λ n, negb (nSimulated n) && (time_sub (Now s) (nLastSeen n * second) <=? edgeStale)) (Nodes s).

Definition countReal (l : list TunRelay) : nat := length (List.filter (λ r, negb (rSimulated r)) l).

(** The loop of [offline] over the watched agents: [None] if one is online,
else the latest time one was seen, and the agents. *)
Fixpoint watched_agents (match_ : TunAgent → bool) (l : list TunAgent) (latest : Z) (names : list string)
    : option (Z * list string) :=
  match l with
  | [] => Some (latest, names)
  | a :: l =>
      if aSimulated a || negb (match_ a) then watched_agents match_ l latest names
      else if bool_decide (aState a = TUN_AGENT_STATE_ONLINE) then None
      else watched_agents match_ l (if latest <? aLastSeen a then aLastSeen a else latest) (names ++ [aAgentId a])
  end.

Definition offline_limit (r : TunAlertRule) : Z := int64 (Threshold r * minute).

Definition offline (r : TunAlertRule) (s : Snapshot) (match_ : TunAgent → bool) (e : Evaluator) : Evaluator * list item :=
  let key := missingKey r in
  match watched_agents match_ (Agents s) 0 [] with
  | None => (mkEvaluator (delete key (missingSince e)), [])
  | Some (latest, []) =>
      match missingSince e !! key with
      | None => (mkEvaluator (<[key := Now s]> (missingSince e)), [])
      | Some since =>
          if time_sub (Now s) since <? offline_limit r then (e, []) else (e, [ItemMissing (unix since)])
      end
  | Some (latest, names) =>
      (mkEvaluator (delete key (missingSince e)),
       if time_sub (Now s) (latest * second) <? offline_limit r then [] else [ItemOffline latest names])
  end.

Definition watches (r : TunAlertRule) (a : TunAgent) : bool :=
  match Condition r with
  | TUN_ALERT_CONDITION_TOKEN_OFFLINE => String.eqb (aTokenId a) (RTokenId r)
  | TUN_ALERT_CONDITION_AGENT_OFFLINE => String.eqb (aAgentId a) (RAgentId r)
  | _ => false
  end.

(** [holds]: what matches, or [None] when the data is unknown. *)
Definition holds (r : TunAlertRule) (s : Snapshot) (e : Evaluator) : Evaluator * option (list item) :=
  match Condition r with
  | TUN_ALERT_CONDITION_RELAY_LOST =>
      (e, if negb (LiveOK s) then None
          else Some (omap (λ rl, if negb (rSimulated rl) && bool_decide (rState rl = TUN_RELAY_STATE_DOWN)
                                 then Some (ItemRelay (rRelayId rl) (rLastSeen rl)) else None) (Relays s)))
  | TUN_ALERT_CONDITION_NO_READY_RELAY =>
      (e, if negb (LiveOK s) then None
          else if existsb (λ rl, negb (rSimulated rl) && bool_decide (rState rl = TUN_RELAY_STATE_READY)) (Relays s)
          then Some [] else Some [ItemNoneReady (countReal (Relays s))])
  | TUN_ALERT_CONDITION_EDGE_POOL_DOWN =>
      (e, if negb (EdgeOK s) then None
          else Some (n ← liveNodes s;
                     omap (λ b, if negb (BHealthy b)
                                then Some (ItemBackend (EdgeId n) (BDomain b) (BListenPort b) (BTarget b) (BLastError b))
                                else None) (nBackends n)))
  | TUN_ALERT_CONDITION_EDGE_LISTENER_FAILED =>
      (e, if negb (EdgeOK s) then None
          else Some (n ← liveNodes s;
                     omap (λ l, if negb (SBound l)
                                then Some (ItemListener (EdgeId n) (SPort l) (SPortEnd l) (SDomains l) (SError l))
                                else None) (nListeners n)))
  | TUN_ALERT_CONDITION_CERT_EXPIRING =>
      (e, if negb (EdgeOK s) then None
          else
            let before := unix (Now s + int64 (int64 (Threshold r * 24) * hour)) in
            Some (omap (λ d, if negb (CertNotAfter d =? 0) && (CertNotAfter d <=? before)
                             then Some (ItemCert (cdDomain d) (CertNotAfter d <=? unix (Now s)) (CertNotAfter d))
                             else None) (Domains s)))
  | TUN_ALERT_CONDITION_TOKEN_OFFLINE | TUN_ALERT_CONDITION_AGENT_OFFLINE =>
      if negb (LiveOK s) then (e, None)
      else let '(e, items) := offline r s (watches r) e in (e, Some items)
  | TUN_ALERT_CONDITION_UNSPECIFIED => (e, None)
  end.

Definition cooldown (r : TunAlertRule) : Z :=
  let c := int64 (CooldownMinutes r * minute) in
  if c <=? 0 then DefaultCooldownMinutes * minute else c.

Definition cooling (r : TunAlertRule) (s : Snapshot) : bool :=
  negb (LastFired r =? 0) && (time_sub (Now s) (LastFired r * second) <? cooldown r).

(** One rule of [Due]'s loop. *)
Definition judge (s : Snapshot) (acc : Evaluator * list Firing) (r : TunAlertRule) : Evaluator * list Firing :=
  let '(e, out) := acc in
  if negb (REnabled r) then (e, out)
  else
    let '(e, items) := holds r s e in
    match items with
    | None | Some [] => (e, out)
    | Some items => if cooling r s then (e, out) else (e, out ++ [mkFiring r items])
    end.

Definition watched_keys (rules : list TunAlertRule) : gset string :=
  list_to_set (List.filter (λ k, negb (String.eqb k "")) (missingKey <$> rules)).

Definition Due (rules : list TunAlertRule) (s : Snapshot) (e : Evaluator) : Evaluator * list Firing :=
  let '(e, out) := foldl (judge s) (e, []) rules in
  (mkEvaluator (filter (λ p, p.1 ∈ watched_keys rules) (missingSince e)), out).

(** ** A round *)

(** The stored rules; a firing stamps its rule. [stamped] is the clock when
rule [id] is stamped, or [None] if the write fails. *)
Definition fire (stamped : string → option Z) (rules : list TunAlertRule) (f : Firing) : list TunAlertRule :=
  match stamped (RuleId (FRule f)) with
  | None => rules
  | Some t =>
      (λ r, if String.eqb (RuleId r) (RuleId (FRule f)) then FRule f <| LastFired := unix t |> else r) <$> rules
  end.

(** The rules as [Rules] reads them, or a failure. *)
Definition read_rules (rules : list TunAlertRule) : list TunAlertRule :=
  List.filter (λ r, negb (String.eqb (RuleId r) "")) rules.

Definition alert_round (reachable : bool) (s : Snapshot) (stamped : string → option Z) (rules : list TunAlertRule)
    (e : Evaluator) : Evaluator * list TunAlertRule * list Firing :=
  if negb reachable then (e, rules, [])
  else if bool_decide (read_rules rules = []) then (e, rules, [])
  else
    let '(e, out) := Due (read_rules rules) s e in
    (e, foldl (fire stamped) rules out, out).

(** ** Storing a rule *)

Inductive alert_err :=
| NameRequired | CertThreshold | TokenThreshold | TokenLookup | TokenMissing | AgentNeeds | ConditionRequired
| NoTargets | TargetIncomplete | NegativeCooldown.

(** [validate], for every write but a PATCH; [token_exists] is the answer of
the token service, [present] is l8common's [ValidateRequired]. *)
Definition validate_rule (present : string → bool) (token_exists : string → option bool) (patch : bool) (r : TunAlertRule)
    : result alert_err TunAlertRule :=
  if patch then Ok r
  else
  refuse! negb (present (RName r)) with NameRequired ;;
  match (match Condition r with
         | TUN_ALERT_CONDITION_CERT_EXPIRING => refuse! Threshold r <? 1 with CertThreshold ;; Ok tt
         | TUN_ALERT_CONDITION_TOKEN_OFFLINE =>
             refuse! Threshold r <? 1 with TokenThreshold ;;
             match token_exists (RTokenId r) with
             | None => Err TokenLookup
             | Some false => Err TokenMissing
             | Some true => Ok tt
             end
         | TUN_ALERT_CONDITION_AGENT_OFFLINE =>
             refuse! (Threshold r <? 1) || String.eqb (RAgentId r) "" with AgentNeeds ;; Ok tt
         | TUN_ALERT_CONDITION_UNSPECIFIED => Err ConditionRequired
         | _ => Ok tt
         end) with
  | Err e => Err e
  | Ok _ =>
  refuse! bool_decide (Targets r = []) with NoTargets ;;
  refuse! existsb (λ t, bool_decide (Channel t = None) || String.eqb (NEndpoint t) "") (Targets r) with TargetIncomplete ;;
  refuse! CooldownMinutes r <? 0 with NegativeCooldown ;;
  Ok (if CooldownMinutes r =? 0 then r <| CooldownMinutes := DefaultCooldownMinutes |> else r)
  end.
