(* ===== verification/AlertsSpec.v ===== *)
(** * What the alert rules promise (theorems about Alerts.v)

What each condition reports is stated on the tables ([reports]), apart from the
evaluator's loops, and a round is shown to fire exactly that ([judged]). *)

From S2P Require Import Prelude GoStrings Policy Claims EdgeConf EdgePool Edge Alerts.
From stdpp Require Import options.
#[local] Open Scope l8_scope.
#[local] Open Scope Z_scope.

(** ** What a condition means *)

(** The watched agents of a rule; simulated ones do not count. *)
Definition matching (r : TunAlertRule) (s : Snapshot) : list TunAgent :=
  List.filter (λ a, negb (aSimulated a) && watches r a) (Agents s).

Definition online (a : TunAgent) : bool := bool_decide (aState a = TUN_AGENT_STATE_ONLINE).

Definition last_seen (l : list TunAgent) : Z := foldl (λ m a, Z.max m (aLastSeen a)) 0 l.

(** What an offline rule reports, with [since] the time its agents were first
seen missing: nothing if one is online; else, if there are records, that they
are offline for the threshold; else that they are missing for it. *)
Definition offline_items (since : option Z) (r : TunAlertRule) (s : Snapshot) : list item :=
  if existsb online (matching r s) then []
  else match matching r s with
       | [] => match since with
               | Some t => if offline_limit r <=? time_sub (Now s) t then [ItemMissing (unix t)] else []
               | None => []
               end
       | l => if offline_limit r <=? time_sub (Now s) (last_seen l * second)
              then [ItemOffline (last_seen l) (aAgentId <$> l)] else []
       end.

Definition is_offline_rule (r : TunAlertRule) : bool :=
  match Condition r with TUN_ALERT_CONDITION_TOKEN_OFFLINE | TUN_ALERT_CONDITION_AGENT_OFFLINE => true | _ => false end.

(** What matches a rule's condition; [None] if its tables could not be read. *)
Definition condition_items (since : option Z) (r : TunAlertRule) (s : Snapshot) : option (list item) :=
  if is_offline_rule r then if LiveOK s then Some (offline_items since r s) else None
  else (holds r s NewEvaluator).2.

(** ** The loop over the agents *)

Lemma watched_agents_spec f l latest names :
  watched_agents f l latest names =
  let m := List.filter (λ a, negb (aSimulated a) && f a) l in
  if existsb online m then None
  else Some (foldl (λ m a, Z.max m (aLastSeen a)) latest m, names ++ (aAgentId <$> m)).
Proof.
  revert latest names. induction l as [|a l IH]; intros latest names; cbn; [by rewrite app_nil_r|].
  destruct (aSimulated a); cbn; [apply IH|]. destruct (f a); cbn; [|apply IH].
  unfold online at 1. destruct (bool_decide _); [done|]. cbn. rewrite IH. cbn.
  assert ((if latest <? aLastSeen a then aLastSeen a else latest) = Z.max latest (aLastSeen a)) as ->.
  { destruct (Z.ltb_spec latest (aLastSeen a)); lia. }
  by rewrite <-app_assoc.
Qed.

Lemma holds_other r s e : is_offline_rule r = false → holds r s e = (e, (holds r s NewEvaluator).2).
Proof. unfold is_offline_rule, holds. by destruct (Condition r). Qed.

(** What judging an offline rule does to the times kept. *)
Definition next_since (r : TunAlertRule) (s : Snapshot) (since : option Z) : option Z :=
  match matching r s with [] => Some (default (Now s) since) | _ => None end.

Lemma holds_offline r s e :
  is_offline_rule r = true →
  holds r s e =
  if LiveOK s
  then (mkEvaluator (partial_alter (λ _, next_since r s (missingSince e !! missingKey r)) (missingKey r) (missingSince e)),
        Some (offline_items (missingSince e !! missingKey r) r s))
  else (e, None).
Proof.
  intros Hr. assert (holds r s e = if negb (LiveOK s) then (e, None)
    else let '(e, items) := offline r s (watches r) e in (e, Some items)) as ->.
  { unfold is_offline_rule, holds in *. by destruct (Condition r). }
  destruct (LiveOK s); cbn [negb]; [|done]. unfold offline. rewrite watched_agents_spec. cbn.
  unfold offline_items, next_since, last_seen. fold (matching r s).
  destruct e as [m]. cbn. set (k := missingKey r). destruct (matching r s) as [|a l] eqn:Hm; cbn [existsb].
  - cbn. destruct (m !! k) as [t|] eqn:Hk; [|done]. rewrite Z.ltb_antisym. cbn.
    assert (partial_alter (λ _, Some t) k m = m) as -> by (rewrite <-Hk; apply partial_alter_self).
    by destruct (offline_limit r <=? time_sub (Now s) t).
  - destruct (online a || existsb online l); [done|]. cbn. rewrite Z.ltb_antisym.
    by destruct (offline_limit r <=? _).
Qed.

(** ** The loop over the rules *)

(** Rules with one key watch the same agents. *)
Lemma same_key r1 r2 s :
  is_offline_rule r1 = true → missingKey r1 = missingKey r2 → is_offline_rule r2 = true ∧ matching r1 s = matching r2 s.
Proof.
  unfold is_offline_rule, missingKey, matching. intros H1 Hk.
  assert (is_offline_rule r2 = true ∧ ∀ a, watches r1 a = watches r2 a) as [H2 Hw].
  { unfold is_offline_rule, watches. destruct (Condition r1), (Condition r2); try done;
      (split; [done|]; intros a; apply str_app_inj_l in Hk; by rewrite Hk). }
  split; [done|]. apply List.filter_ext. intros a. by rewrite Hw.
Qed.

Section due.
Context (s : Snapshot) (m0 : gmap string Z).

(** The times kept while the rules are judged, with [m0] before: a rule's is
as it was, or as judging a rule with its key left it. *)
Definition kept_times (m : gmap string Z) : Prop :=
  ∀ r, is_offline_rule r = true → m !! missingKey r = m0 !! missingKey r ∨
    (LiveOK s = true ∧ m !! missingKey r = next_since r s (m0 !! missingKey r)).

Definition limited (r : TunAlertRule) : Prop := is_offline_rule r = true → 0 < offline_limit r.

(** A rule's items do not depend on the rules judged before it. *)
Lemma items_kept r m :
  kept_times m → limited r → is_offline_rule r = true →
  offline_items (m !! missingKey r) r s = offline_items (m0 !! missingKey r) r s ∧
  next_since r s (m !! missingKey r) = next_since r s (m0 !! missingKey r).
Proof.
  intros Hm Hl Hr. destruct (Hm r Hr) as [->|[_ ->]]; [done|]. unfold offline_items, next_since.
  destruct (matching r s) as [|a l]; [|done]. cbn. destruct (m0 !! missingKey r) as [t|]; [done|]. cbn.
  specialize (Hl Hr). split; [|done]. destruct (Z.leb_spec (offline_limit r) (time_sub (Now s) (Now s))) as [Hle|]; [|done].
  unfold time_sub in Hle. lia.
Qed.

Lemma kept_times_step r m :
  kept_times m → limited r → is_offline_rule r = true → LiveOK s = true →
  kept_times (partial_alter (λ _, next_since r s (m !! missingKey r)) (missingKey r) m).
Proof.
  intros Hm Hl Hr Hok r' Hr'. destruct (decide (missingKey r' = missingKey r)) as [Hk|Hne].
  - right. split; [done|]. rewrite Hk, lookup_partial_alter_eq.
    destruct (items_kept r m Hm Hl Hr) as [_ ->]. unfold next_since.
    destruct (same_key r r' s Hr (eq_sym Hk)) as [_ ->]. done.
  - rewrite lookup_partial_alter_ne by congruence. by apply Hm.
Qed.

(** What a rule fires. *)
Definition firing (r : TunAlertRule) : option Firing :=
  if REnabled r && negb (cooling r s) then
    match condition_items (m0 !! missingKey r) r s with
    | Some (i :: l) => Some (mkFiring r (i :: l))
    | _ => None
    end
  else None.

Lemma judge_step r m out :
  kept_times m → limited r →
  ∃ m', judge s (mkEvaluator m, out) r = (mkEvaluator m', out ++ option_list (firing r)) ∧ kept_times m' ∧
    (REnabled r = true → is_offline_rule r = true → LiveOK s = true →
       m' !! missingKey r = next_since r s (m0 !! missingKey r)) ∧
    (LiveOK s = false → m' = m) ∧
    (∀ r', is_offline_rule r' = true → LiveOK s = true → m !! missingKey r' = next_since r' s (m0 !! missingKey r') →
       m' !! missingKey r' = next_since r' s (m0 !! missingKey r')).
Proof.
  intros Hm Hl. unfold judge, firing. destruct (REnabled r); cbn [negb andb].
  2:{ exists m. rewrite app_nil_r. split_and!; try done. }
  destruct (is_offline_rule r) eqn:Hr.
  - rewrite holds_offline by done. unfold condition_items. rewrite Hr. cbn [missingSince].
    destruct (LiveOK s) eqn:Hok.
    2:{ exists m. destruct (cooling r s); cbn; rewrite app_nil_r; by split_and!. }
    destruct (items_kept r m Hm Hl Hr) as [Hi Hn]. rewrite Hi.
    exists (partial_alter (λ _, next_since r s (m !! missingKey r)) (missingKey r) m). split_and!.
    + clear Hi. destruct (offline_items (m0 !! missingKey r) r s) as [|i l], (cooling r s); cbn; by rewrite ?app_nil_r.
    + by apply kept_times_step.
    + intros _ _ _. by rewrite lookup_partial_alter_eq.
    + done.
    + intros r' Hr' _ Hr''. destruct (decide (missingKey r' = missingKey r)) as [Hk|Hne].
      * rewrite Hk, lookup_partial_alter_eq, Hn. unfold next_since.
        destruct (same_key r r' s Hr (eq_sym Hk)) as [_ ->]. done.
      * rewrite lookup_partial_alter_ne by congruence. done.
  - rewrite holds_other by done. unfold condition_items. rewrite Hr. exists m. split_and!; try done.
    destruct (holds r s NewEvaluator).2 as [[|i l]|], (cooling r s); cbn; by rewrite ?app_nil_r.
Qed.

Lemma judge_loop rules m out :
  kept_times m → Forall limited rules →
  ∃ m', foldl (judge s) (mkEvaluator m, out) rules = (mkEvaluator m', out ++ omap firing rules) ∧
    (LiveOK s = false → m' = m) ∧
    (LiveOK s = true → ∀ r', is_offline_rule r' = true →
       (m !! missingKey r' = next_since r' s (m0 !! missingKey r') ∨ (r' ∈ rules ∧ REnabled r' = true)) →
       m' !! missingKey r' = next_since r' s (m0 !! missingKey r')).
Proof.
  revert m out. induction rules as [|r rules IH]; intros m out Hm Hl; cbn [foldl omap list_omap].
  { exists m. rewrite app_nil_r. split_and!; [done|done|]. intros _ r' _ [?|[?%elem_of_nil _]]; done. }
  apply Forall_cons in Hl as [Hr Hl].
  destruct (judge_step r m out Hm Hr) as (m1 & -> & Hm1 & Hself & Hdown & Hstay).
  destruct (IH m1 (out ++ option_list (firing r)) Hm1 Hl) as (m' & -> & Hdown' & Hnext).
  exists m'. split_and!.
  - f_equal. rewrite <-app_assoc. f_equal. cbn. by destruct (firing r).
  - intros Hok. rewrite Hdown', Hdown by done. done.
  - intros Hok r' Hr' [Hn|[[->|Hin]%elem_of_cons Hen]]; apply Hnext; try done; [left; by apply Hstay|left; by apply Hself|by right].
Qed.
End due.

(** An offline rule whose threshold is positive and fits a duration. *)
Definition sane_threshold (r : TunAlertRule) : Prop := is_offline_rule r = true → 1 ≤ Threshold r ≤ 153722867.

Lemma sane_limited r : sane_threshold r → limited r.
Proof.
  intros Hs Hr. specialize (Hs Hr). unfold offline_limit, int64, minute, second. rewrite Z.mod_small; lia.
Qed.

Lemma elem_of_watched k rules : k ∈ watched_keys rules ↔ k ≠ "" ∧ ∃ r, r ∈ rules ∧ missingKey r = k.
Proof.
  unfold watched_keys. rewrite elem_of_list_to_set, elem_of_filterb, list_elem_of_fmap.
  assert (negb (String.eqb k "") = true ↔ k ≠ "") as ->.
  { destruct (String.eqb_spec k ""); cbn; naive_solver. }
  naive_solver.
Qed.

Lemma Due_fires rules s e :
  Forall sane_threshold rules → (Due rules s e).2 = omap (firing s (missingSince e)) rules.
Proof.
  intros Hl. destruct e as [m0]. destruct (judge_loop s m0 rules m0 []) as (m' & Hd & _); [by left| |].
  { eapply Forall_impl; [done|]. apply sane_limited. }
  unfold Due. by rewrite Hd.
Qed.

(** ** The conditions on the tables *)

(** The tables a rule's condition is about were read. *)
Definition tables_read (r : TunAlertRule) (s : Snapshot) : Prop :=
  match Condition r with
  | TUN_ALERT_CONDITION_UNSPECIFIED => False
  | TUN_ALERT_CONDITION_EDGE_POOL_DOWN | TUN_ALERT_CONDITION_EDGE_LISTENER_FAILED | TUN_ALERT_CONDITION_CERT_EXPIRING => EdgeOK s = true
  | _ => LiveOK s = true
  end.

(** An edge that is not simulated and reported in the last two minutes. *)
Definition reporting (s : Snapshot) (n : EdgeNode) : Prop :=
  n ∈ Nodes s ∧ nSimulated n = false ∧ Now s - nLastSeen n * second ≤ 2 * minute.

(** The agents an offline rule is about. *)
Definition rule_about (r : TunAlertRule) (a : TunAgent) : Prop :=
  aSimulated a = false ∧
  match Condition r with
  | TUN_ALERT_CONDITION_TOKEN_OFFLINE => aTokenId a = RTokenId r
  | TUN_ALERT_CONDITION_AGENT_OFFLINE => aAgentId a = RAgentId r
  | _ => False
  end.
#[local] Instance rule_about_dec r a : Decision (rule_about r a).
Proof. unfold rule_about. destruct (Condition r); apply _. Defined.
Definition agents_of (r : TunAlertRule) (s : Snapshot) : list TunAgent := filter (rule_about r) (Agents s).

(** What an alert of the rule lists; [since] is the time a round first found no
record of the agents of an offline rule. *)
Definition reports (since : option Z) (r : TunAlertRule) (s : Snapshot) (i : item) : Prop :=
  match Condition r with
  | TUN_ALERT_CONDITION_UNSPECIFIED => False
  | TUN_ALERT_CONDITION_RELAY_LOST => ∃ rl, rl ∈ Relays s ∧ rSimulated rl = false ∧ rState rl = TUN_RELAY_STATE_DOWN ∧
      i = ItemRelay (rRelayId rl) (rLastSeen rl)
  | TUN_ALERT_CONDITION_NO_READY_RELAY =>
      (∀ rl, rl ∈ Relays s → rSimulated rl = false → rState rl ≠ TUN_RELAY_STATE_READY) ∧
      i = ItemNoneReady (length (filter (λ rl, rSimulated rl = false) (Relays s)))
  | TUN_ALERT_CONDITION_EDGE_POOL_DOWN => ∃ n b, reporting s n ∧ b ∈ nBackends n ∧ BHealthy b = false ∧
      i = ItemBackend (EdgeId n) (BDomain b) (BListenPort b) (BTarget b) (BLastError b)
  | TUN_ALERT_CONDITION_EDGE_LISTENER_FAILED => ∃ n l, reporting s n ∧ l ∈ nListeners n ∧ SBound l = false ∧
      i = ItemListener (EdgeId n) (SPort l) (SPortEnd l) (SDomains l) (SError l)
  | TUN_ALERT_CONDITION_CERT_EXPIRING => ∃ d, d ∈ Domains s ∧ CertNotAfter d ≠ 0 ∧
      CertNotAfter d ≤ unix (Now s + Threshold r * 24 * hour) ∧
      i = ItemCert (cdDomain d) (bool_decide (CertNotAfter d ≤ unix (Now s))) (CertNotAfter d)
  | TUN_ALERT_CONDITION_TOKEN_OFFLINE | TUN_ALERT_CONDITION_AGENT_OFFLINE =>
      (∀ a, a ∈ agents_of r s → aState a ≠ TUN_AGENT_STATE_ONLINE) ∧
      ((agents_of r s = [] ∧ ∃ t, since = Some t ∧ Threshold r * minute ≤ Now s - t ∧ i = ItemMissing (unix t)) ∨
       (agents_of r s ≠ [] ∧ let latest := foldr Z.max 0 (aLastSeen <$> agents_of r s) in
          Threshold r * minute ≤ Now s - latest * second ∧ i = ItemOffline latest (aAgentId <$> agents_of r s)))
  end.

(** The rule fired less than its cooldown ago, an hour where it has none. *)
Definition in_cooldown (r : TunAlertRule) (s : Snapshot) : Prop :=
  LastFired r ≠ 0 ∧
  Now s - LastFired r * second < (if bool_decide (CooldownMinutes r ≤ 0) then 60 else CooldownMinutes r) * minute.

(** Durations that fit 64 bits of nanoseconds: 292 years. *)
Definition in_range (r : TunAlertRule) : Prop :=
  sane_threshold r ∧ (Condition r = TUN_ALERT_CONDITION_CERT_EXPIRING → 0 ≤ Threshold r ≤ 106751) ∧
  - 153722867 ≤ CooldownMinutes r ≤ 153722867.

Lemma int64_small z : - 2 ^ 63 ≤ z < 2 ^ 63 → int64 z = z.
Proof. intros ?. unfold int64. rewrite Z.mod_small; lia. Qed.

Lemma cooling_spec r s : in_range r → cooling r s = true ↔ in_cooldown r s.
Proof.
  intros (_ & _ & Hc). unfold cooling, in_cooldown, cooldown, DefaultCooldownMinutes, time_sub, minute, second in *.
  rewrite int64_small by lia. rewrite andb_true_iff, negb_true_iff, Z.eqb_neq, Z.ltb_lt.
  destruct (Z.leb_spec (CooldownMinutes r * (60 * 1000000000)) 0); [rewrite bool_decide_true by lia|rewrite bool_decide_false by lia]; lia.
Qed.

Lemma rule_about_watches r a : rule_about r a ↔ negb (aSimulated a) && watches r a = true.
Proof.
  unfold rule_about, watches. rewrite andb_true_iff, negb_true_iff.
  destruct (Condition r); rewrite ?String.eqb_eq; naive_solver.
Qed.

Lemma agents_of_matching r s : agents_of r s = matching r s.
Proof.
  unfold agents_of, matching. induction (Agents s) as [|a l IH]; [done|]. cbn [List.filter].
  pose proof (rule_about_watches r a) as Ha. destruct (negb (aSimulated a) && watches r a).
  - rewrite filter_cons_True, IH by (by apply Ha). done.
  - rewrite filter_cons_False, IH by (intros ?%Ha; done). done.
Qed.

Lemma last_seen_foldr l : last_seen l = foldr Z.max 0 (aLastSeen <$> l).
Proof.
  unfold last_seen. assert (∀ m, 0 ≤ m → foldl (λ m a, Z.max m (aLastSeen a)) m l = Z.max m (foldr Z.max 0 (aLastSeen <$> l))) as Hf.
  { induction l as [|a l IH]; intros m Hm; cbn [foldl fmap list_fmap foldr]; [lia|]. rewrite IH by lia. lia. }
  rewrite Hf by lia. apply Z.max_r. clear Hf. induction l as [|a l IH]; cbn [fmap list_fmap foldr]; lia.
Qed.

Lemma offline_items_reports since r s i :
  sane_threshold r → is_offline_rule r = true → i ∈ offline_items since r s ↔ reports since r s i.
Proof.
  intros Hs Hr. specialize (Hs Hr). assert (reports since r s i ↔
    (∀ a, a ∈ agents_of r s → aState a ≠ TUN_AGENT_STATE_ONLINE) ∧
    ((agents_of r s = [] ∧ ∃ t, since = Some t ∧ Threshold r * minute ≤ Now s - t ∧ i = ItemMissing (unix t)) ∨
     (agents_of r s ≠ [] ∧ let latest := foldr Z.max 0 (aLastSeen <$> agents_of r s) in
        Threshold r * minute ≤ Now s - latest * second ∧ i = ItemOffline latest (aAgentId <$> agents_of r s)))) as ->.
  { unfold reports, is_offline_rule in *. by destruct (Condition r). }
  rewrite agents_of_matching. unfold offline_items.
  assert (∀ t, (offline_limit r <=? time_sub (Now s) t) = true ↔ Threshold r * minute ≤ Now s - t) as Hle.
  { intros t. unfold offline_limit, time_sub, minute, second. rewrite int64_small by lia. rewrite Z.leb_le. lia. }
  destruct (existsb online (matching r s)) eqn:Hon.
  - apply existsb_exists in Hon as (a & Ha%list_elem_of_In & Hon%bool_decide_eq_true_1).
    split; [by intros ?%elem_of_nil|]. intros [Hno _]. by destruct (Hno a Ha).
  - assert (∀ a, a ∈ matching r s → aState a ≠ TUN_AGENT_STATE_ONLINE) as Hno.
    { intros a Ha Hst. assert (existsb online (matching r s) = true) as Hx; [|congruence].
      apply existsb_exists. exists a. split; [by apply list_elem_of_In|by apply bool_decide_eq_true_2]. }
    destruct (matching r s) as [|a l] eqn:Hm.
    + destruct since as [t|]; [specialize (Hle t)|]; [destruct (offline_limit r <=? _)|];
        rewrite ?list_elem_of_singleton, ?elem_of_nil; naive_solver.
    + rewrite <-(last_seen_foldr (a :: l)). set (u := last_seen (a :: l)) in *. specialize (Hle (u * second)).
      destruct (offline_limit r <=? _); rewrite ?list_elem_of_singleton, ?elem_of_nil; naive_solver.
Qed.

Lemma liveNodes_reporting s n : n ∈ liveNodes s ↔ reporting s n.
Proof.
  unfold liveNodes, reporting. rewrite elem_of_filterb, andb_true_iff, negb_true_iff, Z.leb_le. unfold time_sub, edgeStale, minute, second.
  split; [intros (? & ? & ?)|intros (? & ? & ?)]; split_and!; try done; lia.
Qed.

Lemma countReal_real l : countReal l = length (filter (λ rl, rSimulated rl = false) l).
Proof.
  unfold countReal. induction l as [|rl l IH]; [done|]. cbn [List.filter]. destruct (rSimulated rl) eqn:Hs; cbn [negb].
  - by rewrite filter_cons_False by congruence.
  - rewrite filter_cons_True by done. cbn [length]. by rewrite IH.
Qed.

Lemma holds_reports r s l i :
  in_range r → is_offline_rule r = false → (holds r s NewEvaluator).2 = Some l → tables_read r s ∧ (i ∈ l ↔ reports None r s i).
Proof.
  intros (_ & Hcert & _) Hr. unfold holds, tables_read, reports, is_offline_rule in *. destruct (Condition r); try done; cbn [snd].
  - destruct (LiveOK s); cbn [negb]; [|done]. intros [= <-]. split; [done|]. rewrite list_elem_of_omap. split.
    + intros (rl & Hin & Hb). exists rl. destruct (rSimulated rl), (bool_decide _) eqn:Hd; cbn in Hb; simplify_eq.
      apply bool_decide_eq_true_1 in Hd. by split_and!.
    + intros (rl & Hin & Hsim & Hst & ->). exists rl. split; [done|]. by rewrite Hsim, bool_decide_true.
  - destruct (LiveOK s); cbn [negb]; [|done]. destruct (existsb _ _) eqn:He; intros [= <-]; (split; [done|]).
    + apply existsb_exists in He as (rl & Hin%list_elem_of_In & [Hs%negb_true_iff Hst%bool_decide_eq_true_1]%andb_true_iff).
      split; [by intros ?%elem_of_nil|]. intros [Hno _]. by destruct (Hno rl Hin Hs).
    + rewrite list_elem_of_singleton, countReal_real. split; [|by intros [_ ->]]. intros ->. split; [|done].
      intros rl Hin Hs Hst. assert (existsb (λ rl, negb (rSimulated rl) && bool_decide (rState rl = TUN_RELAY_STATE_READY)) (Relays s) = true);
        [|congruence]. apply existsb_exists. exists rl. split; [by apply list_elem_of_In|]. by rewrite Hs, bool_decide_true.
  - destruct (EdgeOK s); cbn [negb]; [|done]. intros [= <-]. split; [done|]. rewrite list_elem_of_bind. split.
    + intros (n & (b & Hin & Hb)%list_elem_of_omap & Hn%liveNodes_reporting). exists n, b.
      destruct (BHealthy b); cbn in Hb; simplify_eq. by split_and!.
    + intros (n & b & Hn%liveNodes_reporting & Hin & Hh & ->). exists n. split; [|done].
      apply list_elem_of_omap. exists b. by rewrite Hh.
  - destruct (EdgeOK s); cbn [negb]; [|done]. intros [= <-]. split; [done|]. rewrite list_elem_of_bind. split.
    + intros (n & (b & Hin & Hb)%list_elem_of_omap & Hn%liveNodes_reporting). exists n, b.
      destruct (SBound b); cbn in Hb; simplify_eq. by split_and!.
    + intros (n & b & Hn%liveNodes_reporting & Hin & Hh & ->). exists n. split; [|done].
      apply list_elem_of_omap. exists b. by rewrite Hh.
  - destruct (EdgeOK s); cbn [negb]; [|done]. intros [= <-]. split; [done|]. specialize (Hcert eq_refl).
    rewrite (int64_small (Threshold r * 24)), int64_small by (unfold hour, minute, second; lia). rewrite list_elem_of_omap. split.
    + intros (d & Hin & Hb). exists d. destruct (Z.eqb_spec (CertNotAfter d) 0), (Z.leb_spec (CertNotAfter d) (unix (Now s + Threshold r * 24 * hour)));
        cbn in Hb; simplify_eq. split_and!; try done. f_equal. destruct (Z.leb_spec (CertNotAfter d) (unix (Now s)));
        [by rewrite bool_decide_true|by rewrite bool_decide_false by lia].
    + intros (d & Hin & H0 & Hle & ->). exists d. split; [done|]. rewrite (proj2 (Z.eqb_neq _ _) H0), (proj2 (Z.leb_le _ _) Hle). cbn.
      do 2 f_equal. destruct (Z.leb_spec (CertNotAfter d) (unix (Now s))); [by rewrite bool_decide_true|by rewrite bool_decide_false by lia].
Qed.

Lemma reports_since a b r s i : is_offline_rule r = false → reports a r s i ↔ reports b r s i.
Proof. unfold reports, is_offline_rule. by destruct (Condition r). Qed.

Lemma condition_items_reports since r s :
  in_range r →
  match condition_items since r s with
  | Some l => tables_read r s ∧ ∀ i, i ∈ l ↔ reports since r s i
  | None => ¬ tables_read r s
  end.
Proof.
  intros Hin. unfold condition_items. destruct (is_offline_rule r) eqn:Hr.
  - assert (tables_read r s ↔ LiveOK s = true) as Ht by (unfold tables_read, is_offline_rule in *; by destruct (Condition r)).
    destruct (LiveOK s); rewrite Ht; [split; [done|]|done]. intros i. apply offline_items_reports; [apply Hin|done].
  - destruct (holds r s NewEvaluator).2 as [l|] eqn:Hh.
    + split; [by eapply (holds_reports _ _ _ (ItemMissing 0))|]. intros i. rewrite (reports_since since None) by done.
      by eapply holds_reports.
    + unfold holds, tables_read, is_offline_rule in *. destruct (Condition r); cbn [snd] in Hh; [by intros []|..|done|done];
        [destruct (LiveOK s); done|destruct (LiveOK s); [by destruct (existsb _ _)|done]|destruct (EdgeOK s); done..].
Qed.

(** What a round makes of a rule: the alert it fires, if any. *)
Definition judged (since : option Z) (s : Snapshot) (r : TunAlertRule) (out : option Firing) : Prop :=
  match out with
  | Some f => FRule f = r ∧ REnabled r = true ∧ tables_read r s ∧ ¬ in_cooldown r s ∧
      Items f ≠ [] ∧ ∀ i, i ∈ Items f ↔ reports since r s i
  | None => REnabled r = false ∨ ¬ tables_read r s ∨ in_cooldown r s ∨ ∀ i, ¬ reports since r s i
  end.

Lemma firing_judged s m r : in_range r → judged (m !! missingKey r) s r (firing s m r).
Proof.
  intros Hin. pose proof (condition_items_reports (m !! missingKey r) r s Hin) as Hc. unfold firing, judged.
  destruct (REnabled r); cbn [andb]; [|by left].
  destruct (cooling r s) eqn:Hcool; cbn [negb]; [right; right; left; by apply cooling_spec|].
  destruct (condition_items _ _ _) as [[|i l]|]; [right; right; right|cbn|right; left; done].
  - intros i Hi. destruct Hc as [_ Hc]. apply Hc in Hi. by apply elem_of_nil in Hi.
  - destruct Hc as [Ht Hc]. split_and!; try done. intros Hco%cooling_spec; [congruence|done].
Qed.

(** C35: which alerts fire. A round goes through the rules in order. It fires a
rule that is enabled, out of its cooldown and whose tables were read, if the
tables have something to report, and the alert lists exactly that: the lost
relays; that no relay is ready; the backends that are down, and the ports that
could not be bound, on edges that reported in the last two minutes; the
certificates that expire within the threshold or have; that none of the
agents of a token, or of an ID, is online and the last was seen at least the
threshold ago, or that there has been no record of one since a round at least
the threshold ago. Simulated relays, edges and agents do not count. However
rules share agents, that round is remembered while there are no records, forgotten as soon as there are
some, and kept while the tables cannot be read; what no rule watches is
forgotten. (Thresholds and cooldowns that do not fit a duration are
excluded.) *)
Theorem Due_spec rules s e :
  Forall in_range rules →
  let m := missingSince e in let m' := missingSince (Due rules s e).1 in
  (∃ f, (Due rules s e).2 = omap f rules ∧ ∀ r, r ∈ rules → judged (m !! missingKey r) s r (f r)) ∧
  (∀ r, r ∈ rules → REnabled r = true → is_offline_rule r = true →
     m' !! missingKey r =
       if LiveOK s then if bool_decide (agents_of r s = []) then Some (default (Now s) (m !! missingKey r)) else None
       else m !! missingKey r) ∧
  (∀ k, (∀ r, r ∈ rules → missingKey r ≠ k) → m' !! k = None).
Proof.
  intros Hl m m'. assert (Forall sane_threshold rules) as Hsane by (eapply Forall_impl; [exact Hl|]; by intros r [? _]).
  split.
  { exists (firing s m). split; [by apply Due_fires|]. intros r Hin. apply firing_judged. rewrite Forall_forall in Hl. by apply Hl. }
  destruct (judge_loop s m rules m []) as (m1 & Hd & Hdown & Hnext); [by left| |].
  { eapply Forall_impl; [done|]. apply sane_limited. }
  assert (m' = filter (λ p, p.1 ∈ watched_keys rules) m1) as ->.
  { subst m'. unfold Due. destruct e as [m2]. cbn in m. subst m. by rewrite Hd. }
  split.
  - intros r Hin Hen Hr. assert (missingKey r ∈ watched_keys rules) as Hw.
    { apply elem_of_watched. split; [|by exists r]. unfold is_offline_rule, missingKey in *. by destruct (Condition r). }
    assert (filter (λ p, p.1 ∈ watched_keys rules) m1 !! missingKey r = m1 !! missingKey r) as ->.
    { destruct (m1 !! missingKey r) as [t|] eqn:Ht; [by apply map_lookup_filter_Some|apply map_lookup_filter_None; by left]. }
    rewrite agents_of_matching.
    destruct (LiveOK s) eqn:Hok; [|by rewrite Hdown]. rewrite Hnext by auto. unfold next_since.
    by destruct (matching r s).
  - intros k Hk. apply map_lookup_filter_None. right. intros t _ [_ (r & Hin & Heq)]%elem_of_watched. by apply (Hk r).
Qed.

(** ** Cooldowns *)

(** The snapshots of the rounds, and the clock when a firing rule is stamped. *)
Definition rounds : Type := list (Snapshot * (string → Z)).

(** The firings of rule [id]: the time it was judged at, and its stamp. *)
Fixpoint history (id : string) (l : rounds) (rules : list TunAlertRule) (e : Evaluator) : list (Z * Z) :=
  match l with
  | [] => []
  | (s, at_) :: l =>
      let '(e, rules, out) := alert_round true s (λ i, Some (at_ i)) rules e in
      (if existsb (λ f, String.eqb (RuleId (FRule f)) id) out then [(Now s, at_ id)] else []) ++ history id l rules e
  end.

Lemma fire_ids st rules f : RuleId <$> fire st rules f = RuleId <$> rules.
Proof.
  unfold fire. destruct (st _); [|done]. rewrite <-list_fmap_compose. apply list_fmap_ext. intros i r _. cbn.
  destruct (String.eqb_spec (RuleId r) (RuleId (FRule f))); [by cbn|done].
Qed.

Lemma fires_ids st out rules : RuleId <$> foldl (fire st) rules out = RuleId <$> rules.
Proof. revert rules. induction out as [|f out IH]; intros rules; [done|]. cbn. by rewrite IH, fire_ids. Qed.

(** The record of a rule among rules with distinct IDs. *)
Definition stored (rules : list TunAlertRule) (r : TunAlertRule) : Prop :=
  r ∈ rules ∧ ∀ r', r' ∈ rules → RuleId r' = RuleId r → r' = r.

Lemma fire_stored at_ rules f r :
  stored rules r → f.(FRule) ∈ rules →
  stored (fire (λ i, Some (at_ i)) rules f)
    (if String.eqb (RuleId r) (RuleId (FRule f)) then r <| LastFired := unix (at_ (RuleId r)) |> else r).
Proof.
  intros [Hin Huniq] Hf. unfold fire. set (g := λ r0, if String.eqb (RuleId r0) _ then _ else r0).
  destruct (String.eqb_spec (RuleId r) (RuleId (FRule f))) as [Heq|Hne].
  - assert (FRule f = r) as Hfr by (by apply Huniq). split.
    + apply list_elem_of_fmap. exists r. split; [|done]. subst g. cbn. by rewrite Hfr, String.eqb_refl.
    + intros r' (r0 & -> & Hr0)%list_elem_of_fmap. subst g. cbn. rewrite Hfr.
      destruct (String.eqb_spec (RuleId r0) (RuleId r)); [done|]. by intros ?.
  - split.
    + apply list_elem_of_fmap. exists r. split; [|done]. subst g. cbn. by apply String.eqb_neq in Hne as ->.
    + intros r' (r0 & -> & Hr0)%list_elem_of_fmap. subst g. cbn.
      destruct (String.eqb_spec (RuleId r0) (RuleId (FRule f))) as [Heq|?]; [cbn; congruence|by apply Huniq].
Qed.

Definition fired_id (f : Firing) : string := RuleId (FRule f).

Lemma fire_other st rules f r : r ∈ rules → RuleId r ≠ fired_id f → r ∈ fire st rules f.
Proof.
  intros Hin Hne. unfold fire, fired_id in *. destruct (st _); [|done]. apply list_elem_of_fmap. exists r. split; [|done].
  by apply String.eqb_neq in Hne as ->.
Qed.

Lemma fires_stored at_ out rules r :
  NoDup (fired_id <$> out) → (∀ f, f ∈ out → FRule f ∈ rules) → stored rules r →
  stored (foldl (fire (λ i, Some (at_ i))) rules out)
    (if existsb (λ f, String.eqb (fired_id f) (RuleId r)) out then r <| LastFired := unix (at_ (RuleId r)) |> else r).
Proof.
  revert rules r. induction out as [|f out IH]; intros rules r Hnd Hin Hst; [done|]. cbn [foldl existsb].
  rewrite fmap_cons in Hnd. apply NoDup_cons in Hnd as [Hnin Hnd].
  pose proof (fire_stored at_ rules f r Hst (Hin f ltac:(left))) as Hst1.
  assert (∀ g, g ∈ out → FRule g ∈ fire (λ i, Some (at_ i)) rules f) as Hin1.
  { intros g Hg. apply fire_other; [apply Hin; by right|]. intros Heq. apply Hnin. rewrite <-Heq. by apply (list_elem_of_fmap_2 fired_id). }
  rewrite String.eqb_sym in Hst1. fold (fired_id f) in Hst1.
  specialize (IH _ _ Hnd Hin1 Hst1). destruct (String.eqb_spec (fired_id f) (RuleId r)) as [Heq|Hne]; cbn [orb]; [|done].
  assert (existsb (λ g, String.eqb (fired_id g) (RuleId r)) out = false) as Hno.
  { apply existsb_false. intros g Hg. apply String.eqb_neq. intros Hgr. apply Hnin. rewrite Heq, <-Hgr.
    by apply (list_elem_of_fmap_2 fired_id). }
  assert (RuleId (r <| LastFired := unix (at_ (RuleId r)) |>) = RuleId r) as Hid by done. rewrite Hid, Hno in IH. exact IH.
Qed.

Lemma fires_sane st out rules :
  Forall sane_threshold rules → Forall (λ f, sane_threshold (FRule f)) out → Forall sane_threshold (foldl (fire st) rules out).
Proof.
  revert rules. induction out as [|f out IH]; intros rules Hr Hf; [done|]. apply Forall_cons in Hf as [Hf Ho]. cbn. apply IH; [|done].
  unfold fire. destruct (st _); [|done]. apply Forall_fmap. eapply Forall_impl; [exact Hr|]. intros r Hs. cbn.
  by destruct (String.eqb _ _).
Qed.

(** The firings of a list of rules. *)
Lemma omap_firing s m rules :
  sublist (fired_id <$> omap (firing s m) rules) (RuleId <$> rules) ∧
  ∀ f, f ∈ omap (firing s m) rules → FRule f ∈ rules ∧ cooling (FRule f) s = false.
Proof.
  assert (∀ r f, firing s m r = Some f → FRule f = r ∧ cooling r s = false) as Hf.
  { intros r f. unfold firing. destruct (REnabled r && _) eqn:Hb; [|done]. bool_facts.
    destruct (condition_items _ _ _) as [[|i l]|]; [done| |done]. by intros [= <-]. }
  induction rules as [|r rules [IH1 IH2]]; [split; [constructor|by intros f ?%elem_of_nil]|]. cbn.
  destruct (firing s m r) as [f|] eqn:Hr; cbn.
  - destruct (Hf _ _ Hr) as [<- Hc]. split; [by apply sublist_skip|].
    intros g [->|Hg]%elem_of_cons; [split; [left|done]|]. destruct (IH2 g Hg). split; [by right|done].
  - split; [by apply sublist_cons|]. intros g Hg. destruct (IH2 g Hg). split; [by right|done].
Qed.

(** What one round does to a stored rule: it is stamped if it fires, and then
it was out of its cooldown. *)
Lemma round_stored s at_ rules e r :
  Forall sane_threshold rules → NoDup (RuleId <$> rules) → stored rules r → RuleId r ≠ "" →
  let '(e', rules', out) := alert_round true s (λ i, Some (at_ i)) rules e in
  let fired := existsb (λ f, String.eqb (RuleId (FRule f)) (RuleId r)) out in
  stored rules' (if fired then r <| LastFired := unix (at_ (RuleId r)) |> else r) ∧
  (fired = true → cooling r s = false) ∧
  NoDup (RuleId <$> rules') ∧ Forall sane_threshold rules'.
Proof.
  intros Hs Hnd Hst Hne. unfold alert_round. cbn [negb]. destruct (bool_decide _) eqn:Hb; [by split_and!|].
  assert (Forall sane_threshold (read_rules rules)) as Hsr.
  { apply Forall_forall. intros r' [Hin _]%elem_of_filterb. rewrite Forall_forall in Hs. by apply Hs. }
  pose proof (Due_fires (read_rules rules) s e Hsr) as Hd.
  destruct (Due (read_rules rules) s e) as [e' out]. cbn [snd] in Hd. cbn zeta.
  destruct (omap_firing s (missingSince e) (read_rules rules)) as [Hsub Hf]. rewrite <-Hd in Hsub, Hf.
  assert (∀ f, f ∈ out → FRule f ∈ rules) as Hin.
  { intros f Hf'. destruct (Hf f Hf') as [Hr _]. by apply elem_of_filterb in Hr as [? _]. }
  split_and!.
  - apply (fires_stored at_ out rules r); [|done|done]. eapply sublist_NoDup; [exact Hnd|].
    etransitivity; [exact Hsub|]. apply fmap_sublist, sublist_filterb.
  - intros (f & Hfo & Hid)%existsb_exists. apply list_elem_of_In in Hfo. apply String.eqb_eq in Hid.
    destruct (Hf f Hfo) as [_ Hc]. by rewrite <-(proj2 Hst (FRule f) (Hin f Hfo) Hid).
  - by rewrite fires_ids.
  - apply fires_sane; [done|]. apply Forall_forall. intros f Hf'. rewrite Forall_forall in Hs. by apply Hs, Hin.
Qed.

(** The rule fires no sooner than its cooldown after the stamp it has. *)
Lemma history_cooldown l rules e r :
  Forall sane_threshold rules → NoDup (RuleId <$> rules) → stored rules r → RuleId r ≠ "" →
  Forall (λ p, ∀ id, 1 ≤ unix (p.2 id)) l →
  (∀ i n1 t1 n2 t2, history (RuleId r) l rules e !! i = Some (n1, t1) →
     history (RuleId r) l rules e !! S i = Some (n2, t2) → cooldown r ≤ time_sub n2 (unix t1 * second)) ∧
  (∀ n t, history (RuleId r) l rules e !! 0%nat = Some (n, t) → LastFired r ≠ 0 → cooldown r ≤ time_sub n (LastFired r * second)).
Proof.
  revert rules e r. induction l as [|[s at_] l IH]; intros rules e r Hs Hnd Hst Hne Hat; [done|].
  apply Forall_cons in Hat as [Hat Hatl]. cbn [history].
  pose proof (round_stored s at_ rules e r Hs Hnd Hst Hne) as Hr.
  destruct (alert_round _ _ _ _ _) as [[e' rules'] out]. destruct Hr as (Hst' & Hcool & Hnd' & Hs').
  destruct (existsb _ out) eqn:Hfired.
  - destruct (IH rules' e' _ Hs' Hnd' Hst' Hne Hatl) as [Hlater Hfirst]. split.
    + intros [|i] n1 t1 n2 t2; cbn.
      * intros [= <- <-] Hh. apply (Hfirst n2 t2 Hh). cbn. specialize (Hat (RuleId r)). cbn in Hat. lia.
      * apply Hlater.
    + intros n t. cbn. intros [= <- <-] Hl. specialize (Hcool eq_refl). unfold cooling in Hcool.
      apply Z.eqb_neq in Hl. rewrite Hl in Hcool. cbn in Hcool. by apply Z.ltb_ge in Hcool.
  - by apply (IH rules' e' r).
Qed.

(** a rule does not fire more often than its cooldown says. Over any
sequence of rounds in which firings can be stamped, a firing of a rule is at
least its cooldown after the stamp of its previous one (in whole seconds),
so after the previous firing to within a second. *)
Theorem alert_cooldown l rules e r :
  Forall sane_threshold rules → NoDup (RuleId <$> rules) → r ∈ rules → RuleId r ≠ "" →
  Forall (λ p, ∀ id, 1 ≤ unix (p.2 id)) l →
  ∀ i n1 t1 n2 t2, history (RuleId r) l rules e !! i = Some (n1, t1) → history (RuleId r) l rules e !! S i = Some (n2, t2) →
    cooldown r ≤ n2 - unix t1 * second ∧ 0 < cooldown r.
Proof.
  intros Hs Hnd Hin Hne Hat i n1 t1 n2 t2 H1 H2. assert (stored rules r) as Hst.
  { split; [done|]. intros r' Hin' Heq. apply list_elem_of_lookup_1 in Hin as [a Ha], Hin' as [b Hb].
    assert (a = b) as ->; [|congruence]. eapply (NoDup_lookup _ _ _ (RuleId r) Hnd); rewrite list_lookup_fmap; [by rewrite Ha|by rewrite Hb, <-Heq]. }
  assert (0 < cooldown r) as Hpos.
  { unfold cooldown. destruct (Z.leb_spec (int64 (CooldownMinutes r * minute)) 0); [unfold DefaultCooldownMinutes, minute, second; lia|lia]. }
  split; [|done]. destruct (history_cooldown l rules e r Hs Hnd Hst Hne Hat) as [Hc _].
  specialize (Hc i n1 t1 n2 t2 H1 H2). unfold time_sub in Hc. lia.
Qed.

(** ** Samples *)

Module AlertSample.
Definition agent (st : TunAgentState) (seen : Z) : TunAgent :=
  mkAgent "pi" "tok" "" "" "" "" "" "" "" "" TUN_AGENT_TRANSPORT_TLS st 0 0 0 0 0 0 0 0 seen TUN_DISCONNECT_REASON_UNSPECIFIED false.
Definition rule : TunAlertRule :=
  mkAlertRule "r1" "pi offline" TUN_ALERT_CONDITION_AGENT_OFFLINE 30 "" "pi" [mkTarget (Some 1%nat) "ops"] 60 true 0.
Definition token_rule : TunAlertRule :=
  mkAlertRule "r2" "token offline" TUN_ALERT_CONDITION_TOKEN_OFFLINE 10 "tok" "" [mkTarget (Some 1%nat) "ops"] 0 true 0.
(** The tables at a minute of the day, with the agents known then. *)
Definition snap (m : Z) (agents : list TunAgent) : Snapshot := mkSnapshot (m * minute) true [] agents true [] [].
Definition gone : TunAgent := agent TUN_AGENT_STATE_OFFLINE 60.
Definition watch : rounds := (λ m, (snap m [gone], λ _, m * minute + 5 * second)) <$> [10; 40; 70; 101; 102]%Z.
End AlertSample.

Lemma Due_spec_witness :
  let out := (Due [AlertSample.rule; AlertSample.token_rule] (AlertSample.snap 20 [AlertSample.gone]) NewEvaluator).2 in
  out = [mkFiring AlertSample.token_rule [ItemOffline 60 ["pi"]]] ∧
  ∃ f, out = omap f [AlertSample.rule; AlertSample.token_rule] ∧
    judged None (AlertSample.snap 20 [AlertSample.gone]) AlertSample.rule (f AlertSample.rule) ∧
    judged None (AlertSample.snap 20 [AlertSample.gone]) AlertSample.token_rule (f AlertSample.token_rule).
Proof.
  split; [vm_compute; reflexivity|].
  destruct (Due_spec [AlertSample.rule; AlertSample.token_rule] (AlertSample.snap 20 [AlertSample.gone]) NewEvaluator) as [(f & Hf & Hj) _].
  - repeat constructor; vm_compute; discriminate.
  - exists f. split; [exact Hf|]. split; [apply (Hj AlertSample.rule); left|apply (Hj AlertSample.token_rule); right; left].
Defined.

Lemma alert_cooldown_witness :
  history "r1" AlertSample.watch [AlertSample.rule] NewEvaluator =
    [(40 * minute, 40 * minute + 5 * second); (101 * minute, 101 * minute + 5 * second)] ∧
  cooldown AlertSample.rule ≤ 101 * minute - unix (40 * minute + 5 * second) * second.
Proof.
  split; [vm_compute; reflexivity|].
  apply (alert_cooldown AlertSample.watch [AlertSample.rule] NewEvaluator AlertSample.rule) with (i := 0%nat) (n1 := 40 * minute) (t2 := 101 * minute + 5 * second).
  - repeat constructor; vm_compute; discriminate.
  - apply NoDup_singleton.
  - left.
  - discriminate.
  - repeat constructor; intros; vm_compute; discriminate.
  - vm_compute. reflexivity.
  - vm_compute. reflexivity.
Defined.

(** ** A disabled rule

The time an agent went missing is kept while its rule is disabled, although
nobody looks for the agent then. The agent is missing at minute 0; the rule is
disabled, and at minute 60 the agent is online; at minute 65, its record gone
again, the rule is enabled: it fires at once, and says that no agent was
connected since minute 0. *)
Theorem disabled_rule_keeps_stale_time :
  let off := AlertSample.rule <| REnabled := false |> in
  let e1 := (Due [AlertSample.rule] (AlertSample.snap 0 []) NewEvaluator).1 in
  let e2 := (Due [off] (AlertSample.snap 60 [AlertSample.agent TUN_AGENT_STATE_ONLINE 3600]) e1).1 in
  (Due [AlertSample.rule] (AlertSample.snap 65 []) e2).2 = [mkFiring AlertSample.rule [ItemMissing 0]].
Proof. vm_compute. reflexivity. Qed.
