(* ===== verification/Reservations.v ===== *)
(** * Table services, and the reservations the management backend stores
(go/tun/common/callback.go, go/tun/access/reservations, Owner of
go/tun/edge/domains)

Layer 8 keeps the entities in table services. A service is abstract: a state
with rows under their primary keys, and writes that say whether they worked.
[TableService] has what the code relies on (the comments of live/views.go and
Hooks say it: POST creates a row, PUT replaces it, PATCH applies the fields it
sets, DELETE removes it; a write that fails changes nothing); a POST of a row
that exists and a PUT of one that does not may or may not be stored. Writes to
a service happen one at a time. *)

From S2P Require Import Prelude GoStrings Protocol Policy Claims EdgeConf.
From stdpp Require Import options.
#[local] Open Scope l8_scope.
#[local] Open Scope Z_scope.
Import Rules.

Class TableService {T : Type} (key : T → string) := {
  table : Type;
  rows : table → gmap string T;
  svcPost : T → table → table * option string;
  svcPut : T → table → table * option string;
  svcPatch : T → table → table * option string;
  svcDelete : string → table → table * option string;
  merge : T → T → T;   (* the patch, the stored row *)
  rows_key t k x : rows t !! k = Some x → key x = k;
  merge_key x o : key x = key o → key (merge x o) = key o;
  svcPost_ok x t t' : svcPost x t = (t', None) →
    rows t' = <[key x := x]> (rows t) ∨ is_Some (rows t !! key x) ∧ rows t' = rows t;
  svcPut_ok x t t' : svcPut x t = (t', None) →
    rows t' = <[key x := x]> (rows t) ∨ rows t !! key x = None ∧ rows t' = rows t;
  svcPatch_ok x o t t' : svcPatch x t = (t', None) → rows t !! key x = Some o →
    rows t' = <[key x := merge x o]> (rows t);
  svcDelete_ok k t t' : svcDelete k t = (t', None) → rows t' = delete k (rows t);
  svcPost_err x t t' err : svcPost x t = (t', Some err) → rows t' = rows t;
  svcPut_err x t t' err : svcPut x t = (t', Some err) → rows t' = rows t;
  svcPatch_err x t t' err : svcPatch x t = (t', Some err) → rows t' = rows t;
  svcDelete_err k t t' err : svcDelete k t = (t', Some err) → rows t' = rows t;
}.
Arguments table {_} _ {_}.

(** A row with an empty key is not a row for the readers ([Reservations],
[Domains] and the like skip them). *)
Definition list_rows `{MapRange} {T} {key : T → string} `{!TableService key} (t : table key) : list T :=
  List.filter (λ x, negb (String.eqb (key x) "")) (range (rows t)).*2.

(** ** Callbacks (callback.go) *)

Inductive Action := POST | PUT | PATCH.

(** [SetID] takes the key it may set; [Validate] the element, which it may
change or replace. *)
Record Hooks (E T : Type) := mkHooks { SetID : string → T → T; Validate : Action → T → result E T }.
Arguments SetID {_ _}. Arguments Validate {_ _}.

(** [l8common.GenerateID]: an empty key is set. *)
Definition GenerateID (fresh id : string) : string := if String.eqb id "" then fresh else id.

Definition Before {E T} (h : Hooks E T) (fresh : string) (action : Action) (notification : bool) (x : T) : result E T :=
  if notification then Ok x
  else
    let x := match action with POST => SetID h fresh x | _ => x end in
    Validate h action x.

Inductive write_err (E : Type) := Refused (e : E) | Failed (why : string).
Arguments Refused {_}. Arguments Failed {_}.

(** A write through a service's callback: [Before], the table, and the element
that [After] pushes. *)
Definition service_write {E T} {key : T → string} `{!TableService key} (h : Hooks E T) (fresh : string) (action : Action) (x : T)
    (t : table key) : table key * result (write_err E) T :=
  match Before h fresh action false x with
  | Err e => (t, Err (Refused e))
  | Ok x =>
      let '(t, err) := match action with POST => svcPost x t | PUT => svcPut x t | PATCH => svcPatch x t end in
      (t, match err with None => Ok x | Some why => Err (Failed why) end)
  end.

(** ** Edge sites *)

(** [Owner]: the site domain the host belongs to; [None] for "". *)
Definition site_domains (all : list EdgeDomain) : list EdgeDomain :=
  List.filter (λ d, bool_decide (Kind d = EDGE_DOMAIN_KIND_SITE)) all.
Definition Owner `{GoUnicode} (host : string) (all : list EdgeDomain) : option string :=
  let host := ToLower host in
  d ← List.find (λ d, existsb (String.eqb host) (Names d)) (site_domains all); Some (Domain d).

(** ** Reservations *)

#[export] Instance eta_reservation : Eta TunReservation := λ r,
  mkReservation (vReservationId r) (vName r) (vTokenId r) (vPublicPort r) (vNote r) (vCreatedAt r).

Inductive resv_err :=
| ResvLookup | ResvMissing (id : string) | ResvRule (e : rule_err) | ResvTokenLookup | ResvNoToken (id : string)
| ResvNameReserved (name : string) | ResvPortReserved (port : Z) (name : string) | ResvEdgeDomain (host owner : string).

(** What the other services answer: a token exists or not, or an error; the
stored domains, or an error. And whether the stored reservations can be read. *)
Record resv_env := mkResvEnv {
  env_token : string → option bool;
  env_domains : option (list EdgeDomain);
  env_readable : bool;
  env_now : Z;
}.

Definition merged (patch : TunReservation) (all : list TunReservation) : option TunReservation :=
  o ← List.find (λ o, String.eqb (vReservationId o) (vReservationId patch)) all;
  let m := if negb (String.eqb (vName patch) "") then o <| vName := vName patch |> else o in
  let m := if negb (String.eqb (vTokenId patch) "") then m <| vTokenId := vTokenId patch |> else m in
  Some (if negb (vPublicPort patch =? 0) then m <| vPublicPort := vPublicPort patch |> else m).

(** The loop over the other reservations. *)
Definition check_others (check : TunReservation) (all : list TunReservation) : result resv_err unit :=
  foldM (λ _ o,
    if String.eqb (vReservationId o) (vReservationId check) then Ok tt
    else
    refuse! String.eqb (vName o) (vName check) with ResvNameReserved (vName check) ;;
    refuse! negb (vPublicPort check =? 0) && (vPublicPort o =? vPublicPort check)
    with ResvPortReserved (vPublicPort check) (vName o) ;;
    Ok tt) tt all.

Definition validate `{GoUnicode} (rules : Rules) (env : resv_env) (all : list TunReservation) (action : Action)
    (r : TunReservation) : result resv_err TunReservation :=
  refuse! negb (env_readable env) with ResvLookup ;;
  match (match action with PATCH => merged r all | _ => Some r end) with
  | None => Err (ResvMissing (vReservationId r))
  | Some check =>
  match CheckReservation rules (vName check) (vPublicPort check) with
  | Err e => Err (ResvRule e)
  | Ok _ =>
  match env_token env (vTokenId check) with
  | None => Err ResvTokenLookup
  | Some false => Err (ResvNoToken (vTokenId check))
  | Some true =>
  match check_others check all with
  | Err e => Err e
  | Ok _ =>
  let host := vName check +:+ "." +:+ BaseDomain rules in
  match env_domains env with
  | None => Err ResvLookup
  | Some ds =>
  match Owner host ds with
  | Some owner => Err (ResvEdgeDomain host owner)
  | None =>
      Ok (match action with
          | POST => if vCreatedAt r =? 0 then r <| vCreatedAt := unix (env_now env) |> else r
          | _ => r
          end)
  end end end end end end.

Definition resv_hooks `{GoUnicode} (rules : Rules) (env : resv_env) (all : list TunReservation)
    : Hooks resv_err TunReservation :=
  mkHooks _ _ (λ fresh r, r <| vReservationId := GenerateID fresh (vReservationId r) |>) (validate rules env all).

Section reservations.
Context `{GoUnicode, MapRange, !TableService vReservationId} (rules : Rules).

(** Rows are read, in any order, with [Reservations]. *)
Definition ReservationRows (t : table vReservationId) : list TunReservation := list_rows t.

Definition resv_write (env : resv_env) (fresh : string) (action : Action) (r : TunReservation) (t : table vReservationId)
    : table vReservationId * result (write_err resv_err) TunReservation :=
  service_write (resv_hooks rules env (ReservationRows t)) fresh action r t.
End reservations.

(** ** What the stored reservations satisfy *)

(** A PATCH does to the row what [merged] says. *)
Class ResvPatch `{!TableService vReservationId} : Prop :=
  merge_fields x o : vReservationId x = vReservationId o →
    ∃ m, merged x [o] = Some m ∧ vName (merge x o) = vName m ∧ vTokenId (merge x o) = vTokenId m ∧
         vPublicPort (merge x o) = vPublicPort m.

(** Every reservation is one the rules allow, and no two share a name or a port. *)
Record resv_ok (rules : Rules) (m : gmap string TunReservation) : Prop := {
  ro_key id r : m !! id = Some r → vReservationId r = id;
  ro_rule id r : m !! id = Some r → id ≠ "" → CheckReservation rules (vName r) (vPublicPort r) = Ok tt;
  ro_name i j r s : m !! i = Some r → m !! j = Some s → i ≠ "" → j ≠ "" → vName r = vName s → i = j;
  ro_port i j r s : m !! i = Some r → m !! j = Some s → i ≠ "" → j ≠ "" → vPublicPort r ≠ 0 →
    vPublicPort r = vPublicPort s → i = j;
}.

Lemma resv_ok_empty rules : resv_ok rules ∅.
Proof. by split; intros * ?%lookup_empty_Some. Qed.

Lemma resv_ok_delete rules m k : resv_ok rules m → resv_ok rules (delete k m).
Proof.
  intros Hok. split; [intros id r|intros id r|intros i j r s|intros i j r s]; rewrite ?lookup_delete_Some; intros [? ?];
    rewrite ?lookup_delete_Some; [by apply Hok|by eapply Hok|intros [? ?]; by eapply (ro_name rules m)|
    intros [? ?]; by eapply (ro_port rules m)].
Qed.

(** Storing a row that shares nothing with the others. *)
Lemma resv_ok_insert rules m r :
  resv_ok rules m → (vReservationId r ≠ "" → CheckReservation rules (vName r) (vPublicPort r) = Ok tt) →
  (∀ id o, m !! id = Some o → id ≠ "" → id ≠ vReservationId r →
     vName o ≠ vName r ∧ (vPublicPort r ≠ 0 → vPublicPort o ≠ vPublicPort r)) →
  resv_ok rules (<[vReservationId r := r]> m).
Proof.
  intros Hok Hr Hall. split.
  - intros id o [[<- <-]|[_ Ho]]%lookup_insert_Some; [done|by apply Hok].
  - intros id o [[<- <-]|[_ Ho]]%lookup_insert_Some Hne; [by apply Hr|by eapply Hok].
  - intros i j o s [[<- <-]|[Hi Ho]]%lookup_insert_Some [[<- <-]|[Hj Hs]]%lookup_insert_Some ?? Heq; [done| | |by eapply Hok].
    + by destruct (Hall j s Hs) as [[] _].
    + by destruct (Hall i o Ho) as [[] _].
  - intros i j o s [[<- <-]|[Hi Ho]]%lookup_insert_Some [[<- <-]|[Hj Hs]]%lookup_insert_Some ?? H0 Heq;
      [done| | |by eapply (ro_port rules m)].
    + destruct (Hall j s Hs) as [_ []]; done.
    + destruct (Hall i o Ho) as [_ []]; [done..|congruence|done].
Qed.

Lemma check_others_ok c all :
  check_others c all = Ok tt →
  ∀ o, o ∈ all → vReservationId o ≠ vReservationId c →
    vName o ≠ vName c ∧ (vPublicPort c ≠ 0 → vPublicPort o ≠ vPublicPort c).
Proof.
  unfold check_others. induction all as [|a all IH]; [by intros _ o ?%elem_of_nil|]. cbn. intros Hf o.
  rewrite elem_of_cons. destruct (String.eqb_spec (vReservationId a) (vReservationId c)) as [He|Hne].
  { intros [->|Hin] Ho; [done|by apply IH]. }
  destruct (String.eqb_spec (vName a) (vName c)); [done|].
  destruct (Z.eqb_spec (vPublicPort c) 0), (Z.eqb_spec (vPublicPort a) (vPublicPort c)); cbn in Hf; try done;
    (intros [->|Hin] Ho; [by split|by apply IH]).
Qed.

Lemma elem_of_list_rows `{MapRange} {T} {key : T → string} `{!TableService key} (t : table key) x :
  x ∈ list_rows t ↔ key x ≠ "" ∧ ∃ k, rows t !! k = Some x.
Proof.
  unfold list_rows. rewrite elem_of_filterb, list_elem_of_fmap, negb_true_iff, String.eqb_neq. split.
  - intros ([[k y] [-> Hr]] & Hne). apply elem_of_range in Hr. naive_solver.
  - intros (Hne & k & Hk). split; [|done]. exists (k, x). split; [done|by apply elem_of_range].
Qed.

Lemma validate_ok `{GoUnicode} rules env all a r r' :
  validate rules env all a r = Ok r' →
  ∃ c, match a with PATCH => merged r all = Some c | _ => c = r end ∧
    CheckReservation rules (vName c) (vPublicPort c) = Ok tt ∧ env_token env (vTokenId c) = Some true ∧
    check_others c all = Ok tt ∧ vReservationId r' = vReservationId r ∧ vName r' = vName r ∧ vTokenId r' = vTokenId r ∧
    vPublicPort r' = vPublicPort r.
Proof.
  unfold validate. destruct (negb _); [done|].
  destruct (match a with PATCH => _ | _ => _ end) as [c|] eqn:Hc; [|done].
  destruct (CheckReservation _ _ _) as [[]|] eqn:Hr; [|done]. destruct (env_token env (vTokenId c)) as [[]|] eqn:Ht; try done.
  destruct (check_others c all) as [[]|] eqn:Ho; [|done]. destruct (env_domains env); [|done]. destruct (Owner _ _); [done|].
  intros [= <-]. exists c. split; [destruct a; naive_solver|]. split_and!; try done; destruct a; try done;
    by destruct (vCreatedAt r =? 0).
Qed.

Lemma merged_in r all c :
  merged r all = Some c → ∃ o, o ∈ all ∧ vReservationId o = vReservationId r ∧ merged r [o] = Some c.
Proof.
  unfold merged. destruct (List.find _ all) as [o|] eqn:Hf; [|done]. intros Hc.
  apply List.find_some in Hf as [Hin He]. apply String.eqb_eq in He.
  exists o. cbn. rewrite He, String.eqb_refl. split_and!; [by apply list_elem_of_In|done|done].
Qed.

Section stored.
Context `{GoUnicode, MapRange, !TableService vReservationId, RP : !ResvPatch} (rules : Rules).

(** The key a write is about. *)
Definition write_key (fresh : string) (a : Action) (r : TunReservation) : string :=
  match a with POST => GenerateID fresh (vReservationId r) | _ => vReservationId r end.

(** A row a write may store, next to the stored ones. *)
Definition resv_fits (m : gmap string TunReservation) (x : TunReservation) : Prop :=
  CheckReservation rules (vName x) (vPublicPort x) = Ok tt ∧
  ∀ id o, m !! id = Some o → id ≠ "" → id ≠ vReservationId x →
    vName o ≠ vName x ∧ (vPublicPort x ≠ 0 → vPublicPort o ≠ vPublicPort x).

Lemma fits_ok m x : resv_ok rules m → resv_fits m x → resv_ok rules (<[vReservationId x := x]> m).
Proof. intros Hok [Hr Ho]. by apply resv_ok_insert. Qed.

(** An element [Before] passes, and the row of its key if it is stored. *)
Lemma before_fits env fresh a r t x :
  resv_ok rules (rows t) → Before (resv_hooks rules env (ReservationRows t)) fresh a false r = Ok x →
  vReservationId x = write_key fresh a r ∧ vName x = vName r ∧ vTokenId x = vTokenId r ∧ vPublicPort x = vPublicPort r ∧
  match a with
  | PATCH => ∃ o, rows t !! vReservationId x = Some o ∧ resv_fits (rows t) (merge x o)
  | _ => resv_fits (rows t) x
  end.
Proof using RP.
  intros Hok Hb. unfold Before in Hb. cbn [Validate SetID resv_hooks] in Hb. apply validate_ok in Hb as
    (c & Hc & Hrule & _ & Hoth & Hid & Hn & Ht & Hp). pose proof (check_others_ok _ _ Hoth) as Hall.
  assert (∀ c', vReservationId c' = vReservationId c → vName c' = vName c → vPublicPort c' = vPublicPort c →
    resv_fits (rows t) c') as Hfits.
  { intros c' Ec1 Ec2 Ec3. split; [by rewrite Ec2, Ec3|]. intros id o Ho Hne Hid'. rewrite Ec2, Ec3.
    pose proof (ro_key _ _ Hok _ _ Ho) as <-. apply Hall; [|congruence]. apply elem_of_list_rows. eauto. }
  destruct a; cbn in *; try (subst c; split_and!; [done..|]; apply Hfits; cbn; congruence).
  split_and!; [done..|]. destruct (merged_in _ _ _ Hc) as (o & Hin & Ho & Hm).
  apply elem_of_list_rows in Hin as (_ & k & Hk). pose proof (ro_key _ _ Hok _ _ Hk). exists o. split; [by rewrite Hid, <-Ho; subst k|].
  destruct (merge_fields x o) as (m & Hm' & Em1 & Em2 & Em3); [congruence|].
  assert (m = c) as -> by (revert Hm Hm'; unfold merged; cbn; rewrite Hid, Hn, Ht, Hp; intros; congruence).
  assert (vReservationId c = vReservationId o) as Hco.
  { revert Hm. unfold merged. cbn. rewrite Ho, String.eqb_refl. cbn. intros [= <-]. by repeat case_match. }
  apply Hfits; [|done..]. rewrite merge_key; congruence.
Qed.

(** A write keeps the reservations in order, touches only its row, and a POST
of a new row or PUT of a stored one that works has stored it. *)
Lemma resv_write_spec env fresh a r t t' res :
  resv_ok rules (rows t) → resv_write rules env fresh a r t = (t', res) →
  let id := write_key fresh a r in
  resv_ok rules (rows t') ∧ (∀ k, k ≠ id → rows t' !! k = rows t !! k) ∧
  (is_ok res = true → a = POST ∧ rows t !! id = None ∨ a = PUT ∧ is_Some (rows t !! id) →
   ∃ x, rows t' !! id = Some x ∧ vName x = vName r ∧ vTokenId x = vTokenId r ∧ vPublicPort x = vPublicPort r).
Proof using RP.
  intros Hok Hw id. unfold resv_write, service_write in Hw.
  destruct (Before _ _ _ _ r) as [x|e] eqn:Hb; [|by injection Hw as <- <-; split_and!].
  apply before_fits in Hb as (Hid & Hn & Ht & Hp & Hf); [|done]. fold id in Hid.
  assert (∀ y, vReservationId y = id → resv_fits (rows t) y → rows t' = <[id := y]> (rows t) →
    resv_ok rules (rows t') ∧ ∀ k, k ≠ id → rows t' !! k = rows t !! k) as Hstored.
  { intros y Hy Hfy ->. split; [rewrite <-Hy; by apply fits_ok|]. intros k Hk. by rewrite lookup_insert_ne. }
  assert (rows t' = rows t → resv_ok rules (rows t') ∧ ∀ k, k ≠ id → rows t' !! k = rows t !! k) as Hsame by (by intros ->).
  destruct a; cbn in Hw; [destruct (svcPost x t) as [t1 [why|]] eqn:Hs|destruct (svcPut x t) as [t1 [why|]] eqn:Hs|
    destruct (svcPatch x t) as [t1 [why|]] eqn:Hs]; cbn in Hw; injection Hw as <- <-.
  - apply svcPost_err in Hs. destruct (Hsame Hs) as [? ?]. by split_and!.
  - apply svcPost_ok in Hs as [Hs|[Hs Hs']]; rewrite Hid in *.
    + destruct (Hstored x Hid Hf Hs) as [? ?]. split_and!; [done..|]. intros _ _. exists x. by rewrite Hs, lookup_insert_eq.
    + destruct (Hsame Hs') as [? ?]. split_and!; [done..|].
      intros _ [[_ Hno]|[? _]]; [|done]. rewrite Hno in Hs. by destruct Hs.
  - apply svcPut_err in Hs. destruct (Hsame Hs) as [? ?]. by split_and!.
  - apply svcPut_ok in Hs as [Hs|[Hs Hs']]; rewrite Hid in *.
    + destruct (Hstored x Hid Hf Hs) as [? ?]. split_and!; [done..|]. intros _ _. exists x. by rewrite Hs, lookup_insert_eq.
    + destruct (Hsame Hs') as [? ?]. split_and!; [done..|].
      intros _ [[? _]|[_ Hno]]; [done|]. rewrite Hs in Hno. by destruct Hno.
  - apply svcPatch_err in Hs. destruct (Hsame Hs) as [? ?]. by split_and!.
  - destruct Hf as (o & Ho & Hfo). apply (svcPatch_ok x o) in Hs; [|done].
    assert (vReservationId (merge x o) = id) as Hmid by (rewrite merge_key; [by rewrite (ro_key _ _ Hok _ _ Ho)|by rewrite (ro_key _ _ Hok _ _ Ho)]).
    rewrite Hid in Hs. destruct (Hstored _ Hmid Hfo Hs) as [? ?]. split_and!; [done..|]. intros _ [[? _]|[? _]]; done.
Qed.
End stored.

(** ** A service that keeps its rows in a map *)

Section map_service.
Context {T : Type} (key : T → string) (f : T → T → T) (Hf : ∀ x o, key x = key o → key (f x o) = key o).

(** Entries under another key than their own are not rows. *)
Definition map_rows (m : gmap string T) : gmap string T := filter (λ p, key p.2 = p.1) m.

Lemma map_rows_insert x m : map_rows (<[key x := x]> m) = <[key x := x]> (map_rows m).
Proof. unfold map_rows. by rewrite map_filter_insert_True. Qed.

Definition map_patch (x : T) (m : gmap string T) : gmap string T * option string :=
  match map_rows m !! key x with Some o => (<[key x := f x o]> m, None) | None => (m, Some "not found") end.

Program Definition map_service : TableService key := {|
  table := gmap string T;
  rows := map_rows;
  svcPost x m := (<[key x := x]> m, None);
  svcPut x m := (<[key x := x]> m, None);
  svcPatch := map_patch;
  svcDelete k m := (delete k m, None);
  merge := f;
|}.
Next Obligation. intros m k x Hx. unfold map_rows in Hx. by apply map_lookup_filter_Some in Hx as [_ ?]. Qed.
Next Obligation. apply Hf. Qed.
Next Obligation. intros x t t' [= <-]. left. apply map_rows_insert. Qed.
Next Obligation. intros x t t' [= <-]. left. apply map_rows_insert. Qed.
Next Obligation.
  intros x o t t' Hs Ho. unfold map_patch in Hs. rewrite Ho in Hs. injection Hs as <-.
  assert (key o = key x) as Hk by (unfold map_rows in Ho; by apply map_lookup_filter_Some in Ho as [_ ?]).
  rewrite <-Hk, <-(Hf x o) by done. apply map_rows_insert.
Qed.
Next Obligation. intros k t t' [= <-]. unfold map_rows. by rewrite map_filter_delete. Qed.
Next Obligation. done. Qed.
Next Obligation. done. Qed.
Next Obligation. intros x t t' err Hs. unfold map_patch in Hs. by destruct (map_rows t !! key x); simplify_eq. Qed.
Next Obligation. done. Qed.
End map_service.

Definition patch_reservation (x o : TunReservation) : TunReservation := default o (merged x [o]).
Lemma patch_reservation_key x o : vReservationId x = vReservationId o → vReservationId (patch_reservation x o) = vReservationId o.
Proof. intros Hx. unfold patch_reservation, merged. cbn. rewrite Hx, String.eqb_refl. cbn. by repeat case_match. Qed.

#[export] Instance resv_service : TableService vReservationId | 100 := map_service _ patch_reservation patch_reservation_key.
#[export] Instance resv_service_patch : ResvPatch.
Proof.
  intros x o Hx. cbn [merge resv_service map_service]. unfold patch_reservation, merged. cbn. rewrite Hx, String.eqb_refl. cbn.
  eexists. split; [done|]. done.
Qed.
