(* ===== verification/Registry.v ===== *)
(** * The registry process (go/tun/live)

The process around the claims engine: the live tables it mirrors the engine
into (views.go, sink.go, the reconciling loop of registry.go), the directory of
reservations and site names that claims are checked against (directory.go), and
the services that hand requests to the engine (actions.go). What the process
shares with the rest is its state too: the stored reservations and the jobs it
started in the background.

A request, a tick of the loop and a background job are one transition each,
but a refresh of the directory reads the lists and installs them in two, which
others may overtake; jobs run in any order, any time later, or are lost with a restart. What the
other services answer comes with the transition. *)

From S2P Require Import Prelude GoStrings Protocol Policy Claims EdgeConf Reservations.
From stdpp Require Import options.
#[local] Open Scope l8_scope.
#[local] Open Scope Z_scope.
Import Rules.

Definition liveRefreshBackoff : Z := 30 * second.

#[export] Instance change_eq_dec : EqDecision Change. Proof. solve_decision. Defined.

(** ** The live tables *)

Section view.
Context {T} {key : T → string} `{!TableService key}.

(** [apply]: the record is not looked at when a row is deleted, nor the key
when one is written. The error is logged. *)
Definition apply (elem : option T) (k : string) (change : Change) (t : table key) : table key * option string :=
  match change, elem with
  | Created, Some x => svcPost x t
  | (Updated | Moved), Some x => svcPut x t
  | Deleted, _ => svcDelete k t
  | _, None => (t, None)
  end.

Definition changeFor (exists_ : bool) : Change := if exists_ then Updated else Created.

(** The keys of the rows, as a set. *)
Definition have (t : table key) : gset string := list_to_set (key <$> (map_to_list (rows t)).*2).

(** A write and whether all writes so far worked. *)
Definition applied (acc : table key * bool) (w : table key → table key * option string) : table key * bool :=
  let '(t, err) := w acc.1 in (t, acc.2 && bool_decide (err = None)).

(** One table of [reconcile]. *)
Definition reconcile_table `{MapRange} (items : list T) (t : table key) : table key * bool :=
  let rows := have t in
  let keep := list_to_set (key <$> items) : gset string in
  let acc := foldl (λ acc x, applied acc (apply (Some x) "" (changeFor (bool_decide (key x ∈ rows))))) (t, true) items in
  foldl (λ acc name, if bool_decide (name ∈ keep) then acc else applied acc (apply None name Deleted))
        acc (range (gset_to_gmap tt rows)).*1.
End view.

Section registry.
Context `{GoUnicode, MapRange}.
Context `{TT : !TableService tName, TA : !TableService aAgentId, TR : !TableService rRelayId, TV : !TableService vReservationId}.

Record views := mkViews { vTunnels : table tName; vAgents : table aAgentId; vRelays : table rRelayId }.
#[export] Instance eta_views : Eta views := λ v, mkViews (vTunnels v) (vAgents v) (vRelays v).

(** What is sent to the edges and relays: that a tunnel changed, or a command. *)
Inductive push := PushTunnel (r : TunLiveTunnel) | PushCommand (cmd : TunCtlCommand).

(** The methods of [sink]. *)
Definition sink_event (acc : views * bool * list push) (ev : Event) : views * bool * list push :=
  let '(v, ok, sent) := acc in
  match ev with
  | TunnelChanged r c =>
      let '(t, ok) := applied (vTunnels v, ok) (apply (Some r) (tName r) c) in
      (v <| vTunnels := t |>, ok, if bool_decide (c = Updated) then sent else sent ++ [PushTunnel r])
  | AgentChanged r c => let '(t, ok) := applied (vAgents v, ok) (apply (Some r) (aAgentId r) c) in (v <| vAgents := t |>, ok, sent)
  | RelayChanged r c => let '(t, ok) := applied (vRelays v, ok) (apply (Some r) (rRelayId r) c) in (v <| vRelays := t |>, ok, sent)
  | CommandSent cmd => (v, ok, sent ++ [PushCommand cmd])
  end.

(** [reconcile] after it took the engine's snapshot. *)
Definition snapshot : Type := list TunLiveTunnel * list TunAgent * list TunRelay.
Definition reconcile (snap : snapshot) (v : views) : views * bool :=
  let '(tunnels, agents, relays) := snap in
  let '(t, ok1) := reconcile_table tunnels (vTunnels v) in
  let '(a, ok2) := reconcile_table agents (vAgents v) in
  let '(r, ok3) := reconcile_table relays (vRelays v) in
  (mkViews t a r, ok1 && ok2 && ok3).

(** ** The directory *)

Record directory := mkDir { dReservations : list TunReservation; dSites : gset string; loaded : bool; downAt : Z }.
#[export] Instance eta_directory : Eta directory := λ d, mkDir (dReservations d) (dSites d) (loaded d) (downAt d).
Definition newDirectory : directory := mkDir [] ∅ false zeroTime.

Definition dirIsSiteName (d : directory) (host : string) : bool := bool_decide (ToLower host ∈ dSites d).
Definition dir_of (d : directory) : Directory := mkDirectory (dReservations d) (dirIsSiteName d).

Definition sites_of (all : list EdgeDomain) : gset string := list_to_set (d ← site_domains all; Names d).

(** [refresh] reads both lists first, and then takes the lock to replace the
copy with them. *)
Definition lists : Type := list TunReservation * gset string.
Definition read_lists (env : resv_env) (t : table vReservationId) : option lists :=
  if negb (env_readable env) then None
  else all ← env_domains env; Some (ReservationRows t, sites_of all).
Definition install (l : lists) (d : directory) : directory :=
  d <| dReservations := l.1 |> <| dSites := l.2 |> <| loaded := true |>.

(** A [refresh] during which nothing else happens. Whether it worked comes with
the directory. *)
Definition refresh (env : resv_env) (t : table vReservationId) (d : directory) : directory * bool :=
  match read_lists env t with
  | None => (d, false)
  | Some l => (install l d, true)
  end.

Definition refreshForClaim (env : resv_env) (t : table vReservationId) (d : directory) : directory :=
  if env_now env - downAt d <? liveRefreshBackoff then d
  else let '(d, ok) := refresh env t d in if ok : bool then d else d <| downAt := env_now env |>.

(** ** Keeping assigned ports *)

Context (config : Config).
Abbreviation rules := (cfgRules config).

Definition assigned_tunnels (req : TunClaimRequest) (resp : TunClaimResponse) : list TunLiveTunnel :=
  match qKind req with
  | TUN_CLAIM_KIND_ANNOUNCE =>
      List.filter (λ t, negb (tSimulated t) && negb (existsb (String.eqb (tName t)) (pConflicts resp))) (qTunnels req)
  | _ => pTunnels resp
  end.

Definition existing_of (l : list TunReservation) : gmap string TunReservation :=
  foldl (λ m r, <[vName r := r]> m) ∅ l.

Definition assigned_token (req : TunClaimRequest) (t : TunLiveTunnel) : string :=
  if String.eqb (tTokenId t) "" then qTokenId req else tTokenId t.

(** One tunnel: the stored reservations, and whether one was written. [w] is
the environment of the write and the key a new row would get. *)
Definition reserve_one (req : TunClaimRequest) (existing : gmap string TunReservation) (w : resv_env * string)
    (t : TunLiveTunnel) (tab : table vReservationId) : table vReservationId * bool :=
  if tPublicPort t =? 0 then (tab, false)
  else
    let token := assigned_token req t in
    match existing !! tName t with
    | None =>
        let n := mkReservation "" (tName t) token (tPublicPort t) "assigned automatically" (unix (env_now w.1)) in
        let '(tab, res) := resv_write rules w.1 w.2 POST n tab in (tab, is_ok res)
    | Some r =>
        if String.eqb (vTokenId r) token && negb (vPublicPort r =? tPublicPort t) then
          let u := r <| vPublicPort := tPublicPort t |> in
          let '(tab, res) := resv_write rules w.1 w.2 PUT u tab in (tab, is_ok res)
        else (tab, false)
    end.

(** [ws i] is what the write for the [i]-th tunnel meets. *)
Fixpoint reserve_all (req : TunClaimRequest) (existing : gmap string TunReservation) (ws : nat → resv_env * string) (i : nat)
    (l : list TunLiveTunnel) (acc : table vReservationId * bool) : table vReservationId * bool :=
  match l with
  | [] => acc
  | t :: l =>
      let '(tab, changed) := reserve_one req existing (ws i) t acc.1 in
      reserve_all req existing ws (S i) l (tab, acc.2 || changed)
  end.

(** The stored reservations after a job, and what the [refresh] at its end reads
([env] is what that meets); its lists are installed later. *)
Definition reserveAssigned (req : TunClaimRequest) (resp : TunClaimResponse) (ws : nat → resv_env * string) (env : resv_env)
    (d : directory) (tab : table vReservationId) : option lists * table vReservationId :=
  if negb (bool_decide (pError resp = TUN_CLAIM_ERROR_UNSPECIFIED)) then (None, tab)
  else
    let '(tab, changed) := reserve_all req (existing_of (dReservations d)) ws 0 (assigned_tunnels req resp) (tab, false) in
    (if changed : bool then read_lists env tab else None, tab).

(** ** The process *)

(** [synced]: every write to the live tables worked since they were last known
to match the engine. [pushes]: what was sent, oldest first. [taken]: the
snapshot a running [reconcile] took, and whether the engine reported nothing
since (requests are served while it runs). [reads]: the lists that running
refreshes have read and not yet installed. *)
Record Registry := mkRegistry {
  Eng : Engine;
  rViews : views;
  synced : bool;
  pushes : list push;
  taken : option (snapshot * bool);
  rDir : directory;
  reads : list lists;
  stored : table vReservationId;
  jobs : list (TunClaimRequest * TunClaimResponse);
}.
#[export] Instance eta_registry : Eta Registry := λ r,
  mkRegistry (Eng r) (rViews r) (synced r) (pushes r) (taken r) (rDir r) (reads r) (stored r) (jobs r).

(** The engine went on to [e']: its new reports go through the sink. *)
Definition engine_to (e' : Engine) (s : Registry) : Registry :=
  let evs := drop (length (sink (Eng s))) (sink e') in
  let '(v, ok, sent) := foldl sink_event (rViews s, synced s, pushes s) evs in
  s <| Eng := e' |> <| rViews := v |> <| synced := ok |> <| pushes := sent |>
    <| taken := '(snap, calm) ← taken s; Some (snap, calm && bool_decide (length evs = 0%nat)) |>.

Definition registry_handle (now : Z) (req : TunClaimRequest) (s : Registry) : Registry * TunClaimResponse :=
  let '(e', resp) := Handle (dir_of (rDir s)) now req (Eng s) in (engine_to e' s, resp).

(** [ClaimHandler.Post] after the refresh of the directory, *)
Definition ClaimAnswer (now : Z) (req : TunClaimRequest) (s : Registry) : Registry * TunClaimResponse :=
  match qKind req with
  | TUN_CLAIM_KIND_CLAIM | TUN_CLAIM_KIND_ANNOUNCE =>
      let '(s, resp) := registry_handle now req s in
      (s <| jobs := jobs s ++ [(req, resp)] |>, resp)
  | _ => registry_handle now req s
  end.

(** and the whole of it, if nothing else happens during the refresh. *)
Definition claim_start (env : resv_env) (req : TunClaimRequest) (s : Registry) : Registry :=
  match qKind req with
  | TUN_CLAIM_KIND_CLAIM => s <| rDir := refreshForClaim env (stored s) (rDir s) |>
  | _ => s
  end.
Definition ClaimPost (env : resv_env) (now : Z) (req : TunClaimRequest) (s : Registry) : Registry * TunClaimResponse :=
  ClaimAnswer now req (claim_start env req s).

(** [CtlHandler.Post] *)
Definition CtlPost (cmd : TunCtlCommand) (s : Registry) : Registry * result command_err TunCtlCommand :=
  let '(e', res) := Command cmd (Eng s) in (engine_to e' s, res).

(** [Start]: the tables may hold rows that other processes kept. *)
Definition Start (v : views) (env : resv_env) (tab : table vReservationId) : Registry :=
  let fresh := bool_decide (dom (rows (vTunnels v)) = ∅) && bool_decide (dom (rows (vAgents v)) = ∅)
               && bool_decide (dom (rows (vRelays v)) = ∅) in
  mkRegistry (Claims.New config) v fresh [PushCommand (mkCommand TUN_CTL_COMMAND_KIND_REANNOUNCE "" "" "" "")] None
    (refresh env tab newDirectory).1 [] tab [].

(** What happens: requests of relays and operators, the ticks of [loop], the
background jobs, writes to the stored reservations by operators (and other
processes), and restarts of the process. A refresh that others overtake is
[InRead] and later [InInstall] or, if it fails before a claim, [InDown]; a claim
whose refresh came before is [InAnswer]. *)
Inductive input :=
| InClaim (env : resv_env) (now : Z) (req : TunClaimRequest)
| InCtl (cmd : TunCtlCommand)
| InSweep (now : Z)
| InAnswer (now : Z) (req : TunClaimRequest)
| InRead (env : resv_env)
| InInstall (i : nat)
| InDown (now : Z)
| InSnapshot
| InReconcile
| InJob (i : nat) (ws : nat → resv_env * string) (env : resv_env)
| InWrite (env : resv_env) (fresh : string) (a : Action) (r : TunReservation)
| InDelete (id : string)
| InRestart (v : views) (env : resv_env).

Definition next (s : Registry) (i : input) : Registry :=
  match i with
  | InClaim env now req => (ClaimPost env now req s).1
  | InCtl cmd => (CtlPost cmd s).1
  | InSweep now => engine_to (Sweep now (Eng s)) s
  | InAnswer now req => (ClaimAnswer now req s).1
  | InRead env => if read_lists env (stored s) is Some l then s <| reads := reads s ++ [l] |> else s
  | InInstall i =>
      match reads s !! i with
      | None => s
      | Some l => s <| rDir := install l (rDir s) |> <| reads := delete i (reads s) |>
      end
  | InDown now => s <| rDir := rDir s <| downAt := now |> |>
  | InSnapshot => match taken s with None => s <| taken := Some (Snapshot (Eng s), true) |> | Some _ => s end
  | InReconcile =>
      match taken s with
      | None => s
      | Some (snap, calm) =>
          let '(v, ok) := reconcile snap (rViews s) in
          s <| rViews := v |> <| synced := ok && calm |> <| taken := None |>
      end
  | InJob i ws env =>
      match jobs s !! i with
      | None => s
      | Some (req, resp) =>
          let '(l, tab) := reserveAssigned req resp ws env (rDir s) (stored s) in
          s <| reads := reads s ++ option_list l |> <| stored := tab |> <| jobs := delete i (jobs s) |>
      end
  | InWrite env fresh a r => s <| stored := (resv_write rules env fresh a r (stored s)).1 |>
  | InDelete id => s <| stored := (svcDelete id (stored s)).1 |>
  | InRestart v env => Start v env (stored s)
  end.
End registry.
