(* ===== verification/RegistrySpec.v ===== *)
(** * The registry process: what it promises

The live tables match the engine, changes of routes are told to edges and
relays, and assigned ports stay with their tunnels. *)

From S2P Require Import Prelude GoStrings Protocol Policy Claims ClaimsInv ClaimsSpec EdgeConf Reservations Registry.
From stdpp Require Import options.
#[local] Open Scope l8_scope.
#[local] Open Scope Z_scope.
Import Rules.

(** A flag that a loop only clears was set at its start if it is set at its end. *)
Lemma foldl_flag {A B} (f : B → A → B) (ok : B → bool) l b :
  (∀ b x, ok (f b x) = true → ok b = true) → ok (foldl f b l) = true → ok b = true.
Proof. intros Hf. revert b. induction l as [|x l IH]; intros b; cbn; [done|]. intros Ho. by eapply Hf, IH. Qed.

(** ** One live table *)

Section table.
Context {T} {key : T → string} `{TS : !TableService key} `{MapRange}.

Lemma applied_ok acc w t' : applied acc w = (t', true) → acc.2 = true ∧ w acc.1 = (t', None).
Proof.
  unfold applied. destruct (w acc.1) as [t [e|]], acc.2; cbn; naive_solver.
Qed.

Lemma applied_flag acc (w : table key → table key * option string) : (applied acc w).2 = true → acc.2 = true.
Proof. unfold applied. destruct (w acc.1) as [t e]. cbn. by intros [? _]%andb_true_iff. Qed.

(** A reported change that fits the rows is applied to them. *)
Lemma apply_change_rows x c t t' m' :
  apply_change key (rows t) x c = Some m' → apply (Some x) (key x) c t = (t', None) → rows t' = m'.
Proof.
  unfold apply_change, apply. destruct c, (rows t !! key x) as [o|] eqn:Ho; intros; simplify_eq.
  - match goal with E : svcPost _ _ = _ |- _ => apply svcPost_ok in E as [E|[[? E] _]]; [done|congruence] end.
  - match goal with E : svcPut _ _ = _ |- _ => apply svcPut_ok in E as [E|[E _]]; [done|congruence] end.
  - match goal with E : svcPut _ _ = _ |- _ => apply svcPut_ok in E as [E|[E _]]; [done|congruence] end.
  - by apply svcDelete_ok.
Qed.

Lemma elem_of_have t k : k ∈ have t ↔ is_Some (rows t !! k).
Proof.
  unfold have. rewrite elem_of_list_to_set, list_elem_of_fmap. split.
  - intros (x & -> & Hx). apply list_elem_of_fmap in Hx as ([k' y] & -> & Hy). cbn.
    apply elem_of_map_to_list in Hy. rewrite (rows_key _ _ _ Hy). by exists y.
  - intros [x Hx]. exists x. split; [by rewrite (rows_key _ _ _ Hx)|]. apply list_elem_of_fmap.
    exists (k, x). split; [done|by apply elem_of_map_to_list].
Qed.

(** The first loop of [reconcile]: every item is written. *)
Lemma reconcile_writes t0 items t t' :
  NoDup (key <$> items) → (∀ x, x ∈ items → rows t !! key x = rows t0 !! key x) →
  foldl (λ acc x, applied acc (apply (Some x) "" (changeFor (bool_decide (key x ∈ have t0))))) (t, true) items = (t', true) →
  (∀ x, x ∈ items → rows t' !! key x = Some x) ∧ ∀ k, k ∉ key <$> items → rows t' !! k = rows t !! k.
Proof.
  revert t. induction items as [|x items IH]; intros t Hnd Hsame; cbn [foldl].
  { intros [= <-]. split; [by intros x ?%elem_of_nil|done]. }
  rewrite fmap_cons in Hnd. apply NoDup_cons in Hnd as [Hx Hnd].
  destruct (applied (t, true) _) as [t1 ok] eqn:Ha. intros Hf.
  assert (ok = true) as ->.
  { apply (foldl_flag (λ acc x, applied acc (apply (Some x) "" (changeFor (bool_decide (key x ∈ have t0))))) snd items (t1, ok));
      [intros acc y; apply applied_flag|by rewrite Hf]. }
  apply applied_ok in Ha as [_ Ha]. cbn [fst] in Ha.
  assert (rows t1 = <[key x := x]> (rows t)) as Hrows.
  { specialize (Hsame x ltac:(left)). unfold changeFor, apply in Ha. case_bool_decide as Hin; rewrite elem_of_have, <-Hsame in Hin.
    - apply svcPut_ok in Ha as [Ha|[Ha _]]; [done|]. rewrite Ha in Hin. by destruct Hin.
    - by apply svcPost_ok in Ha as [Ha|[Ha _]]. }
  destruct (IH t1 Hnd) as [Hin Hout]; [|done|].
  { intros y Hy. rewrite Hrows, lookup_insert_ne; [apply Hsame; by right|]. intros Heq. apply Hx. rewrite Heq.
    by apply list_elem_of_fmap_2. }
  split.
  - intros y [->|Hy]%elem_of_cons; [|by apply Hin]. by rewrite Hout, Hrows, lookup_insert_eq.
  - intros k [Hk1 Hk2]%not_elem_of_cons. by rewrite Hout, Hrows, lookup_insert_ne.
Qed.

(** The second loop: the other rows are deleted. *)
Lemma reconcile_deletes (keep : gset string) names t t' :
  foldl (λ acc name, if bool_decide (name ∈ keep) then acc else applied acc (apply None name Deleted)) (t, true) names = (t', true) →
  ∀ k, rows t' !! k = if bool_decide (k ∈ names ∧ k ∉ keep) then None else rows t !! k.
Proof.
  revert t. induction names as [|n names IH]; intros t; cbn [foldl].
  { intros [= <-] k. rewrite bool_decide_false; [done|]. by intros [?%elem_of_nil _]. }
  case_bool_decide as Hn.
  - intros Hf k. rewrite (IH t Hf). rewrite (bool_decide_ext (k ∈ n :: names ∧ k ∉ keep) (k ∈ names ∧ k ∉ keep)); [done|]. rewrite elem_of_cons. naive_solver.
  - destruct (applied (t, true) _) as [t1 ok] eqn:Ha. intros Hf k.
    assert (ok = true) as ->.
    { apply (foldl_flag (λ acc name, if bool_decide (name ∈ keep) then acc else applied acc (apply None name Deleted)) snd names (t1, ok));
        [|by rewrite Hf]. intros acc y. case_bool_decide; [done|apply applied_flag]. }
    apply applied_ok in Ha as [_ Ha]. apply svcDelete_ok in Ha. cbn [fst] in Ha. rewrite (IH t1 Hf k), Ha.
    destruct (decide (k = n)) as [->|Hk].
    + rewrite lookup_delete_eq, (bool_decide_true (n ∈ n :: names ∧ _)) by (split; [left|done]). by case_bool_decide.
    + rewrite lookup_delete_ne by done. rewrite (bool_decide_ext (k ∈ n :: names ∧ k ∉ keep) (k ∈ names ∧ k ∉ keep)); [done|]. rewrite elem_of_cons. naive_solver.
Qed.

(** [reconcile] makes a table hold exactly the items, whatever it held. *)
Lemma reconcile_table_rows m t t' :
  (∀ k x, m !! k = Some x → key x = k) → reconcile_table (range m).*2 t = (t', true) → rows t' = m.
Proof.
  intros Hm. unfold reconcile_table. set (items := (range m).*2). set (names := (range (gset_to_gmap tt (have t))).*1).
  assert (∀ k x, m !! k = Some x → x ∈ items ∧ key x = k) as Hitems.
  { intros k x Hx. split; [|by apply Hm]. apply list_elem_of_fmap. exists (k, x). split; [done|by apply elem_of_range]. }
  assert (key <$> items = (range m).*1) as Hkeys.
  { unfold items. rewrite <-list_fmap_compose. apply list_fmap_ext. intros i [k x] Hi. cbn.
    apply Hm, elem_of_range. by eapply list_elem_of_lookup_2. }
  destruct (foldl _ (t, true) items) as [t1 ok] eqn:Hf1. intros Hf2.
  assert (ok = true) as ->.
  { eapply (foldl_flag _ snd names (t1, ok)); [|by rewrite Hf2].
    intros acc k. cbn beta. case_bool_decide; [done|apply applied_flag]. }
  apply reconcile_writes in Hf1 as [Hin Hout]; [|rewrite Hkeys; apply NoDup_range|done].
  apply map_eq. intros k. rewrite (reconcile_deletes _ _ _ _ Hf2 k), Hkeys.
  rewrite Hkeys in Hout. setoid_rewrite elem_of_range_keys in Hout.
  destruct (m !! k) as [x|] eqn:Hk.
  - rewrite bool_decide_false.
    2:{ rewrite elem_of_list_to_set, elem_of_range_keys. intros [_ []]. by exists x. }
    destruct (Hitems k x Hk) as [Hx <-]. by apply Hin.
  - case_bool_decide as Hd; [done|]. rewrite Hout by (rewrite Hk; by intros [? ?]).
    apply eq_None_not_Some. intros Hs. apply Hd. split.
    + unfold names. apply elem_of_range_keys. exists tt. apply lookup_gset_to_gmap_Some. split; [|done]. by apply elem_of_have.
    + rewrite elem_of_list_to_set, elem_of_range_keys, Hk. by intros [? ?].
Qed.
End table.

(** ** What the engine reports *)

(** What a tunnel's streams are routed by: its relay, state and port. *)
Definition live_route (e : Engine) (n : string) : option (string * TunLiveState * Z) :=
  (λ t, (tRelayId t, tState t, tPublicPort t)) <$> tunnels e !! n.

(** The events tell of every name whose route differs. *)
Definition told (e e' : Engine) (evs : list Event) : Prop :=
  ∀ n, live_route e n ≠ live_route e' n → ∃ r c, TunnelChanged r c ∈ evs ∧ c ≠ Updated ∧ tName r = n.

Lemma basic_told P e e' : basic P e e' → wf e → ∃ evs, sink e' = sink e ++ evs ∧ told e e' evs.
Proof.
  intros Hb Hwf. destruct Hb as [rec _|name|a|id a Ha|r|id r Hr|cmd]; try (eexists; split; [done|by intros n []]).
  - pose proof (setTunnel_frame rec e) as (Ht & _ & _ & _ & Hs). exists [TunnelChanged rec (change_of e rec)].
    split; [done|]. intros n. unfold live_route. rewrite Ht. destruct (decide (n = tName rec)) as [->|Hne].
    2:{ rewrite lookup_insert_ne by done. by intros []. }
    rewrite lookup_insert_eq. intros Hd. exists rec, (change_of e rec). split_and!; [by left| |done].
    unfold change_of. destruct (tunnels e !! tName rec) as [old|]; [|done]. cbn in Hd.
    destruct (String.eqb_spec (tRelayId old) (tRelayId rec)), (decide (tState old = tState rec)),
      (Z.eqb_spec (tPublicPort old) (tPublicPort rec)); cbn; rewrite ?bool_decide_true, ?bool_decide_false by done; cbn; congruence.
  - pose proof (deleteTunnel_frame name e) as (Ht & _ & _ & _ & Hs). eexists. split; [done|]. intros n.
    unfold live_route. rewrite Ht. destruct (decide (n = name)) as [->|Hne].
    2:{ rewrite lookup_delete_ne by done. by intros []. }
    rewrite lookup_delete_eq. destruct (tunnels e !! name) as [old|] eqn:Ho; [|by intros []]. intros _.
    exists old, Deleted. split_and!; [by left|done|by eapply wf_name].
Qed.

Lemma changes_told P e e' : changes P e e' → wf e → ∃ evs, sink e' = sink e ++ evs ∧ told e e' evs.
Proof.
  induction 1 as [e|e e1 e' Hb _ IH]; intros Hwf; [exists []; split; [by rewrite app_nil_r|by intros n []]|].
  destruct (basic_told _ _ _ Hb Hwf) as (evs1 & Hs1 & Ht1). destruct IH as (evs2 & Hs2 & Ht2); [by eapply basic_wf|].
  exists (evs1 ++ evs2). split; [by rewrite Hs2, Hs1, app_assoc|]. intros n Hn.
  destruct (decide (live_route e n = live_route e1 n)) as [Heq|Hne].
  - rewrite Heq in Hn. destruct (Ht2 n Hn) as (r & c & ? & ?). exists r, c. split; [|done]. apply elem_of_app. by right.
  - destruct (Ht1 n Hne) as (r & c & ? & ?). exists r, c. split; [|done]. apply elem_of_app. by left.
Qed.

(** A step's reports take the tables of the engine before it to those after. *)
Lemma step_events `{MapRange} c e e' :
  reachable c e → step e e' →
  ∃ evs, sink e' = sink e ++ evs ∧ told e e' evs ∧
    foldl (λ s ev, s ← s; apply_event s ev) (Some (tables_of e)) evs = Some (tables_of e').
Proof.
  intros Hr Hs. destruct (reachable_wf _ _ Hr) as [Hwf Hm].
  assert (mirrored e') as Hm' by (apply (reachable_wf c); by eapply rtc_r).
  destruct (changes_told _ _ _ (step_changes _ _ Hs Hwf) Hwf) as (evs & He & Ht). exists evs. split_and!; [done..|].
  unfold mirrored, replay in Hm, Hm'. by rewrite He, foldl_app, Hm in Hm'.
Qed.

(** ** The live tables *)

Section registry.
Context `{GoUnicode, MapRange}.
Context `{TT : !TableService tName, TA : !TableService aAgentId, TR : !TableService rRelayId, TV : !TableService vReservationId}.
Context (config : Config).

Definition live_rows (v : views) : tables := (rows (vTunnels v), rows (vAgents v), rows (vRelays v)).

Lemma sink_event_flag (acc : views * bool * list push) ev : (sink_event acc ev).1.2 = true → acc.1.2 = true.
Proof.
  destruct acc as [[v ok] sent]. destruct ev as [r c|r c|r c|cmd]; cbn; [| | |done];
    unfold applied; destruct (apply _ _ _ _) as [t e]; cbn; by intros [? _]%andb_true_iff.
Qed.

Lemma sink_event_rows (acc : views * bool * list push) ev s' :
  (sink_event acc ev).1.2 = true → apply_event (live_rows acc.1.1) ev = Some s' → live_rows (sink_event acc ev).1.1 = s'.
Proof.
  destruct acc as [[v ok] sent]. destruct ev as [r c|r c|r c|cmd]; cbn [fst snd apply_event live_rows sink_event].
  4:{ by intros _ [= <-]. }
  all: destruct (applied _ _) as [t ok'] eqn:Ha; cbn [fst snd]; intros ->; apply applied_ok in Ha as [_ Ha];
    intros Hs; apply bind_Some in Hs as (m & Hm & [= <-]);
    pose proof (apply_change_rows _ _ _ _ _ Hm Ha) as <-; done.
Qed.

Lemma sink_events_rows evs (acc : views * bool * list push) s' :
  (foldl sink_event acc evs).1.2 = true →
  foldl (λ s ev, s ← s; apply_event s ev) (Some (live_rows acc.1.1)) evs = Some s' → live_rows (foldl sink_event acc evs).1.1 = s'.
Proof.
  revert acc. induction evs as [|ev evs IH]; intros acc; cbn [foldl]; [by intros _ [= <-]|].
  intros Hok Hs. pose proof (foldl_flag sink_event (λ a, a.1.2) evs _ sink_event_flag Hok) as Hok1. cbn beta in Hok1.
  cbn [mbind option_bind] in Hs. destruct (apply_event (live_rows acc.1.1) ev) as [s1|] eqn:He.
  - apply IH; [done|]. by rewrite (sink_event_rows acc ev s1).
  - exfalso. clear -Hs. induction evs as [|ev evs IH]; [done|]. by apply IH.
Qed.

(** What is sent because of a report. *)
Definition sent_for (ev : Event) : list push :=
  match ev with
  | TunnelChanged r c => if bool_decide (c = Updated) then [] else [PushTunnel r]
  | CommandSent cmd => [PushCommand cmd]
  | _ => []
  end.

Lemma sink_events_sent evs (acc : views * bool * list push) :
  (foldl sink_event acc evs).2 = acc.2 ++ (evs ≫= sent_for).
Proof.
  revert acc. induction evs as [|ev evs IH]; intros acc; cbn [foldl]; [by rewrite app_nil_r|]. rewrite IH.
  destruct acc as [[v ok] sent], ev as [r c|r c|r c|cmd]; cbn [mbind list_bind sent_for sink_event];
    try (destruct (applied _ _) as [t ok']; cbn [snd app]); try case_bool_decide; cbn; by rewrite <-?app_assoc.
Qed.

Record reg_inv (s : Registry) : Prop := {
  ri_engine : reachable config (Eng s);
  ri_synced : synced s = true → live_rows (rViews s) = tables_of (Eng s);
  ri_taken snap : taken s = Some (snap, true) → snap = Snapshot (Eng s);
}.

Lemma Snapshot_tables e e' : tables_of e = tables_of e' → Snapshot e = Snapshot e'.
Proof. unfold tables_of, Snapshot. intros [= -> -> ->]. done. Qed.

Lemma engine_to_spec e' s :
  reg_inv s → step (Eng s) e' →
  reg_inv (engine_to e' s) ∧ Eng (engine_to e' s) = e' ∧ rDir (engine_to e' s) = rDir s ∧ stored (engine_to e' s) = stored s ∧
  jobs (engine_to e' s) = jobs s ∧
  ∃ evs, pushes (engine_to e' s) = pushes s ++ (evs ≫= sent_for) ∧ told (Eng s) e' evs.
Proof.
  intros [Hr Hs Ht] Hstep. destruct (step_events _ _ _ Hr Hstep) as (evs & He & Htold & Hev).
  unfold engine_to. rewrite He, drop_app_length.
  pose proof (sink_events_sent evs (rViews s, synced s, pushes s)) as Hsent.
  pose proof (sink_events_rows evs (rViews s, synced s, pushes s)) as Hrows.
  pose proof (foldl_flag sink_event (λ a, a.1.2) evs (rViews s, synced s, pushes s) sink_event_flag) as Hflag.
  destruct (foldl sink_event _ evs) as [[v ok] sent]. cbn in Hsent, Hrows, Hflag. split_and!; try done; [|by exists evs].
  split; cbn.
  - by eapply rtc_r.
  - intros Hok. apply (Hrows (tables_of e') Hok). by rewrite (Hs (Hflag Hok)).
  - intros snap Hsn. destruct (taken s) as [[sn calm]|] eqn:Htk; [|done]. cbn in Hsn. injection Hsn as -> Hc.
    apply andb_true_iff in Hc as [-> Hl%bool_decide_eq_true]. apply nil_length_inv in Hl as ->. cbn in Hev.
    rewrite (Ht snap); [|done]. apply Snapshot_tables. congruence.
Qed.

Lemma reconcile_rows e v v' : wf e → reconcile (Snapshot e) v = (v', true) → live_rows v' = tables_of e.
Proof.
  intros Hwf. unfold reconcile, Snapshot, live_rows, tables_of. destruct (reconcile_table _ (vTunnels v)) as [t ok1] eqn:H1.
  destruct (reconcile_table _ (vAgents v)) as [a ok2] eqn:H2. destruct (reconcile_table _ (vRelays v)) as [r ok3] eqn:H3.
  intros [= <- [[-> ->]%andb_true_iff ->]%andb_true_iff]. cbn. f_equal; [f_equal|].
  - apply (reconcile_table_rows _ _ _ (wf_name e Hwf) H1).
  - apply (reconcile_table_rows _ _ _ (wf_agent e Hwf) H2).
  - apply (reconcile_table_rows _ _ _ (wf_relay e Hwf) H3).
Qed.

Lemma registry_handle_eq now req s :
  registry_handle now req s =
  (engine_to (Handle (dir_of (rDir s)) now req (Eng s)).1 s, (Handle (dir_of (rDir s)) now req (Eng s)).2).
Proof. unfold registry_handle. by destruct (Handle _ _ _ _). Qed.

Lemma ClaimAnswer_eq now req s :
  let '(e', resp) := Handle (dir_of (rDir s)) now req (Eng s) in
  ∃ more, ClaimAnswer now req s = (engine_to e' s <| jobs := jobs (engine_to e' s) ++ more |>, resp) ∧
    more = match qKind req with TUN_CLAIM_KIND_CLAIM | TUN_CLAIM_KIND_ANNOUNCE => [(req, resp)] | _ => [] end.
Proof.
  unfold ClaimAnswer. destruct (qKind req) eqn:Hk; cbn zeta; rewrite registry_handle_eq;
    destruct (Handle _ _ _ _) as [e' resp]; cbn; eexists; split; try done; f_equal;
    by destruct (engine_to e' s) as [???????? ?]; cbn; rewrite app_nil_r.
Qed.

Lemma claim_start_inv env req s : reg_inv s → reg_inv (claim_start env req s).
Proof. intros [? ? ?]. unfold claim_start. by destruct (qKind req). Qed.

Lemma ClaimAnswer_spec now req s : reg_inv s →
  reg_inv (ClaimAnswer now req s).1 ∧
  ∃ evs, pushes (ClaimAnswer now req s).1 = pushes s ++ (evs ≫= sent_for) ∧ told (Eng s) (Eng (ClaimAnswer now req s).1) evs.
Proof.
  intros Hi. pose proof (ClaimAnswer_eq now req s) as Hc. destruct (Handle _ _ _ _) as [e' resp] eqn:Hh.
  destruct Hc as (more & -> & _). cbn [fst]. destruct (engine_to_spec e' s Hi) as ([H1 H2 H3] & He & _ & _ & _ & evs & Hp & Htd).
  { replace e' with (Handle (dir_of (rDir s)) now req (Eng s)).1 by by rewrite Hh. constructor. }
  split; [by split|]. exists evs. cbn. by rewrite Hp, He.
Qed.

(** What a transition does, restarts apart. *)
Lemma next_spec s i :
  reg_inv s → (∀ v env, i ≠ InRestart v env) →
  reg_inv (next config s i) ∧
  ∃ evs, pushes (next config s i) = pushes s ++ (evs ≫= sent_for) ∧ told (Eng s) (Eng (next config s i)) evs.
Proof.
  intros Hi Hno. pose proof Hi as [Hr Hs Ht].
  assert (∀ s', Eng s' = Eng s → rViews s' = rViews s → synced s' = synced s → taken s' = taken s → pushes s' = pushes s →
    reg_inv s' ∧ ∃ evs, pushes s' = pushes s ++ (evs ≫= sent_for) ∧ told (Eng s) (Eng s') evs) as Hsame.
  { intros s' He Hv Hy Hk Hp. split; [split; rewrite ?He, ?Hv, ?Hy, ?Hk; auto|]. exists []. rewrite He, Hp, app_nil_r.
    split; [done|by intros n []]. }
  destruct i as [env now req|cmd|now|now req|env|i|now| | |i ws env|env fresh a r|id|v env]; cbn [next].
  - destruct (ClaimAnswer_spec now req (claim_start env req s) (claim_start_inv env req s Hi)) as (? & evs & Hp & Htd).
    split; [done|]. exists evs. unfold ClaimPost. rewrite Hp. unfold claim_start in *. by destruct (qKind req).
  - unfold CtlPost. destruct (Command cmd (Eng s)) as [e' res] eqn:Hcmd. cbn [fst].
    destruct (engine_to_spec e' s Hi) as (? & -> & _ & _ & _ & ?); [|done].
    replace e' with (Command cmd (Eng s)).1 by by rewrite Hcmd. constructor.
  - destruct (engine_to_spec (Sweep now (Eng s)) s Hi) as (? & -> & _ & _ & _ & ?); [constructor|done].
  - by apply ClaimAnswer_spec.
  - destruct (read_lists env (stored s)); by apply Hsame.
  - destruct (reads s !! i); by apply Hsame.
  - by apply Hsame.
  - destruct (taken s) as [[sn b]|] eqn:Htk; [by apply Hsame|]. split; [split; cbn; [done|done|by intros snap [= <-]]|].
    exists []. cbn. rewrite app_nil_r. split; [done|by intros n []].
  - destruct (taken s) as [[sn calm]|] eqn:Htk; [|by apply Hsame]. destruct (reconcile sn (rViews s)) as [v ok] eqn:Hv.
    split; [|exists []; cbn; rewrite app_nil_r; split; [done|by intros n []]].
    split; cbn; [done| |done]. intros [-> ->]%andb_true_iff. rewrite (Ht sn eq_refl) in Hv.
    apply (reconcile_rows _ _ _ (proj1 (reachable_wf _ _ Hr)) Hv).
  - destruct (jobs s !! i) as [[req resp]|]; [|by apply Hsame]. destruct (reserveAssigned _ _ _ _ _ _ _) as [d tab]. by apply Hsame.
  - by apply Hsame.
  - by apply Hsame.
  - by destruct (Hno v env).
Qed.

Lemma Start_inv v env tab : reg_inv (Start config v env tab).
Proof.
  split; cbn; [apply rtc_refl| |done].
  intros [[Ht%bool_decide_eq_true Ha%bool_decide_eq_true]%andb_true_iff Hr%bool_decide_eq_true]%andb_true_iff.
  unfold live_rows, tables_of. cbn. apply dom_empty_inv_L in Ht, Ha, Hr. by rewrite Ht, Ha, Hr.
Qed.

Lemma next_inv s i : reg_inv s → reg_inv (next config s i).
Proof.
  intros Hi. destruct i; try (apply (next_spec s); [done|by intros]). apply Start_inv.
Qed.

Lemma run_inv ins s : reg_inv s → reg_inv (foldl (next config) s ins).
Proof. intros Hi. by apply (foldl_inv reg_inv); [|intros; apply next_inv]. Qed.

(** C2: the live tables. Whatever is asked of the registry and whatever the
table services refuse, as long as every write since the start (with empty
tables) or the last undisturbed reconcile worked, the live tables of tunnels,
agents and relays are exactly the engine's state. A reconcile that nothing
disturbs and whose writes work makes them so, whatever they held. And edges and
relays are told whenever a request, command or sweep changes which relay serves
a tunnel, its state, its port, or whether it exists. They are not told when only
its custom domains change ([domain_change_not_pushed] in RegistryPorts.v). *)
Theorem live_tables_served v env tab ins :
  let s := foldl (next config) (Start config v env tab) ins in
  (synced s = true → live_rows (rViews s) = tables_of (Eng s)) ∧
  (taken s = None → (reconcile (Snapshot (Eng s)) (rViews s)).2 = true →
   let s' := next config (next config s InSnapshot) InReconcile in
   live_rows (rViews s') = tables_of (Eng s')) ∧
  (∀ i n, (∀ v env, i ≠ InRestart v env) → live_route (Eng s) n ≠ live_route (Eng (next config s i)) n →
     ∃ r, PushTunnel r ∈ drop (length (pushes s)) (pushes (next config s i)) ∧ tName r = n).
Proof.
  intros s. assert (reg_inv s) as Hi by (apply run_inv, Start_inv). split_and!.
  - apply Hi.
  - intros Ht Hok s'. assert (reg_inv s') as Hi' by (by repeat apply next_inv). apply (ri_synced _ Hi').
    subst s'. cbn [next]. rewrite Ht. cbn [taken]. destruct (reconcile _ _) as [v' ok] eqn:Hv.
    revert Hv Hok. cbn. intros ->. cbn. by intros ->.
  - intros i n Hno Hn. destruct (next_spec s i Hi Hno) as (_ & evs & -> & Htold). rewrite drop_app_length.
    destruct (Htold n Hn) as (r & c & Hin & Hc & Hr). exists r. split; [|done]. apply list_elem_of_bind.
    exists (TunnelChanged r c). split; [|done]. cbn. rewrite bool_decide_false by done. left.
Qed.
End registry.
