(* ===== verification/RegistryPorts.v ===== *)
(** * The registry keeps assigned ports

The composition of the claims engine, the directory it is given, the stored
reservations and the background jobs of the registry: a port once reserved for
a tunnel stays its port. *)

From S2P Require Import Prelude GoStrings Protocol Policy Claims ClaimsInv ClaimsSpec ClaimsLife EdgeConf Reservations Registry RegistrySpec.
From stdpp Require Import options.
#[local] Open Scope l8_scope.
#[local] Open Scope Z_scope.
Import Rules.

(** ** Reservations in a list *)

Lemma existing_of_spec l n :
  match existing_of l !! n with
  | Some r => r ∈ l ∧ vName r = n
  | None => ∀ r, r ∈ l → vName r ≠ n
  end.
Proof.
  unfold existing_of. assert (∀ m : gmap string TunReservation, match foldl (λ m r, <[vName r := r]> m) m l !! n with
    | Some r => (r ∈ l ∧ vName r = n) ∨ m !! n = Some r
    | None => m !! n = None ∧ ∀ r, r ∈ l → vName r ≠ n end) as Hx.
  { induction l as [|x l IH]; intros m; cbn [foldl].
    { destruct (m !! n); [by right|split; [done|by intros ? ?%elem_of_nil]]. }
    specialize (IH (<[vName x := x]> m)). destruct (foldl _ _ l !! n) as [r|].
    - destruct IH as [[? ?]|Hr]; [left; split; [by right|done]|].
      apply lookup_insert_Some in Hr as [[? <-]|[_ Hr]]; [left; split; [by left|done]|by right].
    - destruct IH as [Hm Hl]. apply lookup_insert_None in Hm as [Hm Hne]. split; [done|]. intros r [->|?]%elem_of_cons; auto. }
  specialize (Hx ∅). destruct (foldl _ _ l !! n) as [r|]; [destruct Hx as [?|?]; [done|by rewrite lookup_empty in *]|by destruct Hx].
Qed.

(** ** A port that is kept *)

Section ports.
Context `{GoUnicode, MapRange}.
Context `{TT : !TableService tName, TA : !TableService aAgentId, TR : !TableService rRelayId, TV : !TableService vReservationId,
  RP : !ResvPatch}.
Context (config : Config).
Abbreviation rules := (cfgRules config).
(** The tunnel's name, its token and port, and the key of its reservation. *)
Context (n tok : string) (p : Z) (id : string).

(** A copy of the reservations knows the port; nothing else has the name or key. *)
Definition copy_knows (l : list TunReservation) : Prop :=
  (∃ r, r ∈ l ∧ vName r = n) ∧
  ∀ r, r ∈ l → vName r = n ∨ vReservationId r = id →
    vName r = n ∧ vReservationId r = id ∧ vTokenId r = tok ∧ vPublicPort r = p.

(** The port is reserved: in the table, in the registry's copy and in every list
a running refresh has read, and no job is about to give the name another. *)
Record port_reserved (s : Registry) : Prop := {
  pr_ok : resv_ok rules (rows (stored s));
  pr_row : ∃ v, rows (stored s) !! id = Some v ∧ vName v = n ∧ vTokenId v = tok ∧ vPublicPort v = p;
  pr_copy : copy_knows (dReservations (rDir s));
  pr_reads l : l ∈ reads s → copy_knows l.1;
  pr_jobs req resp t : (req, resp) ∈ jobs s → t ∈ assigned_tunnels req resp → tName t = n →
    tPublicPort t = 0 ∨ tPublicPort t = p;
}.

(** Inputs that leave the tunnel's reservation alone: nobody asks for another
port under its name, no operator edits or deletes its reservation, new keys are
new, and a restarted registry can read the reservations. *)
Definition leaves_alone (i : input) : Prop :=
  match i with
  | InClaim _ _ req | InAnswer _ req => ∀ t, t ∈ qTunnels req → tName t = n → tPublicPort t = 0 ∨ tPublicPort t = p
  | InJob _ ws _ => ∀ j, (ws j).2 ≠ id ∧ (ws j).2 ≠ ""
  | InWrite _ fresh a r => write_key fresh a r ≠ id
  | InDelete k => k ≠ id
  | InRestart _ env => env_readable env = true ∧ env_domains env ≠ None
  | _ => True
  end.

Hypothesis id_named : id ≠ "".

Lemma rows_know t v :
  resv_ok rules (rows t) → rows t !! id = Some v → vName v = n → vTokenId v = tok → vPublicPort v = p →
  copy_knows (ReservationRows t).
Proof using id_named.
  intros Hok Hv Hn Ht Hp. pose proof (ro_key _ _ Hok _ _ Hv) as Hid. split.
  - exists v. split; [|done]. apply elem_of_list_rows. split; [by rewrite Hid|by exists id].
  - intros r (Hne & k & Hk)%elem_of_list_rows Hor. pose proof (ro_key _ _ Hok _ _ Hk) as <-.
    assert (vReservationId r = id) as Heq.
    { destruct Hor as [Hr|?]; [|done]. apply (ro_name _ _ Hok _ _ r v); [done..|congruence]. }
    rewrite Heq in Hk. by simplify_eq.
Qed.

Lemma read_knows env t l : copy_knows (ReservationRows t) → read_lists env t = Some l → copy_knows l.1.
Proof. intros Ht. unfold read_lists. destruct (negb _); [done|]. destruct (env_domains env); [|done]. by intros [= <-]. Qed.
Lemma refresh_knows env t d :
  copy_knows (ReservationRows t) → copy_knows (dReservations d) → copy_knows (dReservations (refresh env t d).1).
Proof. intros Ht Hd. unfold refresh. destruct (read_lists env t) as [l|] eqn:Hl; [by eapply read_knows|done]. Qed.

Lemma refreshForClaim_knows env t d :
  copy_knows (ReservationRows t) → copy_knows (dReservations d) → copy_knows (dReservations (refreshForClaim env t d)).
Proof.
  intros Ht Hd. unfold refreshForClaim. destruct (_ <? _); [done|]. pose proof (refresh_knows env t d Ht Hd) as Hr.
  destruct (refresh env t d) as [d' []]; done.
Qed.

(** ** Granted claims *)

Hypothesis p_real : p ≠ 0.

(** The tunnel itself gets its port, if it may have one. *)
Lemma granted_keeps dir now e req spec st sp sd rec :
  copy_knows (Reservations dir) → granted dir now e req spec st sp sd rec → tName spec = n →
  tPublicPort spec = 0 ∨ tPublicPort spec = p →
  qTokenId req = tok ∧ tPublicPort rec = if hasPort (tType spec) && negb (tAccessToken spec) then p else 0.
Proof using p_real.
  intros [(r & Hr & Hrn) Hl] Hg Hn Hask. destruct (find_reservation_total _ _ r Hr Hrn) as [v Hv].
  destruct (find_reservation_named _ _ _ Hv) as [Hvin Hvn]. destruct (Hl v Hvin) as (_ & _ & Hvt & Hvp); [by left|].
  split; [rewrite <-Hvt; symmetry; apply (granted_resv _ _ _ _ _ _ _ _ _ Hg); by rewrite Hn|].
  pose proof (granted_port _ _ _ _ _ _ _ _ _ Hg) as Hport. rewrite Hn, Hv in Hport. case_match; [|done].
  rewrite port_unfold in Hport. cbv zeta in Hport. destruct (port_range e req) as [lo hi].
  assert (wanted_port spec (Some v) (tunnels e !! n) = p) as Hw.
  { unfold wanted_port. cbn. rewrite Hvp. destruct Hask as [->| ->]; cbn; apply Z.eqb_neq in p_real as ->; done. }
  rewrite Hw in Hport. apply Z.eqb_neq in p_real. rewrite p_real in Hport. cbn in Hport.
  repeat (case_match; [done|]). by injection Hport as ->.
Qed.

(** No other tunnel gets it. *)
Lemma granted_apart dir now e req spec st sp sd rec :
  copy_knows (Reservations dir) → granted dir now e req spec st sp sd rec → tName spec ≠ n → tPublicPort rec ≠ p.
Proof using p_real.
  intros [(r & Hr & Hrn) Hl] Hg Hn Heq. destruct (granted_facts _ _ _ _ _ _ _ _ _ Hg) as (_ & _ & _ & _ & _ & Hfree).
  rewrite Heq in Hfree. specialize (Hfree p_real). unfold port_free in Hfree. apply andb_true_iff in Hfree as [_ Hfree].
  apply negb_true_iff in Hfree. unfold reservedByOther in Hfree. rewrite existsb_false in Hfree. specialize (Hfree r Hr).
  destruct (Hl r Hr) as (_ & _ & _ & Hrp); [by left|]. rewrite Hrp, Z.eqb_refl, Hrn in Hfree. cbn in Hfree.
  apply negb_false_iff, String.eqb_eq in Hfree. congruence.
Qed.

(** What a claim answers with. *)
Lemma claim_answer dir now req e t :
  t ∈ pTunnels (Handle dir now req e).2 → qKind req = TUN_CLAIM_KIND_CLAIM ∧
  ∃ spec st sp sd, spec ∈ qTunnels req ∧ granted dir now e req spec st sp sd t ∧
    tName t = tName spec ∧ tType t = tType spec ∧ tAccessToken t = tAccessToken spec ∧ tTokenId t = qTokenId req.
Proof using.
  unfold Handle. destruct (String.eqb _ _); [by intros ?%elem_of_nil|].
  destruct (qKind req); cbn; try (by intros ?%elem_of_nil).
  - destruct (claim_result_of dir now req e) as [|s ?? ?? Hf]; cbn; [by intros ?%elem_of_nil|].
    intros (spec & Hin & Hr)%list_elem_of_omap. split; [done|]. apply staging_result_of in Hf.
    destruct (sr_granted _ _ _ _ _ _ Hf spec Hin) as (rec & st & sp & sd & Hg & Hr'). simplify_eq.
    exists spec, st, sp, sd. pose proof (granted_rec _ _ _ _ _ _ _ _ _ Hg) as Hrec. split_and!; [done|done|..]; by rewrite Hrec.
  - unfold announce. case_match; [by intros ?%elem_of_nil|]. cbn. destruct (foldl (announce_tunnel req) _ _) as [[??] ?].
    by intros ?%elem_of_nil.
  - unfold agentUp. destruct (qAgent req); [|by intros ?%elem_of_nil]. repeat (case_match; [by intros ?%elem_of_nil|]).
    by intros ?%elem_of_nil.
Qed.

(** With a directory that knows the port, an answer respects it. *)
Lemma answer_keeps dir now req e t :
  copy_knows (Reservations dir) → (∀ t, t ∈ qTunnels req → tName t = n → tPublicPort t = 0 ∨ tPublicPort t = p) →
  t ∈ pTunnels (Handle dir now req e).2 →
  (tName t = n → tTokenId t = tok ∧ tPublicPort t = if hasPort (tType t) && negb (tAccessToken t) then p else 0) ∧
  (tName t ≠ n → tPublicPort t ≠ p).
Proof using p_real.
  intros Hc Hask (_ & spec & st & sp & sd & Hin & Hg & Hn & Hty & Hacc & Htk)%claim_answer. rewrite Hn, Hty, Hacc, Htk. split.
  - intros Hn'. by eapply granted_keeps; eauto.
  - intros Hn'. by eapply granted_apart.
Qed.

(** ** Background jobs *)

Definition row_kept (t : table vReservationId) : Prop :=
  resv_ok rules (rows t) ∧ ∃ v, rows t !! id = Some v ∧ vName v = n ∧ vTokenId v = tok ∧ vPublicPort v = p.

Lemma write_keeps env fresh a r t :
  row_kept t → write_key fresh a r ≠ id → row_kept (resv_write rules env fresh a r t).1.
Proof using RP.
  intros [Hok Hv] Hk. destruct (resv_write _ _ _ _ _ t) as [t' res] eqn:Hw.
  destruct (resv_write_spec _ _ _ _ _ _ _ _ Hok Hw) as (Hok' & Hframe & _). split; [done|]. cbn. rewrite Hframe; [done|by apply not_eq_sym].
Qed.

Lemma reserve_one_keeps req l w t tab :
  row_kept tab → copy_knows l → (tName t = n → tPublicPort t = 0 ∨ tPublicPort t = p) → w.2 ≠ id → w.2 ≠ "" →
  row_kept (reserve_one config req (existing_of l) w t tab).1.
Proof using RP.
  intros Hrow [(r0 & Hr0 & Hr0n) Hl] Hask Hw1 Hw2. unfold reserve_one. destruct (Z.eqb_spec (tPublicPort t) 0) as [|Hp0]; [done|].
  pose proof (existing_of_spec l (tName t)) as Hex. destruct (existing_of l !! tName t) as [r|].
  - destruct Hex as [Hin Hn]. destruct (_ && _) eqn:Hput; [|done].
    assert (tName t ≠ n) as Hne.
    { intros Heq. destruct (Hl r Hin) as (_ & _ & _ & Hrp); [left; congruence|]. destruct (Hask Heq) as [?|Htp]; [done|].
      apply andb_true_iff in Hput as [_ Hput]. rewrite Hrp, Htp, Z.eqb_refl in Hput. done. }
    destruct (resv_write _ _ _ PUT _ tab) as [tab' res] eqn:Hw. change tab' with (tab', res).1. rewrite <-Hw.
    apply write_keeps; [done|]. cbn. intros Hid. destruct (Hl r Hin) as [? _]; [by right|congruence].
  - assert (tName t ≠ n) as Hne by (intros Heq; by apply (Hex r0); congruence).
    destruct (resv_write _ _ _ POST _ tab) as [tab' res] eqn:Hw. change tab' with (tab', res).1. rewrite <-Hw.
    by apply write_keeps.
Qed.

Lemma reserve_all_keeps req l ws i ts acc :
  row_kept acc.1 → copy_knows l → (∀ t, t ∈ ts → tName t = n → tPublicPort t = 0 ∨ tPublicPort t = p) →
  (∀ j, (ws j).2 ≠ id ∧ (ws j).2 ≠ "") → row_kept (reserve_all config req (existing_of l) ws i ts acc).1.
Proof using RP.
  intros Hrow Hl Hask Hws. revert i acc Hrow. induction ts as [|t ts IH]; intros i acc Hrow; cbn; [done|].
  destruct (reserve_one _ _ _ _ t acc.1) as [tab ch] eqn:Ho. apply IH; [intros; apply Hask; [by right|done]|].
  cbn. change tab with (tab, ch).1. rewrite <-Ho. apply reserve_one_keeps; [done..| |apply Hws|apply Hws]. apply Hask. left.
Qed.

Lemma reserveAssigned_keeps req resp ws env d tab :
  row_kept tab → copy_knows (dReservations d) →
  (∀ t, t ∈ assigned_tunnels req resp → tName t = n → tPublicPort t = 0 ∨ tPublicPort t = p) →
  (∀ j, (ws j).2 ≠ id ∧ (ws j).2 ≠ "") →
  let '(l, tab') := reserveAssigned config req resp ws env d tab in row_kept tab' ∧ ∀ l', l = Some l' → copy_knows l'.1.
Proof using RP id_named.
  intros Hrow Hd Hask Hws. unfold reserveAssigned. destruct (negb _); [done|].
  pose proof (reserve_all_keeps req (dReservations d) ws 0 (assigned_tunnels req resp) (tab, false) Hrow Hd Hask Hws) as Hk.
  destruct (reserve_all _ _ _ _ _ _ _) as [tab' []]; [|done]. cbn in Hk. split; [done|]. intros l.
  destruct Hk as [Hok (v & ? & ? & ? & ?)]. apply read_knows. by eapply rows_know.
Qed.

(** ** Transitions *)

Lemma engine_to_frame e' s :
  rDir (engine_to e' s) = rDir s ∧ stored (engine_to e' s) = stored s ∧ jobs (engine_to e' s) = jobs s ∧
  reads (engine_to e' s) = reads s.
Proof. unfold engine_to. by destruct (foldl sink_event _ _) as [[??] ?]. Qed.

Lemma port_reserved_row s : port_reserved s → row_kept (stored s).
Proof. intros [? ? _ _ _]. by split. Qed.
Lemma port_reserved_rows s : port_reserved s → copy_knows (ReservationRows (stored s)).
Proof using id_named. intros [Hok (v & ? & ? & ? & ?) _ _ _]. by eapply rows_know. Qed.

Lemma claim_start_reserved env req s : port_reserved s → port_reserved (claim_start env req s).
Proof using id_named.
  intros Hp. unfold claim_start. destruct (qKind req); try done. pose proof (port_reserved_rows s Hp) as Hr.
  destruct Hp as [? ? ? ? ?]. split; try done. by apply refreshForClaim_knows.
Qed.

Lemma answer_reserved now req s :
  port_reserved s → (∀ t, t ∈ qTunnels req → tName t = n → tPublicPort t = 0 ∨ tPublicPort t = p) →
  port_reserved (ClaimAnswer now req s).1.
Proof using p_real.
  intros Hp Hi. pose proof (ClaimAnswer_eq now req s) as Hcl. destruct (Handle _ _ _ _) as [e' resp] eqn:Hh.
  destruct Hcl as (more & -> & ->). cbn [fst]. destruct (engine_to_frame e' s) as (Hd & Hst & Hjs & Hrs).
  destruct Hp as [Hok0 Hv0 Hc0 Hr0 Hj0].
  split; cbn; rewrite ?Hd, ?Hst, ?Hjs, ?Hrs; try done. intros req' resp' t [Hin|Hin]%elem_of_app; [by apply Hj0|].
  destruct (qKind req) eqn:Hk; try by apply elem_of_nil in Hin.
  - apply list_elem_of_singleton in Hin as [= -> ->]. unfold assigned_tunnels. rewrite Hk. intros Ht Hn.
    replace resp with (Handle (dir_of (rDir s)) now req (Eng s)).2 in Ht by by rewrite Hh.
    apply answer_keeps in Ht as [Ht _]; [|done|done]. destruct (Ht Hn) as [_ ->]. case_match; auto.
  - apply list_elem_of_singleton in Hin as [= -> ->]. unfold assigned_tunnels. rewrite Hk. intros Ht Hn.
    apply elem_of_filterb in Ht as [Ht _]. by apply Hi.
Qed.

Lemma next_reserved s i : port_reserved s → leaves_alone i → port_reserved (next config s i).
Proof using RP id_named p_real.
  intros Hp Hi. pose proof (port_reserved_row s Hp) as Hrow. pose proof (port_reserved_rows s Hp) as Hrows.
  pose proof Hp as [Hok Hv Hc Hrd Hj].
  assert (∀ s', rDir s' = rDir s → stored s' = stored s → jobs s' = jobs s → reads s' = reads s → port_reserved s') as Hsame.
  { intros s' Hd Hst Hjs Hrs. split; rewrite ?Hd, ?Hst, ?Hjs, ?Hrs; done. }
  destruct i as [env now req|cmd|now|now req|env|i|now| | |i ws env|env fresh a r|k|v env]; cbn [next leaves_alone] in *.
  - apply answer_reserved; [by apply claim_start_reserved|done].
  - unfold CtlPost. destruct (Command cmd (Eng s)) as [e' res]. cbn. by apply Hsame; apply engine_to_frame.
  - by apply Hsame; apply engine_to_frame.
  - by apply answer_reserved.
  - destruct (read_lists env (stored s)) as [l|] eqn:Hl; [|done]. split; try done. cbn.
    intros l' [?| ->%list_elem_of_singleton]%elem_of_app; [by apply Hrd|by eapply read_knows].
  - destruct (reads s !! i) as [l|] eqn:Hl; [|done]. split; cbn; try done; [eapply Hrd, list_elem_of_lookup_2, Hl|].
    intros l' Hin. apply Hrd. eapply elem_of_submseteq; [exact Hin|]. apply sublist_submseteq, sublist_delete.
  - by split.
  - by destruct (taken s); apply Hsame.
  - destruct (taken s) as [[sn calm]|]; [|done]. by destruct (reconcile sn (rViews s)); apply Hsame.
  - destruct (jobs s !! i) as [[req resp]|] eqn:Hjob; [|done].
    pose proof (reserveAssigned_keeps req resp ws env (rDir s) (stored s) Hrow Hc) as Hk.
    destruct (reserveAssigned _ _ _ _ _ _ _) as [l tab]. destruct Hk as [[? ?] Hl]; [|done|].
    { intros t. apply (Hj req resp). by eapply list_elem_of_lookup_2. }
    split; cbn; try done.
    { intros l' [?|Hin]%elem_of_app; [by apply Hrd|]. destruct l as [l0|]; [|by apply elem_of_nil in Hin].
      apply list_elem_of_singleton in Hin as ->. by apply Hl. }
    intros req' resp' t Hin. apply (Hj req' resp'). eapply elem_of_submseteq; [exact Hin|]. apply sublist_submseteq, sublist_delete.
  - destruct (write_keeps env fresh a r (stored s) Hrow Hi) as [? ?]. by split.
  - destruct (svcDelete k (stored s)) as [tab [err|]] eqn:Hdel; cbn.
    + apply svcDelete_err in Hdel. by split; cbn; rewrite ?Hdel.
    + apply svcDelete_ok in Hdel. split; cbn; rewrite ?Hdel; [by apply resv_ok_delete| |done|done|done]. by rewrite lookup_delete_ne.
  - destruct Hi as [Hr Hd]. split; cbn; [done|done| |by intros ? ?%elem_of_nil|by intros ??? ?%elem_of_nil].
    unfold refresh, read_lists. rewrite Hr. cbn. by destruct (env_domains env).
Qed.
End ports.

Section theorem.
Context `{GoUnicode, MapRange}.
Context `{TT : !TableService tName, TA : !TableService aAgentId, TR : !TableService rRelayId, TV : !TableService vReservationId,
  RP : !ResvPatch}.
Context (config : Config).
Abbreviation rules := (cfgRules config).

(** A job whose write worked has stored a reservation of the assigned port. *)
Lemma reserve_one_stores req w t tab tab' :
  resv_ok rules (rows tab) → rows tab !! w.2 = None → w.2 ≠ "" →
  reserve_one config req (existing_of (ReservationRows tab)) w t tab = (tab', true) →
  ∃ id v, id ≠ "" ∧ rows tab' !! id = Some v ∧ vName v = tName t ∧ vTokenId v = assigned_token req t ∧
    vPublicPort v = tPublicPort t.
Proof using RP.
  intros Hok Hnew Hne. unfold reserve_one. destruct (tPublicPort t =? 0); [done|].
  pose proof (existing_of_spec (ReservationRows tab) (tName t)) as Hex.
  destruct (existing_of (ReservationRows tab) !! tName t) as [r|].
  - destruct Hex as [(Hrne & k & Hk)%elem_of_list_rows Hn]. pose proof (ro_key _ _ Hok _ _ Hk) as <-.
    destruct (String.eqb_spec (vTokenId r) (assigned_token req t)) as [Htk|]; [|done]. cbn. destruct (negb _); [|done].
    destruct (resv_write _ _ _ PUT _ tab) as [tab1 res] eqn:Hw. intros [= <- Hres].
    destruct (resv_write_spec _ _ _ _ _ _ _ _ Hok Hw) as (_ & _ & Hst).
    destruct Hst as (x & Hx & Hxn & Hxt & Hxp); [done|right; split; [done|by exists r]|]. exists (vReservationId r), x.
    cbn in Hx, Hxn, Hxt, Hxp. split_and!; [done..|congruence|congruence|done].
  - destruct (resv_write _ _ _ POST _ tab) as [tab1 res] eqn:Hw. intros [= <- Hres].
    destruct (resv_write_spec _ _ _ _ _ _ _ _ Hok Hw) as (_ & _ & Hst).
    destruct Hst as (x & ? & ? & ? & ?); [done|by left|]. by exists w.2, x.
Qed.

(** A reserved port nobody else holds is given. *)
Lemma reserved_port_given n tok p id l e req spec holder st :
  is_int32 (PortMin rules) → is_int32 (PortMax rules) → p ≠ 0 → PortMin rules ≤ p ≤ PortMax rules →
  copy_knows n tok p id l → cfgRules (cfg e) = rules → tName spec = n → tPublicPort spec = 0 →
  at_ (byPort e) p = "" ∨ at_ (byPort e) p = n → at_ st p = "" → (∀ r, r ∈ l → vPublicPort r = p → vName r = n) →
  port e req spec holder (find_reservation l n) l st = Ok p.
Proof.
  intros Hlo Hhi Hp Hin [(r & Hr & Hrn) Hl] Hcfg Hn Hask Hown Hst Honly.
  destruct (find_reservation_total _ _ r Hr Hrn) as [v Hv]. destruct (find_reservation_named _ _ _ Hv) as [Hvin Hvn].
  destruct (Hl v Hvin) as (_ & _ & _ & Hvp); [by left|]. rewrite port_unfold. cbv zeta. destruct (port_range e req) as [lo hi].
  assert (wanted_port spec (find_reservation l n) holder = p) as ->.
  { unfold wanted_port. rewrite Hv, Hask. cbn. rewrite Hvp. apply Z.eqb_neq in Hp as ->. done. }
  assert (port_free e (tName spec) l st p = true) as Hfree.
  { unfold port_free. rewrite Hn, Hst. apply andb_true_iff. split.
    - apply andb_true_iff. split; [|done]. destruct Hown as [->| ->]; [done|]. by rewrite String.eqb_refl, orb_true_r.
    - apply negb_true_iff. unfold reservedByOther. apply existsb_false. intros r' Hr'.
      destruct (Z.eqb_spec (vPublicPort r') p) as [Heq|]; [|done]. by rewrite (Honly r' Hr' Heq), String.eqb_refl. }
  apply Z.eqb_neq in Hp as Hp'. rewrite Hp', Hcfg, Hfree, !int32_id by done. cbn.
  destruct (Z.ltb_spec p (PortMin rules)), (Z.ltb_spec (PortMax rules) p); cbn; (done || lia).
Qed.


(** The stored reservations stay consistent, whatever happens. *)
Lemma resv_write_ok env fresh a r tab : resv_ok rules (rows tab) → resv_ok rules (rows (resv_write rules env fresh a r tab).1).
Proof using RP. intros Hok. destruct (resv_write _ _ _ _ _ _) as [t res] eqn:Hw. by eapply (resv_write_spec _ _ _ _ _ _ _ _ Hok Hw). Qed.

Lemma reserve_all_ok req existing ws i ts acc :
  resv_ok rules (rows acc.1) → resv_ok rules (rows (reserve_all config req existing ws i ts acc).1).
Proof using RP.
  revert i acc. induction ts as [|t ts IH]; intros i acc Hok; cbn; [done|].
  destruct (reserve_one _ _ _ _ t acc.1) as [tab ch] eqn:Ho. apply IH. cbn. change tab with (tab, ch).1. rewrite <-Ho.
  unfold reserve_one. destruct (_ =? _); [done|]. destruct (existing !! tName t) as [r|]; [destruct (_ && _); [|done]|];
    (destruct (resv_write _ _ _ _ _ acc.1) as [tab1 res] eqn:Hw; change tab1 with (tab1, res).1; rewrite <-Hw; by apply resv_write_ok).
Qed.

Lemma next_resv_ok s i : resv_ok rules (rows (stored s)) → resv_ok rules (rows (stored (next config s i))).
Proof using RP.
  intros Hok. assert (∀ now req s, stored (ClaimAnswer now req s).1 = stored s) as Hans.
  { intros now req s0. pose proof (ClaimAnswer_eq now req s0) as Hcl. destruct (Handle _ _ _ _) as [e' resp].
    destruct Hcl as (more & -> & _). cbn. by destruct (engine_to_frame e' s0) as (_ & -> & _). }
  destruct i as [env now req|cmd|now|now req|env|i|now| | |i ws env|env fresh a r|k|v env]; cbn [next]; try done.
  - unfold ClaimPost. rewrite Hans. unfold claim_start. by destruct (qKind req).
  - unfold CtlPost. destruct (Command cmd (Eng s)) as [e' res]. cbn. by destruct (engine_to_frame e' s) as (_ & -> & _).
  - by destruct (engine_to_frame (Sweep now (Eng s)) s) as (_ & -> & _).
  - by rewrite Hans.
  - by destruct (read_lists env (stored s)).
  - by destruct (reads s !! i).
  - by destruct (taken s).
  - destruct (taken s) as [[sn calm]|]; [|done]. by destruct (reconcile sn (rViews s)).
  - destruct (jobs s !! i) as [[req resp]|]; [|done]. unfold reserveAssigned. destruct (negb _); [done|].
    pose proof (reserve_all_ok req (existing_of (dReservations (rDir s))) ws 0 (assigned_tunnels req resp) (stored s, false) Hok).
    by destruct (reserve_all _ _ _ _ _ _ _) as [tab []].
  - by apply resv_write_ok.
  - destruct (svcDelete k (stored s)) as [tab [err|]] eqn:Hdel; cbn.
    + apply svcDelete_err in Hdel. by rewrite Hdel.
    + apply svcDelete_ok in Hdel. rewrite Hdel. by apply resv_ok_delete.
Qed.

Lemma run_resv_ok ins s : resv_ok rules (rows (stored s)) → resv_ok rules (rows (stored (foldl (next config) s ins))).
Proof using RP. intros Hok. apply (foldl_inv (λ s, resv_ok rules (rows (stored s)))); [done|]. intros; by apply next_resv_ok. Qed.
End theorem.

(** ** Samples *)

Module PortSample.
Import ClaimsLife.Sample.

(** The later record is the row; an upsert. *)
#[export] Instance tunnel_service : TableService tName | 100 := map_service tName (λ x _, x) (λ _ _ H, H).
#[export] Instance agent_service : TableService aAgentId | 100 := map_service aAgentId (λ x _, x) (λ _ _ H, H).
#[export] Instance relay_service : TableService rRelayId | 100 := map_service rRelayId (λ x _, x) (λ _ _ H, H).

Definition no_rows : views := mkViews ∅ ∅ ∅.
Definition up : resv_env := mkResvEnv (λ _, Some true) (Some []) true now.
Definition down : resv_env := mkResvEnv (λ _, None) None false now.
Definition keys (i : nat) : resv_env * string := (up, String.append "k" (pretty i)).

(** A registry that granted two tunnels, and then reserved their ports. *)
Definition s0 : Registry := Start config no_rows up ∅.
Definition s1 : Registry := next config s0 (InClaim up now claim_req).
Definition s2 : Registry := foldl (next config) s1 [InJob 0 keys up; InInstall 0].
(** A refresh is overtaken by a claim; it restarts, and the tunnel [db] is claimed
again first. *)
Definition later : list input :=
  [InRead up; InAnswer (now + minute)%Z (request TUN_CLAIM_KIND_CLAIM "relay-b" "s2" [spec "db" 0 []] []); InInstall 0;
   InRestart no_rows up; InClaim up (now + hour)%Z (request TUN_CLAIM_KIND_CLAIM "relay-b" "s2" [spec "db" 0 []] [])].
Definition web_req : TunClaimRequest := request TUN_CLAIM_KIND_CLAIM "relay-b" "s2" [spec "web" 0 []] [].
Definition other_req : TunClaimRequest :=
  mkRequest TUN_CLAIM_KIND_CLAIM "relay-b" "s3" "agent-2" "tok-2" 2 0 0 [spec "web" 0 []] [] 0 None [] None
    TUN_DISCONNECT_REASON_UNSPECIFIED.

Lemma web_reserved : port_reserved config "web" "tok" 20000 "k0" s2.
Proof.
  split.
  - apply run_resv_ok, next_resv_ok. apply resv_ok_empty.
  - exists (mkReservation "k0" "web" "tok" 20000 "assigned automatically" 1000). by vm_compute.
  - assert (dReservations (rDir s2) = [mkReservation "k1" "db" "tok" 20001 "assigned automatically" 1000;
      mkReservation "k0" "web" "tok" 20000 "assigned automatically" 1000]) as -> by by vm_compute.
    split; [eexists; split; [right; left|done]|]. intros r [->|[->|?%elem_of_nil]%elem_of_cons]%elem_of_cons; [|done|done].
    cbn. intros [?|?]; done.
  - assert (reads s2 = []) as -> by by vm_compute. by intros ? ?%elem_of_nil.
  - assert (jobs s2 = []) as -> by by vm_compute. by intros ??? ?%elem_of_nil.
Defined.
Lemma later_fine : Forall (leaves_alone "web" 20000 "k0") later.
Proof.
  assert (∀ t, t ∈ [spec "db" 0 []] → tName t = "web" → tPublicPort t = 0 ∨ tPublicPort t = 20000) as Hdb
    by by intros t [->|?%elem_of_nil]%elem_of_cons.
  repeat (apply Forall_cons; split); [done|exact Hdb|done|by split|exact Hdb|by apply Forall_nil].
Defined.
Lemma web_fine t : t ∈ qTunnels web_req → tName t = "web" → tPublicPort t = 0 ∨ tPublicPort t = 20000.
Proof. intros [->|?%elem_of_nil]%elem_of_cons; [by left|done]. Qed.
End PortSample.
Import PortSample ClaimsLife.Sample.


Lemma live_tables_served_witness : rows (vTunnels (rViews s1)) = tunnels (Eng s1).
Proof.
  destruct (live_tables_served config no_rows up ∅ [InClaim up now claim_req]) as [Hs _].
  specialize (Hs ltac:(by vm_compute)). exact (f_equal (λ t, t.1.1) Hs).
Defined.

(** A registry that starts while the management backend is down has no
reservations and says so only in the log: it grants a reserved name, and its
reserved port, to another token. *)
Lemma unloaded_registry_ignores_reservations :
  rows (stored s2) !! "k0" = Some (mkReservation "k0" "web" "tok" 20000 "assigned automatically" 1000) ∧
  (λ t, (tName t, tTokenId t, tPublicPort t)) <$> pTunnels (ClaimPost down now other_req (Start config no_rows down (stored s2))).2 =
  [("web", "tok-2", 20000)].
Proof. by vm_compute. Qed.

(** A refresh that read the reservations before the job wrote one, and takes the
lock last, takes the new reservation out of the registry's copy again. *)
Lemma overtaken_refresh_forgets :
  let s := foldl (next config) s1 [InRead up; InJob 0 keys up; InInstall 1; InInstall 0] in
  is_Some (rows (stored s) !! "k0") ∧ dReservations (rDir s) = [].
Proof. vm_compute. split; [by eexists|done]. Qed.

(** A tunnel claimed while [reconcile] runs loses its row in the live table,
until the next reconcile: the snapshot is older than the rows. *)
Lemma reconcile_drops_new_row :
  let s := foldl (next config) s0 [InSnapshot; InClaim up now claim_req; InReconcile] in
  is_Some (tunnels (Eng s) !! "web") ∧ rows (vTunnels (rViews s)) !! "web" = None.
Proof. vm_compute. split; [by eexists|done]. Qed.

(** Edges and relays are not told when a tunnel is claimed again with other
custom domains, and its relay, state and port stay the same. *)
Lemma domain_change_not_pushed :
  let s := next config s1 (InClaim up (now + hour)%Z
             (request TUN_CLAIM_KIND_CLAIM "relay-a" "s9" [spec "web" 0 ["b.example"]] [])) in
  (tDomains <$> tunnels (Eng s1) !! "web") = Some ["a.example"] ∧ (tDomains <$> tunnels (Eng s) !! "web") = Some ["b.example"] ∧
  length (pushes s) = length (pushes s1).
Proof. by vm_compute. Qed.
