(* ===== verification/Manage.v ===== *)
(** * Agent credentials in the cluster: the management services
(go/tun/common/convert.go, go/tun/access/tokens, agentcerts, gwkeys and issue)

Tokens, agent certificates and gateway keys are rows of table services; the
TunIssue service creates and revokes them and imports those of a standalone
relay. Operations run in the small monad [M]: the tables with the calls still
to come (any of them may fail: the list [faults] says which) and what was
pushed to the relays, and a result. An error ends an operation and keeps what it
did before. *)

From S2P Require Import Prelude GoStrings Regex Protocol PathMatch Policy NetIP Access Claims EdgeConf NameRegistry RelayTunnels RelayServe Store Reservations.
From stdpp Require Import options.
#[local] Open Scope l8_scope.
#[local] Open Scope Z_scope.
Import Rules.

(** ** Messages *)

Record TunTokenPolicy := mkTokenPolicy {
  plNames : list string;
  plTypes : list TunTunnelType;
  plMaxTunnels : Z;      (* int32 *)
  plPorts : string;
  plRequireCert : bool;
  plDomains : list string;
}.
Record TunToken := mkTunToken {
  tkTokenId : string;
  tkName : string;
  tkDescription : string;
  tkSecretHash : string;
  tkPolicy : option TunTokenPolicy;
  tkCreatedAt : Z;
  tkCreatedBy : string;
}.
#[export] Instance eta_tuntoken : Eta TunToken := λ t,
  mkTunToken (tkTokenId t) (tkName t) (tkDescription t) (tkSecretHash t) (tkPolicy t) (tkCreatedAt t) (tkCreatedBy t).
Record TunAgentCert := mkAgentCert {
  crCertId : string;
  crTokenId : string;
  crCommonName : string;
  crNotBefore : Z;
  crNotAfter : Z;
  crFingerprint : string;
  crRevoked : bool;
  crCreatedAt : Z;
}.
#[export] Instance eta_agentcert : Eta TunAgentCert := λ c,
  mkAgentCert (crCertId c) (crTokenId c) (crCommonName c) (crNotBefore c) (crNotAfter c) (crFingerprint c) (crRevoked c) (crCreatedAt c).
Record TunGatewayKey := mkGwKey {
  gkKeyId : string;
  gkName : string;
  gkPublicKey : string;
  gkFingerprint : string;
  gkTunnels : list string;
  gkCreatedAt : Z;
}.
#[export] Instance eta_gwkey : Eta TunGatewayKey := λ k,
  mkGwKey (gkKeyId k) (gkName k) (gkPublicKey k) (gkFingerprint k) (gkTunnels k) (gkCreatedAt k).

(** ** Conversions (convert.go) *)

Definition tunnelTypeNames : list (TunTunnelType * string) :=
  [(TUN_TUNNEL_TYPE_TCP, "tcp"); (TUN_TUNNEL_TYPE_SSH, "ssh"); (TUN_TUNNEL_TYPE_HTTP, "http"); (TUN_TUNNEL_TYPE_TLS, "tls")].

(** A missing entry of the map reads as "". *)
Definition TypeName (t : TunTunnelType) : string :=
  default "" (snd <$> List.find (λ p, bool_decide (p.1 = t)) tunnelTypeNames).
(** The names are distinct, so the order of the map does not matter. *)
Definition TunnelTypeOf (name : string) : option TunTunnelType :=
  fst <$> List.find (λ p, String.eqb p.2 name) tunnelTypeNames.

Inductive conv_err := InvalidTunnelType (t : TunTunnelType) | UnknownType (name : string).

Definition PolicyToAuth (p : option TunTokenPolicy) : result conv_err Auth.Policy :=
  match p with
  | None => Ok (Auth.mkPolicy [] [] 0 "" false [])
  | Some p =>
      types ← mapR (λ t, if String.eqb (TypeName t) "" then Err (InvalidTunnelType t) else Ok (TypeName t)) (plTypes p);
      Ok (Auth.mkPolicy (plNames p) types (plMaxTunnels p) (plPorts p) (plRequireCert p) (plDomains p))
  end.

Definition PolicyFromAuth (p : Auth.Policy) : result conv_err TunTokenPolicy :=
  types ← mapR (λ n, match TunnelTypeOf n with Some t => Ok t | None => Err (UnknownType n) end) (Auth.Types p);
  Ok (mkTokenPolicy (Auth.Names p) types (int32 (Auth.MaxTunnels p)) (Auth.Ports p) (Auth.RequireCert p) (Auth.Domains p)).

Definition TokenRecordOf (t : TunToken) (certSerials : list string) : result conv_err TokenRecord :=
  policy ← PolicyToAuth (tkPolicy t);
  Ok (mkToken (tkTokenId t) (tkName t) (tkSecretHash t) policy certSerials).

(** [ValidSerials] *)
Definition ValidSerials (tokenID : string) (all : list TunAgentCert) : list string :=
  crCertId <$> List.filter (λ c, String.eqb (crTokenId c) tokenID && negb (crRevoked c)) all.

Definition ImportedCommonName : string := "(imported: serial only)".

(** ** Checks of the services *)

(** [strings.EqualFold]: on ASCII, equality of the lower-case texts. *)
Class GoFold := { fold_unicode : string → string → bool }.
#[export] Instance ascii_fold : GoFold | 100 := {| fold_unicode := String.eqb |}.
Definition EqualFold `{GoFold} (a b : string) : bool :=
  if str_forall is_ascii_byte a && str_forall is_ascii_byte b then String.eqb (str_map lower_byte a) (str_map lower_byte b)
  else fold_unicode a b.

Inductive token_err :=
| TokInvalidName | TokConv (e : conv_err) | TokPolicy (e : Auth.policy_err) | TokLookup | TokNameTaken (name : string)
| TokThroughIssue | TokMissing (id : string) | TokSecretFixed.

Definition isBcrypt (s : string) : bool :=
  (String.length s =? 60)%nat && (HasPrefix "$2a$" s || HasPrefix "$2b$" s || HasPrefix "$2y$" s).

Definition validatePolicy `{GoUnicode} (p : option TunTokenPolicy) : result token_err unit :=
  match PolicyToAuth p with
  | Err e => Err (TokConv e)
  | Ok policy => match Auth.Validate policy with Err e => Err (TokPolicy e) | Ok _ => Ok tt end
  end.

(** [all] is [None] when the tokens cannot be read. *)
Definition checkNameFree `{GoFold} (t : TunToken) (all : option (list TunToken)) : result token_err unit :=
  match all with
  | None => Err TokLookup
  | Some all =>
      match List.find (λ o, negb (String.eqb (tkTokenId o) (tkTokenId t)) && EqualFold (tkName o) (tkName t)) all with
      | Some o => Err (TokNameTaken (tkName o))
      | None => Ok tt
      end
  end.

(** [Token]: [None] is an error, [Some None] no such token. *)
Definition token_lookup (all : option (list TunToken)) (id : string) : option (option TunToken) :=
  (λ all, List.find (λ o, String.eqb (tkTokenId o) id) all) <$> all.

Definition validatePatch `{GoUnicode, GoFold} (all : option (list TunToken)) (t : TunToken) : result token_err TunToken :=
  match (if negb (String.eqb (tkName t) "") then
           refuse! negb (ValidateTokenName (tkName t)) with TokInvalidName ;; checkNameFree t all
         else Ok tt) with
  | Err e => Err e
  | Ok _ =>
  match (match tkPolicy t with Some _ => validatePolicy (tkPolicy t) | None => Ok tt end) with
  | Err e => Err e
  | Ok _ =>
  if String.eqb (tkSecretHash t) "" then Ok t
  else match token_lookup all (tkTokenId t) with
       | None => Err TokLookup
       | Some None => Err TokSecretFixed
       | Some (Some o) => refuse! negb (String.eqb (tkSecretHash o) (tkSecretHash t)) with TokSecretFixed ;; Ok t
       end
  end end.

Definition validate_token `{GoUnicode, GoFold} (now : Z) (all : option (list TunToken)) (action : Action) (t : TunToken)
    : result token_err TunToken :=
  match action with
  | PATCH => validatePatch all t
  | _ =>
  refuse! negb (ValidateTokenName (tkName t)) with TokInvalidName ;;
  match validatePolicy (tkPolicy t) with
  | Err e => Err e
  | Ok _ =>
  match checkNameFree t all with
  | Err e => Err e
  | Ok _ =>
  match action with
  | POST =>
      refuse! negb (isBcrypt (tkSecretHash t)) with TokThroughIssue ;;
      Ok (if tkCreatedAt t =? 0 then t <| tkCreatedAt := unix now |> else t)
  | _ =>
      match token_lookup all (tkTokenId t) with
      | None => Err TokLookup
      | Some None => Err (TokMissing (tkTokenId t))
      | Some (Some o) =>
          let t' := if String.eqb (tkSecretHash t) "" then t <| tkSecretHash := tkSecretHash o |> else t in
          refuse! negb (String.eqb (tkSecretHash t') (tkSecretHash o)) with TokSecretFixed ;;
          Ok (if tkCreatedAt t' =? 0 then t' <| tkCreatedAt := tkCreatedAt o |> <| tkCreatedBy := tkCreatedBy o |> else t')
      end
  end end end end.

Inductive cert_err :=
| CertThroughIssue | CertLookup | CertNoToken (id : string) | CertRevoked | CertFixed | CertMissing (id : string).

Definition validate_cert (now : Z) (tokens : option (list TunToken)) (all : option (list TunAgentCert)) (action : Action)
    (c : TunAgentCert) : result cert_err TunAgentCert :=
  match action with
  | POST =>
      refuse! String.eqb (crCertId c) "" || (String.eqb (crFingerprint c) "" && negb (String.eqb (crCommonName c) ImportedCommonName))
      with CertThroughIssue ;;
      match token_lookup tokens (crTokenId c) with
      | None => Err CertLookup
      | Some None => Err (CertNoToken (crTokenId c))
      | Some (Some _) => Ok (if crCreatedAt c =? 0 then c <| crCreatedAt := unix now |> else c)
      end
  | _ =>
      match all with
      | None => Err CertLookup
      | Some all =>
          match List.find (λ o, String.eqb (crCertId o) (crCertId c)) all with
          | None => Err (CertMissing (crCertId c))
          | Some o =>
              let put := match action with PUT => true | _ => false end in
              refuse! crRevoked o && negb (crRevoked c) && put with CertRevoked ;;
              refuse! (negb (String.eqb (crTokenId c) "") && negb (String.eqb (crTokenId c) (crTokenId o)))
                      || (negb (String.eqb (crFingerprint c) "") && negb (String.eqb (crFingerprint c) (crFingerprint o)))
                      || (negb (crNotAfter c =? 0) && negb (crNotAfter c =? crNotAfter o)) with CertFixed ;;
              Ok (if put then o <| crRevoked := crRevoked c |> else c)
          end
      end
  end.

Inductive key_err :=
| KeyLookup | KeyMissing (id : string) | KeyBadName | KeyBadPublic | KeyNoTunnels | KeyBadPattern (p : string)
| KeyNameTaken (name : string) | KeyRegistered (name : string).

(** [auth.NewGatewayKey]; [ParseAuthorizedKey] is x/crypto/ssh's parsing of the
line: the key's text and its fingerprint. *)
Definition NewGatewayKey `{GoUnicode} (ParseAuthorizedKey : string → option (string * string)) (name key : string)
    (tunnels : list string) : result key_err GatewayKey :=
  refuse! negb (MatchString namePattern name) with KeyBadName ;;
  match ParseAuthorizedKey (TrimSpace key) with
  | None => Err KeyBadPublic
  | Some (text, fp) =>
      refuse! bool_decide (tunnels = []) with KeyNoTunnels ;;
      match List.find (λ p, negb (PathMatch.well_formed p)) tunnels with
      | Some p => Err (KeyBadPattern p)
      | None => Ok (mkKey name (TrimSpace text) fp tunnels)
      end
  end.

Definition merged_key (patch : TunGatewayKey) (all : list TunGatewayKey) : option TunGatewayKey :=
  o ← List.find (λ o, String.eqb (gkKeyId o) (gkKeyId patch)) all;
  let m := if negb (String.eqb (gkName patch) "") then o <| gkName := gkName patch |> else o in
  let m := if negb (String.eqb (gkPublicKey patch) "") then m <| gkPublicKey := gkPublicKey patch |> else m in
  Some (if negb (bool_decide (gkTunnels patch = [])) then m <| gkTunnels := gkTunnels patch |> else m).

Definition key_conflict `{GoFold} (check : TunGatewayKey) (fp : string) (all : list TunGatewayKey) : result key_err unit :=
  foldM (λ _ o,
    if String.eqb (gkKeyId o) (gkKeyId check) then Ok tt
    else
    refuse! EqualFold (gkName o) (gkName check) with KeyNameTaken (gkName o) ;;
    refuse! String.eqb (gkFingerprint o) fp with KeyRegistered (gkName o) ;;
    Ok tt) tt all.

Definition validate_key `{GoUnicode, GoFold} (ParseAuthorizedKey : string → option (string * string)) (now : Z)
    (all : option (list TunGatewayKey)) (action : Action) (k : TunGatewayKey) : result key_err TunGatewayKey :=
  match all with
  | None => Err KeyLookup
  | Some all =>
  match (match action with PATCH => merged_key k all | _ => Some k end) with
  | None => Err (KeyMissing (gkKeyId k))
  | Some check =>
  match NewGatewayKey ParseAuthorizedKey (gkName check) (gkPublicKey check) (gkTunnels check) with
  | Err e => Err e
  | Ok parsed =>
  match key_conflict check (Fingerprint parsed) all with
  | Err e => Err e
  | Ok _ =>
      let patch := match action with PATCH => true | _ => false end in
      let k := if negb patch || negb (String.eqb (gkPublicKey k) "") then k <| gkPublicKey := PublicKey parsed |> else k in
      let k := k <| gkFingerprint := Fingerprint parsed |> in
      Ok (match action with
          | POST => if gkCreatedAt k =? 0 then k <| gkCreatedAt := unix now |> else k
          | _ => k
          end)
  end end end end.

(** ** The backend and its monad *)

Section manage.
Context `{GoUnicode, GoFold, Crypto, MapRange}.
Context `{STK : !TableService tkTokenId, SCR : !TableService crCertId, SGK : !TableService gkKeyId, TV : !TableService vReservationId}.
Context (rules : Rules) (ParseAuthorizedKey : string → option (string * string)).

(** What the services push to the relays. *)
Inductive relay_push :=
| PushToken (deleted : bool) (t : TunToken)
| PushCert (c : TunAgentCert)
| PushKey (k : TunGatewayKey)
| PushReservation (r : TunReservation).

Record world := mkWorld {
  wTokens : table tkTokenId;
  wCerts : table crCertId;
  wKeys : table gkKeyId;
  wResv : table vReservationId;
  wDomains : list EdgeDomain;
  wPushed : list relay_push;
  faults : list bool;      (* whether the next calls fail; none fail past the end *)
}.
#[export] Instance eta_world : Eta world := λ w,
  mkWorld (wTokens w) (wCerts w) (wKeys w) (wResv w) (wDomains w) (wPushed w) (faults w).

Inductive issue_err :=
| ErrRemote | ErrConv (e : conv_err) | ErrNewToken | ErrNoToken (id : string) | ErrNoCA | ErrIssue (e : store_err) | ErrLeaf
| ErrTokenWrite (e : write_err token_err) | ErrCertWrite (e : write_err cert_err) | ErrKeyWrite (e : write_err key_err)
| ErrResvWrite (e : write_err resv_err) | ErrDelete (why : string) | ErrExport (e : store_err) | ErrKind.

Definition M (A : Type) : Type := world → world * result issue_err A.
#[export] Instance M_ret : MRet M := λ A a w, (w, Ok a).
#[export] Instance M_bind : MBind M := λ A B k m w,
  let '(w, r) := m w in match r with Ok a => k a w | Err e => (w, Err e) end.

Definition fail {A} (e : issue_err) : M A := λ w, (w, Err e).
Definition lift {A E} (f : E → issue_err) (r : result E A) : M A := λ w, (w, match r with Ok a => Ok a | Err e => Err (f e) end).

(** Whether the next call works. *)
Definition next_call : M bool := λ w,
  match faults w with
  | [] => (w, Ok true)
  | b :: l => (w <| faults := l |>, Ok (negb b))
  end.
(** A call to a service that fails when the service cannot be reached. *)
Definition act {A} (f : world → world * result issue_err A) : M A := f.
Definition call {A} (f : world → A) : M A :=
  up ← next_call; if up : bool then act (λ w, (w, Ok (f w))) else fail ErrRemote.

Definition Certs : M (list TunAgentCert) := call (λ w, list_rows (wCerts w)).
Definition Token (id : string) : M (option TunToken) :=
  call (λ w, List.find (λ o, String.eqb (tkTokenId o) id) (list_rows (wTokens w))).

Definition push (p : relay_push) (w : world) : world := w <| wPushed := wPushed w ++ [p] |>.

(** A list a service's own check reads; [up] is whether it can. *)
Definition readable {A} (up : bool) (l : A) : option A := if up then Some l else None.

(** A write to a service: the call, the reads of its check, the table, the push. *)
Definition token_write (fresh : string) (now : Z) (action : Action) (t : TunToken) : M TunToken :=
  _ ← call (λ _, tt); up ← next_call;
  act (λ w, let h := mkHooks _ _ (λ fresh t, t <| tkTokenId := GenerateID fresh (tkTokenId t) |>)
                  (validate_token now (readable up (list_rows (wTokens w)))) in
       let '(tab, r) := service_write h fresh action t (wTokens w) in
       let w := w <| wTokens := tab |> in
       match r with Ok x => (push (PushToken false x) w, Ok x) | Err e => (w, Err (ErrTokenWrite e)) end).

Definition cert_write (now : Z) (action : Action) (c : TunAgentCert) : M TunAgentCert :=
  _ ← call (λ _, tt); up1 ← next_call; up2 ← next_call;
  act (λ w, let h := mkHooks _ _ (λ _ c, c)
                  (validate_cert now (readable up1 (list_rows (wTokens w))) (readable up2 (list_rows (wCerts w)))) in
       let '(tab, r) := service_write h "" action c (wCerts w) in
       let w := w <| wCerts := tab |> in
       match r with Ok x => (push (PushCert x) w, Ok x) | Err e => (w, Err (ErrCertWrite e)) end).

Definition key_write (fresh : string) (now : Z) (action : Action) (k : TunGatewayKey) : M TunGatewayKey :=
  _ ← call (λ _, tt); up ← next_call;
  act (λ w, let h := mkHooks _ _ (λ fresh k, k <| gkKeyId := GenerateID fresh (gkKeyId k) |>)
                  (validate_key ParseAuthorizedKey now (readable up (list_rows (wKeys w)))) in
       let '(tab, r) := service_write h fresh action k (wKeys w) in
       let w := w <| wKeys := tab |> in
       match r with Ok x => (push (PushKey x) w, Ok x) | Err e => (w, Err (ErrKeyWrite e)) end).

Definition reservation_write (fresh : string) (now : Z) (action : Action) (r : TunReservation) : M TunReservation :=
  _ ← call (λ _, tt); up1 ← next_call; up2 ← next_call; up3 ← next_call;
  act (λ w, let exists_ id := existsb (λ o, String.eqb (tkTokenId o) id) (list_rows (wTokens w)) in
       let env := mkResvEnv (λ id, readable up2 (exists_ id)) (readable up3 (wDomains w)) up1 now in
       let '(tab, res) := resv_write rules env fresh action r (wResv w) in
       let w := w <| wResv := tab |> in
       match res with Ok x => (push (PushReservation x) w, Ok x) | Err e => (w, Err (ErrResvWrite e)) end).

(** ** TunIssue *)

Fixpoint each {A} (f : A → M unit) (l : list A) : M unit :=
  match l with [] => mret tt | x :: l => _ ← f x; each f l end.
(** A loop that counts the elements [f] says yes to. *)
Fixpoint count_each {A} (f : nat → A → M bool) (i : nat) (l : list A) (n : Z) : M Z :=
  match l with [] => mret n | x :: l => b ← f i x; count_each f (S i) l (if b : bool then n + 1 else n) end.

(** [NewToken] made up [token], bcrypt hashed its secret. *)
Definition issueToken (name description : string) (policy : option TunTokenPolicy) (token : string) (hash : option string) (now : Z)
    : M (string * string) :=
  p ← lift ErrConv (PolicyToAuth policy);
  match NewTokenRecord name token p hash with
  | None => fail ErrNewToken
  | Some rec =>
      t ← token_write "" now POST (mkTunToken (ID rec) (TName rec) description (Hash rec) policy (unix now) "");
      mret (tkTokenId t, token)
  end.

Definition DefaultCertDays : Z := 365.

(** [ca] is what [loadAgentCA] read; [leaf] what x509 reads back of the issued
certificate: common name, validity and fingerprint. *)
Definition issue_cert {CA} (tokenID : string) (certDays : Z) (ca : option CA) (serial : option string)
    (leaf : IssuedCert (CA := CA) → option (string * Z * Z * string)) (now : Z) : M (IssuedCert (CA := CA)) :=
  tok ← Token tokenID;
  match tok with
  | None => fail (ErrNoToken tokenID)
  | Some tok =>
  match ca with
  | None => fail ErrNoCA
  | Some ca =>
  rec ← lift ErrConv (TokenRecordOf tok []);
  let days := if certDays =? 0 then DefaultCertDays else certDays in
  issued ← lift ErrIssue (Issue ca rec days serial);
  match leaf issued with
  | None => fail ErrLeaf
  | Some (cn, notBefore, notAfter, fp) =>
      _ ← cert_write now POST (mkAgentCert (Serial (icCert issued)) (tkTokenId tok) cn notBefore notAfter fp false (unix now));
      mret issued
  end end end.

(** A delete of a row: a call that may fail, and the table's answer. *)
Definition delete_row {T} {key : T → string} `{!TableService key} (get : world → table key) (set : table key → world → world)
    (k : string) : M unit :=
  _ ← call (λ _, tt);
  act (λ w, let '(tab, err) := svcDelete k (get w) in
            (set tab w, match err with None => Ok tt | Some why => Err (ErrDelete why) end)).

Definition push_relays (p : relay_push) : M unit := act (λ w, (push p w, Ok tt)).

Definition empty_token (id : string) : TunToken := mkTunToken id "" "" "" None 0 "".

Definition revoke (tokenID : string) : M (Z * Z) :=
  tok ← Token tokenID;
  match tok with
  | None => fail (ErrNoToken tokenID)
  | Some tok =>
  let id := tkTokenId tok in
  _ ← delete_row wTokens (λ t w, w <| wTokens := t |>) id;
  _ ← push_relays (PushToken true (empty_token id));
  certs ← Certs;
  certCount ← count_each (λ _ c,
    if negb (String.eqb (crTokenId c) id) then mret false
    else _ ← delete_row wCerts (λ t w, w <| wCerts := t |>) (crCertId c); mret true) 0 certs 0;
  l ← call (λ w, ReservationRows (wResv w));
  resvCount ← count_each (λ _ r,
    if negb (String.eqb (vTokenId r) id) then mret false
    else _ ← delete_row wResv (λ t w, w <| wResv := t |>) (vReservationId r); mret true) 0 l 0;
  mret (certCount, resvCount)
  end.

(** ** Importing a standalone relay's export (TunIssueImport.go) *)

Definition import_serial (tokenID : string) (now : Z) (serial : string) : M unit :=
  exists_ ← call (λ w, bool_decide (is_Some (rows (wCerts w) !! serial)));
  if exists_ : bool then mret tt
  else _ ← cert_write now POST (mkAgentCert serial tokenID ImportedCommonName 0 0 "" false (unix now)); mret tt.

(** One token with its certificates; [created] is when it was made, in seconds. *)
Definition import_token (now created : Z) (rec : TokenRecord) : M bool :=
  policy ← lift ErrConv (PolicyFromAuth (TPolicy rec));
  exists_ ← call (λ w, bool_decide (is_Some (rows (wTokens w) !! ID rec)));
  new ← (if exists_ : bool then mret false
         else _ ← token_write "" now POST
                    (mkTunToken (ID rec) (TName rec) "imported from a standalone relay" (Hash rec) (Some policy) created "");
              mret true);
  _ ← each (import_serial (ID rec) now) (CertSerials rec);
  mret new.

(** [postIfNew] for the two kinds of rows it is used with. *)
Definition import_reservation (fresh : string) (now : Z) (r : Reservation) : M bool :=
  found ← call (λ w, existsb (λ o, String.eqb (vName o) (rvName r)) (range (rows (wResv w))).*2);
  if found : bool then mret false
  else _ ← reservation_write fresh now POST (Claims.mkReservation "" (rvName r) (rvTokenID r) (int32 (rvPort r)) "" (unix now)); mret true.

Definition import_key (fresh : string) (now : Z) (k : GatewayKey) : M bool :=
  found ← call (λ w, existsb (λ o, String.eqb (gkFingerprint o) (Fingerprint k)) (range (rows (wKeys w))).*2);
  if found : bool then mret false
  else _ ← key_write fresh now POST (mkGwKey "" (KName k) (PublicKey k) "" (Tunnels k) (unix now)); mret true.

(** [fresh i] is the key made up for the [i]-th new row of a service; the dates
of the export's records are left out: [now] stands for them. *)
Definition importExport (parsed : option Export) (fresh : nat → string) (now : Z) : M (Z * Z * Z) :=
  exp ← lift ErrExport (ParseExport parsed);
  tokens ← count_each (λ _ rec, import_token now (unix now) rec) 0 (exTokens exp) 0;
  resv ← count_each (λ i r, import_reservation (fresh i) now r) 0 (exReservations exp) 0;
  keys ← count_each (λ i k, import_key (fresh i) now k) 0 (exGatewayKeys exp) 0;
  mret (tokens, resv, keys).
End manage.
