(* ===== verification/Certs.v ===== *)
(** * Certificates (go/tunnel/certs, SummarizeCert of go/tunnel/edgeconf,
CheckCertPath of go/tun/common)

A relay in the cluster serves one certificate that can be replaced
([Dynamic]); the edge serves one per domain, chosen by the name the client asks
for ([Set]); a standalone relay has a certificate of its own or gets them from
an ACME service. Parsing certificates and checking host names against them is
x509's work: the class [X509]. Certificates of a [Set] are pointers: two names
of a domain share one, and removing a domain drops the names that point to its
certificate. *)

From S2P Require Import Prelude GoStrings Base64 Protocol Access EdgeConf Manage.
From stdpp Require Import options.
From Stdlib Require Import Ascii.
#[local] Open Scope l8_scope.
#[local] Open Scope Z_scope.

(** The leaf of a chain, with what the code reads of it. *)
Record Leaf := mkLeaf {
  lSubject : string;
  lDNSNames : list string;
  lIssuer : string;
  lNotBefore : Z;
  lNotAfter : Z;
  lRaw : string;
}.
(** [tls.X509KeyPair] with the leaf it parses, and [VerifyHostname]. *)
Class X509 := {
  X509KeyPair : string → string → option Leaf;
  VerifyHostname : Leaf → string → bool;
}.

(** ** Storage paths (files.go) *)

(** [path.Clean]: the elements that stay, last first. *)
Fixpoint clean_elems (rooted : bool) (out : list string) (elems : list string) : list string :=
  match elems with
  | [] => out
  | x :: elems =>
      if String.eqb x "" || String.eqb x "." then clean_elems rooted out elems
      else if String.eqb x ".." then
        match out with
        | y :: out' => if String.eqb y ".." then clean_elems rooted (x :: out) elems else clean_elems rooted out' elems
        | [] => clean_elems rooted (if rooted then [] else [x]) elems
        end
      else clean_elems rooted (x :: out) elems
  end.
Definition Clean (p : string) : string :=
  let rooted := HasPrefix "/" p in
  let body := JoinByte "/"%char (reverse (clean_elems rooted [] (SplitByte "/"%char p))) in
  if rooted then "/" +:+ body else if String.eqb body "" then "." else body.

Definition CertStoragePrefix : string := "/data/l8files/edgecert/".
Definition CheckCertPath (p : string) : bool :=
  negb (negb (String.eqb (Clean p) p) || negb (HasPrefix CertStoragePrefix (Clean p)) || StrContains ".." p).

(** [FetchFile]; [answer] is what the file store returns for a path: an error
or the data. *)
Definition FetchFile (answer : string → option string) (p : string) : option string :=
  if negb (CheckCertPath p) then None
  else data ← answer p; if String.eqb data "" then None else Some data.

(** ** Summaries of uploaded certificates (edgeconf/certs.go) *)

(** [hex.EncodeToString] *)
Definition hex_char (n : N) : ascii := ascii_of_N (if (n <? 10)%N then 48 + n else 87 + n).
Fixpoint hex_string (s : string) : string :=
  match s with
  | "" => ""
  | String c s => String (hex_char (code c / 16)) (String (hex_char (code c mod 16)) (hex_string s))
  end.

Definition ExpiringWithin : Z := 30 * 24 * hour.

Record CertSummary := mkSummary {
  smSubject : string; smSANs : list string; smIssuer : string; smNotAfter : Z; smFingerprint : string; smStatus : EdgeCertStatus;
}.

(** A pointer to a certificate. *)
Abbreviation cref := nat.

Section certs.
Context `{GoUnicode, GoFold, Crypto, X509}.

Definition covers (leaf : Leaf) (name : string) : bool :=
  if HasPrefix "*." name then existsb (λ san, EqualFold san name) (lDNSNames leaf)
  else VerifyHostname leaf name.

Definition cert_status (leaf : Leaf) (names : list string) (now : Z) : EdgeCertStatus :=
  if existsb (λ n, negb (covers leaf n)) names then EDGE_CERT_STATUS_MISMATCH
  else if lNotAfter leaf <? now then EDGE_CERT_STATUS_EXPIRED
  else if now <? lNotBefore leaf then EDGE_CERT_STATUS_MISMATCH
  else if lNotAfter leaf - now <? ExpiringWithin then EDGE_CERT_STATUS_EXPIRING
  else EDGE_CERT_STATUS_VALID.

(** [Problem] is left out: it is set exactly for MISMATCH and EXPIRED. *)
Definition SummarizeCert (certPEM keyPEM : string) (names : list string) (now : Z) : option CertSummary :=
  leaf ← X509KeyPair certPEM keyPEM;
  Some (mkSummary (lSubject leaf) (lDNSNames leaf) (lIssuer leaf) (lNotAfter leaf) (hex_string (sha256 (lRaw leaf)))
          (cert_status leaf names now)).

(** ** The relay's certificate (dynamic.go) *)

Definition Dynamic : Type := option Leaf.
(** Whether it worked; the old one stays on error. *)
Definition dyn_Set (certPEM keyPEM : string) (d : Dynamic) : Dynamic * bool :=
  match X509KeyPair certPEM keyPEM with Some leaf => (Some leaf, true) | None => (d, false) end.
Definition Loaded (d : Dynamic) : bool := bool_decide (is_Some d).
Definition NotAfter (d : Dynamic) : Z := match d with Some leaf => lNotAfter leaf | None => zeroTime end.
Definition dyn_GetCertificate (d : Dynamic) : option Leaf := d.
Definition CanServe (d : Dynamic) (host : string) : bool :=
  match d with Some leaf => VerifyHostname leaf host | None => false end.

(** ** The edge's certificates (set.go) *)

Record CertSet := mkSet {
  byKey : gmap string cref;    (* domain ID -> certificate *)
  names : gmap string cref;    (* served name -> certificate *)
  heap : list Leaf;            (* what the pointers point to *)
}.
#[export] Instance eta_certset : Eta CertSet := λ s, mkSet (byKey s) (names s) (heap s).

Definition NewSet : CertSet := mkSet ∅ ∅ [].

Definition removeLocked (key : string) (s : CertSet) : CertSet :=
  match byKey s !! key with
  | None => s
  | Some old => s <| byKey := delete key (byKey s) |> <| names := filter (λ p, p.2 ≠ old) (names s) |>
  end.

Definition Put (key certPEM keyPEM : string) (ns : list string) (s : CertSet) : CertSet * bool :=
  match X509KeyPair certPEM keyPEM with
  | None => (s, false)
  | Some leaf =>
      let pair := length (heap s) in
      let s := removeLocked key (s <| heap := heap s ++ [leaf] |>) in
      let s := s <| byKey := <[key := pair]> (byKey s) |> in
      (s <| names := foldl (λ m n, <[ToLower n := pair]> m) (names s) ns |>, true)
  end.

Definition Remove (key : string) (s : CertSet) : CertSet := removeLocked key s.

Definition Keys `{MapRange} (s : CertSet) : list string := (range (byKey s)).*1.

(** The wildcard that covers a name with a dot past its start. *)
Definition wildcard (name : string) : option string :=
  '(label, rest) ← CutByte "."%char name;
  if String.eqb label "" then None else Some ("*." +:+ rest).

Definition GetCertificate (serverName : string) (s : CertSet) : option Leaf :=
  let name := ToLower (TrimSuffix "." serverName) in
  match names s !! name with
  | Some c => heap s !! c
  | None => w ← wildcard name; c ← names s !! w; heap s !! c
  end.

(** ** Certificates of a standalone relay (certs.go, dns.go) *)

Definition ModeStatic : string := "static".
Definition ModeDNS01 : string := "dns01".
Definition ModeHTTP01 : string := "http01".
Definition DefaultStorage : string := "/var/lib/l8tunnel/acme".

Record CertConfig := mkCertConfig {
  ccMode : string;
  ccCertFile : string;
  ccKeyFile : string;
  ccEmail : string;
  ccCA : string;
  ccCARootFile : string;
  ccStorage : string;
  ccHTTPListenAddr : string;
  ccDNSProvider : string;
  ccDNSCredentials : gmap string string;
  ccBaseDomain : string;
  ccControlSNI : string;
}.

Inductive certs_err :=
| TlsFiles | TlsExpired | EmailRequired | NamesRequired | ProviderRequired | ProviderUnsupported (name : string)
| CredentialRequired (key : string) | CredentialUnknown (key : string) | OnlyDNS01 | ChallengeListener | ChallengePort
| CARootFile | CARootEmpty | Obtain (names : list string) | BadMode (mode : string).

Definition parseChallengeAddr (addr : string) : result certs_err (string * Z) :=
  match SplitHostPort addr with
  | None => Err ChallengeListener
  | Some (host, port) =>
      match Atoi port with
      | None => Err ChallengePort
      | Some p => refuse! (p =? 0) with ChallengePort ;; Ok (host, p)
      end
  end.

Definition coveredByWildcard (name base : string) : bool :=
  match CutSuffix ("." +:+ base) name with
  | Some label => negb (String.eqb label "") && negb (StrContains "." label)
  | None => false
  end.

(** The credential reported when several are unknown depends on the map's order. *)
Definition requireCredentials `{MapRange} (creds : gmap string string) (required : list string) : result certs_err unit :=
  match List.find (λ key, String.eqb (default "" (creds !! key)) "") required with
  | Some key => Err (CredentialRequired key)
  | None =>
      match List.find (λ '(key, _), negb (existsb (String.eqb key) required)) (range creds) with
      | Some (key, _) => Err (CredentialUnknown key)
      | None => Ok tt
      end
  end.

(** The one provider there is: its API token. *)
Definition newDNSProvider `{MapRange} (name : string) (creds : gmap string string) : result certs_err string :=
  refuse! String.eqb name "" with ProviderRequired ;;
  refuse! negb (String.eqb name "cloudflare") with ProviderUnsupported name ;;
  match requireCredentials creds ["api_token"] with
  | Err e => Err e
  | Ok _ => Ok (default "" (creds !! "api_token"))
  end.

(** Which certificates a client gets: those of the relay's own names, or a
custom domain's, obtained when first asked for. *)
Inductive cert_source := BaseCerts | CustomCerts.

(** What [New] sets up: the certificate file's leaf; or the names obtained at the
start, whether other names are obtained on demand and by which of the two
configurations, whether HTTP challenges are answered. *)
Inductive Manager :=
| StaticManager (leaf : Leaf)
| AcmeManager (cfg : CertConfig) (names : list string) (onDemand : option cert_source) (challenges : bool).

Definition underBase (cfg : CertConfig) (name : string) : bool :=
  String.eqb name (ccControlSNI cfg) || String.eqb name ("*." +:+ ccBaseDomain cfg) || coveredByWildcard name (ccBaseDomain cfg).

(** [production] is certmagic's name of Let's Encrypt; [roots]: the certificates of the root file can be read, and are some;
[manage]: certmagic's [ManageSync] obtains certificates for the names. *)
Definition newACME `{MapRange} (production : string) (roots : string → option bool) (manage : list string → bool) (cfg : CertConfig)
    : result certs_err Manager :=
  refuse! String.eqb (ccEmail cfg) "" with EmailRequired ;;
  refuse! String.eqb (ccBaseDomain cfg) "" || String.eqb (ccControlSNI cfg) "" with NamesRequired ;;
  let dns := String.eqb (ccMode cfg) ModeDNS01 in
  let http := String.eqb (ccMode cfg) ModeHTTP01 in
  match (if dns then match newDNSProvider (ccDNSProvider cfg) (ccDNSCredentials cfg) with Err e => Err e | Ok _ => Ok tt end
         else if http then
           refuse! negb (String.eqb (ccDNSProvider cfg) "") || negb (bool_decide (ccDNSCredentials cfg = ∅)) with OnlyDNS01 ;; Ok tt
         else Ok tt) with
  | Err e => Err e
  | Ok _ =>
  let addr := parseChallengeAddr (ccHTTPListenAddr cfg) in
  match addr, http with
  | Err e, true => Err e
  | _, _ =>
  match (if String.eqb (ccCARootFile cfg) "" then Ok tt
         else match roots (ccCARootFile cfg) with
              | None => Err CARootFile | Some false => Err CARootEmpty | Some true => Ok tt
              end) with
  | Err e => Err e
  | Ok _ =>
  let cfg := mkCertConfig (ccMode cfg) (ccCertFile cfg) (ccKeyFile cfg) (ccEmail cfg)
    (if String.eqb (ccCA cfg) "" then production else ccCA cfg) (ccCARootFile cfg)
    (if String.eqb (ccStorage cfg) "" then DefaultStorage else ccStorage cfg) (ccHTTPListenAddr cfg)
    (ccDNSProvider cfg) (ccDNSCredentials cfg) (ccBaseDomain cfg) (ccControlSNI cfg) in
  let ns := if dns
            then ("*." +:+ ccBaseDomain cfg) ::
                 (if coveredByWildcard (ccControlSNI cfg) (ccBaseDomain cfg) then [] else [ccControlSNI cfg])
            else [ccControlSNI cfg] in
  refuse! negb (manage ns) with Obtain ns ;;
  Ok (if http then AcmeManager cfg ns (Some BaseCerts) true
      else if is_ok addr then AcmeManager cfg ns (Some CustomCerts) true
      else AcmeManager cfg ns None false)
  end end end.

(** [New]; [files] are the certificate files' contents. *)
Definition certs_New `{MapRange} (files : option Leaf) (now : Z) (production : string) (roots : string → option bool) (manage : list string → bool)
    (cfg : CertConfig) : result certs_err Manager :=
  if String.eqb (ccMode cfg) ModeStatic then
    match files with
    | None => Err TlsFiles
    | Some leaf => refuse! (lNotAfter leaf <? now) with TlsExpired ;; Ok (StaticManager leaf)
    end
  else if String.eqb (ccMode cfg) ModeDNS01 || String.eqb (ccMode cfg) ModeHTTP01 then newACME production roots manage cfg
  else Err (BadMode (ccMode cfg)).

(** [CanServe] *)
Definition mgr_CanServe (m : Manager) (host : string) : bool :=
  match m with
  | StaticManager leaf => VerifyHostname leaf host
  | AcmeManager _ _ onDemand _ => bool_decide (is_Some onDemand)
  end.

(** [hostAllowed]: what on-demand certificates are asked for; [allow] is the
relay's policy, once it is set. *)
Definition hostAllowed (allow : option (string → bool)) (host : string) : bool :=
  match allow with Some allow => allow host | None => false end.

(** Whose certificate a client that asks for [serverName] gets, and whether one
may be obtained for it when there is none. *)
Definition mgr_source (m : Manager) (serverName : string) : cert_source :=
  match m with
  | AcmeManager cfg _ (Some CustomCerts) _ => if underBase cfg (ToLower serverName) then BaseCerts else CustomCerts
  | _ => BaseCerts
  end.
Definition mgr_obtains (m : Manager) (allow : option (string → bool)) (serverName : string) : bool :=
  match m with
  | AcmeManager _ _ (Some src) _ =>
      match src, mgr_source m serverName with
      | BaseCerts, BaseCerts | CustomCerts, CustomCerts => hostAllowed allow serverName
      | _, _ => false
      end
  | _ => false
  end.

(** [watchExpiry]'s check *)
Definition ExpiryWarning : Z := 21 * 24 * hour.
Inductive expiry_log := LogExpired | LogExpiresSoon (days : Z).
Definition watch_check (leaf : Leaf) (now : Z) : option expiry_log :=
  let left := lNotAfter leaf - now in
  if left <=? 0 then Some LogExpired
  else if left <? ExpiryWarning then Some (LogExpiresSoon (left / hour / 24)) else None.
End certs.
