(* ===== verification/CertsSpec.v ===== *)
(** * The certificates clients get (go/tunnel/certs) *)

From S2P Require Import Prelude GoStrings Base64 Protocol Access EdgeConf Manage Certs.
From stdpp Require Import options.
From Stdlib Require Import Ascii.
#[local] Open Scope l8_scope.
#[local] Open Scope Z_scope.

(** The abstract set: the certificate and names of each domain. *)
Abbreviation sites := (gmap string (Leaf * list string)).

Section set.
Context `{GoUnicode, GoFold, Crypto, X509}.

(** ** What the set promises *)

Definition site_names (p : Leaf * list string) : list string := ToLower <$> p.2.
(** [k] lists the name. *)
Definition lists_name (m : sites) (name k : string) (leaf : Leaf) : Prop :=
  ∃ ns, m !! k = Some (leaf, ns) ∧ name ∈ site_names (leaf, ns).
Definition exclusive (m : sites) : Prop :=
  ∀ n k1 k2 l1 l2, lists_name m n k1 l1 → lists_name m n k2 l2 → k1 = k2.

(** A sequence of [Put]s and [Remove]s after each of which [P] holds, with the
abstract set beside it. *)
Inductive reach (P : sites → Prop) : CertSet → sites → Prop :=
| reach_new : reach P NewSet ∅
| reach_put s m key certPEM keyPEM ns leaf s' :
    reach P s m → X509KeyPair certPEM keyPEM = Some leaf → Put key certPEM keyPEM ns s = (s', true) →
    P (<[key := (leaf, ns)]> m) → reach P s' (<[key := (leaf, ns)]> m)
| reach_remove s m key : reach P s m → P (delete key m) → reach P (Remove key s) (delete key m).

(** ** The invariant *)

Record set_inv (s : CertSet) (m : sites) : Prop := mkSetInv {
  si_dom k : is_Some (byKey s !! k) ↔ is_Some (m !! k);
  si_ptr k c : byKey s !! k = Some c → ∃ leaf ns, m !! k = Some (leaf, ns) ∧ heap s !! c = Some leaf;
  si_inj k1 k2 c : byKey s !! k1 = Some c → byKey s !! k2 = Some c → k1 = k2;
  si_names n c : names s !! n = Some c → ∃ k leaf, byKey s !! k = Some c ∧ lists_name m n k leaf;
}.

Lemma set_inv_new : set_inv NewSet ∅.
Proof.
  split; cbn; intros *; rewrite ?lookup_empty; done.
Qed.

Lemma lists_name_delete m key n k leaf : k ≠ key → lists_name m n k leaf → lists_name (delete key m) n k leaf.
Proof. intros Hk (ns & Hm & Hn). exists ns. by rewrite lookup_delete_ne. Qed.

(** The names that stay when a domain's certificate goes. *)
Lemma removeLocked_names key s n c :
  names (removeLocked key s) !! n = Some c ↔ names s !! n = Some c ∧ byKey s !! key ≠ Some c.
Proof.
  unfold removeLocked. destruct (byKey s !! key) as [old|] eqn:He; [|naive_solver].
  cbn. rewrite map_lookup_filter_Some. naive_solver.
Qed.
Lemma removeLocked_byKey key s : byKey (removeLocked key s) = delete key (byKey s).
Proof. unfold removeLocked. destruct (byKey s !! key) eqn:He; [done|]. by rewrite delete_id. Qed.
Lemma removeLocked_heap key s : heap (removeLocked key s) = heap s.
Proof. unfold removeLocked. by destruct (byKey s !! key). Qed.

Lemma set_inv_remove key s m : set_inv s m → set_inv (removeLocked key s) (delete key m).
Proof.
  intros [Hd Hp Hi Hn]. split.
  - intros k. rewrite removeLocked_byKey. destruct (decide (k = key)) as [->|]; [by rewrite !lookup_delete_eq|].
    by rewrite !lookup_delete_ne.
  - intros k c. rewrite removeLocked_byKey, removeLocked_heap. intros [Hk He]%lookup_delete_Some.
    rewrite lookup_delete_ne by done. eauto.
  - intros k1 k2 c. rewrite !removeLocked_byKey. intros [? ?]%lookup_delete_Some [? ?]%lookup_delete_Some. eauto.
  - intros n c [Hc Hne]%removeLocked_names. destruct (Hn n c Hc) as (k & leaf & Hk & Hl).
    assert (k ≠ key) as Hkk by (intros ->; done).
    exists k, leaf. rewrite removeLocked_byKey, lookup_delete_ne by done. eauto using lists_name_delete.
Qed.

Lemma fold_names (pair : cref) ns (m : gmap string cref) n c :
  (foldl (λ m n, <[ToLower n := pair]> m) m ns) !! n = Some c ↔
  n ∈ (ToLower <$> ns) ∧ c = pair ∨ (n ∉ (ToLower <$> ns)) ∧ m !! n = Some c.
Proof.
  revert m. induction ns as [|x ns IH]; intros m; cbn [foldl fmap list_fmap].
  { set_solver. }
  rewrite IH, lookup_insert_Some. rewrite elem_of_cons. destruct (decide (n = ToLower x)) as [->|Hx].
  - destruct (decide (ToLower x ∈ ToLower <$> ns)); naive_solver.
  - naive_solver.
Qed.

(** What a [Put] that works leaves. *)
Lemma Put_ok key certPEM keyPEM ns s s' leaf :
  X509KeyPair certPEM keyPEM = Some leaf → Put key certPEM keyPEM ns s = (s', true) →
  let pair := length (heap s) in
  byKey s' = <[key := pair]> (byKey s) ∧ heap s' = heap s ++ [leaf] ∧
  ∀ n c, names s' !! n = Some c ↔
    n ∈ (ToLower <$> ns) ∧ c = pair ∨ (n ∉ (ToLower <$> ns)) ∧ names s !! n = Some c ∧ byKey s !! key ≠ Some c.
Proof.
  intros Hx Hp pair. unfold Put in Hp. rewrite Hx in Hp. injection Hp as <-. cbn.
  rewrite removeLocked_byKey, removeLocked_heap, insert_delete_eq. cbn. split_and!; [done..|].
  intros n c. rewrite fold_names, removeLocked_names. done.
Qed.

Lemma set_inv_lt s m k c : set_inv s m → byKey s !! k = Some c → (c < length (heap s))%nat.
Proof. intros Hs Hk. destruct (si_ptr s m Hs k c Hk) as (leaf & ns & _ & Hh). by apply lookup_lt_Some in Hh. Qed.

Lemma set_inv_put key certPEM keyPEM ns s s' m leaf :
  set_inv s m → X509KeyPair certPEM keyPEM = Some leaf → Put key certPEM keyPEM ns s = (s', true) →
  set_inv s' (<[key := (leaf, ns)]> m).
Proof.
  intros Hs Hx Hp. destruct (Put_ok key certPEM keyPEM ns s s' leaf Hx Hp) as (Hb & Hh & Hn). cbn in Hb, Hn.
  pose proof (λ k c, set_inv_lt s m k c Hs) as Hlt. destruct Hs as [Hd Hptr Hi Hns]. split.
  - intros k. rewrite Hb. destruct (decide (k = key)) as [->|]; [by rewrite !lookup_insert_eq|].
    rewrite !lookup_insert_ne by done. apply Hd.
  - intros k c. rewrite Hb, Hh. intros [[<- <-]|[Hk Hc]]%lookup_insert_Some.
    { exists leaf, ns. rewrite lookup_insert_eq, list_lookup_middle by done. done. }
    destruct (Hptr k c Hc) as (leaf' & ns' & Hm & Hl). exists leaf', ns'. rewrite lookup_insert_ne by done.
    split; [done|]. by apply lookup_app_l_Some.
  - intros k1 k2 c. rewrite Hb. intros [[<- <-]|[Hk1 Ha]]%lookup_insert_Some [[Hk2 Hb2]|[Hk2 Hb2]]%lookup_insert_Some; try done.
    + apply Hlt in Hb2. lia.
    + subst. apply Hlt in Ha. lia.
    + eauto.
  - intros n c [[Hin ->]|(Hin & Hc & Hne)]%Hn.
    + exists key, leaf. rewrite Hb, lookup_insert_eq. split; [done|]. exists ns. by rewrite lookup_insert_eq.
    + destruct (Hns n c Hc) as (k & leaf' & Hk & (ns' & Hm & Hl)). assert (key ≠ k) as Hkk by (intros ->; done).
      exists k, leaf'. rewrite Hb, lookup_insert_ne by done. split; [done|]. exists ns'. by rewrite lookup_insert_ne.
Qed.

Lemma reach_inv P s m : reach P s m → set_inv s m.
Proof. induction 1; eauto using set_inv_new, set_inv_put, set_inv_remove. Qed.

(** Where no two domains list a name, every listed name is served. *)
Lemma reach_complete P s m :
  (∀ m, P m → exclusive m) → reach P s m →
  ∀ n k leaf, lists_name m n k leaf → ∃ c, byKey s !! k = Some c ∧ names s !! n = Some c.
Proof.
  intros HP Hr. induction Hr as [|s m key certPEM keyPEM ns leaf s' Hr IH Hx Hp HPm|s m key Hr IH HPm].
  - intros n k leaf (ns & Hm & _). by rewrite lookup_empty in Hm.
  - intros n k leaf' Hl. destruct (Put_ok key certPEM keyPEM ns s s' leaf Hx Hp) as (Hb & _ & Hn). cbn in Hb, Hn.
    rewrite Hb. destruct (decide (n ∈ (ToLower <$> ns))) as [Hin|Hin].
    + assert (lists_name (<[key := (leaf, ns)]> m) n key leaf) as Hl' by (exists ns; by rewrite lookup_insert_eq).
      rewrite (HP _ HPm n k key _ _ Hl Hl'). exists (length (heap s)). rewrite lookup_insert_eq. split; [done|]. apply Hn. auto.
    + destruct Hl as (ns' & [[<- [= <- <-]]|[Hk Hm]]%lookup_insert_Some & Hin'); [done|].
      destruct (IH n k leaf') as (c & Hc & Hc'); [by exists ns'|]. exists c. rewrite lookup_insert_ne by done.
      split; [done|]. apply Hn. right. split_and!; [done..|]. intros Hkey.
      by apply Hk, (si_inj s m (reach_inv P s m Hr) key k c).
  - intros n k leaf (ns & [Hk Hm]%lookup_delete_Some & Hin). destruct (IH n k leaf) as (c & Hc & Hc'); [by exists ns|].
    exists c. unfold Remove. rewrite removeLocked_byKey, lookup_delete_ne by done. split; [done|]. apply removeLocked_names.
    split; [done|]. intros Hkey. by apply Hk, (si_inj s m (reach_inv P s m Hr) key k c).
Qed.

(** The name a client's server name stands for. *)
Definition asked (serverName : string) : string := ToLower (TrimSuffix "." serverName).
(** The domain lists the name, or its wildcard where nobody lists the name. *)
Definition answers (m : sites) (name k : string) (leaf : Leaf) : Prop :=
  lists_name m name k leaf ∨
  (∀ k' l', ¬ lists_name m name k' l') ∧ ∃ w, wildcard name = Some w ∧ lists_name m w k leaf.

Lemma names_leaf s m n c : set_inv s m → names s !! n = Some c → ∃ k leaf, lists_name m n k leaf ∧ heap s !! c = Some leaf.
Proof.
  intros Hs Hn. destruct (si_names s m Hs n c Hn) as (k & leaf & Hk & Hl). exists k, leaf. split; [done|].
  destruct (si_ptr s m Hs k c Hk) as (leaf' & ns & Hm & Hh), Hl as (ns' & Hm' & _). congruence.
Qed.

Lemma names_served P s m n k leaf :
  (∀ m, P m → exclusive m) → reach P s m → lists_name m n k leaf → ∃ c, names s !! n = Some c ∧ heap s !! c = Some leaf.
Proof.
  intros HP Hr Hl. destruct (reach_complete P s m HP Hr n k leaf Hl) as (c & Hk & Hn). exists c. split; [done|].
  destruct (si_ptr s m (reach_inv P s m Hr) k c Hk) as (leaf' & ns & Hm & Hh), Hl as (ns' & Hm' & _). congruence.
Qed.

(** Both directions for a sequence of changes. *)
Lemma reach_answers P s m serverName :
  reach P s m →
  (∀ leaf, GetCertificate serverName s = Some leaf → ∃ n k, lists_name m n k leaf ∧
     (n = asked serverName ∨ wildcard (asked serverName) = Some n)) ∧
  ((∀ m, P m → exclusive m) →
   ∀ leaf, GetCertificate serverName s = Some leaf ↔ ∃ k, answers m (asked serverName) k leaf).
Proof.
  intros Hr. pose proof (reach_inv P s m Hr) as Hs. unfold GetCertificate. fold (asked serverName).
  set (name := asked serverName). split.
  - intros leaf Hg. destruct (names s !! name) as [c|] eqn:Hn.
    + destruct (names_leaf s m name c Hs Hn) as (k & leaf' & Hl & Hh). rewrite Hg in Hh. simplify_eq. eauto.
    + destruct (wildcard name) as [w|] eqn:Hw; [|done]. cbn in Hg. destruct (names s !! w) as [c|] eqn:Hc; [|done]. cbn in Hg.
      destruct (names_leaf s m w c Hs Hc) as (k & leaf' & Hl & Hh). rewrite Hg in Hh. simplify_eq. eauto.
  - intros HP leaf. destruct (names s !! name) as [c|] eqn:Hn.
    + destruct (names_leaf s m name c Hs Hn) as (k & leaf' & Hl & Hh). rewrite Hh. split; [intros [= <-]; by exists k; left|].
      intros (k' & [Hl'|[Hno _]]); [|by destruct (Hno k leaf')].
      destruct (names_served P s m name k' leaf HP Hr Hl') as (c' & Hn' & Hh'). congruence.
    + assert (∀ k' l', ¬ lists_name m name k' l') as Hno.
      { intros k' l' Hl. destruct (names_served P s m name k' l' HP Hr Hl) as (c & Hc & _). congruence. }
      split.
      * destruct (wildcard name) as [w|] eqn:Hw; [|done]. cbn. destruct (names s !! w) as [c|] eqn:Hc; [|done]. cbn. intros Hg.
        destruct (names_leaf s m w c Hs Hc) as (k & leaf' & Hl & Hh). exists k. right. split; [done|]. exists w.
        rewrite Hg in Hh. by simplify_eq.
      * intros (k & [Hl|(_ & w & -> & Hl)]); [by destruct (Hno k leaf)|]. cbn.
        destruct (names_served P s m w k leaf HP Hr Hl) as (c & -> & Hh). done.
Qed.

(** A state of the set that is reached with exclusive names has them. *)
Lemma exclusive_empty : exclusive ∅.
Proof. intros n k1 k2 l1 l2 (ns & Hm & _). by rewrite lookup_empty in Hm. Qed.
Lemma reach_exclusive s m : reach exclusive s m → exclusive m.
Proof. destruct 1; [apply exclusive_empty|done..]. Qed.

(** the edge presents a domain's own certificate, never another's. Over any
sequence of loaded and dropped certificates, a client only gets the current
certificate of a domain that lists the name it asks for (in any case, with or
without the final dot) or its wildcard. And if at no time two domains listed
the same name, it gets exactly the certificate of the domain that lists the
name, else of the domain that lists its wildcard, else none. *)
Theorem cert_set_refines P s m serverName :
  reach P s m →
  (∀ leaf, GetCertificate serverName s = Some leaf → ∃ n k, lists_name m n k leaf ∧
     (n = asked serverName ∨ wildcard (asked serverName) = Some n)) ∧
  ((∀ m, P m → exclusive m) →
   ∀ leaf, GetCertificate serverName s = Some leaf ↔ ∃ k, answers m (asked serverName) k leaf).
Proof. apply reach_answers. Qed.
End set.
