(* ===== verification/ServerConf.v ===== *)
(** * Configuration of relays and clusters (go/tunnel/config server.go,
cluster.go and expandEnv, go/tunnel/relay config.go and server.go)

[server.yaml] and [cluster.yaml] after decoding, how they become the relay's
configuration, what [relay.New] checks and starts with, and its listeners.
Reading files, the environment, certificates and sockets are arguments. *)

From S2P Require Import Prelude GoStrings Base64 Regex Protocol Policy NetIP Limiter Access Claims NameRegistry RelayTunnels RelayServe Store Certs.
From stdpp Require Import options.
From Stdlib Require Import Ascii QArith.
#[local] Open Scope l8_scope.
#[local] Open Scope Z_scope.
Import Rules.

(** ** Environment references (config.go) *)

(** [[A-Za-z_][A-Za-z0-9_]*] *)
Definition env_name : regex :=
  RSeq (RClass (λ c, is_lower c || is_upper c || Ascii.eqb c "_"))
       (RMany (RClass (λ c, is_lower c || is_upper c || is_digit c || Ascii.eqb c "_"))).
(** The name in [^\$\{(name)\}$] *)
Definition envRef (value : string) : option string :=
  rest ← CutPrefix "${" value; name ← CutSuffix "}" rest;
  if MatchString env_name name then Some name else None.

Definition expandEnv (env : string → option string) (value : string) : option string :=
  match envRef value with None => Some value | Some name => env name end.

Definition defaultListen : string := ":443".
Definition defaultHTTPListen : string := ":80".
Definition defaultTCPPortRange : string := "22000-22999".
Definition listenOff : string := "off".

(** ** cluster.yaml *)

Record ClusterFile := mkClusterFile {
  cfBaseDomain : string;
  cfControlSNI : string;
  cfAuthHost : string;
  cfReservedNames : list string;
  cfTCPPortRange : string;
  pubHTTPS : Z; pubHTTP : Z; pubGateway : Z;
  relTLS : Z; relHTTP : Z; relStream : Z; relGateway : Z; relOps : Z;
  cfTrustedProxies : list string;
  cfSecretDir : string;
  edgeOps : Z;
}.
#[export] Instance eta_clusterfile : Eta ClusterFile := λ f,
  mkClusterFile (cfBaseDomain f) (cfControlSNI f) (cfAuthHost f) (cfReservedNames f) (cfTCPPortRange f)
    (pubHTTPS f) (pubHTTP f) (pubGateway f) (relTLS f) (relHTTP f) (relStream f) (relGateway f) (relOps f)
    (cfTrustedProxies f) (cfSecretDir f) (edgeOps f).

Inductive cluster_err :=
| ClusterBase (e : name_err) | ClusterReserved (n : string) | ClusterPorts (e : name_err) | ClusterProxies (p : string)
| ClusterPort (name : string) (p : Z) | ClusterHTTP (p : Z) | ClusterGateway (p : Z).

Definition DefaultClusterSecretDir : string := "/etc/l8tunnel/cluster-secret".
Definition DefaultRelayTLSPort : Z := 8443.
Definition DefaultRelayHTTPPort : Z := 8080.
Definition DefaultRelayStreamPort : Z := 8444.
Definition DefaultRelayOpsPort : Z := 9100.
Definition DefaultEdgeOpsPort : Z := 9180.

Definition setDefault (p v : Z) : Z := if p =? 0 then v else p.
Definition bad_port (p : Z) : bool := (p <? 1) || (65535 <? p).

Section conf.
Context `{GoUnicode, Crypto, X509, MapRange}.

(** The fields set before the ports are looked at. *)
Definition normal_cluster_names (f : ClusterFile) : ClusterFile :=
  let f := f <| cfBaseDomain := ToLower (TrimSuffix "." (cfBaseDomain f)) |> in
  let f := if String.eqb (cfControlSNI f) "" then f <| cfControlSNI := "connect." +:+ cfBaseDomain f |> else f in
  let f := f <| cfControlSNI := ToLower (cfControlSNI f) |> <| cfAuthHost := ToLower (cfAuthHost f) |> in
  if String.eqb (cfTCPPortRange f) "" then f <| cfTCPPortRange := defaultTCPPortRange |> else f.
Definition default_ports (f : ClusterFile) : ClusterFile :=
  f <| pubHTTPS := setDefault (pubHTTPS f) 443 |> <| pubHTTP := setDefault (pubHTTP f) 80 |>
    <| relTLS := setDefault (relTLS f) DefaultRelayTLSPort |> <| relHTTP := setDefault (relHTTP f) DefaultRelayHTTPPort |>
    <| relStream := setDefault (relStream f) DefaultRelayStreamPort |> <| relGateway := setDefault (relGateway f) 2222 |>
    <| relOps := setDefault (relOps f) DefaultRelayOpsPort |> <| edgeOps := setDefault (edgeOps f) DefaultEdgeOpsPort |>.

(** The ports of a map: which wrong one is reported is up to the map's order. *)
Definition named_ports (f : ClusterFile) : list (string * Z) :=
  [("public.https", pubHTTPS f); ("relay.tls", relTLS f); ("relay.http", relHTTP f);
   ("relay.stream", relStream f); ("relay.gateway", relGateway f); ("relay.ops", relOps f)].

Definition normalize (f : ClusterFile) : result cluster_err ClusterFile :=
  let f := normal_cluster_names f in
  match NormalizeDomain (cfBaseDomain f) with
  | Err e => Err (ClusterBase e)
  | Ok _ =>
  match List.find (λ n, negb (ValidName n)) (cfReservedNames f) with
  | Some n => Err (ClusterReserved n)
  | None =>
  match ParsePortRange (cfTCPPortRange f) with
  | Err e => Err (ClusterPorts e)
  | Ok _ =>
  let f := if String.eqb (cfSecretDir f) "" then f <| cfSecretDir := DefaultClusterSecretDir |> else f in
  match ParsePrefixes (cfTrustedProxies f) with
  | Err p => Err (ClusterProxies p)
  | Ok _ =>
  let f := default_ports f in
  match List.find (λ '(_, p), bad_port p) (named_ports f) with
  | Some (name, p) => Err (ClusterPort name p)
  | None =>
  refuse! negb (pubHTTP f =? -1) && bad_port (pubHTTP f) with ClusterHTTP (pubHTTP f) ;;
  refuse! (pubGateway f <? 0) || (65535 <? pubGateway f) with ClusterGateway (pubGateway f) ;;
  Ok f
  end end end end end.

Definition port_range (s : string) : Z * Z := match ParsePortRange s with Ok r => r | Err _ => (0, 0) end.

Definition cluster_Rules (f : ClusterFile) : Rules :=
  let '(lo, hi) := port_range (cfTCPPortRange f) in
  mkRules (cfBaseDomain f) (cfControlSNI f) (cfAuthHost f) (cfReservedNames f) lo hi.

Definition TrustedPrefixes (f : ClusterFile) : list Prefix :=
  match ParsePrefixes (cfTrustedProxies f) with Ok l => l | Err _ => [] end.

(** ** The relay's configuration (relay/config.go) *)

Record GatewayConfig := mkGatewayConfig { gListen : string; gHostKey : bool; gKeys : bool }.
Record RateLimits := mkRates { ConnectionsPerSecond : Q; ConnectionsBurst : Z; AuthFailuresPerMinute : Z }.

(** [rcTLS]: the certificates of the TLS configuration, and whether it chooses
one per connection. *)
Record RelayConfig := mkRelayConfig {
  rcControlAddr : string;
  rcHTTPAddr : string;
  rcPublicHTTPSPort : Z;
  rcDisableForwardedHeaders : bool;
  rcAccessLog : bool;
  rcStreamAddr : string;
  rcCluster : option ClusterLink;
  rcSSHGateway : option GatewayConfig;
  rcLogin : option LoginService;
  rcTLS : option (list Leaf * bool);
  rcCanServeHost : option (string → bool);
  rcBaseDomain : string;
  rcControlSNI : string;
  rcTokens : bool;
  rcReservations : list Reservation;
  rcReservedNames : list string;
  rcRateLimits : RateLimits;
  rcTrustedProxies : list Prefix;
  rcPublicHost : string;
  rcBindHost : string;
  rcPortMin : Z;
  rcPortMax : Z;
  rcHeartbeatInterval : Z;
  rcNameGracePeriod : Z;
}.
#[export] Instance eta_relayconfig : Eta RelayConfig := λ c,
  mkRelayConfig (rcControlAddr c) (rcHTTPAddr c) (rcPublicHTTPSPort c) (rcDisableForwardedHeaders c) (rcAccessLog c)
    (rcStreamAddr c) (rcCluster c) (rcSSHGateway c) (rcLogin c) (rcTLS c) (rcCanServeHost c) (rcBaseDomain c)
    (rcControlSNI c) (rcTokens c) (rcReservations c) (rcReservedNames c) (rcRateLimits c) (rcTrustedProxies c)
    (rcPublicHost c) (rcBindHost c) (rcPortMin c) (rcPortMax c) (rcHeartbeatInterval c) (rcNameGracePeriod c).

Definition DefaultHeartbeatInterval : Z := 15 * second.
Definition DefaultNameGracePeriod : Z := 5 * minute.
Definition DefaultConnectionsPerSecond : Q := 20.
Definition DefaultConnectionsBurst : Z := 100.
Definition DefaultAuthFailuresPerMinute : Z := 5.

Inductive relay_conf_err :=
| NoControlAddr | NoTLS | BadPublicPort (p : Z) | BadReservedName (n : string) | NoTokens | NoStreamAddr
| BadBaseDomain (d : string) | NegativeDuration | BadPortRange (lo hi : Z) | NegativeRate | BadGateway
| BadReservation (name : string).

Definition relay_rules (c : RelayConfig) : Rules :=
  mkRules (rcBaseDomain c) (rcControlSNI c)
    (match rcLogin c with Some l => ToLower (LoginAuthHost l) | None => "" end)
    (rcReservedNames c) (rcPortMin c) (rcPortMax c).

(** The certificates the relay was given, when nothing else says what it can
serve. *)
Definition serves_host (leaves : list Leaf) (host : string) : bool := existsb (λ leaf, VerifyHostname leaf host) leaves.

Definition default_rates (r : RateLimits) : RateLimits :=
  mkRates (if Qeq_bool (ConnectionsPerSecond r) 0 then DefaultConnectionsPerSecond else ConnectionsPerSecond r)
    (setDefault (ConnectionsBurst r) DefaultConnectionsBurst)
    (setDefault (AuthFailuresPerMinute r) DefaultAuthFailuresPerMinute).

(** The defaults, in the order [validate] sets them. *)
Definition default_serve (leaves : list Leaf) (c : RelayConfig) : RelayConfig :=
  match rcCanServeHost c with Some _ => c | None => c <| rcCanServeHost := Some (serves_host leaves) |> end.
Definition lower_base (c : RelayConfig) : RelayConfig := c <| rcBaseDomain := ToLower (TrimSuffix "." (rcBaseDomain c)) |>.
Definition default_hosts (c : RelayConfig) : RelayConfig :=
  let c := if String.eqb (rcControlSNI c) "" then c <| rcControlSNI := "connect." +:+ rcBaseDomain c |> else c in
  let c := c <| rcControlSNI := ToLower (rcControlSNI c) |> in
  if String.eqb (rcPublicHost c) "" then c <| rcPublicHost := rcBaseDomain c |> else c.
Definition default_times (c : RelayConfig) : RelayConfig :=
  c <| rcHeartbeatInterval := setDefault (rcHeartbeatInterval c) DefaultHeartbeatInterval |>
    <| rcNameGracePeriod := setDefault (rcNameGracePeriod c) DefaultNameGracePeriod |>.

Definition relay_validate (c : RelayConfig) : result relay_conf_err RelayConfig :=
  refuse! String.eqb (rcControlAddr c) "" with NoControlAddr ;;
  match rcTLS c with
  | None => Err NoTLS
  | Some (leaves, choose) =>
  refuse! bool_decide (leaves = []) && negb choose with NoTLS ;;
  refuse! (rcPublicHTTPSPort c <? 0) || (65535 <? rcPublicHTTPSPort c) with BadPublicPort (rcPublicHTTPSPort c) ;;
  match List.find (λ n, negb (ValidName n)) (rcReservedNames c) with
  | Some n => Err (BadReservedName n)
  | None =>
  let c := default_serve leaves c in
  refuse! negb (rcTokens c) with NoTokens ;;
  refuse! bool_decide (is_Some (rcCluster c)) && String.eqb (rcStreamAddr c) "" with NoStreamAddr ;;
  let c := lower_base c in
  refuse! String.eqb (rcBaseDomain c) "" || negb (StrContains "." (rcBaseDomain c)) with BadBaseDomain (rcBaseDomain c) ;;
  let c := default_hosts c in
  refuse! (rcHeartbeatInterval c <? 0) || (rcNameGracePeriod c <? 0) with NegativeDuration ;;
  let c := default_times c in
  refuse! (rcPortMin c <? 1) || (65535 <? rcPortMax c) || (rcPortMax c <? rcPortMin c) with BadPortRange (rcPortMin c) (rcPortMax c) ;;
  refuse! negb (Qle_bool 0 (ConnectionsPerSecond (rcRateLimits c))) || (ConnectionsBurst (rcRateLimits c) <? 0)
          || (AuthFailuresPerMinute (rcRateLimits c) <? 0) with NegativeRate ;;
  let c := c <| rcRateLimits := default_rates (rcRateLimits c) |> in
  refuse! (match rcSSHGateway c with
           | Some g => String.eqb (gListen g) "" || negb (gHostKey g) || negb (gKeys g)
           | None => false
           end) with BadGateway ;;
  Ok c
  end end.

(** ** The relay's construction and its listeners (relay/server.go) *)

(** The server's sockets: the addresses it remembers, and which of them listen. *)
Inductive sock := TLSSocket | HTTPSocket | GatewaySocket | StreamSocket.
#[export] Instance sock_eq_dec : EqDecision sock. Proof. solve_decision. Defined.
Record rserver := mkRserver {
  svCfg : RelayConfig;
  svServer : Server;
  svRelay : relay;
  svListener : option string;
  svHTTP : option string;
  svGateway : option string;
  svStream : option string;
  svOpen : list sock;
}.
#[export] Instance eta_rserver : Eta rserver := λ s,
  mkRserver (svCfg s) (svServer s) (svRelay s) (svListener s) (svHTTP s) (svGateway s) (svStream s) (svOpen s).

Definition relay_New (c : RelayConfig) (now : Z) : result relay_conf_err rserver :=
  match relay_validate c with
  | Err e => Err e
  | Ok c =>
      let rl := rcRateLimits c in
      let s := mkServer (relay_rules c) (rcPublicHost c) 0 (default (λ _, false) (rcCanServeHost c)) (rcLogin c) (rcCluster c) in
      let r := (newNameRegistry (rcNameGracePeriod c)) <| NameRegistry.clustered := bool_decide (is_Some (rcCluster c)) |> in
      let x := RelayServe.mkRelay r ∅ (NewIPLimiter (ConnectionsPerSecond rl) (ConnectionsBurst rl) now)
                 (NewIPLimiter (inject_Z (AuthFailuresPerMinute rl) / 60) (AuthFailuresPerMinute rl) now)
                 (mkCounters 0 0 0 0 0) ∅ false false in
      match foldM (λ x v, match Reserve s (rvName v) (rvTokenID v) (rvPort v) x with
                          | (x, Ok _) => Ok x
                          | (_, Err _) => Err (BadReservation (rvName v))
                          end) x (rcReservations c) with
      | Err e => Err e
      | Ok x => Ok (mkRserver c s x None None None None [])
      end
  end.

Inductive start_err := ErrClosed | ErrStarted | ErrListen (addr : string).

Definition close_socket (k : sock) (s : rserver) : rserver := s <| svOpen := filter (λ j, j ≠ k) (svOpen s) |>.
(** [if x != nil { x.Close() }] *)
Definition close_opt (a : option string) (k : sock) (s : rserver) : rserver :=
  match a with Some _ => close_socket k s | None => s end.

(** [bind addr] is the port a listener of the address gets ([None]: an error).
The listeners' goroutines are not data. *)
Definition Start (bind : string → option Z) (s : rserver) : rserver * result start_err unit :=
  let c := svCfg s in
  if srvClosed (svRelay s) then (s, Err ErrClosed)
  else if bool_decide (is_Some (svListener s)) then (s, Err ErrStarted)
  else
  let ln := rcControlAddr c in
  match bind ln with
  | None => (s, Err (ErrListen ln))
  | Some port =>
  let s := s <| svOpen := svOpen s ++ [TLSSocket] |>
             <| svServer := (let v := svServer s in
                  mkServer (rules v) (PublicHost v) (setDefault (rcPublicHTTPSPort c) port) (CanServeHost v) (Login v) (Cluster v)) |> in
  let http := rcHTTPAddr c in
  let '(s, err) :=
    if String.eqb http "" then (s, None)
    else match bind http with
         | None => (close_socket TLSSocket s, Some http)
         | Some _ => (s <| svHTTP := Some http |> <| svOpen := svOpen s ++ [HTTPSocket] |>, None)
         end in
  match err with
  | Some a => (s, Err (ErrListen a))
  | None =>
  let '(s, err) :=
    match rcSSHGateway c with
    | None => (s, None)
    | Some g =>
        match bind (gListen g) with
        | None => (close_opt (svHTTP s) HTTPSocket (close_socket TLSSocket s), Some (gListen g))
        | Some _ => (s <| svGateway := Some (gListen g) |> <| svOpen := svOpen s ++ [GatewaySocket] |>, None)
        end
    end in
  match err with
  | Some a => (s, Err (ErrListen a))
  | None =>
  let '(s, err) :=
    if String.eqb (rcStreamAddr c) "" then (s, None)
    else match bind (rcStreamAddr c) with
         | None => (close_opt (svGateway s) GatewaySocket (close_opt (svHTTP s) HTTPSocket (close_socket TLSSocket s)), Some (rcStreamAddr c))
         | Some _ => (s <| svStream := Some (rcStreamAddr c) |> <| svOpen := svOpen s ++ [StreamSocket] |>, None)
         end in
  match err with
  | Some a => (s, Err (ErrListen a))
  | None => (s <| svListener := Some ln |>, Ok tt)
  end end end end.

(** [Close]: the sessions' ends follow; then the registry is closed. *)
Definition relay_Close (s : rserver) : rserver :=
  if srvClosed (svRelay s) then s
  else
    let x := svRelay s <| srvClosed := true |> in
    let s := close_opt (svStream s) StreamSocket (close_opt (svGateway s) GatewaySocket (close_opt (svHTTP s) HTTPSocket (close_opt (svListener s) TLSSocket s))) in
    let x := x <| sessions := (λ t, t <| muxClosed := true |>) <$> sessions x |> in
    s <| svRelay := x |>.
(** The end of [Close], when every session has ended. *)
Definition relay_closed (s : rserver) : rserver :=
  s <| svRelay := svRelay s <| registry := NameRegistry.close (registry (svRelay s)) |> |>.

Definition Addr_ (s : rserver) : option string := svListener s.
Definition StreamAddr (s : rserver) : string := default "" (svStream s).
Definition GatewayAddr (s : rserver) : string := default "" (svGateway s).
Definition HTTPAddr (s : rserver) : string := default "" (svHTTP s).

(** ** server.yaml *)

Record ACMEFile := mkACME {
  afMode : string; afEmail : string; afCA : string; afCARoot : string; afStorage : string; afDNSProvider : string;
  afDNSCredentials : gmap string string;
}.
Record OIDCProvider := mkProvider { opIssuer : string; opClientID : string; opClientSecret : string; opScopes : list string }.
Record OIDCFile := mkOIDCFile { ofAuthHost : string; ofSessionTTL : Z; ofProviders : gmap string OIDCProvider }.

Record ServerFile := mkServerFile {
  sfBaseDomain : string;
  sfControlSNI : string;
  sfReservedNames : list string;
  sfPublicHost : string;
  sfListenHTTPS : string;
  sfListenHTTP : string;
  sfPublicHTTPSPort : Z;
  sfForwardedHeaders : option bool;
  sfBind : string;
  sfTCPPortRange : string;
  sfTLS : option (string * string);
  sfACME : option ACMEFile;
  sfStorage : string;
  sfAdminSocket : string;
  sfAccessLog : bool;
  sfMetricsListen : string;
  sfSSHGateway : option (string * string);
  sfOIDC : option OIDCFile;
  sfTrustedProxies : list string;
  sfRateLimits : RateLimits;
  sfHeartbeatInterval : Z;
  sfNameGracePeriod : Z;
}.

Inductive server_err :=
| SrvPortRange (e : name_err) | SrvProxies (p : string) | SrvTlsAndAcme | SrvNoCertificate | SrvNeedsPort80
| SrvEnv (field : string) | SrvCerts (e : certs_err) | SrvStore (e : store_err) | SrvGatewayListen | SrvHostKey
| SrvOidc | SrvRelay (e : relay_conf_err).

Definition ServerStorage : string := "/var/lib/l8tunnel".
Definition StorageDir (f : ServerFile) : string := if String.eqb (sfStorage f) "" then ServerStorage else sfStorage f.
(** [filepath.Join] of a directory and a name. *)
Definition joinPath (dir name : string) : string := Clean (dir +:+ "/" +:+ name).
Definition DatabasePath (f : ServerFile) : string := joinPath (StorageDir f) "l8tunnel.db".
Definition AdminSocket (f : ServerFile) (DefaultServerSocket : string) : string :=
  if String.eqb (sfAdminSocket f) "" then DefaultServerSocket else sfAdminSocket f.
Definition acmeStorage (f : ServerFile) (a : ACMEFile) : string :=
  if negb (String.eqb (afStorage a) "") then afStorage a else joinPath (StorageDir f) "acme".

(** Everything except certificates, tokens, gateway and login. *)
Definition relayConfig (f : ServerFile) : result server_err RelayConfig :=
  let portRange := if String.eqb (sfTCPPortRange f) "" then defaultTCPPortRange else sfTCPPortRange f in
  match ParsePortRange portRange with
  | Err e => Err (SrvPortRange e)
  | Ok (portMin, portMax) =>
  match ParsePrefixes (sfTrustedProxies f) with
  | Err p => Err (SrvProxies p)
  | Ok trusted =>
  let listen := if String.eqb (sfListenHTTPS f) "" then defaultListen else sfListenHTTPS f in
  let httpListen := if String.eqb (sfListenHTTP f) "" then defaultHTTPListen
                    else if String.eqb (sfListenHTTP f) listenOff then "" else sfListenHTTP f in
  Ok (mkRelayConfig listen httpListen (sfPublicHTTPSPort f)
        (match sfForwardedHeaders f with Some b => negb b | None => false end) (sfAccessLog f) "" None None None None None
        (sfBaseDomain f) (sfControlSNI f) false [] (sfReservedNames f) (sfRateLimits f) trusted (sfPublicHost f) (sfBind f)
        portMin portMax (sfHeartbeatInterval f) (sfNameGracePeriod f))
  end end.

(** Which credential that cannot be expanded is reported is up to the map. *)
Definition expand_all (env : string → option string) (m : gmap string string) : result server_err (gmap string string) :=
  foldM (λ out '(k, v), match expandEnv env v with None => Err (SrvEnv k) | Some v => Ok (<[k := v]> out) end) ∅ (range m).

Definition certsConfig (env : string → option string) (f : ServerFile) (cfg : RelayConfig) : result server_err CertConfig :=
  match sfTLS f, sfACME f with
  | Some _, Some _ => Err SrvTlsAndAcme
  | Some (cert, key), None => Ok (mkCertConfig ModeStatic cert key "" "" "" "" "" "" ∅ "" "")
  | None, None => Err SrvNoCertificate
  | None, Some a =>
      refuse! String.eqb (afMode a) ModeHTTP01 && String.eqb (rcHTTPAddr cfg) "" with SrvNeedsPort80 ;;
      match expand_all env (afDNSCredentials a) with
      | Err e => Err e
      | Ok creds =>
          let base := ToLower (TrimSuffix "." (sfBaseDomain f)) in
          let controlSNI := ToLower (sfControlSNI f) in
          let controlSNI := if String.eqb controlSNI "" then "connect." +:+ base else controlSNI in
          Ok (mkCertConfig (afMode a) "" "" (afEmail a) (afCA a) (afCARoot a) (acmeStorage f a) (rcHTTPAddr cfg)
                (afDNSProvider a) creds base controlSNI)
      end
  end.

(** What reading the certificates needs: the files' leaf, the time, the ACME
library's parameters. *)
Record cert_env := mkCertEnv {
  ceFiles : string → string → option Leaf; ceNow : Z; ceProduction : string;
  ceRoots : string → option bool; ceManage : list string → bool;
}.

Definition RelayConfig_of (env : string → option string) (ce : cert_env) (f : ServerFile) : result server_err (RelayConfig * Manager) :=
  match relayConfig f with
  | Err e => Err e
  | Ok cfg =>
  match certsConfig env f cfg with
  | Err e => Err e
  | Ok cc =>
  match certs_New (ceFiles ce (ccCertFile cc) (ccKeyFile cc)) (ceNow ce) (ceProduction ce) (ceRoots ce) (ceManage ce) cc with
  | Err e => Err (SrvCerts e)
  | Ok mgr =>
      Ok (cfg <| rcTLS := Some (match mgr with StaticManager leaf => ([leaf], false) | _ => ([], true) end) |>
              <| rcCanServeHost := Some (mgr_CanServe mgr) |>, mgr)
  end end end.

(** [oidcService]: [new] is [oidc.New] of the host and the providers with their
secrets expanded. *)
Definition oidc_host (f : ServerFile) (o : OIDCFile) : string :=
  if String.eqb (ToLower (ofAuthHost o)) "" then "auth." +:+ ToLower (TrimSuffix "." (sfBaseDomain f)) else ToLower (ofAuthHost o).
Definition oidcService (env : string → option string) (new : string → list string → option LoginService) (f : ServerFile)
    (o : OIDCFile) : result server_err LoginService :=
  match foldM (λ _ '(name, p), match expandEnv env (opClientSecret p) with None => Err (SrvEnv name) | Some _ => Ok tt end)
          tt (range (ofProviders o)) with
  | Err e => Err e
  | Ok _ => match new (oidc_host f o) (range (ofProviders o)).*1 with None => Err SrvOidc | Some l => Ok l end
  end.

(** [NewRelay] on an open store; [ca] is whether it has or can make its CA, and
[hostKey] whether the gateway's key can be loaded or made. *)
Definition NewRelay (env : string → option string) (ce : cert_env) (new : string → list string → option LoginService)
    (hostKey : string → bool) (ca : result store_err unit) (st : Store) (f : ServerFile)
    : result server_err (rserver * Manager) :=
  match RelayConfig_of env ce f with
  | Err e => Err e
  | Ok (cfg, mgr) =>
  match ca with
  | Err e => Err (SrvStore e)
  | Ok _ =>
  match Reservations st with
  | Err e => Err (SrvStore e)
  | Ok vs =>
  match Tokens st with
  | Err e => Err (SrvStore e)
  | Ok _ =>
  match (match sfSSHGateway f with
         | None => Ok None
         | Some (listen, key) =>
             refuse! String.eqb listen "" with SrvGatewayListen ;;
             let path := if String.eqb key "" then joinPath (StorageDir f) "gateway_host_key" else key in
             refuse! negb (hostKey path) with SrvHostKey ;;
             Ok (Some (mkGatewayConfig listen true true))
         end) with
  | Err e => Err e
  | Ok g =>
  match (match sfOIDC f with
         | None => Ok None
         | Some o => match oidcService env new f o with Err e => Err e | Ok l => Ok (Some l) end
         end) with
  | Err e => Err e
  | Ok login =>
      let cfg := cfg <| rcTokens := true |> <| rcReservations := vs |> <| rcSSHGateway := g |> <| rcLogin := login |> in
      match relay_New cfg (ceNow ce) with
      | Err e => Err (SrvRelay e)
      | Ok srv => Ok (srv, mgr)
      end
  end end end end end end.
End conf.
