(* ===== verification/ServerConfSpec.v ===== *)
(** * What an accepted configuration gives (go/tunnel/config, go/tunnel/relay) *)

From S2P Require Import Prelude GoStrings Base64 Regex Protocol Policy NetIP Limiter Access Claims NameRegistry NameRegistryInv NameRegistrySpec.
From S2P Require Import RelayTunnels RelayTunnelsSpec RelayServe RelayServeSpec Store StoreSpec AdminSpec Certs ServerConf.
From stdpp Require Import options.
From Stdlib Require Import Ascii QArith.
#[local] Open Scope l8_scope.
#[local] Open Scope Z_scope.
Import Rules.

(** The port range of accepted rules. *)
Definition ports_valid (ru : Rules) : Prop := 1 ≤ PortMin ru ≤ PortMax ru ∧ PortMax ru ≤ 65535.

Section conf.
Context {GU : GoUnicode} {CR : Crypto} {X5 : X509} {MR : MapRange}.

(** ** The relay that [relay.New] makes *)

Lemma defaults_frame leaves c :
  let c' := default_times (default_hosts (lower_base (default_serve leaves c))) in
  rcReservations c' = rcReservations c ∧ rcReservedNames c' = rcReservedNames c ∧ rcCluster c' = rcCluster c.
Proof.
  unfold default_times, default_hosts, lower_base, default_serve.
  destruct (rcCanServeHost c); cbn; destruct (String.eqb (rcControlSNI c) ""); cbn; by destruct (String.eqb (rcPublicHost c) "").
Qed.

Lemma accepted_rules c rl :
  (rcPortMin c <? 1) || (65535 <? rcPortMax c) || (rcPortMax c <? rcPortMin c) = false →
  let c' := c <| rcRateLimits := rl |> in
  ports_valid (relay_rules c') ∧ rcReservations c' = rcReservations c ∧ rcCluster c' = rcCluster c ∧
  ReservedNames (relay_rules c') = rcReservedNames c.
Proof. intros Hp. bool_facts. unfold ports_valid. cbn. split_and!; (done || lia). Qed.

Lemma relay_validate_ok c c' :
  relay_validate c = Ok c' →
  ports_valid (relay_rules c') ∧ rcReservations c' = rcReservations c ∧ rcCluster c' = rcCluster c ∧
  Forall (λ n, ValidName n = true) (ReservedNames (relay_rules c')).
Proof.
  unfold relay_validate. intros Hv. case_if_in Hv; [done|]. destruct (rcTLS c) as [[leaves choose]|]; [|done].
  do 2 (case_if_in Hv; [done|]). destruct (List.find _ _) eqn:Hf; [done|]. cbv zeta in Hv.
  pose proof (defaults_frame leaves c) as (E1 & E2 & E3). cbv zeta in E1, E2, E3.
  do 4 (case_if_in Hv; [done|]). case_if_in Hv; [done|]. 
  match goal with Hp : _ = false |- _ => pose proof (λ rl, accepted_rules _ rl Hp) as Hacc end.
  do 2 (case_if_in Hv; [done|]). injection Hv as <-.
  match goal with |- context [default_rates ?r] => destruct (Hacc (default_rates r)) as (Hp & F1 & F2 & F3) end.
  rewrite F1, F2, F3, E1, E2, E3. split_and!; [done..|].
  apply Forall_forall. intros n Hn%list_elem_of_In. pose proof (List.find_none _ _ Hf n Hn) as Hn'. by apply negb_false_iff in Hn'.
Qed.

(** The reservations of the database, loaded one by one. *)
Lemma load_permanently s l x x' :
  inv (registry x) → NoDup (rvName <$> l) →
  foldM (λ x v, match Reserve s (rvName v) (rvTokenID v) (rvPort v) x with
                | (x, Ok _) => Ok x
                | (_, Err _) => Err (BadReservation (rvName v))
                end) x l = Ok x' →
  inv (registry x') ∧
  ∀ n tok, permanently (registry x') n tok ↔
    (∃ v, v ∈ l ∧ rvName v = n ∧ rvTokenID v = tok) ∨ (∀ v, v ∈ l → rvName v ≠ n) ∧ permanently (registry x) n tok.
Proof using Type*.
  revert x. induction l as [|v l IH]; intros x Hi Hnd; cbn.
  { intros [= <-]. split; [done|]. intros n tok. split; [intros Hp; right; split; [by intros v ?%not_elem_of_nil|done]|].
    intros [(v & Hv & _)|[_ Hp]]; [by apply not_elem_of_nil in Hv|done]. }
  apply NoDup_cons in Hnd as [Hv Hnd]. unfold Reserve at 1. destruct (CheckReservation _ _ _) as [[]|]; [|done].
  pose proof (inv_reserve (rvName v) (rvTokenID v) (rvPort v) _ Hi) as Hi'.
  destruct (reserve _ _ _ (registry x)) as [r [[]|e]] eqn:Hr; [|done]. cbn [fst] in Hi'. intros Hf.
  assert (inv (registry (x <| registry := r |>))) as Hi2 by exact Hi'.
  destruct (IH _ Hi2 Hnd Hf) as [Hx' Hp]. split; [done|]. intros n tok. rewrite Hp. cbn.
  rewrite (reserve_permanently _ _ _ _ _ n tok Hi Hr). split.
  - intros [(w & Hw & Hn & Ht)|[Hno [[-> ->]|[Hne Hx]]]]; [left; exists w; by rewrite elem_of_cons; auto|left; exists v; by rewrite elem_of_cons; auto|].
    right. split; [|done]. intros w [->|Hw]%elem_of_cons; [congruence|by apply Hno].
  - intros [(w & [->|Hw]%elem_of_cons & <- & <-)|[Hno Hx]]; [|left; by exists w|].
    + right. split; [|by left]. intros w Hw Heq. apply Hv. rewrite <-Heq. by apply list_elem_of_fmap_2.
    + right. split; [intros w Hw; apply Hno; by right|]. right. split; [|done]. intros ->. by apply (Hno v); [left|].
Qed.

Lemma inv_clustered g b : inv (newNameRegistry g <| NameRegistry.clustered := b |>).
Proof using MR. destruct (calls_inv g _ (rtc_refl _ (newNameRegistry g))). by split. Qed.

(** What [relay.New] starts with. *)
Lemma relay_New_ok c now sv :
  relay_New c now = Ok sv → NoDup (rvName <$> rcReservations c) →
  ports_valid (rules (svServer sv)) ∧ inv (registry (svRelay sv)) ∧
  ∀ n tok, permanently (registry (svRelay sv)) n tok ↔ ∃ v, v ∈ rcReservations c ∧ rvName v = n ∧ rvTokenID v = tok.
Proof using Type* MR.
  unfold relay_New. intros Hn Hnd. destruct (relay_validate c) as [c1|] eqn:Hv; [|done].
  destruct (relay_validate_ok c c1 Hv) as (Hp & Hr & _ & _). cbv zeta in Hn.
  destruct (foldM _ _ _) as [x|] eqn:Hf in Hn; [|done]. injection Hn as <-. rewrite Hr in Hf.
  apply load_permanently in Hf as [Hi Hperm]; [|apply inv_clustered|done]. split_and!; [done..|].
  intros n tok. cbn [svRelay]. rewrite Hperm. split; [|by left]. intros [?|[_ (l & res & [Hl _] & _)]]; [done|].
  cbn in Hl. by rewrite lookup_empty in Hl.
Qed.

(** ** Restarting on the database *)

Lemma NewRelay_ok env ce new hostKey ca st f sv mgr :
  store_ok st → NewRelay env ce new hostKey ca st f = Ok (sv, mgr) →
  ports_valid (rules (svServer sv)) ∧ api_ok (mkAPI (svRelay sv) st).
Proof using Type* MR.
  intros Hs. unfold NewRelay. intros Hn. destruct (RelayConfig_of env ce f) as [[cfg m]|]; [|done]. destruct ca; [|done].
  destruct (listed_ok _ _ _ (so_reservations _ Hs)) as (rs & Hl & Hnd & _ & Hin). change (Reservations st = Ok rs) in Hl.
  rewrite Hl in Hn. destruct (Tokens st); [|done].
  destruct (match sfSSHGateway f with Some _ => _ | None => _ end) as [g|]; [|done].
  destruct (match sfOIDC f with Some _ => _ | None => _ end) as [login|]; [|done]. cbv zeta in Hn.
  destruct (relay_New _ _) as [sv'|] eqn:Hnew in Hn; [|done]. injection Hn as <- <-.
  destruct (relay_New_ok _ _ _ Hnew Hnd) as (Hp & Hi & Hperm). split; [done|]. split; [done..|].
  intros n tok. cbn. rewrite Hperm. split; intros (r & Hr & Ht); exists r.
  - destruct Ht as [<- ?]. by rewrite <-Hin.
  - by apply (keyed_listed _ _ _ _ _ _ (so_reservations _ Hs) Hin) in Hr as [? ?].
Qed.

(** C37: a relay started on its database serves what the database says, and goes
on doing so. Whatever well-formed database and configuration file it starts
with, if it starts then its port range is valid, its permanent names are
exactly the stored reservations with their tokens, and this stays so after any
requests of operators and calls of agents' sessions, short of a registration
that fails after an operator reserved the name it had just claimed (see
[rollback_drops_reservation]); listing the reservations never fails. *)
Theorem restarted_in_step {CA} (LoadAgentCA : string → string → option CA) PEM env ce new hostKey ca st0 f sv mgr a :
  store_ok st0 → NewRelay env ce new hostKey ca st0 f = Ok (sv, mgr) →
  rtc (api_step (svServer sv) LoadAgentCA PEM) (mkAPI (svRelay sv) st0) a →
  ports_valid (rules (svServer sv)) ∧ inv (registry (srv a)) ∧
  ∃ rs, Reservations (st a) = Ok rs ∧
    ∀ n tok, permanently (registry (srv a)) n tok ↔ ∃ r, r ∈ rs ∧ rvName r = n ∧ rvTokenID r = tok.
Proof using Type* MR.
  intros Hs Hn Hr. destruct (NewRelay_ok _ _ _ _ _ _ _ _ _ Hs Hn) as [Hp Ha].
  assert (api_ok a) as [Hs' Hi Hst] by (revert Ha; clear -Hr; induction Hr; eauto using api_step_ok).
  split_and!; [done..|]. destruct (listed_ok _ _ _ (so_reservations _ Hs')) as (rs & Hl & _ & _ & Hin).
  exists rs. split; [done|]. intros n tok. rewrite (Hst n tok). split; intros (r & Hr' & Ht); exists r.
  - by apply (keyed_listed _ _ _ _ _ _ (so_reservations _ Hs') Hin) in Hr' as [? ?].
  - destruct Ht as [<- ?]. by rewrite <-Hin.
Qed.

(** ** The listeners *)

(** The sockets a configuration asks for. *)
Definition wanted (c : RelayConfig) : list sock :=
  TLSSocket :: (if String.eqb (rcHTTPAddr c) "" then [] else [HTTPSocket])
  ++ (match rcSSHGateway c with Some _ => [GatewaySocket] | None => [] end)
  ++ (if String.eqb (rcStreamAddr c) "" then [] else [StreamSocket]).

(** starting a relay is all or nothing. A relay that is not started either
opens every listener its configuration asks for and is then started, with the
port of its TLS listener as the public one unless the configuration says
another; or one of its addresses cannot be listened on, and then every listener
it had opened is closed again and it can be started once more. Nothing else of
it changes. *)
Theorem Start_all_or_nothing bind s s' r :
  svOpen s = [] → svListener s = None → srvClosed (svRelay s) = false → Start bind s = (s', r) →
  svRelay s' = svRelay s ∧
  match r with
  | Ok _ => svOpen s' = wanted (svCfg s) ∧ svListener s' = Some (rcControlAddr (svCfg s)) ∧
      ∃ p, bind (rcControlAddr (svCfg s)) = Some p ∧ publicHTTPSPort (svServer s') = setDefault (rcPublicHTTPSPort (svCfg s)) p
  | Err (ErrListen a) => svOpen s' = [] ∧ svListener s' = None ∧ bind a = None
  | Err _ => False
  end.
Proof.
  destruct s as [c v x l h g st o]. cbn [svOpen svListener svRelay svCfg]. intros -> -> Hc. unfold Start, wanted.
  cbn [svOpen svListener svRelay svCfg svServer svHTTP svGateway svStream set_field]. rewrite Hc, bool_decide_eq_false_2 by (by intros [? [=]]).
  destruct (bind (rcControlAddr c)) as [p|] eqn:Hb; [|by intros [= <- <-]].
  destruct (String.eqb (rcHTTPAddr c) "") eqn:Hh; [|destruct (bind (rcHTTPAddr c)) eqn:Hbh; [|by intros [= <- <-]]].
  all: destruct (rcSSHGateway c) as [gc|] eqn:Hg; [destruct (bind (gListen gc)) eqn:Hbg; [|by destruct h; intros [= <- <-]]|].
  all: destruct (String.eqb (rcStreamAddr c) "") eqn:Hst;
    [|destruct (bind (rcStreamAddr c)) eqn:Hbs; [|by destruct h, g; intros [= <- <-]]].
  all: intros [= <- <-]; cbn; split_and!; [done..|by exists p].
Qed.
End conf.

(** ** A relay that is configured, started and restarted *)

#[local] Existing Instance plain_crypto.
#[local] Existing Instance ascii_only.

Module ConfSample.
Definition leaf : Leaf := mkLeaf "t.example.com" ["t.example.com"; "*.t.example.com"] "ca" 0 (1000 * hour) "raw".
#[export] Instance x509 : X509 := {|
  X509KeyPair cert key := if String.eqb cert "" then None else Some leaf;
  VerifyHostname l h := existsb (String.eqb h) (lDNSNames l);
|}.
Definition file : ServerFile :=
  mkServerFile "t.example.com." "" ["www"] "" "" "" 0 None "" "2000-2010" (Some ("c.pem", "k.pem")) None "" "" false ""
    (Some (":2222", "")) None ["10.0.0.0/8"] (mkRates 0 0 0) 0 0.
Definition env (_ : string) : option string := None.
Definition ce : cert_env := mkCertEnv (λ c k, X509KeyPair c k) 0 "" (λ _, None) (λ _, true).
Definition new (_ : string) (_ : list string) : option LoginService := None.
(** The relay of the sample database: a reservation of web. *)
Definition relay_of : result server_err (rserver * Manager) :=
  NewRelay env ce new (λ _, true) (Ok tt) (st AdminSample.a3) file.
Definition bind (a : string) : option Z := if String.eqb a ":443" then Some 443 else if String.eqb a ":80" then Some 80 else Some 2222.

Lemma store_a3_ok : store_ok (st AdminSample.a3).
Proof. apply (ao_store _ (api_reachable_ok AdminSample.s AdminSample.load AdminSample.pem AdminSample.x0 (5 * minute) _ eq_refl AdminSample.a3_reachable)). Qed.
End ConfSample.

(** After the start an operator reserves a name for Bob, and removes Alice's. *)
Definition reserved_then (sv : rserver) : relayAPI :=
  (removeReservation "web" (addReservation (svServer sv) (Some (mkReservationRequest "shop" "bob" 2002))
     (mkAPI (svRelay sv) (st AdminSample.a3))).1).1.

Lemma restarted_in_step_witness :
  match ConfSample.relay_of with
  | Ok (sv, _) =>
      let a := reserved_then sv in
      (rvName <$> match Reservations (st a) with Ok rs => rs | Err _ => [] end) = ["shop"] ∧
      ports_valid (rules (svServer sv)) ∧ inv (registry (srv a)) ∧
      ∃ rs, Reservations (st a) = Ok rs ∧
        ∀ n tok, permanently (registry (srv a)) n tok ↔ ∃ r, r ∈ rs ∧ rvName r = n ∧ rvTokenID r = tok
  | Err _ => False
  end.
Proof.
  assert (match ConfSample.relay_of with
    | Ok (sv, _) => (rvName <$> match Reservations (st (reserved_then sv)) with Ok rs => rs | Err _ => [] end) = ["shop"]
    | Err _ => False end) as Hrs by (vm_compute; reflexivity).
  destruct ConfSample.relay_of as [[sv mgr]|e] eqn:Hn; [|exact Hrs]. intros a. split; [exact Hrs|].
  refine (restarted_in_step AdminSample.load AdminSample.pem _ _ _ _ _ _ _ sv mgr _ ConfSample.store_a3_ok Hn _).
  eapply rtc_l; [apply (as_reserve (svServer sv) AdminSample.load AdminSample.pem _ (Some (mkReservationRequest "shop" "bob" 2002)))|].
  apply rtc_once. apply (as_unreserve (svServer sv) AdminSample.load AdminSample.pem _ "web").
Defined.

Lemma Start_all_or_nothing_witness :
  match ConfSample.relay_of with
  | Ok (sv, _) => svOpen (Start ConfSample.bind sv).1 = wanted (svCfg sv)
  | Err _ => False
  end.
Proof.
  destruct ConfSample.relay_of as [[sv mgr]|e] eqn:Hn; [|by vm_compute in Hn].
  assert (svOpen sv = [] ∧ svListener sv = None ∧ srvClosed (svRelay sv) = false ∧ is_ok (Start ConfSample.bind sv).2 = true)
    as (Ho & Hl & Hc & Hok) by (vm_compute in Hn; injection Hn as <- _; by vm_compute).
  destruct (Start ConfSample.bind sv) as [s' r] eqn:Hs.
  pose proof (Start_all_or_nothing ConfSample.bind sv s' r Ho Hl Hc Hs) as [_ Hr]. destruct r as [?|?]; [by destruct Hr|done].
Defined.
