(* ===== verification/EdgeDomains.v ===== *)
(** * The edge domains service (go/tun/edge/domains)

Edge domains are rows of a table service whose callback completes and validates
them; the row of the tunnel base follows cluster.yaml. A stored domain is the
part the edge's rules are about ([EdgeDomain]) with the certificate's files,
its fingerprint, the version and a note; the other descriptive fields are left
out. A list a message does not set is empty. *)

From S2P Require Import Prelude GoStrings Protocol Policy NetIP Access Claims EdgeConf Manage Certs ServerConf Reservations.
From stdpp Require Import options.
#[local] Open Scope l8_scope.
#[local] Open Scope Z_scope.

Record StoredDomain := mkStoredDomain {
  sdDom : EdgeDomain;
  CertStoragePath : string;
  KeyStoragePath : string;
  CertFingerprint : string;
  ConfigVersion : Z;
  sdNote : string;
}.
#[export] Instance eta_storeddomain : Eta StoredDomain := λ d,
  mkStoredDomain (sdDom d) (CertStoragePath d) (KeyStoragePath d) (CertFingerprint d) (ConfigVersion d) (sdNote d).
#[export] Instance eta_forward : Eta EdgePortForward := λ f,
  mkForward (ForwardId f) (ListenPort f) (ListenPortEnd f) (FProtocol f) (Mode f) (TargetKind f) (Targets f) (TargetDns f)
    (TargetPort f) (BackendScheme f) (SkipVerify f) (ProxyProtocol f) (Lb f) (HealthType f) (HealthPath f) (HealthInterval f)
    (FEnabled f) (Note f).
Definition sdId (d : StoredDomain) : string := DomainId (sdDom d).

(** ** The tunnel base (tunnelbase.go) *)

Definition base_forward (id : string) (port end_ : Z) (proto : EdgeProtocol) (target : Z) : EdgePortForward :=
  mkForward id port end_ proto EDGE_FORWARD_MODE_RELAY EDGE_TARGET_KIND_RELAYS [] "" (int32 target)
    EDGE_BACKEND_SCHEME_UNSPECIFIED false false EDGE_LB_ALGORITHM_ROUND_ROBIN EDGE_HEALTH_TYPE_TCP "" 0 true "".

Definition TunnelBaseForwards `{GoUnicode} (c : ClusterFile) : list EdgePortForward :=
  let '(lo, hi) := port_range (cfTCPPortRange c) in
  let end_ := if lo =? hi then 0 else int32 hi in
  base_forward "https" (int32 (pubHTTPS c)) 0 EDGE_PROTOCOL_TLS (relTLS c)
  :: (if 0 <? pubHTTP c then [base_forward "http" (int32 (pubHTTP c)) 0 EDGE_PROTOCOL_HTTP (relHTTP c)] else [])
  ++ [base_forward "tcp-range" (int32 lo) end_ EDGE_PROTOCOL_TCP (relStream c)]
  ++ (if 0 <? pubGateway c then [base_forward "ssh-gateway" (int32 (pubGateway c)) 0 EDGE_PROTOCOL_TCP (relGateway c)] else []).

(** [proto.Equal] of the messages. *)
Definition sameForwards (a b : list EdgePortForward) : bool := bool_decide (a = b).

(** ** The callback (EdgeDomainServiceCallback.go) *)

Inductive domain_err :=
| DomLookup | DomMissing (id : string) | DomKind | DomNames (e : conf_err) | DomCoversTunnels (n : string)
| DomBothFiles | DomFetch | DomParse | DomCertificate | DomRule (e : conf_err).

(** A forward's target kind follows its targets. *)
Definition targetKindFromTargets (f : EdgePortForward) : EdgePortForward :=
  match TargetKind f with
  | EDGE_TARGET_KIND_UNSPECIFIED | EDGE_TARGET_KIND_NODE_LOCAL | EDGE_TARGET_KIND_TARGETS =>
      f <| TargetKind := if bool_decide (Targets f = []) then EDGE_TARGET_KIND_NODE_LOCAL else EDGE_TARGET_KIND_TARGETS |>
  | _ => f
  end.

(** [fresh i] is the ID made up for the [i]-th forward, if it needs one. *)
Definition defaultNewForward (fresh : string) (f : EdgePortForward) : EdgePortForward :=
  let f := targetKindFromTargets f in
  if negb (String.eqb (ForwardId f) "") then f
  else
    let f := f <| ForwardId := fresh |> <| FEnabled := true |> in
    match Mode f with
    | EDGE_FORWARD_MODE_UNSPECIFIED => f <| Mode := EDGE_FORWARD_MODE_PASSTHROUGH |>
    | _ => f
    end.
Definition defaultNewForwards (fresh : nat → string) (d : EdgeDomain) : EdgeDomain :=
  d <| PortForwards := imap (λ i f, defaultNewForward (fresh i) f) (PortForwards d) |>.

(** A string, number or list a patch sets. *)
Definition str_or (p o : string) : string := if String.eqb p "" then o else p.
Definition num_or (p o : Z) : Z := if p =? 0 then o else p.
Definition list_or {A} (p o : list A) : list A := match p with [] => o | _ => p end.

(** [mergePatch]: the fields a patch sets, over the stored domain. *)
Definition mergePatch (existing patch : StoredDomain) : StoredDomain :=
  let o := sdDom existing in let p := sdDom patch in
  mkStoredDomain
    (mkDomain (str_or (DomainId p) (DomainId o)) (str_or (Domain p) (Domain o)) (list_or (Aliases p) (Aliases o))
       (match Kind p with EDGE_DOMAIN_KIND_UNSPECIFIED => Kind o | k => k end)
       (Enabled p || Enabled o) (list_or (DAllowIps p) (DAllowIps o)) (list_or (DDenyIps p) (DDenyIps o))
       (match CertStatus p with EDGE_CERT_STATUS_UNSPECIFIED => CertStatus o | s => s end)
       (list_or (PortForwards p) (PortForwards o)))
    (str_or (CertStoragePath patch) (CertStoragePath existing)) (str_or (KeyStoragePath patch) (KeyStoragePath existing))
    (str_or (CertFingerprint patch) (CertFingerprint existing)) (num_or (ConfigVersion patch) (ConfigVersion existing))
    (str_or (sdNote patch) (sdNote existing)).

Definition is_base (d : EdgeDomain) : bool := bool_decide (Kind d = EDGE_DOMAIN_KIND_TUNNEL_BASE).
Definition is_site (d : EdgeDomain) : bool := bool_decide (Kind d = EDGE_DOMAIN_KIND_SITE).

Section domains.
Context `{GoUnicode, GoFold, Crypto, X509} (c : ClusterFile).

Definition protectTunnelBase (d : EdgeDomain) (existing : option StoredDomain) : result domain_err EdgeDomain :=
  refuse! (match existing with Some o => negb (Bool.eqb (is_base (sdDom o)) (is_base d)) | None => false end) with DomKind ;;
  Ok (if negb (is_base d) then d
      else d <| Domain := cfBaseDomain c |> <| Aliases := ["*." +:+ cfBaseDomain c] |> <| PortForwards := TunnelBaseForwards c |>).

(** [setSummary] and [copySummary]: the fields that are modelled. *)
Definition setSummary (s : option CertSummary) (d : StoredDomain) : StoredDomain :=
  match s with
  | None => d <| CertFingerprint := "" |> <| sdDom := sdDom d <| CertStatus := EDGE_CERT_STATUS_MISSING |> |>
  | Some s => d <| CertFingerprint := smFingerprint s |> <| sdDom := sdDom d <| CertStatus := smStatus s |> |>
  end.
Definition copySummary (from d : StoredDomain) : StoredDomain :=
  d <| CertFingerprint := CertFingerprint from |> <| sdDom := sdDom d <| CertStatus := CertStatus (sdDom from) |> |>.

Definition cert_unchanged (d : StoredDomain) (existing : option StoredDomain) : option StoredDomain :=
  match existing with
  | Some o => if String.eqb (CertStoragePath d) (CertStoragePath o) && String.eqb (KeyStoragePath d) (KeyStoragePath o)
                 && negb (String.eqb (CertFingerprint o) "") then Some o else None
  | None => None
  end.

(** [answer] is what the file store returns for a path. *)
Definition checkCertificate (answer : string → option string) (now : Z) (d : StoredDomain) (existing : option StoredDomain)
    : result domain_err StoredDomain :=
  let noCert := String.eqb (CertStoragePath d) "" in
  let noKey := String.eqb (KeyStoragePath d) "" in
  if noCert && noKey then Ok (setSummary None d)
  else if noCert || noKey then Err DomBothFiles
  else match cert_unchanged d existing with
  | Some o => Ok (copySummary o d)
  | None =>
      match FetchFile answer (CertStoragePath d), FetchFile answer (KeyStoragePath d) with
      | Some certPEM, Some keyPEM =>
          match SummarizeCert certPEM keyPEM (Names (sdDom d)) now with
          | None => Err DomParse
          | Some sum =>
              match smStatus sum with
              | EDGE_CERT_STATUS_MISMATCH | EDGE_CERT_STATUS_EXPIRED => Err DomCertificate
              | _ => Ok (setSummary (Some sum) d)
              end
          end
      | _, _ => Err DomFetch
      end
  end.

(** A wildcard of a site that tunnel names would fall under. *)
Definition covers_tunnels (n : string) : bool :=
  HasPrefix "*." n && (String.eqb n ("*." +:+ cfBaseDomain c) || HasSuffix ("." +:+ cfBaseDomain c) n).

(** What the callback works on: the stored domains if they can be read, the
files, the time, IDs for new forwards. *)
Record domain_env := mkDomainEnv {
  deFiles : string → option string; deNow : Z; deFresh : nat → string; deReadable : bool;
}.

(** The domain that is stored under the ID; the last if there were several. *)
Definition existing_of (all : list StoredDomain) (id : string) : option StoredDomain :=
  last (List.filter (λ o, String.eqb (sdId o) id) all).

(** The domain as it will be: a patch is merged first. *)
Definition target_domain (action : Action) (existing : option StoredDomain) (d : StoredDomain) : option StoredDomain :=
  match action, existing with
  | POST, _ => Some d
  | PUT, Some _ => Some d
  | PATCH, Some o => Some (mergePatch o d)
  | _, None => None
  end.

Definition default_kind (d : EdgeDomain) : EdgeDomain :=
  match Kind d with EDGE_DOMAIN_KIND_UNSPECIFIED => d <| Kind := EDGE_DOMAIN_KIND_SITE |> | _ => d end.

(** Everything up to the certificate. *)
Definition complete_domain (fresh : nat → string) (existing : option StoredDomain) (d : EdgeDomain)
    : result domain_err EdgeDomain :=
  match protectTunnelBase (default_kind d) existing with
  | Err e => Err e
  | Ok d =>
  match NormalizeNames d with
  | (_, Err e) => Err (DomNames e)
  | (d, Ok _) =>
  match (if is_site d then List.find covers_tunnels (Names d) else None) with
  | Some n => Err (DomCoversTunnels n)
  | None => Ok (if is_site d then defaultNewForwards fresh d else d)
  end end end.

Definition validate_domain (env : domain_env) (all : list StoredDomain) (action : Action) (d : StoredDomain)
    : result domain_err StoredDomain :=
  refuse! negb (deReadable env) with DomLookup ;;
  let existing := existing_of all (sdId d) in
  match target_domain action existing d with
  | None => Err (DomMissing (sdId d))
  | Some d =>
  match complete_domain (deFresh env) existing (sdDom d) with
  | Err e => Err e
  | Ok dom =>
  match checkCertificate (deFiles env) (deNow env) (d <| sdDom := dom |>) existing with
  | Err e => Err e
  | Ok d =>
  match ValidateDomain (sdDom d) (sdDom <$> all) (cfBaseDomain c) with
  | (_, Err e) => Err (DomRule e)
  | (dom, Ok _) => Ok (d <| sdDom := dom |> <| ConfigVersion := deNow env |>)
  end end end end.

(** ** The service *)

Context `{MapRange, !TableService sdId}.

Definition domain_hooks (env : domain_env) (all : list StoredDomain) : Hooks domain_err StoredDomain :=
  mkHooks _ _ (λ fresh d, d <| sdDom := sdDom d <| DomainId := GenerateID fresh (DomainId (sdDom d)) |> |>) (validate_domain env all).

Definition domain_write (env : domain_env) (fresh : string) (action : Action) (d : StoredDomain) (t : table sdId)
    : table sdId * result (write_err domain_err) StoredDomain :=
  service_write (domain_hooks env (list_rows t)) fresh action d t.

Definition base_row (d : EdgeDomain) : StoredDomain :=
  mkStoredDomain d "" "" "" 0 "Built in: the relays' ports. Upload the tunnel certificate here.".

(** [EnsureTunnelBase]; [up] is whether the domains can be read. *)
Definition EnsureTunnelBase (env : domain_env) (up : bool) (fresh : string) (t : table sdId)
    : table sdId * result (write_err domain_err) unit :=
  if negb up then (t, Err (Refused DomLookup))
  else
    let want := TunnelBaseForwards c in
    let res :=
      match List.find (λ d, is_base (sdDom d)) (list_rows t) with
      | Some d =>
          if sameForwards (PortForwards (sdDom d)) want then None
          else Some (domain_write env fresh PUT (d <| sdDom := sdDom d <| PortForwards := want |> |>) t)
      | None =>
          Some (domain_write env fresh POST (base_row (mkDomain "" (cfBaseDomain c) ["*." +:+ cfBaseDomain c]
            EDGE_DOMAIN_KIND_TUNNEL_BASE true [] [] EDGE_CERT_STATUS_MISSING want)) t)
      end in
    match res with
    | None => (t, Ok tt)
    | Some (t, r) => (t, match r with Ok _ => Ok tt | Err e => Err e end)
    end.
End domains.
