(* ===== verification/EdgeDomainsSpec.v ===== *)
(** * What the edge domains service keeps (go/tun/edge/domains)

The rows stay consistent through the service. The table service stores a PATCH
by skipping zero values and never shrinks a list, so this is shown for patches
whose result is no shorter than the stored row ([extends]); a shorter one can
leave a row nobody validated ([patch_leaves_unvalidated_row]). *)

From S2P Require Import Prelude GoStrings Protocol Policy NetIP Access Claims EdgeConf EdgeConfSpec Manage Certs ServerConf Reservations EdgeDomains.
From stdpp Require Import options.
From Stdlib Require Import Ascii.
#[local] Open Scope l8_scope.
#[local] Open Scope Z_scope.

Section names.
Context {GU : GoUnicode}.

(** ** Normal names stay as they are *)

Lemma valid_host_plain d : valid_host d → str_forall plain_byte d = true.
Proof. intros Hd%valid_host_chars. eapply str_forall_impl; [|exact Hd]. intros c. unfold plain_byte. byte_cases c. Qed.

Lemma valid_host_not_wild d : valid_host d → CutPrefix "*." d = None.
Proof.
  intros Hd%valid_host_chars. destruct d as [|c d]; [done|]. cbn [str_forall CutPrefix] in *. apply andb_true_iff in Hd as [Hc _].
  assert (Ascii.eqb "*" c = false) as -> by (revert Hc; byte_cases c). done.
Qed.

Lemma NormalizeName_host d : valid_host d → NormalizeName d = Ok d.
Proof.
  intros Hd. unfold NormalizeName. rewrite (TrimSpace_plain d) by (by apply valid_host_plain).
  rewrite valid_host_not_wild by done. by apply valid_host_normal.
Qed.
Lemma NormalizeName_wild d : valid_host d → NormalizeName ("*." +:+ d) = Ok ("*." +:+ d).
Proof.
  intros Hd. unfold NormalizeName. rewrite (TrimSpace_plain ("*." +:+ d)).
  - change (CutPrefix "*." ("*." +:+ d)) with (Some d). cbn. by rewrite valid_host_normal.
  - rewrite str_forall_app. apply andb_true_iff. split; [done|by apply valid_host_plain].
Qed.
Lemma NormalizeName_idem s n : NormalizeName s = Ok n → NormalizeName n = Ok n.
Proof. intros [Hd|(d & -> & Hd)]%NormalizeName_shape; [by apply NormalizeName_host|by apply NormalizeName_wild]. Qed.

Lemma normalize_aliases_spec l l' :
  normalize_aliases l = (l', Ok tt) → length l' = length l ∧ normalize_aliases l' = (l', Ok tt).
Proof.
  revert l'. induction l as [|a l IH]; intros l'; cbn; [by intros [= <-]|]. destruct (NormalizeName a) as [n|] eqn:Hn; [|done].
  destruct (normalize_aliases l) as [l1 r] eqn:Hl. intros [= <- ->]. destruct (IH l1 eq_refl) as [Hlen Hi]. cbn.
  rewrite (NormalizeName_idem a n Hn), Hi, Hlen. done.
Qed.

(** What normalization keeps; doing it twice changes nothing more. *)
Lemma NormalizeNames_spec d d' :
  NormalizeNames d = (d', Ok tt) →
  d' = d <| Domain := Domain d' |> <| Aliases := Aliases d' |> ∧ valid_host (Domain d') ∧
  length (Aliases d') = length (Aliases d) ∧ NormalizeNames d' = (d', Ok tt).
Proof.
  unfold NormalizeNames at 1. destruct (HasPrefix "*." _) eqn:Hp; [done|].
  destruct (NormalizeName (Domain d)) as [n|] eqn:Hn; [|done]. cbn [Aliases set_field].
  destruct (normalize_aliases (Aliases d)) as [l r] eqn:Hl. intros [= <- ->].
  assert (valid_host n) as Hv.
  { unfold NormalizeName in Hn. unfold HasPrefix in Hp. bool_facts.
    destruct (CutPrefix "*." (TrimSpace (Domain d))) as [rest|]; [by destruct Hp|]. eauto with l8. }
  destruct (normalize_aliases_spec _ _ Hl) as [Hlen Hi]. split_and!; [done|done|done|].
  unfold NormalizeNames. cbn [Domain Aliases set_field]. rewrite (TrimSpace_plain n) by (by apply valid_host_plain).
  unfold HasPrefix. rewrite valid_host_not_wild by done. rewrite bool_decide_eq_false_2 by (by intros [? [=]]).
  rewrite NormalizeName_host by done. cbn [Aliases set_field]. by rewrite Hi.
Qed.

(** Validation of a domain in normal form returns it. *)
Lemma ValidateDomain_normal d others base d' r :
  NormalizeNames d = (d, Ok tt) → ValidateDomain d others base = (d', r) → d' = d.
Proof. intros Hn. unfold ValidateDomain. rewrite Hn. by intros [= <- _]. Qed.
End names.

Section service.
Context {GU : GoUnicode} {GF : GoFold} {CR : Crypto} {X5 : X509} (c : ClusterFile) (Hbase : valid_host (cfBaseDomain c)).

(** ** What every stored row satisfies *)

Record row_ok (d : StoredDomain) : Prop := {
  rw_normal : NormalizeNames (sdDom d) = (sdDom d, Ok tt);
  rw_base : is_base (sdDom d) = true → Domain (sdDom d) = cfBaseDomain c ∧ Aliases (sdDom d) = ["*." +:+ cfBaseDomain c] ∧
    PortForwards (sdDom d) = TunnelBaseForwards c;
  rw_site n : is_site (sdDom d) = true → n ∈ Names (sdDom d) → covers_tunnels c n = false;
  rw_files : CertFingerprint d ≠ "" → CertStoragePath d ≠ "" ∧ KeyStoragePath d ≠ "";
  rw_status : CertStatus (sdDom d) = EDGE_CERT_STATUS_VALID ∨ CertStatus (sdDom d) = EDGE_CERT_STATUS_EXPIRING → CertFingerprint d ≠ "";
  rw_terminate pf : pf ∈ PortForwards (sdDom d) → Mode pf = EDGE_FORWARD_MODE_TERMINATE →
    CertStatus (sdDom d) = EDGE_CERT_STATUS_VALID ∨ CertStatus (sdDom d) = EDGE_CERT_STATUS_EXPIRING;
}.

Lemma NormalizeNames_base d :
  Domain d = cfBaseDomain c → Aliases d = ["*." +:+ cfBaseDomain c] → NormalizeNames d = (d, Ok tt).
Proof using Hbase.
  destruct d as [id dn al k en ai di st pf]. cbn. intros -> ->. unfold NormalizeNames. cbn [Domain Aliases set_field].
  rewrite (TrimSpace_plain (cfBaseDomain c)) by (by apply valid_host_plain). unfold HasPrefix.
  rewrite valid_host_not_wild by done. rewrite bool_decide_eq_false_2 by (by intros [? [=]]).
  rewrite NormalizeName_host by done. cbn [Aliases set_field normalize_aliases]. rewrite NormalizeName_wild by done. done.
Qed.

Lemma NormalizeNames_forwards d l :
  NormalizeNames d = (d, Ok tt) → NormalizeNames (d <| PortForwards := l |>) = (d <| PortForwards := l |>, Ok tt).
Proof.
  destruct d as [id dn al k en ai di st pf]. unfold NormalizeNames. cbn [Domain Aliases set_field]. destruct (HasPrefix _ _); [done|].
  destruct (NormalizeName dn); [|done]. cbn [Domain Aliases set_field]. destruct (normalize_aliases al) as [l' r]. by intros [= -> -> ->].
Qed.

(** The parts of a domain that completing it leaves alone. *)
Definition same_rest (d d' : EdgeDomain) : Prop :=
  DomainId d' = DomainId d ∧ Enabled d' = Enabled d ∧ DAllowIps d' = DAllowIps d ∧ DDenyIps d' = DDenyIps d ∧ CertStatus d' = CertStatus d.

Record completed (d d' : EdgeDomain) : Prop := {
  cp_rest : same_rest d d';
  cp_normal : NormalizeNames d' = (d', Ok tt);
  cp_kind : Kind d' ≠ EDGE_DOMAIN_KIND_UNSPECIFIED;
  cp_domain : Domain d' ≠ "";
  cp_aliases : Aliases d' = [] → Aliases d = [];
  cp_forwards : PortForwards d' = [] → PortForwards d = [];
  cp_base : is_base d' = true → Domain d' = cfBaseDomain c ∧ Aliases d' = ["*." +:+ cfBaseDomain c] ∧ PortForwards d' = TunnelBaseForwards c;
  cp_site n : is_site d' = true → n ∈ Names d' → covers_tunnels c n = false;
}.

Lemma valid_host_nonempty d : valid_host d → d ≠ "".
Proof. intros (_ & Hl & _) ->. cbn in Hl. lia. Qed.

Lemma TunnelBaseForwards_nonempty : TunnelBaseForwards c ≠ [].
Proof. unfold TunnelBaseForwards. by destruct (port_range _). Qed.

Lemma default_kind_spec d :
  same_rest d (default_kind d) ∧ Domain (default_kind d) = Domain d ∧ Aliases (default_kind d) = Aliases d ∧
  PortForwards (default_kind d) = PortForwards d ∧ Kind (default_kind d) ≠ EDGE_DOMAIN_KIND_UNSPECIFIED.
Proof. unfold default_kind, same_rest. destruct (Kind d) eqn:Hk; cbn; rewrite ?Hk; done. Qed.

Lemma complete_ok fresh existing d d' : complete_domain c fresh existing d = Ok d' → completed d d'.
Proof using Hbase.
  unfold complete_domain. intros Hc. destruct (default_kind_spec d) as (Hrest & Hdn & Hal & Hpf & Hkind).
  set (d0 := default_kind d) in *. clearbody d0. unfold protectTunnelBase in Hc.
  destruct (match existing with Some _ => _ | None => _ end); [done|]. destruct (is_base d0) eqn:Hb; cbn [negb] in Hc.
  - set (d1 := d0 <| Domain := _ |> <| Aliases := _ |> <| PortForwards := _ |>) in Hc.
    rewrite (NormalizeNames_base d1) in Hc by done.
    assert (is_site d1 = false) as Hs.
    { unfold is_site, is_base in *. apply bool_decide_eq_true in Hb. apply bool_decide_eq_false. cbn. by rewrite Hb. }
    rewrite Hs in Hc. injection Hc as <-. split; [done|by apply NormalizeNames_base|done| | | | |].
    + by apply valid_host_nonempty.
    + done.
    + by intros ?%TunnelBaseForwards_nonempty.
    + done.
    + by rewrite Hs.
  - destruct (NormalizeNames d0) as [d1 [[]|]] eqn:Hn; [|done].
    destruct (NormalizeNames_spec d0 d1 Hn) as (Heq & Hv & Hlen & Hidem).
    assert (Kind d1 = Kind d0) as Hk1 by (by rewrite Heq). assert (is_base d1 = false) as Hb1 by (unfold is_base; by rewrite Hk1).
    assert (is_site d1 = true) as Hs.
    { unfold is_base in Hb1. unfold is_site. apply bool_decide_eq_true. apply bool_decide_eq_false in Hb1. rewrite Hk1 in *. by destruct (Kind d0). }
    rewrite Hs in Hc. destruct (List.find _ _) eqn:Hf; [done|]. injection Hc as <-.
    assert (same_rest d d1) as Hr1 by (rewrite Heq; done).
    unfold defaultNewForwards. split.
    + done.
    + by apply NormalizeNames_forwards.
    + cbn. by rewrite Hk1.
    + by apply valid_host_nonempty.
    + cbn. intros Ha. apply nil_length_inv. rewrite <-Hal, <-Hlen, Ha. done.
    + intros Hi%(f_equal (@length _)). cbn in Hi. rewrite length_imap in Hi. apply nil_length_inv.
      assert (PortForwards d1 = PortForwards d0) as Hf1 by (by rewrite Heq). by rewrite <-Hpf, <-Hf1.
    + intros Hx. change (is_base d1 = true) in Hx. congruence.
    + intros n _ Hin%list_elem_of_In. by apply (List.find_none _ _ Hf).
Qed.

(** ** Certificates *)

Lemma hex_string_nonempty s : s ≠ "" → hex_string s ≠ "".
Proof. by destruct s. Qed.

Context (sha_nonempty : ∀ s, sha256 s ≠ "").

Lemma cert_status_set leaf ns now : cert_status leaf ns now ≠ EDGE_CERT_STATUS_UNSPECIFIED.
Proof. unfold cert_status. by repeat case_match. Qed.

Lemma certificate_ok answer now d existing d' :
  (∀ o, existing = Some o → row_ok o) → checkCertificate answer now d existing = Ok d' →
  d' = d <| CertFingerprint := CertFingerprint d' |> <| sdDom := sdDom d <| CertStatus := CertStatus (sdDom d') |> |> ∧
  (CertFingerprint d' ≠ "" → CertStoragePath d ≠ "" ∧ KeyStoragePath d ≠ "") ∧
  (CertStatus (sdDom d') = EDGE_CERT_STATUS_VALID ∨ CertStatus (sdDom d') = EDGE_CERT_STATUS_EXPIRING → CertFingerprint d' ≠ "") ∧
  (CertFingerprint d' = "" → CertStoragePath d = "" ∧ KeyStoragePath d = "") ∧
  (CertStatus (sdDom d') = EDGE_CERT_STATUS_UNSPECIFIED → ∃ o, existing = Some o ∧ CertStatus (sdDom o) = EDGE_CERT_STATUS_UNSPECIFIED).
Proof using sha_nonempty.
  intros Hrow. unfold checkCertificate.
  destruct (String.eqb_spec (CertStoragePath d) "") as [Hc|Hc], (String.eqb_spec (KeyStoragePath d) "") as [Hk|Hk]; cbn [andb orb]; try done.
  { intros [= <-]. cbn. split_and!; try done. by intros [?|?]. }
  destruct (cert_unchanged d existing) as [o|] eqn:Hu.
  - intros [= <-]. unfold cert_unchanged in Hu. destruct existing as [o'|]; [|done]. destruct (_ && _) eqn:Hb in Hu; [|done].
    injection Hu as ->. bool_facts. rewrite String.eqb_neq in *. cbn. split_and!; try done. intros Hst. by exists o.
  - destruct (FetchFile answer (CertStoragePath d)); [|done]. destruct (FetchFile answer (KeyStoragePath d)); [|done].
    unfold SummarizeCert. destruct (X509KeyPair _ _) as [leaf|]; [|done]. cbn [mbind option_bind].
    pose proof (cert_status_set leaf (Names (sdDom d)) now) as Hset. pose proof (hex_string_nonempty _ (sha_nonempty (lRaw leaf))) as Hfp.
    cbn [smStatus]. destruct (cert_status _ _ _) eqn:Hst; try done; intros [= <-]; cbn; split_and!; done.
Qed.

(** ** Patches *)

Lemma str_or_empty p o : str_or p o = "" → o = "".
Proof. unfold str_or. by destruct (String.eqb_spec p "") as [->|]. Qed.
Lemma list_or_empty {A} (p o : list A) : list_or p o = [] → o = [].
Proof. by destruct p. Qed.

(** A domain that sets every field the stored one sets. *)
Record sets_all (o x : StoredDomain) : Prop := {
  sa_id : DomainId (sdDom x) = DomainId (sdDom o);
  sa_domain : Domain (sdDom x) ≠ "";
  sa_aliases : Aliases (sdDom x) = [] → Aliases (sdDom o) = [];
  sa_kind : Kind (sdDom x) ≠ EDGE_DOMAIN_KIND_UNSPECIFIED;
  sa_enabled : Enabled (sdDom o) = true → Enabled (sdDom x) = true;
  sa_allow : DAllowIps (sdDom x) = [] → DAllowIps (sdDom o) = [];
  sa_deny : DDenyIps (sdDom x) = [] → DDenyIps (sdDom o) = [];
  sa_status : CertStatus (sdDom x) = EDGE_CERT_STATUS_UNSPECIFIED → CertStatus (sdDom o) = EDGE_CERT_STATUS_UNSPECIFIED;
  sa_forwards : PortForwards (sdDom x) = [] → PortForwards (sdDom o) = [];
  sa_cert : CertStoragePath x = "" → CertStoragePath o = "";
  sa_key : KeyStoragePath x = "" → KeyStoragePath o = "";
  sa_print : CertFingerprint x = "" → CertFingerprint o = "";
  sa_version : ConfigVersion x ≠ 0;
  sa_note : sdNote x = "" → sdNote o = "";
}.

(** A list, and a port forward, that nothing is taken away from. *)
Definition grown {A} (o x : list A) : Prop := (length o ≤ length x)%nat.
Record forward_kept (o x : EdgePortForward) : Prop := {
  fk_id : ForwardId x = "" → ForwardId o = "";
  fk_port : ListenPort x = 0 → ListenPort o = 0;
  fk_end : ListenPortEnd x = 0 → ListenPortEnd o = 0;
  fk_protocol : FProtocol x = EDGE_PROTOCOL_UNSPECIFIED → FProtocol o = EDGE_PROTOCOL_UNSPECIFIED;
  fk_mode : Mode x = EDGE_FORWARD_MODE_UNSPECIFIED → Mode o = EDGE_FORWARD_MODE_UNSPECIFIED;
  fk_kind : TargetKind x = EDGE_TARGET_KIND_UNSPECIFIED → TargetKind o = EDGE_TARGET_KIND_UNSPECIFIED;
  fk_targets : Targets o `prefix_of` Targets x;
  fk_dns : TargetDns x = "" → TargetDns o = "";
  fk_target : TargetPort x = 0 → TargetPort o = 0;
  fk_scheme : BackendScheme x = EDGE_BACKEND_SCHEME_UNSPECIFIED → BackendScheme o = EDGE_BACKEND_SCHEME_UNSPECIFIED;
  fk_verify : SkipVerify o = true → SkipVerify x = true;
  fk_proxy : ProxyProtocol o = true → ProxyProtocol x = true;
  fk_lb : Lb x = EDGE_LB_ALGORITHM_UNSPECIFIED → Lb o = EDGE_LB_ALGORITHM_UNSPECIFIED;
  fk_health : HealthType x = EDGE_HEALTH_TYPE_UNSPECIFIED → HealthType o = EDGE_HEALTH_TYPE_UNSPECIFIED;
  fk_path : HealthPath x = "" → HealthPath o = "";
  fk_interval : HealthInterval x = 0 → HealthInterval o = 0;
  fk_enabled : FEnabled o = true → FEnabled x = true;
  fk_note : Note x = "" → Note o = "";
}.

(** No list of the domain is shorter than in the stored one, and no forward of
the stored one loses a field. *)
Record extends (o x : StoredDomain) : Prop := {
  ex_aliases : grown (Aliases (sdDom o)) (Aliases (sdDom x)) ∧ "" ∉ Aliases (sdDom x);
  ex_allow : grown (DAllowIps (sdDom o)) (DAllowIps (sdDom x)) ∧ "" ∉ DAllowIps (sdDom x);
  ex_deny : grown (DDenyIps (sdDom o)) (DDenyIps (sdDom x)) ∧ "" ∉ DDenyIps (sdDom x);
  ex_forwards : grown (PortForwards (sdDom o)) (PortForwards (sdDom x));
  ex_forward i a b : PortForwards (sdDom o) !! i = Some a → PortForwards (sdDom x) !! i = Some b → forward_kept a b;
}.

Lemma existing_of_id all id o : existing_of all id = Some o → o ∈ all ∧ sdId o = id.
Proof.
  unfold existing_of. intros Hl%last_Some_elem_of. apply elem_of_filterb in Hl as [Hin Hid]. by apply String.eqb_eq in Hid.
Qed.

(** ** The callback *)

(** What is stored of an element that the callback passes. *)
Record validated (all : list StoredDomain) (a : Action) (d x : StoredDomain) : Prop := {
  vd_id : sdId x = sdId d;
  vd_row : row_ok x;
  vd_rules : ∃ d0, ValidateDomain d0 (sdDom <$> all) (cfBaseDomain c) = (sdDom x, Ok tt);
  vd_found : a ≠ POST → ∃ o, existing_of all (sdId d) = Some o;
  vd_patch o : a = PATCH → existing_of all (sdId d) = Some o → sets_all o x;
}.

Lemma target_id all a d d1 : target_domain a (existing_of all (sdId d)) d = Some d1 → sdId d1 = sdId d.
Proof.
  unfold target_domain. destruct a; [by intros [= <-]|destruct (existing_of all (sdId d)); [by intros [= <-]|done]|].
  destruct (existing_of all (sdId d)) as [o|] eqn:He; [|done]. intros [= <-]. apply existing_of_id in He as [_ Ho].
  unfold sdId in *. cbn. unfold str_or. destruct (String.eqb_spec (DomainId (sdDom d)) ""); [congruence|done].
Qed.

Lemma validate_domain_ok env all a d x :
  (∀ o, o ∈ all → row_ok o) → 0 < deNow env → validate_domain c env all a d = Ok x → validated all a d x.
Proof using Hbase sha_nonempty.
  intros Hall Hnow. unfold validate_domain. destruct (negb _); [done|].
  destruct (target_domain a _ d) as [d1|] eqn:Ht; [|done]. pose proof (target_id _ _ _ _ Ht) as Hid.
  destruct (complete_domain c _ _ (sdDom d1)) as [dom|] eqn:Hcomp; [|done]. apply complete_ok in Hcomp as Hc.
  destruct (checkCertificate _ _ _ _) as [d2|] eqn:Hcert; [|done].
  assert (∀ o, existing_of all (sdId d) = Some o → row_ok o) as Hex by (intros o [Ho _]%existing_of_id; by apply Hall).
  destruct (certificate_ok _ _ _ _ _ Hex Hcert) as (Hshape & Hfiles & Hstat & Hnofp & Hunspec). cbn in Hshape, Hfiles, Hnofp.
  destruct (ValidateDomain (sdDom d2) _ _) as [dom' [[]|]] eqn:Hv; [|done]. intros [= <-].
  destruct Hc as [(Eid & Een & Eai & Edi & Est) Hn Hk Hdn Hal Hpf Hcb Hcs].
  assert (sdDom d2 = dom <| CertStatus := CertStatus (sdDom d2) |>) as Hd2 by (by rewrite Hshape).
  set (st := CertStatus (sdDom d2)) in *.
  assert (NormalizeNames (sdDom d2) = (sdDom d2, Ok tt)) as Hn2.
  { rewrite Hd2. revert Hn. clear. destruct dom as [id dn al k en ai di st0 pf]. unfold NormalizeNames. cbn [Domain Aliases set_field].
    destruct (HasPrefix _ _); [done|]. destruct (NormalizeName dn); [|done]. cbn [Domain Aliases set_field].
    destruct (normalize_aliases al) as [l r]. by intros [= -> -> ->]. }
  pose proof (ValidateDomain_normal _ _ _ _ _ Hn2 Hv) as ->.
  split.
  - unfold sdId. cbn. rewrite Hd2. cbn. rewrite Eid. by apply Hid.
  - split; cbn.
    + done.
    + rewrite Hd2. exact Hcb.
    + intros n. rewrite Hd2. exact (Hcs n).
    + rewrite Hshape. cbn. exact Hfiles.
    + exact Hstat.
    + intros pf. by apply (ValidateDomain_terminate _ _ _ _ pf Hv).
  - by exists (sdDom d2).
  - intros Ha. unfold target_domain in Ht. destruct a; [done| |]; destruct (existing_of _ _); eauto; done.
  - intros o -> Ho. unfold target_domain in Ht. rewrite Ho in Ht. injection Ht as <-. pose proof (Hex o Ho) as Hrow.
    pose proof (existing_of_id _ _ _ Ho) as [_ Hoid]. split; cbn; rewrite ?Hd2; cbn.
    + unfold sdId in Hid, Hoid. by rewrite Eid, Hid, Hoid.
    + done.
    + intros Hx. apply Hal in Hx. cbn in Hx. by apply list_or_empty in Hx.
    + done.
    + intros Hx. rewrite Een. cbn. by rewrite Hx, orb_true_r.
    + rewrite Eai. cbn. apply list_or_empty.
    + rewrite Edi. cbn. apply list_or_empty.
    + fold st. intros Hx. destruct (Hunspec Hx) as (o' & Ho' & Hst'). rewrite Ho in Ho'. by injection Ho' as <-.
    + intros Hx. apply Hpf in Hx. cbn in Hx. by apply list_or_empty in Hx.
    + rewrite Hshape. cbn. apply str_or_empty.
    + rewrite Hshape. cbn. apply str_or_empty.
    + intros Hx. destruct (Hnofp Hx) as [Hp1 Hp2]. apply str_or_empty in Hp1. destruct (String.eqb_spec (CertFingerprint o) "") as [|Hne]; [done|].
      by destruct (rw_files _ Hrow Hne).
    + lia.
    + rewrite Hshape. cbn. apply str_or_empty.
Qed.

(** ** The table *)

Context {MR : MapRange} {TS : TableService sdId}.
(** The table service's PATCH skips zero values and never shrinks a list: it
stores the element as it is when that takes nothing away from the row. *)
Context (patch_stores : ∀ x o, sets_all o x → extends o x → merge x o = x).

Record store_good (m : gmap string StoredDomain) : Prop := {
  sg_key : m !! "" = None;
  sg_rows id d : m !! id = Some d → sdId d = id ∧ row_ok d;
  sg_consistent : consistent (cfBaseDomain c) (sdDom <$> m);
}.

Lemma store_good_empty : store_good ∅.
Proof using Type. split; [done|by intros * ?%lookup_empty_Some|]. rewrite fmap_empty. by split; intros * ?%lookup_empty_Some. Qed.

Lemma store_good_delete m k : store_good m → store_good (delete k m).
Proof using Type.
  intros [Hk Hr Hc]. split; [by rewrite lookup_delete_None; right|by intros id d [_ ?]%lookup_delete_Some; apply Hr|].
  rewrite fmap_delete. by apply consistent_delete.
Qed.

Lemma store_good_put (t : table sdId) x d0 :
  store_good (rows t) → sdId x ≠ "" → row_ok x →
  ValidateDomain d0 (sdDom <$> list_rows t) (cfBaseDomain c) = (sdDom x, Ok tt) → store_good (<[sdId x := x]> (rows t)).
Proof using Type.
  intros [Hk Hr Hc] Hid Hx Hv. split; [by rewrite lookup_insert_ne|intros id d [[<- <-]|[_ Hd]]%lookup_insert_Some; [done|by apply Hr]|].
  rewrite fmap_insert. apply (consistent_put _ _ d0 (sdDom <$> list_rows t)); [done| |done].
  intros id o. rewrite lookup_fmap. intros (d & Hd & ->)%fmap_Some. apply list_elem_of_fmap_2, elem_of_list_rows.
  destruct (Hr id d Hd) as [Hdid _]. split; [|by exists id]. rewrite Hdid. intros ->. congruence.
Qed.

(** A write keeps the store good, changes no other row, and a row it stored is
the element it returns. *)
Lemma domain_write_good env fresh a d t t' r :
  fresh ≠ "" → 0 < deNow env → store_good (rows t) →
  (a = PATCH → ∀ o x, r = Ok x → rows t !! sdId x = Some o → extends o x) → domain_write c env fresh a d t = (t', r) →
  store_good (rows t') ∧ (rows t' = rows t ∨ ∃ x, r = Ok x ∧ rows t' = <[sdId x := x]> (rows t)).
Proof using Hbase sha_nonempty patch_stores.
  intros Hfresh Hnow Hg Hext Hw. unfold domain_write, service_write in Hw.
  destruct (Before _ _ _ _ d) as [x|e] eqn:Hb; [|by injection Hw as <- <-; auto].
  unfold Before in Hb. cbn [Validate SetID domain_hooks] in Hb.
  set (d1 := match a with POST => _ | _ => d end) in Hb.
  assert (∀ o, o ∈ list_rows t → row_ok o ∧ sdId o ≠ "" ∧ rows t !! sdId o = Some o) as Hall.
  { intros o (Hne & k & Hk)%elem_of_list_rows. destruct (sg_rows _ Hg k o Hk) as [<- Hrow]. done. }
  apply validate_domain_ok in Hb as Hv; [|intros o Ho; by apply Hall|done]. destruct Hv as [Hid Hrow [d0 Hrules] Hfound Hpatch].
  assert (sdId x ≠ "") as Hne.
  { rewrite Hid. destruct a; [|destruct Hfound as (o & [Ho <-]%existing_of_id); [done|by apply Hall]..].
    unfold d1, sdId. cbn. unfold GenerateID. by destruct (String.eqb_spec (DomainId (sdDom d)) ""). }
  pose proof (store_good_put t x d0 Hg Hne Hrow Hrules) as Hput.
  destruct a; cbn in Hw; [destruct (svcPost x t) as [t1 [why|]] eqn:Hs|destruct (svcPut x t) as [t1 [why|]] eqn:Hs|
    destruct (svcPatch x t) as [t1 [why|]] eqn:Hs]; cbn in Hw; injection Hw as <- <-.
  - apply svcPost_err in Hs. rewrite Hs. auto.
  - apply svcPost_ok in Hs as [->|[_ ->]]; eauto.
  - apply svcPut_err in Hs. rewrite Hs. auto.
  - apply svcPut_ok in Hs as [->|[_ ->]]; eauto.
  - apply svcPatch_err in Hs. rewrite Hs. auto.
  - destruct Hfound as [o Ho]; [done|]. pose proof (existing_of_id _ _ _ Ho) as [Hin Hoid].
    assert (sdId x = sdId o) as Hxo by congruence. apply (svcPatch_ok x o) in Hs; [|rewrite Hxo; by apply Hall].
    rewrite patch_stores in Hs; [rewrite Hs; eauto|by apply Hpatch|apply Hext; [done|done|]]. rewrite Hxo. by apply Hall.
Qed.

(** One change of the table: a write through the service (for a PATCH, one that
takes nothing away from a list or a forward of the row), the backend's upkeep
of the tunnel base, a row that is deleted. *)
Inductive domain_step (t : table sdId) : table sdId → Prop :=
| ds_write env fresh a d : fresh ≠ "" → 0 < deNow env → a ≠ PATCH → domain_step t (domain_write c env fresh a d t).1
| ds_patch env fresh d : fresh ≠ "" → 0 < deNow env →
    (∀ o x, (domain_write c env fresh PATCH d t).2 = Ok x → rows t !! sdId x = Some o → extends o x) →
    domain_step t (domain_write c env fresh PATCH d t).1
| ds_ensure env up fresh : fresh ≠ "" → 0 < deNow env → domain_step t (EnsureTunnelBase c env up fresh t).1
| ds_delete k : domain_step t (svcDelete k t).1.

Lemma domain_step_good t t' : domain_step t t' → store_good (rows t) → store_good (rows t').
Proof using Hbase sha_nonempty patch_stores.
  intros [env fresh a d Hf Hn Ha|env fresh d Hf Hn Hext|env up fresh Hf Hn|k] Hg.
  - destruct (domain_write c env fresh a d t) as [t1 r] eqn:Hw. by apply domain_write_good in Hw as [? _].
  - destruct (domain_write c env fresh PATCH d t) as [t1 r] eqn:Hw. apply domain_write_good in Hw as [? _]; [done..|].
    intros _ o x ->. by apply Hext.
  - unfold EnsureTunnelBase. destruct (negb up); [done|]. destruct (List.find _ _) as [d|].
    + destruct (sameForwards _ _); [done|]. destruct (domain_write _ _ _ _ _ _) as [t1 r] eqn:Hw. by apply domain_write_good in Hw as [? _].
    + destruct (domain_write _ _ _ _ _ _) as [t1 r] eqn:Hw. by apply domain_write_good in Hw as [? _].
  - destruct (svcDelete k t) as [t1 [why|]] eqn:Hs; cbn.
    + by rewrite (svcDelete_err _ _ _ _ Hs).
    + rewrite (svcDelete_ok _ _ _ Hs). by apply store_good_delete.
Qed.

Lemma domain_reachable_good t0 t : rows t0 = ∅ → rtc domain_step t0 t → store_good (rows t).
Proof using Hbase sha_nonempty patch_stores.
  intros Ht0 Hr. assert (store_good (rows t0)) as Hg by (rewrite Ht0; apply store_good_empty).
  revert Hg. clear Ht0. induction Hr; eauto using domain_step_good.
Qed.

(** C10: the stored edge domains never conflict and never take over tunnels. After
any writes to the service (accepted or refused; whole rows, and patches that do
not shorten a list or clear a field of a forward), upkeep of the tunnel base
and deletions: a name belongs to one domain; the tunnel base,
of which there is at most one, has exactly the name, wildcard and ports of
cluster.yaml; no site has a wildcard over tunnel names; ports are valid, no
domain listens twice on a port and two share one only if both route by name
there with the same protocol; a forward that terminates TLS belongs to a domain
that has a certificate and key. *)
Theorem edge_service_consistent t0 t :
  rows t0 = ∅ → rtc domain_step t0 t →
  let m := rows t in
  (∀ id1 id2 d1 d2 n, m !! id1 = Some d1 → m !! id2 = Some d2 → n ∈ Names (sdDom d1) → n ∈ Names (sdDom d2) → id1 = id2) ∧
  (∀ id d, m !! id = Some d → Kind (sdDom d) = EDGE_DOMAIN_KIND_TUNNEL_BASE →
     Names (sdDom d) = [cfBaseDomain c; "*." +:+ cfBaseDomain c] ∧ PortForwards (sdDom d) = TunnelBaseForwards c ∧
     ∀ id' d', m !! id' = Some d' → Kind (sdDom d') = EDGE_DOMAIN_KIND_TUNNEL_BASE → id' = id) ∧
  (∀ id d n, m !! id = Some d → Kind (sdDom d) = EDGE_DOMAIN_KIND_SITE → n ∈ Names (sdDom d) → covers_tunnels c n = false) ∧
  (∀ id1 id2 d1 d2 i j a b p, m !! id1 = Some d1 → m !! id2 = Some d2 →
     PortForwards (sdDom d1) !! i = Some a → PortForwards (sdDom d2) !! j = Some b → listens a p → listens b p →
     1 ≤ p ≤ 65535 ∧ FProtocol a = FProtocol b ∧
     (id1 = id2 ∧ i = j ∨ id1 ≠ id2 ∧ (FProtocol a = EDGE_PROTOCOL_TLS ∨ FProtocol a = EDGE_PROTOCOL_HTTP))) ∧
  (∀ id d pf, m !! id = Some d → pf ∈ PortForwards (sdDom d) → Mode pf = EDGE_FORWARD_MODE_TERMINATE →
     CertFingerprint d ≠ "" ∧ CertStoragePath d ≠ "" ∧ KeyStoragePath d ≠ "").
Proof using Hbase sha_nonempty patch_stores.
  intros Ht0 Hr m. destruct (domain_reachable_good t0 t Ht0 Hr) as [_ Hrows Hc]. fold m in Hrows, Hc.
  destruct (consistent_facts _ _ Hc) as (Hnames & Hbases & Hports).
  assert (∀ id d, m !! id = Some d → (sdDom <$> m) !! id = Some (sdDom d)) as Hl by (intros id d Hd; by rewrite lookup_fmap, Hd).
  split_and!.
  - intros id1 id2 d1 d2 n Hd1 Hd2. apply (Hnames id1 id2 (sdDom d1) (sdDom d2) n); by apply Hl.
  - intros id d Hd Hk. destruct (Hrows id d Hd) as [_ Hrow]. destruct (rw_base _ Hrow) as (Hdn & Hal & Hpf).
    { unfold is_base. by apply bool_decide_eq_true. }
    unfold Names. rewrite Hdn, Hal. split_and!; [done..|]. intros id' d' Hd' Hk'.
    apply (Hbases id' id (sdDom d') (sdDom d)); [by apply Hl..|done|done].
  - intros id d n Hd Hk Hn. destruct (Hrows id d Hd) as [_ Hrow]. apply (rw_site _ Hrow); [|done]. by apply bool_decide_eq_true.
  - intros id1 id2 d1 d2 i j a b p Hd1 Hd2. apply (Hports id1 id2 (sdDom d1) (sdDom d2)); by apply Hl.
  - intros id d pf Hd Hin Hm. destruct (Hrows id d Hd) as [_ Hrow]. pose proof (rw_status _ Hrow (rw_terminate _ Hrow pf Hin Hm)) as Hfp. split; [done|].
    by apply (rw_files _ Hrow).
Qed.
End service.

(** ** A sample service *)

Module DomainSample.
#[export] Instance crypto : Crypto := {|
  bcrypt_is_hash _ := true; bcrypt_matches a b := String.eqb a b; sha256 s := "#" +:+ s |}.
Definition leaf : Leaf := mkLeaf "shop.example" ["shop.example"] "ca" 0 (1000 * hour) "raw".
#[export] Instance x509 : X509 := {|
  X509KeyPair cert key := if String.eqb cert "cert" then Some leaf else None;
  VerifyHostname l h := existsb (String.eqb h) (lDNSNames l);
|}.
(** A table service whose PATCH skips zero values and never shrinks a list. *)
Definition enum_or {A} `{EqDecision A} (zero p o : A) : A := if decide (p = zero) then o else p.
Definition list_over {A} (f : A → A → A) : list A → list A → list A :=
  fix go p o := match p, o with x :: p, y :: o => f x y :: go p o | [], o => o | p, [] => p end.
Definition forward_over (p o : EdgePortForward) : EdgePortForward :=
  mkForward (str_or (ForwardId p) (ForwardId o)) (num_or (ListenPort p) (ListenPort o)) (num_or (ListenPortEnd p) (ListenPortEnd o))
    (enum_or EDGE_PROTOCOL_UNSPECIFIED (FProtocol p) (FProtocol o)) (enum_or EDGE_FORWARD_MODE_UNSPECIFIED (Mode p) (Mode o))
    (enum_or EDGE_TARGET_KIND_UNSPECIFIED (TargetKind p) (TargetKind o)) (list_over (λ x _, x) (Targets p) (Targets o))
    (str_or (TargetDns p) (TargetDns o)) (num_or (TargetPort p) (TargetPort o))
    (enum_or EDGE_BACKEND_SCHEME_UNSPECIFIED (BackendScheme p) (BackendScheme o)) (SkipVerify p || SkipVerify o)
    (ProxyProtocol p || ProxyProtocol o) (enum_or EDGE_LB_ALGORITHM_UNSPECIFIED (Lb p) (Lb o))
    (enum_or EDGE_HEALTH_TYPE_UNSPECIFIED (HealthType p) (HealthType o)) (str_or (HealthPath p) (HealthPath o))
    (num_or (HealthInterval p) (HealthInterval o)) (FEnabled p || FEnabled o) (str_or (Note p) (Note o)).
Definition row_over (x o : StoredDomain) : StoredDomain :=
  let p := sdDom x in let q := sdDom o in
  mkStoredDomain
    (mkDomain (str_or (DomainId p) (DomainId q)) (str_or (Domain p) (Domain q)) (list_over str_or (Aliases p) (Aliases q))
       (enum_or EDGE_DOMAIN_KIND_UNSPECIFIED (Kind p) (Kind q)) (Enabled p || Enabled q)
       (list_over str_or (DAllowIps p) (DAllowIps q)) (list_over str_or (DDenyIps p) (DDenyIps q))
       (enum_or EDGE_CERT_STATUS_UNSPECIFIED (CertStatus p) (CertStatus q))
       (list_over forward_over (PortForwards p) (PortForwards q)))
    (str_or (CertStoragePath x) (CertStoragePath o)) (str_or (KeyStoragePath x) (KeyStoragePath o))
    (str_or (CertFingerprint x) (CertFingerprint o)) (num_or (ConfigVersion x) (ConfigVersion o)) (str_or (sdNote x) (sdNote o)).

Lemma str_or_same p o : (p = "" → o = "") → str_or p o = p.
Proof. unfold str_or. destruct (String.eqb_spec p "") as [->|]; [by intros ->|done]. Qed.
Lemma num_or_same p o : (p = 0 → o = 0) → num_or p o = p.
Proof. unfold num_or. destruct (Z.eqb_spec p 0) as [->|]; [by intros ->|done]. Qed.
Lemma enum_or_same {A} `{EqDecision A} (zero p o : A) : (p = zero → o = zero) → enum_or zero p o = p.
Proof. unfold enum_or. case_decide as Hd; [|done]. intros Ho. by rewrite Ho. Qed.
Lemma bool_or_same p o : (o = true → p = true) → p || o = p.
Proof. destruct p, o; naive_solver. Qed.
Lemma list_over_same {A} (f : A → A → A) p o :
  grown o p → (∀ i x y, p !! i = Some x → o !! i = Some y → f x y = x) → list_over f p o = p.
Proof.
  unfold grown. revert o. induction p as [|x p IH]; intros [|y o] Hl Hf; cbn in *; [done|lia|done|].
  f_equal; [by apply (Hf 0%nat)|]. apply IH; [lia|]. intros i. apply (Hf (S i)).
Qed.
Lemma strings_over_same p o : grown o p ∧ "" ∉ p → list_over str_or p o = p.
Proof. intros [Hl Hn]. apply list_over_same; [done|]. intros i x y Hx _. apply str_or_same. intros ->. by apply list_elem_of_lookup_2 in Hx. Qed.
Lemma forward_over_same p o : forward_kept o p → forward_over p o = p.
Proof.
  intros []. destruct p. unfold forward_over. cbn in *. rewrite !str_or_same, !num_or_same, !enum_or_same, !bool_or_same, list_over_same; try done.
  unfold grown. by apply prefix_length.
Qed.

Lemma row_over_stores x o : sets_all o x → extends o x → row_over x o = x.
Proof.
  intros [] []. destruct x as [[] ? ? ? ? ?]. unfold row_over. cbn in *.
  rewrite !str_or_same, !num_or_same, !enum_or_same, !bool_or_same, !strings_over_same, list_over_same; try done; try congruence.
  intros i a b Ha Hb. apply forward_over_same. eauto.
Qed.

Lemma row_over_key x o : sdId x = sdId o → sdId (row_over x o) = sdId o.
Proof. unfold sdId. cbn. intros ->. unfold str_or. by destruct (String.eqb _ ""). Qed.
#[export] Instance service : TableService sdId := map_service _ row_over row_over_key.

Definition file : ClusterFile := mkClusterFile "t.example." "" "" [] "" 0 0 0 0 0 0 0 0 [] "" 0.
Definition cluster : ClusterFile := match normalize file with Ok f => f | Err _ => file end.
Definition env : domain_env :=
  mkDomainEnv (λ p, if HasSuffix ".crt" p then Some "cert" else Some "key") hour (λ _, "f1") true.
Definition fwd (p : Z) (m : EdgeForwardMode) : EdgePortForward :=
  mkForward "" p 0 EDGE_PROTOCOL_TLS m EDGE_TARGET_KIND_UNSPECIFIED [] "" 8443 EDGE_BACKEND_SCHEME_HTTPS false false
    EDGE_LB_ALGORITHM_ROUND_ROBIN EDGE_HEALTH_TYPE_NONE "" 0 false "".
Definition shop (aliases : list string) : StoredDomain :=
  mkStoredDomain (mkDomain "" "Shop.example" aliases EDGE_DOMAIN_KIND_SITE true [] [] EDGE_CERT_STATUS_UNSPECIFIED
    [fwd 443 EDGE_FORWARD_MODE_TERMINATE]) "/data/l8files/edgecert/a.crt" "/data/l8files/edgecert/a.key" "" 0 "".
Definition t0 : table sdId := (∅ : gmap string StoredDomain).
Definition t1 : table sdId := (EnsureTunnelBase cluster env true "base" t0).1.
Definition t2 : table sdId := (domain_write cluster env "shop" POST (shop []) t1).1.
(** A patch that adds an alias. *)
Definition patch : StoredDomain :=
  mkStoredDomain (mkDomain "shop" "" ["www.shop.example"] EDGE_DOMAIN_KIND_UNSPECIFIED false [] [] EDGE_CERT_STATUS_UNSPECIFIED []) "" "" "" 0 "".
Definition t3 : table sdId := (domain_write cluster env "x" PATCH patch t2).1.
End DomainSample.
Import DomainSample.

Lemma patch_extends o x :
  (domain_write cluster env "x" PATCH patch t2).2 = Ok x → rows t2 !! sdId x = Some o → extends o x.
Proof.
  intros Hx Ho. vm_compute in Hx. injection Hx as <-. vm_compute in Ho. injection Ho as <-.
  split; [split; [vm_compute; lia|set_solver]..|vm_compute; lia|].
  intros [|i] a b; cbn; [|done]. intros [= <-] [= <-]. split; try done.
Qed.

Lemma t3_reachable : rtc (domain_step cluster) t0 t3.
Proof.
  apply (rtc_l _ _ t1); [by apply (ds_ensure cluster t0 env true "base")|].
  apply (rtc_l _ _ t2); [by apply (ds_write cluster t1 env "shop" POST)|]. apply rtc_once.
  apply (ds_patch cluster t2 env "x"); [done|done|exact patch_extends].
Qed.

Lemma cluster_base_valid : valid_host (cfBaseDomain cluster).
Proof. apply NormalizeDomain_valid with (s := "t.example"). reflexivity. Qed.

Lemma edge_service_consistent_witness :
  ∃ d, rows t3 !! "base" = Some d ∧ PortForwards (sdDom d) = TunnelBaseForwards cluster.
Proof.
  destruct (rows t3 !! "base") as [d|] eqn:Hd; [|by vm_compute in Hd]. exists d. split; [done|].
  assert (Kind (sdDom d) = EDGE_DOMAIN_KIND_TUNNEL_BASE) as Hk by (vm_compute in Hd; by injection Hd as <-).
  refine (proj1 (proj2 (proj1 (proj2 (edge_service_consistent cluster cluster_base_valid _ _ t0 t3 _ t3_reachable)) "base" d Hd Hk))).
  - done.
  - exact row_over_stores.
  - by vm_compute.
Defined.

(** The callback validates the row with the patch's lists in place of the stored
ones, but the PATCH that then stores it does not shrink a list. A site with
ports 8443 and 9443 is patched to have port 9443 only: the element passes and is
returned, and the row then has two forwards on port 9443. *)
Definition two_ports : StoredDomain :=
  shop [] <| sdDom := sdDom (shop []) <| PortForwards := [fwd 8443 EDGE_FORWARD_MODE_PASSTHROUGH; fwd 9443 EDGE_FORWARD_MODE_PASSTHROUGH] |> |>.
Definition one_port : StoredDomain :=
  patch <| sdDom := sdDom patch <| Aliases := [] |> <| PortForwards := [fwd 9443 EDGE_FORWARD_MODE_PASSTHROUGH] |> |>.
Lemma patch_leaves_unvalidated_row :
  let t := (domain_write cluster env "shop" POST two_ports t1).1 in
  let '(t', r) := domain_write cluster env "x" PATCH one_port t in
  (λ d, ListenPort <$> PortForwards (sdDom d)) <$> (match r with Ok d => Some d | Err _ => None end) = Some [9443] ∧
  (λ d, ListenPort <$> PortForwards (sdDom d)) <$> rows t' !! "shop" = Some [9443; 9443].
Proof. vm_compute. split; reflexivity. Qed.

(** An alias added to a domain keeps the status of the stored certificate, whether
the certificate covers the alias or not: the files are only looked at when they
change. *)
Lemma alias_not_checked :
  ∃ d, rows t3 !! "shop" = Some d ∧ CertStatus (sdDom d) = EDGE_CERT_STATUS_VALID ∧
    "www.shop.example" ∈ Names (sdDom d) ∧ covers leaf "www.shop.example" = false ∧
    is_ok (domain_write cluster env "shop" POST (shop ["www.shop.example"]) t1).2 = false.
Proof.
  destruct (rows t3 !! "shop") as [d|] eqn:Hd; [|by vm_compute in Hd]. exists d. split; [done|].
  vm_compute in Hd. injection Hd as <-. split_and!; [done| |done|by vm_compute]. cbn. apply list_elem_of_In. cbn. auto.
Qed.

(** cluster.yaml is accepted with a gateway port inside the range of tunnel
ports; the tunnel base's row can then not be stored. *)
Lemma gateway_in_range_refused :
  match normalize (file <| pubGateway := 22022 |>) with
  | Ok c => (EnsureTunnelBase c env true "base" t0).2 = Err (Refused (DomRule Overlap))
  | Err _ => False
  end.
Proof. vm_compute. reflexivity. Qed.
