(* ===== verification/EdgeNode.v ===== *)
(** * An edge in the cluster (go/tun/edgenode node.go and ctl.go, the callback of
go/tun/edge/nodes)

The node feeds its edge the stored domains and their certificates, keeps both in
files for when the backend is down, and reports the edge's state. What the
backend, the file store and the disk answer are arguments. *)

From S2P Require Import Prelude GoStrings Protocol Policy NetIP Limiter Access Claims EdgeConf EdgePool Edge LiveView Manage Certs ServerConf Reservations EdgeDomains.
From stdpp Require Import options.
#[local] Open Scope l8_scope.
#[local] Open Scope Z_scope.

Record EdgeNodeReport := mkReport {
  erEdgeId : string;
  erNodeIp : string;
  erVersion : string;
  erConfigVersion : Z;
  erListeners : list EdgeListenerStatus;
  erBackends : list EdgeBackendStatus;
  erTotalConns : Z;
  erStartedAt : Z;
  erLastSeen : Z;
  erSimulated : bool;
}.
#[export] Instance eta_report : Eta EdgeNodeReport := λ r,
  mkReport (erEdgeId r) (erNodeIp r) (erVersion r) (erConfigVersion r) (erListeners r) (erBackends r) (erTotalConns r)
    (erStartedAt r) (erLastSeen r) (erSimulated r).

(** The callback of the reports' service. *)
Inductive report_err := ReportId | ReportSimulated.
Definition validate_report (allowSimulated : bool) (now : Z) (action : Action) (n : EdgeNodeReport) : result report_err EdgeNodeReport :=
  match action with
  | PATCH => Ok n
  | _ =>
      refuse! String.eqb (erEdgeId n) "" with ReportId ;;
      refuse! erSimulated n && negb allowSimulated with ReportSimulated ;;
      Ok (if erLastSeen n =? 0 then n <| erLastSeen := unix now |> else n)
  end.

Record edge_node := mkEdgeNode {
  enId : string;
  enNodeIP : string;
  enVersion : string;
  enEdge : edge;
  enCerts : CertSet;
  enCertFP : gmap string string;           (* domain ID -> fingerprint of the certificate loaded *)
  enLive : LiveView;
  enStartedAt : Z;
  enReported : bool;
  enReloadPending : bool;
  enDomainsFile : option (list StoredDomain);  (* domains.json; [None]: not there or not readable *)
  enFiles : gmap string string;            (* the certificate files *)
}.
#[export] Instance eta_edgenode : Eta edge_node := λ n,
  mkEdgeNode (enId n) (enNodeIP n) (enVersion n) (enEdge n) (enCerts n) (enCertFP n) (enLive n) (enStartedAt n) (enReported n)
    (enReloadPending n) (enDomainsFile n) (enFiles n).

Definition reportInterval : Z := 5 * second.
Definition resyncInterval : Z := minute.
Definition liveTTL : Z := 2 * second.

Section node.
Context `{GoUnicode, GoFold, Crypto, X509, MapRange} (c : ClusterFile).
(** Name resolution and binding of ports, as the edge uses them. *)
Context (LookupHost : string → option (list string)) (Listen : Z → option string).

(** The tunnel base domain as cluster.yaml defines it. *)
Definition bootstrapBase : EdgeDomain :=
  mkDomain "bootstrap" (cfBaseDomain c) ["*." +:+ cfBaseDomain c] EDGE_DOMAIN_KIND_TUNNEL_BASE true [] []
    EDGE_CERT_STATUS_UNSPECIFIED (TunnelBaseForwards c).

(** [Run] up to the first reload. *)
Definition new_node (id nodeIP version : string) (e : edge) (now : Z) (domains_file : option (list StoredDomain)) (files : gmap string string)
    : edge_node :=
  mkEdgeNode id nodeIP version (Apply LookupHost Listen [bootstrapBase] 0 e) NewSet ∅ (NewLiveView liveTTL) now false false domains_file files.

(** [writable] says whether a file of the cache can be written. *)
Definition writeCacheFile (writable : string → bool) (name data : string) (n : edge_node) : edge_node :=
  if writable name then n <| enFiles := <[name := data]> (enFiles n) |> else n.
Definition saveCache (writable : string → bool) (all : list StoredDomain) (n : edge_node) : edge_node :=
  if writable "domains.json" then n <| enDomainsFile := Some all |> else n.

(** A site whose certificate the edge needs. *)
Definition has_cert (d : StoredDomain) : bool := is_site (sdDom d) && negb (String.eqb (CertFingerprint d) "").

(** One domain of the loop in [loadCerts]. *)
Definition load_one (answer : string → option string) (writable : string → bool) (n : edge_node) (d : StoredDomain) : edge_node :=
  if negb (has_cert d) then n
  else if bool_decide (enCertFP n !! sdId d = Some (CertFingerprint d)) then n
  else match FetchFile answer (CertStoragePath d) with
  | None => n
  | Some certPEM =>
  match FetchFile answer (KeyStoragePath d) with
  | None => n
  | Some keyPEM =>
      let '(certs, ok) := Put (sdId d) certPEM keyPEM (Names (sdDom d)) (enCerts n) in
      let n := n <| enCerts := certs |> in
      if ok : bool
      then writeCacheFile writable (sdId d +:+ ".key") keyPEM
             (writeCacheFile writable (sdId d +:+ ".crt") certPEM
                (n <| enCertFP := <[sdId d := CertFingerprint d]> (enCertFP n) |>))
      else n
  end end.

(** Certificates of domains that are gone. *)
Definition drop_one (seen : gset string) (n : edge_node) (e : string * string) : edge_node :=
  if bool_decide (e.1 ∈ seen) then n
  else n <| enCerts := Remove e.1 (enCerts n) |> <| enCertFP := delete e.1 (enCertFP n) |>.

Definition seen_ids (all : list StoredDomain) : gset string := list_to_set (sdId <$> List.filter has_cert all).

Definition loadCerts (answer : string → option string) (writable : string → bool) (all : list StoredDomain) (n : edge_node) : edge_node :=
  let n := foldl (load_one answer writable) n all in
  foldl (drop_one (seen_ids all)) n (range (enCertFP n)).

(** [loadCache]: the cached domains, with the certificates of those whose files
are there. *)
Definition load_cached (n : edge_node) (d : StoredDomain) : edge_node :=
  match enFiles n !! (sdId d +:+ ".crt"), enFiles n !! (sdId d +:+ ".key") with
  | Some certPEM, Some keyPEM =>
      let '(certs, ok) := Put (sdId d) certPEM keyPEM (Names (sdDom d)) (enCerts n) in
      let n := n <| enCerts := certs |> in
      if ok : bool then n <| enCertFP := <[sdId d := CertFingerprint d]> (enCertFP n) |> else n
  | _, _ => n
  end.
Definition loadCache (n : edge_node) : edge_node * option (list StoredDomain) :=
  match enDomainsFile n with
  | None => (n, None)
  | Some l => (foldl load_cached n l, Some l)
  end.

Definition max_version (all : list StoredDomain) : Z :=
  foldl (λ v d, if v <? ConfigVersion d then ConfigVersion d else v) 0 all.

(** [stored]: the domains of the backend, or [None] when it cannot be reached. *)
Definition reload (stored : option (list StoredDomain)) (answer : string → option string) (writable : string → bool) (n : edge_node)
    : edge_node :=
  let '(n, all) :=
    match stored with
    | None => loadCache n
    | Some all => (saveCache writable all (loadCerts answer writable all n), Some all)
    end in
  match all with
  | None => n
  | Some all => n <| enEdge := Apply LookupHost Listen (sdDom <$> all) (max_version all) (enEdge n) |>
  end.

(** [reloadSoon]: whether a reload is to follow half a second later. *)
Definition reloadSoon (n : edge_node) : edge_node * bool :=
  if enReloadPending n then (n, false) else (n <| enReloadPending := true |>, true).
Definition pending_reload stored answer writable (n : edge_node) : edge_node :=
  reload stored answer writable (n <| enReloadPending := false |>).

(** What is pushed to the edge (ctl.go). *)
Inductive edge_push := EdgePushDomain | EdgePushTunnel | EdgePushOther.
Definition edge_apply (p : edge_push) (n : edge_node) : edge_node * bool :=
  match p with
  | EdgePushDomain => reloadSoon n
  | EdgePushTunnel => (n <| enLive := Invalidate (enLive n) |>, false)
  | EdgePushOther => (n, false)
  end.

(** [report]: the record, and how it is sent: [put] and [post] say whether the
two requests work. *)
Definition report_of (now : Z) (n : edge_node) : EdgeNodeReport :=
  let st := Status (enEdge n) in
  mkReport (enId n) (enNodeIP n) (enVersion n) (StVersion st) (StListeners st) (StBackends st) (StAccepted st)
    (unix (enStartedAt n)) (unix now) false.
Definition send_report (put post : bool) (n : edge_node) : edge_node * list Action :=
  if enReported n && put then (n, [PUT])
  else (if post then n <| enReported := true |> else n, (if enReported n then [PUT] else []) ++ [POST]).
End node.
