(* ===== verification/EdgeNodeSpec.v ===== *)
(** * The certificates and the configuration of an edge in the cluster
(go/tun/edgenode) *)

From S2P Require Import Prelude GoStrings Protocol Policy NetIP Limiter Access Claims EdgeConf EdgeConfSpec EdgePool Edge EdgeSpec LiveView.
From S2P Require Import Manage Certs CertsSpec ServerConf Reservations EdgeDomains EdgeNode.
From stdpp Require Import options.
From Stdlib Require Import QArith.
#[local] Open Scope l8_scope.
#[local] Open Scope Z_scope.

Section node.
Context {GU : GoUnicode} {GF : GoFold} {CR : Crypto} {X5 : X509} {MR : MapRange}.
Context (answer : string → option string) (writable : string → bool).

(** The certificate of a domain's files, as the file store has them. *)
Definition leaf_of (d : StoredDomain) : option Leaf :=
  certPEM ← FetchFile answer (CertStoragePath d); keyPEM ← FetchFile answer (KeyStoragePath d); X509KeyPair certPEM keyPEM.

Definition lower_names (d : StoredDomain) : list string := ToLower <$> Names (sdDom d).

(** The node's certificates beside the abstract set. *)
Record node_inv (n : edge_node) (m : sites) : Prop := {
  ni_reach : reach exclusive (enCerts n) m;
  ni_dom id : is_Some (enCertFP n !! id) ↔ is_Some (m !! id);
}.

Definition put_site (m : sites) (d : StoredDomain) : sites :=
  if has_cert d then match leaf_of d with Some leaf => <[sdId d := (leaf, Names (sdDom d))]> m | None => m end else m.

(** Domains to load whose names no other domain has, loaded or to load. *)
Record apart (l : list StoredDomain) (m : sites) : Prop := {
  ap_old d id p n : d ∈ l → has_cert d = true → m !! id = Some p → id ≠ sdId d → n ∈ lower_names d → n ∉ site_names p;
  ap_new d1 d2 n : d1 ∈ l → d2 ∈ l → has_cert d1 = true → has_cert d2 = true → n ∈ lower_names d1 → n ∈ lower_names d2 → d1 = d2;
}.

Lemma exclusive_put m d leaf :
  exclusive m → (∀ id p n, m !! id = Some p → id ≠ sdId d → n ∈ lower_names d → n ∉ site_names p) →
  exclusive (<[sdId d := (leaf, Names (sdDom d))]> m).
Proof.
  intros He Ho n k1 k2 l1 l2 (ns1 & [[<- [= <- <-]]|[Hk1 Hm1]]%lookup_insert_Some & Hn1) (ns2 & [[<- [= <- <-]]|[Hk2 Hm2]]%lookup_insert_Some & Hn2).
  - done.
  - by destruct (Ho k2 _ n Hm2 (not_eq_sym Hk2) Hn1).
  - by destruct (Ho k1 _ n Hm1 (not_eq_sym Hk1) Hn2).
  - apply (He n k1 k2 l1 l2); [by exists ns1|by exists ns2].
Qed.

(** The domain's certificate is the one that is loaded, if its fingerprint is. *)
Definition unchanged (n : edge_node) (m : sites) (d : StoredDomain) : Prop :=
  enCertFP n !! sdId d = Some (CertFingerprint d) → ∃ leaf, leaf_of d = Some leaf ∧ m !! sdId d = Some (leaf, Names (sdDom d)).

Lemma load_one_ok n m d :
  node_inv n m → (has_cert d = true → is_Some (leaf_of d)) → (has_cert d = true → unchanged n m d) →
  (has_cert d = true → ∀ id p nm, m !! id = Some p → id ≠ sdId d → nm ∈ lower_names d → nm ∉ site_names p) →
  let n' := load_one answer writable n d in
  node_inv n' (put_site m d) ∧ (∀ id, id ≠ sdId d → enCertFP n' !! id = enCertFP n !! id).
Proof.
  intros [Hr Hd] Hl Hu Ho. unfold load_one, put_site. destruct (has_cert d) eqn:Hc; cbn [negb]; [|by split].
  destruct (Hl eq_refl) as [leaf Hleaf]. rewrite Hleaf. specialize (Hu eq_refl). specialize (Ho eq_refl).
  pose proof (reach_exclusive _ _ Hr) as He. pose proof (exclusive_put m d leaf He Ho) as He'.
  destruct (bool_decide _) eqn:Hb.
  { apply bool_decide_eq_true in Hb. destruct (Hu Hb) as (leaf' & Hl' & Hm). split; [|done].
    assert (leaf' = leaf) as -> by congruence. by rewrite insert_id. }
  unfold leaf_of in Hleaf. destruct (FetchFile answer (CertStoragePath d)) as [cp|]; [|done].
  destruct (FetchFile answer (KeyStoragePath d)) as [kp|]; [|done]. cbn in Hleaf.
  destruct (Put (sdId d) cp kp (Names (sdDom d)) (enCerts n)) as [cs ok] eqn:Hp.
  assert (ok = true) as -> by (unfold Put in Hp; rewrite Hleaf in Hp; by injection Hp).
  assert (reach exclusive cs (<[sdId d := (leaf, Names (sdDom d))]> m)) as Hr' by (by eapply reach_put).
  set (n1 := n <| enCerts := cs |> <| enCertFP := <[sdId d := CertFingerprint d]> (enCertFP n) |>).
  assert (∀ f1 x1 f2 x2, enCerts (writeCacheFile writable f1 x1 (writeCacheFile writable f2 x2 n1)) = cs ∧
    enCertFP (writeCacheFile writable f1 x1 (writeCacheFile writable f2 x2 n1)) = enCertFP n1) as Hw.
  { intros f1 x1 f2 x2. unfold writeCacheFile. by destruct (writable f1), (writable f2). }
  destruct (Hw (sdId d +:+ ".key") kp (sdId d +:+ ".crt") cp) as [Hw1 Hw2]. split; [split|].
  - change (reach exclusive (enCerts (writeCacheFile writable (sdId d +:+ ".key") kp (writeCacheFile writable (sdId d +:+ ".crt") cp n1)))
      (<[sdId d := (leaf, Names (sdDom d))]> m)). by rewrite Hw1.
  - intros id. change (is_Some (enCertFP (writeCacheFile writable (sdId d +:+ ".key") kp (writeCacheFile writable (sdId d +:+ ".crt") cp n1)) !! id) ↔
      is_Some (<[sdId d := (leaf, Names (sdDom d))]> m !! id)). rewrite Hw2. cbn. rewrite !lookup_insert_is_Some. by rewrite Hd.
  - intros id Hid. change (enCertFP (writeCacheFile writable (sdId d +:+ ".key") kp (writeCacheFile writable (sdId d +:+ ".crt") cp n1)) !! id = enCertFP n !! id).
    rewrite Hw2. cbn. by rewrite lookup_insert_ne.
Qed.

Lemma put_site_other m d id : id ≠ sdId d → put_site m d !! id = m !! id.
Proof. intros Hid. unfold put_site. destruct (has_cert d); [|done]. destruct (leaf_of d); [|done]. by rewrite lookup_insert_ne. Qed.

Lemma apart_tail m d l leaf :
  apart (d :: l) m → (has_cert d = true → leaf_of d = Some leaf) → NoDup (sdId <$> d :: l) → apart l (put_site m d).
Proof.
  intros [Ho Hn] Hl [Hd _]%NoDup_cons. split; [|intros d1 d2 n H1' H2'; apply Hn; by right].
  intros d2 id p n Hin Hc Hp Hid Hn1. destruct (decide (id = sdId d)) as [->|Hne].
  - unfold put_site in Hp. destruct (has_cert d) eqn:Hcd; [|by eapply (Ho d2 (sdId d)); [right| | |..]].
    rewrite Hl, lookup_insert_eq in Hp by done. injection Hp as <-. intros Hn2.
    assert (d2 = d) as -> by (apply (Hn d2 d n); [by right|by left|done..]). done.
  - rewrite put_site_other in Hp by done. eapply (Ho d2 id p n); [by right|done..].
Qed.

(** The loop over the domains. *)
Lemma load_all_ok l n m :
  node_inv n m → NoDup (sdId <$> l) → apart l m →
  (∀ d, d ∈ l → has_cert d = true → is_Some (leaf_of d) ∧ unchanged n m d) →
  node_inv (foldl (load_one answer writable) n l) (foldl put_site m l).
Proof.
  revert n m. induction l as [|d l IH]; intros n m Hi Hnd Ha Hl; [done|]. cbn [foldl].
  destruct (load_one_ok n m d) as [Hi' Hfp]; [done|intros Hc; by apply (Hl d); [left|]|intros Hc; by apply (Hl d); [left|]| |].
  { intros Hc id p nm Hm Hid Hn. eapply (ap_old _ _ Ha d); [by left|done..]. }
  assert (∃ leaf, has_cert d = true → leaf_of d = Some leaf) as [leaf Hleaf].
  { destruct (has_cert d) eqn:Hc; [|by exists (mkLeaf "" [] "" 0 0 "")]. destruct (Hl d) as [[leaf Hx] _]; [left|done|]. by exists leaf. }
  apply IH; [done|by apply NoDup_cons in Hnd as [_ ?]|by eapply apart_tail|].
  intros d2 Hin Hc. destruct (Hl d2) as [Hs Hu]; [by right|done|]. split; [done|].
  assert (sdId d2 ≠ sdId d) as Hne.
  { intros Heq. apply NoDup_cons in Hnd as [Hd _]. apply Hd. rewrite <-Heq. by apply list_elem_of_fmap_2. }
  intros Hf. rewrite Hfp in Hf by done. destruct (Hu Hf) as (leaf2 & ? & ?). exists leaf2. by rewrite put_site_other.
Qed.

(** The certificates that go. *)
Lemma drop_ok seen l n m :
  node_inv n m →
  node_inv (foldl (drop_one seen) n l) (foldl (λ m e, if bool_decide (e.1 ∈ seen) then m else delete e.1 m) m l).
Proof.
  clear answer writable.
  revert n m. induction l as [|[id fp] l IH]; intros n m Hi; [done|]. cbn [foldl fst]. apply IH. unfold drop_one. cbn [fst].
  destruct (bool_decide (id ∈ seen)); [done|]. destruct Hi as [Hr Hd]. split.
  - apply reach_remove; [done|]. apply reach_exclusive in Hr. intros nm k1 k2 l1 l2 (ns1 & [_ Hm1]%lookup_delete_Some & Hn1) (ns2 & [_ Hm2]%lookup_delete_Some & Hn2).
    apply (Hr nm k1 k2 l1 l2); [by exists ns1|by exists ns2].
  - intros k. cbn. destruct (decide (k = id)) as [->|]; [by rewrite !lookup_delete_eq|]. by rewrite !lookup_delete_ne.
Qed.

Lemma foldl_drop (seen : gset string) (l : list (string * string)) (m : sites) id p :
  foldl (λ m e, if bool_decide (e.1 ∈ seen) then m else delete e.1 m) m l !! id = Some p ↔
  m !! id = Some p ∧ (id ∈ seen ∨ id ∉ l.*1).
Proof.
  clear answer writable.
  revert m. induction l as [|[k fp] l IH]; intros m; cbn; [set_solver|]. rewrite IH, elem_of_cons.
  destruct (decide (k ∈ seen)).
  - rewrite bool_decide_eq_true_2 by done. split; [intros [? [?|?]]; split; auto|intros [? [?|?]]; split; auto].
    destruct (decide (id = k)) as [->|]; [by left|]. right. tauto.
  - rewrite bool_decide_eq_false_2, lookup_delete_Some by done. split; [intros [[? ?] [?|?]]; split; auto|].
    + right. intros [->|?]; done.
    + intros [Hm [Hs|Hno]]; split; try split; try done; [intros ->; done|by left|intros ->; tauto|]. right. tauto.
Qed.

(** The sites after the loop. *)
Lemma foldl_put_site l m id :
  NoDup (sdId <$> l) → (∀ d, d ∈ l → has_cert d = true → is_Some (leaf_of d)) →
  foldl put_site m l !! id =
    match List.find (λ d, has_cert d && String.eqb (sdId d) id) l with
    | Some d => match leaf_of d with Some leaf => Some (leaf, Names (sdDom d)) | None => m !! id end
    | None => m !! id
    end.
Proof.
  revert m. induction l as [|d l IH]; intros m Hnd Hl; [done|]. cbn [foldl List.find].
  apply NoDup_cons in Hnd as [Hd Hnd]. rewrite IH by (done || (intros; apply Hl; [by right|done])).
  destruct (String.eqb_spec (sdId d) id) as [<-|Hne]; rewrite ?andb_true_r, ?andb_false_r.
  - assert (List.find (λ d0, has_cert d0 && String.eqb (sdId d0) (sdId d)) l = None) as ->.
    { destruct (List.find _ l) as [d2|] eqn:Hf; [|done]. apply List.find_some in Hf as [Hin%list_elem_of_In Hb]. bool_facts.
      apply String.eqb_eq in H0. exfalso. apply Hd. rewrite <-H0. by apply list_elem_of_fmap_2. }
    unfold put_site. destruct (has_cert d) eqn:Hc; [|done]. destruct (Hl d) as [leaf ->]; [left|done|]. by rewrite lookup_insert_eq.
  - rewrite put_site_other by done. done.
Qed.

Context (LookupHost : string → option (list string)) (Listen : Z → option string).

Lemma reload_certs all n :
  enCerts (reload LookupHost Listen (Some all) answer writable n) = enCerts (loadCerts answer writable all n) ∧
  enCertFP (reload LookupHost Listen (Some all) answer writable n) = enCertFP (loadCerts answer writable all n).
Proof. unfold reload, saveCache. by destruct (writable "domains.json"). Qed.

(** The sites whose certificates a reload leaves. *)
Definition loaded_from (all : list StoredDomain) (m : sites) : Prop :=
  ∀ id leaf ns, m !! id = Some (leaf, ns) ↔
    ∃ d, d ∈ all ∧ has_cert d = true ∧ sdId d = id ∧ leaf_of d = Some leaf ∧ ns = Names (sdDom d).

Lemma reload_sites all n m :
  node_inv n m → NoDup (sdId <$> all) → apart all m →
  (∀ d, d ∈ all → has_cert d = true → is_Some (leaf_of d) ∧ unchanged n m d) →
  ∃ m', node_inv (reload LookupHost Listen (Some all) answer writable n) m' ∧ loaded_from all m'.
Proof.
  intros Hi Hnd Ha Hl. pose proof (load_all_ok all n m Hi Hnd Ha Hl) as Hi1. set (n1 := foldl (load_one answer writable) n all) in *.
  pose proof (drop_ok (seen_ids all) (range (enCertFP n1)) n1 _ Hi1) as Hi2. eexists. split.
  - destruct (reload_certs all n) as [E1 E2]. destruct Hi2 as [Hr Hd]. split; [rewrite E1; exact Hr|intros id; rewrite E2; apply Hd].
  - intros id leaf ns. rewrite foldl_drop.
    assert (∀ p, foldl put_site m all !! id = Some p → id ∈ (range (enCertFP n1)).*1) as Hdom.
    { intros p Hp. assert (is_Some (enCertFP n1 !! id)) as [fp Hfp] by (apply (ni_dom _ _ Hi1); by exists p).
      apply list_elem_of_fmap. exists (id, fp). by rewrite elem_of_range. }
    rewrite foldl_put_site in * by (done || (intros d Hd Hc; by apply (Hl d))).
    assert (∀ d, d ∈ all → has_cert d = true → sdId d = id → List.find (λ d, has_cert d && String.eqb (sdId d) id) all = Some d) as Hfind.
    { intros d Hin Hc Hid. destruct (List.find _ all) as [d2|] eqn:Hf.
      - apply List.find_some in Hf as [Hin2%list_elem_of_In Hb]. apply andb_true_iff in Hb as [Hc2 Hid2]. apply String.eqb_eq in Hid2.
        f_equal. apply list_elem_of_lookup in Hin as [i Hi'], Hin2 as [j Hj].
        assert (i = j) as -> by (eapply NoDup_lookup; [exact Hnd|rewrite list_lookup_fmap, Hi'; cbn; by rewrite Hid|rewrite list_lookup_fmap, Hj; cbn; by rewrite Hid2]).
        congruence.
      - apply list_elem_of_In in Hin. pose proof (List.find_none _ _ Hf d Hin) as Hx. cbn in Hx. by rewrite Hc, Hid, String.eqb_refl in Hx. }
    split.
    + intros [Hm Hs]. destruct (List.find _ all) as [d|] eqn:Hf.
      * apply List.find_some in Hf as [Hin%list_elem_of_In Hb]. apply andb_true_iff in Hb as [Hc Hid]. apply String.eqb_eq in Hid.
        destruct (leaf_of d) as [lf|] eqn:Hlf; [|by destruct (Hl d Hin Hc) as [[? ?] _]; congruence].
        injection Hm as -> <-. by exists d.
      * exfalso. destruct Hs as [Hs|Hno]; [|by apply Hno, (Hdom (leaf, ns))]. unfold seen_ids in Hs.
        apply elem_of_list_to_set, list_elem_of_fmap in Hs as (d & -> & Hin). apply elem_of_filterb in Hin as [Hin Hc].
        by specialize (Hfind d Hin Hc eq_refl).
    + intros (d & Hin & Hc & Hid & Hlf & ->). rewrite (Hfind d), Hlf by done. split; [done|]. left.
      apply elem_of_list_to_set, list_elem_of_fmap. exists d. split; [done|]. by apply elem_of_filterb.
Qed.

(** C38: an edge presents every site's own certificate. Let the stored domains be
read, every certificate file of a site be fetched and hold a certificate and
key, the names of the sites be their own and not have moved from one domain to
another since they were loaded, and no site's names have changed under a
certificate that stays the same (see [new_alias_not_served]). Then a client that asks for a
name afterwards gets the certificate of the site that lists the name (in any
case, with or without the final dot), else of the one that lists its wildcard,
and nothing for any other name: certificates of removed sites are gone. *)
Theorem edge_serves_certificates all n m serverName leaf :
  node_inv n m → NoDup (sdId <$> all) → apart all m →
  (∀ d, d ∈ all → has_cert d = true → is_Some (leaf_of d) ∧ unchanged n m d) →
  let lists name d := d ∈ all ∧ has_cert d = true ∧ name ∈ lower_names d in
  GetCertificate serverName (enCerts (reload LookupHost Listen (Some all) answer writable n)) = Some leaf ↔
  ∃ d, leaf_of d = Some leaf ∧
    (lists (asked serverName) d ∨
     (∀ d', ¬ lists (asked serverName) d') ∧ ∃ w, wildcard (asked serverName) = Some w ∧ lists w d).
Proof.
  intros Hi Hnd Ha Hl lists. destruct (reload_sites all n m Hi Hnd Ha Hl) as (m' & [Hr _] & Hm'). unfold loaded_from in Hm'.
  destruct (reach_answers exclusive _ _ serverName Hr) as [_ Hans]. rewrite Hans by done. clear Hans.
  assert (∀ nm k lf, lists_name m' nm k lf ↔ ∃ d, sdId d = k ∧ leaf_of d = Some lf ∧ lists nm d) as Hln.
  { intros nm k lf. unfold lists_name, lists. setoid_rewrite Hm'. split.
    - intros (ns & (d & ? & ? & ? & ? & ->) & Hnm). by exists d.
    - intros (d & ? & ? & ? & ? & ?). exists (Names (sdDom d)). split; [by exists d|done]. }
  unfold answers. setoid_rewrite Hln. split.
  - intros (k & [(d & _ & Hlf & Hd)|[Hno (w & Hw & d & _ & Hlf & Hd)]]); exists d; split; [done|by left|done|].
    right. split; [|by exists w]. intros d' Hd'. destruct Hd' as (Hin & Hc & Hn). destruct (Hl d' Hin Hc) as [[lf' Hlf'] _].
    apply (Hno (sdId d') lf'). by exists d'.
  - intros (d & Hlf & [Hd|[Hno (w & Hw & Hd)]]); exists (sdId d); [left; by exists d|]. right. split; [|exists w; split; [done|by exists d]].
    intros k' l' (d' & _ & _ & Hd'). by apply (Hno d').
Qed.
End node.

(** ** A sample edge *)

#[local] Existing Instance plain_crypto.

Module EdgeNodeSample.
#[export] Instance x509 : X509 := {|
  X509KeyPair cert key := if String.eqb cert "" then None else Some (mkLeaf cert ["shop.example"; "www.shop.example"] "ca" 0 (1000 * hour) cert);
  VerifyHostname l h := existsb (String.eqb h) (lDNSNames l);
|}.
Definition lookup (_ : string) : option (list string) := None.
Definition listen (_ : Z) : option string := None.
Definition edge0 : edge :=
  mkEdge (mkEdgeConfig "t.example" "connect.t.example" "10.0.0.1" "" "01234567890123456789012345678901" 20%Q 100)
    (NewIPLimiter 20%Q 100 0) ∅ ∅ 0 false (mkEdgeCounters 0 0 0 0 0) 0 ∅.
Definition cluster : ClusterFile := mkClusterFile "t.example" "connect.t.example" "" [] "22000-22999" 443 80 0 8443 8080 8444 2222 9100 [] "/s" 9180.
Definition n0 : edge_node := new_node cluster lookup listen "edge" "10.0.0.1" "v1" edge0 0 None ∅.
(** The site, with the certificate of a fingerprint. *)
Definition shop (aliases : list string) (fp : string) : StoredDomain :=
  mkStoredDomain (mkDomain "shop" "shop.example" aliases EDGE_DOMAIN_KIND_SITE true [] [] EDGE_CERT_STATUS_VALID [])
    "/data/l8files/edgecert/a.crt" "/data/l8files/edgecert/a.key" fp 1 "".
(** The file store holds one certificate, or none. *)
Definition has (cert : string) (p : string) : option string := if HasSuffix ".crt" p then Some cert else Some "key".
Definition missing (_ : string) : option string := None.
Definition disk (_ : string) : bool := true.
Definition reload_with (stored : option (list StoredDomain)) (files : string → option string) (n : edge_node) : edge_node :=
  reload lookup listen stored files disk n.
Definition n1 : edge_node := reload_with (Some [shop [] "old"]) (has "old") n0.
End EdgeNodeSample.
Import EdgeNodeSample.

Lemma node_inv_new : node_inv n0 ∅.
Proof. split; [constructor|]. intros id. vm_compute. split; intros [? [=]]. Qed.

Lemma edge_serves_certificates_witness :
  lSubject <$> GetCertificate "Shop.Example." (enCerts n1) = Some "old" ∧ GetCertificate "www.shop.example" (enCerts n1) = None.
Proof.
  assert (apart [shop [] "old"] ∅) as Ha.
  { split; [intros * _ _ Hp; by rewrite lookup_empty in Hp|]. intros d1 d2 n ->%list_elem_of_singleton ->%list_elem_of_singleton. done. }
  assert (∀ d, d ∈ [shop [] "old"] → has_cert d = true → is_Some (leaf_of (has "old") d) ∧ unchanged (has "old") n0 ∅ d) as Hl.
  { intros d ->%list_elem_of_singleton _. split; [by eexists|]. intros Hf. by vm_compute in Hf. }
  pose proof (λ sn leaf, edge_serves_certificates (has "old") disk lookup listen [shop [] "old"] n0 ∅ sn leaf node_inv_new
    (NoDup_singleton _) Ha Hl) as Hg.
  split; [by vm_compute|]. destruct (GetCertificate "www.shop.example" (enCerts n1)) as [leaf|] eqn:Hw; [|done].
  apply Hg in Hw as (d & _ & [(->%list_elem_of_singleton & _ & Hn)|[_ (w & Hw & ->%list_elem_of_singleton & _ & Hn)]]).
  - apply list_elem_of_In in Hn. vm_compute in Hn. by destruct Hn.
  - vm_compute in Hw. injection Hw as <-. apply list_elem_of_In in Hn. vm_compute in Hn. by destruct Hn.
Defined.

(** A name added to a site under the same certificate is not served: the
certificate is not loaded again while its fingerprint stays. *)
Lemma new_alias_not_served :
  let n2 := reload_with (Some [shop ["www.shop.example"] "old"]) (has "old") n1 in
  GetCertificate "www.shop.example" (enCerts n2) = None ∧
  lSubject <$> GetCertificate "www.shop.example" (enCerts (reload_with (Some [shop ["www.shop.example"] "old"]) (has "old") n0)) = Some "old".
Proof. split; by vm_compute. Qed.

(** A renewed certificate that could not be fetched is taken for loaded after the
backend was away for a while, and the old one stays: the cached domains say the
new fingerprint, the cached files hold the old certificate. *)
Lemma renewed_certificate_lost :
  let n2 := reload_with (Some [shop [] "new"]) missing n1 in
  let n3 := reload_with None missing n2 in
  let n4 := reload_with (Some [shop [] "new"]) (has "new") n3 in
  lSubject <$> GetCertificate "shop.example" (enCerts n4) = Some "old" ∧
  lSubject <$> GetCertificate "shop.example" (enCerts (reload_with (Some [shop [] "new"]) (has "new") n2)) = Some "new".
Proof. split; by vm_compute. Qed.
