(* ===== verification/RelayNode.v ===== *)
(** * A relay in the cluster (go/tun/relaynode accounts.go, ctl.go, node.go,
tlscert.go, Status of go/tunnel/relay/admin.go)

The node keeps a copy of the agents' credentials ([accounts]) that its relay
checks agents against, carries out the commands pushed to it, loads the tunnel
certificate, and reports the relay's sessions and tunnels to the registry. The
backend is the [world] of Manage.v, whose calls may fail. *)

From S2P Require Import Prelude GoStrings Base64 Protocol Policy NetIP Limiter Access Claims EdgeConf NameRegistry RelayTunnels RelayServe.
From S2P Require Import EdgePool Edge LiveView Store Reservations Manage Certs ServerConf EdgeDomains.
From stdpp Require Import options.
#[local] Open Scope l8_scope.
#[local] Open Scope Z_scope.
Import Rules.

(** ** Credentials (accounts.go) *)

(** The snapshot file: the tokens and keys it lists. *)
Definition accountsSnapshot : Type := list TokenRecord * list GatewayKey.

Record accounts := mkAccounts {
  downAt : Z;                                (* last failed live lookup *)
  keysAt : Z;                                (* last live gateway-key lookup *)
  accTokens : gmap string TokenRecord;       (* by token ID *)
  accKeys : gmap string GatewayKey;          (* by fingerprint *)
  snapshot : option accountsSnapshot;        (* the file; [None]: none that can be read *)
}.
#[export] Instance eta_accounts : Eta accounts := λ a,
  mkAccounts (downAt a) (keysAt a) (accTokens a) (accKeys a) (snapshot a).

Definition newAccounts (file : option accountsSnapshot) : accounts := mkAccounts zeroTime zeroTime ∅ ∅ file.

Definition liveLookupBackoff : Z := 30 * second.

Definition key_of (k : TunGatewayKey) : GatewayKey := mkKey (gkName k) (gkPublicKey k) (gkFingerprint k) (gkTunnels k).
Definition by_fingerprint (l : list TunGatewayKey) : gmap string GatewayKey :=
  foldl (λ m k, <[gkFingerprint k := key_of k]> m) ∅ l.

(** The tokens that convert; the others are skipped with a warning. *)
Definition records_by_id (toks : list TunToken) (certs : list TunAgentCert) : gmap string TokenRecord :=
  foldl (λ m t, match TokenRecordOf t (ValidSerials (tkTokenId t) certs) with
                | Ok rec => <[ID rec := rec]> m
                | Err _ => m
                end) ∅ toks.

Section node.
Context `{GoUnicode, GoFold, Crypto, MapRange, X509}.
Context `{STK : !TableService tkTokenId, SCR : !TableService crCertId, SGK : !TableService gkKeyId, TV : !TableService vReservationId}.

Definition fetchToken (id : string) : M (option TokenRecord) :=
  t ← Token id;
  match t with
  | None => mret None
  | Some t => certs ← Certs; rec ← lift ErrConv (TokenRecordOf t (ValidSerials id certs)); mret (Some rec)
  end.

(** [now] is the time of the question, [later] of a failed answer. *)
Definition acc_TokenByID (id : string) (now later : Z) (w : world) (a : accounts) : world * accounts * option TokenRecord :=
  if now - downAt a <? liveLookupBackoff then (w, a, accTokens a !! id)
  else
    let '(w, r) := fetchToken id w in
    match r with
    | Ok None => (w, a <| accTokens := delete id (accTokens a) |>, None)
    | Ok (Some rec) => (w, a <| accTokens := <[id := rec]> (accTokens a) |>, Some rec)
    | Err _ => (w, a <| downAt := later |>, accTokens a !! id)
    end.

Definition Keys : M (list TunGatewayKey) := call (λ w, list_rows (wKeys w)).
Definition Tokens : M (list TunToken) := call (λ w, list_rows (wTokens w)).

Definition acc_KeyByFingerprint (fp : string) (now later : Z) (w : world) (a : accounts) : world * accounts * option GatewayKey :=
  let k := accKeys a !! fp in
  let recent := (now - keysAt a <? second) || (now - downAt a <? liveLookupBackoff) in
  if bool_decide (is_Some k) || recent then (w, a, k)
  else
    let '(w, r) := Keys w in
    match r with
    | Err _ => (w, a <| downAt := later |>, None)
    | Ok keys => let a := a <| accKeys := by_fingerprint keys |> <| keysAt := later |> in (w, a, accKeys a !! fp)
    end.

Definition dropToken (id : string) (a : accounts) : accounts := a <| accTokens := delete id (accTokens a) |>.

(** [disk]: whether the file can be written; it is replaced in one step. *)
Definition save (disk : bool) (a : accounts) : accounts * bool :=
  if disk then (a <| snapshot := Some ((range (accTokens a)).*2, (range (accKeys a)).*2) |>, true) else (a, false).

Definition read_all : M (list TunToken * list TunAgentCert * list TunGatewayKey) :=
  toks ← Tokens; certs ← Certs; keys ← Keys; mret (toks, certs, keys).

(** Whether it worked; without the backend's answers the copy stays. *)
Definition acc_refresh (disk : bool) (w : world) (a : accounts) : world * accounts * bool :=
  let '(w, r) := read_all w in
  match r with
  | Err _ => (w, a, false)
  | Ok (toks, certs, keys) =>
      let a := a <| accTokens := records_by_id toks certs |> <| accKeys := by_fingerprint keys |> in
      let '(a, ok) := save disk a in (w, a, ok)
  end.

(** The snapshot's entries go over what is there. *)
Definition load (a : accounts) : accounts * bool :=
  match snapshot a with
  | None => (a, false)
  | Some (toks, keys) =>
      (a <| accTokens := foldl (λ m t, <[ID t := t]> m) (accTokens a) toks |>
         <| accKeys := foldl (λ m k, <[Fingerprint k := k]> m) (accKeys a) keys |>, true)
  end.

(** [loadAccounts]: the attempts until the context ends, each with the backend and
the disk it finds. [None]: it ended first. *)
Fixpoint loadAccounts (tries : list (world * bool)) (a : accounts) : option accounts :=
  match tries with
  | [] => None
  | (w, disk) :: tries =>
      let '(_, a, ok) := acc_refresh disk w a in
      if ok : bool then Some a
      else let '(a, ok) := load a in if ok : bool then Some a else loadAccounts tries a
  end.

(** ** The node *)

Record node := mkNode {
  nRelayID : string;
  nPodIP : string;
  nVersion : string;
  nSrv : relay;
  nAccounts : accounts;
  nLive : LiveView;
  nCert : Dynamic;
  nCertFingerprint : string;
  nStartedAt : Z;
  nRefreshPending : bool;
}.
#[export] Instance eta_node : Eta node := λ n,
  mkNode (nRelayID n) (nPodIP n) (nVersion n) (nSrv n) (nAccounts n) (nLive n) (nCert n) (nCertFingerprint n) (nStartedAt n)
    (nRefreshPending n).

(** *** The certificate (tlscert.go) *)

(** [env]: the first-start files ([None]: not named; a file that cannot be read
is [None] too). *)
Definition loadCert (stored : option (list StoredDomain)) (answer : string → option string) (env : option (option string * option string))
    (n : node) : node * bool :=
  match List.find (λ d, is_base (sdDom d) && negb (String.eqb (CertFingerprint d) "")) (default [] stored) with
  | Some d =>
      if String.eqb (CertFingerprint d) (nCertFingerprint n) then (n, true)
      else match FetchFile answer (CertStoragePath d), FetchFile answer (KeyStoragePath d) with
      | Some certPEM, Some keyPEM =>
          let '(cert, ok) := dyn_Set certPEM keyPEM (nCert n) in
          if ok : bool then (n <| nCert := cert |> <| nCertFingerprint := CertFingerprint d |>, true) else (n, false)
      | _, _ => (n, false)
      end
  | None =>
      if Loaded (nCert n) then (n, bool_decide (is_Some stored))
      else match env with
      | Some (Some certPEM, Some keyPEM) => let '(cert, ok) := dyn_Set certPEM keyPEM (nCert n) in (n <| nCert := cert |>, ok)
      | _ => (n, false)
      end
  end.

(** *** Its configuration *)

(** [ca]: whether the agent CA's files can be read and parsed; [hostKey] the
gateway's host key, asked for only if there is a gateway. *)
Definition node_relayConfig (ca hostKey : bool) (c : ClusterFile) (link : ClusterLink) (n : node) : option RelayConfig :=
  let rules := cluster_Rules c in
  let port p := ":" +:+ Itoa p in
  if negb ca then None
  else
  let cfg := mkRelayConfig (port (relTLS c)) "" (pubHTTPS c) false false (port (relStream c)) (Some link) None None (Some ([], true))
               (Some (CanServe (nCert n))) (cfBaseDomain c) (cfControlSNI c) true [] (cfReservedNames c) (mkRates (QArith_base.inject_Z 0) 0 0)
               (TrustedPrefixes c) "" "" (PortMin rules) (PortMax rules) 0 0 in
  let cfg := if 0 <? pubHTTP c then cfg <| rcHTTPAddr := port (relHTTP c) |> else cfg in
  if 0 <? pubGateway c then
    if negb hostKey then None else Some (cfg <| rcSSHGateway := Some (mkGatewayConfig (port (relGateway c)) true true) |>)
  else Some cfg.

(** *** Commands (ctl.go) *)

Inductive pushed :=
| PushedToken (deleted : bool) (id : string)
| PushedCert
| PushedKey
| PushedTunnel
| PushedDomain (kind : EdgeDomainKind)
| PushedCommand (cmd : TunCtlCommand)
| PushedOther.

(** What the node does on its own afterwards. *)
Inductive followup := RefreshSoon | ReloadCert | Announce | HeartbeatNow.

Definition refreshSoon (n : node) : node * list followup :=
  if nRefreshPending n then (n, []) else (n <| nRefreshPending := true |>, [RefreshSoon]).

(** [reached]: how many sessions a drain closes before it is resumed. *)
Definition command (reached : nat) (cmd : TunCtlCommand) (n : node) : node * list followup :=
  match cKind cmd with
  | TUN_CTL_COMMAND_KIND_REANNOUNCE => (n, [Announce])
  | TUN_CTL_COMMAND_KIND_DRAIN => (n <| nSrv := Drain reached (nSrv n) |>, [HeartbeatNow])
  | TUN_CTL_COMMAND_KIND_RESUME => (n <| nSrv := Resume (nSrv n) |>, [HeartbeatNow])
  | TUN_CTL_COMMAND_KIND_DISCONNECT_AGENT => (n <| nSrv := (DisconnectAgent (cAgentId cmd) ReasonOperator (nSrv n)).1 |>, [])
  | TUN_CTL_COMMAND_KIND_DISCONNECT_TUNNEL => (n <| nSrv := (CloseTunnel (cTunnelId cmd) ReasonOperator (nSrv n)).1 |>, [])
  | TUN_CTL_COMMAND_KIND_TAKEN_OVER => (n <| nSrv := (CloseTunnel (cTunnelId cmd) ReasonTakeover (nSrv n)).1 |>, [])
  | TUN_CTL_COMMAND_KIND_UNSPECIFIED => (n, [])
  end.

Definition handle (reached : nat) (p : pushed) (n : node) : node * list followup :=
  match p with
  | PushedToken true id =>
      (n <| nAccounts := dropToken id (nAccounts n) |> <| nSrv := (DisconnectToken id (nSrv n)).1 |>, [])
  | PushedToken false _ | PushedCert | PushedKey => refreshSoon n
  | PushedTunnel => (n <| nLive := Invalidate (nLive n) |>, [])
  | PushedDomain EDGE_DOMAIN_KIND_TUNNEL_BASE => (n, [ReloadCert])
  | PushedDomain _ => (n, [])
  | PushedCommand cmd =>
      if negb (String.eqb (cRelayId cmd) "") && negb (String.eqb (cRelayId cmd) (nRelayID n)) then (n, []) else command reached cmd n
  | PushedOther => (n, [])
  end.

(** A pushed row of Manage.v, as it arrives. *)
Definition pushed_of (p : relay_push) : pushed :=
  match p with
  | PushToken deleted t => PushedToken deleted (tkTokenId t)
  | PushCert _ => PushedCert
  | PushKey _ => PushedKey
  | PushReservation _ => PushedOther
  end.

Definition node_refresh (disk : bool) (w : world) (n : node) : node :=
  let '(_, a, _) := acc_refresh disk w (nAccounts n) in n <| nAccounts := a |>.
(** The refresh a second after [refreshSoon]. *)
Definition pending_refresh (disk : bool) (w : world) (n : node) : node :=
  node_refresh disk w (n <| nRefreshPending := false |>).

(** *** Reports *)

(** What a session and its tunnels have besides the model's fields. *)
Record session_info := mkInfo { siRemote : string; siVersion : string; siOS : string; siArch : string; siConnectedAt : Z }.
Record tunnel_counts := mkCounts { tcActive : Z; tcTotal : Z; tcIn : Z; tcOut : Z }.

Record TunnelStatus := mkTunnelStatus {
  tsTunnelID : string; tsName : string; tsPublicPort : Z; tsDomains : list string; tsAccessToken : bool; tsType : string;
  tsPublicAddress : string; tsHostname : string; tsCounts : tunnel_counts;
}.
Record SessionStatus := mkSessionStatus {
  ssID : string; ssToken : string; ssTokenID : string; ssAgentID : string; ssInfo : session_info; ssRTTMicros : Z; ssLastSeen : Z;
  ssTunnels : list TunnelStatus;
}.
Record RelayStatus := mkRelayStatus { stSessions : list SessionStatus; stParked : list ParkedTunnel }.

Section reports.
Context (show : session_id → string) (info : session_id → session_info) (counts : tunnel_id → tunnel_counts).

Definition tunnel_status (t : tunnel_t) : TunnelStatus :=
  let e := endpoint t in
  mkTunnelStatus (TunnelId e) (EName e) (PublicPort e) (EDomains e) (RequiresToken (access t)) (TunnelTypeName (EType e))
    (PublicAddress e) (Hostname e) (counts (tid t)).

(** [status]: nothing before the handshake is done. *)
Definition session_status (i : session_id) (t : tracked) : option SessionStatus :=
  se ← sess t;
  Some (mkSessionStatus (show i) (TName (token se)) (ID (token se)) (sessAgentID se) (info i) (rttMicros t) (lastSeen t)
          (tunnel_status <$> RelayTunnels.tunnels se)).

(** [sort.Slice] by the time they connected; sessions of one instant come in the
order of the map. *)
Definition connected_le (a b : SessionStatus) : Prop := siConnectedAt (ssInfo a) ≤ siConnectedAt (ssInfo b).
#[export] Instance connected_le_dec : RelDecision connected_le.
Proof. intros a b. unfold connected_le. apply _. Defined.

Definition relay_Status (x : relay) : RelayStatus :=
  mkRelayStatus (merge_sort connected_le (omap (λ '(i, t), session_status i t) (sessionList x))) (parked (registry x)).

Definition hostOf (addr : string) : string := match SplitHostPort addr with Some (h, _) => h | None => addr end.

Definition sum_counts (f : tunnel_counts → Z) (l : list TunnelStatus) : Z := foldl (λ n t, n + f (tsCounts t)) 0 l.

(** A tunnel and an agent as the registry records them. [TunnelTypeOf] of a name
that is none gives the unspecified type. *)
Definition live_tunnel (s : SessionStatus) (t : TunnelStatus) : TunLiveTunnel :=
  mkTunnel (tsTunnelID t) (tsName t) (default TUN_TUNNEL_TYPE_UNSPECIFIED (TunnelTypeOf (tsType t))) (tsHostname t) (tsDomains t)
    (int32 (tsPublicPort t)) "" (ssAgentID s) (ssTokenID s) TUN_LIVE_STATE_ACTIVE (unix (siConnectedAt (ssInfo s))) 0
    (tcActive (tsCounts t)) (tcTotal (tsCounts t)) (tcIn (tsCounts t)) (tcOut (tsCounts t)) false (ssID s) (tsAccessToken t) 0.
Definition live_agent (s : SessionStatus) : TunAgent :=
  Claims.mkAgent (ssAgentID s) (ssTokenID s) (ssToken s) "" (ssID s) (siVersion (ssInfo s)) (siOS (ssInfo s)) (siArch (ssInfo s))
    (hostOf (siRemote (ssInfo s))) "" TUN_AGENT_TRANSPORT_UNSPECIFIED TUN_AGENT_STATE_ONLINE (unix (siConnectedAt (ssInfo s)))
    (unix (ssLastSeen s)) (ssRTTMicros s) (int32 (Z.of_nat (length (ssTunnels s)))) (sum_counts tcActive (ssTunnels s))
    (sum_counts tcIn (ssTunnels s)) (sum_counts tcOut (ssTunnels s)) 0 0 TUN_DISCONNECT_REASON_UNSPECIFIED false.

(** [state] *)
Definition node_state (st : RelayStatus) : list TunLiveTunnel * list TunAgent :=
  (s ← stSessions st; live_tunnel s <$> ssTunnels s, live_agent <$> stSessions st).

Definition all_tunnels (st : RelayStatus) : list TunnelStatus := s ← stSessions st; ssTunnels s.

Definition relayRecord (c : ClusterFile) (st : RelayStatus) (n : node) : TunRelay :=
  Claims.mkRelay (nRelayID n) (nPodIP n) (int32 (relTLS c)) (int32 (relHTTP c)) (int32 (relStream c)) (int32 (relGateway c)) (int32 (relOps c))
    (if draining (nSrv n) then TUN_RELAY_STATE_DRAINING else TUN_RELAY_STATE_READY)
    (int32 (Z.of_nat (length (stSessions st)))) (int32 (Z.of_nat (length (all_tunnels st)))) (sum_counts tcIn (all_tunnels st))
    (sum_counts tcOut (all_tunnels st)) (unix (NotAfter (nCert n))) (nVersion n) (unix (nStartedAt n)) 0 false.

(** The request of a heartbeat or announcement; [ask] sets the relay's ID. *)
Definition state_request (kind : TunClaimKind) (c : ClusterFile) (n : node) : TunClaimRequest :=
  let st := relay_Status (nSrv n) in
  let '(tunnels, agents) := node_state st in
  mkRequest kind (nRelayID n) "" "" "" 0 0 0 tunnels [] 0 None agents (Some (relayRecord c st n)) TUN_DISCONNECT_REASON_UNSPECIFIED.

Definition heartbeat_request : ClusterFile → node → TunClaimRequest := state_request TUN_CLAIM_KIND_HEARTBEAT.
Definition announce_request : ClusterFile → node → TunClaimRequest := state_request TUN_CLAIM_KIND_ANNOUNCE.

(** The answer of an announcement ([None]: an error): tunnels held elsewhere are
closed. *)
Definition close_conflict (tunnels : list TunLiveTunnel) (x : relay) (name : string) : relay :=
  foldl (λ x t, if String.eqb (tName t) name then (CloseTunnel (tTunnelId t) ReasonTakeover x).1 else x) x tunnels.
Definition announced_reply (tunnels : list TunLiveTunnel) (resp : option TunClaimResponse) (n : node) : node :=
  match resp with
  | None => n
  | Some resp => n <| nSrv := foldl (close_conflict tunnels) (nSrv n) (pConflicts resp) |>
  end.
End reports.
End node.
