(* ===== verification/Inspect.v ===== *)
(** * The request inspector (go/tunnel/inspect recorder.go, proxy.go, server.go)

An agent with the inspector on passes the streams of its HTTP tunnels through
[ServeStream], which forwards every request to the local service and keeps a
record of it. A [Recorder] holds the last [rMax] records; its web UI lists
them and sends a recorded request to the service again ([Replay]).

What net/http does is modelled on parsed messages: a [Request] is what
[http.ReadRequest] or [http.NewRequest] makes, [Request_Write] the message that
[Request.Write] puts on the wire. What a connection does (fails to take the
request, answers with some responses, fails to take one of them) is the
argument [io] of an exchange. The bytes of a body are the pieces they are read
in. *)

From S2P Require Import Prelude GoStrings Base64 NetIP.
From stdpp Require Import options gmap.
From Stdlib Require Import Ascii.
#[local] Open Scope l8_scope.

Definition Header : Type := gmap string (list string).
Definition Header_Get (k : string) (h : Header) : string := default "" (h !! k ≫= head).

(** ** Records *)

Definition MaxBody : Z := Z.shiftl 64 10.
Definition DefaultMaxEntries : Z := 200.

(** Times are nanoseconds; [Duration] is in microseconds (the code divides by
1000 once more, for milliseconds in a float). *)
Record Entry := mkEntry {
  ID : Z; Time_ : Z; eTunnel : string; eMethod : string; URI : string; eHost : string; eProto : string;
  ReqHead : Header; ReqBody : string; ReqSize : Z;
  eStatus : Z; RespHead : Header; RespBody : string; RespSize : Z;
  Duration : Z; eError : string; Upgraded : bool; ReplayOf : Z;
}.
#[export] Instance eta_entry : Eta Entry := λ e,
  mkEntry (ID e) (Time_ e) (eTunnel e) (eMethod e) (URI e) (eHost e) (eProto e) (ReqHead e) (ReqBody e) (ReqSize e)
    (eStatus e) (RespHead e) (RespBody e) (RespSize e) (Duration e) (eError e) (Upgraded e) (ReplayOf e).

Record Summary := mkSummary {
  sID : Z; sTime : Z; sTunnel : string; sMethod : string; sURI : string; sStatus : Z;
  sRespSize : Z; sDuration : Z; sError : string; sReplayOf : Z;
}.

Definition summary (e : Entry) : Summary :=
  mkSummary (ID e) (Time_ e) (eTunnel e) (eMethod e) (URI e) (eStatus e) (RespSize e) (Duration e) (eError e) (ReplayOf e).

(** The live viewers: a channel with room for 64 summaries each. *)
Definition channel_size : nat := 64.
Record Recorder := mkRecorder {
  rMax : Z;
  nextID : Z;
  entries : list Entry;                (* oldest first *)
  subs : gmap nat (list Summary);
}.
#[export] Instance eta_recorder : Eta Recorder := λ r, mkRecorder (rMax r) (nextID r) (entries r) (subs r).

Definition NewRecorder (max : Z) : Recorder :=
  mkRecorder (if (max <=? 0)%Z then DefaultMaxEntries else max) 0 [] ∅.

Definition send_summary (s : Summary) (buffered : list Summary) : list Summary :=
  if (length buffered <? channel_size)%nat then buffered ++ [s] else buffered.

(** [add] also returns the entry, whose ID it sets. *)
Definition add (e : Entry) (r : Recorder) : Recorder * Entry :=
  let id := (nextID r + 1)%Z in
  let e := e <| ID := id |> in
  let all := entries r ++ [e] in
  let all := if (rMax r <? Z.of_nat (length all))%Z then drop (length all - Z.to_nat (rMax r)) all else all in
  (mkRecorder (rMax r) id all (send_summary (summary e) <$> subs r), e).

Definition List_ (r : Recorder) : list Summary := summary <$> reverse (entries r).

Definition Get (id : Z) (r : Recorder) : option Entry := List.find (λ e, (ID e =? id)%Z) (entries r).

(** A channel is a number that no viewer has. *)
Definition subscribe (r : Recorder) : Recorder * nat :=
  let ch := fresh (dom (subs r)) in (r <| subs := <[ch := []]> (subs r) |>, ch).
Definition unsubscribe (ch : nat) (r : Recorder) : Recorder := r <| subs := delete ch (subs r) |>.

(** ** The start of a body *)

Record capture := mkCapture { buf : string; csize : Z }.

Definition capture_Write (c : capture) (p : string) : capture :=
  let room := (MaxBody - Z.of_nat (String.length (buf c)))%Z in
  mkCapture
    (if (0 <? room)%Z
     then buf c +:+ String.substring 0 (if (Z.of_nat (String.length p) <? room)%Z then String.length p else Z.to_nat room) p
     else buf c)
    (csize c + Z.of_nat (String.length p)).
Definition complete (c : capture) : bool := (csize c =? Z.of_nat (String.length (buf c)))%Z.

(** What an [io.TeeReader] has written once the pieces were read. *)
Definition tee (pieces : list string) : capture := foldl capture_Write (mkCapture "" 0) pieces.

(** ** Requests and responses *)

(** [URL] is the request target of [req.URL], as [Request.Write] sends it. *)
Record Request := mkRequest {
  Method : string; URL : string; RequestURI : string; Host : string; Proto : string;
  rHeader : Header; Body : option (list string); ContentLength : Z; rClose : bool;
}.
#[export] Instance eta_request : Eta Request := λ q,
  mkRequest (Method q) (URL q) (RequestURI q) (Host q) (Proto q) (rHeader q) (Body q) (ContentLength q) (rClose q).

Record Response := mkResponse { StatusCode : Z; pHeader : Header; pBody : list string; pClose : bool }.

(** A request on the wire. [mClose]: it asks to close the connection. How the
body is framed (a length or chunks) is not part of it. *)
Record message := mkMessage {
  mMethod : string; mTarget : string; mHost : string; mHeader : Header; mBody : string; mClose : bool;
}.
#[export] Instance eta_message : Eta message := λ m,
  mkMessage (mMethod m) (mTarget m) (mHost m) (mHeader m) (mBody m) (mClose m).

(** The headers that [Request.Write] takes from elsewhere. *)
Definition written_elsewhere : list string := ["Host"; "User-Agent"; "Content-Length"; "Transfer-Encoding"; "Trailer"].
Definition written_header (h : Header) : Header :=
  let agent := match h !! "User-Agent" with Some _ => Header_Get "User-Agent" h | None => "Go-http-client/1.1" end in
  let rest := foldr delete h written_elsewhere in
  if String.eqb agent "" then rest else <["User-Agent" := [agent]]> rest.

Definition body_bytes (b : option (list string)) : string := String.concat "" (default [] b).

(** The characters of a method, an HTTP token. *)
Definition token_char (c : ascii) : bool :=
  is_digit c || is_lower c || ((65 <=? code c) && (code c <=? 90))%N
  || existsb (Ascii.eqb c) ["!"; "#"; "$"; "%"; "&"; "'"; "*"; "+"; "-"; "."; "^"; "_"; "`"; "|"; "~"]%char.
Definition validMethod (m : string) : bool := negb (String.eqb m "") && str_forall token_char m.

(** What the connections do during an exchange: the error of writing the
request, the responses read from the target with the error of writing each to
the client, and the error of reading once there are no more. *)
Record exchange_io := mkIO { refused : option string; replies : list (Response * option string); no_reply : string }.

(** [finish] *)
Definition finish (start stop : Z) (err : option string) (e : Entry) : Entry :=
  let e := e <| Duration := Z.quot (stop - start) 1000 |> in
  match err with
  | Some text => if String.eqb (eError e) "" then e <| eError := text |> else e
  | None => e
  end.

Definition succeeded (err : option string) : bool := if err is None then true else false.

(** The loop of [exchange] over the target's responses: the entry, whether to
go on, whether the protocol was upgraded, and the responses the client got. *)
Fixpoint read_replies (closing : bool) (start stop : Z) (rs : list (Response * option string)) (fail : string) (e : Entry)
    : Entry * bool * bool * list Response :=
  match rs with
  | [] => (finish start stop (Some fail) (e <| eStatus := 502%Z |>), false, false, [])
  | (resp, err) :: rs =>
      let e := e <| eStatus := StatusCode resp |> <| RespHead := pHeader resp |> in
      let got := if succeeded err then [resp] else [] in
      if (StatusCode resp =? 101)%Z then
        (finish start stop err (e <| Upgraded := true |>), false, succeeded err, got)
      else if ((100 <=? StatusCode resp) && (StatusCode resp <? 200))%Z then
        match err with
        | Some _ => (finish start stop err e, false, false, got)
        | None =>
            let '(e, keep, up, more) := read_replies closing start stop rs fail e in (e, keep, up, resp :: more)
        end
      else
        let c := tee (pBody resp) in
        let e := e <| RespBody := buf c |> <| RespSize := csize c |> in
        (finish start stop err e, succeeded err && negb closing && negb (pClose resp), false, got)
  end.

Section inspect.
(** [clean_host] is [Request.Write]'s reading of a Host; [url_target] gives the
request target of the URL that [url.ParseRequestURI] parses, [url_Parse] of the
URL that [url.Parse] parses. *)
Context (clean_host : string → string) (url_target url_Parse : string → option string).

Definition Request_Write (q : Request) : message :=
  mkMessage (if String.eqb (Method q) "" then "GET" else Method q) (URL q) (clean_host (Host q))
    (written_header (rHeader q)) (body_bytes (Body q)) (rClose q).

(** What [http.ReadRequest] makes of a request line, its headers and body. *)
Definition read_from_wire (q : Request) : Prop :=
  validMethod (Method q) = true ∧ url_target (RequestURI q) = Some (URL q) ∧ is_Some (Body q).

Definition exchange (tunnel : string) (q : Request) (start stop : Z) (io : exchange_io)
    : Entry * bool * bool * list Response :=
  let e := mkEntry 0 start tunnel (Method q) (RequestURI q) (Host q) (Proto q) (rHeader q) "" 0 0 ∅ "" 0 0 "" false 0 in
  match refused io with
  | Some err => (finish start stop (Some err) e, false, false, [])
  | None =>
      let reqBody := tee (default [] (Body q)) in
      let e := e <| ReqBody := buf reqBody |> <| ReqSize := csize reqBody |> in
      read_replies (rClose q) start stop (replies io) (no_reply io) e
  end.

(** A stream: the requests read from the client, each with the clock around its
exchange and what the connections did. The result is the recorder, what the
target was sent and the client got, and whether the stream became a raw pipe. *)
Fixpoint ServeStream (tunnel : string) (qs : list (Request * Z * Z * exchange_io)) (r : Recorder)
    : Recorder * list message * list Response * bool :=
  match qs with
  | [] => (r, [], [], false)
  | (q, start, stop, io) :: qs =>
      let '(e, keep, upgraded, got) := exchange tunnel q start stop io in
      let r := (add e r).1 in
      if upgraded then (r, [Request_Write q], got, true)
      else if negb keep then (r, [Request_Write q], got, false)
      else
        let '(r, sent, more, raw) := ServeStream tunnel qs r in
        (r, Request_Write q :: sent, got ++ more, raw)
  end.

Inductive replay_error := errNoSuchRequest | errTooLarge | errUpgrade | errDial | errNewRequest.

(** [http.NewRequest]; its Host and ContentLength are set again by [Replay]. *)
Definition NewRequest (method url : string) (body : list string) : option Request :=
  let method := if String.eqb method "" then "GET" else method in
  if negb (validMethod method) then None
  else target ← url_Parse url; Some (mkRequest method target "" "" "HTTP/1.1" ∅ (Some body) 0 false).

(** The request [Replay] makes of a record. *)
Definition replay_request (o : Entry) : option Request :=
  q ← NewRequest (eMethod o) ("http://" +:+ eHost o +:+ URI o) [ReqBody o];
  Some (q <| rHeader := ReqHead o |> <| Host := eHost o |> <| ContentLength := ReqSize o |>
          <| RequestURI := URI o |> <| rClose := true |>).

(** [dial] connects to the target of a tunnel. Besides the recorder and the
answer: the target that was dialed, and the message that was sent to it. *)
Definition Replay {T : Type} (dial : string → option T) (id : Z) (start stop : Z) (io : exchange_io) (r : Recorder)
    : Recorder * option T * option message * result replay_error Entry :=
  match Get id r with
  | None => (r, None, None, Err errNoSuchRequest)
  | Some o =>
      if negb (ReqSize o =? Z.of_nat (String.length (ReqBody o)))%Z then (r, None, None, Err errTooLarge)
      else if Upgraded o then (r, None, None, Err errUpgrade)
      else
        match dial (eTunnel o) with
        | None => (r, None, None, Err errDial)
        | Some t =>
            match replay_request o with
            | None => (r, Some t, None, Err errNewRequest)
            | Some q =>
                let '(e, _, _, _) := exchange (eTunnel o) q start stop io in
                let '(r, e) := add (e <| URI := URI o |> <| ReplayOf := ID o |>) r in
                (r, Some t, Some (Request_Write q), Ok e)
            end
        end
  end.

(** ** The web UI and its API *)

Definition ReplayHeader : string := "X-L8tunnel-Inspector".

(** [net.ParseIP] refuses zones; [IsLoopback] sees through IPv4-in-IPv6. *)
Definition ParseIP (s : string) : option Addr := if is_IP s then ParseAddr s else None.
Definition IsLoopback (a : Addr) : bool :=
  match Unmap a with
  | V4 x => (x / 2 ^ 24 =? 127)%N
  | V6 x _ => (x =? 1)%N
  | AddrZero => false
  end.
Definition local_host (host : string) : bool :=
  String.eqb host "localhost" || (if ParseIP host is Some ip then IsLoopback ip else false).

Inductive listen_error := errBadAddress | errNotLoopback.
Definition CheckListenAddr (addr : string) (public : bool) : option listen_error :=
  match SplitHostPort addr with
  | None => Some errBadAddress
  | Some (host, _) => if public || local_host host then None else Some errNotLoopback
  end.

(** [strings.Trim(s, "[]")] *)
Definition bracket (c : ascii) : bool := Ascii.eqb c "[" || Ascii.eqb c "]".
Fixpoint trim_brackets_left (s : string) : string :=
  match s with String c s' => if bracket c then trim_brackets_left s' else s | "" => "" end.
Fixpoint trim_brackets_right (s : string) : string :=
  match s with
  | "" => ""
  | String c s => match trim_brackets_right s with "" => if bracket c then "" else String c "" | s => String c s end
  end.
Definition trim_brackets (s : string) : string := trim_brackets_right (trim_brackets_left s).

(** The patterns of the [ServeMux]. *)
Inductive endpoint := PageUI | ListRequests | GetRequest (id : string) | PostReplay (id : string) | LiveEvents.

(** A path is its segments after the first slash; the mux redirects paths that
are not clean, and GET patterns match HEAD. *)
Definition clean_segment (s : string) : bool := negb (String.eqb s "" || String.eqb s "." || String.eqb s "..").
Definition route (method : string) (path : list string) : option endpoint :=
  let get := String.eqb method "GET" || String.eqb method "HEAD" in
  match path with
  | [""] => if get then Some PageUI else None
  | ["api"; "requests"] => if get then Some ListRequests else None
  | ["api"; "requests"; id] => if get && clean_segment id then Some (GetRequest id) else None
  | ["api"; "requests"; id; "replay"] =>
      if String.eqb method "POST" && clean_segment id then Some (PostReplay id) else None
  | ["api"; "events"] => if get then Some LiveEvents else None
  | _ => None
  end.

(** The value of [strconv.ParseInt(s, 10, 64)] with its error ignored. *)
Definition ParseInt_value (s : string) : Z :=
  let '(neg, body) :=
    match s with String "-" s' => (true, s') | String "+" s' => (false, s') | _ => (false, s) end in
  if String.eqb body "" then 0%Z
  else match parse_digits 0 body with
       | None => 0%Z
       | Some n => if neg : bool then Z.max (- 2 ^ 63) (- n) else Z.min (2 ^ 63 - 1) n
       end.

Inductive answer :=
| AnsUI | AnsList (l : list Summary) | AnsEntry (e : Entry) | AnsNotFound | AnsMissingHeader
| AnsReplayFailed (err : replay_error) | AnsReplayed (e : Entry) | AnsEvents (ch : nat)
| AnsNotLocal | AnsUnrouted.

Definition serve_mux {T : Type} (dial : string → option T) (start stop : Z) (io : exchange_io)
    (method : string) (path : list string) (h : Header) (r : Recorder) : Recorder * option T * option message * answer :=
  match route method path with
  | Some PageUI => (r, None, None, AnsUI)
  | Some ListRequests => (r, None, None, AnsList (List_ r))
  | Some (GetRequest id) =>
      (r, None, None, match Get (ParseInt_value id) r with Some e => AnsEntry e | None => AnsNotFound end)
  | Some (PostReplay id) =>
      if String.eqb (Header_Get ReplayHeader h) "" then (r, None, None, AnsMissingHeader)
      else
        let '(r, t, m, res) := Replay dial (ParseInt_value id) start stop io r in
        (r, t, m, match res with Ok e => AnsReplayed e | Err err => AnsReplayFailed err end)
  | Some LiveEvents => let '(r, ch) := subscribe r in (r, None, None, AnsEvents ch)
  | None => (r, None, None, AnsUnrouted)
  end.

(** [host] is the request's Host header. *)
Definition asked_host (host : string) : string :=
  trim_brackets (match SplitHostPort host with Some (h, _) => h | None => host end).
Definition Handler {T : Type} (dial : string → option T) (localOnly : bool) (start stop : Z) (io : exchange_io)
    (host method : string) (path : list string) (h : Header) (r : Recorder) : Recorder * option T * option message * answer :=
  if localOnly && negb (local_host (asked_host host)) then (r, None, None, AnsNotLocal)
  else serve_mux dial start stop io method path h r.
End inspect.
