(* ===== verification/InspectSpec.v ===== *)
(** * What the inspector keeps and replays

The recorder refines a history of all requests of which it shows the last ones
([kept]); the captured start of a body does not depend on how it was read
([tee_spec]); a replay repeats the recorded request at the tunnel's own target
([replay_repeats_request]); other web pages can neither read the records nor
send requests through the inspector ([inspector_guarded]). *)

From S2P Require Import Prelude GoStrings Base64 NetIP Protocol Access Agent AgentSpec Inspect.
From stdpp Require Import options gmap.
From Stdlib Require Import Ascii.
#[local] Open Scope l8_scope.

(** ** The last requests *)

(** All requests ever added, with the IDs they were given. *)
Definition numbered (h : list Entry) : list Entry := imap (λ i e, e <| ID := Z.of_nat (S i) |>) h.

Record kept (r : Recorder) (h : list Entry) : Prop := {
  k_max : (0 < rMax r)%Z;
  k_next : nextID r = Z.of_nat (length h);
  k_entries : entries r = drop (length h - Z.to_nat (rMax r)) (numbered h);
}.

Definition add_all (es : list Entry) (r : Recorder) : Recorder := foldl (λ r e, (add e r).1) r es.

Lemma numbered_snoc h e : numbered (h ++ [e]) = numbered h ++ [e <| ID := Z.of_nat (S (length h)) |>].
Proof. unfold numbered. rewrite imap_app. cbn. by rewrite Nat.add_0_r. Qed.
Lemma numbered_length h : length (numbered h) = length h.
Proof. apply length_imap. Qed.
Lemma numbered_lookup h i e : h !! i = Some e → numbered h !! i = Some (e <| ID := Z.of_nat (S i) |>).
Proof. intros He. unfold numbered. by rewrite list_lookup_imap, He. Qed.

Lemma NewRecorder_kept max : kept (NewRecorder max) [].
Proof. split; cbn; [|done|done]. unfold DefaultMaxEntries. destruct (Z.leb_spec max 0); lia. Qed.

Lemma add_kept e r h : kept r h → kept (add e r).1 (h ++ [e]).
Proof.
  intros [Hm Hn He]. split; cbn; [done|rewrite length_app; cbn; lia|].
  rewrite Hn, He, numbered_snoc. replace (Z.of_nat (length h) + 1)%Z with (Z.of_nat (S (length h))) by lia.
  set (e' := e <| ID := _ |>). set (d := (length h - Z.to_nat (rMax r))%nat).
  rewrite !length_app, length_drop, numbered_length. cbn [length].
  rewrite <- (drop_app_le (numbered h) [e'] d) by (rewrite numbered_length; lia).
  destruct (Z.ltb_spec (rMax r) (Z.of_nat (length h - d + 1))); [rewrite drop_drop|]; f_equal; lia.
Qed.

Lemma add_all_kept es r h : kept r h → kept (add_all es r) (h ++ es).
Proof.
  revert r h. induction es as [|e es IH]; intros r h Hk; [by rewrite app_nil_r|].
  cbn. rewrite (cons_middle e h es), app_assoc. by apply IH, add_kept.
Qed.
Lemma add_all_max es r : rMax (add_all es r) = rMax r.
Proof. revert r. induction es as [|e es IH]; intros r; [done|]. change (rMax (add_all es (add e r).1) = rMax r). by rewrite IH. Qed.

Lemma find_numbered d h (id : nat) e :
  (d ≤ id)%nat → h !! id = Some e →
  List.find (λ x, (ID x =? Z.of_nat (S id))%Z) (drop d (numbered h)) = Some (e <| ID := Z.of_nat (S id) |>).
Proof.
  intros Hd He%numbered_lookup. remember (numbered h) as l eqn:Hl.
  assert (∀ j x, drop d l !! j = Some x → ID x = Z.of_nat (S (d + j))) as Hid.
  { intros j x. rewrite lookup_drop, Hl. unfold numbered. rewrite list_lookup_imap. destruct (h !! _); [|done]. by intros [= <-]. }
  assert (drop d l !! (id - d)%nat = Some (e <| ID := Z.of_nat (S id) |>)) as Hx.
  { rewrite lookup_drop. by replace (d + (id - d))%nat with id by lia. }
  clear Hl He. remember (id - d)%nat as k eqn:Hk. generalize dependent (drop d l). intros xs Hid Hx. revert d k Hd Hk Hid Hx.
  induction xs as [|x xs IH]; intros d k Hd Hk Hid Hx; [done|]. cbn.
  pose proof (Hid 0%nat x eq_refl) as H0. destruct k as [|k].
  - cbn in Hx. injection Hx as ->. cbn. by rewrite Z.eqb_refl.
  - rewrite H0. destruct (Z.eqb_spec (Z.of_nat (S (d + 0))) (Z.of_nat (S id))); [lia|].
    apply (IH (S d) k); [lia|lia| |done]. intros j y Hy. rewrite (Hid (S j) y Hy). lia.
Qed.

(** [Get] finds exactly the last [rMax] requests. *)
Lemma Get_kept r h (i : nat) e :
  kept r h → h !! i = Some e →
  Get (Z.of_nat (S i)) r =
    (if bool_decide (Z.of_nat (length h - i) ≤ rMax r)%Z then Some (e <| ID := Z.of_nat (S i) |>) else None).
Proof.
  intros [Hm Hn He] Hi. unfold Get. rewrite He. pose proof (lookup_lt_Some _ _ _ Hi). case_bool_decide as Hc.
  - apply find_numbered; [lia|done].
  - destruct (List.find _ _) as [x|] eqn:Hx; [exfalso|done]. apply List.find_some in Hx as [Hx Hid].
    apply list_elem_of_In, list_elem_of_lookup in Hx as [j Hj].
    rewrite lookup_drop in Hj. unfold numbered in Hj. rewrite list_lookup_imap in Hj.
    apply fmap_Some in Hj as (y & _ & ->).
    apply Z.eqb_eq in Hid. change (Z.of_nat (S (length h - Z.to_nat (rMax r) + j)) = Z.of_nat (S i)) in Hid. lia.
Qed.

(** A request stays until [rMax] others have been added. *)
Lemma Get_later r h e later :
  kept r h →
  Get (nextID r + 1) (add_all later (add e r).1) =
    (if bool_decide (Z.of_nat (length later) < rMax r)%Z then Some (e <| ID := (nextID r + 1)%Z |>) else None).
Proof.
  intros Hk. assert (kept (add_all later (add e r).1) (h ++ e :: later)) as Hk1.
  { rewrite (cons_middle e h later), app_assoc. by apply add_all_kept, add_kept. }
  pose proof (Get_kept _ _ _ e Hk1 (list_lookup_middle h later e _ eq_refl)) as HG.
  rewrite add_all_max, length_app in HG. cbn [length] in HG. change (rMax (add e r).1) with (rMax r) in HG.
  rewrite (k_next _ _ Hk). replace (Z.of_nat (length h) + 1)%Z with (Z.of_nat (S (length h))) by lia. rewrite HG.
  erewrite bool_decide_ext; [done|]. lia.
Qed.
Lemma Get_newest r h e : kept r h → ID e = (nextID r + 1)%Z → Get (ID e) (add e r).1 = Some e.
Proof.
  intros Hk Hid. pose proof (Get_later r h e [] Hk) as HG. rewrite bool_decide_eq_true_2 in HG by apply (k_max _ _ Hk).
  rewrite Hid. rewrite <- Hid in HG at 2. by destruct e.
Qed.

(** ** The start of a body *)

Lemma length_take_str n s : String.length (String.substring 0 n s) = Nat.min n (String.length s).
Proof. revert n. induction s as [|c s IH]; intros [|n]; cbn; [done..|]. by rewrite IH. Qed.
Lemma take_str_app n a b :
  String.substring 0 n (a +:+ b) = String.substring 0 n a +:+ String.substring 0 (n - String.length a) b.
Proof.
  revert n. induction a as [|c a IH]; intros [|n]; try done.
  - by destruct b.
  - change (String c (String.substring 0 n (a +:+ b)) = String c (String.substring 0 n a +:+ String.substring 0 (n - String.length a) b)).
    by rewrite IH.
Qed.
Lemma take_str_all n s : (String.length s ≤ n)%nat → String.substring 0 n s = s.
Proof. revert n. induction s as [|c s IH]; intros [|n]; cbn; try done; [lia|]. intros Hn. rewrite IH by lia. done. Qed.
Lemma take_str_min n s : String.substring 0 (Nat.min n (String.length s)) s = String.substring 0 n s.
Proof. revert n. induction s as [|c s IH]; intros [|n]; cbn; try done. by rewrite IH. Qed.

Lemma concat_cons p ps : String.concat "" (p :: ps) = p +:+ String.concat "" ps.
Proof. destruct ps; [by rewrite str_app_nil_r|done]. Qed.

Lemma capture_Write_spec c w p :
  buf c = String.substring 0 (Z.to_nat MaxBody) w → csize c = Z.of_nat (String.length w) →
  buf (capture_Write c p) = String.substring 0 (Z.to_nat MaxBody) (w +:+ p) ∧
  csize (capture_Write c p) = Z.of_nat (String.length (w +:+ p)).
Proof.
  intros Hb Hs. unfold capture_Write. cbn [buf csize]. assert (0 ≤ MaxBody)%Z as H0 by done. revert H0 Hb. generalize MaxBody. intros M H0 Hb. rewrite Hb, Hs, length_take_str, str_length_app, take_str_app.
  split; [|lia]. destruct (Z.ltb_spec 0 (M - Z.of_nat (Z.to_nat M `min` String.length w))).
  - f_equal. rewrite <- (take_str_min (Z.to_nat M - String.length w)). f_equal.
    destruct (Z.ltb_spec (Z.of_nat (String.length p)) (M - Z.of_nat (Z.to_nat M `min` String.length w))); lia.
  - replace (Z.to_nat M - String.length w)%nat with 0%nat by lia. destruct p; cbn; by rewrite str_app_nil_r.
Qed.

(** The capture is the body's first [MaxBody] bytes and its whole size,
however the body was cut into pieces. *)
Lemma tee_spec ps :
  buf (tee ps) = String.substring 0 (Z.to_nat MaxBody) (String.concat "" ps) ∧
  csize (tee ps) = Z.of_nat (String.length (String.concat "" ps)).
Proof.
  unfold tee. set (c0 := mkCapture "" 0).
  assert (∀ w c, buf c = String.substring 0 (Z.to_nat MaxBody) w → csize c = Z.of_nat (String.length w) →
    buf (foldl capture_Write c ps) = String.substring 0 (Z.to_nat MaxBody) (w +:+ String.concat "" ps) ∧
    csize (foldl capture_Write c ps) = Z.of_nat (String.length (w +:+ String.concat "" ps))) as Hall.
  { induction ps as [|p ps IH]; intros w c Hb Hs; [by rewrite str_app_nil_r|].
    cbn [foldl]. rewrite concat_cons, str_app_assoc. by apply IH; apply capture_Write_spec. }
  apply (Hall "" c0); [|done]. by destruct (Z.to_nat MaxBody).
Qed.

Lemma tee_complete ps : complete (tee ps) = bool_decide (Z.of_nat (String.length (String.concat "" ps)) ≤ MaxBody)%Z.
Proof.
  destruct (tee_spec ps) as [Hb Hs]. unfold complete. rewrite Hb, Hs, length_take_str.
  assert (0 ≤ MaxBody)%Z as H0 by done. revert H0. generalize MaxBody. intros M H0. apply eq_true_iff_eq. rewrite Z.eqb_eq, bool_decide_eq_true. lia.
Qed.

(** ** What an exchange records *)

(** The fields of a record that tell the request. *)
Definition request_of (e : Entry) : string * string * string * string * Header * string * Z :=
  (eTunnel e, eMethod e, URI e, eHost e, ReqHead e, ReqBody e, ReqSize e).

Lemma finish_request start stop err e : request_of (finish start stop err e) = request_of e.
Proof. unfold finish. destruct err; [|done]. by destruct (String.eqb _ _). Qed.

Lemma read_replies_request closing start stop rs fail e :
  request_of (read_replies closing start stop rs fail e).1.1.1 = request_of e.
Proof.
  revert e. induction rs as [|[resp err] rs IH]; intros e; cbn [read_replies]; [exact (finish_request _ _ _ _)|].
  destruct (_ =? 101)%Z; [exact (finish_request _ _ _ _)|]. destruct (_ && _); [|exact (finish_request _ _ _ _)].
  destruct err; [exact (finish_request _ _ _ _)|].
  specialize (IH (e <| eStatus := StatusCode resp |> <| RespHead := pHeader resp |>)).
  destruct (read_replies _ _ _ rs _ _) as [[[e' keep] up] more]. exact IH.
Qed.

Lemma exchange_request n q start stop io :
  refused io = None →
  request_of (exchange n q start stop io).1.1.1 =
    (n, Method q, RequestURI q, Host q, rHeader q, String.substring 0 (Z.to_nat MaxBody) (body_bytes (Body q)),
     Z.of_nat (String.length (body_bytes (Body q)))).
Proof.
  intros Hr. unfold exchange. rewrite Hr. rewrite read_replies_request. unfold request_of, body_bytes.
  destruct (tee_spec (default [] (Body q))) as [<- <-]. done.
Qed.

(** The target of the tunnel an inspected stream belongs to, by name. *)
Lemma target_named_only n i t (a : Agent.Agent) :
  Agent.anames a !! i = Some n → Agent.Tunnels (Agent.cfg a) !! i = Some t →
  (∀ j, Agent.anames a !! j = Some n → j = i) → Agent.target_named n a = Some t.
Proof.
  unfold Agent.target_named. generalize (Agent.Tunnels (Agent.cfg a)) (Agent.anames a). intros ts ns.
  assert (∀ ns ts o, (∀ j, ns !! j ≠ Some n) →
    foldl (λ found '(m, t), if String.eqb m n then Some t else found) o (zip ns ts) = (o : option Agent.TunnelConfig)) as Hnone.
  { clear. induction ns as [|m ns IH]; intros [|t ts] o Hn; try done. cbn. destruct (String.eqb_spec m n) as [->|].
    - by destruct (Hn 0%nat). - apply IH. intros j. apply (Hn (S j)). }
  generalize (@None Agent.TunnelConfig). revert ns ts. induction i as [|i IH]; intros [|m ns] [|t' ts] o Hn Ht Hu; try done.
  - injection Hn as ->. injection Ht as ->. cbn. rewrite String.eqb_refl. apply Hnone. intros j Hj. by specialize (Hu (S j) Hj).
  - cbn. destruct (String.eqb_spec m n) as [->|]; [by specialize (Hu 0%nat eq_refl)|].
    apply IH; [done|done|]. intros j Hj. specialize (Hu (S j) Hj). lia.
Qed.

Lemma inspected_stream a id i t n :
  (Agent.serveStream (Some id) true a).2 = Agent.Inspect i t (Some n) →
  Agent.anames a !! i = Some n ∧ Agent.Tunnels (Agent.cfg a) !! i = Some t.
Proof.
  unfold Agent.serveStream, Agent.tunnelFor. destruct (Agent.targets a !! id) as [j|] eqn:Hj; [|done]. cbn.
  destruct (Agent.Tunnels (Agent.cfg a) !! j) as [u|] eqn:Hu; [|done]. cbn. destruct (_ && _); [|done].
  cbn. unfold Agent.requestedNameFor, Agent.add_stats. cbn. rewrite Hj. cbn. by intros [= <- <- ->].
Qed.

(** ** Replays *)

(** Host names and ports as browsers send them, and the request targets of
requests to a server: a path and a query. *)
Definition name_char (c : ascii) : bool := alnum c || is_upper c || Ascii.eqb c "-" || Ascii.eqb c ".".
Definition plain_host (h : string) : bool :=
  match CutByte ":" h with
  | Some (name, port) => str_forall name_char name && str_forall is_digit port
  | None => str_forall name_char h
  end.
Definition origin_form (uri : string) : bool :=
  match uri with String "/" rest => negb (str_mem "#" rest) | _ => false end.

Section replays.
Context (clean_host : string → string) (url_target url_Parse : string → option string).
(** [url.Parse] on an http URL reads what follows the host as
[url.ParseRequestURI] reads it alone, as long as there is no fragment. *)
Hypothesis url_path : ∀ h uri, plain_host h = true → origin_form uri = true →
  url_Parse ("http://" +:+ h +:+ uri) = url_target uri.

Lemma replay_request_spec o q :
  read_from_wire url_target q → plain_host (Host q) = true → origin_form (RequestURI q) = true →
  eMethod o = Method q → URI o = RequestURI q → eHost o = Host q → ReqHead o = rHeader q →
  ReqBody o = body_bytes (Body q) →
  ∃ q', replay_request url_Parse o = Some q' ∧
    Request_Write clean_host q' = Request_Write clean_host q <| mClose := true |>.
Proof using url_path.
  intros (Hm & Ht & Hb) Hh Hu Em Eu Eh Ehd Eb. unfold replay_request, NewRequest. rewrite Em, Eu, Eh.
  assert (String.eqb (Method q) "" = false) as Hne by (unfold validMethod in Hm; by destruct (String.eqb _ _)).
  rewrite Hne, Hm, url_path, Ht by done. cbn. eexists. split; [done|]. unfold Request_Write. cbn.
  rewrite Hne, Ehd, Eb. done.
Qed.

(** What a replay of a kept record does. *)
Lemma Replay_found {T} (dial : string → option T) id start stop io r o t q :
  Get id r = Some o → dial (eTunnel o) = Some t → replay_request url_Parse o = Some q →
  ReqSize o = Z.of_nat (String.length (ReqBody o)) → Upgraded o = false →
  ∃ r2 e2, Replay clean_host url_Parse dial id start stop io r = (r2, Some t, Some (Request_Write clean_host q), Ok e2) ∧
    URI e2 = URI o ∧ ReplayOf e2 = ID o ∧ ID e2 = (nextID r + 1)%Z ∧ r2 = (add e2 r).1.
Proof using Type.
  intros Hg Hd Hq Hs Hu. unfold Replay. rewrite Hg, Hs, Z.eqb_refl, Hu, Hd, Hq. cbn [negb].
  destruct (exchange _ q _ _ _) as [[[e keep] up] got]. cbn. do 2 eexists. split; [reflexivity|]. done.
Qed.

(** C39: a replay repeats the request. Take a request for a path (its target is
in origin form, not an absolute URL or an asterisk) and a plain host name, on an
inspected stream of a tunnel whose name is its own, that was read and written
to the service without a failure. It is recorded; as long as fewer than [rMax]
requests were recorded after it, replaying it connects to the target of the
stream's own tunnel (the agent may have reconnected, keeping its names) and
sends the very same method, target, host, headers and body, asking to close the
connection afterwards; the result is recorded as a replay of it. Only a request
with a body of more than [MaxBody] bytes or one that upgraded the connection is
refused, and then, or when it is no longer kept, nothing is dialed, sent or
recorded. (For a request whose writing failed see [cut_off_replayed].) *)
Theorem replay_repeats_request (a a' : Agent.Agent) sid i t n q start stop io r h later start' stop' io' :
  (Agent.serveStream (Some sid) true a).2 = Agent.Inspect i t (Some n) →
  (∀ j, Agent.anames a !! j = Some n → j = i) →
  Agent.anames a' = Agent.anames a → Agent.Tunnels (Agent.cfg a') = Agent.Tunnels (Agent.cfg a) →
  read_from_wire url_target q → plain_host (Host q) = true → origin_form (RequestURI q) = true →
  refused io = None → kept r h →
  let e := (exchange n q start stop io).1.1.1 in
  let id := (nextID r + 1)%Z in
  let r1 := add_all later (add e r).1 in
  let res := Replay clean_host url_Parse (λ n, Agent.target_named n a') id start' stop' io' r1 in
  if negb (bool_decide (Z.of_nat (length later) < rMax r)%Z) then res = (r1, None, None, Err errNoSuchRequest)
  else if negb (bool_decide (Z.of_nat (String.length (body_bytes (Body q))) ≤ MaxBody)%Z) then res = (r1, None, None, Err errTooLarge)
  else if Upgraded e then res = (r1, None, None, Err errUpgrade)
  else ∃ r2 e2,
    res = (r2, Some t, Some (Request_Write clean_host q <| mClose := true |>), Ok e2) ∧
    ReplayOf e2 = id ∧ URI e2 = RequestURI q ∧ kept r2 (h ++ [e] ++ later ++ [e2]) ∧ Get (ID e2) r2 = Some e2.
Proof using url_path.
  intros Hst Hu Hn' Ht' Hw Hh Ho Hio Hk e id r1 res.
  apply inspected_stream in Hst as [Hn Ht]. pose proof (target_named_only n i t a') as Htn.
  rewrite Hn', Ht' in Htn. specialize (Htn Hn Ht Hu).
  pose proof (exchange_request n q start stop io Hio) as He. fold e in He. clearbody e. injection He as E1 E2 E3 E4 E5 E6 E7.
  assert (kept r1 (h ++ e :: later)) as Hk1.
  { subst r1. rewrite (cons_middle e h later), app_assoc. by apply add_all_kept, add_kept. }
  pose proof (Get_later r h e later Hk) as HG. fold id r1 in HG.
  destruct (bool_decide (Z.of_nat (length later) < _)%Z); cbn [negb].
  2: { subst res. unfold Replay. by rewrite HG. }
  set (o := e <| ID := id |>) in HG.
  assert (ReqSize o = Z.of_nat (String.length (ReqBody o)) ↔ (Z.of_nat (String.length (body_bytes (Body q))) ≤ MaxBody)%Z) as Hs.
  { change (ReqSize o) with (ReqSize e). change (ReqBody o) with (ReqBody e). rewrite E6, E7, length_take_str.
    assert (0 ≤ MaxBody)%Z as H0 by done. revert H0. generalize MaxBody. intros M H0. lia. }
  destruct (bool_decide (_ ≤ MaxBody)%Z) eqn:Hwhole; cbn [negb].
  2: { apply bool_decide_eq_false in Hwhole. subst res. unfold Replay. rewrite HG.
       destruct (Z.eqb_spec (ReqSize o) (Z.of_nat (String.length (ReqBody o)))); [tauto|done]. }
  apply bool_decide_eq_true in Hwhole. pose proof (proj2 Hs Hwhole) as Hsz.
  destruct (Upgraded e) eqn:Hup.
  { subst res. unfold Replay. rewrite HG, Hsz, Z.eqb_refl. cbn [negb]. change (Upgraded o) with (Upgraded e). by rewrite Hup. }
  destruct (replay_request_spec o q) as (q' & Hq & Hmsg); try done.
  { change (ReqBody o) with (ReqBody e). rewrite E6. apply take_str_all. revert Hwhole. generalize MaxBody. intros M Hwhole. lia. }
  destruct (Replay_found (λ n, Agent.target_named n a') id start' stop' io' r1 o t q') as (r2 & e2 & HR & Hu2 & Hr2 & Hi2 & ->); try done.
  { change (eTunnel o) with (eTunnel e). by rewrite E1. }
  exists (add e2 r1).1, e2. rewrite Hmsg in HR. subst res. split; [exact HR|]. split; [done|]. split; [by rewrite Hu2|].
  pose proof (add_kept e2 _ _ Hk1) as Hk2. split; [by rewrite <- app_assoc in Hk2|]. by apply (Get_newest _ _ _ Hk1).
Qed.
End replays.

(** ** Who may use the inspector *)

Lemma CutByte_first c a b : str_forall (λ x, negb (Ascii.eqb x c)) a = true → CutByte c (a +:+ String c b) = Some (a, b).
Proof.
  induction a as [|x a IH]; cbn [str_forall]; intros Ha.
  - change (CutByte c (String c b) = Some ("", b)). cbn. by rewrite Ascii.eqb_refl.
  - apply andb_true_iff in Ha as [Hx Ha]. change (CutByte c (String x (a +:+ String c b)) = Some (String x a, b)).
    cbn [CutByte]. rewrite IH by done. by destruct (Ascii.eqb x c).
Qed.

Lemma CutByte_absent c a : str_forall (λ x, negb (Ascii.eqb x c)) a = true → CutByte c a = None.
Proof.
  induction a as [|x a IH]; cbn [str_forall CutByte]; [done|]. intros [Hx Ha]%andb_true_iff.
  rewrite IH by done. by destruct (Ascii.eqb x c).
Qed.

Lemma name_char_not c x : name_char c = false → name_char x = true → negb (Ascii.eqb x c) = true.
Proof. intros Hc Hx. destruct (Ascii.eqb_spec x c) as [->|]; [congruence|done]. Qed.
Lemma name_without c s : name_char c = false → str_forall name_char s = true → str_forall (λ x, negb (Ascii.eqb x c)) s = true.
Proof. intros Hc. apply str_forall_impl. intros x. by apply name_char_not. Qed.
Lemma digits_without c s : is_digit c = false → str_forall is_digit s = true → str_forall (λ x, negb (Ascii.eqb x c)) s = true.
Proof. intros Hc. apply str_forall_impl. intros x Hx. destruct (Ascii.eqb_spec x c) as [->|]; [congruence|done]. Qed.

Lemma trim_brackets_name s : str_forall name_char s = true → trim_brackets s = s.
Proof.
  intros Hs. assert (∀ c, name_char c = true → bracket c = false) as Hb.
  { intros c Hc. unfold bracket. destruct (Ascii.eqb_spec c "[") as [->|]; [done|]. by destruct (Ascii.eqb_spec c "]") as [->|]. }
  unfold trim_brackets. assert (trim_brackets_left s = s) as ->.
  { destruct s as [|c s]; [done|]. cbn in Hs |- *. apply andb_true_iff in Hs as [Hc _]. by rewrite Hb. }
  induction s as [|c s IH]; [done|]. cbn in Hs |- *. apply andb_true_iff in Hs as [Hc Hs]. rewrite IH by done.
  destruct s; [by rewrite Hb|done].
Qed.

Lemma SplitHostPort_unbracketed s :
  (∀ t, s ≠ String "[" t) →
  SplitHostPort s =
    ('(host, port) ← CutByte ":" s; if str_mem ":" port || str_mem "[" s || str_mem "]" s then None else Some (host, port)).
Proof. intros Hs. destruct s as [|c s]; [done|]. destruct c as [[] [] [] [] [] [] [] []]; try done. by destruct (Hs s). Qed.

(** The host of a Host header with or without a port. *)
Lemma asked_name name port :
  str_forall name_char name = true → str_forall is_digit port = true →
  asked_host name = name ∧ asked_host (name +:+ String ":" port) = name.
Proof.
  intros Hn Hp. assert (∀ u t, name +:+ u = String "[" t → ∃ v, u = String "[" v) as Hbr.
  { intros u t Heq. destruct name as [|c name]; [by exists t|]. injection Heq as -> _. done. }
  unfold asked_host. split; rewrite SplitHostPort_unbracketed.
  - rewrite CutByte_absent by (by apply name_without). by apply trim_brackets_name.
  - intros t Heq. destruct (Hbr "" t) as [v Hv]; [by rewrite str_app_nil_r|done].
  - rewrite CutByte_first by (by apply name_without). cbn [mbind option_bind].
    assert (∀ c, is_digit c = false → str_mem c port = false) as Hmp
      by (intros c Hc; unfold str_mem; by rewrite digits_without).
    assert (∀ c, name_char c = false → is_digit c = false → Ascii.eqb ":" c = false → str_mem c (name +:+ String ":" port) = false) as Hma.
    { intros c H1 H2 H3. unfold str_mem. rewrite str_forall_app, name_without by done. cbn [str_forall]. by rewrite digits_without, H3. }
    rewrite Hmp, !Hma by done. by apply trim_brackets_name.
  - intros t Heq. by destruct (Hbr _ _ Heq) as [v Hv].
Qed.

(** A host name with a letter or a dash is no address. *)
Lemma parse_octet_digits s n : parse_octet s = Some n → str_forall is_digit s = true.
Proof.
  unfold parse_octet. intros Hp. repeat case_match; try done.
  all: by eapply digits_forall.
Qed.
Lemma ParseAddr_name s a :
  str_forall name_char s = true → ParseAddr s = Some a → str_forall (λ c, is_digit c || Ascii.eqb c ".") s = true.
Proof.
  intros Hs. unfold ParseAddr. assert (family s = Some "."%char ∨ family s = None) as [-> | ->]; [|idtac|done].
  { induction s as [|c s IH]; [by right|]. cbn in Hs |- *. apply andb_true_iff in Hs as [Hc Hs].
    destruct (Ascii.eqb_spec c "."); [subst; by left|]. rewrite !(proj2 (Ascii.eqb_neq c _)) by (intros ->; done). by apply IH. }
  unfold parseIPv4, parseIPv4Fields. intros Hp. destruct (SplitByte "." s) as [|x [|y [|z [|w [|? ?]]]]] eqn:Hsp; try done.
  destruct (parse_octet x) eqn:Hx, (parse_octet y) eqn:Hy, (parse_octet z) eqn:Hz, (parse_octet w) eqn:Hw; try done.
  rewrite <- (JoinByte_SplitByte "." s), Hsp. apply JoinByte_forall; [done|].
  intros l Hl. assert (str_forall is_digit l = true) as Hd.
  { rewrite !elem_of_cons, elem_of_nil in Hl. destruct Hl as [->|[->|[->|[->|[]]]]]; by eapply parse_octet_digits. }
  eapply str_forall_impl; [|exact Hd]. by intros c ->.
Qed.

(** A name that is not localhost does not pass for this machine. *)
Definition foreign_name (name : string) : bool :=
  str_forall name_char name && negb (str_forall (λ c, is_digit c || Ascii.eqb c ".") name) && negb (String.eqb name "localhost").

Lemma foreign_not_local name : foreign_name name = true → local_host name = false.
Proof.
  unfold foreign_name. intros Hf. apply andb_true_iff in Hf as [[Hn Hd]%andb_true_iff Hl].
  unfold local_host, ParseIP. destruct (String.eqb name "localhost"); [done|]. cbn. destruct (is_IP name); [|done].
  destruct (ParseAddr name) as [ip|] eqn:Hp; [|done]. apply ParseAddr_name in Hp; [|done]. by rewrite Hp in Hd.
Qed.

Lemma route_replay method path id : route method path = Some (PostReplay id) → method = "POST".
Proof.
  unfold route. destruct (String.eqb_spec method "POST"); [done|]. intros Hr. exfalso. revert Hr.
  repeat case_match; try discriminate.
Qed.

(** The inspector is out of reach of other web pages. A page whose name was made
to resolve to this machine sends its own name in the Host header: it learns
nothing and changes nothing. And whatever a request's Host, nothing is dialed,
sent or recorded unless it is a POST for a replay with the inspector's header,
which a page of another origin cannot add. *)
Theorem inspector_guarded {T} clean_host url_Parse (dial : string → option T) start stop io name port method path h r :
  str_forall is_digit port = true → foreign_name name = true →
  (∀ host, host = name ∨ host = name +:+ String ":" port →
    Handler clean_host url_Parse dial true start stop io host method path h r = (r, None, None, AnsNotLocal)) ∧
  ∀ localOnly host r' t m ans,
    Handler clean_host url_Parse dial localOnly start stop io host method path h r = (r', t, m, ans) →
    t ≠ None ∨ m ≠ None ∨ entries r' ≠ entries r →
    method = "POST" ∧ Header_Get ReplayHeader h ≠ "" ∧ (localOnly = true → local_host (asked_host host) = true).
Proof.
  intros Hp Hf. split.
  - pose proof Hf as Hn. unfold foreign_name in Hn. apply andb_true_iff in Hn as [[Hn _]%andb_true_iff _].
    destruct (asked_name name port Hn Hp) as [H1 H2]. intros host [-> | ->]; unfold Handler; rewrite ?H1, ?H2; by rewrite foreign_not_local.
  - intros localOnly host r' t m ans. unfold Handler. destruct (localOnly && _) eqn:Hg.
    { intros [= <- <- <- _]. tauto. }
    intros HH Hch. assert (localOnly = true → local_host (asked_host host) = true) as Hloc.
    { intros ->. by destruct (local_host _). }
    unfold serve_mux in HH. destruct (route method path) as [[| | |id|]|] eqn:Hr;
      try (injection HH as <- <- <- _; tauto).
    destruct (String.eqb_spec (Header_Get ReplayHeader h) ""); [injection HH as <- <- <- _; tauto|].
    split_and!; try done. by apply (route_replay _ _ _ Hr).
Qed.

(** ** A concrete agent and recorder *)

#[local] Existing Instance plain_crypto.
#[local] Existing Instance ascii_only.

Module InspectSample.
Definition site : Agent.TunnelConfig :=
  Agent.mkTunnelConfig "shop" TUNNEL_TYPE_HTTP "127.0.0.1:8080" false false 0 [] [] [] None [] "".
Definition conf : Agent.Config :=
  Agent.mkConfig "relay.example:443" (Some (Agent.mkTLS "relay.example" 1)) "" "agent-1" "1.0" [AgentSpec.AgentSample.ssh; site] "" "" true 0 0 0.
Definition agent : Agent.Agent :=
  (match Agent.New (λ _, None) "rnd" conf with Ok a => a | Err _ => AgentSpec.AgentSample.a end)
    <| Agent.targets := {["t2" := 1%nat]} |> <| Agent.anames := ["ssh-x"; "shop"] |>.

(** Requests for a path only, as [url_Parse] and [url_target] read them. *)
Definition url_target (u : string) : option string := if u is String "/" _ then Some u else None.
Definition url_Parse (u : string) : option string :=
  rest ← CutPrefix "http://" u; '(_, path) ← CutByte "/" rest; Some (String "/" path).

Lemma url_path h uri : plain_host h = true → origin_form uri = true → url_Parse ("http://" +:+ h +:+ uri) = url_target uri.
Proof.
  intros Hh Hu. destruct uri as [|c uri]; [done|]. assert (c = "/"%char) as ->.
  { destruct c as [[] [] [] [] [] [] [] []]; done. }
  unfold url_Parse. replace (CutPrefix "http://" ("http://" +:+ h +:+ String "/" uri)) with (Some (h +:+ String "/" uri)) by done.
  cbn [mbind option_bind]. rewrite CutByte_first; [done|]. unfold plain_host in Hh.
  destruct (CutByte ":" h) as [[name port]|] eqn:Hc; [|by apply name_without].
  apply CutByte_spec in Hc as ->. apply andb_true_iff in Hh as [Hn Hp].
  rewrite str_forall_app, name_without by done. cbn [str_forall]. by rewrite digits_without.
Defined.

Definition order : Request :=
  mkRequest "POST" "/order?id=7" "/order?id=7" "shop.t.example:443" "HTTP/1.1"
    {["Content-Type" := ["text/plain"]]} (Some ["one "; "coffee"]) 10 false.
Definition served : exchange_io := mkIO None [(mkResponse 103 ∅ [] false, None); (mkResponse 201 ∅ ["ok"] false, None)] "".
(** The client went away before it had sent the whole body. *)
Definition cut_off : exchange_io := mkIO (Some "unexpected EOF") [] "".
Definition other : Entry := (exchange "shop" order 0 0 cut_off).1.1.1.
End InspectSample.
Import InspectSample.

Lemma replay_repeats_request_witness :
  let e := (exchange "shop" order 1000 3000 served).1.1.1 in
  let m := Request_Write id order <| mClose := true |> in
  (∃ r2 e2, Replay id url_Parse (λ n, Agent.target_named n agent) (nextID (NewRecorder 2) + 1) 5000 9000 served
      (add_all [other] (add e (NewRecorder 2)).1) = (r2, Some site, Some m, Ok e2) ∧
    ReplayOf e2 = (nextID (NewRecorder 2) + 1)%Z ∧ Get (ID e2) r2 = Some e2) ∧
  (mMethod m, mTarget m, mHost m, mBody m) = ("POST", "/order?id=7", "shop.t.example:443", "one coffee") ∧
  ReqBody e = "one coffee" ∧ eStatus e = 201%Z.
Proof.
  intros e m. split; [|vm_compute; split_and!; reflexivity].
  pose proof (replay_repeats_request id url_target url_Parse url_path agent agent "t2" 1 site "shop" order 1000 3000 served
    (NewRecorder 2) [] [other] 5000 9000 served) as HR. cbv zeta in HR. fold e m in HR.
  assert (bool_decide (Z.of_nat (length [other]) < rMax (NewRecorder 2))%Z = true) as E1 by (vm_compute; reflexivity).
  assert (bool_decide (Z.of_nat (String.length (body_bytes (Body order))) ≤ MaxBody)%Z = true) as E2 by (vm_compute; reflexivity).
  assert (Upgraded e = false) as E3 by (vm_compute; reflexivity).
  rewrite E1, E2, E3 in HR. cbn [negb] in HR.
  destruct HR as (r2 & e2 & H1 & H2 & _ & _ & H5); [vm_compute; reflexivity| |reflexivity|reflexivity| | | | | |].
  - intros j Hj. destruct j as [|[|[|j]]]; vm_compute in Hj; done.
  - split; [reflexivity|]. split; [reflexivity|]. by eexists.
  - reflexivity.
  - reflexivity.
  - reflexivity.
  - apply NewRecorder_kept.
  - exists r2, e2. exact (conj H1 (conj H2 H5)).
Defined.

(** A request that could not be written whole is recorded with an empty body of
size 0, which passes for a body captured in full: the replay is not refused and
sends the request without its body. *)
Lemma cut_off_replayed :
  ∃ r2 e2, Replay id url_Parse (λ n, Agent.target_named n agent) 1 5000 9000 served (add other (NewRecorder 0)).1
    = (r2, Some site, Some (mkMessage "POST" "/order?id=7" "shop.t.example:443"
        {["Content-Type" := ["text/plain"]; "User-Agent" := ["Go-http-client/1.1"]]} "" true), Ok e2).
Proof. do 2 eexists. vm_compute. reflexivity. Qed.
