(* ===== verification/AgentConf.v ===== *)
(** * The agent's configuration (go/tunnel/config agent.go, agent_cli.go,
target.go, logging.go; cmd/l8tunnel-agent/main.go)

An agent is configured by agent.yaml or by its command line, which describes
one tunnel. [ParseAgentArgs] makes an [AgentFile] of either, [AgentConfig] the
configuration of package agent, and [start_agent] is what the program does with
it before the agent runs. Go's package flag is modelled as far as it is used:
a [FlagSet] gives each flag's setter, [flag_Parse] reads the arguments. Files,
URLs and TLS material are parameters. *)

From S2P Require Import Prelude GoStrings Base64 NetIP Protocol Policy Access Agent ServerConf Inspect.
From stdpp Require Import options gmap.
From Stdlib Require Import Ascii.
#[local] Open Scope l8_scope.

(** ** Files *)

Record LogFile := mkLog { Format : string; Level : string }.
Record OIDCTunnel := mkOIDCTunnel { otProvider : string; otEmails : list string; otDomains : list string }.
Record BasicAuthUser := mkBasicUser { buUser : string; buHash : string }.

Record TunnelFile := mkTunnelFile {
  tfName : string; tfType : string; tfTarget : string; tfPublicPort : N; tfInsecure : bool;
  tfAllowIPs : list string; tfDenyIPs : list string; tfBasicAuth : list BasicAuthUser;
  tfAccessToken : string; tfDomains : list string; tfOIDC : option OIDCTunnel;
}.
#[export] Instance eta_tunnel_file : Eta TunnelFile := λ t,
  mkTunnelFile (tfName t) (tfType t) (tfTarget t) (tfPublicPort t) (tfInsecure t) (tfAllowIPs t) (tfDenyIPs t)
    (tfBasicAuth t) (tfAccessToken t) (tfDomains t) (tfOIDC t).

Record AgentFile := mkAgentFile {
  afRelay : string; afServerName : string; afCA : string; afToken : string; afCert : string; afKey : string;
  afStatusSocket : string; afTransport : string; afProxy : string; afInspect : string; afInspectPublic : bool;
  afLog : LogFile; afTunnels : list TunnelFile;
}.
#[export] Instance eta_agent_file : Eta AgentFile := λ f,
  mkAgentFile (afRelay f) (afServerName f) (afCA f) (afToken f) (afCert f) (afKey f) (afStatusSocket f)
    (afTransport f) (afProxy f) (afInspect f) (afInspectPublic f) (afLog f) (afTunnels f).
#[export] Instance eta_log : Eta LogFile := λ l, mkLog (Format l) (Level l).

(** [NewLogger]: is there a logger? *)
Definition NewLogger `{GoUnicode} (l : LogFile) : bool :=
  bool_decide (ToLower (Level l) ∈ [""; "info"; "debug"; "warn"; "warning"; "error"])
  && bool_decide (ToLower (Format l) ∈ [""; "text"; "json"]).

(** ** Package flag *)

Section flags.
Context {S : Type}.

Record flag := mkFlag { isBoolFlag : bool; flag_Set : string → S → option S }.
Definition FlagSet : Type := string → option flag.

Inductive flag_err := BadSyntax (arg : string) | ErrHelp | NotDefined (name : string) | NeedsArgument (name : string)
                    | InvalidValue (name value : string).

(** An argument: not a flag, the end of the flags, or a flag with its value. *)
Inductive word := NoFlag | EndFlags | BadFlag | Flag (name : string) (value : option string).
Definition read_word (arg : string) : word :=
  match arg with
  | String "-" rest =>
      if String.eqb rest "" then NoFlag
      else if String.eqb rest "-" then EndFlags
      else
        let name := match rest with String "-" name => name | _ => rest end in
        match name with
        | "" | String "-" _ | String "=" _ => BadFlag
        | _ => match CutByte "=" name with Some (n, v) => Flag n (Some v) | None => Flag name None end
        end
  | _ => NoFlag
  end.

(** [Parse]: the state the setters leave, the names of the flags that were
given, and the arguments that are left. *)
Fixpoint flag_Parse (fs : FlagSet) (args : list string) (s : S) : result flag_err (S * list string * list string) :=
  match args with
  | [] => Ok (s, [], [])
  | arg :: rest =>
      match read_word arg with
      | NoFlag => Ok (s, [], args)
      | EndFlags => Ok (s, [], rest)
      | BadFlag => Err (BadSyntax arg)
      | Flag name value =>
          match fs name with
          | None => Err (if String.eqb name "help" || String.eqb name "h" then ErrHelp else NotDefined name)
          | Some f =>
              let set v rest' (k : S → result flag_err (S * list string * list string)) :=
                match flag_Set f v s with
                | None => Err (InvalidValue name v)
                | Some s => match k s with Ok (s, seen, more) => Ok (s, name :: seen, more) | Err e => Err e end
                end in
              match value with
              | Some v => set v rest (flag_Parse fs rest)
              | None =>
                  if isBoolFlag f then set "true" rest (flag_Parse fs rest)
                  else match rest with
                       | [] => Err (NeedsArgument name)
                       | v :: rest => set v rest (flag_Parse fs rest)
                       end
              end
          end
      end
  end.

(** [StringVar], [BoolVar] and a repeatable flag ([stringList]). *)
Definition string_flag (set : string → S → S) : flag := mkFlag false (λ v s, Some (set v s)).
Definition ParseBool (v : string) : option bool :=
  if bool_decide (v ∈ ["1"; "t"; "T"; "TRUE"; "true"; "True"]) then Some true
  else if bool_decide (v ∈ ["0"; "f"; "F"; "FALSE"; "false"; "False"]) then Some false
  else None.
Definition bool_flag (set : bool → S → S) : flag := mkFlag true (λ v s, b ← ParseBool v; Some (set b s)).
End flags.
Arguments flag : clear implicits.
Arguments FlagSet : clear implicits.

(** [strconv.ParseUint(s, 0, 64)] *)
Definition digit_of (c : ascii) : option Z :=
  if is_digit c then Some (Z.of_N (code c) - 48)%Z
  else if is_lower c then Some (Z.of_N (code c) - 87)%Z
  else if is_upper c then Some (Z.of_N (code c) - 55)%Z
  else None.
Fixpoint parse_base (base acc : Z) (s : string) : option Z :=
  match s with
  | "" => Some acc
  | String "_" s => parse_base base acc s
  | String c s =>
      d ← digit_of c;
      if (d <? base)%Z then parse_base base (acc * base + d)%Z s else None
  end.
(** [underscoreOK]: underscores only between digits or after the prefix;
[prev] is true when a digit or the prefix came before. *)
Fixpoint underscores_between (hex prev : bool) (after_us : bool) (s : string) : bool :=
  match s with
  | "" => negb after_us
  | String c s =>
      if is_digit c || hex && (((97 <=? code c) && (code c <=? 102)) || ((65 <=? code c) && (code c <=? 70)))%N
      then underscores_between hex true false s
      else if Ascii.eqb c "_" then prev && underscores_between hex false true s
      else negb after_us && underscores_between hex false false s
  end.
Definition ParseUint (s : string) : option Z :=
  let '(base, digits, prefixed) :=
    match s with
    | String "0" (String b (String c rest)) =>
        if Ascii.eqb b "b" || Ascii.eqb b "B" then (2, String c rest, true)
        else if Ascii.eqb b "o" || Ascii.eqb b "O" then (8, String c rest, true)
        else if Ascii.eqb b "x" || Ascii.eqb b "X" then (16, String c rest, true)
        else (8, String b (String c rest), false)
    | String "0" rest => (8, rest, false)
    | _ => (10, s, false)
    end%Z in
  if String.eqb s "" then None
  else
    n ← parse_base base 0 digits;
    if (2 ^ 64 <=? n)%Z then None
    else if str_mem "_" digits
            && negb (underscores_between (base =? 16)%Z prefixed false (if prefixed : bool then digits else s)) then None
    else Some n.

(** ** Targets *)

(** What [url.Parse] makes of a target. *)
Record TargetURL := mkTargetURL {
  uScheme : string; uPath : string; uRawQuery : string; uUser : bool; uHostname : string; uPort : string;
}.

Inductive target_err := BadTargetPort | OnlyHostAndPort | TargetNoHost | TargetForm.

(** Flags that set a field of the files. *)
Definition set_log (f : LogFile → LogFile) (g : AgentFile) : AgentFile := g <| afLog := f (afLog g) |>.

(** The state of the global flags: the path of a configuration file and the
agent's settings. *)
Definition global_flags : FlagSet (string * AgentFile) := λ name,
  let file set := Some (string_flag (λ v '(c, f), (c, set v f))) in
  if String.eqb name "config" then Some (string_flag (λ v '(_, f), (v, f)))
  else if String.eqb name "relay" then file (λ v f, f <| afRelay := v |>)
  else if String.eqb name "server-name" then file (λ v f, f <| afServerName := v |>)
  else if String.eqb name "ca" then file (λ v f, f <| afCA := v |>)
  else if String.eqb name "token" then file (λ v f, f <| afToken := v |>)
  else if String.eqb name "cert" then file (λ v f, f <| afCert := v |>)
  else if String.eqb name "key" then file (λ v f, f <| afKey := v |>)
  else if String.eqb name "status-socket" then file (λ v f, f <| afStatusSocket := v |>)
  else if String.eqb name "transport" then file (λ v f, f <| afTransport := v |>)
  else if String.eqb name "proxy" then file (λ v f, f <| afProxy := v |>)
  else if String.eqb name "inspect" then file (λ v f, f <| afInspect := v |>)
  else if String.eqb name "log-format" then file (λ v, set_log (λ l, l <| Format := v |>))
  else if String.eqb name "log-level" then file (λ v, set_log (λ l, l <| Level := v |>))
  else None.

(** The variables the tunnel's flags set, besides the tunnel. *)
Record tunnel_vars := mkVars {
  tvTunnel : TunnelFile; tvBasic : list string; tvProvider : string; tvEmails : list string; tvDomains : list string; tvPort : Z;
}.
#[export] Instance eta_vars : Eta tunnel_vars := λ v,
  mkVars (tvTunnel v) (tvBasic v) (tvProvider v) (tvEmails v) (tvDomains v) (tvPort v).

Definition tunnel_flags : FlagSet tunnel_vars := λ name,
  let tunnel set := Some (string_flag (λ v s, s <| tvTunnel := set v (tvTunnel s) |>)) in
  if String.eqb name "name" then tunnel (λ v t, t <| tfName := v |>)
  else if String.eqb name "insecure-skip-verify" then
    Some (bool_flag (λ b s, s <| tvTunnel := tvTunnel s <| tfInsecure := b |> |>))
  else if String.eqb name "allow-ip" then tunnel (λ v t, t <| tfAllowIPs := tfAllowIPs t ++ [v] |>)
  else if String.eqb name "deny-ip" then tunnel (λ v t, t <| tfDenyIPs := tfDenyIPs t ++ [v] |>)
  else if String.eqb name "basic-auth" then Some (string_flag (λ v s, s <| tvBasic := tvBasic s ++ [v] |>))
  else if String.eqb name "access-token" then tunnel (λ v t, t <| tfAccessToken := v |>)
  else if String.eqb name "domain" then tunnel (λ v t, t <| tfDomains := tfDomains t ++ [v] |>)
  else if String.eqb name "oidc" then Some (string_flag (λ v s, s <| tvProvider := v |>))
  else if String.eqb name "allow-email" then Some (string_flag (λ v s, s <| tvEmails := tvEmails s ++ [v] |>))
  else if String.eqb name "allow-domain" then Some (string_flag (λ v s, s <| tvDomains := tvDomains s ++ [v] |>))
  else if String.eqb name "port" then Some (mkFlag false (λ v s, p ← ParseUint v; Some (s <| tvPort := p |>)))
  else None.

Inductive args_err :=
| ArgsFlag (e : flag_err) | ArgsConfigAlone | ArgsLoad | ArgsNoTunnel | ArgsTarget (e : target_err)
| ArgsBasicAuth (b : string) | ArgsUnexpected (rest : list string) | ArgsPort (p : Z).

Definition empty_file : AgentFile := mkAgentFile "" "" "" "" "" "" "" "" "" "" false (mkLog "" "") [].

(** The loop over [basic]. *)
Definition basic_users (basic : list string) : result args_err (list BasicAuthUser) :=
  foldM (λ out b, match CutByte ":" b with
                  | None => Err (ArgsBasicAuth b)
                  | Some (user, hash) => Ok (out ++ [mkBasicUser user hash])
                  end) [] basic.

Section agentconf.
Context (url_Parse : string → option TargetURL) (load : string → option AgentFile).

Definition parseTarget (s : string) : result target_err (string * bool) :=
  if String.eqb s "" then Ok ("", false)
  else
    match Atoi s with
    | Some p => refuse! (p <? 1)%Z || (65535 <? p)%Z with BadTargetPort ;; Ok (JoinHostPort "127.0.0.1" s, false)
    | None =>
        match url_Parse s with
        | Some u =>
            if String.eqb (uScheme u) "http" || String.eqb (uScheme u) "https" then
              refuse! negb (String.eqb (uPath u) "") && negb (String.eqb (uPath u) "/")
                      || negb (String.eqb (uRawQuery u) "") || uUser u with OnlyHostAndPort ;;
              refuse! String.eqb (uHostname u) "" with TargetNoHost ;;
              let port := if String.eqb (uPort u) "" then (if String.eqb (uScheme u) "http" then "80" else "443") else uPort u in
              Ok (JoinHostPort (uHostname u) port, String.eqb (uScheme u) "https")
            else if SplitHostPort s is None then Err TargetForm else Ok (s, false)
        | None => if SplitHostPort s is None then Err TargetForm else Ok (s, false)
        end
    end.

(** [strings.Contains(s, "://")] *)
Fixpoint has_scheme (s : string) : bool :=
  match s with
  | "" => false
  | String _ s' => if CutPrefix "://" s is Some _ then true else has_scheme s'
  end.

Definition starts_with_dash (s : string) : bool := if CutPrefix "-" s is Some _ then true else false.

(** The target, when the first argument is no flag. *)
Definition target_arg (t : TunnelFile) (args : list string) : result args_err (TunnelFile * list string) :=
  match args with
  | arg :: rest =>
      if starts_with_dash arg then Ok (t, args)
      else match parseTarget arg with
           | Err e => Err (ArgsTarget e)
           | Ok (target, _) => Ok (t <| tfTarget := if has_scheme arg then arg else target |>, rest)
           end
  | [] => Ok (t, args)
  end.

Definition parseTunnelArgs (typ : string) (args : list string) : result args_err TunnelFile :=
  match target_arg (mkTunnelFile "" typ "" 0 false [] [] [] "" [] None) args with
  | Err e => Err e
  | Ok (t, args) =>
  match flag_Parse tunnel_flags args (mkVars t [] "" [] [] 0) with
  | Err e => Err (ArgsFlag e)
  | Ok (v, _, rest) =>
      let t := tvTunnel v in
      let t := if negb (String.eqb (tvProvider v) "") || negb (bool_decide (tvEmails v = [])) || negb (bool_decide (tvDomains v = []))
               then t <| tfOIDC := Some (mkOIDCTunnel (tvProvider v) (tvEmails v) (tvDomains v)) |> else t in
      match basic_users (tvBasic v) with
      | Err e => Err e
      | Ok users =>
          let t := t <| tfBasicAuth := users |> in
          refuse! negb (bool_decide (rest = [])) with ArgsUnexpected rest ;;
          refuse! (65535 <? tvPort v)%Z with ArgsPort (tvPort v) ;;
          Ok (t <| tfPublicPort := Z.to_N (tvPort v) |>)
      end
  end end.

Definition ParseAgentArgs (args : list string) : result args_err AgentFile :=
  match flag_Parse global_flags args ("", empty_file) with
  | Err e => Err (ArgsFlag e)
  | Ok ((configPath, f), seen, rest) =>
      if negb (String.eqb configPath "") then
        refuse! negb (bool_decide (List.filter (λ n, negb (String.eqb n "config")) seen = [])) || negb (bool_decide (rest = []))
        with ArgsConfigAlone ;;
        match load configPath with Some f => Ok f | None => Err ArgsLoad end
      else
        match rest with
        | [] => Err ArgsNoTunnel
        | typ :: args =>
            match parseTunnelArgs typ args with Err e => Err e | Ok t => Ok (f <| afTunnels := [t] |>) end
        end
  end.

(** ** The agent's configuration *)

Definition TokenEnv : string := "L8TUNNEL_TOKEN".

Inductive agent_file_err :=
| AFEnv (field : string) | AFRelay | AFServerName | AFCA | AFCertPair | AFCert
| AFType (tunnel : string) | AFTarget (tunnel : string) (e : target_err) | AFScheme (tunnel : string)
| AFArgs (e : args_err) | AFLog | AFInspect (e : listen_error) | AFListen | AFConfig (e : config_err).

(** The environment; can the CA file be read; can the certificate be loaded. *)
Context (env : string → option string) (ca_ok : string → bool) (pair_ok : string → string → bool).
Context `{GoUnicode, Crypto}.

Definition oidcConfig (o : option OIDCTunnel) : option OIDCConfig :=
  (λ o, mkOIDCConfig (otProvider o) (otEmails o) (otDomains o)) <$> o.

(** One round of [AgentConfig]'s loop. *)
Definition tunnel_config (t : TunnelFile) : result agent_file_err TunnelConfig :=
  match ParseTunnelType (tfType t) with
  | Err _ => Err (AFType (tfName t))
  | Ok typ =>
  match parseTarget (tfTarget t) with
  | Err e => Err (AFTarget (tfName t) e)
  | Ok (target, useTLS) =>
  refuse! has_scheme (tfTarget t) && negb (bool_decide (typ = TUNNEL_TYPE_HTTP)) with AFScheme (tfName t) ;;
  match expandEnv env (tfAccessToken t) with
  | None => Err (AFEnv (tfName t))
  | Some accessToken =>
      Ok (mkTunnelConfig (tfName t) typ target useTLS (tfInsecure t) (tfPublicPort t) (tfAllowIPs t) (tfDenyIPs t)
            ((λ u, mkUser (buUser u) (buHash u)) <$> tfBasicAuth t) (oidcConfig (tfOIDC t)) (tfDomains t) accessToken)
  end end end.

(** [ClientTLSConfig] and [LoadClientCert]: the TLS configuration. *)
Definition client_tls (serverName : string) (f : AgentFile) : result agent_file_err tlsConfig :=
  refuse! String.eqb serverName "" with AFServerName ;;
  if negb (String.eqb (afCA f) "") && negb (ca_ok (afCA f)) then Err AFCA
  else if negb (String.eqb (afCert f) "") || negb (String.eqb (afKey f) "") then
    if String.eqb (afCert f) "" || String.eqb (afKey f) "" then Err AFCertPair
    else if pair_ok (afCert f) (afKey f) then Ok (mkTLS serverName 1) else Err AFCert
  else Ok (mkTLS serverName 0).

Definition AgentConfig (version : string) (f : AgentFile) : result agent_file_err Config :=
  match expandEnv env (afToken f) with
  | None => Err (AFEnv "token")
  | Some token =>
  let token := if String.eqb token "" then default "" (env TokenEnv) else token in
  match (if String.eqb (afServerName f) "" then ServerName (afRelay f) else Some (afServerName f)) with
  | None => Err AFRelay
  | Some serverName =>
  match client_tls serverName f with
  | Err e => Err e
  | Ok tlsCfg =>
  match foldM (λ out t, match tunnel_config t with Err e => Err e | Ok c => Ok (out ++ [c]) end) [] (afTunnels f) with
  | Err e => Err e
  | Ok tunnels =>
      Ok (mkConfig (afRelay f) (Some tlsCfg) token "" version tunnels (afTransport f) (afProxy f) false 0 0 0)
  end end end end.

(** [run] of the program, up to a.Run: the agent, and whether the inspector only
answers this machine. [listens]: the inspector's address could be opened. *)
Definition start_agent (proxy_Parse : string → option Agent.URL) (listens : string → bool) (randomID version : string) (args : list string)
    : result agent_file_err (Agent * option bool) :=
  match ParseAgentArgs args with
  | Err e => Err (AFArgs e)
  | Ok file =>
  refuse! negb (NewLogger (afLog file)) with AFLog ;;
  match AgentConfig version file with
  | Err e => Err e
  | Ok c =>
  let inspector :=
    if String.eqb (afInspect file) "" then Ok (c, None)
    else match CheckListenAddr (afInspect file) (afInspectPublic file) with
         | Some e => Err (AFInspect e)
         | None => refuse! negb (listens (afInspect file)) with AFListen ;;
                   Ok (c <| Agent.Recorder := true |>, Some (negb (afInspectPublic file)))
         end in
  match inspector with
  | Err e => Err e
  | Ok (c, localOnly) =>
      match New proxy_Parse randomID c with Err e => Err (AFConfig e) | Ok a => Ok (a, localOnly) end
  end end end.
End agentconf.
