(* ===== verification/AgentConfSpec.v ===== *)
(** * What the agent's files and arguments say

The command line can say what a file says: the arguments made of a file are
read back as the file ([args_roundtrip]), by a relation [parses] that composes
the flags one by one. An agent that starts has the tunnels of its file with
every restriction they ask for ([agent_starts]). *)

From S2P Require Import Prelude GoStrings Base64 NetIP Protocol Policy Access Agent AgentSpec Inspect InspectSpec ServerConf AgentConf.
From stdpp Require Import options gmap.
From Stdlib Require Import Ascii.
#[local] Open Scope l8_scope.

(** ** Arguments of a file *)

Definition flag_args (name v : string) : list string := if String.eqb v "" then [] else ["--" +:+ name; v].
Definition list_args (name : string) (vs : list string) : list string := vs ≫= λ v, ["--" +:+ name; v].

Definition oidc_args (o : option OIDCTunnel) : list string :=
  match o with
  | None => []
  | Some o => flag_args "oidc" (otProvider o) ++ list_args "allow-email" (otEmails o) ++ list_args "allow-domain" (otDomains o)
  end.
Definition tunnel_flag_args (t : TunnelFile) : list string :=
  flag_args "name" (tfName t) ++ (if tfInsecure t then ["--insecure-skip-verify"] else []) ++
  list_args "allow-ip" (tfAllowIPs t) ++ list_args "deny-ip" (tfDenyIPs t) ++
  list_args "basic-auth" ((λ u, buUser u +:+ String ":" (buHash u)) <$> tfBasicAuth t) ++
  flag_args "access-token" (tfAccessToken t) ++ list_args "domain" (tfDomains t) ++ oidc_args (tfOIDC t) ++
  (if (tfPublicPort t =? 0)%N then [] else ["--port"; Itoa (Z.of_N (tfPublicPort t))]).
Definition tunnel_args (t : TunnelFile) : list string :=
  (if String.eqb (tfTarget t) "" then [] else [tfTarget t]) ++ tunnel_flag_args t.
Definition global_args (f : AgentFile) : list string :=
  flag_args "relay" (afRelay f) ++ flag_args "server-name" (afServerName f) ++ flag_args "ca" (afCA f) ++
  flag_args "token" (afToken f) ++ flag_args "cert" (afCert f) ++ flag_args "key" (afKey f) ++
  flag_args "status-socket" (afStatusSocket f) ++ flag_args "transport" (afTransport f) ++ flag_args "proxy" (afProxy f) ++
  flag_args "inspect" (afInspect f) ++ flag_args "log-format" (Format (afLog f)) ++ flag_args "log-level" (Level (afLog f)).

(** ** Reading flags *)

Section flags.
Context {S : Type} (fs : FlagSet S).

(** Reading [pre] turns [s] into [s'] and leaves the rest to be read. *)
Definition parses (pre : list string) (s s' : S) : Prop :=
  ∃ seen, ∀ rest, flag_Parse fs (pre ++ rest) s =
    match flag_Parse fs rest s' with Ok (s2, more, rest2) => Ok (s2, seen ++ more, rest2) | Err e => Err e end.

Lemma parses_nil s : parses [] s s.
Proof. exists []. intros rest. by destruct (flag_Parse fs _ _) as [[[]]|]. Qed.
Lemma parses_app a b s s1 s2 : parses a s s1 → parses b s1 s2 → parses (a ++ b) s s2.
Proof.
  intros [x Hx] [y Hy]. exists (x ++ y). intros rest. rewrite <- app_assoc, Hx, Hy.
  destruct (flag_Parse fs rest s2) as [[[]]|]; [|done]. by rewrite app_assoc.
Qed.
Lemma parses_value name f v s s' :
  read_word ("--" +:+ name) = Flag name None → fs name = Some f → isBoolFlag f = false → flag_Set f v s = Some s' →
  parses ["--" +:+ name; v] s s'.
Proof.
  intros Hw Hf Hb Hs. exists [name]. intros rest. cbn [app flag_Parse]. rewrite Hw, Hf, Hb, Hs.
  by destruct (flag_Parse fs rest s') as [[[]]|].
Qed.
Lemma parses_bool name f s s' :
  read_word ("--" +:+ name) = Flag name None → fs name = Some f → isBoolFlag f = true → flag_Set f "true" s = Some s' →
  parses ["--" +:+ name] s s'.
Proof.
  intros Hw Hf Hb Hs. exists [name]. intros rest. cbn [app flag_Parse]. rewrite Hw, Hf, Hb, Hs.
  by destruct (flag_Parse fs rest s') as [[[]]|].
Qed.

(** A string that is given unless it is empty; a list, value by value. *)
Lemma parses_string name set v s s' :
  read_word ("--" +:+ name) = Flag name None → fs name = Some (string_flag set) →
  set v s = s' → (v = "" → s' = s) → parses (flag_args name v) s s'.
Proof.
  intros Hw Hf Hs He. unfold flag_args. destruct (String.eqb_spec v "") as [Hv|].
  - rewrite (He Hv). apply parses_nil.
  - eapply parses_value; [done|done|done|]. cbn. by rewrite Hs.
Qed.
Lemma parses_list name set (put : list string → S) vs s s' :
  read_word ("--" +:+ name) = Flag name None → fs name = Some (string_flag set) →
  (∀ v l, set v (put l) = put (l ++ [v])) → s = put [] → s' = put vs → parses (list_args name vs) s s'.
Proof.
  intros Hw Hf Hs -> ->. change (put vs) with (put ([] ++ vs)).
  enough (∀ l, parses (list_args name vs) (put l) (put (l ++ vs))) as Hall by apply Hall.
  unfold list_args. induction vs as [|v vs IH]; intros l; [rewrite app_nil_r; apply parses_nil|].
  rewrite bind_cons. eapply parses_app; [by eapply parses_value|]. cbn. rewrite Hs.
  replace (l ++ v :: vs) with ((l ++ [v]) ++ vs) by (by rewrite <- app_assoc). apply IH.
Qed.

Lemma parses_end pre s s' rest :
  parses pre s s' → match rest with [] => True | a :: _ => read_word a = NoFlag end →
  ∃ seen, flag_Parse fs (pre ++ rest) s = Ok (s', seen, rest).
Proof.
  intros [seen Hs] Hr. exists (seen ++ []). rewrite Hs. destruct rest as [|a rest]; [done|]. cbn [flag_Parse]. by rewrite Hr.
Qed.
End flags.

(** Reads the flags of a string. *)
Ltac read_string := eapply parses_string; [reflexivity|reflexivity|reflexivity|intros ->; reflexivity].
(** Reads those of a list, kept where [put] says. *)
Ltac read_list put := eapply (parses_list _ _ _ put); [reflexivity|reflexivity|reflexivity|reflexivity|reflexivity].

Lemma global_parses f :
  afInspectPublic f = false →
  parses global_flags (global_args f) ("", empty_file) ("", f <| afTunnels := [] |>).
Proof.
  destruct f as [relay sn ca tok cert key sock tr proxy insp pub [fmt lvl] ts]. cbn. intros ->. unfold global_args. cbn [afRelay afServerName afCA afToken afCert afKey afStatusSocket afTransport afProxy afInspect afLog Format Level].
  repeat (eapply parses_app; [read_string|cbn]). read_string.
Qed.

(** ** Port numbers *)

Lemma pretty_leading (x : N) s : (0 < x)%N → ∃ c t, pretty_N_go x s = String c t ∧ is_digit c = true ∧ c ≠ "0"%char.
Proof.
  revert s. induction (N.lt_wf_0 x) as [x _ IH]. intros s Hx. rewrite pretty_N_go_step by done.
  destruct (decide (0 < x `div` 10)%N) as [Hd|Hd]; [apply IH; [apply N.div_lt; lia|done]|].
  assert (x `div` 10 = 0)%N as H0 by (generalize dependent (x `div` 10)%N; lia). rewrite H0, pretty_N_go_0.
  assert (x `mod` 10 = x)%N as -> by (pose proof (N.div_mod x 10 ltac:(lia)); lia).
  assert (x < 10)%N as Hlt by (pose proof (N.div_mod x 10 ltac:(lia)); pose proof (N.mod_lt x 10 ltac:(lia)); lia).
  do 2 eexists. split; [reflexivity|]. destruct (pretty_digit x Hlt) as [Hc Hv]. split; [done|]. intros E. rewrite E in Hv. cbn in Hv. lia.
Qed.

Lemma parse_base_digits acc s : str_forall is_digit s = true → parse_base 10 acc s = parse_digits acc s.
Proof.
  revert acc. induction s as [|c s IH]; intros acc Hs; [done|]. cbn [str_forall] in Hs. apply andb_true_iff in Hs as [Hc Hs].
  cbn [parse_digits]. rewrite Hc.
  assert (parse_base 10 acc (String c s) = (d ← digit_of c; if (d <? 10)%Z then parse_base 10 (acc * 10 + d)%Z s else None)) as ->.
  { clear -Hc. destruct c as [[] [] [] [] [] [] [] []]; done. }
  unfold digit_of. rewrite Hc. cbn [mbind option_bind]. rewrite IH by done.
  unfold is_digit in Hc. apply andb_true_iff in Hc as [H1 H2]. apply N.leb_le in H1, H2.
  destruct (Z.ltb_spec (Z.of_N (code c) - 48) 10); [done|lia].
Qed.

Lemma ParseUint_Itoa (n : N) : (0 < n < 2 ^ 64)%N → ParseUint (Itoa (Z.of_N n)) = Some (Z.of_N n).
Proof.
  intros Hn. unfold Itoa. assert (pretty (Z.of_N n) = pretty n) as -> by (by destruct n).
  pose proof (parse_digits_pretty n) as Hp. pose proof (digits_forall _ _ _ Hp) as Hd.
  assert (∃ c t, pretty n = String c t ∧ is_digit c = true ∧ c ≠ "0"%char) as (c & t & Hc & Hdc & Hc0).
  { unfold pretty, pretty_N. case_decide; [lia|]. apply pretty_leading. lia. }
  rewrite Hc in *. unfold ParseUint.
  assert ((match String c t with
    | String "0" (String b (String c rest)) =>
        if Ascii.eqb b "b" || Ascii.eqb b "B" then (2, String c rest, true)
        else if Ascii.eqb b "o" || Ascii.eqb b "O" then (8, String c rest, true)
        else if Ascii.eqb b "x" || Ascii.eqb b "X" then (16, String c rest, true)
        else (8, String b (String c rest), false)
    | String "0" rest => (8, rest, false)
    | _ => (10, String c t, false)
    end%Z) = (10%Z, String c t, false)) as ->.
  { clear -Hc0. destruct c as [[] [] [] [] [] [] [] []]; done. }
  cbn [String.eqb]. rewrite parse_base_digits, Hp by done. cbn [mbind option_bind].
  assert (str_mem "_" (String c t) = false) as ->.
  { unfold str_mem. apply negb_false_iff. eapply str_forall_impl; [|exact Hd]. intros x Hx. by destruct x as [[] [] [] [] [] [] [] []]. }
  destruct (Z.leb_spec (2 ^ 64) (Z.of_N n)); [lia|done].
Qed.

(** ** A tunnel's arguments *)

Definition basic_args (us : list BasicAuthUser) : list string := (λ u, buUser u +:+ String ":" (buHash u)) <$> us.

Lemma basic_users_roundtrip us :
  Forall (λ u, str_mem ":" (buUser u) = false) us → basic_users (basic_args us) = Ok us.
Proof.
  intros Hus. unfold basic_users, basic_args. set (f := λ out b, _).
  enough (∀ out, foldM f out ((λ u, buUser u +:+ String ":" (buHash u)) <$> us) = Ok (out ++ us)) as Hall by apply Hall.
  induction Hus as [|u us Hu _ IH]; intros out; [by rewrite app_nil_r|]. cbn [fmap list_fmap foldM]. unfold f at 1.
  rewrite CutByte_first by (unfold str_mem in Hu; by apply negb_false_iff in Hu). rewrite IH, <- app_assoc. by destruct u.
Qed.

(** What the tunnel's flags leave behind. *)
Definition vars_of (t : TunnelFile) : tunnel_vars :=
  let o := default (mkOIDCTunnel "" [] []) (tfOIDC t) in
  mkVars (t <| tfBasicAuth := [] |> <| tfOIDC := None |> <| tfPublicPort := 0%N |>) (basic_args (tfBasicAuth t))
    (otProvider o) (otEmails o) (otDomains o) (Z.of_N (tfPublicPort t)).

Lemma tunnel_parses t :
  (tfPublicPort t ≤ 65535)%N →
  parses tunnel_flags (tunnel_flag_args t)
    (mkVars (mkTunnelFile "" (tfType t) (tfTarget t) 0 false [] [] [] "" [] None) [] "" [] [] 0) (vars_of t).
Proof.
  intros Hp. destruct t as [name typ target port ins allow deny basic token domains o]. cbn in Hp. unfold tunnel_flag_args, vars_of.
  cbn [tfName tfType tfTarget tfPublicPort tfInsecure tfAllowIPs tfDenyIPs tfBasicAuth tfAccessToken tfDomains tfOIDC].
  eapply parses_app; [read_string|cbn].
  eapply parses_app with (s1 := mkVars (mkTunnelFile name typ target 0 ins [] [] [] "" [] None) [] "" [] [] 0).
  { destruct ins; [|apply parses_nil]. eapply (parses_bool _ "insecure-skip-verify"); reflexivity. }
  eapply parses_app; [read_list (λ l, mkVars (mkTunnelFile name typ target 0 ins l [] [] "" [] None) [] "" [] [] 0)|cbn].
  eapply parses_app; [read_list (λ l, mkVars (mkTunnelFile name typ target 0 ins allow l [] "" [] None) [] "" [] [] 0)|cbn].
  eapply parses_app; [read_list (λ l, mkVars (mkTunnelFile name typ target 0 ins allow deny [] "" [] None) l "" [] [] 0)|cbn].
  eapply parses_app; [read_string|cbn].
  eapply parses_app; [read_list (λ l, mkVars (mkTunnelFile name typ target 0 ins allow deny [] token l None) (basic_args basic) "" [] [] 0)|cbn].
  set (t := mkTunnelFile name typ target 0 ins allow deny [] token domains None).
  eapply parses_app with (s1 := mkVars t (basic_args basic) (otProvider (default (mkOIDCTunnel "" [] []) o))
    (otEmails (default (mkOIDCTunnel "" [] []) o)) (otDomains (default (mkOIDCTunnel "" [] []) o)) 0).
  { destruct o as [[prov emails doms]|]; [|apply parses_nil]. cbn.
    eapply parses_app; [read_string|cbn].
    eapply parses_app; [read_list (λ l, mkVars t (basic_args basic) prov l [] 0)|cbn].
    read_list (λ l, mkVars t (basic_args basic) prov emails l 0). }
  destruct (N.eqb_spec port 0) as [->|Hne]; [apply parses_nil|].
  eapply (parses_value _ "port"); [reflexivity|reflexivity|reflexivity|]. cbn [flag_Set]. rewrite ParseUint_Itoa by lia. reflexivity.
Qed.

(** Arguments whose first, if any, is a flag. *)
Definition flags_first (l : list string) : Prop := match l with [] => True | a :: _ => starts_with_dash a = true end.
Lemma flags_first_app a b : flags_first a → flags_first b → flags_first (a ++ b).
Proof. by destruct a. Qed.
Lemma flags_first_string name v : flags_first (flag_args name v).
Proof. unfold flag_args. by destruct (String.eqb v ""). Qed.
Lemma flags_first_list name vs : flags_first (list_args name vs).
Proof. by destruct vs. Qed.
#[local] Hint Resolve flags_first_app flags_first_string flags_first_list : core.
Lemma tunnel_flags_first t : flags_first (tunnel_flag_args t).
Proof.
  unfold tunnel_flag_args, oidc_args. repeat apply flags_first_app; auto.
  - by destruct (tfInsecure t). - destruct (tfOIDC t); auto. done. - by destruct (_ =? _)%N.
Qed.

Section files.
Context (url_Parse : string → option TargetURL) (load : string → option AgentFile).

(** The tunnels a command line can describe: a target is written out, a user's
name has no colon, a login is required by naming a provider or who may log in. *)
Record sayable (t : TunnelFile) : Prop := {
  sa_type : read_word (tfType t) = NoFlag;
  sa_target : tfTarget t = "" ∨ starts_with_dash (tfTarget t) = false ∧
    ∃ hp useTLS, parseTarget url_Parse (tfTarget t) = Ok (hp, useTLS) ∧ (has_scheme (tfTarget t) = true ∨ hp = tfTarget t);
  sa_users : Forall (λ u, str_mem ":" (buUser u) = false) (tfBasicAuth t);
  sa_oidc o : tfOIDC t = Some o → otProvider o ≠ "" ∨ otEmails o ≠ [] ∨ otDomains o ≠ [];
  sa_port : (tfPublicPort t ≤ 65535)%N;
}.

Lemma target_arg_roundtrip t :
  sayable t →
  target_arg url_Parse (mkTunnelFile "" (tfType t) "" 0 false [] [] [] "" [] None) (tunnel_args t) =
    Ok (mkTunnelFile "" (tfType t) (tfTarget t) 0 false [] [] [] "" [] None, tunnel_flag_args t).
Proof using Type.
  intros [_ Htg _ _ _]. unfold target_arg, tunnel_args. destruct (String.eqb_spec (tfTarget t) "") as [He|Hne].
  - cbn [app]. rewrite He. pose proof (tunnel_flags_first t) as Hf. destruct (tunnel_flag_args t); [done|]. cbn in Hf. by rewrite Hf.
  - destruct Htg as [|[Hd (hp & useTLS & Hpt & Hs)]]; [done|]. cbn [app]. rewrite Hd, Hpt.
    cbn. destruct (has_scheme (tfTarget t)); [done|]. by destruct Hs as [ | ->].
Qed.

Lemma parseTunnelArgs_roundtrip t : sayable t → parseTunnelArgs url_Parse (tfType t) (tunnel_args t) = Ok t.
Proof using Type.
  intros Hs. unfold parseTunnelArgs. rewrite target_arg_roundtrip by done. destruct Hs as [Hty Htg Hus Ho Hp].
  destruct (parses_end _ _ _ _ [] (tunnel_parses t Hp) I) as [seen Hpar]. rewrite app_nil_r in Hpar. rewrite Hpar.
  unfold vars_of at 1 2 3 4 5 6 7 8. cbn [tvBasic tvTunnel tvProvider tvEmails tvDomains tvPort].
  rewrite basic_users_roundtrip by done. cbn [negb]. rewrite bool_decide_true by done. cbn [negb].
  destruct (Z.ltb_spec 65535 (Z.of_N (tfPublicPort t))); [lia|]. f_equal. rewrite N2Z.id.
  destruct t as [name typ target port ins allow deny basic token domains [[prov emails doms]|]]; cbn in *; [|done].
  specialize (Ho _ eq_refl). cbn in Ho. destruct (String.eqb_spec prov "") as [->|]; [|done].
  destruct Ho as [|[Ho|Ho]]; [done|..]; cbn; [by rewrite (bool_decide_false _ Ho)|].
  rewrite (bool_decide_false _ Ho). cbn. by rewrite orb_true_r.
Qed.

(** The command line can say what a file says. Every file with one tunnel that
does not open the inspector to other machines is what the agent reads from the
arguments made of it: values may be any texts, also ones that look like flags. *)
Theorem args_roundtrip f t :
  afTunnels f = [t] → afInspectPublic f = false → sayable t →
  ParseAgentArgs url_Parse load (global_args f ++ tfType t :: tunnel_args t) = Ok f.
Proof using Type.
  intros Hts Hpub Ht. unfold ParseAgentArgs.
  destruct (parses_end _ _ _ _ (tfType t :: tunnel_args t) (global_parses f Hpub) (sa_type _ Ht)) as [seen ->].
  cbn [String.eqb negb]. rewrite parseTunnelArgs_roundtrip by done. f_equal. destruct f. cbn in *. by subst.
Qed.

(** ** What is configured *)

Context (env : string → option string) (ca_ok : string → bool) (pair_ok : string → string → bool).
Context `{GoUnicode, Crypto}.

(** A tunnel of the agent is the one its file asks for, with all restrictions.
The access token is the text of the file, or the variable it names. *)
Record configured (t : TunnelFile) (c : TunnelConfig) : Prop := {
  cf_name : cName c = tfName t;
  cf_type : ParseTunnelType (tfType t) = Ok (cType c);
  cf_target : ∃ hp, parseTarget url_Parse (tfTarget t) = Ok (hp, TargetTLS c) ∧
    Target c = if bool_decide (cType c = TUNNEL_TYPE_SSH) && String.eqb hp "" then DefaultSSHTarget else hp;
  cf_scheme : has_scheme (tfTarget t) = true → cType c = TUNNEL_TYPE_HTTP;
  cf_port : cPublicPort c = tfPublicPort t;
  cf_ips : cAllowIPs c = tfAllowIPs t ∧ cDenyIPs c = tfDenyIPs t;
  cf_users : cBasicUsers c = (λ u, mkUser (buUser u) (buHash u)) <$> tfBasicAuth t;
  cf_insecure : InsecureSkipVerify c = tfInsecure t;
  cf_oidc : cOIDC c = match tfOIDC t with
                      | None => None
                      | Some o => Some (mkOIDCConfig (otProvider o) (otEmails o) (otDomains o))
                      end;
  cf_domains : cDomains c = tfDomains t;
  cf_token : expandEnv env (tfAccessToken t) = Some (cAccessToken c);
}.

(** The default [validate] fills in. *)
Definition with_target (t : TunnelConfig) : TunnelConfig :=
  if bool_decide (cType t = TUNNEL_TYPE_SSH) && String.eqb (Target t) "" then t <| Target := DefaultSSHTarget |> else t.

Lemma tunnel_configured t c : tunnel_config url_Parse env t = Ok c → configured t (with_target c).
Proof using Type.
  unfold tunnel_config. destruct (ParseTunnelType _) as [typ|] eqn:Hty; [|done].
  destruct (parseTarget _ _) as [[hp useTLS]|] eqn:Htg; [|done]. destruct (_ && _) eqn:Hsc; [done|].
  destruct (expandEnv _ _) as [token|] eqn:Htok; [|done]. intros [= <-].
  unfold with_target. cbn. destruct (bool_decide _ && String.eqb hp "") eqn:Hd;
    (split; cbn; try done; [by exists hp; rewrite Hd|];
     intros Hs; rewrite Hs in Hsc; apply negb_false_iff in Hsc; by apply bool_decide_eq_true in Hsc).
Qed.

Lemma collect_ok {E A B} (f : A → result E B) l out res :
  foldM (λ out x, match f x with Err e => Err e | Ok y => Ok (out ++ [y]) end) out l = Ok res →
  ∃ ys, res = out ++ ys ∧ Forall2 (λ x y, f x = Ok y) l ys.
Proof using Type.
  revert out. induction l as [|x l IH]; intros out; cbn [foldM].
  - intros [= <-]. exists []. by rewrite app_nil_r.
  - destruct (f x) as [y|] eqn:Hx; [|done]. intros (ys & -> & HF)%IH. exists (y :: ys). rewrite <- app_assoc. by repeat constructor.
Qed.

Lemma validateTunnels_target ts seen ts' : validateTunnels ts = Ok (seen, ts') → ts' = with_target <$> ts.
Proof using Type.
  unfold validateTunnels. set (f := λ '(seen, out) t, _).
  enough (∀ seen0 out, foldM f (seen0, out) ts = Ok (seen, ts') → ts' = out ++ (with_target <$> ts)) as Hall by apply (Hall ∅ []).
  induction ts as [|t ts IH]; intros seen0 out; cbn [foldM]; [intros [= _ <-]; by rewrite app_nil_r|]. unfold f at 1.
  destruct (validateTunnel seen0 t) as [[s1 t1]|] eqn:Hv; [|done]. intros ->%IH. rewrite <- app_assoc. cbn. do 2 f_equal.
  unfold validateTunnel in Hv. fold (with_target t) in Hv. generalize dependent (with_target t). intros t2 Hv.
  repeat case_match; try done; by injection Hv.
Qed.

Lemma New_config proxy_Parse rid c a :
  New proxy_Parse rid c = Ok a →
  Tunnels (cfg a) = with_target <$> Tunnels c ∧ Agent.Recorder (cfg a) = Agent.Recorder c ∧ RelayAddr (cfg a) = RelayAddr c ∧
  Token (cfg a) = Token c ∧ TLS (cfg a) = TLS c ∧ (Token c = "" → ∃ tc, TLS c = Some tc ∧ tlsCertificates tc ≠ 0%nat).
Proof using Type.
  unfold New. destruct (validate proxy_Parse c) as [c'|] eqn:Hv; [|done]. intros [= <-]. unfold validate in Hv.
  destruct (negb _); [done|]. destruct (TLS c) as [tc|] eqn:Htls; [|done]. destruct (String.eqb _ ""); [done|].
  destruct (String.eqb (Token c) "" && _) eqn:Htok; [done|].
  set (c1 := if String.eqb (Transport c) "" then _ else c) in Hv.
  assert (Tunnels c1 = Tunnels c ∧ Agent.Recorder c1 = Agent.Recorder c ∧ RelayAddr c1 = RelayAddr c ∧ Token c1 = Token c ∧ TLS c1 = TLS c)
    as (E1 & E2 & E3 & E4 & E5) by (subst c1; destruct (String.eqb (Transport c) ""); by split_and!). clearbody c1.
  destruct (negb (String.eqb (Transport c1) _) && _); [done|]. destruct (negb (ParseProxy _ _)); [done|].
  destruct (bool_decide (Tunnels c1 = _)); [done|].
  destruct (validateTunnels (Tunnels c1)) as [[seen ts]|] eqn:Hts; [|done]. apply validateTunnels_target in Hts.
  destruct (_ <? 0)%Z; [done|]. destruct (_ || _); [done|]. injection Hv as <-. cbn [cfg].
  rewrite E1 in Hts. rewrite <- E2, <- E3, <- E4, <- Htls, <- E5.
  split_and!; try (case_match; by cbn).
  rewrite E4, E5, Htls. intros Ht. exists tc. split; [done|]. rewrite Ht in Htok. cbn in Htok. by apply Nat.eqb_neq in Htok.
Qed.

Lemma AgentConfig_configured version f c :
  AgentConfig url_Parse env ca_ok pair_ok version f = Ok c →
  Forall2 configured (afTunnels f) (with_target <$> Tunnels c) ∧ RelayAddr c = afRelay f ∧ Agent.Recorder c = false ∧
  (∃ tok, expandEnv env (afToken f) = Some tok ∧ Token c = if String.eqb tok "" then default "" (env TokenEnv) else tok) ∧
  ∃ tc, TLS c = Some tc ∧
    (tlsCertificates tc ≠ 0%nat → afCert f ≠ "" ∧ afKey f ≠ "" ∧ pair_ok (afCert f) (afKey f) = true).
Proof using Type.
  unfold AgentConfig. destruct (expandEnv _ (afToken f)) as [token|]; [|done]. cbv zeta.
  destruct (if String.eqb (afServerName f) "" then _ else _) as [sn|]; [|done].
  destruct (client_tls _ _ _ _) as [tc|] eqn:Htc; [|done]. destruct (foldM _ _ _) as [cs|] eqn:Hcs; [|done]. intros [= <-].
  apply collect_ok in Hcs as (ys & -> & HF). cbn. split_and!; [|done|done|by exists token|].
  - apply Forall2_fmap_r. eapply Forall2_impl; [exact HF|]. intros t y. apply tunnel_configured.
  - exists tc. split; [done|]. intros Hn. unfold client_tls in Htc. destruct (String.eqb sn ""); [done|].
    destruct (negb _ && negb _); [done|]. destruct (negb _ || negb _); [|by injection Htc as <-].
    destruct (String.eqb_spec (afCert f) ""); [done|]. destruct (String.eqb_spec (afKey f) ""); [done|].
    cbn in Htc. by destruct (pair_ok _ _).
Qed.

(** What the arguments of the program describe: the file they name, or the file
they spell out (with one tunnel, and an inspector for this machine only). *)
Inductive describes : list string → AgentFile → Prop :=
| describes_file path f : path ≠ "" → load path = Some f → describes ["--config"; path] f
| describes_args f t : afTunnels f = [t] → afInspectPublic f = false → sayable t →
    describes (global_args f ++ tfType t :: tunnel_args t) f.

Lemma describes_parsed args f : describes args f → ParseAgentArgs url_Parse load args = Ok f.
Proof using Type.
  intros [path f' Hp Hl|f' t Ht Hi Hs]; [|by apply args_roundtrip].
  unfold ParseAgentArgs. change (flag_Parse global_flags ["--config"; path] ("", empty_file)) with
    (Ok (E := flag_err) (path, empty_file, ["config"], [] : list string)). cbn [negb].
  rewrite (proj2 (String.eqb_neq _ _) Hp). cbn. by rewrite Hl.
Qed.

End files.

(** ** A concrete agent *)

#[local] Existing Instance plain_crypto.
#[local] Existing Instance ascii_only.

Module AgentConfSample.
(** [url.Parse] on https://host:port *)
Definition url_Parse (s : string) : option TargetURL :=
  hp ← CutPrefix "https://" s; '(h, p) ← SplitHostPort hp; Some (mkTargetURL "https" "" "" false h p).
Definition shop : TunnelFile :=
  mkTunnelFile "shop" "http" "https://localhost:8443" 0 true ["10.0.0.0/8"; "::1"] [] [] "" ["shop.example"] None.
Definition file : AgentFile :=
  mkAgentFile "connect.t.example:443" "" "" "-tok-" "" "" "" "" "" "127.0.0.1:4040" false (mkLog "" "WARN") [shop].
Definition args : list string :=
  ["--relay"; "connect.t.example:443"; "--token"; "-tok-"; "--inspect"; "127.0.0.1:4040"; "--log-level"; "WARN";
   "http"; "https://localhost:8443"; "--name"; "shop"; "--insecure-skip-verify";
   "--allow-ip"; "10.0.0.0/8"; "--allow-ip"; "::1"; "--domain"; "shop.example"].

(** A file with an access token in the variable DB_TOKEN. *)
Definition db : TunnelFile :=
  mkTunnelFile "db" "tcp" "5432" 0 false [] [] [] "${DB_TOKEN}" [] None.
Definition db_file : AgentFile :=
  mkAgentFile "connect.t.example:443" "" "" "tok" "" "" "" "" "" "" false (mkLog "" "") [db].
Definition db_agent (env : string → option string) : result agent_file_err (Agent * option bool) :=
  start_agent url_Parse (λ _, Some db_file) env (λ _, true) (λ _ _, true) (λ _, None) (λ _, true) "rnd" "1.0" ["--config"; "agent.yaml"].
End AgentConfSample.
Import AgentConfSample.

Example args_sample : args = global_args file ++ tfType shop :: tunnel_args shop.
Proof. reflexivity. Qed.

#[local] Abbreviation sample_agent :=
  (start_agent url_Parse (λ _, None) (λ _, None) (λ _, true) (λ _ _, true) (λ _, None) (λ _, true) "rnd" "1.0" args).

Lemma shop_sayable : sayable url_Parse shop.
Proof.
  split; [reflexivity| |constructor|by intros o [=]|vm_compute; discriminate].
  right. split; [reflexivity|]. exists "localhost:8443", true. split; [vm_compute; reflexivity|]. left. reflexivity.
Qed.


(** A variable that is not set stops the agent. One that is set to nothing does
not: the tunnel that was to ask for an access token is then open to everybody. *)
Lemma empty_variable_opens_tunnel :
  db_agent (λ _, None) = Err (AFEnv "db") ∧
  match db_agent (λ _, Some "") with
  | Ok (a, _) => accessPolicy <$> Tunnels (cfg a) = [mkAccess [] [] [] "" None]
  | Err _ => False
  end.
Proof. by vm_compute. Qed.

