(* ===== verification/AdminCli.v ===== *)
(** * Administering a relay from the command line (go/tunnel/admin api.go,
client.go, cli.go, export.go)

"l8tunnel-server <command>" talks to the running relay over its admin socket.
[parse_command] reads the arguments, [call_request] is the HTTP request of the
client, [RelayHandler] the relay's mux and its handlers (their effects are in
Store.v), [run_command] the whole path with the files the program writes. A JSON
body arrives as the value that was sent; a random token, its hash, a new CA and
a serial number are what the relay draws ([draw]). The tables the commands print
are not modelled. *)

From S2P Require Import Prelude GoStrings Base64 NetIP Protocol PathMatch Policy Certs Manage RelayNode Agent ServerConf Inspect AgentConf.
From S2P Require Import Access NameRegistry RelayTunnels RelayServe Store.
From stdpp Require Import options gmap.
From Stdlib Require Import Ascii.
#[local] Open Scope l8_scope.

(** ** Path segments ([url.PathEscape], [url.PathUnescape]) *)

Definition hex_char (n : N) : ascii := ascii_of_N (if (n <? 10)%N then n + 48 else n + 55).
Definition path_safe (c : ascii) : bool :=
  is_digit c || is_lower c || is_upper c
  || existsb (Ascii.eqb c) ["-"; "_"; "."; "~"; "$"; "&"; "+"; ":"; "="; "@"]%char.
Fixpoint PathEscape (s : string) : string :=
  match s with
  | "" => ""
  | String c s =>
      if path_safe c then String c (PathEscape s)
      else String "%" (String (hex_char (code c / 16)) (String (hex_char (code c mod 16)) (PathEscape s)))
  end.
Fixpoint PathUnescape (s : string) : option string :=
  match s with
  | "" => Some ""
  | String "%" (String a (String b s)) =>
      x ← hex_digit a; y ← hex_digit b; rest ← PathUnescape s; Some (String (ascii_of_N (x * 16 + y)) rest)
  | String "%" _ => None
  | String c s => rest ← PathUnescape s; Some (String c rest)
  end.

(** ** The client *)

Record GatewayKeyRequest := mkKeyRequest { krName : string; krPublicKey : string; krTunnels : list string }.

Inductive call :=
| CallStatus | CallExport | CallTokens | CallCreateToken (name : string) (policy : Auth.Policy) | CallRevokeToken (name : string)
| CallIssueCert (token : string) (days : Z)
| CallGatewayKeys | CallAddGatewayKey (req : GatewayKeyRequest) | CallRemoveGatewayKey (name : string)
| CallReservations | CallReserve (req : ReservationRequest) | CallUnreserve (name : string).

Inductive admin_body :=
| BodyToken (name : string) (policy : Auth.Policy) | BodyDays (days : Z) | BodyKey (req : GatewayKeyRequest)
| BodyReservation (req : ReservationRequest).

Record admin_request := mkAdminRequest { aqMethod : string; aqPath : string; aqBody : option admin_body }.

Definition call_request (c : call) : admin_request :=
  match c with
  | CallStatus => mkAdminRequest "GET" "/status" None
  | CallExport => mkAdminRequest "GET" "/export" None
  | CallTokens => mkAdminRequest "GET" "/tokens" None
  | CallCreateToken n p => mkAdminRequest "POST" "/tokens" (Some (BodyToken n p))
  | CallRevokeToken n => mkAdminRequest "DELETE" ("/tokens/" +:+ PathEscape n) None
  | CallIssueCert t days => mkAdminRequest "POST" ("/tokens/" +:+ PathEscape t +:+ "/certs") (Some (BodyDays days))
  | CallGatewayKeys => mkAdminRequest "GET" "/gateway-keys" None
  | CallAddGatewayKey r => mkAdminRequest "POST" "/gateway-keys" (Some (BodyKey r))
  | CallRemoveGatewayKey n => mkAdminRequest "DELETE" ("/gateway-keys/" +:+ PathEscape n) None
  | CallReservations => mkAdminRequest "GET" "/reservations" None
  | CallReserve r => mkAdminRequest "POST" "/reservations" (Some (BodyReservation r))
  | CallUnreserve n => mkAdminRequest "DELETE" ("/reservations/" +:+ PathEscape n) None
  end.

(** ** The relay's handlers *)

Inductive admin_handler :=
| HStatus | HExport | HListTokens | HCreateToken | HRevokeToken (name : string) | HIssueCert (name : string)
| HListGatewayKeys | HAddGatewayKey | HRemoveGatewayKey (name : string)
| HListReservations | HAddReservation | HRemoveReservation (name : string).

(** The [ServeMux]: paths that are not clean are redirected ([None], like a path
or a method without a pattern); a wildcard is the decoded segment, or the
segment itself if it does not decode. *)
Definition PathValue (seg : string) : string := default seg (PathUnescape seg).
Definition admin_mux (method path : string) : option admin_handler :=
  let get := String.eqb method "GET" || String.eqb method "HEAD" in
  let post := String.eqb method "POST" in
  let del := String.eqb method "DELETE" in
  match SplitByte "/" path with
  | "" :: segs =>
      if negb (forallb clean_segment segs) then None
      else match segs with
      | ["status"] => if get then Some HStatus else None
      | ["export"] => if get then Some HExport else None
      | ["tokens"] => if get then Some HListTokens else if post then Some HCreateToken else None
      | ["tokens"; n] => if del then Some (HRevokeToken (PathValue n)) else None
      | ["tokens"; n; "certs"] => if post then Some (HIssueCert (PathValue n)) else None
      | ["gateway-keys"] => if get then Some HListGatewayKeys else if post then Some HAddGatewayKey else None
      | ["gateway-keys"; n] => if del then Some (HRemoveGatewayKey (PathValue n)) else None
      | ["reservations"] => if get then Some HListReservations else if post then Some HAddReservation else None
      | ["reservations"; n] => if del then Some (HRemoveReservation (PathValue n)) else None
      | _ => None
      end
  | _ => None
  end.

Record TokenInfo := mkTokenInfo { tiID : string; tiName : string; tiPolicy : Auth.Policy; tiCerts : Z }.
Definition tokenInfo (t : TokenRecord) : TokenInfo :=
  mkTokenInfo (Access.ID t) (TName t) (TPolicy t) (Z.of_nat (length (CertSerials t))).
Record ReservationInfo := mkReservationInfo { riName : string; riToken : string; riPort : Z }.

Section admin.
Context `{GoUnicode, Crypto, MapRange} (s : Server) {CA : Type} (LoadAgentCA : string → string → option CA)
  (PEM : CA → option (string * string)) (ParseAuthorizedKey : string → option (string * string)).
(** What the relay's status shows of its sessions and tunnels. *)
Context (show : session_id → string) (info : session_id → session_info) (counts : tunnel_id → tunnel_counts).

(** What the relay draws for a request. *)
Record draw := mkDraw { dToken : string; dHash : option string; dCA : option CA; dSerial : option string }.

Inductive admin_answer :=
| AnsStatus (st : RelayStatus) | AnsExport (e : Export) (cert key : string) | AnsTokens (l : list TokenInfo)
| AnsCreated | AnsRevoked (disconnected : Z) | AnsIssued (c : IssuedCert (CA := CA))
| AnsKeys (l : list GatewayKey) | AnsReservations (l : list ReservationInfo) | AnsDone.

(** [tokenNames], and the list of reservations with the tokens' names. *)
Definition tokenNames (st : Store) : result store_err (gmap string string) :=
  match Tokens st with
  | Err e => Err e
  | Ok tokens => Ok (foldl (λ m t, <[Access.ID t := TName t]> m) ∅ tokens)
  end.
Definition listReservations (st : Store) : result store_err (list ReservationInfo) :=
  match Reservations st with
  | Err e => Err e
  | Ok l =>
      match tokenNames st with
      | Err e => Err e
      | Ok names => Ok ((λ r, mkReservationInfo (rvName r) (default "" (names !! rvTokenID r)) (rvPort r)) <$> l)
      end
  end.

(** GET /export also makes the CA if there is none yet. *)
Definition serve_export (fresh : option CA) (a : relayAPI) : relayAPI * result status admin_answer :=
  match export (st a) with
  | Err _ => (a, Err InternalError)
  | Ok e =>
      let '(st', ca) := AgentCA LoadAgentCA PEM fresh (st a) in
      let a := a <| st := st' |> in
      match ca with
      | Err _ => (a, Err InternalError)
      | Ok ca => match PEM ca with None => (a, Err InternalError) | Some (cert, key) => (a, Ok (AnsExport e cert key)) end
      end
  end.

Definition answered (ok : status → bool) (ans : admin_answer) (r : relayAPI * status) : relayAPI * result status admin_answer :=
  (r.1, if ok r.2 then Ok ans else Err r.2).
Definition is_done (x : status) : bool := bool_decide (x = Created) || bool_decide (x = NoContent).
Definition listed {A} (f : list A → admin_answer) (l : result store_err (list A)) : result status admin_answer :=
  match l with Ok l => Ok (f l) | Err _ => Err InternalError end.

(** A handler with the request's body. *)
Definition serve_handler (h : admin_handler) (body : option admin_body) (d : draw) (a : relayAPI)
    : relayAPI * result status admin_answer :=
  match h with
  | HStatus => (a, Ok (AnsStatus (relay_Status show info counts (srv a))))
  | HExport => serve_export (dCA d) a
  | HListTokens => (a, listed (λ l, AnsTokens (tokenInfo <$> l)) (Tokens (st a)))
  | HCreateToken =>
      answered is_done AnsCreated
        (createToken (if body is Some (BodyToken n p) then Some (n, p) else None) (dToken d) (dHash d) a)
  | HRevokeToken n =>
      let '(a, r) := revokeToken n a in (a, match r with Ok k => Ok (AnsRevoked k) | Err e => Err e end)
  | HIssueCert n =>
      let '(a, r) := issueCert LoadAgentCA PEM n (if body is Some (BodyDays k) then Some k else None) (dCA d) (dSerial d) a in
      (a, match r with Ok c => Ok (AnsIssued c) | Err e => Err e end)
  | HListGatewayKeys => (a, listed AnsKeys (GatewayKeys (st a)))
  | HAddGatewayKey =>
      match body with
      | Some (BodyKey req) =>
          answered is_done AnsDone
            (addGatewayKey (match NewGatewayKey ParseAuthorizedKey (krName req) (krPublicKey req) (krTunnels req) with
                            | Ok k => Some k | Err _ => None end) a)
      | _ => (a, Err BadRequest)
      end
  | HRemoveGatewayKey n => answered is_done AnsDone (removeGatewayKey n a)
  | HListReservations => (a, listed AnsReservations (listReservations (st a)))
  | HAddReservation =>
      answered is_done AnsDone (addReservation s (if body is Some (BodyReservation r) then Some r else None) a)
  | HRemoveReservation n => answered is_done AnsDone (removeReservation n a)
  end.

Definition RelayHandler (q : admin_request) (d : draw) (a : relayAPI) : relayAPI * result status admin_answer :=
  match admin_mux (aqMethod q) (aqPath q) with
  | None => (a, Err NotFound)
  | Some h => serve_handler h (aqBody q) d a
  end.

(** ** Commands *)

Inductive cli_err :=
| CliMissing | CliUnknown | CliUsage | CliFlag (e : flag_err) | CliReadFile | CliSocketPath | CliRelay (st : status)
| CliFileExists (path : string) | CliMkdir | CliPanic.

Inductive command :=
| CmdCall (c : call)
| CmdIssueCert (token out : string) (days : Z)      (* and write the files *)
| CmdExport (dir : string).

Definition splitList (l : string) : list string := if String.eqb l "" then [] else SplitByte "," l.

(** [strconv.ParseInt(s, 0, 64)], for [fs.Int] *)
Definition ParseInt (v : string) : option Z :=
  match v with
  | String "-" u => n ← ParseUint u; if (n <=? 2 ^ 63)%Z then Some (- n)%Z else None
  | String "+" u => n ← ParseUint u; if (n <? 2 ^ 63)%Z then Some n else None
  | _ => n ← ParseUint v; if (n <? 2 ^ 63)%Z then Some n else None
  end.

(** The variables of the commands' flags. *)
Record cli_vars := mkCliVars {
  vName : string; vNames : string; vTypes : string; vMax : Z; vPorts : string; vRequireCert : bool; vDomains : string;
  vToken : string; vPort : Z; vOut : string; vDays : Z; vKey : string; vKeyFile : string; vTunnels : string;
}.
#[global] Instance eta_cli_vars : Eta cli_vars := λ v,
  mkCliVars (vName v) (vNames v) (vTypes v) (vMax v) (vPorts v) (vRequireCert v) (vDomains v)
    (vToken v) (vPort v) (vOut v) (vDays v) (vKey v) (vKeyFile v) (vTunnels v).
Definition no_vars : cli_vars := mkCliVars "" "" "" 0 "" false "" "" 0 "" 365 "" "" "".

Definition int_flag (set : Z → cli_vars → cli_vars) : flag cli_vars := mkFlag false (λ v x, n ← ParseInt v; Some (set n x)).

Definition token_create_flags : FlagSet cli_vars := λ name,
  if String.eqb name "name" then Some (string_flag (λ v x, x <| vName := v |>))
  else if String.eqb name "names" then Some (string_flag (λ v x, x <| vNames := v |>))
  else if String.eqb name "types" then Some (string_flag (λ v x, x <| vTypes := v |>))
  else if String.eqb name "max-tunnels" then Some (int_flag (λ v x, x <| vMax := v |>))
  else if String.eqb name "ports" then Some (string_flag (λ v x, x <| vPorts := v |>))
  else if String.eqb name "require-cert" then Some (bool_flag (λ v x, x <| vRequireCert := v |>))
  else if String.eqb name "domains" then Some (string_flag (λ v x, x <| vDomains := v |>))
  else None.
Definition reservation_add_flags : FlagSet cli_vars := λ name,
  if String.eqb name "name" then Some (string_flag (λ v x, x <| vName := v |>))
  else if String.eqb name "token" then Some (string_flag (λ v x, x <| vToken := v |>))
  else if String.eqb name "port" then Some (int_flag (λ v x, x <| vPort := v |>))
  else None.
Definition cert_issue_flags : FlagSet cli_vars := λ name,
  if String.eqb name "token" then Some (string_flag (λ v x, x <| vToken := v |>))
  else if String.eqb name "out" then Some (string_flag (λ v x, x <| vOut := v |>))
  else if String.eqb name "days" then Some (int_flag (λ v x, x <| vDays := v |>))
  else None.
Definition gateway_key_flags : FlagSet cli_vars := λ name,
  if String.eqb name "name" then Some (string_flag (λ v x, x <| vName := v |>))
  else if String.eqb name "key" then Some (string_flag (λ v x, x <| vKey := v |>))
  else if String.eqb name "key-file" then Some (string_flag (λ v x, x <| vKeyFile := v |>))
  else if String.eqb name "tunnels" then Some (string_flag (λ v x, x <| vTunnels := v |>))
  else None.
Definition export_flags : FlagSet cli_vars := λ name,
  if String.eqb name "out" then Some (string_flag (λ v x, x <| vOut := v |>)) else None.
Definition status_flags : FlagSet cli_vars := λ name,
  if String.eqb name "json" then Some (bool_flag (λ _ x, x)) else None.

(** The flags of a command, its own checks and the call it makes. [read_file] is
the file system's answer for --key-file. *)
Definition with_flags (fs : FlagSet cli_vars) (args : list string) (k : cli_vars → list string → result cli_err command)
    : result cli_err command :=
  match flag_Parse fs args no_vars with Err e => Err (CliFlag e) | Ok (v, _, rest) => k v rest end.

Definition tokenCreate (args : list string) : result cli_err command :=
  with_flags token_create_flags args (λ v rest,
    refuse! String.eqb (vName v) "" || negb (bool_decide (rest = [])) with CliUsage ;;
    Ok (CmdCall (CallCreateToken (vName v)
      (Auth.mkPolicy (splitList (vNames v)) (splitList (vTypes v)) (vMax v) (vPorts v) (vRequireCert v) (splitList (vDomains v)))))).

Definition reservationAdd (args : list string) : result cli_err command :=
  with_flags reservation_add_flags args (λ v rest,
    refuse! String.eqb (vName v) "" || String.eqb (vToken v) "" || negb (bool_decide (rest = [])) with CliUsage ;;
    Ok (CmdCall (CallReserve (mkReservationRequest (vName v) (vToken v) (vPort v))))).

Definition certIssue (args : list string) : result cli_err command :=
  with_flags cert_issue_flags args (λ v rest,
    refuse! String.eqb (vToken v) "" || String.eqb (vOut v) "" || negb (bool_decide (rest = [])) with CliUsage ;;
    Ok (CmdIssueCert (vToken v) (vOut v) (vDays v))).

Definition gatewayKeyAdd (read_file : string → option string) (args : list string) : result cli_err command :=
  with_flags gateway_key_flags args (λ v rest,
    match (if String.eqb (vKeyFile v) "" then Some (vKey v) else read_file (vKeyFile v)) with
    | None => Err CliReadFile
    | Some key =>
        refuse! String.eqb (vName v) "" || String.eqb key "" || String.eqb (vTunnels v) "" || negb (bool_decide (rest = []))
        with CliUsage ;;
        Ok (CmdCall (CallAddGatewayKey (mkKeyRequest (vName v) key (splitList (vTunnels v)))))
    end).

Definition exportCommand (args : list string) : result cli_err command :=
  with_flags export_flags args (λ v rest,
    refuse! String.eqb (vOut v) "" || negb (bool_decide (rest = [])) with CliUsage ;; Ok (CmdExport (vOut v))).

Definition relayStatus (args : list string) : result cli_err command :=
  with_flags status_flags args (λ _ _, Ok (CmdCall CallStatus)).

(** [args[2:]]: a panic if there are fewer than two arguments. *)
Definition from_second (args : list string) (k : list string → result cli_err command) : result cli_err command :=
  if (length args <? 2)%nat then Err CliPanic else k (drop 2 args).

(** [len(args) != 3] *)
Definition the_name (args : list string) (k : string → call) : result cli_err command :=
  match args with [_; _; n] => Ok (CmdCall (k n)) | _ => Err CliUsage end.

Definition parse_command (read_file : string → option string) (args : list string) : result cli_err command :=
  match args with
  | [] => Err CliMissing
  | first :: rest =>
      let two := JoinByte " " (take 2 args) in
      if String.eqb two "token create" then from_second args tokenCreate
      else if String.eqb two "token list" then Ok (CmdCall CallTokens)
      else if String.eqb two "token revoke" then the_name args CallRevokeToken
      else if String.eqb two "gateway-key add" then from_second args (gatewayKeyAdd read_file)
      else if String.eqb two "gateway-key list" then Ok (CmdCall CallGatewayKeys)
      else if String.eqb two "gateway-key remove" then the_name args CallRemoveGatewayKey
      else if String.eqb two "agent-cert issue" then from_second args certIssue
      else if String.eqb two "reservation add" then from_second args reservationAdd
      else if String.eqb two "reservation list" then Ok (CmdCall CallReservations)
      else if String.eqb two "reservation remove" then the_name args CallUnreserve
      else if String.eqb first "export" then exportCommand rest
      else if String.eqb first "status" then relayStatus rest
      else Err CliUnknown
  end.

(** ** Running a command *)

Definition maxSocketPath : nat := 103.

(** The files the program writes, by path; [writeNewFile] does not overwrite. *)
Record admin_world := mkAdminWorld { api : relayAPI; files : gmap string string }.
#[global] Instance eta_admin_world : Eta admin_world := λ w, mkAdminWorld (api w) (files w).

Definition writeNewFile (path data : string) (w : admin_world) : admin_world * result cli_err unit :=
  match files w !! path with
  | Some _ => (w, Err (CliFileExists path))
  | None => (w <| files := <[path := data]> (files w) |>, Ok tt)
  end.
Fixpoint write_files (l : list (string * string)) (w : admin_world) : admin_world * result cli_err unit :=
  match l with
  | [] => (w, Ok tt)
  | (p, d) :: l =>
      match writeNewFile p d w with (w, Ok _) => write_files l w | (w, Err e) => (w, Err e) end
  end.

(** [Client.do]: a path of the socket that is too long fails before the request. *)
Definition client_do (socket : string) (c : call) (d : draw) (w : admin_world) : admin_world * result cli_err admin_answer :=
  if (maxSocketPath <? String.length socket)%nat then (w, Err CliSocketPath)
  else
    let '(a, r) := RelayHandler (call_request c) d (api w) in
    (w <| api := a |>, match r with Ok ans => Ok ans | Err st => Err (CliRelay st) end).

(** [cert_pem] and [key_pem] are the PEM texts of an issued certificate,
[export_json] the text of an export; the three files of an export are written in
the order [order] gives them (a range over a map), if their directory can be
made. *)
Definition run_command (cert_pem key_pem : IssuedCert (CA := CA) → string) (export_json : Export → string)
    (order : list (string * string) → list (string * string)) (mkdir : string → bool) (read_file : string → option string) (socket : string)
    (args : list string) (d : draw) (w : admin_world) : admin_world * result cli_err unit :=
  match parse_command read_file args with
  | Err e => (w, Err e)
  | Ok (CmdCall c) => let '(w, r) := client_do socket c d w in (w, match r with Ok _ => Ok tt | Err e => Err e end)
  | Ok (CmdIssueCert token out days) =>
      match client_do socket (CallIssueCert token days) d w with
      | (w, Ok (AnsIssued c)) => write_files [(out +:+ ".key", key_pem c); (out +:+ ".crt", cert_pem c)] w
      | (w, Ok _) => (w, Ok tt)
      | (w, Err e) => (w, Err e)
      end
  | Ok (CmdExport dir) =>
      match client_do socket CallExport d w with
      | (w, Ok (AnsExport e cert key)) =>
          if negb (mkdir dir) then (w, Err CliMkdir)
          else write_files (order [(Clean (dir +:+ "/export.json"), export_json e); (Clean (dir +:+ "/ca.crt"), cert);
                                   (Clean (dir +:+ "/ca.key"), key)]) w
      | (w, Ok _) => (w, Ok tt)
      | (w, Err e) => (w, Err e)
      end
  end.
End admin.

(** ** Sizes in tables *)

(** [bytesString]: the divisor and the index of the unit, by a loop over
[m = n / unit, m / unit, ...]; [fuel] bounds its rounds. *)
Fixpoint unit_loop (fuel : nat) (m div : Z) (exp : nat) : Z * nat :=
  match fuel with
  | O => (div, exp)
  | S fuel => if (m <? 1024)%Z then (div, exp) else unit_loop fuel (m / 1024) (int64 (div * 1024)) (S exp)
  end.
Definition units : list ascii := ["K"; "M"; "G"; "T"; "P"; "E"]%char.
(** Bytes, or the size as a fraction of a unit; [None] is a panic. *)
Definition bytesString (n : Z) : option (Z * Z * option ascii) :=
  if (n <? 1024)%Z then Some (n, 1%Z, None)
  else let '(div, exp) := unit_loop 6 (n / 1024) 1024 0 in u ← units !! exp; Some (n, div, Some u).
