(* ===== verification/AdminCliSpec.v ===== *)
(** * Commands do what they say

A command line that administers a relay performs the operation it names: its
arguments are read back ([parse_command_args]), names of any bytes travel
through the request's path unharmed ([path_roundtrip]), and the relay's mux finds
the operation's handler ([call_handled]). *)

From S2P Require Import Prelude GoStrings Base64 NetIP Protocol PathMatch Policy Certs Manage RelayNode Agent ServerConf Inspect AgentConf AgentConfSpec.
From S2P Require Import Access NameRegistry RelayTunnels RelayServe Store AdminSpec AdminCli.
From stdpp Require Import options gmap.
From Stdlib Require Import Ascii.
#[local] Open Scope l8_scope.

(** ** Path segments *)

Lemma hex_roundtrip n : (n < 16)%N → hex_digit (hex_char n) = Some n.
Proof.
  intros Hn. assert (n ∈ (N.of_nat <$> seq 0 16)) as Hin.
  { apply list_elem_of_fmap. exists (N.to_nat n). split; [lia|]. apply elem_of_seq. lia. }
  assert (Forall (λ n, hex_digit (hex_char n) = Some n) (N.of_nat <$> seq 0 16)) as Hall by (repeat constructor).
  by rewrite Forall_forall in Hall; apply Hall.
Qed.

Lemma code_bound c : (code c < 256)%N.
Proof. apply N_ascii_bounded. Qed.
Lemma ascii_of_code c : ascii_of_N (code c) = c.
Proof. apply ascii_N_embedding. Qed.

Lemma PathUnescape_plain c s : c ≠ "%"%char → PathUnescape (String c s) = (rest ← PathUnescape s; Some (String c rest)).
Proof. intros Hc. by destruct c as [[] [] [] [] [] [] [] []]. Qed.

Lemma path_roundtrip s : PathUnescape (PathEscape s) = Some s.
Proof.
  induction s as [|c s IH]; [done|]. cbn [PathEscape]. destruct (path_safe c) eqn:Hc.
  - rewrite PathUnescape_plain, IH by (intros ->; done). done.
  - cbn [PathUnescape]. rewrite !hex_roundtrip, IH.
    + cbn [mbind option_bind]. replace (code c / 16 * 16 + code c mod 16)%N with (code c)
        by (rewrite (N.div_mod (code c) 16) at 1; lia). by rewrite ascii_of_code.
    + apply N.Div0.div_lt_upper_bound. pose proof (code_bound c). lia.
    + apply N.mod_lt. lia.
Qed.

Lemma hex_char_not_slash n : (n < 16)%N → Ascii.eqb (hex_char n) "/" = false.
Proof.
  intros Hn. destruct (Ascii.eqb_spec (hex_char n) "/") as [E|]; [|done]. pose proof (hex_roundtrip n Hn) as Hr. by rewrite E in Hr.
Qed.
Lemma PathEscape_no_slash s : str_forall (λ x, negb (Ascii.eqb x "/")) (PathEscape s) = true.
Proof.
  induction s as [|c s IH]; [done|]. cbn [PathEscape]. destruct (path_safe c) eqn:Hc; cbn [str_forall]; rewrite IH.
  - destruct (Ascii.eqb_spec c "/") as [->|]; done.
  - rewrite !hex_char_not_slash; [done|apply N.mod_lt; lia|].
    apply N.Div0.div_lt_upper_bound. pose proof (code_bound c). lia.
Qed.

Lemma PathEscape_clean n : clean_segment n = true → clean_segment (PathEscape n) = true.
Proof.
  intros Hn. pose proof (path_roundtrip n) as Hr. unfold clean_segment in *.
  destruct (String.eqb_spec (PathEscape n) "") as [E|]; [rewrite E in Hr; by injection Hr as <-|].
  destruct (String.eqb_spec (PathEscape n) ".") as [E|]; [rewrite E in Hr; by injection Hr as <-|].
  destruct (String.eqb_spec (PathEscape n) "..") as [E|]; [rewrite E in Hr; by injection Hr as <-|]. done.
Qed.
Lemma PathValue_escape n : PathValue (PathEscape n) = n.
Proof. unfold PathValue. by rewrite path_roundtrip. Qed.

(** ** The handler of a call *)

Definition handler_of (c : call) : admin_handler :=
  match c with
  | CallStatus => HStatus | CallExport => HExport | CallTokens => HListTokens
  | CallCreateToken _ _ => HCreateToken | CallRevokeToken n => HRevokeToken n | CallIssueCert n _ => HIssueCert n
  | CallGatewayKeys => HListGatewayKeys | CallAddGatewayKey _ => HAddGatewayKey | CallRemoveGatewayKey n => HRemoveGatewayKey n
  | CallReservations => HListReservations | CallReserve _ => HAddReservation | CallUnreserve n => HRemoveReservation n
  end.

(** The record a call names: its name must be one a path can hold. *)
Definition names_segment (c : call) : bool :=
  match c with
  | CallRevokeToken n | CallIssueCert n _ | CallRemoveGatewayKey n | CallUnreserve n => clean_segment n
  | _ => true
  end.

Lemma split_named base n :
  str_forall (λ x, negb (Ascii.eqb x "/")) base = true →
  SplitByte "/" (String "/" (base +:+ String "/" (PathEscape n))) = [""; base; PathEscape n].
Proof.
  intros Hb. change (String "/" (base +:+ String "/" (PathEscape n))) with ("" +:+ String "/" (base +:+ String "/" (PathEscape n))).
  rewrite SplitByte_cons, SplitByte_cons, SplitByte_no_sep_id by (done || apply PathEscape_no_slash). done.
Qed.
Lemma split_named_sub base n sub :
  str_forall (λ x, negb (Ascii.eqb x "/")) base = true → str_forall (λ x, negb (Ascii.eqb x "/")) sub = true →
  SplitByte "/" (String "/" (base +:+ String "/" (PathEscape n +:+ String "/" sub))) = [""; base; PathEscape n; sub].
Proof.
  intros Hb Hs.
  change (String "/" (base +:+ String "/" (PathEscape n +:+ String "/" sub))) with ("" +:+ String "/" (base +:+ String "/" (PathEscape n +:+ String "/" sub))).
  rewrite SplitByte_cons, SplitByte_cons, SplitByte_cons, SplitByte_no_sep_id by (done || apply PathEscape_no_slash). done.
Qed.

Lemma call_handled c :
  names_segment c = true → admin_mux (aqMethod (call_request c)) (aqPath (call_request c)) = Some (handler_of c).
Proof.
  destruct c; try done; cbn [names_segment call_request aqMethod aqPath handler_of]; intros Hn%PathEscape_clean; unfold admin_mux.
  - change ("/tokens/" +:+ PathEscape name) with (String "/" ("tokens" +:+ String "/" (PathEscape name))).
    rewrite (split_named "tokens" name eq_refl). cbn [forallb]. rewrite Hn. cbn. by rewrite PathValue_escape.
  - change ("/tokens/" +:+ PathEscape token +:+ "/certs") with (String "/" ("tokens" +:+ String "/" (PathEscape token +:+ String "/" "certs"))).
    rewrite (split_named_sub "tokens" token "certs" eq_refl eq_refl). cbn [forallb]. rewrite Hn. cbn. by rewrite PathValue_escape.
  - change ("/gateway-keys/" +:+ PathEscape name) with (String "/" ("gateway-keys" +:+ String "/" (PathEscape name))).
    rewrite (split_named "gateway-keys" name eq_refl). cbn [forallb]. rewrite Hn. cbn. by rewrite PathValue_escape.
  - change ("/reservations/" +:+ PathEscape name) with (String "/" ("reservations" +:+ String "/" (PathEscape name))).
    rewrite (split_named "reservations" name eq_refl). cbn [forallb]. rewrite Hn. cbn. by rewrite PathValue_escape.
Qed.

(** ** Arguments of a command *)

Definition int_args (name : string) (z : Z) : list string := if (z =? 0)%Z then [] else ["--" +:+ name; Itoa z].
Definition joined (l : list string) : string := JoinByte "," l.

Definition command_args (cmd : command) : list string :=
  match cmd with
  | CmdCall CallStatus => ["status"]
  | CmdCall CallTokens => ["token"; "list"]
  | CmdCall (CallCreateToken n p) =>
      "token" :: "create" :: flag_args "name" n ++ flag_args "names" (joined (Auth.Names p)) ++ flag_args "types" (joined (Auth.Types p)) ++
        int_args "max-tunnels" (Auth.MaxTunnels p) ++ flag_args "ports" (Auth.Ports p) ++
        (if Auth.RequireCert p then ["--require-cert"] else []) ++ flag_args "domains" (joined (Auth.Domains p))
  | CmdCall (CallRevokeToken n) => ["token"; "revoke"; n]
  | CmdCall CallGatewayKeys => ["gateway-key"; "list"]
  | CmdCall (CallAddGatewayKey r) =>
      "gateway-key" :: "add" :: flag_args "name" (krName r) ++ flag_args "key" (krPublicKey r) ++ flag_args "tunnels" (joined (krTunnels r))
  | CmdCall (CallRemoveGatewayKey n) => ["gateway-key"; "remove"; n]
  | CmdCall CallReservations => ["reservation"; "list"]
  | CmdCall (CallReserve r) =>
      "reservation" :: "add" :: flag_args "name" (rqName r) ++ flag_args "token" (rqToken r) ++ int_args "port" (rqPort r)
  | CmdCall (CallUnreserve n) => ["reservation"; "remove"; n]
  | CmdIssueCert token out days => "agent-cert" :: "issue" :: flag_args "token" token ++ flag_args "out" out ++ ["--days"; Itoa days]
  | CmdExport dir => "export" :: flag_args "out" dir
  | CmdCall CallExport | CmdCall (CallIssueCert _ _) => []
  end.

(** Lists that can be written with commas, and numbers. *)
Definition plain_list (l : list string) : Prop := Forall (λ x, str_mem "," x = false) l ∧ l ≠ [""].
Definition plain_int (z : Z) : Prop := (0 ≤ z < 2 ^ 63)%Z.

Definition sayable_command (cmd : command) : Prop :=
  match cmd with
  | CmdCall (CallCreateToken n p) =>
      n ≠ "" ∧ plain_list (Auth.Names p) ∧ plain_list (Auth.Types p) ∧ plain_list (Auth.Domains p) ∧ plain_int (Auth.MaxTunnels p)
  | CmdCall (CallAddGatewayKey r) => krName r ≠ "" ∧ krPublicKey r ≠ "" ∧ krTunnels r ≠ [] ∧ plain_list (krTunnels r)
  | CmdCall (CallReserve r) => rqName r ≠ "" ∧ rqToken r ≠ "" ∧ plain_int (rqPort r)
  | CmdCall CallExport | CmdCall (CallIssueCert _ _) => False
  | CmdCall _ => True
  | CmdIssueCert token out days => token ≠ "" ∧ out ≠ "" ∧ plain_int days
  | CmdExport dir => dir ≠ ""
  end.

Lemma joined_nonempty l : l ≠ [] → l ≠ [""] → joined l ≠ "".
Proof.
  destruct l as [|x [|y l]]; [done| |].
  - cbn. intros _ Hx ->. done.
  - intros _ _ E. change (joined (x :: y :: l)) with (x +:+ String "," (joined (y :: l))) in E. by destruct x.
Qed.
Lemma splitList_joined l : plain_list l → splitList (joined l) = l.
Proof.
  intros [Hl Hne]. destruct (decide (l = [])) as [->|Hl0]; [done|]. unfold splitList.
  destruct (String.eqb_spec (joined l) "") as [E|]; [by apply joined_nonempty in E|].
  apply SplitByte_JoinByte; [done|]. intros x Hx. rewrite Forall_forall in Hl. specialize (Hl x Hx).
  unfold str_mem in Hl. by apply negb_false_iff in Hl.
Qed.

Lemma ParseInt_Itoa z : plain_int z → ParseInt (Itoa z) = Some z.
Proof.
  intros [Hz Hlt]. destruct (decide (z = 0)%Z) as [->|Hne]; [done|].
  pose proof (ParseUint_Itoa (Z.to_N z) ltac:(lia)) as HP. rewrite Z2N.id in HP by lia.
  assert (ParseInt (Itoa z) = (n ← ParseUint (Itoa z); if (n <? 2 ^ 63)%Z then Some n else None)) as ->.
  { pose proof (Itoa_digits z Hz) as Hd. destruct (Itoa z) as [|c t]; [done|]. cbn in Hd. apply andb_true_iff in Hd as [Hd _].
    by destruct c as [[] [] [] [] [] [] [] []]. }
  rewrite HP. cbn. destruct (Z.ltb_spec z (2 ^ 63)); [done|lia].
Qed.

Lemma parses_int fs name set z s s' :
  plain_int z → read_word ("--" +:+ name) = Flag name None → fs name = Some (int_flag set) →
  set z s = s' → (z = 0%Z → s' = s) → parses fs (int_args name z) s s'.
Proof.
  intros Hz Hw Hf Hs He. unfold int_args. destruct (Z.eqb_spec z 0) as [E|].
  - rewrite (He E). apply parses_nil.
  - eapply parses_value; [done|done|done|]. unfold int_flag; cbn [flag_Set]. rewrite ParseInt_Itoa by done. cbn. by rewrite Hs.
Qed.
Ltac read_int Hz := eapply (parses_int _ _ _ _ _ _ Hz); [reflexivity|reflexivity|reflexivity|intros ->; reflexivity].

Lemma with_flags_parses fs args v k :
  parses fs args no_vars v → with_flags fs args k = k v [].
Proof.
  intros Hp. destruct (parses_end _ _ _ _ [] Hp I) as [seen Hs]. rewrite app_nil_r in Hs. unfold with_flags. by rewrite Hs.
Qed.

Lemma tokenCreate_args n p :
  sayable_command (CmdCall (CallCreateToken n p)) →
  tokenCreate (drop 2 (command_args (CmdCall (CallCreateToken n p)))) = Ok (CmdCall (CallCreateToken n p)).
Proof.
  intros (Hn & Hnames & Htypes & Hdoms & Hmax). destruct p as [names types max ports cert doms]. cbn [Auth.Names Auth.Types Auth.Domains Auth.MaxTunnels] in *.
  cbn [command_args drop Auth.Names Auth.Types Auth.Domains Auth.MaxTunnels Auth.Ports Auth.RequireCert]. unfold tokenCreate.
  erewrite with_flags_parses with (v := mkCliVars n (joined names) (joined types) max ports cert (joined doms) "" 0 "" 365 "" "" "").
  - cbn [vName vNames vTypes vMax vPorts vRequireCert vDomains]. destruct (String.eqb_spec n ""); [done|]. cbn [orb negb].
    rewrite bool_decide_true by done. cbn [negb]. by rewrite !splitList_joined.
  - unfold no_vars. eapply parses_app; [read_string|cbn]. eapply parses_app; [read_string|cbn]. eapply parses_app; [read_string|cbn].
    eapply parses_app; [read_int Hmax|cbn]. eapply parses_app; [read_string|cbn].
    eapply parses_app with (s1 := mkCliVars n (joined names) (joined types) max ports cert "" "" 0 "" 365 "" "" ""); [|read_string].
    destruct cert; [|apply parses_nil]. eapply (parses_bool _ "require-cert"); reflexivity.
Qed.

Lemma gatewayKeyAdd_args read_file r :
  sayable_command (CmdCall (CallAddGatewayKey r)) →
  gatewayKeyAdd read_file (drop 2 (command_args (CmdCall (CallAddGatewayKey r)))) = Ok (CmdCall (CallAddGatewayKey r)).
Proof.
  intros (Hn & Hk & Ht & Hl). destruct r as [name key tunnels]. cbn [krName krPublicKey krTunnels] in *. cbn [command_args drop krName krPublicKey krTunnels].
  unfold gatewayKeyAdd. erewrite with_flags_parses with (v := mkCliVars name "" "" 0 "" false "" "" 0 "" 365 key "" (joined tunnels)).
  - cbn [vName vKeyFile vKey vTunnels String.eqb]. pose proof (joined_nonempty tunnels Ht (proj2 Hl)).
    destruct (String.eqb_spec name ""), (String.eqb_spec key ""), (String.eqb_spec (joined tunnels) ""); try done.
    cbn [orb]. rewrite bool_decide_true by done. cbn [negb]. by rewrite splitList_joined.
  - unfold no_vars. eapply parses_app; [read_string|cbn]. eapply parses_app; [read_string|cbn]. read_string.
Qed.

Lemma reservationAdd_args r :
  sayable_command (CmdCall (CallReserve r)) →
  reservationAdd (drop 2 (command_args (CmdCall (CallReserve r)))) = Ok (CmdCall (CallReserve r)).
Proof.
  intros (Hn & Ht & Hp). destruct r as [name token port]. cbn [rqName rqToken rqPort] in *. cbn [command_args drop rqName rqToken rqPort].
  unfold reservationAdd. erewrite with_flags_parses with (v := mkCliVars name "" "" 0 "" false "" token port "" 365 "" "" "").
  - cbn [vName vToken vPort]. destruct (String.eqb_spec name ""), (String.eqb_spec token ""); done.
  - unfold no_vars. eapply parses_app; [read_string|cbn]. eapply parses_app; [read_string|cbn]. read_int Hp.
Qed.

Lemma certIssue_args token out days :
  sayable_command (CmdIssueCert token out days) →
  certIssue (drop 2 (command_args (CmdIssueCert token out days))) = Ok (CmdIssueCert token out days).
Proof.
  intros (Ht & Ho & Hd). cbn [command_args drop]. unfold certIssue.
  erewrite with_flags_parses with (v := mkCliVars "" "" "" 0 "" false "" token 0 out days "" "" "").
  - cbn [vToken vOut vDays]. destruct (String.eqb_spec token ""), (String.eqb_spec out ""); done.
  - unfold no_vars. eapply parses_app; [read_string|cbn]. eapply parses_app; [read_string|cbn].
    eapply (parses_value _ "days"); [reflexivity|reflexivity|reflexivity|]. unfold int_flag; cbn [flag_Set]. by rewrite ParseInt_Itoa.
Qed.

(** A command's arguments are read back as the command. *)
Lemma parse_command_args read_file cmd : sayable_command cmd → parse_command read_file (command_args cmd) = Ok cmd.
Proof.
  intros Hs. destruct cmd as [c|token out days|dir].
  - destruct c; try done.
    + exact (tokenCreate_args _ _ Hs).
    + exact (gatewayKeyAdd_args read_file _ Hs).
    + exact (reservationAdd_args _ Hs).
  - exact (certIssue_args _ _ _ Hs).
  - cbn in Hs. unfold parse_command. cbn [command_args]. unfold flag_args. destruct (String.eqb_spec dir "") as [|Hd]; [done|].
    change (exportCommand ["--" +:+ "out"; dir] = Ok (CmdExport dir)). unfold exportCommand.
    erewrite with_flags_parses with (v := mkCliVars "" "" "" 0 "" false "" "" 0 dir 365 "" "" "");
      [|by eapply (parses_value _ "out")]. cbn [vOut]. by destruct (String.eqb_spec dir "").
Qed.

(** ** Commands performed *)

(** The call of a command. *)
Definition call_of (cmd : command) : call :=
  match cmd with CmdCall c => c | CmdIssueCert token _ days => CallIssueCert token days | CmdExport _ => CallExport end.

(** Names of tokens and gateway keys are path segments. *)
Lemma valid_name_segment n : ValidateTokenName n = true → clean_segment n = true.
Proof.
  unfold clean_segment. intros Hv.
  destruct (String.eqb_spec n "") as [->|]; [done|]. destruct (String.eqb_spec n ".") as [->|]; [done|].
  by destruct (String.eqb_spec n "..") as [->|].
Qed.

Section admin.
Context `{GoUnicode, Crypto, MapRange} (s : Server) {CA : Type} (LoadAgentCA : string → string → option CA)
  (PEM : CA → option (string * string)) (ParseAuthorizedKey : string → option (string * string)).
Context (show : session_id → string) (info : session_id → session_info) (counts : tunnel_id → tunnel_counts).
Context (cert_pem key_pem : IssuedCert (CA := CA) → string) (export_json : Export → string)
  (order : list (string * string) → list (string * string)) (mkdir : string → bool) (read_file : string → option string) (socket : string).

#[local] Abbreviation run := (run_command s LoadAgentCA PEM ParseAuthorizedKey show info counts cert_pem key_pem export_json order mkdir
  read_file socket).
#[local] Abbreviation serve := (serve_handler s LoadAgentCA PEM ParseAuthorizedKey show info counts).

(** What the program does with the relay's answer. *)
Definition reported (cmd : command) (r : result status (admin_answer (CA := CA))) (w : admin_world) : admin_world * result cli_err unit :=
  match r with
  | Err e => (w, Err (CliRelay e))
  | Ok ans =>
      match cmd, ans with
      | CmdIssueCert _ out _, AnsIssued c => write_files [(out +:+ ".key", key_pem c); (out +:+ ".crt", cert_pem c)] w
      | CmdExport dir, AnsExport e cert key =>
          if mkdir dir
          then write_files (order [(Clean (dir +:+ "/export.json"), export_json e); (Clean (dir +:+ "/ca.crt"), cert);
                                   (Clean (dir +:+ "/ca.key"), key)]) w
          else (w, Err CliMkdir)
      | _, _ => (w, Ok tt)
      end
  end.

Lemma client_do_handled c d w :
  names_segment c = true → (String.length socket ≤ maxSocketPath)%nat →
  client_do s LoadAgentCA PEM ParseAuthorizedKey show info counts socket c d w =
    let '(a, r) := serve (handler_of c) (aqBody (call_request c)) d (api w) in
    (w <| api := a |>, match r with Ok ans => Ok ans | Err e => Err (CliRelay e) end).
Proof using Type.
  intros Hn Hs. unfold client_do, RelayHandler. rewrite call_handled by done. destruct (Nat.ltb_spec maxSocketPath (String.length socket)); [lia|done].
Qed.

(** The command line performs what it says. For every command with any
names, lists and numbers its flags can hold, running the program with the
command's arguments performs on the relay exactly the operation of the admin API
that the command names, on the very record it names (a name may hold any bytes;
only the empty name, "." and ".." are no path segments, and no record has them),
reports the relay's refusal, and otherwise writes the files of an issued
certificate or an export. *)
Theorem admin_command_performed cmd d w :
  sayable_command cmd → names_segment (call_of cmd) = true → (String.length socket ≤ maxSocketPath)%nat →
  run (command_args cmd) d w =
    let '(a, r) := serve (handler_of (call_of cmd)) (aqBody (call_request (call_of cmd))) d (api w) in
    reported cmd r (w <| api := a |>).
Proof using Type.
  intros Hs Hn Hsock. unfold run_command. rewrite parse_command_args by done.
  destruct cmd as [c|token out days|dir]; cbn [call_of] in *; rewrite client_do_handled by done;
    destruct (serve _ _ d (api w)) as [a [ans|e]]; try done;
    destruct ans; try done; cbn [reported]; by destruct (mkdir dir).
Qed.

Lemma write_files_keep l w : files w ⊆ files (write_files l w).1.
Proof using Type.
  revert w. induction l as [|[p x] l IH]; intros w; [done|]. cbn [write_files]. unfold writeNewFile.
  destruct (files w !! p) eqn:Hp; [done|]. etrans; [|apply IH]. cbn. by apply insert_subseteq.
Qed.

(** No command overwrites a file, whatever its arguments and the answers. *)
Lemma run_keeps_files args d w : files w ⊆ files (run args d w).1.
Proof using Type.
  unfold run_command. destruct (parse_command read_file args) as [[c|token out days|dir]|]; [..|done].
  - unfold client_do. destruct (_ <? _)%nat; [done|]. by destruct (RelayHandler _ _ _ _ _ _ _ _ _ _) as [a r].
  - unfold client_do. destruct (_ <? _)%nat; [done|]. destruct (RelayHandler _ _ _ _ _ _ _ _ _ _) as [a [[]|]]; try done.
    match goal with |- _ ⊆ files (write_files ?l ?w').1 => etrans; [|exact (write_files_keep l w')] end. done.
  - unfold client_do. destruct (_ <? _)%nat; [done|]. destruct (RelayHandler _ _ _ _ _ _ _ _ _ _) as [a [[]|]]; try done.
    destruct (mkdir dir); cbn [negb]; [|done].
    match goal with |- _ ⊆ files (write_files ?l ?w').1 => etrans; [|exact (write_files_keep l w')] end. done.
Qed.
End admin.

(** A quoted command such as "token create" is one argument: it is recognized as
the command, and taking the arguments after the second one panics. *)
Lemma quoted_command_panics read_file : parse_command read_file ["token create"] = Err CliPanic.
Proof. done. Qed.

(** ** Sizes *)

Lemma unit_loop_spec n fuel exp :
  (fuel + exp = 6)%nat → (1024 ^ Z.of_nat (S exp) ≤ n < 2 ^ 63)%Z →
  ∃ e, (e < 6)%nat ∧ unit_loop fuel (n / 1024 ^ Z.of_nat (S exp)) (1024 ^ Z.of_nat (S exp)) exp = (1024 ^ Z.of_nat (S e), e)%Z ∧
    (1024 ^ Z.of_nat (S e) ≤ n < 1024 ^ Z.of_nat (S (S e)))%Z.
Proof.
  revert exp. induction fuel as [|fuel IH]; intros exp Hf Hn.
  { assert (exp = 6)%nat as -> by lia. cbn in Hn. lia. }
  cbn [unit_loop]. set (D := (1024 ^ Z.of_nat (S exp))%Z) in *.
  assert (0 < D)%Z as HD by (unfold D; lia).
  assert (1024 ^ Z.of_nat (S (S exp)) = D * 1024)%Z as HS by (unfold D; rewrite (Nat2Z.inj_succ (S exp)), Z.pow_succ_r; lia).
  destruct (Z.ltb_spec (n / D) 1024) as [Hlt|Hge].
  - exists exp. split; [lia|]. split; [done|]. split; [lia|]. rewrite HS. pose proof (Z.mod_pos_bound n D HD). pose proof (Z.div_mod n D). nia.
  - assert (D * 1024 ≤ n)%Z as Hle by (pose proof (Z.mul_div_le n D HD); nia).
    assert (int64 (D * 1024) = D * 1024)%Z as -> by (unfold int64; rewrite Z.mod_small; lia).
    rewrite Z.div_div by lia. rewrite <- HS. apply IH; [lia|]. rewrite HS. lia.
Qed.

(** Every size has a unit: the table of units is never read out of range, the
divisor does not overflow, and the number shown is at least 1 and below 1024. *)
Lemma bytesString_total n :
  (1024 ≤ n < 2 ^ 63)%Z → ∃ e u, bytesString n = Some (n, 1024 ^ Z.of_nat (S e), Some u)%Z ∧ units !! e = Some u ∧
    (1024 ^ Z.of_nat (S e) ≤ n < 1024 ^ Z.of_nat (S (S e)))%Z.
Proof.
  intros Hn. destruct (unit_loop_spec n 6 0) as (e & He & Hl & Hb); [done|cbn; lia|].
  destruct (lookup_lt_is_Some_2 units e) as [u Hu]; [cbn; lia|]. exists e, u. split; [|done].
  unfold bytesString. destruct (Z.ltb_spec n 1024); [lia|]. change (1024 ^ Z.of_nat 1)%Z with 1024%Z in Hl. by rewrite Hl, Hu.
Qed.

(** ** A sample relay *)

#[local] Existing Instance plain_crypto.
#[local] Existing Instance ascii_only.

Module AdminCliSample.
Definition w : admin_world := mkAdminWorld AdminSample.a3 {["a.key" := "old"]}.
Definition d : draw (CA := unit) := mkDraw AdminSample.tokenB (Some AdminSample.secret) (Some tt) (Some "7f").
Definition ci : Auth.Policy := Auth.mkPolicy ["ci-*"; "dev"] ["http"] 3 "" true [].
Definition args : list string := ["token"; "create"; "--name"; "ci"; "--names"; "ci-*,dev"; "--types"; "http"; "--max-tunnels"; "3"; "--require-cert"].
End AdminCliSample.
Import AdminCliSample.

#[local] Abbreviation sample_run :=
  (run_command AdminSample.s AdminSample.load AdminSample.pem (λ _, None) (λ _, "") (λ _, mkInfo "" "" "" "" 0) (λ _, mkCounts 0 0 0 0)
    (λ _, "CERT") (λ _, "KEY") (λ _, "{}") id (λ _, true) (λ _, None) "/run/l8tunnel/admin.sock").

Lemma admin_command_performed_witness :
  args = command_args (CmdCall (CallCreateToken "ci" ci)) ∧
  sample_run ["token"; "revoke"; "alice"] d w =
    (w <| api := (revokeToken "alice" AdminSample.a3).1 |>, match (revokeToken "alice" AdminSample.a3).2 with Ok _ => Ok tt | Err e => Err (CliRelay e) end) ∧
  (sample_run ["agent-cert"; "issue"; "--token"; "bob"; "--out"; "a"; "--days"; "30"] d w).2 = Err (CliFileExists "a.key").
Proof.
  split; [reflexivity|]. split.
  - rewrite (admin_command_performed AdminSample.s AdminSample.load AdminSample.pem (λ _, None) (λ _, "") (λ _, mkInfo "" "" "" "" 0)
      (λ _, mkCounts 0 0 0 0) (λ _, "CERT") (λ _, "KEY") (λ _, "{}") id (λ _, true) (λ _, None) "/run/l8tunnel/admin.sock"
      (CmdCall (CallRevokeToken "alice")) d w I eq_refl); [|vm_compute; lia].
    cbn [call_of handler_of serve_handler call_request aqBody]. change (api w) with AdminSample.a3.
    destruct (revokeToken "alice" AdminSample.a3) as [a [n|e]]; reflexivity.
  - vm_compute. reflexivity.
Defined.
