(* ===== verification/ManageSpec.v ===== *)
(** * Agent credentials in the cluster: theorems

What issuing, importing and revoking do to the tables of the services, and
what a relay of the cluster makes of it: an issued token lets its agent in, a
standalone relay's agents authenticate after their import as before, and a
revoked token is refused for good by a relay that heard of it. *)

From S2P Require Import Prelude GoStrings Regex Protocol PathMatch Policy NetIP Access Claims EdgeConf NameRegistry RelayTunnels RelayServe.
From S2P Require Import RelayServeSpec Store StoreSpec Reservations Manage Certs ServerConf EdgeDomains RelayNode.
From stdpp Require Import options.
#[local] Open Scope l8_scope.
#[local] Open Scope Z_scope.
Import Rules.

(** ** Rows *)

Section rows.
Context {MR : MapRange} {T : Type} {key : T → string} {TS : TableService key}.

Lemma find_row (t : table key) id :
  id ≠ "" → List.find (λ o, String.eqb (key o) id) (list_rows t) = rows t !! id.
Proof.
  intros Hid. destruct (List.find _ _) as [x|] eqn:Hf.
  - apply List.find_some in Hf as [Hin He]. apply String.eqb_eq in He as <-.
    apply list_elem_of_In, elem_of_list_rows in Hin as (_ & k & Hk). by rewrite (rows_key _ _ _ Hk).
  - destruct (rows t !! id) as [x|] eqn:Hx; [exfalso|done]. pose proof (rows_key _ _ _ Hx) as <-.
    assert (x ∈ list_rows t) as Hin%list_elem_of_In by (apply elem_of_list_rows; eauto).
    pose proof (List.find_none _ _ Hf x Hin) as Hn. cbn in Hn. by rewrite String.eqb_refl in Hn.
Qed.

Lemma find_missing (t : table key) id : rows t !! id = None → List.find (λ o, String.eqb (key o) id) (list_rows t) = None.
Proof.
  destruct (List.find _ _) as [x|] eqn:Hf; [|done]. apply List.find_some in Hf as [Hin He]. apply String.eqb_eq in He as <-.
  apply list_elem_of_In, elem_of_list_rows in Hin as (_ & k & Hk). by rewrite (rows_key _ _ _ Hk), Hk.
Qed.

(** A row that is posted is stored, or its key was taken and nothing changed. *)
Definition posted (x : T) (t t' : table key) : Prop :=
  rows t' = <[key x := x]> (rows t) ∨ is_Some (rows t !! key x) ∧ rows t' = rows t.

Lemma posted_new x t t' : posted x t t' → rows t !! key x = None → rows t' = <[key x := x]> (rows t).
Proof. intros [?|[[? Hs] _]] Hn; [done|congruence]. Qed.

Lemma service_post {E} (h : Hooks E T) fresh x t t' y :
  service_write h fresh POST x t = (t', Ok y) → Validate h POST (SetID h fresh x) = Ok y ∧ posted y t t'.
Proof.
  unfold service_write, Before. destruct (Validate h POST _) as [z|e]; [|done].
  destruct (svcPost z t) as [t1 [why|]] eqn:Hs; [done|]. intros [= -> ->]. split; [done|by apply svcPost_ok].
Qed.
End rows.

(** ** The monad *)

Section manage.
Context {GU : GoUnicode} {GF : GoFold} {CR : Crypto} {MR : MapRange} {X5 : X509}.
Context {STK : TableService tkTokenId} {SCR : TableService crCertId} {SGK : TableService gkKeyId} {TV : TableService vReservationId}.

Lemma bind_ok {A B} (m : M A) (k : A → M B) w w' b :
  (m ≫= k) w = (w', Ok b) → ∃ w1 a, m w = (w1, Ok a) ∧ k a w1 = (w', Ok b).
Proof.
  unfold mbind, M_bind. destruct (m w) as [w1 [a|e]]; [|done]. intros Hk. by exists w1, a.
Qed.

Lemma next_call_ok w w' b : next_call w = (w', Ok b) → ∃ l, w' = w <| faults := l |>.
Proof.
  unfold next_call. destruct (faults w) as [|c l] eqn:Hf; intros [= <- _]; [exists []|by exists l]. destruct w. cbn in Hf. by subst.
Qed.

Lemma call_ok {A} (f : world → A) w w' a : call f w = (w', Ok a) → ∃ l, w' = w <| faults := l |> ∧ a = f w'.
Proof.
  intros (w1 & up & (l & ->)%next_call_ok & Hk)%bind_ok. destruct up; [|done]. injection Hk as <- <-. by exists l.
Qed.

Lemma lift_ok {A E} (f : E → issue_err) (r : result E A) w w' a : lift f r w = (w', Ok a) → w' = w ∧ r = Ok a.
Proof. unfold lift. destruct r; intros [= -> ->]; done. Qed.

Lemma call_quiet {A} (f : world → A) w : faults w = [] → call f w = (w, Ok (f w)).
Proof. intros Hf. unfold call, mbind, M_bind, next_call. by rewrite Hf. Qed.

(** ** Writes *)

Lemma validate_token_post now all t x :
  validate_token now all POST t = Ok x →
  tkTokenId x = tkTokenId t ∧ tkName x = tkName t ∧ tkSecretHash x = tkSecretHash t ∧ tkPolicy x = tkPolicy t.
Proof.
  cbn. destruct (negb _); [done|]. destruct (validatePolicy _); [|done]. destruct (checkNameFree _ _); [|done].
  destruct (negb _); [done|]. intros [= <-]. by destruct (_ =? _).
Qed.

Lemma token_post_ok fresh now t w w' x :
  token_write fresh now POST t w = (w', Ok x) →
  (∃ tab l, w' = mkWorld tab (wCerts w) (wKeys w) (wResv w) (wDomains w) (wPushed w ++ [PushToken false x]) l) ∧
  posted x (wTokens w) (wTokens w') ∧
  tkTokenId x = GenerateID fresh (tkTokenId t) ∧ tkName x = tkName t ∧ tkSecretHash x = tkSecretHash t ∧ tkPolicy x = tkPolicy t.
Proof.
  intros (w1 & [] & (l & -> & _)%call_ok & Hk)%bind_ok. apply bind_ok in Hk as (w2 & up & (l' & ->)%next_call_ok & Hk).
  unfold act in Hk. destruct (service_write _ _ _ _ _) as [tab [y|e]] eqn:Hs; [|done].
  apply service_post in Hs as [Hv Hp]. injection Hk as <- <-. apply validate_token_post in Hv as (? & ? & ? & ?).
  split_and!; [by do 2 eexists|done..].
Qed.

Lemma cert_post_ok now c w w' x :
  cert_write now POST c w = (w', Ok x) →
  (∃ tab l, w' = mkWorld (wTokens w) tab (wKeys w) (wResv w) (wDomains w) (wPushed w ++ [PushCert x]) l) ∧
  posted x (wCerts w) (wCerts w') ∧
  crCertId x = crCertId c ∧ crTokenId x = crTokenId c ∧ crRevoked x = crRevoked c ∧
  (crCertId c ≠ "").
Proof.
  intros (w1 & [] & (l & -> & _)%call_ok & Hk)%bind_ok. apply bind_ok in Hk as (w2 & up & (l' & ->)%next_call_ok & Hk).
  apply bind_ok in Hk as (w3 & up' & (l'' & ->)%next_call_ok & Hk).
  unfold act in Hk. destruct (service_write _ _ _ _ _) as [tab [y|e]] eqn:Hs; [|done].
  apply service_post in Hs as [Hv Hp]. injection Hk as <- <-. split_and!; [by do 2 eexists|done|..]; revert Hv; cbn;
    destruct (String.eqb_spec (crCertId c) ""); cbn; try done; (destruct (_ && _); [done|]);
    destruct (token_lookup _ _) as [[]|]; try done; intros [= <-]; by destruct (_ =? _).
Qed.

(** A reservation or a key that is imported leaves tokens and certificates. *)
Definition keeps_credentials (w w' : world) : Prop := wTokens w' = wTokens w ∧ wCerts w' = wCerts w.

#[export] Instance keeps_credentials_po : PreOrder keeps_credentials.
Proof. split; [done|]. unfold keeps_credentials. intros w1 w2 w3 [-> ->] [-> ->]. done. Qed.

Lemma keeps_faults w l : keeps_credentials w (w <| faults := l |>).
Proof. done. Qed.

Lemma next_call_keeps w : keeps_credentials w (next_call w).1.
Proof. unfold next_call. by destruct (faults w). Qed.

Lemma bind_keeps {A B} (m : M A) (k : A → M B) :
  (∀ w, keeps_credentials w (m w).1) → (∀ a w, keeps_credentials w (k a w).1) → ∀ w, keeps_credentials w ((m ≫= k) w).1.
Proof.
  intros Hm Hk w. specialize (Hm w). unfold mbind, M_bind. destruct (m w) as [w1 [a|e]]; cbn in *; [|done].
  etrans; [done|apply Hk].
Qed.

Lemma call_keeps {A} (f : world → A) w : keeps_credentials w (call f w).1.
Proof. apply bind_keeps; [apply next_call_keeps|]. by intros []. Qed.

Lemma reservation_write_keeps rules fresh now a r w : keeps_credentials w (reservation_write rules fresh now a r w).1.
Proof.
  repeat (apply bind_keeps; [first [apply call_keeps|apply next_call_keeps]|intros ?]). intros w'. unfold act.
  destruct (resv_write _ _ _ _ _ _) as [tab [x|e]]; done.
Qed.

Lemma key_write_keeps ParseAuthorizedKey fresh now a k w : keeps_credentials w (key_write ParseAuthorizedKey fresh now a k w).1.
Proof.
  repeat (apply bind_keeps; [first [apply call_keeps|apply next_call_keeps]|intros ?]). intros w'. unfold act.
  destruct (service_write _ _ _ _ _) as [tab [x|e]]; done.
Qed.

Lemma count_keeps {A} (f : nat → A → M bool) l :
  (∀ i x w, keeps_credentials w (f i x w).1) → ∀ i n w, keeps_credentials w (count_each f i l n w).1.
Proof.
  intros Hf. induction l as [|x l IH]; intros i n w; cbn [count_each]; [done|].
  apply bind_keeps; [apply Hf|]. intros b w'. apply IH.
Qed.

(** ** What a relay of the cluster is told *)

(** The relay's token store: the node's copy, with the backend behind it. *)
Definition node_store (now later : Z) (w : world) (a : accounts) : TokenStore := λ id, Ok (acc_TokenByID id now later w a).2.

Lemma fetch_quiet id w :
  faults w = [] → id ≠ "" →
  fetchToken id w =
    (w, match rows (wTokens w) !! id with
        | None => Ok None
        | Some t => match TokenRecordOf t (ValidSerials id (list_rows (wCerts w))) with
                    | Ok rec => Ok (Some rec)
                    | Err e => Err (ErrConv e)
                    end
        end).
Proof.
  intros Hf Hid. unfold fetchToken, Token, Certs. unfold mbind at 1, M_bind. rewrite call_quiet, find_row by done.
  destruct (rows (wTokens w) !! id) as [t|]; [|done]. unfold mbind, M_bind. rewrite call_quiet by done.
  unfold lift. by destruct (TokenRecordOf _ _).
Qed.

(** A stored token, looked up while the backend can be asked. *)
Lemma node_store_stored now later w a id t p :
  faults w = [] → id ≠ "" → liveLookupBackoff ≤ now - downAt a → rows (wTokens w) !! id = Some t → PolicyToAuth (tkPolicy t) = Ok p →
  node_store now later w a id = Ok (Some (mkToken id (tkName t) (tkSecretHash t) p (ValidSerials id (list_rows (wCerts w))))).
Proof.
  intros Hf Hid Hup Ht Hp. unfold node_store, acc_TokenByID. destruct (Z.ltb_spec (now - downAt a) liveLookupBackoff); [lia|].
  rewrite fetch_quiet, Ht by done. unfold TokenRecordOf. rewrite Hp. cbn. by rewrite (rows_key _ _ _ Ht).
Qed.

Lemma node_store_missing now later w a id :
  faults w = [] → liveLookupBackoff ≤ now - downAt a → rows (wTokens w) !! id = None →
  node_store now later w a id = Ok None.
Proof.
  intros Hf Hup Ht. unfold node_store, acc_TokenByID. destruct (Z.ltb_spec (now - downAt a) liveLookupBackoff); [lia|].
  unfold fetchToken, Token, mbind, M_bind. rewrite call_quiet by done. by rewrite find_missing.
Qed.

Lemma elem_of_ValidSerials id w serial :
  serial ∈ ValidSerials id (list_rows (wCerts w)) ↔
  serial ≠ "" ∧ ∃ c, rows (wCerts w) !! serial = Some c ∧ crTokenId c = id ∧ crRevoked c = false.
Proof.
  unfold ValidSerials. rewrite list_elem_of_fmap. setoid_rewrite elem_of_filterb. setoid_rewrite elem_of_list_rows.
  setoid_rewrite andb_true_iff. setoid_rewrite String.eqb_eq. setoid_rewrite negb_true_iff. split.
  - intros (c & -> & (Hne & k & Hk) & Ht & Hr). split; [done|]. exists c. by rewrite (rows_key _ _ _ Hk).
  - intros (Hne & c & Hc & Ht & Hr). exists c. rewrite (rows_key _ _ _ Hc). naive_solver.
Qed.
End manage.

(** ** Logging in *)

Lemma CertIdentity_issued id serial : CertIdentity (mkCert [tokenURIPrefix +:+ id] serial) = Some (id, serial).
Proof. unfold CertIdentity. cbn [URIs omap list_omap]. by rewrite (proj2 (CutPrefix_Some "l8tunnel:token:" _ id)). Qed.

Lemma ParseToken_nonempty token id secret : ParseToken token = Some (id, secret) → (id ≠ "") ∧ (token ≠ "").
Proof. intros (-> & Hid & _)%ParseToken_spec. split; [by intros ->|done]. Qed.

Lemma HasCertSerial_true rec serial : HasCertSerial rec serial = true ↔ serial ∈ CertSerials rec.
Proof.
  unfold HasCertSerial. rewrite existsb_exists. setoid_rewrite <-list_elem_of_In. setoid_rewrite String.eqb_eq. naive_solver.
Qed.

Section login.
Context {CR : Crypto} (store : TokenStore) (token id secret : string) (rec : TokenRecord).
Context (Htok : ParseToken token = Some (id, secret)) (Hrec : store id = Ok (Some rec)) (Hverify : Verify rec secret = true).

Lemma login_secret :
  authenticate store token None = if Auth.RequireCert (TPolicy rec) then Err errCertRequired else Ok rec.
Proof using Htok Hrec Hverify.
  unfold authenticate, verifyToken. destruct (ParseToken_nonempty _ _ _ Htok) as [_ Hne%String.eqb_neq].
  by rewrite Hne, Htok, Hrec, Hverify.
Qed.

Lemma login_cert serial (Hser : serial ∈ CertSerials rec) :
  authenticate store token (Some (mkCert [tokenURIPrefix +:+ id] serial)) = Ok rec ∧
  authenticate store "" (Some (mkCert [tokenURIPrefix +:+ id] serial)) = Ok rec.
Proof using Htok Hrec Hverify.
  unfold authenticate, verifyToken. destruct (ParseToken_nonempty _ _ _ Htok) as [_ Hne%String.eqb_neq].
  rewrite CertIdentity_issued, Hrec, (proj2 (HasCertSerial_true _ _) Hser), Hne, Htok, Hrec, Hverify. cbn.
  by rewrite String.eqb_refl.
Qed.
End login.

(** ** Issuing *)

Section issuing.
Context {GU : GoUnicode} {GF : GoFold} {CR : Crypto} {MR : MapRange} {X5 : X509}.
Context {STK : TableService tkTokenId} {SCR : TableService crCertId} {SGK : TableService gkKeyId} {TV : TableService vReservationId}.

Lemma issueToken_ok name description policy token hash now w w' id tok :
  issueToken name description policy token hash now w = (w', Ok (id, tok)) →
  tok = token ∧ wCerts w' = wCerts w ∧ ∃ secret h p t,
    ParseToken token = Some (id, secret) ∧ hash = Some h ∧ PolicyToAuth policy = Ok p ∧
    posted t (wTokens w) (wTokens w') ∧ tkTokenId t = id ∧ tkName t = name ∧ tkSecretHash t = h ∧ tkPolicy t = policy.
Proof.
  intros (w1 & p & [-> Hp]%lift_ok & Hk)%bind_ok. unfold NewTokenRecord in Hk.
  destruct (negb _); [done|]. destruct (Auth.Validate p); [|done].
  destruct (ParseToken token) as [[id' secret]|] eqn:Htok; [|done]. destruct hash as [h|]; [|done].
  apply bind_ok in Hk as (w2 & t & Hw & Hret). injection Hret as <- <- <-.
  apply token_post_ok in Hw as ((tab & l & ->) & Hpost & Hid & Hname & Hhash & Hpol). cbn in Hid, Hname, Hhash, Hpol.
  assert (GenerateID "" id' = id') as Hg by (unfold GenerateID; by destruct (String.eqb_spec id' "")).
  split_and!; [done..|]. exists secret, h, p, t. rewrite Hid, Hg. split_and!; done.
Qed.

Lemma issue_cert_ok {CA} id days (ca : option CA) serial leaf now w w' issued :
  id ≠ "" → issue_cert id days ca serial leaf now w = (w', Ok issued) →
  ∃ t n c, rows (wTokens w) !! id = Some t ∧ serial = Some n ∧ icCert issued = mkCert [tokenURIPrefix +:+ id] n ∧
    n ≠ "" ∧ wTokens w' = wTokens w ∧ posted c (wCerts w) (wCerts w') ∧ crCertId c = n ∧ crTokenId c = id ∧ crRevoked c = false.
Proof.
  intros Hid (w1 & t & (l & -> & ->)%call_ok & Hk)%bind_ok. change (wTokens (w <| faults := l |>)) with (wTokens w) in Hk.
  rewrite find_row in Hk by done. destruct (rows (wTokens w) !! id) as [t|] eqn:Ht; [|done]. destruct ca as [ca|]; [|done].
  apply bind_ok in Hk as (w2 & rec & [-> Hrec]%lift_ok & Hk). apply bind_ok in Hk as (w3 & cert & [-> His]%lift_ok & Hk).
  unfold TokenRecordOf in Hrec. destruct (PolicyToAuth _); [|done]. injection Hrec as <-.
  unfold Issue in His. destruct (_ || _); [done|]. destruct serial as [n|]; [|done]. injection His as <-.
  destruct (leaf _) as [[[[cn nb] na] fp]|]; [|done]. apply bind_ok in Hk as (w4 & c & Hw & [= <- <-]).
  apply cert_post_ok in Hw as ((tab & l' & ->) & Hpost & Hcid & Hctok & Hcrev & Hne). cbn in *.
  pose proof (rows_key _ _ _ Ht) as Hkey. exists t, n, c. rewrite Hkey in *. by split_and!.
Qed.

(** C36: an issued credential works. After TunIssue created a token with a new
ID, the plain text it answered lets an agent in at every relay that can ask the
backend, with the token's name and policy, unless the policy asks for a
certificate too; and once a certificate with a new serial was issued for it,
the certificate lets it in, with the token's text or without. *)
Theorem issued_agent_enters {CA} name description policy token h now w w1 id tok days (ca : option CA) serial leaf now2 w2 issued :
  issueToken name description policy token (Some h) now w = (w1, Ok (id, tok)) →
  rows (wTokens w) !! id = None →
  (∀ i secret, ParseToken token = Some (i, secret) → bcrypt_matches h secret = true) →
  issue_cert id days ca serial leaf now2 w1 = (w2, Ok issued) →
  rows (wCerts w1) !! Serial (icCert issued) = None →
  ∃ p, PolicyToAuth policy = Ok p ∧
  ∀ w' a now' later, faults w' = [] → liveLookupBackoff ≤ now' - downAt a →
    let store := node_store now' later w' a in
    let rec := mkToken id name h p (ValidSerials id (list_rows (wCerts w'))) in
    (wTokens w' = wTokens w1 → authenticate store tok None = if Auth.RequireCert p then Err errCertRequired else Ok rec) ∧
    (wTokens w' = wTokens w2 → wCerts w' = wCerts w2 →
     authenticate store tok (Some (icCert issued)) = Ok rec ∧ authenticate store "" (Some (icCert issued)) = Ok rec).
Proof.
  intros Hissue Hnew Hcrypt Hcert Hser.
  apply issueToken_ok in Hissue as (-> & _ & secret & h' & p & t & Htok & [= <-] & Hp & Hpost & Hid & Hname & Hhash & Hpol).
  destruct (ParseToken_nonempty _ _ _ Htok) as [Hne _].
  apply issue_cert_ok in Hcert as (t' & n & c & _ & _ & Hic & Hn & Htoks & Hcpost & Hcid & Hctok & Hcrev); [|done].
  rewrite Hic in *. cbn in Hser. apply posted_new in Hcpost; [|by rewrite Hcid]. apply posted_new in Hpost; [|by rewrite Hid].
  exists p. split; [done|]. intros w' a now' later Hf Hup. cbv zeta.
  assert (wTokens w' = wTokens w1 → node_store now' later w' a id =
    Ok (Some (mkToken id name h p (ValidSerials id (list_rows (wCerts w')))))) as Hstore.
  { intros Hw. rewrite <-Hname, <-Hhash. apply node_store_stored; [done..| |by rewrite Hpol].
    by rewrite Hw, Hpost, Hid, lookup_insert_eq. }
  split; [intros Hw; by apply (login_secret _ token id secret _ Htok (Hstore Hw)), (Hcrypt id)|].
  intros Hw Hc. apply (login_cert _ token id secret); [done|apply Hstore; congruence|by apply (Hcrypt id)|].
  cbn. apply elem_of_ValidSerials. split; [done|]. exists c. rewrite Hc, Hcpost, Hcid, lookup_insert_eq. done.
Qed.
End issuing.

(** ** A sample backend *)

#[local] Existing Instance ascii_only.

Module ManageSample.
#[export] Instance token_service : TableService tkTokenId | 100 := map_service tkTokenId (λ x _, x) (λ _ _ H, H).
#[export] Instance cert_service : TableService crCertId | 100 := map_service crCertId (λ x _, x) (λ _ _ H, H).
#[export] Instance key_service : TableService gkKeyId | 100 := map_service gkKeyId (λ x _, x) (λ _ _ H, H).
(** Hashes of the form of bcrypt's, which show the secret. *)
#[export] Instance open_crypto : Crypto | 100 := {|
  bcrypt_is_hash _ := true; bcrypt_matches h p := String.eqb h ("$2a$10$" +:+ p +:+ "0123456789"); sha256 s := s
|}.
Definition w0 : world := mkWorld ∅ ∅ ∅ ∅ [] [] [].
Definition secret : string := "0123456789012345678901234567890123456789abc".
Definition hash : string := "$2a$10$" +:+ secret +:+ "0123456789".
Definition tokenA : string := "l8t_aaaaaaaa_" +:+ secret.
Definition policy : option TunTokenPolicy := Some (mkTokenPolicy ["web-*"] [TUN_TUNNEL_TYPE_HTTP] 3 "" true []).
Definition now : Z := 1000 * second.
Definition w1 : world := (issueToken "shop" "" policy tokenA (Some hash) now w0).1.
Definition leaf (i : IssuedCert (CA := unit)) : option (string * Z * Z * string) := Some ("shop", 0, 100, "ab").
Definition w2 : world := (issue_cert "aaaaaaaa" 0 (Some tt) (Some "77") leaf now w1).1.
Definition issued : IssuedCert (CA := unit) := mkIssued (mkCert [tokenURIPrefix +:+ "aaaaaaaa"] "77") tt 365.
End ManageSample.
Import ManageSample.

(** The agent with its certificate is let in, without it it is asked for one. *)
Lemma issued_agent_enters_witness :
  let store := node_store now now w2 (newAccounts None) in
  authenticate store tokenA None = Err errCertRequired ∧ is_ok (authenticate store tokenA (Some (icCert issued))) = true.
Proof.
  destruct (issued_agent_enters "shop" "" policy tokenA hash now w0 w1 "aaaaaaaa" tokenA 0 (Some tt) (Some "77") leaf now w2 issued)
    as (p & Hp & Hstore); [reflexivity..| | | |].
  - intros i s Htok. vm_compute in Htok. injection Htok as _ <-. vm_compute. reflexivity.
  - reflexivity.
  - reflexivity.
  - destruct (Hstore w2 (newAccounts None) now now) as [Htok Hcert]; [reflexivity|discriminate|].
    cbv in Hp. injection Hp as <-. split.
    + rewrite Htok; reflexivity.
    + destruct Hcert as [-> _]; reflexivity.
Defined.
