(* ===== verification/ImportSpec.v ===== *)
(** * Moving a standalone relay's agents into the cluster: theorems

The export of a relay's database, imported by TunIssue: every token of it is
answered by the cluster's relays as the standalone relay answered it, so its
agents log in as before. *)

From S2P Require Import Prelude GoStrings Regex Protocol PathMatch Policy NetIP Access Claims EdgeConf NameRegistry RelayTunnels RelayServe.
From S2P Require Import RelayServeSpec Store StoreSpec Reservations Manage Certs ServerConf EdgeDomains RelayNode ManageSpec.
From stdpp Require Import options.
#[local] Open Scope l8_scope.
#[local] Open Scope Z_scope.
Import Rules.

(** ** Policies *)

(** What an import makes of a policy: the limit is a 32-bit number there. *)
Definition int32_policy (p : Auth.Policy) : Auth.Policy :=
  Auth.mkPolicy (Auth.Names p) (Auth.Types p) (int32 (Auth.MaxTunnels p)) (Auth.Ports p) (Auth.RequireCert p) (Auth.Domains p).

Lemma int32_policy_fits p : - 2 ^ 31 ≤ Auth.MaxTunnels p < 2 ^ 31 → int32_policy p = p.
Proof. intros Hm. unfold int32_policy, int32. rewrite Z.mod_small by lia. destruct p. cbn. f_equal. lia. Qed.

Lemma TypeName_of name t : TunnelTypeOf name = Some t → TypeName t = name ∧ String.eqb name "" = false.
Proof.
  unfold TunnelTypeOf. intros ([t' n] & Hf & ->)%fmap_Some. apply List.find_some in Hf as [Hin Hn].
  apply String.eqb_eq in Hn. cbn in Hn. subst n. cbn in Hin. destruct_or! Hin; try done; by injection Hin as <- <-.
Qed.

Lemma policy_imported p q : PolicyFromAuth p = Ok q → PolicyToAuth (Some q) = Ok (int32_policy p).
Proof.
  unfold PolicyFromAuth. destruct (mapR _ (Auth.Types p)) as [ts|e] eqn:Hts; [|done]. intros [= <-].
  cbn [PolicyToAuth plTypes plNames plMaxTunnels plPorts plRequireCert plDomains].
  assert (mapR (λ t, if String.eqb (TypeName t) "" then Err (InvalidTunnelType t) else Ok (TypeName t)) ts = Ok (Auth.Types p)) as ->; [|done].
  revert ts Hts. induction (Auth.Types p) as [|n ns IH]; intros ts Hts; cbn [mapR] in Hts.
  - by injection Hts as <-.
  - destruct (TunnelTypeOf n) as [t|] eqn:Ht; [|done]. destruct (mapR _ ns) as [ts'|] eqn:Hns; [|done].
    injection Hts as <-. apply TypeName_of in Ht as [Hn He]. cbn [mapR]. rewrite Hn, He, (IH ts'); done.
Qed.

(** ** Agents in two stores *)

(** The same token: its limit cut to 32 bits, its serials in any order. *)
Definition same_agent (r r' : TokenRecord) : Prop :=
  ID r' = ID r ∧ TName r' = TName r ∧ Hash r' = Hash r ∧ TPolicy r' = int32_policy (TPolicy r) ∧
  ∀ serial, serial ∈ CertSerials r' ↔ serial ∈ CertSerials r.

Definition same_answer (a a' : result unit (option TokenRecord)) : Prop :=
  match a, a' with
  | Ok None, Ok None => True
  | Ok (Some r), Ok (Some r') => same_agent r r'
  | _, _ => False
  end.

Definition same_login (a a' : result auth_err TokenRecord) : Prop :=
  match a, a' with
  | Ok r, Ok r' => same_agent r r'
  | Err e, Err e' => e = e'
  | _, _ => False
  end.

(** The token IDs an agent's token and certificate name. *)
Definition names_id (tok : string) (peer : option Certificate) (id : string) : Prop :=
  (∃ secret, ParseToken tok = Some (id, secret)) ∨ (∃ cert serial, peer = Some cert ∧ CertIdentity cert = Some (id, serial)).

Section agree.
Context {CR : Crypto} (store store' : TokenStore).

Lemma verify_agree tok :
  (∀ id secret, ParseToken tok = Some (id, secret) → same_answer (store id) (store' id)) →
  same_login (verifyToken store tok) (verifyToken store' tok).
Proof.
  intros Hsame. unfold verifyToken. destruct (ParseToken tok) as [[id secret]|]; [|done].
  specialize (Hsame id secret eq_refl). unfold same_answer in Hsame.
  destruct (store id) as [[r|]|], (store' id) as [[r'|]|]; try done.
  unfold Verify. pose proof Hsame as (_ & _ & -> & _). by destruct (bcrypt_matches _ _).
Qed.

Lemma HasCertSerial_agree r r' serial : same_agent r r' → HasCertSerial r' serial = HasCertSerial r serial.
Proof.
  intros (_ & _ & _ & _ & Hs). apply eq_true_iff_eq. by rewrite !HasCertSerial_true.
Qed.

Lemma authenticate_agree tok peer :
  (∀ id, names_id tok peer id → same_answer (store id) (store' id)) →
  same_login (authenticate store tok peer) (authenticate store' tok peer).
Proof.
  intros Hsame. unfold authenticate.
  assert (same_login (verifyToken store tok) (verifyToken store' tok)) as Hv.
  { apply verify_agree. intros id secret Htok. apply Hsame. left. eauto. }
  destruct peer as [cert|].
  - destruct (CertIdentity cert) as [[id serial]|] eqn:Hc; [|done].
    assert (same_answer (store id) (store' id)) as Ha by (apply Hsame; right; eauto).
    unfold same_answer in Ha. destruct (store id) as [[r|]|], (store' id) as [[r'|]|]; try done.
    rewrite (HasCertSerial_agree r r') by done. destruct (HasCertSerial r serial); [|done].
    destruct (String.eqb tok ""); [done|]. unfold same_login in Hv.
    destruct (verifyToken store tok) as [v|], (verifyToken store' tok) as [v'|]; try done.
    cbn. rewrite (proj1 Ha), (proj1 Hv). by destruct (negb _).
  - destruct (String.eqb tok ""); [done|]. unfold same_login in Hv.
    destruct (verifyToken store tok) as [v|], (verifyToken store' tok) as [v'|]; try done.
    pose proof Hv as (_ & _ & _ & Hp & _). rewrite Hp. cbn. by destruct (Auth.RequireCert _).
Qed.
End agree.

(** ** Importing tokens *)

(** The row of an imported token. *)
Definition row_of (rec : TokenRecord) (t : TunToken) : Prop :=
  tkName t = TName rec ∧ tkSecretHash t = Hash rec ∧ PolicyToAuth (tkPolicy t) = Ok (int32_policy (TPolicy rec)).

Section import.
Context {GU : GoUnicode} {GF : GoFold} {CR : Crypto} {MR : MapRange} {X5 : X509}.
Context {STK : TableService tkTokenId} {SCR : TableService crCertId} {SGK : TableService gkKeyId} {TV : TableService vReservationId}.

(** The certificate row of a serial of the token. *)
Definition serial_row (id serial : string) (w : world) : Prop :=
  serial ≠ "" ∧ ∃ c, rows (wCerts w) !! serial = Some c ∧ crTokenId c = id ∧ crRevoked c = false.

Lemma import_serials id now ss w w' :
  NoDup ss → (∀ s, s ∈ ss → rows (wCerts w) !! s = None) → each (import_serial id now) ss w = (w', Ok tt) →
  wTokens w' = wTokens w ∧ (∀ s, s ∈ ss → serial_row id s w') ∧ (∀ s, s ∉ ss → rows (wCerts w') !! s = rows (wCerts w) !! s).
Proof.
  revert w. induction ss as [|s ss IH]; intros w Hnd Hnew Hrun; cbn [each] in Hrun.
  { injection Hrun as <-. split_and!; [done|by intros ? ?%elem_of_nil|done]. }
  apply NoDup_cons in Hnd as [Hs Hnd]. apply bind_ok in Hrun as (w1 & [] & Hone & Hrest). unfold import_serial in Hone.
  apply bind_ok in Hone as (w2 & ex & (l & -> & ->)%call_ok & Hone). cbn in Hone.
  rewrite bool_decide_eq_false_2 in Hone by (rewrite Hnew by left; by intros [? ?]).
  apply bind_ok in Hone as (w3 & c & Hw & [= <-]). apply cert_post_ok in Hw as ((tab & l' & Hw1) & Hpost & Hcid & Hctok & Hcrev & Hne).
  cbn in Hcid, Hctok, Hcrev, Hne. apply posted_new in Hpost; [|rewrite Hcid; apply Hnew; left].
  rewrite Hcid in Hpost. cbn in Hpost. destruct (IH w3) as (Ht & Hin & Hout); [done| |done|].
  { intros s' Hs'. rewrite Hpost, lookup_insert_ne by (by intros ->). apply Hnew. by right. }
  split_and!.
  - by rewrite Ht, Hw1.
  - intros s' [->|Hs']%elem_of_cons; [|by apply Hin]. split; [done|]. exists c. rewrite Hout, Hpost, lookup_insert_eq by done. done.
  - intros s' [Hne' Hs']%not_elem_of_cons. by rewrite Hout, Hpost, lookup_insert_ne.
Qed.

Lemma import_token_ok now created rec w w' b :
  NoDup (CertSerials rec) → (∀ s, s ∈ CertSerials rec → rows (wCerts w) !! s = None) → ID rec ≠ "" →
  rows (wTokens w) !! ID rec = None → import_token now created rec w = (w', Ok b) →
  (∃ t, row_of rec t ∧ rows (wTokens w') = <[ID rec := t]> (rows (wTokens w))) ∧
  (∀ s, s ∈ CertSerials rec → serial_row (ID rec) s w') ∧ (∀ s, s ∉ CertSerials rec → rows (wCerts w') !! s = rows (wCerts w) !! s).
Proof.
  intros Hnd Hnew Hid Hno (w1 & q & [-> Hq]%lift_ok & Hk)%bind_ok. apply bind_ok in Hk as (w2 & ex & (l & -> & ->)%call_ok & Hk).
  cbn in Hk. rewrite bool_decide_eq_false_2 in Hk by (rewrite Hno; by intros [? ?]).
  apply bind_ok in Hk as (w3 & b' & Hw & Hk). apply bind_ok in Hw as (w3' & t & Hw & Hret). injection Hret as <- <-.
  apply token_post_ok in Hw as ((tab & l' & Hw1) & Hpost & Htid & Hname & Hhash & Hpol). cbn in Htid, Hname, Hhash, Hpol.
  apply bind_ok in Hk as (w4 & [] & Hser & Hret). injection Hret as <- _.
  assert (tkTokenId t = ID rec) as Hkey by (rewrite Htid; unfold GenerateID; by rewrite (proj2 (String.eqb_neq _ _) Hid)).
  apply posted_new in Hpost; [|by rewrite Hkey]. rewrite Hkey in Hpost. cbn in Hpost.
  assert (wCerts w3' = wCerts w) as Hc by by rewrite Hw1.
  apply import_serials in Hser as (Ht & Hin & Hout); [|done|by rewrite Hc].
  split_and!; [|done|by rewrite <-Hc]. exists t. rewrite Ht, Hpost. split; [|done]. split_and!; [done..|].
  rewrite Hpol. by apply policy_imported.
Qed.

(** The backend [w] has the tokens of [done], besides what [w0] had. *)
Record imported (w0 : world) (done : list TokenRecord) (w : world) : Prop := {
  im_token rec : rec ∈ done → ∃ t, rows (wTokens w) !! ID rec = Some t ∧ row_of rec t;
  im_other id : id ∉ ID <$> done → rows (wTokens w) !! id = rows (wTokens w0) !! id;
  im_serial rec serial : rec ∈ done → serial ∈ CertSerials rec → serial_row (ID rec) serial w;
  im_cert serial : serial ∉ (done ≫= CertSerials) → rows (wCerts w) !! serial = rows (wCerts w0) !! serial;
}.

(** Tokens that can be imported into [w0]: with IDs and serials of their own,
which it does not know. *)
Record importable (w0 : world) (toks : list TokenRecord) : Prop := {
  ip_ids : NoDup (ID <$> toks);
  ip_serials : NoDup (toks ≫= CertSerials);
  ip_named rec : rec ∈ toks → ID rec ≠ "";
  ip_new rec : rec ∈ toks → rows (wTokens w0) !! ID rec = None;
  ip_unused rec serial : rec ∈ toks → serial ∈ CertSerials rec → rows (wCerts w0) !! serial = None;
  ip_owned serial c : rows (wCerts w0) !! serial = Some c → is_Some (rows (wTokens w0) !! crTokenId c);
}.

Lemma import_one w0 now created done rec rest w w' b :
  importable w0 (done ++ rec :: rest) → imported w0 done w → import_token now created rec w = (w', Ok b) →
  imported w0 (done ++ [rec]) w'.
Proof.
  intros Hip Him Hrun. pose proof (ip_ids _ _ Hip) as Hids. pose proof (ip_serials _ _ Hip) as Hsers.
  assert (rec ∈ done ++ rec :: rest) as Hrec by (apply elem_of_app; right; left).
  rewrite fmap_app, fmap_cons, NoDup_app in Hids. destruct Hids as (_ & Hids & _).
  rewrite bind_app, NoDup_app in Hsers. destruct Hsers as (_ & Hsers & Hsers').
  rewrite bind_cons, NoDup_app in Hsers'. destruct Hsers' as (Hsers' & _).
  assert (ID rec ∉ ID <$> done) as Hid by (intros Hin; apply (Hids _ Hin); left).
  assert (∀ s, s ∈ CertSerials rec → s ∉ (done ≫= CertSerials)) as Hser.
  { intros s Hs Hin. apply (Hsers _ Hin). rewrite bind_cons, elem_of_app. by left. }
  apply import_token_ok in Hrun as ((t & Hrow & Htok) & Hin & Hout); [|done| |by eapply ip_named| ].
  - split.
    + intros r [Hr|Hr%list_elem_of_singleton]%elem_of_app; [|subst r; by exists t; rewrite Htok, lookup_insert_eq].
      destruct (im_token _ _ _ Him r Hr) as (t' & Ht' & ?). exists t'. split; [|done]. rewrite Htok, lookup_insert_ne; [done|].
      intros Heq. apply Hid. rewrite Heq. by apply list_elem_of_fmap_2.
    + intros id. rewrite fmap_app, not_elem_of_app. intros [Hd Hne%not_elem_of_cons]. destruct Hne as [Hne _].
      rewrite Htok, lookup_insert_ne by done. by apply (im_other _ _ _ Him).
    + intros r s [Hr|Hr%list_elem_of_singleton]%elem_of_app Hs; [|subst r; by apply Hin].
      destruct (im_serial _ _ _ Him r s Hr Hs) as (Hne & c & Hc & ?). split; [done|]. exists c. rewrite Hout; [done|].
      intros Hs'. apply (Hser _ Hs'). apply list_elem_of_bind. eauto.
    + intros s. rewrite bind_app, not_elem_of_app. intros [Hd Hs]. rewrite Hout.
      * by apply (im_cert _ _ _ Him).
      * intros Hs'. apply Hs. cbn. by rewrite app_nil_r.
  - intros s Hs. rewrite (im_cert _ _ _ Him) by (by apply Hser). by eapply ip_unused.
  - rewrite (im_other _ _ _ Him) by done. by eapply ip_new.
Qed.

Lemma import_all w0 now created toks i n done w w' m :
  importable w0 (done ++ toks) → imported w0 done w →
  count_each (λ _ rec, import_token now created rec) i toks n w = (w', Ok m) → imported w0 (done ++ toks) w'.
Proof.
  revert i n done w. induction toks as [|rec toks IH]; intros i n done w Hip Him Hrun; cbn [count_each] in Hrun.
  { injection Hrun as <- _. by rewrite app_nil_r. }
  apply bind_ok in Hrun as (w1 & b & Hone & Hrest). replace (done ++ rec :: toks) with ((done ++ [rec]) ++ toks) in *
    by by rewrite <-app_assoc. eapply IH; [done| |done]. eapply import_one; [|done..]. by rewrite <-app_assoc in Hip.
Qed.

(** What a relay is told of a token the import brought. *)
Lemma imported_answer w0 toks w w' rec now later a :
  importable w0 toks → imported w0 toks w → rec ∈ toks → wTokens w' = wTokens w → wCerts w' = wCerts w →
  faults w' = [] → liveLookupBackoff ≤ now - downAt a →
  ∃ r, node_store now later w' a (ID rec) = Ok (Some r) ∧ same_agent rec r.
Proof.
  intros Hip Him Hrec Ht Hc Hf Hup. destruct (im_token _ _ _ Him rec Hrec) as (t & Hrow & Hn & Hh & Hp).
  eexists. split; [apply node_store_stored; [done|by eapply ip_named|done|by rewrite Ht|done]|].
  split_and!; [done..|]. intros serial. cbn. rewrite elem_of_ValidSerials, Hc. split.
  - intros (Hne & c & Hc' & Htok & Hrev). destruct (decide (serial ∈ (toks ≫= CertSerials))) as [Hin|Hout].
    + apply list_elem_of_bind in Hin as (rec' & Hs & Hrec'). destruct (im_serial _ _ _ Him _ _ Hrec' Hs) as (_ & c' & Hc'' & Htok' & _).
      assert (ID rec' = ID rec) as Hid by congruence. by rewrite <-(NoDup_fmap_inj_on ID toks rec' rec (ip_ids _ _ Hip) Hrec' Hrec Hid).
    + rewrite (im_cert _ _ _ Him) in Hc' by done. apply (ip_owned _ _ Hip) in Hc' as [t' Ht']. rewrite Htok in Ht'.
      by rewrite (ip_new _ _ Hip rec Hrec) in Ht'.
  - intros Hs. by apply (im_serial _ _ _ Him).
Qed.

Lemma import_reservation_keeps rules fresh now r w : keeps_credentials w (import_reservation rules fresh now r w).1.
Proof.
  apply bind_keeps; [apply call_keeps|]. intros [] w'; [done|]. apply bind_keeps; [apply reservation_write_keeps|done].
Qed.
Lemma import_key_keeps ParseAuthorizedKey fresh now k w : keeps_credentials w (import_key ParseAuthorizedKey fresh now k w).1.
Proof.
  apply bind_keeps; [apply call_keeps|]. intros [] w'; [done|]. apply bind_keeps; [apply key_write_keeps|done].
Qed.

Lemma importExport_ok rules ParseAuthorizedKey exp fresh now w w' n :
  importable w (exTokens exp) → importExport rules ParseAuthorizedKey (Some exp) fresh now w = (w', Ok n) →
  imported w (exTokens exp) w'.
Proof.
  intros Hip (w1 & e & [-> He]%lift_ok & Hk)%bind_ok. unfold ParseExport in He. destruct (negb _); [done|]. injection He as <-.
  apply bind_ok in Hk as (w2 & n1 & Htoks & Hk).
  assert (imported w (exTokens exp) w2) as Him.
  { apply (import_all w now (unix now) (exTokens exp) 0 0 [] w w2 n1); [done| |done].
    split; [by intros ? ?%elem_of_nil|done|by intros ? ? ?%elem_of_nil|done]. }
  assert (keeps_credentials w2 w') as [Ht Hc].
  { match type of Hk with ?m w2 = _ => assert (∀ w, keeps_credentials w (m w).1) as Hkeep end.
    - intros w3. apply bind_keeps.
      + intros w4. apply count_keeps. intros i r w5. by apply import_reservation_keeps.
      + intros resv. apply bind_keeps; [|done]. intros w4. apply count_keeps. intros i k w5. by apply import_key_keeps.
    - specialize (Hkeep w2). by rewrite Hk in Hkeep. }
  destruct Him as [Him1 Him2 Him3 Him4].
  split; [by rewrite Ht|by rewrite Ht|unfold serial_row in *; by rewrite Hc|by rewrite Hc].
Qed.

(** C11: a standalone relay's agents keep working. When the export of a relay's
database is imported into a cluster that knows neither its token IDs nor its
certificates' serials, every agent (that does not name a token the cluster had
before) is let in by the cluster's relays exactly as by the standalone relay,
with its secret, its certificate or both, as the same token with the same
policy, and is refused with the same error otherwise. The limit on tunnels is
cut to 32 bits, so the policy is the same when the limit fits. *)
Theorem import_keeps_agents rules ParseAuthorizedKey s exp fresh now w w' n :
  store_ok s → export s = Ok exp → importable w (exTokens exp) →
  importExport rules ParseAuthorizedKey (Some exp) fresh now w = (w', Ok n) →
  ∀ w2 a now' later tok peer,
    wTokens w2 = wTokens w' → wCerts w2 = wCerts w' → faults w2 = [] → liveLookupBackoff ≤ now' - downAt a →
    (∀ id, names_id tok peer id → rows (wTokens w) !! id = None) →
    let alone := authenticate (token_store s) tok peer in
    let cluster := authenticate (node_store now' later w2 a) tok peer in
    same_login alone cluster ∧
    ∀ r r', alone = Ok r → cluster = Ok r' → - 2 ^ 31 ≤ Auth.MaxTunnels (TPolicy r) < 2 ^ 31 → TPolicy r' = TPolicy r.
Proof.
  intros Hs Hexp Hip Hrun w2 a now' later tok peer Ht Hc Hf Hup Hnames alone cluster. apply importExport_ok in Hrun as Him; [|done].
  unfold export in Hexp. destruct (listed_ok _ _ _ (so_tokens s Hs)) as (toks & Htoks & _ & _ & Hin).
  unfold Store.Tokens in Hexp. rewrite Htoks in Hexp. cbn in Hexp. destruct (Reservations s) as [rs|]; [|done].
  destruct (GatewayKeys s) as [ks|]; [|done]. injection Hexp as <-. cbn in Hip, Him.
  enough (same_login alone cluster) as Hsame.
  { split; [done|]. intros r r' Ha Hc' Hm. rewrite Ha, Hc' in Hsame. destruct Hsame as (_ & _ & _ & -> & _). by apply int32_policy_fits. }
  apply authenticate_agree. intros id Hid. unfold token_store. destruct (TokenByID s id) as [[rec|]|e] eqn:Hrec.
  - apply TokenByID_Some in Hrec; [|done]. apply (keyed_listed _ _ _ _ _ _ (so_tokens s Hs) Hin) in Hrec as [Hrec <-].
    by destruct (imported_answer w toks w' w2 rec now' later a Hip Him Hrec Ht Hc Hf Hup) as (r & -> & ?).
  - apply TokenByID_None in Hrec; [|done]. rewrite node_store_missing; [done..|].
    rewrite Ht, (im_other _ _ _ Him); [by apply Hnames|]. intros (rec & -> & Hr%Hin)%list_elem_of_fmap. by rewrite Hr in Hrec.
  - unfold TokenByID in Hrec. destruct (bucketTokens s !! id) as [d|] eqn:Hd; [|done].
    by destruct (kd_key _ _ _ (so_tokens s Hs) _ _ Hd) as (r & -> & _).
Qed.
End import.

(** ** A sample import *)

#[local] Existing Instance ascii_only.
Import ManageSample.

Module ImportSample.
Definition rec : TokenRecord := mkToken "aaaaaaaa" "shop" hash (Auth.mkPolicy ["web-*"] ["http"] 3 "" false []) ["77"].
Definition s : Store := (AddToken rec Open).1.
Definition rules : Rules := mkRules "t.example" "control.t.example" "" [] 2000 2010.
Definition run : world * result issue_err (Z * Z * Z) :=
  importExport rules (λ _, None) (Some (mkExport 1 [rec] [] [])) (λ _, "x") now w0.
End ImportSample.
Import ImportSample.

Lemma import_keeps_agents_witness :
  let alone := authenticate (token_store s) tokenA None in
  let cluster := authenticate (node_store now now run.1 (newAccounts None)) tokenA None in
  is_ok alone = true ∧ same_login alone cluster ∧
  ∀ r r', alone = Ok r → cluster = Ok r' → -2 ^ 31 ≤ Auth.MaxTunnels (TPolicy r) < 2 ^ 31 → TPolicy r' = TPolicy r.
Proof.
  split; [reflexivity|].
  apply (import_keeps_agents rules (λ _, None) s (mkExport 1 [rec] [] []) (λ _, "x") now w0 run.1 (1, 0, 0)).
  - exact (run_op_ok (CA := unit) (λ _ _, None) (λ _, None) Open (OpAddToken rec) Open_ok).
  - reflexivity.
  - split.
    + cbn. apply NoDup_singleton.
    + cbn. apply NoDup_singleton.
    + intros r Hr%list_elem_of_singleton. by subst r.
    + intros r Hr%list_elem_of_singleton. subst r. reflexivity.
    + intros r serial Hr%list_elem_of_singleton Hs. subst r. apply list_elem_of_singleton in Hs as ->. reflexivity.
    + intros serial c Hc. discriminate Hc.
  - reflexivity.
  - reflexivity.
  - reflexivity.
  - reflexivity.
  - discriminate.
  - intros id _. destruct id; reflexivity.
Defined.

(** ** What an import does not take *)

(** A policy with a type in upper case is valid for the standalone relay, but
stops the import. *)
Lemma import_refuses_upper_case :
  let p := Auth.mkPolicy [] ["HTTP"] 0 "" false [] in
  Auth.Validate p = Ok tt ∧ PolicyFromAuth p = Err (UnknownType "HTTP").
Proof. split; reflexivity. Qed.

(** A limit of 2^32 tunnels is valid, and imported as none. *)
Lemma import_lifts_limit :
  let p := Auth.mkPolicy [] [] (2 ^ 32) "" false [] in
  Auth.Validate p = Ok tt ∧ match PolicyFromAuth p with Ok q => plMaxTunnels q = 0 | Err _ => False end.
Proof. split; reflexivity. Qed.
