(* ===== verification/RevokeSpec.v ===== *)
(** * Revoking a token in the cluster: theorems

Revoking deletes the token with its certificates and reservations and tells the
relays; a relay that was told closes the token's sessions and never lets it in
again, whatever it looks up, refreshes or is told afterwards, as long as it
runs. *)

From Stdlib Require Import QArith.
From S2P Require Import Prelude GoStrings Regex Protocol PathMatch Policy NetIP Access Claims EdgeConf NameRegistry RelayTunnels RelayServe.
From S2P Require Import Limiter NameRegistryInv NameRegistrySpec RelayServeSpec Store StoreSpec Reservations LiveView Manage Certs ServerConf EdgeDomains RelayNode ManageSpec.
From stdpp Require Import options.
#[local] Open Scope l8_scope.
#[local] Open Scope Z_scope.
Import Rules.

(** ** Deleting the rows of a token *)

Section deletes.
Context {STK : TableService tkTokenId} {SCR : TableService crCertId} {SGK : TableService gkKeyId} {TV : TableService vReservationId}.
Context {T : Type} {key : T → string} {TS : TableService key}.
Context (get : world → table key) (set : table key → world → world) (R : world → world → Prop) `{!PreOrder R}.
Context (get_set : ∀ tab w, get (set tab w) = tab) (get_faults : ∀ l w, get (w <| faults := l |>) = get w).
Context (R_set : ∀ tab w, R w (set tab w)) (R_faults : ∀ l w, R w (w <| faults := l |>)).

Lemma delete_row_ok k w w' : delete_row get set k w = (w', Ok tt) → rows (get w') = delete k (rows (get w)) ∧ R w w'.
Proof using Type*.
  intros (w1 & [] & (l & -> & _)%call_ok & Hk)%bind_ok. unfold act in Hk.
  destruct (svcDelete k _) as [tab [why|]] eqn:Hd; [done|]. injection Hk as <-. apply svcDelete_ok in Hd.
  rewrite get_faults in Hd. rewrite get_set. split; [done|]. etrans; [apply R_faults|apply R_set].
Qed.

Lemma delete_owned (owner : T → string) id l i n w w' m :
  count_each (λ _ c, if negb (String.eqb (owner c) id) then mret false
                     else _ ← delete_row get set (key c); mret true) i l n w = (w', Ok m) →
  R w w' ∧
  (∀ c, c ∈ l → owner c = id → rows (get w') !! key c = None) ∧
  (∀ k, (∀ c, c ∈ l → owner c = id → key c ≠ k) → rows (get w') !! k = rows (get w) !! k) ∧
  (∀ k, rows (get w) !! k = None → rows (get w') !! k = None).
Proof using Type*.
  revert i n w. induction l as [|c l IH]; intros i n w Hrun; cbn [count_each] in Hrun.
  { injection Hrun as <- _. split_and!; [done|by intros ? ?%elem_of_nil|done..]. }
  apply bind_ok in Hrun as (w1 & b & Hone & Hrest). apply IH in Hrest as (HR & Hin & Hout & Hno).
  destruct (String.eqb_spec (owner c) id) as [Ho|Ho]; cbn [negb] in Hone.
  - apply bind_ok in Hone as (w2 & [] & Hdel & Hret). injection Hret as <- _. apply delete_row_ok in Hdel as [Hdel HR'].
    split_and!.
    + by etrans.
    + intros c' [->|Hc']%elem_of_cons Hc''; [|by apply Hin]. apply Hno. by rewrite Hdel, lookup_delete_eq.
    + intros k Hk. rewrite Hout, Hdel, lookup_delete_ne; [done| |].
      * apply Hk; [left|done].
      * intros c' Hc'. apply Hk. by right.
    + intros k Hk. apply Hno. rewrite Hdel. by apply lookup_delete_None; right.
  - injection Hone as <- _. split_and!; [done| |intros k Hk; apply Hout; intros c' Hc'; apply Hk; by right|done].
    intros c' [->|Hc']%elem_of_cons Hc''; [done|by apply Hin].
Qed.
End deletes.

Section revoking.
Context {GU : GoUnicode} {GF : GoFold} {CR : Crypto} {MR : MapRange} {X5 : X509}.
Context {STK : TableService tkTokenId} {SCR : TableService crCertId} {SGK : TableService gkKeyId} {TV : TableService vReservationId}.

(** What a delete of a token, and the loops over certificates and reservations, leave. *)
Definition keeps_but_tokens (w w' : world) : Prop := wCerts w' = wCerts w ∧ wResv w' = wResv w ∧ wPushed w' = wPushed w.
Definition keeps_but_certs (w w' : world) : Prop := wTokens w' = wTokens w ∧ wResv w' = wResv w ∧ wPushed w' = wPushed w.
Definition keeps_but_resv (w w' : world) : Prop := wTokens w' = wTokens w ∧ wCerts w' = wCerts w ∧ wPushed w' = wPushed w.
#[local] Instance keeps_but_tokens_po : PreOrder keeps_but_tokens.
Proof. split; [done|]. intros w1 w2 w3 (? & ? & ?) (? & ? & ?). repeat split; congruence. Qed.
#[local] Instance keeps_but_certs_po : PreOrder keeps_but_certs.
Proof. split; [done|]. intros w1 w2 w3 (? & ? & ?) (? & ? & ?). repeat split; congruence. Qed.
#[local] Instance keeps_but_resv_po : PreOrder keeps_but_resv.
Proof. split; [done|]. intros w1 w2 w3 (? & ? & ?) (? & ? & ?). repeat split; congruence. Qed.

(** The rows of the token [id] are gone and all others stay. *)
Definition cleared {T} {key : T → string} `{!TableService key} (owner : T → string) (id : string) (t t' : table key) : Prop :=
  ∀ k x, k ≠ "" → rows t' !! k = Some x ↔ rows t !! k = Some x ∧ owner x ≠ id.

Lemma cleared_rows {T} {key : T → string} `{!TableService key} (owner : T → string) id (t t' : table key) :
  (∀ c, c ∈ list_rows t → owner c = id → rows t' !! key c = None) →
  (∀ k, (∀ c, c ∈ list_rows t → owner c = id → key c ≠ k) → rows t' !! k = rows t !! k) →
  (∀ k, rows t !! k = None → rows t' !! k = None) → cleared owner id t t'.
Proof using MR.
  intros Hin Hout Hno k x Hk. destruct (rows t !! k) as [y|] eqn:Hy.
  - pose proof (rows_key _ _ _ Hy) as Hkey. destruct (decide (owner y = id)) as [Ho|Ho].
    + assert (y ∈ list_rows t) as Hl by (apply elem_of_list_rows; split; [congruence|eauto]).
      rewrite <-Hkey, (Hin y Hl Ho). naive_solver.
    + rewrite Hout, Hy; [naive_solver|]. intros c (_ & k' & Hk')%elem_of_list_rows Hc Heq.
      pose proof (rows_key _ _ _ Hk') as Hkk. rewrite Heq in Hkk. subst k'. congruence.
  - rewrite Hno by done. naive_solver.
Qed.

Lemma revoke_result id w w' n :
  revoke id w = (w', Ok n) →
  id ≠ "" ∧ rows (wTokens w') = delete id (rows (wTokens w)) ∧
  cleared crTokenId id (wCerts w) (wCerts w') ∧ cleared vTokenId id (wResv w) (wResv w') ∧
  wPushed w' = wPushed w ++ [PushToken true (empty_token id)].
Proof.
  intros (w1 & tok & (l & -> & ->)%call_ok & Hk)%bind_ok. change (wTokens (w <| faults := l |>)) with (wTokens w) in Hk.
  destruct (List.find _ _) as [t|] eqn:Hf; [|done]. apply List.find_some in Hf as [Hin%list_elem_of_In Hid].
  apply String.eqb_eq in Hid. apply elem_of_list_rows in Hin as [Hne _]. rewrite Hid in *. split; [done|].
  apply bind_ok in Hk as (w2 & [] & Hdel & Hk).
  apply (delete_row_ok wTokens (λ t w, w <| wTokens := t |>) keeps_but_tokens) in Hdel as (Htoks & Hc2 & Hr2 & Hp2); [|done..].
  apply bind_ok in Hk as (w3 & [] & Hpush & Hk). injection Hpush as <-.
  apply bind_ok in Hk as (w4 & certs & (l4 & -> & ->)%call_ok & Hk). cbn in Hk.
  apply bind_ok in Hk as (w5 & n5 & Hcerts & Hk).
  apply (delete_owned wCerts (λ t w, w <| wCerts := t |>) keeps_but_certs) in Hcerts as ((Ht5 & Hr5 & Hp5) & Hin5 & Hout5 & Hno5);
    [|done..]. apply bind_ok in Hk as (w6 & resv & (l6 & -> & ->)%call_ok & Hk). apply bind_ok in Hk as (w7 & n7 & Hresv & Hret).
  injection Hret as <- _.
  apply (delete_owned wResv (λ t w, w <| wResv := t |>) keeps_but_resv) in Hresv as ((Ht7 & Hc7 & Hp7) & Hin7 & Hout7 & Hno7); [|done..].
  cbn in *. unfold ReservationRows in *. rewrite Hc2 in *. rewrite Hr5, Hr2 in *. split_and!.
  - by rewrite Ht7, Ht5.
  - rewrite Hc7. by apply cleared_rows.
  - by apply cleared_rows.
  - by rewrite Hp7, Hp5, Hp2.
Qed.

(** ** A relay that heard of it *)

(** What the relay does besides: its sessions' records stay, or end. *)
Definition sessions_go_on (x x' : relay) : Prop :=
  ∀ i t', sessions x' !! i = Some t' → ∀ se', sess t' = Some se' →
    ∃ t se, sessions x !! i = Some t ∧ sess t = Some se ∧ ID (token se') = ID (token se) ∧ (muxClosed t = true → muxClosed t' = true).

(** A step of the node while no backend it reaches has the token [id]: a lookup,
a refresh, a command, an agent's handshake with answers of the store, or
anything that leaves the sessions' tokens and does not reopen them. *)
Inductive node_step (id : string) (n : node) : node → Prop :=
| ns_lookup i now later w : rows (wTokens w) !! id = None →
    node_step id n (n <| nAccounts := (acc_TokenByID i now later w (nAccounts n)).1.2 |>)
| ns_key fp now later w : node_step id n (n <| nAccounts := (acc_KeyByFingerprint fp now later w (nAccounts n)).1.2 |>)
| ns_refresh disk w : rows (wTokens w) !! id = None → node_step id n (pending_refresh disk w n)
| ns_push reached p : node_step id n (handle reached p n).1
| ns_agent store i addr peer hello welcomed now :
    (∀ k rec, store k = Ok (Some rec) →
       ∃ now' later w, rows (wTokens w) !! id = None ∧ (acc_TokenByID k now' later w (nAccounts n)).2 = Some rec) →
    node_step id n (n <| nSrv := (serveAgent store i addr peer hello welcomed now (nSrv n)).1.1 |>)
| ns_serve x : sessions_go_on (nSrv n) x → node_step id n (n <| nSrv := x |>).

Record forgotten (id : string) (n : node) : Prop := {
  fg_cache : accTokens (nAccounts n) !! id = None;
  fg_keyed k rec : accTokens (nAccounts n) !! k = Some rec → ID rec = k;
  fg_closed i t se : sessions (nSrv n) !! i = Some t → sess t = Some se → ID (token se) = id → muxClosed t = true;
}.

Lemma sessions_go_on_refl x : sessions_go_on x x.
Proof. intros i t Ht se Hse. eauto 10. Qed.

Lemma forgotten_serve id n x : forgotten id n → sessions_go_on (nSrv n) x → forgotten id (n <| nSrv := x |>).
Proof.
  intros [Hc Hk Hs] Hx. split; [done..|]. cbn. intros i t' se' Hi Hse Hid. destruct (Hx i t' Hi se' Hse) as (t & se & Ht & Hse' & Hid' & Hm).
  apply Hm, (Hs i t se); congruence.
Qed.

(** The records a backend gives are those of their IDs. *)
Lemma fetch_id k w w' rec : fetchToken k w = (w', Ok (Some rec)) → ID rec = k ∧ is_Some (rows (wTokens w) !! k).
Proof.
  intros (w1 & t & (l & -> & ->)%call_ok & Hk)%bind_ok. change (wTokens (w <| faults := l |>)) with (wTokens w) in Hk.
  destruct (List.find _ _) as [t|] eqn:Hf; [|done]. apply List.find_some in Hf as [Hin%list_elem_of_In He].
  apply String.eqb_eq in He as <-. apply elem_of_list_rows in Hin as (_ & k & Hr). rewrite (rows_key _ _ _ Hr).
  apply bind_ok in Hk as (w2 & certs & _ & Hk). apply bind_ok in Hk as (w3 & r & [_ Hrec]%lift_ok & Hret). injection Hret as _ ->.
  unfold TokenRecordOf in Hrec. destruct (PolicyToAuth _); [|done]. injection Hrec as <-. cbn. by rewrite (rows_key _ _ _ Hr).
Qed.

Definition keyed_cache (m : gmap string TokenRecord) : Prop := ∀ k rec, m !! k = Some rec → ID rec = k.

Lemma lookup_forgets id k now later w a :
  accTokens a !! id = None → keyed_cache (accTokens a) → rows (wTokens w) !! id = None →
  let a' := (acc_TokenByID k now later w a).1.2 in
  accTokens a' !! id = None ∧ keyed_cache (accTokens a') ∧
  ∀ rec, (acc_TokenByID k now later w a).2 = Some rec → ID rec ≠ id.
Proof.
  intros Hc Hk Hw. cbv zeta. unfold acc_TokenByID.
  assert (∀ rec, accTokens a !! k = Some rec → ID rec ≠ id) as Hcached.
  { intros rec Hr <-. rewrite <-(Hk _ _ Hr) in Hr. congruence. }
  destruct (_ <? _); [by split_and!|]. destruct (fetchToken k w) as [w' [[rec|]|e]] eqn:Hf; cbn.
  - apply fetch_id in Hf as [Hid Hs]. assert (k ≠ id) as Hne by (intros ->; rewrite Hw in Hs; by destruct Hs).
    split_and!; [by rewrite lookup_insert_ne| |intros r [= <-]; congruence].
    intros k' r [[<- <-]|[_ Hr]]%lookup_insert_Some; [done|by apply Hk].
  - split_and!; [by apply lookup_delete_None; right| |done]. intros k' r [_ Hr]%lookup_delete_Some. by apply Hk.
  - by split_and!.
Qed.

Lemma records_by_id_spec toks certs k rec :
  records_by_id toks certs !! k = Some rec → ID rec = k ∧ ∃ t, t ∈ toks ∧ tkTokenId t = k.
Proof.
  revert k rec. unfold records_by_id. apply foldl_inv; [by intros k rec; rewrite lookup_empty|].
  intros m t Hin Hm. destruct (TokenRecordOf t _) as [r|] eqn:Ht; [|done].
  intros k rec [[<- <-]|[_ Hr]]%lookup_insert_Some; [|by apply Hm]. split; [done|]. exists t. split; [done|].
  unfold TokenRecordOf in Ht. destruct (PolicyToAuth _); [|done]. by injection Ht as <-.
Qed.

Lemma refresh_forgets id disk w a :
  accTokens a !! id = None → keyed_cache (accTokens a) → rows (wTokens w) !! id = None →
  let a' := (acc_refresh disk w a).1.2 in accTokens a' !! id = None ∧ keyed_cache (accTokens a').
Proof.
  intros Hc Hk Hw. cbv zeta. unfold acc_refresh. destruct (read_all w) as [w' [[[toks certs] keys]|e]] eqn:Hread; [|done].
  assert (accTokens (acc_refresh disk w a).1.2 = records_by_id toks certs) as Heq.
  { unfold acc_refresh. rewrite Hread. unfold save. by destruct disk. }
  unfold acc_refresh in Heq. rewrite Hread in Heq. rewrite Heq. split; [|intros k rec Hr; by apply records_by_id_spec in Hr as [? _]].
  destruct (records_by_id toks certs !! id) as [rec|] eqn:Hr; [exfalso|done].
  apply records_by_id_spec in Hr as (_ & t & Hin & Ht). apply bind_ok in Hread as (w1 & toks' & (l & -> & ->)%call_ok & Hread).
  apply bind_ok in Hread as (w2 & certs' & _ & Hread). apply bind_ok in Hread as (w3 & keys' & _ & Hret).
  injection Hret as _ <- _ _. cbn in Hin. apply elem_of_list_rows in Hin as (_ & k & Hrow).
  pose proof (rows_key _ _ _ Hrow). congruence.
Qed.

(** *** Commands *)

Lemma sessions_go_on_trans x y z : sessions_go_on x y → sessions_go_on y z → sessions_go_on x z.
Proof.
  intros Hxy Hyz i t Ht se Hse. destruct (Hyz i t Ht se Hse) as (t1 & se1 & Ht1 & Hse1 & Hid1 & Hm1).
  destruct (Hxy i t1 Ht1 se1 Hse1) as (t2 & se2 & Ht2 & Hse2 & Hid2 & Hm2). exists t2, se2. split_and!; [done..|congruence|auto].
Qed.

Lemma go_on_same x x' : sessions x' = sessions x → sessions_go_on x x'.
Proof. intros Hs i t. rewrite Hs. intros Ht se Hse. eauto 10. Qed.

Lemma close_session_goes_on why i x : sessions_go_on x (close_session why i x).
Proof.
  intros j t Hj se Hse. cbn in Hj. destruct (decide (j = i)) as [->|Hne].
  - rewrite lookup_alter_eq in Hj. apply fmap_Some in Hj as (t0 & Ht0 & ->). exists t0, se. by split_and!.
  - rewrite lookup_alter_ne in Hj by done. eauto 10.
Qed.

Lemma fold_goes_on {A} (f : relay → A → relay) l x :
  (∀ y a, sessions_go_on y (f y a)) → sessions_go_on x (foldl f x l).
Proof.
  intros Hf. apply (foldl_inv (λ y, sessions_go_on x y)); [apply sessions_go_on_refl|]. intros y a _ Hy.
  by eapply sessions_go_on_trans.
Qed.

Lemma CloseTunnel_goes_on t why x : sessions_go_on x (CloseTunnel t why x).1.
Proof.
  unfold CloseTunnel. destruct (List.find _ _) as [[i tr]|]; [apply close_session_goes_on|apply sessions_go_on_refl].
Qed.

Lemma DisconnectAgent_goes_on agent why x : sessions_go_on x (DisconnectAgent agent why x).1.
Proof.
  unfold DisconnectAgent. apply (foldl_inv (λ p : relay * Z, sessions_go_on x p.1)); [apply sessions_go_on_refl|].
  intros [y n] [i t] _ Hy. destruct (if sess t is Some se then _ else _); [|done]. cbn.
  eapply sessions_go_on_trans; [done|apply close_session_goes_on].
Qed.

Lemma DisconnectToken_goes_on tok x : sessions_go_on x (DisconnectToken tok x).1.
Proof.
  unfold DisconnectToken. destruct (releaseToken _ _) as [r released]. cbv zeta. cbn [fst].
  eapply sessions_go_on_trans; [|apply fold_goes_on; intros; apply close_session_goes_on]. by apply go_on_same.
Qed.

Lemma Drain_goes_on reached x : sessions_go_on x (Drain reached x).
Proof.
  unfold Drain. destruct (draining x); [apply sessions_go_on_refl|].
  eapply sessions_go_on_trans; [by apply (go_on_same x (x <| draining := true |>))|].
  apply fold_goes_on. intros y [i t]. apply close_session_goes_on.
Qed.

Lemma command_goes_on reached cmd n :
  sessions_go_on (nSrv n) (nSrv (command reached cmd n).1) ∧ nAccounts (command reached cmd n).1 = nAccounts n.
Proof.
  unfold command. destruct (cKind cmd); cbn; (split; [|done]).
  all: try first [apply sessions_go_on_refl|apply Drain_goes_on|apply DisconnectAgent_goes_on|apply CloseTunnel_goes_on].
  unfold Resume. destruct (draining _); [by apply go_on_same|apply sessions_go_on_refl].
Qed.

Lemma refreshSoon_forgets id n : forgotten id n → forgotten id (refreshSoon n).1.
Proof. intros [? ? ?]. unfold refreshSoon. destruct (nRefreshPending n); by split. Qed.

Lemma handle_forgets id reached p n : forgotten id n → forgotten id (handle reached p n).1.
Proof.
  intros Hn. destruct p as [[] k| | | |[]|cmd|]; cbn [handle]; try (destruct Hn; by split).
  - assert (forgotten id (n <| nSrv := (DisconnectToken k (nSrv n)).1 |>)) as [Hc Hk Hs]
      by (apply forgotten_serve; [done|apply DisconnectToken_goes_on]).
    split; [cbn; by apply lookup_delete_None; right| |done]. cbn. intros k' rec [_ Hr]%lookup_delete_Some. by apply Hk.
  - by apply refreshSoon_forgets.
  - by apply refreshSoon_forgets.
  - by apply refreshSoon_forgets.
  - destruct (_ && _); [done|]. destruct (command_goes_on reached cmd n) as [Hs Ha].
    destruct (forgotten_serve id n _ Hn Hs) as [? ? ?]. split; [by rewrite Ha..|done].
Qed.

(** A session begins with a record the store gave. *)
Lemma serveAgent_sessions store i addr peer hello welcomed now x j t se :
  sessions (serveAgent store i addr peer hello welcomed now x).1.1 !! j = Some t → sess t = Some se →
  (∃ tok, authenticate store tok peer = Ok (token se)) ∨ sessions x !! j = Some t.
Proof.
  unfold serveAgent. destruct (Exhausted _ _ _) as [l []]; [cbn; by right|]. set (x1 := x <| authFailures := l |>).
  destruct (draining x1); [cbn; by right|]. unfold track. change (sessions x1) with (sessions x).
  destruct (srvClosed x1); [cbn; by right|]. cbn [negb].
  destruct (handshake store i peer hello) as [out [se'|e]] eqn:Hh; [|].
  - destruct welcomed; cbn [negb fst].
    + cbn. intros Hj Hse. destruct (decide (j = i)) as [->|Hne].
      * rewrite lookup_alter_eq, lookup_insert_eq in Hj. injection Hj as <-. cbn in Hse. injection Hse as <-. left.
        unfold handshake in Hh. destruct hello as [h|]; [|done]. destruct (negb _); [done|].
        destruct (authenticate store (HToken h) peer) as [rec|e] eqn:Ha; [|done]. destruct (String.eqb _ _); [done|].
        injection Hh as _ <-. by exists (HToken h).
      * rewrite lookup_alter_ne, lookup_insert_ne in Hj by done. by right.
    + cbn. intros [Hne Hj]%lookup_delete_Some _. rewrite lookup_insert_ne in Hj by done. by right.
  - cbn [fst]. intros Hj _. destruct (unauthorized e); cbn in Hj; apply lookup_delete_Some in Hj as [Hne Hj];
      rewrite lookup_insert_ne in Hj by done; by right.
Qed.

Lemma node_step_forgets id n n' : node_step id n n' → forgotten id n → forgotten id n'.
Proof.
  intros Hstep Hn. destruct Hn as [Hc Hk Hs]. destruct Hstep as [i now later w Hw|fp now later w|disk w Hw|reached p|store i addr peer hello welcomed now Hst|x Hx].
  - destruct (lookup_forgets id i now later w _ Hc Hk Hw) as (? & ? & _). by split.
  - unfold acc_KeyByFingerprint. destruct (_ || _); [by split|]. destruct (Keys w) as [w' [ks|e]]; by split.
  - unfold pending_refresh, node_refresh. cbn [nAccounts]. pose proof (refresh_forgets id disk w _ Hc Hk Hw) as [? ?].
    cbn in *. destruct (acc_refresh disk w (nAccounts n)) as [[w' a] ok]. by split.
  - by apply handle_forgets.
  - split; [done..|]. cbn. intros j t se Hj Hse Hid.
    destruct (serveAgent_sessions _ _ _ _ _ _ _ _ _ _ _ Hj Hse) as [[tok Hauth]|Hold]; [|by apply (Hs j t se)].
    apply authenticate_stored in Hauth as [k Hk']. destruct (Hst k _ Hk') as (now' & later & w & Hw & Hl).
    exfalso. by apply (proj2 (proj2 (lookup_forgets id k now' later w _ Hc Hk Hw)) _ Hl).
  - by apply forgotten_serve.
Qed.

Lemma steps_forget id n n' : rtc (node_step id) n n' → forgotten id n → forgotten id n'.
Proof. induction 1; eauto using node_step_forgets. Qed.

Lemma told_forgets id reached n :
  inv (registry (nSrv n)) → keyed_cache (accTokens (nAccounts n)) →
  forgotten id (handle reached (pushed_of (PushToken true (empty_token id))) n).1.
Proof.
  intros Hi Hk. cbn. destruct (DisconnectToken id (nSrv n)) as [x m] eqn:Hd.
  destruct (DisconnectToken_complete id (nSrv n) x m Hi Hd) as (_ & _ & Hclosed & _). split; cbn.
  - by rewrite lookup_delete_eq.
  - intros k rec [_ Hr]%lookup_delete_Some. by apply Hk.
  - done.
Qed.

(** C6: a revoked token is out of the cluster. Once revoking worked, the token,
its certificates and its reservations are gone from the tables, with every other
row as it was, and its deletion was pushed last. A relay that got the push has
closed the token's sessions, and as long as the tables it reads do not have the
token again and it does not restart from an old snapshot, it does not let an
agent in as the token and no open session is the token's, whatever it looks up,
refreshes, is told or serves afterwards, even while the backend cannot be
reached. (Lookups, refreshes and handshakes are single steps here; one that
read the token before the push and ends after it is not covered, see
[handshake_outlives_revocation]; restarts see [snapshot_revives_token].) *)
Theorem revoked_token_refused id w w' c reached n n' :
  revoke id w = (w', Ok c) → inv (registry (nSrv n)) → keyed_cache (accTokens (nAccounts n)) →
  rtc (node_step id) (handle reached (pushed_of (PushToken true (empty_token id))) n).1 n' →
  rows (wTokens w') = delete id (rows (wTokens w)) ∧
  cleared crTokenId id (wCerts w) (wCerts w') ∧ cleared vTokenId id (wResv w) (wResv w') ∧
  last (wPushed w') = Some (PushToken true (empty_token id)) ∧
  (∀ now later w2 tok peer r, rows (wTokens w2) !! id = None →
     authenticate (node_store now later w2 (nAccounts n')) tok peer = Ok r → ID r ≠ id) ∧
  (∀ i t se, sessions (nSrv n') !! i = Some t → sess t = Some se → ID (token se) = id → muxClosed t = true).
Proof.
  intros Hrev Hi Hkeyed Hsteps. apply revoke_result in Hrev as (_ & Ht & Hc & Hr & Hp).
  assert (forgotten id n') as [Hcache Hkey Hclosed].
  { eapply steps_forget; [done|]. by apply told_forgets. }
  split_and!; [done..|by rewrite Hp, last_snoc| |done].
  intros now later w2 tok peer r Hw2 [k [= Hk]]%authenticate_stored.
  by apply (proj2 (proj2 (lookup_forgets id k now later w2 _ Hcache Hkey Hw2))).
Qed.
End revoking.

(** ** A sample node *)

#[local] Existing Instance ascii_only.
Import ManageSample.

Module RevokeSample.
#[export] Instance no_x509 : X509 | 100 := {| X509KeyPair _ _ := None; VerifyHostname _ _ := false |}.
Definition rec : TokenRecord := mkToken "aaaaaaaa" "shop" hash (Auth.mkPolicy ["web-*"] ["http"] 3 "" true []) ["77"].
Definition open_session : tracked :=
  mkTracked (Some (mkSession 1%positive rec "agent-1" [] ReasonAgentClosed)) ReasonAgentClosed false 0 0.
Definition x0 : relay :=
  mkRelay (newNameRegistry (5 * minute)) ∅ (NewIPLimiter 20%Q 100 0) (NewIPLimiter 1%Q 5 0) (mkCounters 0 0 0 0 0)
    {[1%positive := open_session]} false false.
Definition a0 : accounts := mkAccounts zeroTime zeroTime {["aaaaaaaa" := rec]} ∅ None.
Definition n0 : node := mkNode "relay-0" "10.0.0.1" "v1" x0 a0 (NewLiveView second) None "" 0 false.
Definition gone : world := (revoke "aaaaaaaa" w2).1.
Definition told : node := (handle 0 (PushedToken true "aaaaaaaa") n0).1.
(** The call that lists the certificates fails. *)
Definition half : world * result issue_err (Z * Z) := revoke "aaaaaaaa" (w2 <| faults := [false; false; true] |>).
(** A backend none of whose calls work. *)
Definition down : world := w0 <| faults := [true; true; true; true; true; true] |>.
End RevokeSample.
Import RevokeSample.

Lemma rec_keyed : keyed_cache (accTokens a0).
Proof. intros k r Hr. unfold a0 in Hr. cbn [accTokens] in Hr. apply lookup_singleton_Some in Hr as [<- <-]. reflexivity. Qed.

(** The session is closed, and the node refuses the token although it cannot
reach the backend. *)
Lemma revoked_token_refused_witness :
  is_ok (revoke "aaaaaaaa" w2).2 = true ∧
  (muxClosed <$> sessions (nSrv told) !! 1%positive) = Some true ∧
  (∀ tok peer r, authenticate (node_store now now down (nAccounts told)) tok peer = Ok r → ID r ≠ "aaaaaaaa").
Proof.
  assert (inv (registry (nSrv n0))) as Hi by apply (calls_inv (5 * minute)), rtc_refl.
  assert (revoke "aaaaaaaa" w2 = (gone, Ok (1, 0))) as Hr by reflexivity.
  destruct (revoked_token_refused "aaaaaaaa" w2 gone (1, 0) 0 n0 told Hr Hi rec_keyed (rtc_refl _ _))
    as (_ & _ & _ & _ & Hauth & _).
  split_and!; [reflexivity..|]. intros tok peer r. apply Hauth. reflexivity.
Defined.

(** ** What can go wrong *)

(** Revoking that fails after the token is deleted cannot be repeated: the token
is no longer found, and its certificates and reservations stay. *)
Lemma half_revoked_stays :
  half.2 = Err ErrRemote ∧ (revoke "aaaaaaaa" half.1).2 = Err (ErrNoToken "aaaaaaaa") ∧
  (crTokenId <$> rows (wCerts half.1) !! "77") = Some "aaaaaaaa".
Proof. split; [reflexivity|split; reflexivity]. Qed.

(** A push of a deleted token leaves the snapshot file as it is: a node that
restarts from it while the backend is down lets the token in again. *)
Lemma snapshot_revives_token :
  let a := (acc_refresh true w2 (newAccounts None)).1.2 in
  let a := dropToken "aaaaaaaa" a in
  accTokens a !! "aaaaaaaa" = None ∧
  match loadAccounts [(down, true)] (newAccounts (snapshot a)) with
  | Some b => is_ok (authenticate (node_store now now down b) tokenA (Some (icCert issued)))
  | None => false
  end = true.
Proof. split; reflexivity. Qed.

(** A start with a reachable backend whose disk cannot be written takes the
failed save for a backend that is down, and puts the old snapshot over the
credentials it just read. *)
Lemma failed_save_revives_token :
  match loadAccounts [(gone, false)] (newAccounts (Some ([rec], []))) with
  | Some b => accTokens b !! "aaaaaaaa"
  | None => None
  end = Some rec ∧ rows (wTokens gone) !! "aaaaaaaa" = None.
Proof. split; reflexivity. Qed.

(** A handshake that read the token just before it was revoked: the session is
tracked, but not yet known as the token's, so the revocation does not close it. *)
Lemma handshake_outlives_revocation :
  let hello := Some (mkHello Version tokenA "agent-2" "" "" "") in
  let x1 := (track 2%positive x0).1 in
  let x2 := (DisconnectToken "aaaaaaaa" x1).1 in
  match handshake (node_store now now w2 a0) 2%positive (Some (icCert issued)) hello with
  | (_, Ok se) =>
      let x3 := set_session 2%positive (λ t, t <| sess := Some se |>) x2 in
      (λ t, (muxClosed t, (ID ∘ token) <$> sess t)) <$> sessions x3 !! 2%positive = Some (false, Some "aaaaaaaa")
  | _ => False
  end.
Proof. vm_compute. reflexivity. Qed.
