(* ===== verification/RelayNodeSpec.v ===== *)
(** * A relay and the registry: theorems

When a relay announces its state, the registry and the relay agree about it
afterwards: what the relay still serves is what the registry routes to it. *)

From Stdlib Require Import QArith.
From S2P Require Import Prelude GoStrings Regex Protocol PathMatch Policy NetIP Access Claims ClaimsInv ClaimsSpec ClaimsLife EdgeConf NameRegistry.
From S2P Require Import Limiter RelayTunnels RelayServe RelayServeSpec Store Reservations LiveView Manage Certs ServerConf EdgeDomains RelayNode.
From stdpp Require Import options.
#[local] Open Scope l8_scope.
#[local] Open Scope Z_scope.
Import Rules.

(** ** What an announcement does to the live tunnels *)

Section announcing.
Context (req : TunClaimRequest).

(** Records are under their own names. *)
Definition named (e : Engine) : Prop := ∀ n t, Claims.tunnels e !! n = Some t → tName t = n.

Lemma named_set t e : named e → named (setTunnel t e).
Proof.
  intros He n u. rewrite tunnels_setTunnel. intros [[<- <-]|[_ Hu]]%lookup_insert_Some; [done|by apply He].
Qed.

Lemma tName_announced t : tName (announced req t) = tName t.
Proof. unfold announced. by destruct (tState _). Qed.

(** What the loop leaves of a name: the record of one of the reported tunnels, in
the set of reported names, or a conflict that one of them had. *)
Definition recorded (l : list TunLiveTunnel) (e : Engine) (n : string) : Prop :=
  ∃ u, u ∈ l ∧ tName u = n ∧ Claims.tunnels e !! n = Some (announced req u).

Lemma recorded_no_conflict l e t : recorded l e (tName t) → conflicts_with req t e = false.
Proof.
  intros (u & _ & _ & Hl). unfold conflicts_with. rewrite Hl.
  assert (tRelayId (announced req u) = qRelayId req) as -> by (unfold announced; by destruct (tState _)).
  by rewrite String.eqb_refl.
Qed.

(** The state of the loop after the tunnels [l], from the engine [e0]. *)
Record loop_ok (e0 : Engine) (l : list TunLiveTunnel) (acc : Engine * gset string * list string) : Prop := {
  lo_named : named e0 → named acc.1.1;
  lo_out n : recorded l acc.1.1 n ∨ Claims.tunnels acc.1.1 !! n = Claims.tunnels e0 !! n;
  lo_rep n : n ∈ acc.1.2 → recorded l acc.1.1 n;
  lo_in t : t ∈ l → tName t ∈ acc.2 ∨ tName t ∈ acc.1.2;
  lo_conf n : n ∈ acc.2 → ∃ t, t ∈ l ∧ tName t = n ∧ conflicts_with req t e0 = true;
}.

Lemma recorded_more l l' e n : recorded l e n → recorded (l ++ l') e n.
Proof. intros (u & ? & ?). exists u. split; [set_solver|done]. Qed.

Lemma loop_step e0 l acc t : tSimulated t = false → loop_ok e0 l acc → loop_ok e0 (l ++ [t]) (announce_tunnel req acc t).
Proof.
  destruct acc as [[e rep] cs]. intros Hsim [Hn Hout Hrep Hin Hcf]. cbn in *. unfold announce_tunnel. rewrite Hsim. cbn [andb].
  destruct (conflicts_with req t e) eqn:Hc; split; cbn.
  - done.
  - intros n. destruct (Hout n); [left; by apply recorded_more|by right].
  - intros n ?. by apply recorded_more, Hrep.
  - intros u [Hu| ->%list_elem_of_singleton]%elem_of_app; [destruct (Hin u Hu); set_solver|set_solver].
  - intros n [Hn'| ->%list_elem_of_singleton]%elem_of_app.
    + destruct (Hcf n Hn') as (u & ? & ?). exists u. split; [set_solver|done].
    + exists t. split_and!; [set_solver|done|]. destruct (Hout (tName t)) as [Hr|Heq].
      * by rewrite (recorded_no_conflict _ _ _ Hr) in Hc.
      * revert Hc. unfold conflicts_with. by rewrite Heq.
  - intros He. by apply named_set, Hn.
  - intros n. rewrite tunnels_setTunnel, tName_announced. destruct (decide (n = tName t)) as [->|Hne].
    + left. exists t. split_and!; [set_solver|done|]. by rewrite tunnels_setTunnel, tName_announced, lookup_insert_eq.
    + destruct (Hout n) as [(u & ? & ? & ?)|?]; [left|right; by rewrite lookup_insert_ne].
      exists u. split_and!; [set_solver|done|]. by rewrite tunnels_setTunnel, tName_announced, lookup_insert_ne.
  - intros n Hnr. destruct (decide (n = tName t)) as [->|Hne].
    + exists t. split_and!; [set_solver|done|]. by rewrite tunnels_setTunnel, tName_announced, lookup_insert_eq.
    + destruct (Hrep n) as (u & ? & ? & ?); [set_solver|].
      exists u. split_and!; [set_solver|done|]. by rewrite tunnels_setTunnel, tName_announced, lookup_insert_ne.
  - intros u [Hu| ->%list_elem_of_singleton]%elem_of_app; [destruct (Hin u Hu); set_solver|set_solver].
  - intros n Hn'. destruct (Hcf n Hn') as (u & ? & ?). exists u. split; [set_solver|done].
Qed.

Lemma announce_loop l e0 : (∀ t, t ∈ l → tSimulated t = false) → loop_ok e0 l (foldl (announce_tunnel req) (e0, ∅, []) l).
Proof.
  induction l as [|t l IH] using rev_ind; intros Hsim.
  - split; cbn; [done|auto|set_solver|by intros ? ?%elem_of_nil|by intros ? ?%elem_of_nil].
  - rewrite foldl_snoc. apply loop_step; [apply Hsim; set_solver|]. apply IH. intros u Hu. apply Hsim. set_solver.
Qed.

Lemma announce_spec {MR : MapRange} now e :
  named e → (∀ t, t ∈ qTunnels req → tSimulated t = false) →
  (if qRelay req is Some r then rSimulated r else false) = false →
  let '(e', resp) := announce now req e in
  (∀ n, n ∈ pConflicts resp → ∃ t, t ∈ qTunnels req ∧ tName t = n ∧ conflicts_with req t e = true) ∧
  (∀ t, t ∈ qTunnels req → tName t ∈ pConflicts resp ∨ recorded (qTunnels req) e' (tName t)) ∧
  (∀ n r, Claims.tunnels e' !! n = Some r → tRelayId r = qRelayId req → is_active r = true →
     ∃ t, t ∈ qTunnels req ∧ tName t = n ∧ r = announced req t).
Proof.
  intros Hnamed Hsim Hrel. unfold announce.
  replace (if qRelay req is Some r then rSimulated r && negb (AllowSimulated (cfg e)) else false) with false
    by (revert Hrel; destruct (qRelay req); [by intros ->|done]).
  set (e0 := match qRelay req with Some r => touchRelay now (qRelayId req) (Some r) e | None => e end).
  assert (Claims.tunnels e0 = Claims.tunnels e) as He0 by (subst e0; by destruct (qRelay req)).
  pose proof (announce_loop (qTunnels req) e0 Hsim) as [Hn1 Hout Hrep Hin Hcf].
  destruct (foldl (announce_tunnel req) (e0, ∅, []) (qTunnels req)) as [[e1 rep] cs]. cbn in *.
  specialize (Hn1 ltac:(intros n t; rewrite He0; apply Hnamed)).
  set (until := unix (now + Grace (cfg e1))).
  destruct (foldl_set_range (λ n t, String.eqb (tRelayId t) (qRelayId req) && negb (bool_decide (n ∈ rep)) && is_active t)
    (λ t, t <| tState := TUN_LIVE_STATE_GRACE |> <| tGraceUntil := until |>) (range (Claims.tunnels e1)) e1 (NoDup_range _)) as [H1 H2].
  { intros n t Ht%elem_of_range. cbn. by apply Hn1. }
  set (e2 := foldl _ e1 _) in *.
  rewrite foldl_tunnels_id by (intros e' a; by destruct (_ && _)).
  assert (∀ t, conflicts_with req t e0 = conflicts_with req t e) as Hcw by (intros t; unfold conflicts_with; by rewrite He0).
  assert (∀ n, match Claims.tunnels e1 !! n with
               | Some t => Claims.tunnels e2 !! n =
                   if String.eqb (tRelayId t) (qRelayId req) && negb (bool_decide (n ∈ rep)) && is_active t
                   then Some (t <| tState := TUN_LIVE_STATE_GRACE |> <| tGraceUntil := until |>) else Some t
               | None => Claims.tunnels e2 !! n = None
               end) as Hfin.
  { intros n. destruct (Claims.tunnels e1 !! n) as [t|] eqn:Ht.
    - rewrite (H1 n t) by by apply elem_of_range. by rewrite Ht.
    - rewrite H2; [done|]. rewrite elem_of_range_keys, Ht. by intros []. }
  split_and!.
  - intros n Hn. destruct (Hcf n Hn) as (t & ? & ? & ?). exists t. by rewrite <-Hcw.
  - intros t Ht. destruct (Hin t Ht) as [?|Hr]; [by left|]. right. destruct (Hrep _ Hr) as (u & ? & ? & Hl). exists u.
    split_and!; [done..|]. specialize (Hfin (tName t)). rewrite Hl, (bool_decide_eq_true_2 _ Hr), andb_false_r in Hfin.
    rewrite foldl_tunnels_id; [done|]. intros e3 a. by destruct (aSimulated a && _).
  - intros n r Hr Hrel' Hact. specialize (Hfin n). destruct (Claims.tunnels e1 !! n) as [t1|] eqn:Ht1; [|congruence].
    rewrite Hfin in Hr. destruct (_ && _) eqn:Hb; injection Hr as <-; [done|].
    assert (n ∈ rep) as Hrep'.
    { rewrite Hrel', String.eqb_refl, Hact, andb_true_r in Hb. apply negb_false_iff, bool_decide_eq_true in Hb. done. }
    destruct (Hrep n Hrep') as (u & ? & ? & Hl). exists u. split_and!; [done..|congruence].
Qed.
End announcing.

(** ** What a relay reports *)

Section reports.
Context {MR : MapRange} (show : session_id → string) (info : session_id → session_info) (counts : tunnel_id → tunnel_counts).

(** The record the relay reports of a tunnel of the session [i]. *)
Definition record_of (i : session_id) (tr : tracked) (se : agentSession) (o : tunnel_t) : TunLiveTunnel :=
  live_tunnel (mkSessionStatus (show i) (TName (token se)) (ID (token se)) (sessAgentID se) (info i) (rttMicros tr) (lastSeen tr)
    (tunnel_status counts <$> tunnels se)) (tunnel_status counts o).

Definition reported (x : relay) : list TunLiveTunnel := (node_state (relay_Status show info counts x)).1.

Lemma elem_of_reported x t :
  t ∈ reported x ↔ ∃ i tr se o, sessions x !! i = Some tr ∧ sess tr = Some se ∧ o ∈ tunnels se ∧ t = record_of i tr se o.
Proof.
  unfold reported, node_state. cbn [fst]. rewrite list_elem_of_bind. setoid_rewrite list_elem_of_fmap. cbn [stSessions relay_Status].
  setoid_rewrite merge_sort_Permutation. setoid_rewrite list_elem_of_omap. split.
  - intros (s & (ts & -> & Hts) & ([i tr] & Hin & Hs)). apply elem_of_range in Hin. unfold session_status in Hs.
    destruct (sess tr) as [se|] eqn:Hse; [|done]. injection Hs as <-. cbn in Hts. apply list_elem_of_fmap in Hts as (o & -> & Ho).
    by exists i, tr, se, o.
  - intros (i & tr & se & o & Hi & Hse & Ho & ->). eexists. split; [eexists; split; [done|]|].
    + cbn. by apply list_elem_of_fmap_2.
    + exists (i, tr). split; [by apply elem_of_range|]. unfold session_status. by rewrite Hse.
Qed.

(** ** Closing what is held elsewhere *)

(** The session [i] of a relay has the tunnel [o]. *)
Definition has_tunnel (x : relay) (i : session_id) (o : tunnel_t) : Prop :=
  ∃ tr se, sessions x !! i = Some tr ∧ sess tr = Some se ∧ o ∈ tunnels se.

(** Between the relays [x0] and [x1] (one relay, at two times) a tunnel ID, which is
random, is one tunnel's of one session. *)
Definition ids_apart (x0 x1 : relay) : Prop :=
  ∀ i j o o', has_tunnel x0 i o ∨ has_tunnel x1 i o → has_tunnel x0 j o' ∨ has_tunnel x1 j o' →
    TunnelId (endpoint o) = TunnelId (endpoint o') → i = j ∧ EName (endpoint o) = EName (endpoint o').

Section closing.
Context (x0 x1 : relay) (apart : ids_apart x0 x1).

(** The sessions are those of [x1], some of them closed since. *)
Definition same_sessions (x : relay) : Prop := ∀ i, sess <$> sessions x !! i = sess <$> sessions x1 !! i.

Lemma same_close why i x : same_sessions x → same_sessions (close_session why i x).
Proof.
  intros Hx j. rewrite <-(Hx j). cbn. destruct (decide (j = i)) as [->|Hne]; [rewrite lookup_alter_eq|by rewrite lookup_alter_ne].
  by destruct (sessions x !! i).
Qed.

Lemma same_has x i o : same_sessions x → has_tunnel x i o → has_tunnel x1 i o.
Proof.
  intros Hx (tr & se & Hi & Hse & Ho). specialize (Hx i). rewrite Hi in Hx. cbn in Hx. rewrite Hse in Hx. symmetry in Hx.
  apply fmap_Some in Hx as (tr1 & Hi1 & Hse1). by exists tr1, se.
Qed.

(** Closing a reported tunnel closes the session that has it, if it still does. *)
Lemma CloseTunnel_owner why x i o :
  same_sessions x → has_tunnel x0 i o →
  (CloseTunnel (TunnelId (endpoint o)) why x).1 = close_session why i x ∧
    (∃ o', has_tunnel x1 i o' ∧ EName (endpoint o') = EName (endpoint o)) ∨
  (CloseTunnel (TunnelId (endpoint o)) why x).1 = x ∧ ¬ has_tunnel x1 i o.
Proof using apart.
  intros Hx Ho. unfold CloseTunnel. destruct (List.find _ (sessionList x)) as [[j trj]|] eqn:Hf.
  - left. apply List.find_some in Hf as [Hj%list_elem_of_In Hs]. cbn. apply elem_of_range in Hj. unfold serves in Hs.
    destruct (sess trj) as [sej|] eqn:Hsej; [|done]. apply existsb_exists in Hs as (oj & Hoj%list_elem_of_In & Hid).
    apply String.eqb_eq in Hid. assert (has_tunnel x1 j oj) as Hoj1 by (apply (same_has x); [done|by exists trj, sej]).
    destruct (apart i j o oj) as [-> Hn]; [by left|by right|done|]. split; [done|]. by exists oj.
  - right. split; [done|]. intros (tr & se & Hi & Hse & Hin). specialize (Hx i). rewrite Hi in Hx. cbn in Hx.
    apply fmap_Some in Hx as (tr' & Htr' & Hse').
    assert ((i, tr') ∈ sessionList x) as Hl%list_elem_of_In by by apply elem_of_range.
    pose proof (List.find_none _ _ Hf _ Hl) as Hn. cbn in Hn. unfold serves in Hn. rewrite <-Hse', Hse in Hn.
    apply not_true_iff_false in Hn. apply Hn, existsb_exists. exists o. by rewrite String.eqb_refl, <-list_elem_of_In.
Qed.

Definition closed_at (i : session_id) (x : relay) : Prop := ∃ tr, sessions x !! i = Some tr ∧ muxClosed tr = true.

Lemma closed_close why i j x : closed_at i x → closed_at i (close_session why j x).
Proof.
  intros (tr & Hi & Hc). unfold closed_at. cbn. destruct (decide (i = j)) as [->|Hne].
  - rewrite lookup_alter_eq, Hi. by eexists.
  - rewrite lookup_alter_ne by done. by exists tr.
Qed.

(** One round for one reported tunnel. *)
Lemma conflict_tunnel y t name : t ∈ reported x0 → same_sessions y →
  let y' := if String.eqb (tName t) name then (CloseTunnel (tTunnelId t) ReasonTakeover y).1 else y in
  same_sessions y' ∧ (∀ i, closed_at i y → closed_at i y') ∧
  (∀ i, (∀ o, has_tunnel x1 i o → EName (endpoint o) ≠ name) → sessions y' !! i = sessions y !! i).
Proof using apart.
  intros (j & tr & se & o & Hj & Hse & Ho & ->)%elem_of_reported Hy. cbn. destruct (String.eqb_spec (EName (endpoint o)) name) as [Hn|]; [|done].
  destruct (CloseTunnel_owner ReasonTakeover y j o Hy) as [[-> (o' & Ho' & Hn')]|[-> _]]; [by exists tr, se| |done].
  split_and!; [by apply same_close|by intros i; apply closed_close|].
  intros i Hno. cbn. rewrite lookup_alter_ne; [done|]. intros ->. apply (Hno o' Ho'). congruence.
Qed.

(** One round for a name in conflict. *)
Lemma conflict_round x name :
  same_sessions x →
  same_sessions (close_conflict (reported x0) x name) ∧
  (∀ i, closed_at i x → closed_at i (close_conflict (reported x0) x name)) ∧
  (∀ i o, has_tunnel x0 i o → has_tunnel x1 i o → EName (endpoint o) = name → closed_at i (close_conflict (reported x0) x name)) ∧
  (∀ i, (∀ o, has_tunnel x1 i o → EName (endpoint o) ≠ name) → sessions (close_conflict (reported x0) x name) !! i = sessions x !! i).
Proof using apart.
  intros Hx. unfold close_conflict. split_and!.
  - apply foldl_inv; [done|]. intros y t Ht Hy. by apply conflict_tunnel.
  - intros i Hc. apply (foldl_inv (λ y, same_sessions y ∧ closed_at i y)); [done|]. intros y t Ht [Hy Hcy].
    destruct (conflict_tunnel y t name Ht Hy) as (? & ? & _). auto.
  - intros i o Ho0 Ho1 Hn. pose proof Ho0 as (tr & se & Hi & Hse & Ho).
    apply (foldl_reaches same_sessions (closed_at i) _ (record_of i tr se o)).
    + intros y t Ht Hy. by apply conflict_tunnel.
    + intros y t Ht Hy. by apply conflict_tunnel.
    + intros y Hy. cbn. rewrite Hn, String.eqb_refl.
      destruct (CloseTunnel_owner ReasonTakeover y i o Hy Ho0) as [[-> _]|[_ []]]; [|done].
      destruct Ho1 as (tr1 & se1 & Hi1 & _). specialize (Hy i). rewrite Hi1 in Hy. apply fmap_Some in Hy as (tr' & Htr' & _).
      unfold closed_at. cbn. rewrite lookup_alter_eq, Htr'. by eexists.
    + apply elem_of_reported. eauto 10.
    + done.
  - intros i Hno. apply (foldl_inv (λ y, same_sessions y ∧ sessions y !! i = sessions x !! i)); [done|]. intros y t Ht [Hy <-].
    destruct (conflict_tunnel y t name Ht Hy) as (? & _ & Hk). split; [done|]. by apply Hk.
Qed.

Lemma conflicts_closed names :
  let x := foldl (close_conflict (reported x0)) x1 names in
  same_sessions x ∧
  (∀ i o, has_tunnel x0 i o → has_tunnel x1 i o → EName (endpoint o) ∈ names → closed_at i x) ∧
  (∀ i, (∀ o, has_tunnel x1 i o → EName (endpoint o) ∉ names) → sessions x !! i = sessions x1 !! i).
Proof using apart.
  cbv zeta. split_and!.
  - apply foldl_inv; [done|]. intros y n _ Hy. by apply conflict_round.
  - intros i o Ho0 Ho1 Hn. apply (foldl_reaches same_sessions (closed_at i) _ (EName (endpoint o))); [| | |exact Hn|by intros ?].
    + intros y n _ Hy. by apply conflict_round.
    + intros y n _ Hy Hc. by apply conflict_round.
    + intros y Hy. by apply (proj1 (proj2 (proj2 (conflict_round y _ Hy))) i o).
  - intros i Hno. apply (foldl_inv (λ y, same_sessions y ∧ sessions y !! i = sessions x1 !! i)); [done|]. intros y n Hn [Hy Hsy].
    split; [by apply conflict_round|]. destruct (conflict_round y n Hy) as (_ & _ & _ & ->); [done|].
    intros o Ho <-. by apply (Hno o).
Qed.
End closing.

(** C7: an announcement brings relay and registry together. [n] is the node that
reports and [n1] the node that gets the answer: sessions may have come and gone
in between. After the registry recorded the report and the node closed what is in
conflict, for every reported tunnel whose session still has it and is open, the
registry has the name as connected at this relay, with the record of a reported
tunnel of that name: of this one, if no other session (a stale one whose tunnel
was taken over) reported the name. Every tunnel the registry has as connected here
was reported. And only sessions that have a tunnel of a name another relay serves
for another agent are closed. *)
Theorem announce_agrees (c : ClusterFile) (n n1 : node) (e : Engine) (now : Z) :
  named e → ids_apart (nSrv n) (nSrv n1) →
  let req := announce_request show info counts c n in
  let '(e', resp) := announce now req e in
  let n' := announced_reply (qTunnels req) (Some resp) n1 in
  (∀ i o tr, has_tunnel (nSrv n) i o → has_tunnel (nSrv n') i o → sessions (nSrv n') !! i = Some tr → muxClosed tr = false →
     ∃ j tr se o' r, sessions (nSrv n) !! j = Some tr ∧ sess tr = Some se ∧ o' ∈ tunnels se ∧
       Claims.tunnels e' !! EName (endpoint o) = Some r ∧ is_active r = true ∧ tRelayId r = nRelayID n ∧
       r = record_of j tr se o' <| tRelayId := nRelayID n |> ∧ EName (endpoint o') = EName (endpoint o) ∧
       ((∀ k p, has_tunnel (nSrv n) k p → EName (endpoint p) = EName (endpoint o) → (k, p) = (i, o)) → (j, o') = (i, o))) ∧
  (∀ name r, Claims.tunnels e' !! name = Some r → is_active r = true → tRelayId r = nRelayID n →
     ∃ i tr se o, sessions (nSrv n) !! i = Some tr ∧ sess tr = Some se ∧ o ∈ tunnels se ∧ EName (endpoint o) = name ∧
       r = record_of i tr se o <| tRelayId := nRelayID n |>) ∧
  (∀ i, sessions (nSrv n') !! i = sessions (nSrv n1) !! i ∨
     ∃ o j tr se p, has_tunnel (nSrv n1) i o ∧ sessions (nSrv n) !! j = Some tr ∧ sess tr = Some se ∧ p ∈ tunnels se ∧
       EName (endpoint p) = EName (endpoint o) ∧ conflicts_with req (record_of j tr se p) e = true).
Proof.
  intros Hnamed Hids req.
  assert (∀ t, t ∈ qTunnels req → tSimulated t = false) as Hsim.
  { intros t (i & tr & se & o & _ & _ & _ & ->)%elem_of_reported. done. }
  pose proof (announce_spec req now e Hnamed Hsim eq_refl) as Ha.
  destruct (announce now req e) as [e' resp]. destruct Ha as (Hcf & Hset & Hact).
  destruct (conflicts_closed (nSrv n) (nSrv n1) Hids (pConflicts resp)) as (Hsame & Hclosed & Hkept).
  cbn zeta. change (nSrv (announced_reply (qTunnels req) (Some resp) n1)) with
    (foldl (close_conflict (reported (nSrv n))) (nSrv n1) (pConflicts resp)).
  assert (∀ i tr se o, announced req (record_of i tr se o) = record_of i tr se o <| tRelayId := nRelayID n |>) as Hann by done.
  split_and!.
  - intros i o tr Ho0 Ho' Hi Hopen. pose proof (same_has (nSrv n1) _ i o Hsame Ho') as Ho1.
    pose proof Ho0 as (tr0 & se0 & Hi0 & Hse0 & Hin0).
    assert (record_of i tr0 se0 o ∈ qTunnels req) as Hin by (apply elem_of_reported; eauto 10).
    destruct (Hset _ Hin) as [Hc|(u & Hu & Hun & Hl)].
    + exfalso. destruct (Hclosed i o Ho0 Ho1 Hc) as (tr' & Htr' & Hm). congruence.
    + apply elem_of_reported in Hu as (j & trj & sej & oj & Hj & Hsej & Hoj & ->).
      exists j, trj, sej, oj. eexists. split_and!; [done..|exact Hl|done|done|by rewrite Hann|done|].
      intros Honly. apply Honly; [by exists trj, sej|done].
  - intros name r Hr Hactive Hrel. destruct (Hact name r Hr Hrel Hactive) as (t & Ht & Hn & ->).
    apply elem_of_reported in Ht as (i & tr & se & o & Hi & Hse & Ho & ->). exists i, tr, se, o. by rewrite Hann.
  - intros i. destruct (sessions (nSrv n1) !! i) as [tr1|] eqn:Hi1; [|left].
    2:{ specialize (Hsame i). rewrite Hi1 in Hsame. by apply fmap_None in Hsame. }
    destruct (decide (Exists (λ o, EName (endpoint o) ∈ pConflicts resp) (default [] (tunnels <$> sess tr1)))) as [Hex|Hno].
    + right. apply Exists_exists in Hex as (o & Ho & Hc). destruct (sess tr1) as [se1|] eqn:Hse1; [|by apply elem_of_nil in Ho].
      destruct (Hcf _ Hc) as (t & (j & tr & se & p & Hj & Hse & Hp & ->)%elem_of_reported & Hn & Hcw).
      exists o, j, tr, se, p. split_and!; [by exists tr1, se1|done..].
    + left. rewrite <-Hi1. apply Hkept. intros o (tr & se & Htr & Hse & Ho) Hc. apply Hno, Exists_exists. exists o.
      rewrite Hi1 in Htr. injection Htr as <-. by rewrite Hse.
Qed.
End reports.

(** ** A sample announcement *)

Module AnnounceSample.
Definition rec (id : string) : TokenRecord := mkToken id id "" (Auth.mkPolicy [] [] 0 "" false []) [].
Definition tun (i : positive) (name : string) : tunnel_t :=
  mkTunnelT i i false (mkEndpoint ("id-" +:+ name +:+ "-b") name TUNNEL_TYPE_HTTP "" 0 "" []) false (mkParsed [] [] ∅ "" None ∅).
Definition serving (i : positive) (agent name : string) : tracked :=
  mkTracked (Some (mkSession i (rec "tok") agent [tun i name] ReasonAgentClosed)) ReasonAgentClosed false 0 0.
(** Two agents; relay-a has web for another agent. *)
Definition x0 : relay :=
  mkRelay (newNameRegistry (5 * minute)) ∅ (NewIPLimiter 20%Q 100 0) (NewIPLimiter 1%Q 5 0) (mkCounters 0 0 0 0 0)
    {[1%positive := serving 1 "agent-2" "web"; 2%positive := serving 2 "agent-3" "api"]} false false.
Definition n0 : node :=
  mkNode "relay-b" "10.0.0.2" "v1" x0 (newAccounts None) (NewLiveView second) None "" 0 false.
Definition cluster : ClusterFile :=
  mkClusterFile "t.example" "connect.t.example" "" [] "20000-20010" 443 80 0 8443 8080 8444 2222 9100 [] "" 9180.
Definition show (i : session_id) : string := pretty i.
Definition info (_ : session_id) : session_info := mkInfo "" "" "" "" 0.
Definition counts (_ : tunnel_id) : tunnel_counts := mkCounts 0 0 0 0.
Definition req : TunClaimRequest := announce_request show info counts cluster n0.
Definition answer : Engine * TunClaimResponse := announce ClaimsLife.Sample.now req ClaimsLife.Sample.e1.
(** When the answer arrives another agent has connected. *)
Definition later : node := n0 <| nSrv := x0 <| sessions := <[3%positive := serving 3 "agent-4" "cam"]> (sessions x0) |> |>.
Definition n1 : node := announced_reply (qTunnels req) (Some answer.2) later.
End AnnounceSample.
Import AnnounceSample.

Lemma later_tunnels i o : has_tunnel (nSrv n0) i o ∨ has_tunnel (nSrv later) i o →
  i = 1%positive ∧ o = tun 1 "web" ∨ i = 2%positive ∧ o = tun 2 "api" ∨ i = 3%positive ∧ o = tun 3 "cam".
Proof.
  assert (∀ tr se, sessions (nSrv later) !! i = Some tr → sess tr = Some se → o ∈ tunnels se →
    i = 1%positive ∧ o = tun 1 "web" ∨ i = 2%positive ∧ o = tun 2 "api" ∨ i = 3%positive ∧ o = tun 3 "cam") as Hl.
  { intros tr se Hi Hse Ho. cbn [later nSrv n0 set_field sessions x0] in Hi.
    apply lookup_insert_Some in Hi as [[<- <-]|[_ [[<- <-]|[_ [<- <-]%lookup_singleton_Some]]%lookup_insert_Some]];
      injection Hse as <-; apply list_elem_of_singleton in Ho as ->; auto. }
  intros [(tr & se & Hi & Hse & Ho)|(tr & se & Hi & Hse & Ho)]; [|by eapply Hl].
  apply (Hl tr se); [|done..]. cbn [later nSrv n0 set_field sessions]. rewrite lookup_insert_ne; [done|].
  intros <-. vm_compute in Hi. discriminate Hi.
Qed.

(** The session with web is closed, api is connected at relay-b. *)
Lemma announce_agrees_witness :
  (muxClosed <$> sessions (nSrv n1) !! 1%positive) = Some true ∧
  sessions (nSrv n1) !! 2%positive = sessions (nSrv n0) !! 2%positive ∧
  ∃ r, Claims.tunnels answer.1 !! "api" = Some r ∧ tRelayId r = "relay-b".
Proof.
  assert (named ClaimsLife.Sample.e1) as Hn.
  { assert (map_Forall (λ n t, tName t = n) (Claims.tunnels ClaimsLife.Sample.e1)) as Hall; [|exact Hall].
    apply (bool_decide_unpack _). vm_compute. exact I. }
  assert (ids_apart (nSrv n0) (nSrv later)) as Hids.
  { intros i j o o' Hi Hj. destruct (later_tunnels i o Hi) as [[-> ->]|[[-> ->]|[-> ->]]], (later_tunnels j o' Hj) as [[-> ->]|[[-> ->]|[-> ->]]];
      intros Heq; (split; [reflexivity|reflexivity]) || discriminate Heq. }
  pose proof (announce_agrees show info counts cluster n0 later ClaimsLife.Sample.e1 ClaimsLife.Sample.now Hn Hids) as Ha.
  fold req answer in Ha. cbv zeta in Ha. fold req in Ha. fold answer in Ha.
  split_and!; [vm_compute; reflexivity|vm_compute; reflexivity|].
  assert (sessions (nSrv n1) !! 2%positive = Some (serving 2 "agent-3" "api")) as H2 by (vm_compute; reflexivity).
  unfold n1 in H2. destruct answer as [e' resp]. cbn [fst snd] in *. destruct Ha as (Hopen & _ & _).
  assert (∀ x, sessions x !! 2%positive = Some (serving 2 "agent-3" "api") → has_tunnel x 2%positive (tun 2 "api")) as Hhas.
  { intros x Hx. exists (serving 2 "agent-3" "api"), (mkSession 2%positive (rec "tok") "agent-3" [tun 2 "api"] ReasonAgentClosed).
    split_and!; [exact Hx|reflexivity|by left]. }
  destruct (Hopen 2%positive (tun 2 "api") (serving 2 "agent-3" "api")) as (_ & _ & _ & _ & r & _ & _ & _ & Hr & _ & Hrel & _);
    [apply Hhas; reflexivity|apply Hhas; exact H2|exact H2|reflexivity|]. exists r. split; [exact Hr|exact Hrel].
Defined.
