(* ===== verification/ClusterConfSpec.v ===== *)
(** * What an accepted cluster.yaml gives (go/tunnel/config/cluster.go,
relayConfig of go/tun/relaynode/node.go)

A cluster file that passes the checks configures relays that start, and every
relay applies the rules the registry applies. *)

From S2P Require Import Prelude GoStrings Base64 Regex Protocol Policy NetIP Limiter Access Claims NameRegistry NameRegistryInv NameRegistrySpec.
From S2P Require Import RelayTunnels RelayTunnelsSpec RelayServe RelayServeSpec Store StoreSpec LiveView Certs ServerConf ServerConfSpec Manage RelayNode.
From stdpp Require Import options.
From Stdlib Require Import Ascii QArith.
#[local] Open Scope l8_scope.
#[local] Open Scope Z_scope.
Import Rules.

Lemma dot_in_labels d : (2 ≤ length (SplitByte "." d))%nat → StrContains "." d = true.
Proof.
  induction d as [|a d IH]; cbn; [lia|]. destruct (Ascii.eqb_spec a ".") as [->|Hne]; [done|].
  intros Hl. apply orb_true_iff. right. apply IH. revert Hl. pose proof (SplitByte_nonempty "." d).
  by destruct (SplitByte "." d).
Qed.

Lemma valid_host_relay d : valid_host d → String.eqb d "" || negb (StrContains "." d) = false.
Proof.
  intros (_ & Hl & _). rewrite (dot_in_labels d Hl). apply orb_false_iff. split; [|done]. apply String.eqb_neq. intros ->. cbn in Hl. lia.
Qed.

Section cluster.
Context {GU : GoUnicode} {GF : GoFold} {CR : Crypto} {X5 : X509} {MR : MapRange}.

(** What the checks establish. *)
Record normal_file (c : ClusterFile) : Prop := {
  nf_base : is_ok (NormalizeDomain (cfBaseDomain c)) = true;
  nf_reserved n : n ∈ cfReservedNames c → ValidName n = true;
  nf_range : ∃ lo hi, ParsePortRange (cfTCPPortRange c) = Ok (lo, hi);
  nf_ports name p : (name, p) ∈ named_ports c → 1 ≤ p ≤ 65535;
  nf_lower : ∃ s, cfControlSNI c = ToLower s;
}.

Lemma names_sni f : ∃ s, cfControlSNI (normal_cluster_names f) = ToLower s.
Proof. unfold normal_cluster_names. cbv zeta. destruct (String.eqb (cfTCPPortRange _) ""); by eexists. Qed.

Lemma normalize_ok f c : normalize f = Ok c → normal_file c.
Proof.
  unfold normalize. cbv zeta. set (f1 := normal_cluster_names f). destruct (names_sni f) as [sni Hsni]. fold f1 in Hsni.
  destruct (NormalizeDomain (cfBaseDomain f1)) as [d|] eqn:Hd; [|done].
  destruct (List.find _ (cfReservedNames f1)) eqn:Hr; [done|].
  destruct (ParsePortRange (cfTCPPortRange f1)) as [[lo hi]|] eqn:Hp; [|done].
  set (f2 := if String.eqb (cfSecretDir f1) "" then _ else _).
  assert (cfBaseDomain f2 = cfBaseDomain f1 ∧ cfReservedNames f2 = cfReservedNames f1 ∧ cfTCPPortRange f2 = cfTCPPortRange f1 ∧
    cfControlSNI f2 = cfControlSNI f1) as (E1 & E2 & E3 & E4) by (subst f2; by destruct (String.eqb (cfSecretDir f1) "")).
  destruct (ParsePrefixes _); [|done]. destruct (List.find _ (named_ports (default_ports f2))) as [[]|] eqn:Hports; [done|].
  destruct (negb _ && _); [done|]. destruct (_ || _); [done|]. intros [= <-]. split.
  - change (cfBaseDomain (default_ports f2)) with (cfBaseDomain f2). by rewrite E1, Hd.
  - change (cfReservedNames (default_ports f2)) with (cfReservedNames f2). rewrite E2. intros n Hn%list_elem_of_In.
    pose proof (List.find_none _ _ Hr n Hn) as Hx. by apply negb_false_iff in Hx.
  - change (cfTCPPortRange (default_ports f2)) with (cfTCPPortRange f2). rewrite E3. eauto.
  - intros name p Hin%list_elem_of_In. pose proof (List.find_none _ _ Hports _ Hin) as Hx. cbn in Hx. unfold bad_port in Hx. bool_facts. lia.
  - change (cfControlSNI (default_ports f2)) with (cfControlSNI f2). rewrite E4. eauto.
Qed.

(** A configuration [relay.New] accepts, and what it completes. *)
Lemma relay_validate_accepts c leaves serve :
  String.eqb (rcControlAddr c) "" = false → rcTLS c = Some (leaves, true) → 0 ≤ rcPublicHTTPSPort c ≤ 65535 →
  (∀ n, n ∈ rcReservedNames c → ValidName n = true) → rcCanServeHost c = Some serve → rcTokens c = true →
  String.eqb (rcStreamAddr c) "" = false → valid_host (rcBaseDomain c) → rcControlSNI c ≠ "" → rcPublicHost c = "" →
  rcHeartbeatInterval c = 0 → rcNameGracePeriod c = 0 → 1 ≤ rcPortMin c ≤ rcPortMax c ∧ rcPortMax c ≤ 65535 →
  rcRateLimits c = mkRates (inject_Z 0) 0 0 →
  match rcSSHGateway c with Some g => String.eqb (gListen g) "" = false ∧ gHostKey g = true ∧ gKeys g = true | None => True end →
  relay_validate c = Ok (c <| rcControlSNI := ToLower (rcControlSNI c) |> <| rcPublicHost := rcBaseDomain c |>
    <| rcHeartbeatInterval := DefaultHeartbeatInterval |> <| rcNameGracePeriod := DefaultNameGracePeriod |>
    <| rcRateLimits := default_rates (mkRates (inject_Z 0) 0 0) |>).
Proof.
  destruct c as [ctl http pub dfh al stream cl gw login tls canserve base sni tokens resv reserved rates trusted ph bh lo hi hb grace].
  cbn [rcControlAddr rcTLS rcPublicHTTPSPort rcReservedNames rcCanServeHost rcTokens rcStreamAddr rcBaseDomain rcControlSNI rcPublicHost
    rcHeartbeatInterval rcNameGracePeriod rcPortMin rcPortMax rcRateLimits rcSSHGateway].
  intros Hctl -> Hpub Hres -> -> Hstream Hbase Hsni -> -> -> Hports -> Hgw. unfold relay_validate, default_serve, lower_base, default_hosts, default_times.
  cbn -[TrimSuffix ToLower StrContains Z.ltb ValidName default_rates]. rewrite Hctl, Hstream, andb_false_r. rewrite (proj2 (Z.ltb_ge pub 0)), (proj2 (Z.ltb_ge 65535 pub)) by lia. cbn -[TrimSuffix ToLower StrContains Z.ltb ValidName default_rates].
  assert (List.find (λ n, negb (ValidName n)) reserved = None) as ->.
  { destruct (List.find _ _) as [n|] eqn:Hf; [|done]. apply List.find_some in Hf as [Hn%list_elem_of_In Hv]. by rewrite (Hres n Hn) in Hv. }
  rewrite valid_host_no_dot, valid_host_lower, valid_host_relay by done. rewrite (proj2 (String.eqb_neq sni "") Hsni). cbn -[TrimSuffix ToLower StrContains Z.ltb ValidName default_rates].
  rewrite (proj2 (Z.ltb_ge lo 1)), (proj2 (Z.ltb_ge 65535 hi)), (proj2 (Z.ltb_ge hi lo)) by lia. cbn -[TrimSuffix ToLower StrContains Z.ltb ValidName default_rates]. rewrite andb_false_r. cbn -[TrimSuffix ToLower StrContains Z.ltb ValidName default_rates].
  destruct gw as [[gl gh gk]|]; [|done]. cbn in Hgw |- *. destruct Hgw as (-> & -> & ->). done.
Qed.

Lemma colon_port p : String.eqb (":" +:+ Itoa p) "" = false.
Proof. done. Qed.

(** an accepted cluster.yaml starts the relays. The configuration a node
makes of it passes the relay's own checks; the relay then decides about names
and ports by exactly the rules of the registry (logins apart, which the cluster
does not have), is reached under the base domain, and listens for TLS, for
streams, and for HTTP and SSH exactly if the file asks for them. *)
Theorem cluster_relay_starts f c link n now :
  (∀ s, ToLower (ToLower s) = ToLower s) → normalize f = Ok c → valid_host (cfBaseDomain c) → cfControlSNI c ≠ "" →
  ∃ cfg sv, node_relayConfig true true c link n = Some cfg ∧ relay_New cfg now = Ok sv ∧
    (let R := cluster_Rules c in rules (svServer sv) = mkRules (BaseDomain R) (ControlSNI R) "" (ReservedNames R) (PortMin R) (PortMax R)) ∧
    PublicHost (svServer sv) = cfBaseDomain c ∧
    wanted (svCfg sv) = [TLSSocket] ++ (if 0 <? pubHTTP c then [HTTPSocket] else []) ++
      (if 0 <? pubGateway c then [GatewaySocket] else []) ++ [StreamSocket].
Proof.
  intros Hidem Hnorm Hbase Hsni. apply normalize_ok in Hnorm as [_ Hres (lo & hi & Hrange) Hports (sni & Hlow)].
  pose proof (ParsePortRange_bounds _ _ _ Hrange) as Hb.
  assert (cluster_Rules c = mkRules (cfBaseDomain c) (cfControlSNI c) (cfAuthHost c) (cfReservedNames c) lo hi) as HR
    by (unfold cluster_Rules, port_range; by rewrite Hrange).
  assert (1 ≤ pubHTTPS c ≤ 65535) as Hpub by (apply (Hports "public.https"); left).
  destruct (node_relayConfig true true c link n) as [cfg|] eqn:Hcfg; unfold node_relayConfig in Hcfg; rewrite HR in *;
    cbn [negb PortMin PortMax] in Hcfg; [|by destruct (0 <? pubGateway c)].
  exists cfg.
  assert (relay_validate cfg = Ok (cfg <| rcControlSNI := ToLower (rcControlSNI cfg) |> <| rcPublicHost := rcBaseDomain cfg |>
    <| rcHeartbeatInterval := DefaultHeartbeatInterval |> <| rcNameGracePeriod := DefaultNameGracePeriod |>
    <| rcRateLimits := default_rates (mkRates (inject_Z 0) 0 0) |>)) as Hval.
  { apply (relay_validate_accepts cfg [] (CanServe (nCert n))).
    all: destruct (0 <? pubHTTP c), (0 <? pubGateway c); injection Hcfg as <-; try done; cbn; lia. }
  assert (rcReservations cfg = [] ∧ rcBaseDomain cfg = cfBaseDomain c ∧ rcControlSNI cfg = cfControlSNI c ∧ rcLogin cfg = None ∧
    rcReservedNames cfg = cfReservedNames c ∧ rcPortMin cfg = lo ∧ rcPortMax cfg = hi ∧
    wanted cfg = [TLSSocket] ++ (if 0 <? pubHTTP c then [HTTPSocket] else []) ++ (if 0 <? pubGateway c then [GatewaySocket] else [])
      ++ [StreamSocket]) as (E1 & E2 & E3 & E4 & E5 & E6 & E7 & E8).
  { destruct (0 <? pubHTTP c), (0 <? pubGateway c); injection Hcfg as <-; done. }
  unfold relay_New. rewrite Hval. clear Hval Hcfg.
  destruct cfg as [ctl http pub dfh al stream cl gw login tls canserve base s0 tokens resv reserved rates trusted ph bh l h hb grace].
  cbn [rcReservations rcBaseDomain rcControlSNI rcLogin rcReservedNames rcPortMin rcPortMax] in E1, E2, E3, E4, E5, E6, E7. subst.
  eexists. split; [done|]. split; [reflexivity|]. cbn [rules svServer PublicHost svCfg]. split_and!; [|done|exact E8].
  unfold relay_rules. cbn -[ToLower]. by rewrite Hlow, Hidem.
Qed.
End cluster.

(** ** A sample file *)

#[local] Existing Instance ascii_only.

Lemma ascii_lower_idem s : ToLower (ToLower s) = ToLower s.
Proof.
  unfold ToLower at 2 3. destruct (str_forall is_ascii_byte s) eqn:Hs; [|cbn; unfold ToLower; by rewrite Hs].
  apply ToLower_id. induction s as [|c s IH]; [done|]. cbn in *. apply andb_true_iff in Hs as [Hc Hs]. apply andb_true_iff.
  split; [|by apply IH]. revert Hc. clear. byte_cases c.
Qed.

Module ClusterSample.
#[export] Instance no_certs : X509 | 100 := {| X509KeyPair _ _ := None; VerifyHostname _ _ := false |}.
Definition file (base : string) : ClusterFile := mkClusterFile base "" "" ["www"] "" 0 0 2222 0 0 0 0 0 ["10.0.0.0/8"] "" 0.
Definition link : ClusterLink := mkCluster (λ _, Ok 0) (λ _, None) (λ _, None) "key".
Definition c : ClusterFile := match normalize (file "T.example.") with Ok c => c | Err _ => file "" end.
Definition n : node :=
  mkNode "relay-0" "10.0.0.1" "v1"
    (mkRelay (newNameRegistry 0) ∅ (NewIPLimiter 1%Q 1 0) (NewIPLimiter 1%Q 1 0) (mkCounters 0 0 0 0 0) ∅ false false)
    (newAccounts None) (NewLiveView second) None "" 0 false.
End ClusterSample.
Import ClusterSample.

Lemma cluster_relay_starts_witness :
  ∃ cfg sv, node_relayConfig true true c link n = Some cfg ∧ relay_New cfg 0 = Ok sv ∧
    BaseDomain (rules (svServer sv)) = "t.example" ∧ ControlSNI (rules (svServer sv)) = "connect.t.example" ∧
    wanted (svCfg sv) = [TLSSocket; HTTPSocket; GatewaySocket; StreamSocket].
Proof.
  assert (cfBaseDomain c = "t.example") as Hb by reflexivity. assert (cfControlSNI c = "connect.t.example") as Hs by reflexivity.
  destruct (cluster_relay_starts (file "T.example.") c link n 0) as (cfg & sv & Hcfg & Hnew & Hrules & _ & Hw).
  - exact ascii_lower_idem.
  - vm_compute. reflexivity.
  - rewrite Hb. apply (NormalizeDomain_valid "t.example"). reflexivity.
  - rewrite Hs. discriminate.
  - exists cfg, sv. rewrite Hrules. split_and!; [done|done|exact Hb|exact Hs|rewrite Hw; vm_compute; reflexivity].
Defined.

(** ** What the checks let through *)

(** A base domain with two dots at its end is accepted, and keeps one: the
registry's rules then have a base domain no host name is under, while the relays
cut the dot off. *)
Lemma two_dots_accepted :
  match normalize (file "t.example..") with
  | Ok c => BaseDomain (cluster_Rules c) = "t.example." ∧
      (cfg ← node_relayConfig true true c link n; match relay_New cfg 0 with Ok sv => Some (BaseDomain (rules (svServer sv))) | Err _ => None end)
        = Some "t.example"
  | Err _ => False
  end.
Proof. vm_compute. by split. Qed.
